(* ===== verification/_CoqProject ===== *)
-Q . S2P
Prelude.v
Config.v
CString.v
Terminal.v
Heap.v
Kheap.v
Paging.v
Idt.v
Gdt.v
Keyboard.v
PathParser.v
Disk.v
Fat16.v
FatLookup.v
File.v
System.v
Elf.v
Task.v
UserMem.v
Process.v
ProcessMem.v
Kernel.v
Syscall.v
UserLib.v
Paging64.v
Kernel64.v
LibBase.v
LibStrto.v
LibTime.v
LibTimeText.v
LibSort.v
LibTree.v
LibCtype.v
LibString.v
LibHash.v
LibAlloc.v
LibPrintf.v
LibInet.v
LibRand.v
LibSync.v
LibDes.v
LibDesSpec.v
LibCrypt.v
LibStdio.v
LibStreams.v
LibLines.v
LibRegex.v
LibRegexMatch.v
LibRegexComp.v
