(* ===== verification/Prelude.v ===== *)
(** * Verification of the Vana kernel and its C libraries

    Vana is a small operating system: a 32-bit kernel with a 64-bit configuration
    under way (src/src), user programs with their library (src/programs), and an
    example C library for a 64-bit host (src/example_libc).  This library models
    them as functions of Rocq, file by file, and proves what they compute.

    ** How the code is modelled

    Machine integers are [Z] with the wrap-around of their width written out
    ([u8], [u16], [u32], [u64], [s8], [s32] below, [s64] in LibBase.v).  The
    arithmetic of a signed type whose overflow C leaves undefined is exact in the
    kernel files and checked in the files of the example library ([int32],
    [int64]: a result outside the type is [None]).  An array is a list, read with
    [l.[i]] and written with [l.[i <- x]]; both are [None] outside the array.

    A function of the kernel runs in the monad of this file: a state is threaded
    through and the [outcome] says whether the code returns, does something
    undefined, panics or leaves for user mode.  A function of the example library
    is an [option] over the state it changes, [None] being an undefined access; the
    streams, which wait for the system, use the monad.

    Structures that are reached only through typed pointers are objects of stores
    keyed by address; what is freed is removed from its store, so that a use after
    free is an undefined access.  What the code addresses as raw memory (page
    tables, program images, stacks, the headers of allocators) is bytes in a
    memory.  Function pointers are constructors of a type, and a call through
    them is a match.  A recursion that is not structural takes a number of rounds;
    every theorem that says a function returns shows the number is enough, so the
    bound is never visible in a conclusion.

    What is outside the sources is a parameter: an ATA device behind the ports
    ([AtaDisk] in Disk.v, with a device that follows it), the loader's direct map
    (Paging64.v), the answers of the kernel to a user program ([world] in
    UserLib.v), [sbrk] (LibAlloc.v), the comparison function of the caller
    (LibSort.v, LibTree.v), the words of the system's random source (LibRand.v),
    which allocations succeed (LibRegex.v), the calls of the system under the streams
    ([Sink] and [Source] in LibStreams.v, with a system that follows them).

    ** The 32-bit kernel

    - Config.v (config.h, status.h), CString.v (string.c, memory.c): constants,
      strings and memory blocks; every routine agrees with a reference on lists.
    - Terminal.v (console part of kernel.c): [print] implements a reference
      rendering on a linear screen.
    - Heap.v (heap.c), Kheap.v (kheap.c): the block table is shown to be a
      sequence of free blocks and allocated runs, [heap_malloc] first fit on it;
      any sequence of allocations and releases keeps live blocks apart.  What the
      code does with a request of no bytes, and with one that finds no room while
      the last block is free, is stated apart.
      [Allocator] is the interface the clients of the heap are verified against.
    - Paging.v (paging.c, paging.asm): two-level page tables in memory; mapping
      changes the pages asked for and no other, and translation inverts it.
    - Idt.v (idt.c tables, io.asm, pic.c), Gdt.v (gdt.c, tss.asm), Keyboard.v
      (keyboard.c, classic.c): descriptors decode to what was encoded; the
      keyboard buffer is a queue of 1024 characters.
    - PathParser.v (pparser.c): a valid path yields its drive and components, an
      invalid one null, and nothing leaks.
    - Disk.v (disk.c, streamer.c), Fat16.v and FatLookup.v (fat16.c), File.v
      (file.c): in layers, a stream delivers the bytes of the medium, [fat16_read]
      the bytes of a cluster chain, and [fopen] followed by [fread] the contents of
      the named file; each layer is proved against the contract of the one below.
    - System.v (task.h, process.h, elfloader.h, idt.h): the state of the running
      kernel.  Elf.v (elf.c, elfloader.c): the checks of a header and the extent of
      an image.  Task.v, UserMem.v (task.c): the scheduler serves the tasks in
      turn; a string the kernel copies from a task is the one the task sees.
      Process.v, ProcessMem.v (process.c): the user's [malloc] and [free], and the
      release of all a process owns when it ends.
    - Kernel.v, Syscall.v (isr80h/, dispatch of idt.c, kernel.c): the system calls
      from interrupt to return to user mode, and the start of the kernel.
    - UserLib.v (programs/stdlib, programs/shell, programs/blank): the line editor,
      [strtok], the command parser, and a round of the shell on any keys, which
      leaves the shell ready for the next.

    ** The 64-bit kernel

    - Paging64.v (paging64.c): four-level tables with an invariant that says which
      page is which table; the direct map is built within the memory set aside.
    - Kernel64.v (kernel64.c, idt64.c, gdt64, tss64, syscall.c, page_fault.c): what
      the processor finds in its tables and registers after [kernel_main].

    ** The example library

    - LibBase.v: 64-bit arithmetic with checks.
    - LibStrto.v (strto.c), LibPrintf.v (printf.c): numbers from text with
      their limits and the texts that are misread, formatted output against a reference for each directive, and that
      what is printed is read back.
    - LibTime.v, LibTimeText.v (time_conv.c, time_r.c, strftime.c, strptime.c):
      seconds, calendar time and text, round trips in both directions.
    - LibSort.v (qsort.c), LibTree.v (search_tree.c), LibHash.v (search_hash.c):
      sorted permutations, search trees that implement a finite set, an open
      hash table that implements a finite map.
    - LibCtype.v (ctype.c, ctype.h), LibString.v (string.c, memory_ops.c,
      string_extra.c, strndup.c): each routine against its reference, overlapping
      memory included.
    - LibAlloc.v (memory.c): headers and free list in a byte memory; any sequence
      of [malloc], [calloc], [realloc] and [free] keeps live blocks apart and their
      contents intact.
    - LibInet.v (inet_pton.c, inet_ntop.c, inet_aton.c, inet_addr.c): both address
      families to and from text.
    - LibRand.v (rand.c, rand48.c, arc4random.c): periods of the generators, and
      that bounded random numbers are uniform.
    - LibSync.v (pthread_spin.c, semaphore.c, pthread_rwlock.c): threads as places
      in the code, runs as interleavings of atomic operations; exclusion holds in
      every reachable state, and a scenario in which the read-write lock is lost.
    - LibDes.v (crypt.c), LibDesSpec.v, LibCrypt.v: the tables that merge the
      permutations and S-boxes of DES compute the cipher of the standard on bits,
      decryption undoes encryption, and both DES formats of [crypt] give the text
      their documentation promises.
    - LibStdio.v (stdio.c, memstream.c, getline.c, fopencookie.c, the calls of io.c and
      fd.c under them), LibStreams.v, LibLines.v: a stream that is written delivers what was
      written, in order and once, however the system cuts and interrupts; a stream
      that is read implements the same calls on the list of the file's bytes; a
      memory stream leaves what was written with the caller; repeated [getline] gives
      the lines of the file.  The number of rounds
      of the loop that flushes is enough when it reaches the size of the buffer and
      the interruptions of the system.  The runs in which data is lost, repeated or
      written back are at the end of LibStreams.v.
    - LibRegex.v (regex.c), LibRegexMatch.v, LibRegexComp.v: ranges written out,
      alternatives multiplied out, tokens, and the backtracking matcher; a compiled
      pattern finds a match if and only if some part of the text is in the language
      of its syntax tree, and the captures are those of a match.  The patterns on
      which the code reports a wrong end, or reads what it did not write, are at
      the end of LibRegexComp.v.

    Theorems named in the comments with a number C1, C2, ... are the properties a
    caller relies on; each has a witness that applies it to concrete data where
    it has hypotheses.  Their comments list the conditions under which they hold;
    where the code goes wrong outside them, a lemma beside the theorem shows how.

    ** Not modelled

    - The boot loaders and the remaining assembly (register saving, mode switches):
      16-bit and privileged code whose effect is on the processor.  The entry into
      user mode and the interrupt frame appear as values.
    - loader/elf64.c: it is written against a file interface the kernel does not
      have.  programs/libc: its system call convention is not the kernel's.
    - Of the example library: the wrappers around system calls of the host (files
      beyond what the streams use, processes, sockets, signals), floating point
      (math.c, fenv.c, strtod), the password hashes that call a cryptographic
      library, and dynamic loading: their behaviour is that of the host, not of code
      in the repository.
    - Locks inside the allocator, the hash table and the streams: one thread runs
      there.  Weak memory: LibSync.v interleaves operations in one order. *)

From stdpp Require Export base tactics numbers option list functions gmap.
From Stdlib Require Export ZArith Lia.

Local Open Scope Z_scope.

(** ** Machine integers

    C integers are modelled as [Z] and every conversion to a [w]-bit type is
    written out: [u8], [u16], [u32], [u64] are the unsigned conversions and
    [s8], [s32] the two's complement ones ([char] and [int] of the i686 ABI). *)

Definition u8 (z : Z) : Z := z mod 2 ^ 8.
Definition u16 (z : Z) : Z := z mod 2 ^ 16.
Definition u32 (z : Z) : Z := z mod 2 ^ 32.
Definition u64 (z : Z) : Z := z mod 2 ^ 64.
Definition s8 (z : Z) : Z := (z + 2 ^ 7) mod 2 ^ 8 - 2 ^ 7.
Definition s32 (z : Z) : Z := (z + 2 ^ 31) mod 2 ^ 32 - 2 ^ 31.

Definition is_u8 (z : Z) : Prop := 0 <= z < 2 ^ 8.
Definition is_u16 (z : Z) : Prop := 0 <= z < 2 ^ 16.
Definition is_u32 (z : Z) : Prop := 0 <= z < 2 ^ 32.
Definition is_u64 (z : Z) : Prop := 0 <= z < 2 ^ 64.
Definition is_s32 (z : Z) : Prop := - 2 ^ 31 <= z < 2 ^ 31.

#[export] Instance is_u8_dec z : Decision (is_u8 z).
Proof. unfold is_u8. apply _. Defined.

(** ** Outcomes of a C computation

    [Done] is a normal return.  [Panic] is a call of [panic] (or the
    equivalent [while (1) {}] after an error message), from which the kernel
    never returns.  [Undef] is an access the program has no right to make: an
    index outside an array, a null or dangling pointer.  [Spin] says that the
    fuel given to a loop with no static bound ran out. *)

Inductive outcome (A : Type) : Type :=
| Done (a : A)
| Panic
| Undef
| Spin.
Arguments Done {A} a.
Arguments Panic {A}.
Arguments Undef {A}.
Arguments Spin {A}.

#[export] Instance outcome_ret : MRet outcome := @Done.
#[export] Instance outcome_bind : MBind outcome := λ A B f m,
  match m with Done a => f a | Panic => Panic | Undef => Undef | Spin => Spin end.
#[export] Instance outcome_fmap : FMap outcome := λ A B f m,
  match m with Done a => Done (f a) | Panic => Panic | Undef => Undef | Spin => Spin end.

Definition of_option {A} (o : option A) : outcome A :=
  match o with Some a => Done a | None => Undef end.

(** The state monad over outcomes: a routine that updates the state [S]. *)
Definition M (S A : Type) : Type := S → outcome (A * S).

#[export] Instance M_ret S : MRet (M S) := λ A a s, Done (a, s).
#[export] Instance M_bind S : MBind (M S) := λ A B f m s,
  match m s with
  | Done (a, s') => f a s'
  | Panic => Panic
  | Undef => Undef
  | Spin => Spin
  end.

Definition gets {S A} (f : S → A) : M S A := λ s, Done (f s, s).
Definition modify {S} (f : S → S) : M S unit := λ s, Done (tt, f s).
Definition panic {S A} : M S A := λ _, Panic.
Definition undef {S A} : M S A := λ _, Undef.
Definition liftO {S A} (o : option A) : M S A :=
  λ s, match o with Some a => Done (a, s) | None => Undef end.

(** Running a routine of a component inside a larger state. *)
Definition zoom {S T A} (get : S → T) (set : T → S → S) (m : M T A) : M S A := λ s,
  match m (get s) with
  | Done (a, t) => Done (a, set t s)
  | Panic => Panic
  | Undef => Undef
  | Spin => Spin
  end.

(** ** Arrays

    A C array is a list; reading or writing outside it yields [None]. *)

Definition idx {A} (l : list A) (i : Z) : option A :=
  if i <? 0 then None else l !! Z.to_nat i.

Definition upd {A} (l : list A) (i : Z) (x : A) : option (list A) :=
  if (0 <=? i) && (i <? Z.of_nat (length l))
  then Some (<[Z.to_nat i := x]> l) else None.

Declare Scope vana_scope.
Delimit Scope vana_scope with vana.
Notation "l .[ i ]" := (idx l i) (at level 1, left associativity, format "l .[ i ]") : vana_scope.
Notation "l .[ i <- x ]" := (upd l i x)
  (at level 1, left associativity, format "l .[ i  <-  x ]") : vana_scope.
Open Scope vana_scope.

(** ** Automation *)

Create HintDb vana discriminated.

Lemma u8_small z : is_u8 z → u8 z = z.
Proof. intros H. by apply Z.mod_small. Qed.

Lemma u16_small z : is_u16 z → u16 z = z.
Proof. intros H. by apply Z.mod_small. Qed.

Lemma u32_small z : is_u32 z → u32 z = z.
Proof. intros H. by apply Z.mod_small. Qed.

Lemma u64_small z : is_u64 z → u64 z = z.
Proof. intros H. by apply Z.mod_small. Qed.

Lemma s32_small z : is_s32 z → s32 z = z.
Proof. intros H. unfold s32, is_s32 in *. rewrite Z.mod_small; lia. Qed.

Lemma s8_small z : - 2 ^ 7 <= z < 2 ^ 7 → s8 z = z.
Proof. intros H. unfold s8. rewrite Z.mod_small; lia. Qed.

Lemma u8_range z : is_u8 (u8 z).
Proof. by apply Z.mod_pos_bound. Qed.

Lemma u16_range z : is_u16 (u16 z).
Proof. by apply Z.mod_pos_bound. Qed.

Lemma u32_range z : is_u32 (u32 z).
Proof. by apply Z.mod_pos_bound. Qed.

Lemma u64_range z : is_u64 (u64 z).
Proof. by apply Z.mod_pos_bound. Qed.

Lemma s32_range z : is_s32 (s32 z).
Proof.
  unfold is_s32, s32. pose proof (Z.mod_pos_bound (z + 2 ^ 31) (2 ^ 32)). lia.
Qed.

#[export] Hint Resolve u8_range u16_range u32_range u64_range s32_range : vana.

(** [widths] removes the conversions whose argument is in range. *)
Ltac range := unfold is_u8, is_u16, is_u32, is_u64, is_s32 in *; lia.
Ltac widths :=
  repeat match goal with
  | |- context [u8 ?x] => rewrite (u8_small x) by range
  | |- context [u16 ?x] => rewrite (u16_small x) by range
  | |- context [u32 ?x] => rewrite (u32_small x) by range
  | |- context [u64 ?x] => rewrite (u64_small x) by range
  | |- context [s32 ?x] => rewrite (s32_small x) by range
  end.

Lemma eqb_decide (a b : Z) : (a =? b) = bool_decide (a = b).
Proof. destruct (Z.eqb_spec a b); [by rewrite bool_decide_eq_true_2|by rewrite bool_decide_eq_false_2]. Qed.

(** Linear goals with divisions and remainders by constants. *)
Ltac euclid :=
  unfold is_u8, is_u16, is_u32, is_u64, is_s32 in *; Z.to_euclidean_division_equations; lia.

(** [btests] turns the boolean tests of the code into propositions, one case
    per outcome of each test. *)
Ltac btest_in b :=
  lazymatch b with
  | ?x =? ?y => destruct (Z.eqb_spec x y)
  | ?x <? ?y => destruct (Z.ltb_spec x y)
  | ?x <=? ?y => destruct (Z.leb_spec x y)
  | negb ?c => btest_in c
  | ?c && ?d => first [btest_in c | btest_in d]
  | ?c || ?d => first [btest_in c | btest_in d]
  end.
Ltac btest :=
  match goal with
  | |- context [if ?b then _ else _] => btest_in b; simpl
  end.
Ltac btests := repeat (btest; try lia).

(** ** Bit operations *)

Lemma u32_land z : u32 z = Z.land z (Z.ones 32).
Proof. by rewrite Z.land_ones. Qed.

Lemma u32_lor a b : u32 (Z.lor a b) = Z.lor (u32 a) (u32 b).
Proof. by rewrite !u32_land, Z.land_lor_distr_l. Qed.

Lemma u32_s32 z : u32 (s32 z) = u32 z.
Proof.
  unfold u32, s32. rewrite Zminus_mod_idemp_l. f_equal. lia.
Qed.

(** Disjoint bit fields add up. *)
Lemma lor_low k a f : 0 <= k → a mod 2 ^ k = 0 → 0 <= f < 2 ^ k → Z.lor a f = a + f.
Proof.
  intros Hk Ha Hf.
  assert (Z.land a f = 0) as E.
  { apply Z.bits_inj'. intros n Hn. rewrite Z.land_spec, Z.bits_0.
    destruct (Z.ltb_spec n k) as [H|H].
    - by rewrite <- (Z.mod_pow2_bits_low a k n), Ha, Z.bits_0 by lia.
    - rewrite <- (Z.mod_small f (2 ^ k)), (Z.mod_pow2_bits_high f) by lia. apply andb_false_r. }
  rewrite <- Z.lxor_lor by done. symmetry. by apply Z.add_nocarry_lxor.
Qed.

Lemma lor_bound a b k : 0 <= k → 0 <= a < 2 ^ k → 0 <= b < 2 ^ k → 0 <= Z.lor a b < 2 ^ k.
Proof.
  intros Hk Ha Hb. split; [apply Z.lor_nonneg; lia|].
  destruct (decide (Z.lor a b = 0)) as [->|Hne]; [lia|].
  assert (0 <= Z.lor a b) by (apply Z.lor_nonneg; lia).
  apply Z.log2_lt_pow2; [lia|]. rewrite Z.log2_lor by lia.
  destruct (decide (a = 0)) as [->|], (decide (b = 0)) as [->|]; try done;
    apply Z.max_lub_lt; try (apply Z.log2_lt_pow2; lia);
    (destruct (decide (k = 0)) as [->|]; simpl; lia).
Qed.

(** Masking off the twelve low bits of a 32-bit value. *)
Lemma land_page_mask z : is_u32 z → Z.land z 0xfffff000 = z - z mod 4096.
Proof.
  intros Hz. replace (z - z mod 4096) with (Z.shiftl (Z.shiftr z 12) 12).
  2:{ rewrite Z.shiftl_mul_pow2, Z.shiftr_div_pow2 by lia. euclid. }
  change 0xfffff000 with (Z.shiftl (Z.ones 20) 12).
  apply Z.bits_inj'. intros n Hn. rewrite Z.land_spec.
  destruct (Z.ltb_spec n 12).
  - by rewrite !Z.shiftl_spec_low, andb_false_r.
  - rewrite !Z.shiftl_spec, Z.shiftr_spec by lia. rewrite Z.sub_add.
    destruct (Z.ltb_spec n 32).
    + by rewrite Z.ones_spec_low, andb_true_r by lia.
    + rewrite <- (Z.mod_small z (2 ^ 32)), Z.mod_pow2_bits_high by (done || lia). done.
Qed.

(** ** Monad laws used as rewriting steps *)

Lemma bind_done {S A B} (m : M S A) (f : A → M S B) s a s' :
  m s = Done (a, s') → (m ≫= f) s = f a s'.
Proof. intros H. unfold mbind, M_bind. by rewrite H. Qed.

Lemma bind_gets {S A B} (g : S → A) (f : A → M S B) s : (gets g ≫= f) s = f (g s) s.
Proof. done. Qed.

Lemma bind_modify {S B} (g : S → S) (f : unit → M S B) s : (modify g ≫= f) s = f tt (g s).
Proof. done. Qed.

Lemma bind_mret {S A B} (a : A) (f : A → M S B) s : (mret a ≫= f) s = f a s.
Proof. done. Qed.

Lemma bind_liftO {S A B} (o : option A) (f : A → M S B) a s : o = Some a → (liftO o ≫= f) s = f a s.
Proof. by intros ->. Qed.

Lemma bind_done_inv {S A B} (m : M S A) (f : A → M S B) s r :
  (m ≫= f) s = Done r → ∃ a s', m s = Done (a, s') ∧ f a s' = Done r.
Proof.
  unfold mbind, M_bind. destruct (m s) as [[a s']| | |]; naive_solver.
Qed.

Lemma zoom_done {S T A} (get : S → T) (set : T → S → S) (m : M T A) s a t :
  m (get s) = Done (a, t) → zoom get set m s = Done (a, set t s).
Proof. unfold zoom. by intros ->. Qed.

(** [keeps f m]: the routine [m] leaves the part [f] of the state alone. *)
Definition keeps {S A T} (f : S → T) (m : M S A) : Prop :=
  ∀ s a s', m s = Done (a, s') → f s' = f s.

Section keeps.
Context {S T : Type} (f : S → T).

Lemma keeps_ret {A} (a : A) : keeps f (mret a).
Proof. intros s b s' E. by injection E as _ <-. Qed.
Lemma keeps_gets {A} (g : S → A) : keeps f (gets g).
Proof. intros s b s' E. by injection E as _ <-. Qed.
Lemma keeps_modify g : (∀ s, f (g s) = f s) → keeps f (modify g).
Proof. intros Hg s b s' E. by injection E as _ <-. Qed.
Lemma keeps_liftO {A} (o : option A) : keeps f (liftO o).
Proof. intros s b s' E. destruct o; [|done]. by injection E as _ <-. Qed.
Lemma keeps_stop {A} (o : outcome (A * S)) : (∀ r, o ≠ Done r) → keeps f (λ _, o).
Proof. intros Ho s b s' E. by destruct (Ho (b, s')). Qed.
Lemma keeps_bind {A B} (m : M S A) (k : A → M S B) :
  keeps f m → (∀ a, keeps f (k a)) → keeps f (m ≫= k).
Proof.
  intros Hm Hk s b s' E. apply bind_done_inv in E as (a & s1 & E1 & E2).
  rewrite (Hk _ _ _ _ E2). by apply Hm in E1.
Qed.
Lemma keeps_zoom {U V A} (g : U → V) (get : S → U) (set : U → S → S) (m : M U A) :
  keeps g m → (∀ t s, g t = g (get s) → f (set t s) = f s) → keeps f (zoom get set m).
Proof.
  intros Hm Hf s b s' E. unfold zoom in E. destruct (m (get s)) as [[a t]| | |] eqn:Em; simplify_eq.
  apply Hf. by eapply Hm.
Qed.
(** A routine on a part of the state that [f] does not look at. *)
Lemma keeps_zoom_off {U A} (get : S → U) (set : U → S → S) (m : M U A) :
  (∀ t s, f (set t s) = f s) → keeps f (zoom get set m).
Proof. intros Hf s b s' E. unfold zoom in E. destruct (m (get s)) as [[a t]| | |]; simplify_eq. done. Qed.
End keeps.

Create HintDb keeps discriminated.
#[export] Hint Resolve keeps_ret keeps_gets keeps_liftO : keeps.
#[export] Hint Extern 1 (keeps _ (λ _, _)) => (apply keeps_stop; done) : keeps.

(** [keep]: one case per branch of the routine, one goal per call. *)
Ltac keep :=
  repeat first
    [ progress intros
    | apply keeps_bind
    | (apply keeps_modify; done)
    | solve [auto with keeps]
    | match goal with
      | |- keeps _ (if ?b then _ else _) => destruct b
      | |- keeps _ (match ?x with _ => _ end) => destruct x
      | |- keeps _ (let _ := _ in _) => cbv zeta
      end ].

(** ** Lists indexed by [Z] *)

Section lists.
Context {A : Type}.
Implicit Types (l : list A) (x y : A) (i j : Z).

Lemma idx_Some_range l i x : l.[i] = Some x → 0 <= i < Z.of_nat (length l).
Proof.
  unfold idx. case (Z.ltb_spec i 0); intros Hi H; [done|].
  apply lookup_lt_Some in H. lia.
Qed.

Lemma idx_is_Some l i : 0 <= i < Z.of_nat (length l) → ∃ x, l.[i] = Some x.
Proof.
  intros H. unfold idx. rewrite (proj2 (Z.ltb_ge i 0)) by lia.
  apply lookup_lt_is_Some_2. lia.
Qed.

Lemma idx_nat l (n : nat) : l.[Z.of_nat n] = l !! n.
Proof. unfold idx. rewrite (proj2 (Z.ltb_ge _ 0)) by lia. by rewrite Nat2Z.id. Qed.

Lemma idx_None l i : i < 0 ∨ Z.of_nat (length l) <= i → l.[i] = None.
Proof.
  unfold idx. case (Z.ltb_spec i 0); intros Hi H; [done|].
  apply lookup_ge_None_2. lia.
Qed.

Lemma upd_Some l i x : 0 <= i < Z.of_nat (length l) →
  l.[i <- x] = Some (<[Z.to_nat i := x]> l).
Proof. intros H. unfold upd. by btests. Qed.

Lemma upd_None l i x : i < 0 ∨ Z.of_nat (length l) <= i → l.[i <- x] = None.
Proof. intros H. unfold upd. by btests. Qed.

Lemma upd_length l l' i x : l.[i <- x] = Some l' → length l' = length l.
Proof.
  unfold upd. destruct (_ && _); intros; simplify_eq. by rewrite length_insert.
Qed.

Lemma upd_idx_eq l l' i x : l.[i <- x] = Some l' → l'.[i] = Some x.
Proof.
  unfold upd, idx. destruct (Z.leb_spec 0 i), (Z.ltb_spec i (Z.of_nat (length l)));
    intros; simplify_eq/=. rewrite (proj2 (Z.ltb_ge i 0)) by lia.
  rewrite list_lookup_insert_eq; [done|lia].
Qed.

Lemma upd_idx_ne l l' i j x : i ≠ j → l.[i <- x] = Some l' → l'.[j] = l.[j].
Proof.
  unfold upd, idx. destruct (Z.leb_spec 0 i), (Z.ltb_spec i (Z.of_nat (length l)));
    intros; simplify_eq/=. case (Z.ltb_spec j 0); [done|]; intros.
  rewrite list_lookup_insert_ne; [done|lia].
Qed.

(** Access to the element between two parts of an array. *)
Lemma idx_app l x l' : (l ++ x :: l').[Z.of_nat (length l)] = Some x.
Proof. rewrite idx_nat. by apply list_lookup_middle. Qed.

Lemma upd_app l x y l' : (l ++ x :: l').[Z.of_nat (length l) <- y] = Some (l ++ y :: l').
Proof.
  rewrite upd_Some by (rewrite length_app; simpl; lia).
  rewrite Nat2Z.id, insert_app_r_alt, Nat.sub_diag by lia. done.
Qed.
End lists.
