(* ===== verification/Config.v ===== *)
(** * Configuration constants: src/src/config.h, src/src/status.h and the
      error macros of src/src/kernel.h. *)

From S2P Require Import Prelude.
Local Open Scope Z_scope.

(** ** config.h *)

Definition VANA_HEAP_SIZE_BYTES : Z := 104857600.
Definition VANA_HEAP_BLOCK_SIZE : Z := 4096.
Definition VANA_HEAP_ADDRESS : Z := 0x01000000.
Definition VANA_HEAP_TABLE_ADDRESS : Z := 0x00007E00.

Definition VANA_SECTOR_SIZE : Z := 512.

Definition VANA_MAX_FILESYSTEMS : Z := 12.
Definition VANA_MAX_FILE_DESCRIPTORS : Z := 512.
Definition VANA_MAX_PATH : Z := 108.

Definition VANA_TOTAL_GDT_SEGMENTS : Z := 6.

Definition VANA_PROGRAM_VIRTUAL_ADDRESS : Z := 0x400000.
Definition VANA_USER_PROGRAM_STACK_SIZE : Z := 1024 * 16.
Definition VANA_PROGRAM_VIRTUAL_STACK_ADDRESS_START : Z := 0x3FF000.
Definition VANA_PROGRAM_VIRTUAL_STACK_ADDRESS_END : Z :=
  VANA_PROGRAM_VIRTUAL_STACK_ADDRESS_START - VANA_USER_PROGRAM_STACK_SIZE.

Definition VANA_MAX_PROGRAM_ALLOCATIONS : Z := 1024.
Definition VANA_MAX_PROCESSES : Z := 12.

Definition USER_DATA_SEGMENT : Z := 0x23.
Definition USER_CODE_SEGMENT : Z := 0x1b.

Definition VANA_MAX_ISR80H_COMMANDS : Z := 1024.
Definition VANA_KEYBOARD_BUFFER_SIZE : Z := 1024.

(** ** status.h *)

Definition VANA_ALL_OK : Z := 0.
Definition EIO : Z := 1.
Definition EINVARG : Z := 2.
Definition ENOMEM : Z := 3.
Definition EBADPATH : Z := 4.
Definition EFSNOTUS : Z := 5.
Definition ERDONLY : Z := 6.
Definition EUNIMP : Z := 7.
Definition EISTKN : Z := 8.
Definition EINFORMAT : Z := 9.

(** ** kernel.h: errors carried in pointers *)

Definition ERROR (value : Z) : Z := u32 value.
Definition ERROR_I (value : Z) : Z := s32 value.
Definition ISERR (value : Z) : bool := s32 value <? 0.

(** An error code stored in a pointer is recognised and recovered. *)
Lemma ERROR_roundtrip e : is_s32 e → ERROR_I (ERROR e) = e.
Proof.
  unfold ERROR_I, ERROR, s32, u32. intros H.
  rewrite Zplus_mod_idemp_l. apply (s32_small e H).
Qed.

Lemma ISERR_ERROR e : is_s32 e → e < 0 → ISERR (ERROR e) = true.
Proof.
  intros H Hneg. unfold ISERR. fold (ERROR_I (ERROR e)).
  rewrite ERROR_roundtrip by done. by apply Z.ltb_lt.
Qed.
