(* ===== verification/CString.v ===== *)
(** * Memory and string helpers

    Models src/src/memory/memory.c and src/src/string/string.c.  A buffer is
    the list of the bytes (0..255) that start at the pointer handed to the
    routine; a routine that would read or write past the end of a buffer
    returns [None].  A [char] is signed on i686: [s8] converts a byte to it. *)

From Stdlib Require Ascii String.
Export String (string(..)).
Export (notations) String.
From S2P Require Import Prelude Config.
Local Open Scope Z_scope.

(** ** memory.c *)

Fixpoint memset_loop (ptr : list Z) (c : Z) (n : nat) : option (list Z) :=
  match n, ptr with
  | O, _ => Some ptr
  | S n, [] => None
  | S n, _ :: t => t' ← memset_loop t c n; Some (u8 c :: t')
  end.

(** [memset(ptr, c, size)]: the buffer after the call. *)
Definition memset (ptr : list Z) (c size : Z) : option (list Z) :=
  memset_loop ptr c (Z.to_nat size).

Fixpoint memcmp_loop (s1 s2 : list Z) (n : nat) : option Z :=
  match n, s1, s2 with
  | O, _, _ => Some 0
  | S n, c1 :: t1, c2 :: t2 =>
      if s8 c1 =? s8 c2 then memcmp_loop t1 t2 n
      else Some (if s8 c1 <? s8 c2 then -1 else 1)
  | S _, _, _ => None
  end.

Definition memcmp (s1 s2 : list Z) (count : Z) : option Z :=
  memcmp_loop s1 s2 (Z.to_nat count).

Fixpoint memcpy_loop (dest src : list Z) (n : nat) : option (list Z) :=
  match n, dest, src with
  | O, _, _ => Some dest
  | S n, _ :: d, b :: s => d' ← memcpy_loop d s n; Some (b :: d')
  | S _, _, _ => None
  end.

(** [while (len--)] with a negative [len] runs off both buffers. *)
Definition memcpy (dest src : list Z) (len : Z) : option (list Z) :=
  if len <? 0 then None else memcpy_loop dest src (Z.to_nat len).

(** ** string.c *)

Definition tolower (s1 : Z) : Z :=
  if (65 <=? s1) && (s1 <=? 90) then s8 (s1 + 32) else s1.

Fixpoint strlen (ptr : list Z) : option Z :=
  match ptr with
  | [] => None
  | c :: t => if c =? 0 then Some 0 else i ← strlen t; Some (i + 1)
  end.

Fixpoint strnlen_loop (ptr : list Z) (n : nat) : option Z :=
  match n, ptr with
  | O, _ => Some 0
  | S _, [] => None
  | S n, c :: t => if c =? 0 then Some 0 else i ← strnlen_loop t n; Some (i + 1)
  end.

Definition strnlen (ptr : list Z) (max : Z) : option Z := strnlen_loop ptr (Z.to_nat max).

Fixpoint strnlen_terminator_loop (str : list Z) (n : nat) (terminator : Z) : option Z :=
  match n, str with
  | O, _ => Some 0
  | S _, [] => None
  | S n, c :: t =>
      if (c =? 0) || (s8 c =? s8 terminator) then Some 0
      else i ← strnlen_terminator_loop t n terminator; Some (i + 1)
  end.

Definition strnlen_terminator (str : list Z) (max terminator : Z) : option Z :=
  strnlen_terminator_loop str (Z.to_nat max) terminator.

Fixpoint istrncmp_loop (s1 s2 : list Z) (n : nat) : option Z :=
  match n, s1, s2 with
  | O, _, _ => Some 0
  | S n, u1 :: t1, u2 :: t2 =>
      if negb (u1 =? u2) && negb (tolower (s8 u1) =? tolower (s8 u2)) then Some (u1 - u2)
      else if u1 =? 0 then Some 0
      else istrncmp_loop t1 t2 n
  | S _, _, _ => None
  end.

Definition istrncmp (s1 s2 : list Z) (n : Z) : option Z := istrncmp_loop s1 s2 (Z.to_nat n).

Fixpoint strncmp_loop (str1 str2 : list Z) (n : nat) : option Z :=
  match n, str1, str2 with
  | O, _, _ => Some 0
  | S n, u1 :: t1, u2 :: t2 =>
      if negb (u1 =? u2) then Some (u1 - u2)
      else if u1 =? 0 then Some 0
      else strncmp_loop t1 t2 n
  | S _, _, _ => None
  end.

Definition strncmp (str1 str2 : list Z) (n : Z) : option Z := strncmp_loop str1 str2 (Z.to_nat n).

(** [strcpy(dest, src)]: the destination buffer after the call. *)
Fixpoint strcpy (dest src : list Z) : option (list Z) :=
  match src, dest with
  | [], _ => None
  | _, [] => None
  | c :: s, _ :: d => if c =? 0 then Some (0 :: d) else d' ← strcpy d s; Some (c :: d')
  end.

(** The loop copies at most [n] bytes and then stores the terminator. *)
Fixpoint strncpy_loop (dest src : list Z) (n : nat) : option (list Z) :=
  match n with
  | O => match dest with [] => None | _ :: d => Some (0 :: d) end
  | S n =>
      match src, dest with
      | c :: s, _ :: d =>
          if c =? 0 then Some (0 :: d) else d' ← strncpy_loop d s n; Some (c :: d')
      | _, _ => None
      end
  end.

Definition strncpy (dest src : list Z) (count : Z) : option (list Z) :=
  strncpy_loop dest src (Z.to_nat (count - 1)).

Definition isdigit (c : Z) : bool := (48 <=? c) && (c <=? 57).

Definition tonumericdigit (c : Z) : Z := c - 48.

(** The first loop of [int_to_string] fills [temp[32]] with the digits, least
    significant first; [room] is what is left of [temp]. *)
Fixpoint digits_loop (room : nat) (value : Z) (temp : list Z) : option (list Z) :=
  if 0 <? value then
    match room with
    | O => None
    | S room => digits_loop room (Z.quot value 10) (u8 (Z.rem value 10 + 48) :: temp)
    end
  else Some temp.

(** The second loop: [out[j++] = temp[--i]] until [temp] is used up, then the
    terminator.  The top of [temp] comes first in the list. *)
Fixpoint digits_out (temp out : list Z) : option (list Z) :=
  match temp, out with
  | _, [] => None
  | [], _ :: o => Some (0 :: o)
  | d :: temp, _ :: o => o' ← digits_out temp o; Some (d :: o')
  end.

(** [int_to_string(value, out)]: the buffer [out] after the call. *)
Definition int_to_string (value : Z) (out : list Z) : option (list Z) :=
  if value =? 0 then
    match out with _ :: _ :: o => Some (48 :: 0 :: o) | _ => None end
  else temp ← digits_loop 32 value []; digits_out temp out.

(** ** String literals *)

Definition codes (s : string) : list Z :=
  (λ a, Z.of_N (Ascii.N_of_ascii a)) <$> String.list_ascii_of_string s.

(** The bytes of a literal, and of a literal that ends in a newline. *)
Definition text (s : string) : list Z := codes s ++ [0].
Definition line (s : string) : list Z := codes s ++ [10; 0].

Arguments text _%_string.
Arguments line _%_string.

(** ** Buffers as strings *)

(** The string a buffer holds: the bytes before its first NUL. *)
Fixpoint cstr (b : list Z) : option (list Z) :=
  match b with
  | [] => None
  | c :: t => if c =? 0 then Some [] else s ← cstr t; Some (c :: s)
  end.

Definition nonzero (s : list Z) : Prop := Forall (λ c, c ≠ 0) s.

Lemma cstr_app s r : nonzero s → cstr (s ++ 0 :: r) = Some s.
Proof.
  induction 1 as [|c s Hc _ IH]; simpl; [done|].
  destruct (Z.eqb_spec c 0); [done|]. by rewrite IH.
Qed.

Lemma cstr_inv b s : cstr b = Some s → ∃ r, b = s ++ 0 :: r ∧ nonzero s.
Proof.
  revert s. induction b as [|c b IH]; intros s; simpl; [done|].
  destruct (Z.eqb_spec c 0) as [->|Hc]; intros H; simplify_eq/=.
  { by exists b; split; [|constructor]. }
  destruct (cstr b) as [s'|] eqn:E; simplify_eq/=.
  destruct (IH s' eq_refl) as (r & -> & Hs). exists r. split; [done|by constructor].
Qed.

Lemma strlen_cstr b : strlen b = (λ s, Z.of_nat (length s)) <$> cstr b.
Proof.
  induction b as [|c b IH]; simpl; [done|].
  destruct (c =? 0); [done|]. rewrite IH. destruct (cstr b); simpl; f_equal; lia.
Qed.

(** ** memory.c: behaviour *)

Lemma memset_spec ptr c size : 0 <= size <= Z.of_nat (length ptr) →
  memset ptr c size =
  Some (replicate (Z.to_nat size) (u8 c) ++ drop (Z.to_nat size) ptr).
Proof.
  unfold memset. intros H. assert (Z.to_nat size ≤ length ptr)%nat as Hn by lia. clear H.
  revert ptr Hn. generalize (Z.to_nat size). intros n.
  induction n as [|n IH]; intros [|b ptr] Hn; simpl in *; try done; [lia|].
  rewrite IH by lia. done.
Qed.

Lemma memcpy_spec dest src len :
  0 <= len <= Z.of_nat (length dest) → len <= Z.of_nat (length src) →
  memcpy dest src len = Some (take (Z.to_nat len) src ++ drop (Z.to_nat len) dest).
Proof.
  unfold memcpy. intros Hd Hs. destruct (Z.ltb_spec len 0); [lia|].
  assert (Z.to_nat len ≤ length dest ∧ Z.to_nat len ≤ length src)%nat as [Hd' Hs'] by lia.
  clear -Hd' Hs'. revert dest src Hd' Hs'. generalize (Z.to_nat len). intros n.
  induction n as [|n IH]; intros [|a dest] [|b src] ??; simpl in *; try done; try lia.
  rewrite IH by lia. done.
Qed.

Lemma s8_inj a b : is_u8 a → is_u8 b → s8 a = s8 b → a = b.
Proof.
  unfold is_u8, s8. intros Ha Hb H. assert ((a + 2^7) mod 2^8 = (b + 2^7) mod 2^8) by lia.
  pose proof (Z.div_mod (a + 2^7) (2^8)). pose proof (Z.div_mod (b + 2^7) (2^8)).
  assert ((a + 2^7) / 2^8 = 0 ∨ (a + 2^7) / 2^8 = 1) by (Z.to_euclidean_division_equations; lia).
  assert ((b + 2^7) / 2^8 = 0 ∨ (b + 2^7) / 2^8 = 1) by (Z.to_euclidean_division_equations; lia).
  lia.
Qed.

Lemma s8_special c k : is_u8 c → is_u8 k → s8 k = k → (s8 c =? k) = (c =? k).
Proof.
  intros Hc Hk Ek. destruct (Z.eqb_spec c k) as [->|Hne]; [by apply Z.eqb_eq|].
  apply Z.eqb_neq. intros E. apply Hne, s8_inj; [done..|congruence].
Qed.

Lemma memcmp_0 s1 s2 count :
  Forall is_u8 s1 → Forall is_u8 s2 →
  0 <= count <= Z.of_nat (length s1) → count <= Z.of_nat (length s2) →
  memcmp s1 s2 count = Some 0 ↔ take (Z.to_nat count) s1 = take (Z.to_nat count) s2.
Proof.
  unfold memcmp. intros H1 H2 Hl1 Hl2.
  assert (Z.to_nat count ≤ length s1 ∧ Z.to_nat count ≤ length s2)%nat as [Hn1 Hn2] by lia.
  clear Hl1 Hl2. revert s1 s2 H1 H2 Hn1 Hn2. generalize (Z.to_nat count). intros n.
  induction n as [|n IH]; intros [|a s1] [|b s2] H1 H2 ??; simpl in *; try done; try lia.
  inversion H1; inversion H2; subst.
  destruct (Z.eqb_spec (s8 a) (s8 b)) as [E|E].
  - apply s8_inj in E; [|done..]. subst. rewrite IH by (done || lia).
    split; [by intros ->|by intros [=]].
  - split; [destruct (_ <? _); discriminate|]. intros [=]. by subst.
Qed.

(** ** string.c: behaviour *)

Lemma strnlen_bound b max k : strnlen b max = Some k → 0 <= k <= Z.max 0 max.
Proof.
  unfold strnlen. intros H. enough (0 <= k <= Z.of_nat (Z.to_nat max)) by lia.
  revert b k H. generalize (Z.to_nat max). intros n.
  induction n as [|n IH]; intros [|c b] k; simpl; intros; simplify_eq/=; try lia.
  destruct (c =? 0); simplify_eq/=; [lia|].
  destruct (strnlen_loop b n) eqn:E; simplify_eq/=. apply IH in E. lia.
Qed.

(** [strnlen] of a buffer that holds the string [s]. *)
Lemma strnlen_cstr b s max : cstr b = Some s → 0 <= max →
  strnlen b max = Some (Z.min max (Z.of_nat (length s))).
Proof.
  unfold strnlen. intros Hs Hmax.
  replace (Z.min max _) with (Z.min (Z.of_nat (Z.to_nat max)) (Z.of_nat (length s))) by lia.
  revert b s Hs. generalize (Z.to_nat max). clear. intros n.
  induction n as [|n IH]; intros [|c b] s Hs; simplify_eq/=; try (f_equal; lia).
  destruct (c =? 0); simplify_eq/=; [f_equal; lia|].
  destruct (cstr b) as [s'|] eqn:E; simplify_eq/=. rewrite (IH _ s' E). simpl. f_equal. lia.
Qed.

Lemma strncpy_loop_spec dest src n k :
  strnlen_loop src n = Some k → k < Z.of_nat (length dest) →
  strncpy_loop dest src n =
  Some (take (Z.to_nat k) src ++ 0 :: drop (S (Z.to_nat k)) dest).
Proof.
  revert dest src k. induction n as [|n IH]; intros [|d dest] [|c src] k Hk Hl;
    simplify_eq/=; try (by lia); try done; destruct (c =? 0); simplify_eq/=; try done; try lia.
  - destruct (strnlen_loop src n) as [k'|] eqn:E; simplify_eq/=.
    pose proof (strnlen_bound src (Z.of_nat n) k'). unfold strnlen in *.
    rewrite Nat2Z.id in *. specialize (H E). lia.
  - destruct (strnlen_loop src n) as [k'|] eqn:E; simplify_eq/=.
    assert (0 <= k').
    { pose proof (strnlen_bound src (Z.of_nat n) k') as H. unfold strnlen in H.
      rewrite Nat2Z.id in H. specialize (H E). lia. }
    rewrite (IH dest src k') by (done || lia). simpl.
    by replace (Z.to_nat (k' + 1)) with (S (Z.to_nat k')) by lia.
Qed.

Lemma strncpy_cstr dest src s count :
  cstr src = Some s → 1 <= count <= Z.of_nat (length dest) →
  let k := Nat.min (Z.to_nat (count - 1)) (length s) in
  strncpy dest src count = Some (take k s ++ 0 :: drop (S k) dest) ∧
  cstr (take k s ++ 0 :: drop (S k) dest) = Some (take k s).
Proof.
  intros Hs Hc k. split.
  - unfold strncpy. rewrite (strncpy_loop_spec _ _ _ (Z.of_nat k)).
    + rewrite Nat2Z.id. destruct (cstr_inv _ _ Hs) as (r & -> & _).
      rewrite take_app_le by lia. done.
    + pose proof (strnlen_cstr src s (count - 1) Hs ltac:(lia)) as H. unfold strnlen in H.
      rewrite H. f_equal. lia.
    + lia.
  - apply cstr_app. destruct (cstr_inv _ _ Hs) as (r & _ & Hn). by apply Forall_take.
Qed.

(** [strncpy(dest, src, count)] writes the longest prefix of the string at
    [src] that fits in [count - 1] bytes, ends it with a NUL and leaves the rest
    of [dest] alone; a [dest] of [count] bytes is always long enough. *)
Theorem strncpy_terminates_and_truncates dest src s count :
  cstr src = Some s → 1 <= count <= Z.of_nat (length dest) →
  let k := Nat.min (Z.to_nat (count - 1)) (length s) in
  ∃ dest', strncpy dest src count = Some dest' ∧
    dest' = take k s ++ 0 :: drop (S k) dest ∧
    cstr dest' = Some (take k s) ∧ length dest' = length dest.
Proof.
  intros Hs Hc k. destruct (strncpy_cstr dest src s count Hs Hc) as [E E']. fold k in E, E'.
  eexists; split_and!; [done..|].
  rewrite length_app. simpl. rewrite length_take, length_drop. lia.
Qed.

Lemma strncpy_witness :
  ∃ dest', strncpy [7; 7; 7; 7; 7] [72; 105; 33; 33; 0] 3 = Some dest' ∧
    dest' = [72; 105; 0; 7; 7] ∧ cstr dest' = Some [72; 105] ∧ length dest' = 5%nat.
Proof.
  apply (strncpy_terminates_and_truncates [7; 7; 7; 7; 7] [72; 105; 33; 33; 0] [72; 105; 33; 33] 3);
    [reflexivity | simpl; lia].
Defined.

(** Folding used by the case-insensitive comparison. *)
Definition fold_case (c : Z) : Z := tolower (s8 c).

Lemma fold_case_0 c : is_u8 c → fold_case c = 0 → c = 0.
Proof.
  unfold fold_case, tolower. intros Hc.
  destruct (Z.leb_spec 65 (s8 c)), (Z.leb_spec (s8 c) 90); simpl;
    intros E; try (apply s8_inj; [done|range|by rewrite E]).
  rewrite s8_small in E by lia. lia.
Qed.

Lemma istrncmp_loop_0 b1 b2 s1 s2 n :
  cstr b1 = Some s1 → cstr b2 = Some s2 → Forall is_u8 s1 → Forall is_u8 s2 →
  ∃ r, istrncmp_loop b1 b2 n = Some r ∧
    (r = 0 ↔ fold_case <$> take n s1 = fold_case <$> take n s2).
Proof.
  revert b1 b2 s1 s2. induction n as [|n IH]; intros [|u1 b1] [|u2 b2] s1 s2 H1 H2 F1 F2;
    simplify_eq/=; try by (exists 0).
  change (tolower (s8 u1)) with (fold_case u1). change (tolower (s8 u2)) with (fold_case u2).
  destruct (Z.eqb_spec u1 0) as [->|Hz1], (Z.eqb_spec u2 0) as [->|Hz2]; simplify_eq/=;
    [|destruct (cstr b2) as [l2|] eqn:E2; simplify_eq/=; apply Forall_cons in F2 as [? ?]
     |destruct (cstr b1) as [l1|] eqn:E1; simplify_eq/=; apply Forall_cons in F1 as [? ?]
     |destruct (cstr b1) as [l1|] eqn:E1, (cstr b2) as [l2|] eqn:E2; simplify_eq/=;
      apply Forall_cons in F1 as [? ?]; apply Forall_cons in F2 as [? ?]].
  - by exists 0.
  - exists (0 - u2). split; [|split; [lia|done]].
    destruct u2; [done|..]; (destruct (fold_case _) eqn:Hf; [by apply fold_case_0 in Hf|done..]).
  - rewrite (proj2 (Z.eqb_neq u1 0)) by done.
    destruct (Z.eqb_spec (fold_case u1) (fold_case 0)) as [Hf|]; simpl.
    { by apply fold_case_0 in Hf. }
    exists (u1 - 0). split; [done|]. split; [lia|done].
  - destruct (IH b1 b2 l1 l2) as (r & E & Hr); [done..|]. rewrite E.
    destruct (Z.eqb_spec u1 u2) as [<-|Hne]; simpl.
    { exists r. split; [done|]. rewrite Hr. split; [by intros ->|by intros [=]]. }
    destruct (Z.eqb_spec (fold_case u1) (fold_case u2)) as [Hf|Hf]; simpl.
    + exists r. split; [done|]. rewrite Hr, Hf. split; [by intros ->|by intros [=]].
    + exists (u1 - u2). split; [done|]. split; [lia|by intros [=]].
Qed.

(** [istrncmp] of two strings returns 0 exactly when their first [n]
    characters agree up to ASCII case; it never reads past a terminator. *)
Theorem istrncmp_zero_iff b1 b2 s1 s2 n :
  cstr b1 = Some s1 → cstr b2 = Some s2 → Forall is_u8 s1 → Forall is_u8 s2 →
  ∃ r, istrncmp b1 b2 n = Some r ∧
    (r = 0 ↔ fold_case <$> take (Z.to_nat n) s1 = fold_case <$> take (Z.to_nat n) s2).
Proof. apply istrncmp_loop_0. Qed.

Lemma istrncmp_witness :
  ∃ r, istrncmp [65; 98; 0; 9] [97; 66; 0] 108 = Some r ∧
    (r = 0 ↔ fold_case <$> take (Z.to_nat 108) [65; 98] = fold_case <$> take (Z.to_nat 108) [97; 66]).
Proof.
  apply (istrncmp_zero_iff [65; 98; 0; 9] [97; 66; 0] [65; 98] [97; 66] 108);
    [reflexivity | reflexivity | repeat constructor; range | repeat constructor; range].
Defined.

(** ** Decimal output *)

(** The number a list of ASCII digits denotes, most significant first. *)
Definition dec_val (ds : list Z) : Z := foldl (λ v d, v * 10 + (d - 48)) 0 ds.

Definition is_digit (d : Z) : Prop := 48 <= d <= 57.

(** The usual decimal notation: at least one digit, no leading zero but for
    the number 0 itself. *)
Definition decimal (v : Z) (ds : list Z) : Prop :=
  dec_val ds = v ∧ Forall is_digit ds ∧ ds ≠ [] ∧ (head ds = Some 48 → ds = [48]).

Lemma dec_val_snoc ds d : dec_val (ds ++ [d]) = dec_val ds * 10 + (d - 48).
Proof. unfold dec_val. by rewrite foldl_app. Qed.

Lemma decimal_snoc v ds d : decimal v ds → 0 < v → is_digit d →
  decimal (v * 10 + (d - 48)) (ds ++ [d]).
Proof.
  intros (Hv & Hd & Hne & Hh) Hpos Hdd. split_and!.
  - by rewrite dec_val_snoc, Hv.
  - apply Forall_app; split; [done|by constructor].
  - by destruct ds.
  - destruct ds as [|e ds]; [done|]. intros [= ->]. specialize (Hh eq_refl).
    injection Hh as ->. subst v. unfold dec_val in Hpos. simpl in Hpos. lia.
Qed.

Lemma decimal_digit v : 0 <= v < 10 → decimal v [v + 48].
Proof.
  intros H. unfold decimal, dec_val, is_digit. cbn [foldl head]. split_and!;
    [lia | repeat constructor; lia | done | congruence].
Qed.

Lemma digits_loop_done room v temp : v <= 0 → digits_loop room v temp = Some temp.
Proof. intros H. destruct room; cbn [digits_loop]; by destruct (Z.ltb_spec 0 v); [lia|]. Qed.

Lemma digits_loop_spec room (k : nat) v temp :
  (k ≤ room)%nat → 0 < v < 10 ^ Z.of_nat k →
  ∃ ds, digits_loop room v temp = Some (ds ++ temp) ∧ decimal v ds ∧ (length ds ≤ k)%nat.
Proof.
  revert room v temp. induction k as [|k IH]; intros room v temp Hk Hv; [simpl in Hv; lia|].
  destruct room as [|room]; [lia|]. simpl digits_loop.
  destruct (Z.ltb_spec 0 v); [|lia].
  rewrite Nat2Z.inj_succ, Z.pow_succ_r in Hv by lia.
  rewrite Z.quot_div_nonneg, Z.rem_mod_nonneg by lia.
  assert (is_digit (v mod 10 + 48)) as Hdig.
  { unfold is_digit. pose proof (Z.mod_pos_bound v 10). lia. }
  rewrite (u8_small (v mod 10 + 48)) by (unfold is_digit, is_u8 in *; lia).
  destruct (decide (v < 10)) as [Hs|Hb].
  - rewrite Z.div_small, Z.mod_small by lia. exists [v + 48]. split_and!.
    + by rewrite digits_loop_done by lia.
    + by apply decimal_digit; lia.
    + simpl. lia.
  - destruct (IH room (v / 10) ((v mod 10 + 48) :: temp)) as (ds & -> & Hds & Hl); [lia| |].
    { split; [apply Z.div_str_pos; lia|apply Z.div_lt_upper_bound; lia]. }
    exists (ds ++ [v mod 10 + 48]). rewrite <- app_assoc. split_and!; [done| |].
    + replace v with (v / 10 * 10 + (v mod 10 + 48 - 48)) at 1
        by (pose proof (Z.div_mod v 10); lia).
      apply decimal_snoc; [done| |done]. apply Z.div_str_pos. lia.
    + rewrite length_app. simpl. lia.
Qed.

Lemma digits_out_spec ds out : (length ds < length out)%nat →
  digits_out ds out = Some (ds ++ 0 :: drop (S (length ds)) out).
Proof.
  revert out. induction ds as [|d ds IH]; intros [|o out] H; simpl in *; try lia; [done|].
  rewrite IH by lia. done.
Qed.

(** [int_to_string] writes the canonical decimal notation of every
    non-negative [int], terminated by a NUL, and needs at most 11 bytes. *)
Theorem int_to_string_decimal value out :
  0 <= value < 2 ^ 31 → (11 ≤ length out)%nat →
  ∃ ds, decimal value ds ∧ (length ds ≤ 10)%nat ∧
    int_to_string value out = Some (ds ++ 0 :: drop (S (length ds)) out).
Proof.
  intros Hv Hout. unfold int_to_string. destruct (Z.eqb_spec value 0) as [->|Hne].
  - exists [48]. split_and!; [by apply (decimal_digit 0)|simpl; lia|].
    by destruct out as [|? [|? out]]; simpl in *; try lia.
  - destruct (digits_loop_spec 32 10 value []) as (ds & -> & Hds & Hl); [lia|simpl; lia|].
    exists ds. rewrite app_nil_r. split_and!; [done..|]. simpl. apply digits_out_spec. lia.
Qed.

Lemma int_to_string_witness :
  ∃ ds, decimal 2147483647 ds ∧ (length ds ≤ 10)%nat ∧
    int_to_string 2147483647 (replicate 32 0) =
    Some (ds ++ 0 :: drop (S (length ds)) (replicate 32 0)).
Proof. apply (int_to_string_decimal 2147483647 (replicate 32 0)); [lia | simpl; lia]. Defined.

(** A negative value is printed as the empty string, although the comment
    above the routine promises a decimal string for any integer. *)
Lemma int_to_string_negative value b out :
  value < 0 → int_to_string value (b :: out) = Some (0 :: out).
Proof.
  intros H. unfold int_to_string. destruct (Z.eqb_spec value 0); [lia|].
  by rewrite digits_loop_done by lia.
Qed.
