(* ===== verification/Terminal.v ===== *)
(** * The text console

    Models the console routines of src/src/kernel.c.  The state is the pointer
    [video_mem], the cells of the VGA text window that starts at 0xB8000 and the
    16-bit cursor coordinates.  A write through [video_mem] that misses the
    window is [Undef].

    The abstract console is a pair of the cells and one linear position;
    [render] is what a string does to it, and [print] is shown to implement it.
    The last theorem shows where the code leaves this contract: a backspace at
    the start of a line. *)

From S2P Require Import Prelude Config CString.
Local Open Scope Z_scope.

Definition VGA_WIDTH : Z := 80.
Definition VGA_HEIGHT : Z := 20.
Definition VGA_BASE : Z := 0xB8000.

Record terminal := {
  video_mem : Z;
  vga : list Z;
  terminal_row : Z;
  terminal_col : Z
}.

Definition set_vga (v : list Z) (t : terminal) : terminal :=
  {| video_mem := video_mem t; vga := v;
     terminal_row := terminal_row t; terminal_col := terminal_col t |}.
Definition set_cursor (row col : Z) (t : terminal) : terminal :=
  {| video_mem := video_mem t; vga := vga t; terminal_row := row; terminal_col := col |}.

(** ** Operations *)

(** [c] and [colour] are [char]s, so a negative [c] fills the high byte. *)
Definition terminal_make_char (c colour : Z) : Z :=
  u16 (Z.lor (Z.shiftl colour 8) c).

Definition terminal_putchar (x y c colour : Z) : M terminal unit := λ t,
  if video_mem t =? VGA_BASE then
    match (vga t).[y * VGA_WIDTH + x <- terminal_make_char c colour] with
    | Some v => Done (tt, set_vga v t)
    | None => Undef
    end
  else Undef.

(** The part of [terminal_writechar] after the tests for newline and backspace;
    it is all that the call [terminal_writechar(' ', 15)] made by
    [terminal_backspace] executes. *)
Definition terminal_writecell (c colour : Z) : M terminal unit :=
  row ← gets terminal_row; col ← gets terminal_col;
  terminal_putchar col row c colour;;
  let col := u16 (col + 1) in
  if VGA_WIDTH <=? col
  then modify (set_cursor (u16 (row + 1)) 0)
  else modify (set_cursor row col).

Definition terminal_backspace : M terminal unit :=
  row ← gets terminal_row; col ← gets terminal_col;
  if (row =? 0) && (col =? 0) then mret tt
  else
    (if col =? 0 then modify (set_cursor (u16 (row - 1)) VGA_WIDTH) else mret tt);;
    modify (λ t, set_cursor (terminal_row t) (u16 (terminal_col t - 1)) t);;
    terminal_writecell 32 15;;
    modify (λ t, set_cursor (terminal_row t) (u16 (terminal_col t - 1)) t).

Definition terminal_writechar (c colour : Z) : M terminal unit :=
  if c =? 10 then modify (λ t, set_cursor (u16 (terminal_row t + 1)) 0 t)
  else if c =? 8 then terminal_backspace
  else terminal_writecell c colour.

(** The inner and the outer loop of [terminal_initialize], with the number of
    iterations left. *)
Fixpoint clear_row (n : nat) (x y : Z) : M terminal unit :=
  match n with
  | O => mret tt
  | S n => terminal_putchar x y 32 0;; clear_row n (x + 1) y
  end.

Fixpoint clear_rows (n : nat) (y : Z) : M terminal unit :=
  match n with
  | O => mret tt
  | S n => clear_row (Z.to_nat VGA_WIDTH) 0 y;; clear_rows n (y + 1)
  end.

Definition terminal_initialize : M terminal unit :=
  modify (λ t, {| video_mem := VGA_BASE; vga := vga t;
                  terminal_row := 0; terminal_col := 0 |});;
  clear_rows (Z.to_nat VGA_HEIGHT) 0.

Fixpoint print_loop (str : list Z) (n : nat) {struct n} : M terminal unit :=
  match n, str with
  | O, _ => mret tt
  | S _, [] => undef
  | S n, c :: str => terminal_writechar (s8 c) 15;; print_loop str n
  end.

Definition print (str : list Z) : M terminal unit :=
  len ← liftO (strlen str);
  print_loop str (Z.to_nat len).

(** [panic(msg)] prints and spins for ever: a print that succeeds ends in
    [Panic], and so there is no result. *)
Definition kernel_panic {A} (msg : list Z) : M terminal A :=
  print msg;; panic.

(** ** The abstract console *)

(** The cell a character is stored in, and the effect of a character on the
    position and the cells. *)
Definition cell (c : Z) : Z := terminal_make_char (s8 c) 15.

Definition next_pos (c pos : Z) : Z :=
  if c =? 10 then (pos / VGA_WIDTH + 1) * VGA_WIDTH else pos + 1.

Fixpoint render (s : list Z) (pos : Z) (cells : list Z) : list Z * Z :=
  match s with
  | [] => (cells, pos)
  | c :: s =>
      render s (next_pos c pos)
        (if c =? 10 then cells else <[Z.to_nat pos := cell c]> cells)
  end.

(** The last position a string reaches. *)
Definition end_pos (s : list Z) (pos : Z) : Z := foldl (λ p c, next_pos c p) pos s.

(** The cursor is within a line of the window, which may be below its last one:
    where the position lies in the window is said where it matters.  The window
    has fewer rows than the 2^16 a row number can count. *)
Record terminal_wf (t : terminal) : Prop := {
  wf_video : video_mem t = VGA_BASE;
  wf_row : 0 <= terminal_row t;
  wf_col : 0 <= terminal_col t < VGA_WIDTH;
  wf_size : Z.of_nat (length (vga t)) < 2 ^ 16 * VGA_WIDTH - VGA_WIDTH
}.

Definition pos_of (t : terminal) : Z := terminal_row t * VGA_WIDTH + terminal_col t.

(** The concrete console that shows [cells] with the cursor at [pos]. *)
Definition at_pos (cells : list Z) (pos : Z) : terminal :=
  {| video_mem := VGA_BASE; vga := cells;
     terminal_row := pos / VGA_WIDTH; terminal_col := pos mod VGA_WIDTH |}.

Lemma at_pos_eta t : terminal_wf t → t = at_pos (vga t) (pos_of t).
Proof.
  destruct t as [v g r c]. intros [Hv Hr Hc _]. unfold at_pos, pos_of, VGA_WIDTH in *. simpl in *.
  f_equal; [done|symmetry..]; euclid.
Qed.

Lemma at_pos_wf cells pos :
  0 <= pos → Z.of_nat (length cells) < 2 ^ 16 * VGA_WIDTH - VGA_WIDTH → terminal_wf (at_pos cells pos).
Proof.
  intros Hp Hc. split; simpl; [done|apply Z.div_pos; unfold VGA_WIDTH; lia|by apply Z.mod_pos_bound|done].
Qed.

Lemma at_pos_row_start cells pos :
  at_pos cells (pos / VGA_WIDTH * VGA_WIDTH + VGA_WIDTH) =
  {| video_mem := VGA_BASE; vga := cells; terminal_row := pos / VGA_WIDTH + 1; terminal_col := 0 |}.
Proof.
  unfold at_pos, VGA_WIDTH. f_equal; euclid.
Qed.

(** ** One character *)

Section one_char.
Context (cells : list Z).
Hypothesis Hsize : Z.of_nat (length cells) < 2 ^ 16 * VGA_WIDTH - VGA_WIDTH.

Lemma writecell_spec pos c colour : 0 <= pos < Z.of_nat (length cells) →
  terminal_writecell c colour (at_pos cells pos) =
  Done (tt, at_pos (<[Z.to_nat pos := terminal_make_char c colour]> cells) (pos + 1)).
Proof.
  intros Hlt. unfold VGA_WIDTH in *.
  unfold terminal_writecell, gets, modify, terminal_putchar, mbind, M_bind; cbn -[Z.mul Z.add Z.div Z.modulo Z.leb u16 upd].
  replace (pos / VGA_WIDTH * VGA_WIDTH + pos mod VGA_WIDTH) with pos
    by (unfold VGA_WIDTH; euclid).
  rewrite upd_Some by lia. cbn -[Z.mul Z.add Z.div Z.modulo Z.leb u16].
  unfold VGA_WIDTH. rewrite (u16_small (pos mod 80 + 1)) by euclid.
  rewrite (u16_small (pos / 80 + 1)) by euclid.
  unfold set_cursor, set_vga, at_pos, VGA_WIDTH; simpl.
  destruct (Z.leb_spec 80 (pos mod 80 + 1)); do 3 f_equal; euclid.
Qed.

Lemma newline_spec pos colour : 0 <= pos <= Z.of_nat (length cells) →
  terminal_writechar 10 colour (at_pos cells pos) =
  Done (tt, at_pos cells ((pos / VGA_WIDTH + 1) * VGA_WIDTH)).
Proof.
  intros Hlt. unfold terminal_writechar, modify, set_cursor. simpl. unfold VGA_WIDTH in *.
  rewrite u16_small by euclid.
  unfold at_pos, VGA_WIDTH. do 3 f_equal; euclid.
Qed.

(** A backspace in the middle of a line blanks the cell before the cursor. *)
Lemma backspace_mid pos : 0 < pos mod VGA_WIDTH → 0 < pos <= Z.of_nat (length cells) →
  terminal_backspace (at_pos cells pos) =
  Done (tt, at_pos (<[Z.to_nat (pos - 1) := cell 32]> cells) (pos - 1)).
Proof.
  intros Hmid Hlt. unfold terminal_backspace, gets, modify, mbind, M_bind, mret, M_ret.
  cbn -[Z.mul Z.add Z.div Z.modulo Z.leb u16 upd terminal_writecell].
  destruct (Z.eqb_spec (pos mod VGA_WIDTH) 0); [lia|]. rewrite andb_false_r.
  cbn -[Z.mul Z.add Z.div Z.modulo Z.leb u16 upd terminal_writecell].
  replace (set_cursor _ _ _) with (at_pos cells (pos - 1)).
  2:{ unfold set_cursor, at_pos; simpl. unfold VGA_WIDTH in *.
      rewrite u16_small by euclid. f_equal; euclid. }
  rewrite (writecell_spec (pos - 1)) by lia.
  cbn -[Z.mul Z.add Z.div Z.modulo Z.leb u16 upd terminal_writecell].
  unfold set_cursor, at_pos; simpl. unfold VGA_WIDTH in *.
  rewrite u16_small by euclid. do 3 f_equal; euclid.
Qed.
(** At the start of a line the cell before the cursor is blanked too, but the
    second [terminal_col -= 1] is applied after the write has wrapped to the
    line below: the column becomes 65535. *)
Lemma backspace_line_start row : 0 < row → row * VGA_WIDTH <= Z.of_nat (length cells) →
  terminal_backspace (at_pos cells (row * VGA_WIDTH)) =
  Done (tt, set_cursor row (2 ^ 16 - 1)
              (at_pos (<[Z.to_nat (row * VGA_WIDTH - 1) := cell 32]> cells) (row * VGA_WIDTH))).
Proof.
  intros Hrow Hlt. unfold terminal_backspace, gets, modify, mbind, M_bind, mret, M_ret.
  cbn -[Z.mul Z.add Z.div Z.modulo Z.leb u16 upd terminal_writecell].
  rewrite Z.div_mul, Z.mod_mul by done. destruct (Z.eqb_spec row 0); [lia|].
  cbn -[Z.mul Z.add Z.div Z.modulo Z.leb u16 upd terminal_writecell].
  replace (set_cursor _ _ (set_cursor _ _ _)) with (at_pos cells (row * VGA_WIDTH - 1)).
  2:{ unfold set_cursor, at_pos; simpl. unfold VGA_WIDTH in *. widths. f_equal; euclid. }
  rewrite writecell_spec by (unfold VGA_WIDTH in *; lia).
  cbn -[Z.mul Z.add Z.div Z.modulo Z.leb u16 upd terminal_writecell].
  unfold set_cursor, at_pos; simpl. rewrite Z.sub_add, Z.div_mul, Z.mod_mul by done. done.
Qed.
End one_char.

(** ** Strings *)

Lemma next_pos_mono c pos : 0 <= pos → pos < next_pos c pos.
Proof. unfold next_pos, VGA_WIDTH. intros H. destruct (c =? 10); euclid. Qed.

Lemma end_pos_mono s pos : 0 <= pos → pos <= end_pos s pos.
Proof.
  revert pos. induction s as [|c s IH]; intros pos H; [done|]. unfold end_pos in *. simpl.
  pose proof (next_pos_mono c pos H). specialize (IH (next_pos c pos)). lia.
Qed.

Lemma render_length s pos cells : length (render s pos cells).1 = length cells.
Proof.
  revert pos cells. induction s as [|c s IH]; intros pos cells; [done|]. simpl.
  rewrite IH. destruct (c =? 10); [done|apply length_insert].
Qed.

Lemma render_end s pos cells : (render s pos cells).2 = end_pos s pos.
Proof. revert pos cells. induction s as [|c s IH]; intros pos cells; [done|apply IH]. Qed.

Lemma writechar_render c pos cells :
  is_u8 c → c ≠ 8 → 0 <= pos → Z.of_nat (length cells) < 2 ^ 16 * VGA_WIDTH - VGA_WIDTH →
  next_pos c pos <= Z.of_nat (length cells) →
  terminal_writechar (s8 c) 15 (at_pos cells pos) =
  Done (tt, at_pos (if c =? 10 then cells else <[Z.to_nat pos := cell c]> cells) (next_pos c pos)).
Proof.
  intros Hc H8 Hpos Hsz Hend. unfold next_pos in *.
  pose proof (s8_special c 10 Hc) as E10. pose proof (s8_special c 8 Hc) as E8.
  destruct (Z.eqb_spec c 10) as [->|Hn].
  - change (s8 10) with 10. by rewrite (newline_spec cells Hsz pos 15) by (unfold VGA_WIDTH in *; euclid).
  - unfold terminal_writechar. rewrite E10, E8 by (done || range).
    destruct (Z.eqb_spec c 8); [done|]. by rewrite writecell_spec by (done || lia).
Qed.

Lemma print_loop_render s r pos cells :
  Forall is_u8 s → 8 ∉ s → 0 <= pos →
  Z.of_nat (length cells) < 2 ^ 16 * VGA_WIDTH - VGA_WIDTH →
  end_pos s pos <= Z.of_nat (length cells) →
  print_loop (s ++ r) (length s) (at_pos cells pos) =
  Done (tt, at_pos (render s pos cells).1 (end_pos s pos)).
Proof.
  intros Hs. revert pos cells. induction Hs as [|c s Hc Hs IH]; intros pos cells H8 Hpos Hsz Hend; [done|].
  apply not_elem_of_cons in H8 as [H8 H8']. cbn [app length print_loop render].
  pose proof (next_pos_mono c pos Hpos). pose proof (end_pos_mono s (next_pos c pos)).
  assert (end_pos (c :: s) pos = end_pos s (next_pos c pos)) as Ee by done.
  rewrite (bind_done _ _ _ _ _ (writechar_render c pos cells Hc (not_eq_sym H8) Hpos Hsz ltac:(lia))).
  rewrite Ee. apply IH; [done|lia|..];
    destruct (c =? 10); rewrite ?length_insert; done || lia.
Qed.

Lemma print_spec t b s :
  terminal_wf t → Forall is_u8 b → cstr b = Some s → 8 ∉ s →
  end_pos s (pos_of t) <= Z.of_nat (length (vga t)) →
  ∃ t', print b t = Done (tt, t') ∧ terminal_wf t' ∧
        (vga t', pos_of t') = render s (pos_of t) (vga t).
Proof.
  intros Hwf Hb Hs H8 Hend. destruct (cstr_inv _ _ Hs) as (r & -> & _).
  apply Forall_app in Hb as [Hb _]. pose proof (wf_size _ Hwf).
  assert (0 <= pos_of t) as Hp by (destruct Hwf; unfold pos_of, VGA_WIDTH in *; lia).
  pose proof (end_pos_mono s (pos_of t) Hp).
  exists (at_pos (render s (pos_of t) (vga t)).1 (end_pos s (pos_of t))). split_and!.
  - unfold print, liftO. rewrite strlen_cstr, Hs. unfold mbind at 1, M_bind at 1. simpl.
    rewrite Nat2Z.id, (at_pos_eta t Hwf) at 1. by apply print_loop_render.
  - apply at_pos_wf; [lia|]. by rewrite render_length.
  - rewrite <- (render_end s (pos_of t) (vga t)). destruct (render s (pos_of t) (vga t)) as [v p].
    unfold pos_of, at_pos; simpl. f_equal. unfold VGA_WIDTH. euclid.
Qed.

(** C39: [print] refines the abstract console.  A string without a backspace
    whose characters fit in the window is printed in full: the cells and the
    position are those of [render], and the cursor, within its line, is on a cell of
    the window, or just past the last one when the string fills the window to its
    end. *)
Theorem print_refines_render t b s :
  terminal_wf t → Forall is_u8 b → cstr b = Some s → 8 ∉ s →
  end_pos s (pos_of t) <= Z.of_nat (length (vga t)) →
  ∃ t', print b t = Done (tt, t') ∧ terminal_wf t' ∧
        (vga t', pos_of t') = render s (pos_of t) (vga t) ∧
        0 <= pos_of t' <= Z.of_nat (length (vga t')) ∧
        (pos_of t' = Z.of_nat (length (vga t')) ↔ end_pos s (pos_of t) = Z.of_nat (length (vga t))).
Proof.
  intros Hwf Hb Hs H8 Hfit. destruct (print_spec t b s) as (t' & E & Hwf' & Hr); [done..|]. exists t'.
  pose proof (render_length s (pos_of t) (vga t)) as Hl. pose proof (render_end s (pos_of t) (vga t)) as He.
  assert (0 <= pos_of t') as Hp by (pose proof (wf_row t' Hwf'); pose proof (wf_col t' Hwf'); unfold pos_of, VGA_WIDTH in *; lia).
  rewrite <- Hr in Hl, He. cbn in Hl, He. split_and!; [done..|by rewrite Hl, He|by rewrite Hl, He].
Qed.

Lemma print_refines_render_witness :
  ∃ t', print [72; 105; 10; 33; 0] (at_pos (replicate 400 0) 79) = Done (tt, t') ∧ terminal_wf t' ∧
        (vga t', pos_of t') = render [72; 105; 10; 33] 79 (replicate 400 0) ∧
        0 <= pos_of t' <= Z.of_nat (length (vga t')) ∧
        (pos_of t' = Z.of_nat (length (vga t')) ↔ end_pos [72; 105; 10; 33] 79 = 400).
Proof.
  apply (print_refines_render (at_pos (replicate 400 0) 79) [72; 105; 10; 33; 0] [72; 105; 10; 33]).
  - by apply at_pos_wf.
  - repeat constructor; range.
  - done.
  - by apply (bool_decide_unpack _).
  - by vm_compute.
Defined.

(** A character other than newline and backspace moves the cursor one cell
    and a backspace in the middle of a line undoes it, blanking the cell; a
    backspace in the first column of a line puts the cursor at column 65535, and
    the next character written there misses the VGA window. *)
Theorem terminal_backspace_behaviour cells pos c colour :
  0 <= pos < Z.of_nat (length cells) → Z.of_nat (length cells) <= 16384 → c ≠ 10 → c ≠ 8 →
  (∃ t, terminal_writechar c colour (at_pos cells pos) = Done (tt, t) ∧
     if decide ((pos + 1) mod VGA_WIDTH = 0) then
       ∃ t', terminal_backspace t = Done (tt, t') ∧ terminal_col t' = 65535 ∧
             ∀ c' colour', c' ≠ 10 → c' ≠ 8 → terminal_writechar c' colour' t' = Undef
     else terminal_backspace t = Done (tt, at_pos (<[Z.to_nat pos := cell 32]> cells) pos)).
Proof.
  intros Hpos Hsz H10 H8.
  assert (Z.of_nat (length cells) < 2 ^ 16 * VGA_WIDTH - VGA_WIDTH) by (unfold VGA_WIDTH; lia).
  exists (at_pos (<[Z.to_nat pos := terminal_make_char c colour]> cells) (pos + 1)). split.
  { unfold terminal_writechar. rewrite (proj2 (Z.eqb_neq _ _) H10), (proj2 (Z.eqb_neq _ _) H8).
    by apply writecell_spec. }
  destruct (decide _) as [Hw|Hw].
  - apply Z.div_exact in Hw; [|done]. rewrite Z.mul_comm in Hw.
    set (row := (pos + 1) / VGA_WIDTH) in *. assert (0 < row) by (unfold VGA_WIDTH in *; lia).
    rewrite Hw. eexists. split; [apply backspace_line_start; rewrite ?length_insert; done || lia|].
    split; [done|]. intros c' colour' Hc10 Hc8. unfold terminal_writechar.
    rewrite (proj2 (Z.eqb_neq _ _) Hc10), (proj2 (Z.eqb_neq _ _) Hc8).
    unfold terminal_writecell, gets, mbind, M_bind, terminal_putchar. simpl.
    rewrite upd_None; [done|]. right. rewrite !length_insert. unfold VGA_WIDTH. lia.
  - assert (0 < (pos + 1) mod VGA_WIDTH) by (pose proof (Z.mod_pos_bound (pos + 1) VGA_WIDTH); unfold VGA_WIDTH in *; lia).
    rewrite backspace_mid by (rewrite ?length_insert; done || lia).
    by rewrite Z.add_simpl_r, list_insert_insert_eq.
Qed.

Lemma terminal_backspace_witness :
  ∃ t, terminal_writechar 65 15 (at_pos (replicate 400 0) 79) = Done (tt, t) ∧
     if decide ((79 + 1) mod VGA_WIDTH = 0) then
       ∃ t', terminal_backspace t = Done (tt, t') ∧ terminal_col t' = 65535 ∧
             ∀ c' colour', c' ≠ 10 → c' ≠ 8 → terminal_writechar c' colour' t' = Undef
     else terminal_backspace t = Done (tt, at_pos (<[Z.to_nat 79 := cell 32]> (replicate 400 0)) 79).
Proof.
  apply (terminal_backspace_behaviour (replicate 400 0) 79 65 15);
    rewrite ?length_replicate; lia.
Defined.

(** ** Initialisation *)

Definition blank : Z := terminal_make_char 32 0.

Lemma clear_row_spec n x y A B t :
  video_mem t = VGA_BASE → vga t = A ++ B → Z.of_nat (length A) = y * VGA_WIDTH + x →
  (n ≤ length B)%nat →
  clear_row n x y t = Done (tt, set_vga (A ++ replicate n blank ++ drop n B) t).
Proof.
  revert x A B t. induction n as [|n IH]; intros x A B t Hv Hg Hx Hn.
  { simpl. rewrite drop_0, <- Hg. by destruct t. }
  destruct B as [|b B]; simpl in Hn; [lia|]. cbn [clear_row].
  erewrite bind_done.
  2:{ unfold terminal_putchar. rewrite Hv, Z.eqb_refl, Hg, <- Hx, upd_app. reflexivity. }
  rewrite (IH (x + 1) (A ++ [blank]) B); [|done|simpl|rewrite length_app; simpl; lia|lia].
  - rewrite <- app_assoc. by destruct t.
  - by rewrite <- app_assoc.
Qed.

Lemma clear_rows_spec n y A B t :
  video_mem t = VGA_BASE → vga t = A ++ B → Z.of_nat (length A) = y * VGA_WIDTH →
  (n * Z.to_nat VGA_WIDTH ≤ length B)%nat →
  clear_rows n y t =
  Done (tt, set_vga (A ++ replicate (n * Z.to_nat VGA_WIDTH) blank
                       ++ drop (n * Z.to_nat VGA_WIDTH) B) t).
Proof.
  revert y A B t. induction n as [|n IH]; intros y A B t Hv Hg Hx Hn.
  { simpl. rewrite drop_0, <- Hg. by destruct t. }
  cbn [clear_rows]. set (w := Z.to_nat VGA_WIDTH) in *.
  assert (Z.of_nat w = VGA_WIDTH) as Hw by done. clearbody w.
  rewrite Nat.mul_succ_l in Hn. erewrite bind_done; [|apply (clear_row_spec w 0 y A B); done || lia].
  rewrite (IH (y + 1) (A ++ replicate w blank) (drop w B)); [|done|..].
  - rewrite <- app_assoc, drop_drop. replace (S n * w)%nat with (w + n * w)%nat by lia.
    rewrite replicate_add, <- app_assoc. by destruct t.
  - simpl. by rewrite <- app_assoc.
  - rewrite length_app, length_replicate. lia.
  - rewrite length_drop. lia.
Qed.

(** [terminal_initialize] blanks the 80 by 20 cells of the screen, leaves
    the rest of the VGA window alone and puts the cursor at the origin. *)
Theorem terminal_initialize_clears t :
  VGA_WIDTH * VGA_HEIGHT <= Z.of_nat (length (vga t)) →
  terminal_initialize t =
  Done (tt, at_pos (replicate (Z.to_nat (VGA_WIDTH * VGA_HEIGHT)) blank ++
                    drop (Z.to_nat (VGA_WIDTH * VGA_HEIGHT)) (vga t)) 0).
Proof.
  intros H. unfold terminal_initialize. erewrite bind_done; [|reflexivity].
  rewrite (clear_rows_spec _ 0 [] (vga t)); [done..|].
  unfold VGA_WIDTH, VGA_HEIGHT in *. lia.
Qed.

Lemma terminal_initialize_witness :
  terminal_initialize {| video_mem := 0; vga := replicate 2000 7; terminal_row := 3; terminal_col := 9 |} =
  Done (tt, at_pos (replicate (Z.to_nat (VGA_WIDTH * VGA_HEIGHT)) blank ++
                    drop (Z.to_nat (VGA_WIDTH * VGA_HEIGHT)) (replicate 2000 7)) 0).
Proof.
  apply (terminal_initialize_clears
    {| video_mem := 0; vga := replicate 2000 7; terminal_row := 3; terminal_col := 9 |}).
  by vm_compute.
Defined.
