(* ===== verification/Heap.v ===== *)
(** * The block heap

    Models src/src/memory/heap/heap.c.  A heap is its block table (one byte per
    block) and the address of block 0.  An access outside the table is [None].

    The abstract state of a heap is a [layout]: the sequence of its free blocks
    and allocated runs.  [heap_repr] relates the two, and the theorems show that
    [heap_malloc] is first fit on layouts and that [heap_free] gives a run back. *)

From S2P Require Import Prelude Config CString.
Local Open Scope Z_scope.

Definition HEAP_BLOCK_TABLE_ENTRY_TAKEN : Z := 0x01.
Definition HEAP_BLOCK_TABLE_ENTRY_FREE : Z := 0x00.
Definition HEAP_BLOCK_HAS_NEXT : Z := 0x80.
Definition HEAP_BLOCK_IS_FIRST : Z := 0x40.

Record heap_table := { entries : list Z; total : Z }.

Record heap := { table : heap_table; saddr : Z }.

Definition set_entries (h : heap) (es : list Z) : heap :=
  {| table := {| entries := es; total := total (table h) |}; saddr := saddr h |}.

(** ** Operations *)

Definition heap_validate_table (ptr end_ : Z) (tbl : heap_table) : Z :=
  let table_size := u32 (end_ - ptr) in
  let total_blocks := table_size / VANA_HEAP_BLOCK_SIZE in
  if negb (total tbl =? total_blocks) then - EINVARG else 0.

Definition heap_validate_alignment (ptr : Z) : bool :=
  u32 ptr mod VANA_HEAP_BLOCK_SIZE =? 0.

(** The status and the heap structure after the call. *)
Definition heap_create (h : heap) (ptr end_ : Z) (tbl : heap_table) : option (Z * heap) :=
  if negb (heap_validate_alignment ptr) || negb (heap_validate_alignment end_)
  then Some (- EINVARG, h)
  else
    let h := {| table := tbl; saddr := ptr |} in
    let res := heap_validate_table ptr end_ tbl in
    if res <? 0 then Some (res, h)
    else
      es ← memset (entries tbl) HEAP_BLOCK_TABLE_ENTRY_FREE (total tbl);
      Some (res, set_entries h es).

Definition heap_align_value_to_upper (val : Z) : Z :=
  if val mod VANA_HEAP_BLOCK_SIZE =? 0 then val
  else
    let val := u32 (val - val mod VANA_HEAP_BLOCK_SIZE) in
    u32 (val + VANA_HEAP_BLOCK_SIZE).

Definition heap_get_entry_type (entry : Z) : Z := Z.land entry 0x0f.

(** The scan of [heap_get_start_block]: [n] entries are still to be read, [es]
    is the table from entry [i] on.  The result is the final value of [bs]. *)
Fixpoint heap_scan (n : nat) (es : list Z) (i bc bs total_blocks : Z) : option Z :=
  match n, es with
  | O, _ => Some bs
  | S _, [] => None
  | S n, e :: es =>
      if negb (heap_get_entry_type e =? HEAP_BLOCK_TABLE_ENTRY_FREE)
      then heap_scan n es (i + 1) 0 (-1) total_blocks
      else
        let bs := if bs =? -1 then i else bs in
        let bc := bc + 1 in
        if bc =? total_blocks then Some bs
        else heap_scan n es (i + 1) bc bs total_blocks
  end.

Definition heap_get_start_block (h : heap) (total_blocks : Z) : option Z :=
  bs ← heap_scan (Z.to_nat (total (table h))) (entries (table h)) 0 0 (-1) total_blocks;
  Some (if bs =? -1 then - ENOMEM else bs).

Definition heap_block_to_address (h : heap) (block : Z) : Z :=
  u32 (saddr h + block * VANA_HEAP_BLOCK_SIZE).

Fixpoint heap_take_loop (n : nat) (es : list Z) (i end_block entry : Z) : option (list Z) :=
  match n with
  | O => Some es
  | S n =>
      es ← es.[i <- entry];
      let entry := HEAP_BLOCK_TABLE_ENTRY_TAKEN in
      let entry := if negb (i =? end_block - 1)
                   then Z.lor entry HEAP_BLOCK_HAS_NEXT else entry in
      heap_take_loop n es (i + 1) end_block entry
  end.

Definition heap_mark_blocks_taken (h : heap) (start_block total_blocks : Z) : option heap :=
  let end_block := start_block + total_blocks - 1 in
  let entry := Z.lor HEAP_BLOCK_TABLE_ENTRY_TAKEN HEAP_BLOCK_IS_FIRST in
  let entry := if 1 <? total_blocks then Z.lor entry HEAP_BLOCK_HAS_NEXT else entry in
  es ← heap_take_loop (Z.to_nat (end_block + 1 - start_block))
         (entries (table h)) start_block end_block entry;
  Some (set_entries h es).

(** The address (0 when no block is found) and the heap after the call. *)
Definition heap_malloc_blocks (h : heap) (total_blocks : Z) : option (Z * heap) :=
  start_block ← heap_get_start_block h total_blocks;
  if start_block <? 0 then Some (0, h)
  else
    let address := heap_block_to_address h start_block in
    h ← heap_mark_blocks_taken h start_block (s32 total_blocks);
    Some (address, h).

Fixpoint heap_free_loop (n : nat) (es : list Z) (i : Z) : option (list Z) :=
  match n with
  | O => Some es
  | S n =>
      entry ← es.[i];
      es ← es.[i <- HEAP_BLOCK_TABLE_ENTRY_FREE];
      if Z.land entry HEAP_BLOCK_HAS_NEXT =? 0 then Some es
      else heap_free_loop n es (i + 1)
  end.

Definition heap_mark_blocks_free (h : heap) (starting_block : Z) : option heap :=
  es ← heap_free_loop (Z.to_nat (s32 (total (table h)) - starting_block))
         (entries (table h)) starting_block;
  Some (set_entries h es).

Definition heap_address_to_block (h : heap) (address : Z) : Z :=
  Z.quot (s32 (address - saddr h)) VANA_HEAP_BLOCK_SIZE.

Definition heap_malloc (h : heap) (size : Z) : option (Z * heap) :=
  let aligned_size := heap_align_value_to_upper size in
  let total_blocks := aligned_size / VANA_HEAP_BLOCK_SIZE in
  heap_malloc_blocks h total_blocks.

Definition heap_free (h : heap) (ptr : Z) : option heap :=
  heap_mark_blocks_free h (heap_address_to_block h ptr).

(** ** The abstract heap *)

(** A free block, or an allocated run of [n] blocks. *)
Inductive seg := Free | Alloc (n : nat).

#[export] Instance seg_eq_dec : EqDecision seg.
Proof. solve_decision. Defined.

Abbreviation layout := (list seg).

Definition seg_len (s : seg) : nat := match s with Free => 1 | Alloc n => n end.

Definition blocks (L : layout) : nat := sum_list_with seg_len L.

(** The entries of an allocated run: first, middle and last blocks. *)
Definition run_entries (n : nat) : list Z :=
  match n with
  | O => []
  | 1%nat => [0x41]
  | S (S n) => 0xC1 :: replicate n 0x81 ++ [0x01]
  end.

Definition seg_entries (s : seg) : list Z :=
  match s with Free => [0x00] | Alloc n => run_entries n end.

Definition layout_entries (L : layout) : list Z := L ≫= seg_entries.

(** The address range of the heap lies in the 32-bit space and is small enough
    for the [int] arithmetic on it; block 0 is not at address 0. *)
Definition heap_bounds (h : heap) : Prop :=
  0 < saddr h ∧ 0 <= total (table h) ∧
  total (table h) * VANA_HEAP_BLOCK_SIZE < 2 ^ 31 ∧
  saddr h + total (table h) * VANA_HEAP_BLOCK_SIZE <= 2 ^ 32.

Record heap_repr (h : heap) (L : layout) : Prop := {
  repr_entries : entries (table h) = layout_entries L;
  repr_total : total (table h) = Z.of_nat (blocks L);
  repr_runs : Forall (λ s, (0 < seg_len s)%nat) L;
  repr_bounds : heap_bounds h
}.

(** [L] can give a run of [n] blocks at block [blocks L1], and nowhere lower. *)
Definition first_fit (n : nat) (L L1 L2 : layout) : Prop :=
  L = L1 ++ replicate n Free ++ L2 ∧
  ∀ L1' L2', L = L1' ++ replicate n Free ++ L2' → (blocks L1 ≤ blocks L1')%nat.

(** No run of [n] free blocks anywhere. *)
Definition no_fit (n : nat) (L : layout) : Prop :=
  ∀ L1 L2, L ≠ L1 ++ replicate n Free ++ L2.

(** ** The scan as a search in a list of flags *)

Definition free_flag (e : Z) : bool :=
  heap_get_entry_type e =? HEAP_BLOCK_TABLE_ENTRY_FREE.

(** [n] consecutive free blocks start at position [p]. *)
Definition win (n : nat) (g : list bool) (p : nat) : Prop :=
  take n (drop p g) = replicate n true.

(** The length of the run of free blocks that ends the list, [acc] of them
    already counted. *)
Fixpoint trail (g : list bool) (acc : nat) : nat :=
  match g with
  | [] => acc
  | true :: g => trail g (S acc)
  | false :: g => trail g 0
  end.

Lemma win_replicate_lt n k g p :
  (k < n)%nat → win n (replicate k true ++ false :: g) p →
  ∃ q, p = (S k + q)%nat ∧ win n g q.
Proof.
  unfold win. intros Hk Hw. destruct (decide (p ≤ k)%nat) as [Hp|Hp].
  - exfalso. assert ((replicate n true : list bool) !! (k - p)%nat = Some true) as H1.
    { rewrite lookup_replicate_2; [done|lia]. }
    rewrite <- Hw, lookup_take_lt, lookup_drop, lookup_app_r in H1
      by (rewrite ?length_replicate; lia).
    rewrite length_replicate in H1. by replace (p + (k - p) - k)%nat with O in H1 by lia.
  - exists (p - S k)%nat. split; [lia|].
    rewrite drop_app_ge in Hw by (rewrite length_replicate; lia).
    rewrite length_replicate in Hw. by replace (p - k)%nat with (S (p - S k)) in Hw by lia.
Qed.

Lemma win_shift n k g q : win n g q → win n (replicate k true ++ false :: g) (S k + q).
Proof.
  unfold win. intros H. rewrite drop_app_ge by (rewrite length_replicate; lia).
  rewrite length_replicate. by replace (S k + q - k)%nat with (S q) by lia.
Qed.

Lemma win_0 k g : win k (replicate k true ++ g) 0.
Proof. unfold win. rewrite drop_0. apply take_app_length'. by rewrite length_replicate. Qed.

Lemma replicate_middle k (g : list bool) :
  replicate k true ++ true :: g = replicate (S k) true ++ g.
Proof. rewrite replicate_S_end, <- app_assoc. done. Qed.

(** The scan stops at the lowest window, when there is one. *)
Lemma heap_scan_hit (n : nat) es k i p bs :
  (k < n)%nat → bs = (if decide (k = O) then -1 else i - Z.of_nat k) → 0 <= i - Z.of_nat k →
  let g := replicate k true ++ (free_flag <$> es) in
  win n g p → (∀ q, win n g q → (p ≤ q)%nat) →
  heap_scan (length es) es i (Z.of_nat k) bs (Z.of_nat n) =
  Some (i - Z.of_nat k + Z.of_nat p).
Proof.
  revert k i p bs. induction es as [|e es IH]; intros k i p bs Hk Hbs Hi g Hw Hmin.
  { exfalso. subst g. simpl in Hw. rewrite app_nil_r in Hw. unfold win in Hw.
    apply (f_equal length) in Hw. rewrite length_take, length_drop, !length_replicate in Hw. lia. }
  subst g. rewrite fmap_cons in *. cbn [length heap_scan trail].
  change (heap_get_entry_type e =? _) with (free_flag e).
  destruct (free_flag e) eqn:He; cbn [negb].
  - assert ((if bs =? -1 then i else bs) = i - Z.of_nat k) as ->.
    { subst bs. case_decide; simpl; [lia|]. destruct (Z.eqb_spec (i - Z.of_nat k) (-1)); lia. }
    rewrite replicate_middle in Hw, Hmin.
    destruct (Z.eqb_spec (Z.of_nat k + 1) (Z.of_nat n)) as [Hn|Hn].
    + assert (p = O) as ->; [|f_equal; lia].
      enough (p ≤ 0)%nat by lia. apply Hmin. replace n with (S k) by lia. apply win_0.
    + replace (Z.of_nat k + 1) with (Z.of_nat (S k)) by lia.
      rewrite (IH (S k) (i + 1) p (i - Z.of_nat k)); [f_equal; lia|lia| |lia|done..].
      rewrite decide_False; lia.
  - destruct (win_replicate_lt _ _ _ _ Hk Hw) as (q & -> & Hq).
    etransitivity; [apply (IH O (i + 1) q (-1))|]; [lia|done|lia|done| |f_equal; lia].
    intros q' Hq'. specialize (Hmin _ (win_shift n k _ q' Hq')). lia.
Qed.

(** Without a window the scan ends with the run that ends the table. *)
Lemma heap_scan_miss (n : nat) es k i bs :
  (k < n)%nat → bs = (if decide (k = O) then -1 else i - Z.of_nat k) → 0 <= i - Z.of_nat k →
  let g := free_flag <$> es in
  (∀ p, ¬ win n (replicate k true ++ g) p) →
  heap_scan (length es) es i (Z.of_nat k) bs (Z.of_nat n) =
  Some (if decide (trail g k = O) then -1
        else i + Z.of_nat (length es) - Z.of_nat (trail g k)).
Proof.
  revert k i bs. induction es as [|e es IH]; intros k i bs Hk Hbs Hi g Hno.
  { subst g bs. simpl. f_equal. case_decide; lia. }
  subst g. rewrite fmap_cons in *. cbn [length heap_scan trail].
  change (heap_get_entry_type e =? _) with (free_flag e).
  destruct (free_flag e) eqn:He; cbn [negb].
  - assert ((if bs =? -1 then i else bs) = i - Z.of_nat k) as ->.
    { subst bs. case_decide; simpl; [lia|]. destruct (Z.eqb_spec (i - Z.of_nat k) (-1)); lia. }
    rewrite replicate_middle in Hno.
    destruct (Z.eqb_spec (Z.of_nat k + 1) (Z.of_nat n)) as [Hn|Hn].
    + exfalso. apply (Hno O). replace n with (S k) by lia. apply win_0.
    + replace (Z.of_nat k + 1) with (Z.of_nat (S k)) by lia.
      rewrite (IH (S k) (i + 1) (i - Z.of_nat k)); [|lia| |lia|done].
      * f_equal. clear Hbs. case_decide; lia.
      * rewrite decide_False; lia.
  - etransitivity; [apply (IH O (i + 1) (-1))|]; [lia|done|lia| |];
      [|f_equal; clear Hbs; case_decide; lia].
    intros q Hq. apply (Hno (S k + q)%nat). by apply win_shift.
Qed.

(** ** Layouts and their table *)

Definition flags (L : layout) : list bool := free_flag <$> layout_entries L.

Lemma layout_entries_cons s L : layout_entries (s :: L) = seg_entries s ++ layout_entries L.
Proof. done. Qed.

Lemma blocks_cons s L : blocks (s :: L) = (seg_len s + blocks L)%nat.
Proof. done. Qed.

Lemma layout_entries_app L1 L2 :
  layout_entries (L1 ++ L2) = layout_entries L1 ++ layout_entries L2.
Proof. apply bind_app. Qed.

Lemma blocks_app L1 L2 : blocks (L1 ++ L2) = (blocks L1 + blocks L2)%nat.
Proof. apply sum_list_with_app. Qed.

Lemma blocks_free n : blocks (replicate n Free) = n.
Proof. induction n as [|n IH]; [done|]. cbn [replicate]. by rewrite blocks_cons, IH. Qed.

Lemma layout_entries_free n : layout_entries (replicate n Free) = replicate n 0.
Proof. induction n as [|n IH]; [done|]. cbn [replicate]. by rewrite layout_entries_cons, IH. Qed.

Lemma length_run_entries n : length (run_entries n) = n.
Proof. destruct n as [|[|n]]; simpl; [done..|]. rewrite length_app, length_replicate. simpl. lia. Qed.

Lemma length_layout_entries L : length (layout_entries L) = blocks L.
Proof.
  induction L as [|[|n] L IH]; [done|..];
    rewrite layout_entries_cons, blocks_cons, length_app, IH; [done|].
  simpl. by rewrite length_run_entries.
Qed.

Lemma flags_run n : free_flag <$> run_entries n = replicate n false.
Proof.
  destruct n as [|[|n]]; [done..|]. cbn [run_entries].
  rewrite fmap_cons, fmap_app, fmap_replicate.
  change (false :: (replicate n false ++ [false]) = false :: replicate (S n) false).
  by rewrite replicate_S_end.
Qed.

Lemma flags_Free L : flags (Free :: L) = true :: flags L.
Proof. done. Qed.

Lemma flags_Alloc n L : flags (Alloc n :: L) = replicate n false ++ flags L.
Proof. unfold flags. rewrite layout_entries_cons, fmap_app. simpl. by rewrite flags_run. Qed.

Lemma flags_app L1 L2 : flags (L1 ++ L2) = flags L1 ++ flags L2.
Proof. unfold flags. by rewrite layout_entries_app, fmap_app. Qed.

Lemma flags_free n : flags (replicate n Free) = replicate n true.
Proof. unfold flags. by rewrite layout_entries_free, fmap_replicate. Qed.

Lemma length_flags L : length (flags L) = blocks L.
Proof. unfold flags. by rewrite length_fmap, length_layout_entries. Qed.

Lemma take_flags n L : Forall (λ s, (0 < seg_len s)%nat) L →
  take n (flags L) = replicate n true → ∃ L2, L = replicate n Free ++ L2.
Proof.
  revert L. induction n as [|n IH]; intros L HL H; [by exists L|].
  destruct L as [|[|m] L]; [done|..]; inversion HL as [|?? Hm HL']; subst.
  - rewrite flags_Free in H. simplify_eq/=. destruct (IH L HL' H) as [L2 ->]. by exists L2.
  - rewrite flags_Alloc in H. destruct m; simpl in Hm; [lia|done].
Qed.

Lemma win_flags n L p : (0 < n)%nat → Forall (λ s, (0 < seg_len s)%nat) L →
  win n (flags L) p ↔ ∃ L1 L2, L = L1 ++ replicate n Free ++ L2 ∧ blocks L1 = p.
Proof.
  unfold win. intros Hn HL. split.
  - revert p. induction HL as [|s L Hs HL IH]; intros p Hw.
    + unfold flags in Hw. simpl in Hw. rewrite drop_nil, take_nil in Hw.
      destruct n; [lia|done].
    + destruct (decide (p = O)) as [->|Hp].
      { destruct (take_flags n (s :: L)) as [L2 E]; [by constructor|done|].
        exists [], L2. by rewrite E. }
      destruct s as [|m].
      * destruct p as [|p]; [done|]. destruct (IH p Hw) as (L1 & L2 & -> & <-).
        exists (Free :: L1), L2. done.
      * rewrite flags_Alloc in Hw. destruct (decide (p < m)%nat) as [Hlt|Hge].
        { exfalso. rewrite drop_app_le, drop_replicate in Hw by (rewrite length_replicate; lia).
          destruct (m - p)%nat eqn:E; [lia|]. destruct n; [lia|done]. }
        rewrite drop_app_ge, length_replicate in Hw by (rewrite length_replicate; lia).
        destruct (IH _ Hw) as (L1 & L2 & -> & HL1).
        exists (Alloc m :: L1), L2. split; [done|]. rewrite blocks_cons. simpl. lia.
  - intros (L1 & L2 & -> & <-). rewrite !flags_app, flags_free.
    rewrite drop_app_length' by (by rewrite length_flags).
    apply take_app_length'. by rewrite length_replicate.
Qed.

(** ** Marking a run *)

Fixpoint chain (n : nat) (entry : Z) : list Z :=
  match n with
  | O => []
  | S n => entry :: chain n (if Nat.eqb n 1 then 0x01 else 0x81)
  end.

Lemma chain_tail n : chain (S n) (if Nat.eqb (S n) 1 then 0x01 else 0x81) = replicate n 0x81 ++ [0x01].
Proof. induction n as [|n IH]; [done|]. cbn [chain]. cbn [chain] in IH. by rewrite IH. Qed.

Lemma chain_run n : (0 < n)%nat →
  chain n (if 1 <? Z.of_nat n then 0xC1 else 0x41) = run_entries n.
Proof.
  destruct n as [|[|n]]; [lia|done|]. intros _. destruct (Z.ltb_spec 1 (Z.of_nat (S (S n)))); [|lia].
  change (0xC1 :: chain (S n) (if Nat.eqb (S n) 1 then 0x01 else 0x81) =
          0xC1 :: replicate n 0x81 ++ [0x01]). by rewrite chain_tail.
Qed.

Lemma heap_take_loop_spec A F B e :
  heap_take_loop (length F) (A ++ F ++ B) (Z.of_nat (length A))
    (Z.of_nat (length A) + Z.of_nat (length F) - 1) e =
  Some (A ++ chain (length F) e ++ B).
Proof.
  revert A e. induction F as [|f F IH]; intros A e; [done|].
  cbn [length heap_take_loop chain].
  cbn [app]. rewrite upd_app. cbn [mbind option_bind].
  change (e :: F ++ B) with ([e] ++ F ++ B). rewrite (app_assoc A [e]). specialize (IH (A ++ [e])).
  rewrite length_app in IH. cbn [length] in IH.
  replace (Z.of_nat (length A + 1)) with (Z.of_nat (length A) + 1) in IH by lia.
  replace (Z.of_nat (length A) + 1 + Z.of_nat (length F) - 1)
    with (Z.of_nat (length A) + Z.of_nat (S (length F)) - 1) in IH by lia.
  rewrite IH, <- app_assoc. do 4 f_equal.
  destruct (Nat.eqb_spec (length F) 1), (Z.eqb_spec (Z.of_nat (length A))
    (Z.of_nat (length A) + Z.of_nat (S (length F)) - 1 - 1)); cbn [negb]; try lia; done.
Qed.

Lemma heap_take_loop_oob n es i end_block e :
  0 <= i <= Z.of_nat (length es) → Z.of_nat (length es) < i + Z.of_nat n →
  heap_take_loop n es i end_block e = None.
Proof.
  revert es i e. induction n as [|n IH]; intros es i e Hi Hn; [lia|]. cbn [heap_take_loop].
  destruct (decide (i = Z.of_nat (length es))) as [->|].
  - by rewrite upd_None by lia.
  - rewrite upd_Some by lia. simpl. apply IH; rewrite length_insert; lia.
Qed.

(** ** Releasing a run *)

Lemma heap_free_tail n A B fuel : (S n ≤ fuel)%nat →
  heap_free_loop fuel (A ++ (replicate n 0x81 ++ [0x01]) ++ B) (Z.of_nat (length A)) =
  Some (A ++ replicate (S n) 0 ++ B).
Proof.
  revert A fuel. induction n as [|n IH]; intros A [|fuel] Hf; try lia;
    cbn [heap_free_loop replicate app].
  - rewrite idx_app. cbn [mbind option_bind]. rewrite upd_app. done.
  - rewrite idx_app. cbn [mbind option_bind]. rewrite upd_app. cbn [mbind option_bind].
    change (Z.land 0x81 HEAP_BLOCK_HAS_NEXT =? 0) with false. cbv match.
    rewrite (cons_middle _ A). rewrite (app_assoc A [_]).
    replace (Z.of_nat (length A) + 1) with (Z.of_nat (length (A ++ [HEAP_BLOCK_TABLE_ENTRY_FREE])))
      by (rewrite length_app; simpl; lia).
    rewrite (IH (A ++ [HEAP_BLOCK_TABLE_ENTRY_FREE]) fuel) by lia. by rewrite <- app_assoc.
Qed.

Lemma heap_free_run n A B fuel : (0 < n ≤ fuel)%nat →
  heap_free_loop fuel (A ++ run_entries n ++ B) (Z.of_nat (length A)) =
  Some (A ++ replicate n 0 ++ B).
Proof.
  intros Hn. destruct n as [|[|n]]; [lia|..].
  - destruct fuel as [|fuel]; [lia|]. cbn [heap_free_loop run_entries app].
    rewrite idx_app. cbn [mbind option_bind]. by rewrite upd_app.
  - destruct fuel as [|fuel]; [lia|]. cbn [heap_free_loop run_entries app].
    rewrite idx_app. cbn [mbind option_bind]. rewrite upd_app. cbn [mbind option_bind].
    change (Z.land 0xC1 HEAP_BLOCK_HAS_NEXT =? 0) with false. cbv match.
    rewrite (cons_middle _ A), (app_assoc A [_]).
    replace (Z.of_nat (length A) + 1) with (Z.of_nat (length (A ++ [HEAP_BLOCK_TABLE_ENTRY_FREE])))
      by (rewrite length_app; simpl; lia).
    rewrite heap_free_tail by lia. by rewrite <- app_assoc.
Qed.

(** ** Rounding *)

Lemma heap_align_spec val : 0 <= val <= 2 ^ 32 - VANA_HEAP_BLOCK_SIZE →
  heap_align_value_to_upper val =
  (val + (VANA_HEAP_BLOCK_SIZE - 1)) / VANA_HEAP_BLOCK_SIZE * VANA_HEAP_BLOCK_SIZE.
Proof.
  unfold heap_align_value_to_upper, VANA_HEAP_BLOCK_SIZE. intros H.
  pose proof (Z.div_mod val 4096). pose proof (Z.mod_pos_bound val 4096).
  destruct (Z.eqb_spec (val mod 4096) 0) as [E|E].
  - Z.to_euclidean_division_equations. lia.
  - widths. Z.to_euclidean_division_equations. lia.
Qed.

(** The number of blocks a request of [size] bytes needs. *)
Definition size_blocks (size : Z) : nat :=
  Z.to_nat ((size + (VANA_HEAP_BLOCK_SIZE - 1)) / VANA_HEAP_BLOCK_SIZE).

Definition valid_size (size : Z) : Prop := 0 < size <= 2 ^ 32 - VANA_HEAP_BLOCK_SIZE.

Lemma size_blocks_bounds size : valid_size size →
  (0 < size_blocks size)%nat ∧
  size <= Z.of_nat (size_blocks size) * VANA_HEAP_BLOCK_SIZE < size + VANA_HEAP_BLOCK_SIZE ∧
  Z.of_nat (size_blocks size) < 2 ^ 20.
Proof.
  unfold size_blocks, valid_size, VANA_HEAP_BLOCK_SIZE. intros H.
  Z.to_euclidean_division_equations. lia.
Qed.

Lemma heap_malloc_blocks_eq h size : valid_size size →
  heap_malloc h size = heap_malloc_blocks h (Z.of_nat (size_blocks size)).
Proof.
  intros H. unfold heap_malloc. rewrite heap_align_spec by (unfold valid_size in H; lia).
  rewrite Z.div_mul by done. f_equal. unfold size_blocks. rewrite Z2Nat.id; [done|].
  apply Z.div_pos; unfold valid_size, VANA_HEAP_BLOCK_SIZE in *; lia.
Qed.

(** ** The search on layouts *)

Lemma repr_length h L : heap_repr h L →
  length (entries (table h)) = blocks L ∧ Z.to_nat (total (table h)) = blocks L.
Proof. intros [-> Ht _ _]. rewrite length_layout_entries. lia. Qed.

Lemma fit_dec n L : (0 < n)%nat → Forall (λ s, (0 < seg_len s)%nat) L →
  (∃ L1 L2, first_fit n L L1 L2) ∨ no_fit n L.
Proof.
  intros Hn HL.
  assert (∀ m, (∃ p, win n (flags L) p ∧ ∀ q, win n (flags L) q → (p ≤ q)%nat) ∨
               ∀ p, (p < m)%nat → ¬ win n (flags L) p) as Hsearch.
  { induction m as [|m [IH|IH]]; [right; lia|by left|].
    destruct (decide (take n (drop m (flags L)) = replicate n true)) as [Hw|Hw].
    - left. exists m. split; [done|]. intros q Hq. destruct (decide (m ≤ q)%nat); [done|].
      exfalso. apply (IH q); [lia|done].
    - right. intros p Hp. destruct (decide (p = m)) as [->|]; [done|]. apply IH. lia. }
  destruct (Hsearch (S (length (flags L)))) as [(p & Hp & Hmin)|Hno].
  - left. apply win_flags in Hp as (L1 & L2 & E & <-); [|done..]. exists L1, L2.
    split; [done|]. intros L1' L2' E'. apply Hmin, win_flags; eauto.
  - right. intros L1 L2 E. apply (Hno (blocks L1)).
    + rewrite length_flags, E, !blocks_app. lia.
    + apply win_flags; eauto.
Qed.

Lemma heap_get_start_block_hit h L L1 L2 n :
  heap_repr h L → (0 < n)%nat → first_fit n L L1 L2 →
  heap_get_start_block h (Z.of_nat n) = Some (Z.of_nat (blocks L1)).
Proof.
  intros Hr Hn [E Hmin]. unfold heap_get_start_block.
  destruct (repr_length _ _ Hr) as [Hl ->]. rewrite <- Hl. destruct Hr as [He Ht HL _].
  pose proof (heap_scan_hit n (entries (table h)) O 0 (blocks L1) (-1)) as Hs.
  change (Z.of_nat 0) with 0 in Hs. rewrite Hs; [|done|done|lia| |]; simpl.
  - replace (0 - 0 + Z.of_nat (blocks L1)) with (Z.of_nat (blocks L1)) by lia.
    destruct (Z.eqb_spec (Z.of_nat (blocks L1)) (-1)); [lia|done].
  - rewrite He. apply (win_flags n L); eauto.
  - intros q Hq. rewrite He in Hq. apply (win_flags n L) in Hq as (L1' & L2' & E' & <-); eauto.
Qed.

Lemma trail_suffix g k : (trail g k ≤ k + length g)%nat ∧
  drop (k + length g - trail g k) (replicate k true ++ g) = replicate (trail g k) true.
Proof.
  revert k. induction g as [|[] g IH]; intros k; simpl.
  - split; [lia|]. by rewrite app_nil_r, Nat.add_0_r, Nat.sub_diag.
  - destruct (IH (S k)) as [H1 H2]. split; [lia|]. rewrite replicate_middle.
    by replace (k + S (length g) - trail g (S k))%nat with (S k + length g - trail g (S k))%nat by lia.
  - destruct (IH O) as [H1 H2]. split; [lia|]. simpl in H1, H2.
    rewrite drop_app_ge, length_replicate by (rewrite length_replicate; lia).
    replace (k + S (length g) - trail g 0 - k)%nat with (S (length g - trail g 0)) by lia. done.
Qed.

Lemma heap_get_start_block_miss h L n :
  heap_repr h L → (0 < n)%nat → no_fit n L →
  heap_get_start_block h (Z.of_nat n) =
  Some (if decide (trail (flags L) 0 = O) then - ENOMEM
        else total (table h) - Z.of_nat (trail (flags L) 0)).
Proof.
  intros Hr Hn Hno. unfold heap_get_start_block.
  destruct (repr_length _ _ Hr) as [Hl ->]. rewrite <- Hl. destruct Hr as [He Ht HL _].
  pose proof (heap_scan_miss n (entries (table h)) O 0 (-1)) as Hs.
  change (Z.of_nat 0) with 0 in Hs. rewrite Hs; [|done|done|lia|].
  - rewrite Hl, Ht. rewrite He. change (free_flag <$> layout_entries L) with (flags L).
    cbn [mbind option_bind]. destruct (decide (trail (flags L) 0 = O)) as [Hd|Hd]; [done|].
    destruct (Z.eqb_spec (0 + Z.of_nat (blocks L) - Z.of_nat (trail (flags L) 0)) (-1)); [|done].
    pose proof (proj1 (trail_suffix (flags L) 0)). rewrite length_flags in *. lia.
  - intros p Hp. rewrite He in Hp. apply (win_flags n L) in Hp as (L1 & L2 & E & _); [|done..].
    by apply (Hno L1 L2).
Qed.

(** Without a window of [n], the run that ends the table is shorter than [n]. *)
Lemma trail_lt n L : (0 < n)%nat → Forall (λ s, (0 < seg_len s)%nat) L → no_fit n L →
  (trail (flags L) 0 < n)%nat.
Proof.
  intros Hn HL Hno. destruct (trail_suffix (flags L) 0) as [H1 H2]. simpl in H1, H2.
  destruct (decide (n ≤ trail (flags L) 0)%nat) as [Hge|]; [|lia]. exfalso.
  assert (win n (flags L) (length (flags L) - trail (flags L) 0)) as Hw.
  { unfold win. rewrite H2, take_replicate. f_equal. lia. }
  apply win_flags in Hw as (L1 & L2 & E & _); [|done..]. by apply (Hno L1 L2).
Qed.

Lemma trail_app g1 g2 k : trail (g1 ++ g2) k = trail g2 (trail g1 k).
Proof. revert k. induction g1 as [|[] g1 IH]; intros k; simpl; [done|apply IH..]. Qed.

Lemma trail_last L : Forall (λ s, (0 < seg_len s)%nat) L →
  (trail (flags L) 0 = O) ↔ last L ≠ Some Free.
Proof.
  intros HL. destruct L as [|[|n] L _] using rev_ind; [done|..];
    rewrite flags_app, trail_app, last_snoc.
  - split; [|done]. change (flags [Free]) with [true]. done.
  - split; [done|]. intros _. apply Forall_app in HL as [_ HL]. inversion HL as [|?? Hn _]; subst.
    rewrite flags_Alloc, trail_app. simpl in Hn. destruct n as [|n]; [lia|].
    change (flags []) with (@nil bool). simpl. clear. induction n; [done|done].
Qed.

(** ** Allocation *)

Lemma heap_mark_blocks_taken_spec h L1 L2 n :
  heap_repr h (L1 ++ replicate n Free ++ L2) → (0 < n)%nat →
  ∃ h', heap_mark_blocks_taken h (Z.of_nat (blocks L1)) (Z.of_nat n) = Some h' ∧
        heap_repr h' (L1 ++ Alloc n :: L2) ∧ saddr h' = saddr h.
Proof.
  intros [He Ht HL Hb] Hn. unfold heap_mark_blocks_taken.
  change (Z.lor (Z.lor HEAP_BLOCK_TABLE_ENTRY_TAKEN HEAP_BLOCK_IS_FIRST) HEAP_BLOCK_HAS_NEXT) with 0xC1.
  change (Z.lor HEAP_BLOCK_TABLE_ENTRY_TAKEN HEAP_BLOCK_IS_FIRST) with 0x41.
  rewrite He, !layout_entries_app, layout_entries_free.
  pose proof (heap_take_loop_spec (layout_entries L1) (replicate n 0) (layout_entries L2)) as Hl.
  rewrite length_replicate, length_layout_entries in Hl.
  replace (Z.to_nat _) with n by lia. rewrite Hl. cbn [mbind option_bind].
  eexists; split_and!; [done| |done]. rewrite chain_run by done. split; simpl.
  - by rewrite layout_entries_app, layout_entries_cons.
  - rewrite Ht, !blocks_app, blocks_cons, blocks_free. done.
  - apply Forall_app in HL as [HL1 HL2]. apply Forall_app in HL2 as [_ HL2].
    apply Forall_app; split; [done|]. by constructor.
  - done.
Qed.

Lemma heap_repr_block_addr h L1 L2 : heap_repr h (L1 ++ L2) →
  heap_block_to_address h (Z.of_nat (blocks L1)) =
  saddr h + Z.of_nat (blocks L1) * VANA_HEAP_BLOCK_SIZE ∨ L2 = [].
Proof.
  intros [He Ht HL (Hs & H0 & H31 & H32)]. destruct L2 as [|s L2]; [by right|left].
  apply Forall_app in HL as [_ HL]. inversion HL; subst.
  rewrite blocks_app, blocks_cons in Ht. unfold heap_block_to_address, VANA_HEAP_BLOCK_SIZE in *.
  widths. done.
Qed.

Lemma heap_malloc_hit h L L1 L2 size :
  heap_repr h L → valid_size size → first_fit (size_blocks size) L L1 L2 →
  ∃ h', heap_malloc h size =
          Some (saddr h + Z.of_nat (blocks L1) * VANA_HEAP_BLOCK_SIZE, h') ∧
        heap_repr h' (L1 ++ Alloc (size_blocks size) :: L2) ∧ saddr h' = saddr h.
Proof.
  intros Hr Hsz Hff. destruct (size_blocks_bounds size Hsz) as (Hn & _ & Hn20).
  rewrite heap_malloc_blocks_eq by done. unfold heap_malloc_blocks.
  rewrite (heap_get_start_block_hit h L L1 L2) by done. cbn [mbind option_bind].
  destruct (Z.ltb_spec (Z.of_nat (blocks L1)) 0); [lia|]. rewrite s32_small by range.
  destruct Hff as [-> _]. destruct (heap_mark_blocks_taken_spec h L1 L2 _ Hr Hn) as (h' & -> & Hr' & Hs).
  exists h'. cbn [mbind option_bind]. split_and!; [|done..].
  destruct (heap_repr_block_addr h L1 _ Hr) as [->|E]; [done|].
  destruct (size_blocks size); [lia|done].
Qed.

(** [heap_malloc] is first fit.  When the layout has a run of free blocks
    long enough for the request, the call returns the address of the lowest such
    run, marks exactly its blocks as one allocation and leaves every other entry
    of the table as it was. *)
Theorem heap_malloc_first_fit h L L1 L2 size :
  heap_repr h L → valid_size size → first_fit (size_blocks size) L L1 L2 →
  ∃ h', heap_malloc h size =
          Some (saddr h + Z.of_nat (blocks L1) * VANA_HEAP_BLOCK_SIZE, h') ∧
        heap_repr h' (L1 ++ Alloc (size_blocks size) :: L2) ∧ saddr h' = saddr h.
Proof. apply heap_malloc_hit. Qed.

Lemma heap_malloc_miss h L size :
  heap_repr h L → valid_size size → no_fit (size_blocks size) L →
  heap_malloc h size = (if decide (last L = Some Free) then None else Some (0, h)).
Proof.
  intros Hr Hsz Hno. destruct (size_blocks_bounds size Hsz) as (Hn & _ & Hn20).
  rewrite heap_malloc_blocks_eq by done. unfold heap_malloc_blocks.
  rewrite (heap_get_start_block_miss h L) by done. cbn [mbind option_bind].
  pose proof (repr_length _ _ Hr) as [Hl _]. destruct Hr as [He Ht HL Hb].
  pose proof (trail_last L HL) as Htl. pose proof (trail_lt _ _ Hn HL Hno) as Hlt.
  pose proof (proj1 (trail_suffix (flags L) 0)) as Hle. rewrite length_flags in Hle. simpl in Hle.
  destruct (decide (trail (flags L) 0 = O)) as [E|E].
  - rewrite decide_False by (by apply Htl). done.
  - rewrite decide_True by (apply dec_stable; by rewrite <- Htl).
    destruct (Z.ltb_spec (total (table h) - Z.of_nat (trail (flags L) 0)) 0); [lia|].
    rewrite s32_small by range. unfold heap_mark_blocks_taken.
    rewrite heap_take_loop_oob; [done|lia|lia].
Qed.

(** The calls that write outside the block table. *)
Lemma heap_malloc_outside h L size :
  heap_repr h L → valid_size size →
  heap_malloc h size = None ↔ no_fit (size_blocks size) L ∧ last L = Some Free.
Proof.
  intros Hr Hsz. destruct (size_blocks_bounds size Hsz) as (Hn & _ & _).
  destruct (fit_dec _ L Hn (repr_runs _ _ Hr)) as [(L1 & L2 & Hff)|Hno].
  - destruct (heap_malloc_hit h L L1 L2 size) as (h1 & -> & _); [done..|].
    split; [done|]. intros [Hno _]. by destruct (Hno L1 L2); apply Hff.
  - rewrite (heap_malloc_miss h L) by done. case_decide; naive_solver.
Qed.

(** What [heap_malloc] does when no run is long enough.  If the last block
    of the heap is taken the call fails with a null pointer and leaves the heap
    alone; if the last block is free, the search returns the (too short) free run
    that ends the table and the table is written past its end. *)
Theorem heap_malloc_no_fit h L size :
  heap_repr h L → valid_size size → no_fit (size_blocks size) L →
  heap_malloc h size = (if decide (last L = Some Free) then None else Some (0, h)).
Proof. apply heap_malloc_miss. Qed.

(** ** Release *)

Lemma heap_free_run_spec h L1 n L2 :
  heap_repr h (L1 ++ Alloc n :: L2) →
  ∃ h', heap_free h (saddr h + Z.of_nat (blocks L1) * VANA_HEAP_BLOCK_SIZE) = Some h' ∧
        heap_repr h' (L1 ++ replicate n Free ++ L2) ∧ saddr h' = saddr h.
Proof.
  intros [He Ht HL Hb]. pose proof Hb as (Hs & H0 & H31 & H32).
  apply Forall_app in HL as [HL1 HL2]. inversion HL2 as [|?? Hn HL2']; subst. simpl in Hn.
  rewrite blocks_app, blocks_cons in Ht. simpl in Ht.
  unfold heap_free, heap_address_to_block, heap_mark_blocks_free.
  unfold VANA_HEAP_BLOCK_SIZE in *. replace (_ + _ - saddr h) with (Z.of_nat (blocks L1) * 4096) by lia.
  widths. rewrite Z.quot_mul by done.
  rewrite He, layout_entries_app, layout_entries_cons. simpl seg_entries.
  pose proof (heap_free_run n (layout_entries L1) (layout_entries L2)) as Hf.
  rewrite length_layout_entries in Hf. rewrite Hf by lia. cbn [mbind option_bind].
  eexists; split_and!; [done| |done]. split; simpl.
  - by rewrite !layout_entries_app, layout_entries_free.
  - rewrite Ht, !blocks_app, blocks_free. done.
  - apply Forall_app; split; [done|]. apply Forall_app; split; [|done].
    apply Forall_replicate. simpl. lia.
  - done.
Qed.

(** [heap_free] of the address of a live run turns exactly the blocks of
    that run into free blocks. *)
Theorem heap_free_releases_run h L1 n L2 :
  heap_repr h (L1 ++ Alloc n :: L2) →
  ∃ h', heap_free h (saddr h + Z.of_nat (blocks L1) * VANA_HEAP_BLOCK_SIZE) = Some h' ∧
        heap_repr h' (L1 ++ replicate n Free ++ L2) ∧ saddr h' = saddr h.
Proof. apply heap_free_run_spec. Qed.

Lemma heap_repr_inj h h' L : heap_repr h L → heap_repr h' L → saddr h = saddr h' → h = h'.
Proof.
  destruct h as [[es t] sa], h' as [[es' t'] sa']. intros [] [] ?. simpl in *. congruence.
Qed.

(** Freeing what [heap_malloc] just returned restores the heap exactly. *)
Theorem heap_malloc_free_roundtrip h L size p h' :
  heap_repr h L → valid_size size → heap_malloc h size = Some (p, h') → p ≠ 0 →
  heap_free h' p = Some h.
Proof.
  intros Hr Hsz Hm Hp. destruct (size_blocks_bounds size Hsz) as (Hn & _ & _).
  destruct (fit_dec _ L Hn (repr_runs _ _ Hr)) as [(L1 & L2 & Hff)|Hno].
  - destruct (heap_malloc_hit h L L1 L2 size) as (h1 & E & Hr1 & Hs1); [done..|].
    rewrite E in Hm. simplify_eq. rewrite <- Hs1.
    destruct (heap_free_run_spec h' L1 _ L2 Hr1) as (h2 & -> & Hr2 & Hs2). f_equal.
    destruct Hff as [-> _]. eapply heap_repr_inj; [done..|congruence].
  - rewrite (heap_malloc_miss h L) in Hm by done. case_decide; simplify_eq.
Qed.

Lemma heap_create_cases h ptr end_ tbl :
  0 < ptr <= end_ → end_ < 2 ^ 32 → end_ - ptr < 2 ^ 31 → 0 <= total tbl →
  length (entries tbl) = Z.to_nat (total tbl) →
  ∃ h', if decide (ptr mod VANA_HEAP_BLOCK_SIZE = 0 ∧ end_ mod VANA_HEAP_BLOCK_SIZE = 0 ∧
                   end_ - ptr = total tbl * VANA_HEAP_BLOCK_SIZE)
        then heap_create h ptr end_ tbl = Some (0, h') ∧ saddr h' = ptr ∧
             heap_repr h' (replicate (Z.to_nat (total tbl)) Free)
        else heap_create h ptr end_ tbl = Some (- EINVARG, h') ∧
             (h' = h ∨ table h' = tbl).
Proof.
  intros Hp He Hd Ht Hl.
  unfold heap_create, heap_validate_alignment, heap_validate_table, VANA_HEAP_BLOCK_SIZE.
  rewrite (u32_small ptr), (u32_small end_), (u32_small (end_ - ptr)) by range.
  destruct (Z.eqb_spec (ptr mod 4096) 0) as [E1|E1];
    [|exists h; rewrite decide_False by (by intros (?&?&?)); by eauto].
  destruct (Z.eqb_spec (end_ mod 4096) 0) as [E2|E2];
    [|exists h; rewrite decide_False by (by intros (?&?&?)); by eauto].
  cbn [negb orb]. destruct (Z.eqb_spec (total tbl) ((end_ - ptr) / 4096)) as [E3|E3]; cbn [negb].
  - eexists. rewrite decide_True by (split_and!; [done..|Z.to_euclidean_division_equations; lia]).
    cbv beta iota. change (0 <? 0) with false. cbv iota.
    rewrite memset_spec by lia. cbn [mbind option_bind].
    change (u8 HEAP_BLOCK_TABLE_ENTRY_FREE) with 0.
    rewrite drop_ge, app_nil_r by lia. split_and!; [done..|]. split; simpl.
    + by rewrite layout_entries_free.
    + rewrite blocks_free. lia.
    + apply Forall_replicate. simpl. lia.
    + unfold heap_bounds, VANA_HEAP_BLOCK_SIZE. simpl. Z.to_euclidean_division_equations. lia.
  - eexists. rewrite decide_False by (intros (_ & _ & E); Z.to_euclidean_division_equations; lia).
    split; [done|]. by right.
Qed.

(** [heap_create] on an aligned range and a table with one entry per block
    gives the heap in which every block is free; otherwise it reports
    [-EINVARG] and no entry of the table is changed. *)
Theorem heap_create_spec h ptr end_ tbl :
  0 < ptr <= end_ → end_ < 2 ^ 32 → end_ - ptr < 2 ^ 31 → 0 <= total tbl →
  length (entries tbl) = Z.to_nat (total tbl) →
  ∃ h', if decide (ptr mod VANA_HEAP_BLOCK_SIZE = 0 ∧ end_ mod VANA_HEAP_BLOCK_SIZE = 0 ∧
                   end_ - ptr = total tbl * VANA_HEAP_BLOCK_SIZE)
        then heap_create h ptr end_ tbl = Some (0, h') ∧ saddr h' = ptr ∧
             heap_repr h' (replicate (Z.to_nat (total tbl)) Free)
        else heap_create h ptr end_ tbl = Some (- EINVARG, h') ∧
             (h' = h ∨ table h' = tbl).
Proof. apply heap_create_cases. Qed.

(** ** Live allocations of a heap in use *)

(** The allocated runs of a layout as (first block, length), [b] being the
    number of the first block. *)
Fixpoint regions (b : nat) (L : layout) : list (nat * nat) :=
  match L with
  | [] => []
  | Free :: L => regions (S b) L
  | Alloc n :: L => (b, n) :: regions (b + n) L
  end.

Lemma regions_app b L1 L2 : regions b (L1 ++ L2) = regions b L1 ++ regions (b + blocks L1) L2.
Proof.
  revert b. induction L1 as [|[|n] L1 IH]; intros b; cbn [app regions]; rewrite ?blocks_cons.
  - by replace (b + blocks [])%nat with b by (unfold blocks; simpl; lia).
  - rewrite IH. simpl seg_len. by replace (S b + blocks L1)%nat with (b + (1 + blocks L1))%nat by lia.
  - rewrite IH. simpl seg_len. by rewrite Nat.add_assoc.
Qed.

Lemma regions_free b n : regions b (replicate n Free) = [].
Proof. revert b. induction n; intros b; [done|]. cbn [replicate regions]. eauto. Qed.

Lemma regions_bounds b L s n : (s, n) ∈ regions b L →
  (b ≤ s ∧ s + n ≤ b + blocks L)%nat.
Proof.
  revert b. induction L as [|[|m] L IH]; intros b; cbn [regions]; rewrite ?blocks_cons; simpl seg_len.
  - by intros ?%elem_of_nil.
  - intros ?%IH. lia.
  - intros [[=]|?%IH]%elem_of_cons; subst; lia.
Qed.

(** A pointer with the size it was requested for is live in a heap. *)
Definition live_region (h : heap) (a : Z * Z) (r : nat * nat) : Prop :=
  a.1 = saddr h + Z.of_nat r.1 * VANA_HEAP_BLOCK_SIZE ∧
  valid_size a.2 ∧ r.2 = size_blocks a.2.

Lemma live_region_saddr h h' a r :
  saddr h' = saddr h → live_region h a r → live_region h' a r.
Proof. unfold live_region. by intros ->. Qed.

Definition heap_owns (h : heap) (live : list (Z * Z)) : Prop :=
  ∃ L rs, heap_repr h L ∧ rs ≡ₚ regions 0 L ∧ Forall2 (live_region h) live rs.

(** The heap in use: allocations and releases of live pointers, in any order.
    [live] is the list of the pointers handed out and not yet given back. *)
Inductive heap_run (h0 : heap) : heap → list (Z * Z) → Prop :=
| run_start : heap_run h0 h0 []
| run_malloc h live size p h' :
    heap_run h0 h live → valid_size size → heap_malloc h size = Some (p, h') → p ≠ 0 →
    heap_run h0 h' ((p, size) :: live)
| run_malloc_null h live size h' :
    heap_run h0 h live → valid_size size → heap_malloc h size = Some (0, h') →
    heap_run h0 h' live
| run_free h live1 p size live2 h' :
    heap_run h0 h (live1 ++ (p, size) :: live2) → heap_free h p = Some h' →
    heap_run h0 h' (live1 ++ live2).

Lemma heap_owns_malloc h live size p h' :
  heap_owns h live → valid_size size → heap_malloc h size = Some (p, h') →
  if decide (p = 0) then h' = h else heap_owns h' ((p, size) :: live).
Proof.
  intros (L & rs & Hr & Hrs & Hl) Hsz Hm.
  destruct (size_blocks_bounds size Hsz) as (Hn & _ & _).
  destruct (fit_dec _ L Hn (repr_runs _ _ Hr)) as [(L1 & L2 & Hff)|Hno].
  - destruct (heap_malloc_hit h L L1 L2 size) as (h1 & E & Hr1 & Hs1); [done..|].
    rewrite E in Hm. simplify_eq. rewrite decide_False.
    2:{ destruct (repr_bounds _ _ Hr) as (? & _). unfold VANA_HEAP_BLOCK_SIZE. lia. }
    exists (L1 ++ Alloc (size_blocks size) :: L2), ((blocks L1, size_blocks size) :: rs).
    split_and!; [done| |].
    + rewrite Hrs. destruct Hff as [-> _]. rewrite !regions_app, regions_free, blocks_free.
      cbn [regions app]. by rewrite Permutation_middle.
    + constructor; [unfold live_region; simpl; by rewrite Hs1|].
      eapply Forall2_impl; [done|]. intros a r. by apply live_region_saddr.
  - rewrite (heap_malloc_miss h L) in Hm by done. case_decide; simplify_eq.
    by rewrite decide_True.
Qed.

Lemma heap_owns_free h live1 p size live2 :
  heap_owns h (live1 ++ (p, size) :: live2) →
  ∃ h', heap_free h p = Some h' ∧ heap_owns h' (live1 ++ live2).
Proof.
  intros (L & rs & Hr & Hrs & Hl).
  apply Forall2_app_inv_l in Hl as (rs1 & rs2' & Hl1 & Hl2 & ->).
  inversion Hl2 as [|? [b n] ? rs2 (Hp & Hsz & Hn) Hl2' E1 E2]; simplify_eq/=.
  assert ((b, size_blocks size) ∈ regions 0 L) as Hin.
  { rewrite <- Hrs. apply elem_of_app. right. left. }
  assert (∃ L1 L2, L = L1 ++ Alloc (size_blocks size) :: L2 ∧ blocks L1 = b) as (L1 & L2 & -> & <-).
  { clear -Hin. change b with (0 + b)%nat. cut (∃ L1 L2, L = L1 ++ Alloc (size_blocks size) :: L2
      ∧ (0 + blocks L1)%nat = b); [naive_solver|]. revert Hin. generalize O. intros k.
    revert k. induction L as [|[|m] L IH]; intros k; cbn [regions].
    - by intros ?%elem_of_nil.
    - intros (L1 & L2 & -> & <-)%IH. exists (Free :: L1), L2. split; [done|].
      rewrite blocks_cons. simpl. lia.
    - intros [[= -> ->]|(L1 & L2 & -> & <-)%IH]%elem_of_cons.
      + exists [], L. split; [done|]. unfold blocks. simpl. lia.
      + exists (Alloc m :: L1), L2. split; [done|]. rewrite blocks_cons. simpl. lia. }
  destruct (heap_free_run_spec h L1 _ L2 Hr) as (h' & Hf & Hr' & Hs').
  exists h'. split; [done|]. exists (L1 ++ replicate (size_blocks size) Free ++ L2), (rs1 ++ rs2).
  split_and!; [done| |].
  - rewrite regions_app in Hrs. cbn [regions] in Hrs. rewrite <- !Permutation_middle in Hrs.
    apply Permutation_cons_inv in Hrs. rewrite Hrs.
    by rewrite !regions_app, regions_free, blocks_free.
  - apply Forall2_app; (eapply Forall2_impl; [done|]); intros a r; by apply live_region_saddr.
Qed.

Definition disjoint_regions (r r' : nat * nat) : Prop :=
  (r.1 + r.2 ≤ r'.1 ∨ r'.1 + r'.2 ≤ r.1)%nat.

Lemma regions_disjoint b L i j r r' : i ≠ j →
  regions b L !! i = Some r → regions b L !! j = Some r' → disjoint_regions r r'.
Proof.
  revert b i j. induction L as [|[|n] L IH]; intros b i j Hij Hi Hj; cbn [regions] in *; [done|eauto|].
  destruct i as [|i], j as [|j]; simplify_eq/=.
  - apply list_elem_of_lookup_2 in Hj. destruct r' as [s m].
    apply regions_bounds in Hj. left. simpl. lia.
  - apply list_elem_of_lookup_2 in Hi. destruct r as [s m].
    apply regions_bounds in Hi. right. simpl. lia.
  - eapply (IH _ i j); [lia|done..].
Qed.

(** The part of a heap that its operations never change. *)
Lemma heap_malloc_frame h size p h' : heap_malloc h size = Some (p, h') →
  saddr h' = saddr h ∧ total (table h') = total (table h).
Proof.
  unfold heap_malloc, heap_malloc_blocks. intros H.
  destruct (heap_get_start_block _ _) as [b|]; simplify_eq/=.
  destruct (b <? 0); simplify_eq/=; [done|]. unfold heap_mark_blocks_taken in H.
  destruct (heap_take_loop _ _ _ _ _); by simplify_eq/=.
Qed.

Lemma heap_free_frame h p h' : heap_free h p = Some h' →
  saddr h' = saddr h ∧ total (table h') = total (table h).
Proof.
  unfold heap_free, heap_mark_blocks_free. intros H.
  destruct (heap_free_loop _ _ _); by simplify_eq/=.
Qed.

Lemma heap_run_owns h0 n h live :
  heap_repr h0 (replicate n Free) → heap_run h0 h live →
  heap_owns h live ∧ saddr h = saddr h0 ∧ total (table h) = total (table h0).
Proof.
  intros H0. induction 1 as [|h live size p h' _ (Ho & Hs & Ht) Hsz Hm Hp
                             |h live size h' _ (Ho & Hs & Ht) Hsz Hm
                             |h live1 p size live2 h' _ (Ho & Hs & Ht) Hf].
  - split; [|done]. exists (replicate n Free), []. split_and!; [done| |constructor].
    by rewrite regions_free.
  - destruct (heap_malloc_frame _ _ _ _ Hm).
    pose proof (heap_owns_malloc _ _ _ _ _ Ho Hsz Hm) as Ho'. rewrite decide_False in Ho' by done.
    split_and!; [done|congruence..].
  - pose proof (heap_owns_malloc _ _ _ _ _ Ho Hsz Hm) as Ho'. rewrite decide_True in Ho' by done.
    by subst.
  - destruct (heap_free_frame _ _ _ Hf). destruct (heap_owns_free _ _ _ _ _ Ho) as (h1 & E & Ho1).
    simplify_eq. split_and!; [done|congruence..].
Qed.

(** C2: a heap used through [heap_malloc], with sizes from 1 to 2^32 - 4096, and
    [heap_free] of live pointers, in any order, as long as no call writes outside
    the block table.  Every live allocation lies inside the heap, no two live
    allocations share a byte, and every live pointer can be freed; and a further
    [heap_malloc] writes outside the table exactly when no run of free blocks is
    long enough and the last block of the heap is free. *)
Theorem heap_run_safe h0 n h live :
  heap_repr h0 (replicate n Free) → heap_run h0 h live →
  (∀ p size, (p, size) ∈ live →
     saddr h0 <= p ∧ p + size <= saddr h0 + Z.of_nat n * VANA_HEAP_BLOCK_SIZE) ∧
  (∀ i j p q sp sq, i ≠ j → live !! i = Some (p, sp) → live !! j = Some (q, sq) →
     p + sp <= q ∨ q + sq <= p) ∧
  (∀ p size, (p, size) ∈ live → is_Some (heap_free h p)) ∧
  ∃ L, heap_repr h L ∧ ∀ size, valid_size size →
    heap_malloc h size = None ↔ no_fit (size_blocks size) L ∧ last L = Some Free.
Proof.
  intros H0 Hrun. destruct (heap_run_owns _ _ _ _ H0 Hrun) as ((L & rs & Hr & Hrs & Hl) & Hs & Ht).
  assert (blocks L = n) as Hb.
  { pose proof (repr_total _ _ Hr). pose proof (repr_total _ _ H0) as E. rewrite blocks_free in E. lia. }
  split_and!.
  - intros p size (i & Hi)%list_elem_of_lookup.
    destruct (Forall2_lookup_l _ _ _ _ _ Hl Hi) as ([b m] & Hri & Hp & Hsz & Hm). simpl in *.
    apply list_elem_of_lookup_2 in Hri. rewrite Hrs in Hri. apply regions_bounds in Hri. subst m.
    destruct (size_blocks_bounds _ Hsz) as (_ & Hsb & _). unfold VANA_HEAP_BLOCK_SIZE in *. lia.
  - intros i j p q sp sq Hij Hi Hj. apply Permutation_inj in Hrs as (_ & f & Hf & Hrs).
    destruct (Forall2_lookup_l _ _ _ _ _ Hl Hi) as ([b m] & Hri & Hp & Hsz & Hm).
    destruct (Forall2_lookup_l _ _ _ _ _ Hl Hj) as ([b' m'] & Hrj & Hp' & Hsz' & Hm'). simpl in *.
    rewrite Hrs in Hri, Hrj.
    destruct (regions_disjoint 0 L (f i) (f j) (b, m) (b', m')) as [Hd|Hd];
      [intros ?%Hf; done|done..| |]; simpl in Hd; subst m m';
      destruct (size_blocks_bounds _ Hsz) as (_ & Hsb & _), (size_blocks_bounds _ Hsz') as (_ & Hsb' & _);
      unfold VANA_HEAP_BLOCK_SIZE in *; [left|right]; lia.
  - intros p size (live1 & live2 & ->)%list_elem_of_split.
    destruct (heap_owns_free h live1 p size live2) as (h' & -> & _); [by exists L, rs|by eexists].
  - exists L. split; [exact Hr|]. intros size. by apply heap_malloc_outside.
Qed.

(** ** Witnesses *)

(** A heap with a given layout at the address of the kernel heap. *)
Definition heap_of (L : layout) : heap :=
  {| table := {| entries := layout_entries L; total := Z.of_nat (blocks L) |};
     saddr := VANA_HEAP_ADDRESS |}.

Definition demo : layout := [Free; Alloc 2; Free; Free; Free].

Lemma heap_of_repr L : Forall (λ s, (0 < seg_len s)%nat) L → Z.of_nat (blocks L) <= 25600 →
  heap_repr (heap_of L) L.
Proof.
  intros HL Hb. split; [done..|]. unfold heap_bounds, VANA_HEAP_BLOCK_SIZE, VANA_HEAP_ADDRESS.
  simpl. unfold VANA_HEAP_ADDRESS. lia.
Qed.

Lemma demo_runs : Forall (λ s, (0 < seg_len s)%nat) demo.
Proof. repeat constructor. Qed.

Lemma demo_fit : first_fit 2 demo [Free; Alloc 2] [Free].
Proof.
  split; [done|]. intros L1 L2 H.
  destruct L1 as [|a [|b L1]]; [done..|]. injection H as <- <- _. rewrite !blocks_cons. simpl. lia.
Qed.

Lemma heap_malloc_first_fit_witness :
  ∃ h', heap_malloc (heap_of demo) 5000 = Some (VANA_HEAP_ADDRESS + 3 * 4096, h') ∧
        heap_repr h' [Free; Alloc 2; Alloc 2; Free] ∧ saddr h' = VANA_HEAP_ADDRESS.
Proof.
  apply (heap_malloc_first_fit (heap_of demo) demo [Free; Alloc 2] [Free] 5000).
  - apply heap_of_repr; [apply demo_runs | vm_compute; discriminate].
  - unfold valid_size, VANA_HEAP_BLOCK_SIZE. lia.
  - exact demo_fit.
Defined.

Lemma heap_malloc_no_fit_witness :
  heap_malloc (heap_of demo) 16384 = None.
Proof.
  apply (heap_malloc_no_fit (heap_of demo) demo 16384).
  - apply heap_of_repr; [apply demo_runs | vm_compute; discriminate].
  - unfold valid_size, VANA_HEAP_BLOCK_SIZE. lia.
  - intros L1 L2 H. change (size_blocks 16384) with 4%nat in H.
    unfold demo in H. destruct L1 as [|? [|? [|? [|? [|? [|? L1]]]]]]; discriminate.
Defined.

(** Outside these sizes: a request of 0 bytes, or of more than 2^32 - 4096, whose
    rounding wraps to 0, returns the start of the free run that ends the heap and
    takes nothing, so that the next request can get the same address. *)
Lemma heap_malloc_zero :
  heap_malloc (heap_of demo) 0 = Some (VANA_HEAP_ADDRESS + 3 * 4096, heap_of demo) ∧
  heap_malloc (heap_of demo) (2 ^ 32 - 1) = Some (VANA_HEAP_ADDRESS + 3 * 4096, heap_of demo) ∧
  option_map fst (heap_malloc (heap_of demo) 5000) = Some (VANA_HEAP_ADDRESS + 3 * 4096).
Proof. by vm_compute. Qed.

Lemma heap_free_releases_run_witness :
  ∃ h', heap_free (heap_of demo) (VANA_HEAP_ADDRESS + 1 * 4096) = Some h' ∧
        heap_repr h' (replicate 6 Free) ∧ saddr h' = VANA_HEAP_ADDRESS.
Proof.
  apply (heap_free_releases_run (heap_of demo) [Free] 2 [Free; Free; Free]).
  apply heap_of_repr; [apply demo_runs | vm_compute; discriminate].
Defined.

Lemma heap_malloc_free_roundtrip_witness :
  ∃ h', heap_malloc (heap_of demo) 5000 = Some (VANA_HEAP_ADDRESS + 3 * 4096, h') ∧
        heap_free h' (VANA_HEAP_ADDRESS + 3 * 4096) = Some (heap_of demo).
Proof.
  eexists. split; [vm_compute; reflexivity|].
  apply (heap_malloc_free_roundtrip (heap_of demo) demo 5000).
  - apply heap_of_repr; [apply demo_runs | vm_compute; discriminate].
  - unfold valid_size, VANA_HEAP_BLOCK_SIZE. lia.
  - vm_compute. reflexivity.
  - done.
Defined.

Lemma heap_create_spec_witness :
  ∃ h', heap_create (heap_of []) 0x01000000 0x01003000 {| entries := [9; 9; 9]; total := 3 |} =
          Some (0, h') ∧ saddr h' = 0x01000000 ∧ heap_repr h' (replicate 3 Free).
Proof.
  apply (heap_create_spec (heap_of []) 0x01000000 0x01003000 {| entries := [9; 9; 9]; total := 3 |});
    simpl; lia.
Defined.

Lemma heap_run_safe_witness :
  ∃ h live, heap_run (heap_of (replicate 4 Free)) h live ∧ live = [(0x01001000, 100)] ∧
    ∀ p size, (p, size) ∈ live → is_Some (heap_free h p).
Proof.
  assert (heap_repr (heap_of (replicate 4 Free)) (replicate 4 Free)) as H0.
  { apply heap_of_repr; [repeat constructor | vm_compute; discriminate]. }
  exists (heap_of [Free; Alloc 1; Free; Free]), [(0x01001000, 100)].
  assert (heap_run (heap_of (replicate 4 Free)) (heap_of [Free; Alloc 1; Free; Free])
    [(0x01001000, 100)]) as Hrun.
  { apply (run_free _ (heap_of [Alloc 1; Alloc 1; Free; Free]) [(0x01001000, 100)] 0x01000000 4096 []);
      [|vm_compute; reflexivity].
    apply (run_malloc _ (heap_of [Alloc 1; Free; Free; Free]) _ 100 0x01001000);
      [|unfold valid_size, VANA_HEAP_BLOCK_SIZE; lia|vm_compute; reflexivity|done].
    apply (run_malloc _ (heap_of (replicate 4 Free)) _ 4096 0x01000000);
      [apply run_start|unfold valid_size, VANA_HEAP_BLOCK_SIZE; lia|vm_compute; reflexivity|done]. }
  split_and!; [exact Hrun|done|].
  destruct (heap_run_safe (heap_of (replicate 4 Free)) 4 _ _ H0 Hrun) as (_ & _ & Hf & _). exact Hf.
Defined.
