(* ===== verification/Kheap.v ===== *)
(** * The kernel heap

    Models src/src/memory/heap/kheap.c.  The state is the console, the kernel
    heap and the physical memory, a function from addresses to bytes.  Kernel
    structures that are only reached through typed pointers live in the typed
    stores of the components that own them; [ram] holds what is addressed as
    raw memory: page tables, program images, stacks and user allocations.

    [Allocator] is the contract of the kernel heap towards its clients: their
    theorems are proved against it and [kheap_allocator] discharges it. *)

From S2P Require Import Prelude Config CString Terminal Heap.
Local Open Scope Z_scope.

(** ** Physical memory *)

Abbreviation memory := (Z → Z).

Definition load_bytes (m : memory) (p n : Z) : list Z := (λ i, m (p + i)) <$> seqZ 0 n.

Definition store_bytes (m : memory) (p : Z) (l : list Z) : memory :=
  λ a, default (m a) l.[a - p].

(** A little-endian [uint32_t] at address [p]. *)
Definition load32 (m : memory) (p : Z) : Z :=
  m p + m (p + 1) * 2 ^ 8 + m (p + 2) * 2 ^ 16 + m (p + 3) * 2 ^ 24.

Definition bytes32 (v : Z) : list Z :=
  [v mod 2 ^ 8; (v / 2 ^ 8) mod 2 ^ 8; (v / 2 ^ 16) mod 2 ^ 8; (v / 2 ^ 24) mod 2 ^ 8].

Definition store32 (m : memory) (p v : Z) : memory := store_bytes m p (bytes32 v).

Record kmem := {
  console : terminal;
  kernel_heap : heap;
  ram : memory
}.

Definition set_console (t : terminal) (s : kmem) : kmem :=
  {| console := t; kernel_heap := kernel_heap s; ram := ram s |}.
Definition set_kernel_heap (h : heap) (s : kmem) : kmem :=
  {| console := console s; kernel_heap := h; ram := ram s |}.
Definition set_ram (m : memory) (s : kmem) : kmem :=
  {| console := console s; kernel_heap := kernel_heap s; ram := m |}.

(** ** Operations *)

(** The block table is the memory at [VANA_HEAP_TABLE_ADDRESS]. *)
Definition kheap_init : M kmem unit := λ s,
  let total_table_entries := VANA_HEAP_SIZE_BYTES / VANA_HEAP_BLOCK_SIZE in
  let kernel_heap_table :=
    {| entries := load_bytes (ram s) VANA_HEAP_TABLE_ADDRESS total_table_entries;
       total := total_table_entries |} in
  let end_ := VANA_HEAP_ADDRESS + VANA_HEAP_SIZE_BYTES in
  match heap_create (kernel_heap s) VANA_HEAP_ADDRESS end_ kernel_heap_table with
  | None => Undef
  | Some (res, h) =>
      if res <? 0
      then zoom console set_console (print (line "Failed to create heap")) (set_kernel_heap h s)
      else Done (tt, set_kernel_heap h s)
  end.

Definition kmalloc (size : Z) : M kmem Z := λ s,
  match heap_malloc (kernel_heap s) size with
  | None => Undef
  | Some (p, h) => Done (p, set_kernel_heap h s)
  end.

Definition kzalloc (size : Z) : M kmem Z :=
  ptr ← kmalloc size;
  if ptr =? 0 then mret 0
  else
    m ← gets ram;
    buf ← liftO (memset (load_bytes m ptr size) 0 size);
    modify (set_ram (store_bytes m ptr buf));;
    mret ptr.

Definition kfree (ptr : Z) : M kmem unit := λ s,
  match heap_free (kernel_heap s) ptr with
  | None => Undef
  | Some h => Done (tt, set_kernel_heap h s)
  end.

(** ** Memory lemmas *)

Lemma length_load_bytes m p n : length (load_bytes m p n) = Z.to_nat n.
Proof. unfold load_bytes. by rewrite length_fmap, length_seqZ. Qed.

Lemma idx_load_bytes m p n i : 0 <= i < n → (load_bytes m p n).[i] = Some (m (p + i)).
Proof.
  intros H. replace i with (Z.of_nat (Z.to_nat i)) by lia. rewrite idx_nat.
  unfold load_bytes. rewrite list_lookup_fmap, lookup_seqZ_lt by lia. simpl. by rewrite Z.add_0_l, Z2Nat.id by lia.
Qed.

Lemma store_bytes_out m p l a : a < p ∨ p + Z.of_nat (length l) <= a → store_bytes m p l a = m a.
Proof. intros H. unfold store_bytes. by rewrite idx_None by lia. Qed.

Lemma store_bytes_in m p l a b : l.[a - p] = Some b → store_bytes m p l a = b.
Proof. unfold store_bytes. by intros ->. Qed.

Lemma load_store_bytes m p l n : n = Z.of_nat (length l) → load_bytes (store_bytes m p l) p n = l.
Proof.
  intros ->. apply list_eq. intros i. unfold load_bytes. rewrite list_lookup_fmap.
  destruct (decide (i < length l)%nat) as [Hi|Hi].
  - rewrite lookup_seqZ_lt by lia. simpl. unfold store_bytes.
    replace (p + (0 + Z.of_nat i) - p) with (Z.of_nat i) by lia. rewrite idx_nat.
    by destruct (lookup_lt_is_Some_2 l i Hi) as [x ->].
  - rewrite lookup_seqZ_ge, lookup_ge_None_2 by lia. done.
Qed.

Lemma load_bytes_ext m m' p n :
  (∀ a, p <= a < p + n → m a = m' a) → load_bytes m p n = load_bytes m' p n.
Proof.
  intros H. apply list_fmap_ext. intros i x Hx%lookup_seqZ. apply H. lia.
Qed.

Lemma load32_store32 m p v : is_u32 v → load32 (store32 m p v) p = v.
Proof.
  intros Hv. unfold load32, store32, store_bytes, bytes32.
  replace (p - p) with 0 by lia. replace (p + 1 - p) with 1 by lia.
  replace (p + 2 - p) with 2 by lia. replace (p + 3 - p) with 3 by lia.
  cbn [idx Z.ltb Z.compare Z.to_nat Pos.to_nat Pos.iter_op Nat.add lookup list_lookup default].
  unfold idx; simpl. unfold is_u32 in Hv.
  assert (v / 2 ^ 24 mod 2 ^ 8 = v / 2 ^ 24) as -> by (apply Z.mod_small; euclid).
  assert (v = v / 2 ^ 8 * 2 ^ 8 + v mod 2 ^ 8) by euclid.
  assert (v / 2 ^ 8 = v / 2 ^ 16 * 2 ^ 8 + (v / 2 ^ 8) mod 2 ^ 8) by euclid.
  assert (v / 2 ^ 16 = v / 2 ^ 24 * 2 ^ 8 + (v / 2 ^ 16) mod 2 ^ 8) by euclid.
  lia.
Qed.

Lemma load32_ext m m' p : (∀ a, p <= a < p + 4 → m a = m' a) → load32 m p = load32 m' p.
Proof. intros H. unfold load32. by rewrite !H by lia. Qed.

Lemma load32_store32_ne m p q v : q + 4 <= p ∨ p + 4 <= q → load32 (store32 m p v) q = load32 m q.
Proof.
  intros H. apply load32_ext. intros a Ha. apply store_bytes_out. simpl. lia.
Qed.

Lemma store32_load32 m m' p a : (∀ b, is_u8 (m' b)) → p <= a < p + 4 → store32 m p (load32 m' p) a = m' a.
Proof.
  intros Hb Ha. pose proof (Hb p). pose proof (Hb (p + 1)). pose proof (Hb (p + 2)). pose proof (Hb (p + 3)).
  apply store_bytes_in. unfold load32, bytes32, is_u8 in *.
  assert (a = p ∨ a = p + 1 ∨ a = p + 2 ∨ a = p + 3) as [-> |[-> |[-> | ->]]] by lia.
  - rewrite Z.sub_diag. unfold idx; simpl. f_equal. euclid.
  - rewrite Z.add_simpl_l. unfold idx; simpl. f_equal. euclid.
  - rewrite Z.add_simpl_l. unfold idx; simpl. f_equal. euclid.
  - rewrite Z.add_simpl_l. unfold idx; simpl. f_equal. euclid.
Qed.

(** ** The allocator contract *)

(** [owns s A n]: the live allocations are those of [A] (start address to number
    of blocks), and [n] blocks are free.  An allocation that fits in one block
    succeeds whenever a block is free and returns null when none is; a larger
    one may fail, but when it returns a non-null address it is a fresh one. *)
Class Allocator (S : Type) := {
  alloc : Z → M S Z;
  release : Z → M S unit;
  owns : S → gmap Z nat → nat → Prop;
  owns_range s A n p k : owns s A n → A !! p = Some k →
    0 < p < 2 ^ 31 ∧ p mod VANA_HEAP_BLOCK_SIZE = 0;
  alloc_small s A n size : owns s A (Datatypes.S n) → 0 < size <= VANA_HEAP_BLOCK_SIZE →
    ∃ p s', alloc size s = Done (p, s') ∧ A !! p = None ∧
            owns s' (<[p := 1%nat]> A) n;
  alloc_exhausted s A size : owns s A 0 → valid_size size → alloc size s = Done (0, s);
  alloc_sound s A n size p s' : owns s A n → valid_size size → alloc size s = Done (p, s') →
    if decide (p = 0) then s' = s
    else A !! p = None ∧ owns s' (<[p := size_blocks size]> A) (n - size_blocks size);
  release_ok s A n p k : owns s A n → A !! p = Some k →
    ∃ s', release p s = Done (tt, s') ∧ owns s' (delete p A) (n + k)
}.

(** A component whose state contains an allocator is one. *)
Section lift.
Context {T S : Type} `{Allocator S} (get : T → S) (set : S → T → T).
Hypothesis get_set : ∀ m t, get (set m t) = m.
Hypothesis set_get : ∀ t, set (get t) t = t.

Program Definition allocator_lift : Allocator T := {|
  alloc size := zoom get set (alloc size);
  release p := zoom get set (release p);
  owns t A n := owns (get t) A n
|}.
Next Obligation. intros t A n p k. apply owns_range. Qed.
Next Obligation.
  intros t A n size Ho Hsz. destruct (alloc_small (get t) A n size Ho Hsz) as (p & m & E & HA & Ho').
  exists p, (set m t). split_and!; [by apply zoom_done|done|by rewrite get_set].
Qed.
Next Obligation.
  intros t A size Ho Hv. rewrite <- (set_get t) at 2.
  apply zoom_done. by apply (alloc_exhausted _ A).
Qed.
Next Obligation.
  intros t A n size p t' Ho Hv E. unfold zoom in E.
  destruct (alloc size (get t)) as [[q m]| | |] eqn:E'; simplify_eq.
  pose proof (alloc_sound _ A n size p m Ho Hv E') as Hs.
  destruct (decide (p = 0)); [subst; apply set_get|by rewrite get_set].
Qed.
Next Obligation.
  intros t A n p k Ho HA. destruct (release_ok (get t) A n p k Ho HA) as (m & E & Ho').
  exists (set m t). split; [by apply zoom_done|by rewrite get_set].
Qed.
End lift.

(** ** Allocations of one block each *)

(** The allocations [A] with one block at each address of [Ts]. *)
Definition with_blocks (Ts : list Z) (A : gmap Z nat) : gmap Z nat :=
  foldr (λ t A, <[t := 1%nat]> A) A Ts.

Lemma with_blocks_out Ts A t : t ∉ Ts → with_blocks Ts A !! t = A !! t.
Proof.
  induction Ts as [|t' Ts IH]; simpl; intros H; [done|].
  apply not_elem_of_cons in H as [Hne H]. rewrite lookup_insert_ne by done. auto.
Qed.

Lemma with_blocks_in Ts A t : t ∈ Ts → with_blocks Ts A !! t = Some 1%nat.
Proof.
  induction 1 as [t Ts|t t' Ts _ IH]; simpl; [by rewrite lookup_insert_eq|].
  destruct (decide (t' = t)) as [->|]; [by rewrite lookup_insert_eq|by rewrite lookup_insert_ne].
Qed.

Lemma with_blocks_snoc Ts A t : t ∉ Ts → with_blocks (Ts ++ [t]) A = <[t := 1%nat]> (with_blocks Ts A).
Proof.
  induction Ts as [|t' Ts IH]; simpl; intros H; [done|].
  apply not_elem_of_cons in H as [Hne H]. rewrite IH by done. by apply insert_insert_ne.
Qed.

Lemma with_blocks_insert Ts A c k : c ∉ Ts →
  <[c := k]> (with_blocks Ts A) = with_blocks Ts (<[c := k]> A).
Proof.
  induction Ts as [|t Ts IH]; simpl; intros H; [done|].
  apply not_elem_of_cons in H as [Hne H]. rewrite <- IH by done. by apply insert_insert_ne.
Qed.

Lemma with_blocks_delete Ts A c : c ∉ Ts → delete c (with_blocks Ts A) = with_blocks Ts (delete c A).
Proof.
  induction Ts as [|t Ts IH]; simpl; intros H; [done|].
  apply not_elem_of_cons in H as [Hne H]. rewrite <- IH by done. by rewrite delete_insert_ne.
Qed.

Lemma with_blocks_perm Ts Ts' A : Ts ≡ₚ Ts' → with_blocks Ts A = with_blocks Ts' A.
Proof.
  induction 1 as [|t Ts Ts' _ IH|t t' Ts|? ? ? _ IH1 _ IH2]; simpl; [done|by rewrite IH| |congruence].
  destruct (decide (t = t')) as [->|Hne]; [done|]. by apply insert_insert_ne.
Qed.

Lemma with_blocks_app Ts Ts' A : with_blocks (Ts ++ Ts') A = with_blocks Ts (with_blocks Ts' A).
Proof. apply foldr_app. Qed.

Lemma with_blocks_fresh Ts A t : with_blocks Ts A !! t = None ↔ (t ∉ Ts) ∧ A !! t = None.
Proof.
  split.
  - intros H. assert (t ∉ Ts) as Hn by (intros Hin; by rewrite with_blocks_in in H).
    by rewrite with_blocks_out in H.
  - intros [H1 H2]. by rewrite with_blocks_out.
Qed.

(** The allocations [A] without those at the addresses [ps], and their blocks. *)
Definition without (ps : list Z) (A : gmap Z nat) : gmap Z nat := foldr delete A ps.
Definition blocks_at (A : gmap Z nat) (ps : list Z) : nat := foldr (λ q n, default O (A !! q) + n)%nat O ps.

Lemma without_out ps A q : q ∉ ps → without ps A !! q = A !! q.
Proof.
  induction ps as [|p ps IH]; simpl; intros Hq; [done|]. apply not_elem_of_cons in Hq as [Hne Hq].
  rewrite lookup_delete_ne by done. auto.
Qed.

Lemma without_in ps A q : q ∈ ps → without ps A !! q = None.
Proof.
  induction 1 as [q ps|q p ps _ IH]; simpl; [apply lookup_delete_eq|].
  destruct (decide (p = q)) as [->|]; [apply lookup_delete_eq|by rewrite lookup_delete_ne].
Qed.

Lemma without_perm ps qs A : ps ≡ₚ qs → without ps A = without qs A.
Proof.
  intros Hp. apply map_eq. intros q. destruct (decide (q ∈ ps)) as [Hq|Hq].
  - rewrite !without_in by (done || by rewrite <- Hp). done.
  - rewrite !without_out by (done || by rewrite <- Hp). done.
Qed.

Lemma without_app ps qs A : without (ps ++ qs) A = without ps (without qs A).
Proof. apply foldr_app. Qed.

Lemma blocks_at_without A ps qs : (∀ q, q ∈ ps → q ∉ qs) → blocks_at (without qs A) ps = blocks_at A ps.
Proof.
  induction ps as [|p ps IH]; intros Hd; [done|]. cbn. rewrite without_out by (apply Hd, list_elem_of_here).
  f_equal. apply IH. intros q Hq. apply Hd. by right.
Qed.

Lemma blocks_at_perm A ps qs : ps ≡ₚ qs → blocks_at A ps = blocks_at A qs.
Proof. induction 1; simpl; try lia; congruence. Qed.

Lemma blocks_at_app A ps qs : blocks_at A (ps ++ qs) = (blocks_at A ps + blocks_at A qs)%nat.
Proof. induction ps as [|p ps IH]; simpl; [done|]. rewrite IH. lia. Qed.

Lemma release_block {S} `{Allocator S} s Ts t A n :
  owns s (with_blocks (t :: Ts) A) n → t ∉ Ts → A !! t = None →
  ∃ s', release t s = Done (tt, s') ∧ owns s' (with_blocks Ts A) (n + 1).
Proof.
  intros Ho Ht HA. destruct (release_ok s _ n t 1 Ho) as (s' & E & Ho').
  { simpl. by rewrite lookup_insert_eq. }
  exists s'. split; [done|]. simpl in Ho'.
  by rewrite delete_insert_id in Ho' by (by apply with_blocks_fresh).
Qed.

(** ** The kernel heap implements it *)

Fixpoint allocs (a : Z) (L : layout) : gmap Z nat :=
  match L with
  | [] => ∅
  | Free :: L => allocs (a + VANA_HEAP_BLOCK_SIZE) L
  | Alloc n :: L => <[a := n]> (allocs (a + Z.of_nat n * VANA_HEAP_BLOCK_SIZE) L)
  end.

Definition frees (L : layout) : nat := length (filter (.= Free) L).

(** The heap starts at a block boundary and ends below 2 GiB. *)
Definition heap_placed (h : heap) : Prop :=
  saddr h mod VANA_HEAP_BLOCK_SIZE = 0 ∧
  saddr h + total (table h) * VANA_HEAP_BLOCK_SIZE < 2 ^ 31.

Definition kheap_owns (s : kmem) (A : gmap Z nat) (n : nat) : Prop :=
  heap_placed (kernel_heap s) ∧
  ∃ L, heap_repr (kernel_heap s) L ∧ A = allocs (saddr (kernel_heap s)) L ∧ n = frees L.

Definition end_of (a : Z) (L : layout) : Z := a + Z.of_nat (blocks L) * VANA_HEAP_BLOCK_SIZE.

Lemma end_of_cons a s L :
  end_of a (s :: L) = end_of (a + Z.of_nat (seg_len s) * VANA_HEAP_BLOCK_SIZE) L.
Proof. unfold end_of. rewrite blocks_cons. lia. Qed.

Lemma allocs_range a L p k : Forall (λ s, (0 < seg_len s)%nat) L →
  allocs a L !! p = Some k → a <= p < end_of a L.
Proof.
  intros HL. revert a. induction HL as [|[|n] L Hs HL IH]; intros a; simpl; [done|..];
    unfold end_of in *; rewrite blocks_cons; cbn [seg_len] in *; unfold VANA_HEAP_BLOCK_SIZE in *.
  - intros H%IH. lia.
  - intros [[<- <-]|[Hne H%IH]]%lookup_insert_Some; lia.
Qed.

Lemma allocs_out a L p : Forall (λ s, (0 < seg_len s)%nat) L →
  p < a ∨ end_of a L <= p → allocs a L !! p = None.
Proof.
  intros HL H. destruct (allocs a L !! p) eqn:E; [|done].
  apply allocs_range in E; [lia|done].
Qed.

Lemma allocs_app a L1 L2 :
  Forall (λ s, (0 < seg_len s)%nat) (L1 ++ L2) →
  allocs a (L1 ++ L2) = allocs a L1 ∪ allocs (end_of a L1) L2.
Proof.
  revert a. induction L1 as [|s L1 IH]; intros a HL; simpl.
  { rewrite (left_id_L ∅ (∪)). f_equal. unfold end_of. simpl. lia. }
  inversion HL; subst. rewrite end_of_cons.
  destruct s; rewrite IH by done; [done|]. by rewrite insert_union_l.
Qed.

Lemma allocs_free a n : allocs a (replicate n Free) = ∅.
Proof. revert a. induction n as [|n IH]; intros a; simpl; [done|apply IH]. Qed.

Lemma frees_app L1 L2 : frees (L1 ++ L2) = (frees L1 + frees L2)%nat.
Proof. unfold frees. by rewrite filter_app, length_app. Qed.

Lemma frees_free n : frees (replicate n Free) = n.
Proof.
  unfold frees. induction n as [|n IH]; [done|]. cbn [replicate].
  rewrite filter_cons_True by done. simpl. by rewrite IH.
Qed.

(** Taking the run [L1] leaves before it, and giving it back. *)
Lemma allocs_swap a L1 n L2 : (0 < n)%nat →
  Forall (λ s, (0 < seg_len s)%nat) (L1 ++ replicate n Free ++ L2) →
  let A := allocs a (L1 ++ replicate n Free ++ L2) in
  A !! end_of a L1 = None ∧
  allocs a (L1 ++ Alloc n :: L2) = <[end_of a L1 := n]> A ∧
  frees (L1 ++ replicate n Free ++ L2) = (frees (L1 ++ Alloc n :: L2) + n)%nat.
Proof.
  intros Hn HL A. subst A. apply Forall_app in HL as HL1. destruct HL1 as [H1 H2].
  apply Forall_app in H2 as H3. destruct H3 as [_ H3].
  assert (Forall (λ s, (0 < seg_len s)%nat) (L1 ++ Alloc n :: L2)) as HA.
  { apply Forall_app. split; [done|by constructor]. }
  rewrite !frees_app, frees_free, !allocs_app by done.
  rewrite allocs_free, (left_id_L ∅ (∪)). simpl. split_and!.
  - apply lookup_union_None. split; apply allocs_out; try done; [lia|left].
    unfold end_of. rewrite blocks_free. unfold VANA_HEAP_BLOCK_SIZE. lia.
  - rewrite <- insert_union_r by (apply allocs_out; [done|lia]). do 3 f_equal.
    unfold end_of at 2. by rewrite blocks_free.
  - change (frees (Alloc n :: L2)) with (frees L2). lia.
Qed.

Lemma size_blocks_small size : 0 < size <= VANA_HEAP_BLOCK_SIZE → size_blocks size = 1%nat.
Proof. unfold size_blocks, VANA_HEAP_BLOCK_SIZE. intros H. euclid. Qed.

Lemma small_valid size : 0 < size <= VANA_HEAP_BLOCK_SIZE → valid_size size.
Proof. unfold valid_size, VANA_HEAP_BLOCK_SIZE. lia. Qed.

Lemma kmalloc_run s L L1 L2 size :
  heap_repr (kernel_heap s) L → valid_size size → first_fit (size_blocks size) L L1 L2 →
  ∃ h', kmalloc size s = Done (end_of (saddr (kernel_heap s)) L1, set_kernel_heap h' s) ∧
        heap_repr h' (L1 ++ Alloc (size_blocks size) :: L2) ∧ saddr h' = saddr (kernel_heap s).
Proof.
  intros Hr Hv Hff. destruct (heap_malloc_hit _ _ _ _ _ Hr Hv Hff) as (h' & E & Hr' & Hs').
  exists h'. split_and!; [|done..]. unfold kmalloc. by rewrite E.
Qed.

(** What [kzalloc] does when [kmalloc] succeeds. *)
Lemma kzalloc_kmalloc s size p s' : 0 <= size → kmalloc size s = Done (p, s') → p ≠ 0 →
  kzalloc size s =
  Done (p, set_ram (store_bytes (ram s) p (replicate (Z.to_nat size) 0)) s') ∧ ram s' = ram s.
Proof.
  intros Hsz Hm Hp.
  assert (ram s' = ram s) as Hram.
  { unfold kmalloc in Hm. destruct (heap_malloc _ _) as [[? ?]|]; by simplify_eq. }
  split; [|done]. unfold kzalloc. rewrite (bind_done _ _ _ _ _ Hm).
  rewrite (proj2 (Z.eqb_neq _ _) Hp). unfold gets, liftO, modify, mbind, M_bind.
  rewrite memset_spec by (rewrite length_load_bytes; lia).
  rewrite drop_ge, app_nil_r by (rewrite length_load_bytes; lia). by rewrite Hram.
Qed.

Lemma repr_swap s s' L L1 L2 n :
  heap_repr (kernel_heap s) L → L = L1 ++ replicate n Free ++ L2 → (0 < n)%nat →
  heap_repr (kernel_heap s') (L1 ++ Alloc n :: L2) →
  saddr (kernel_heap s') = saddr (kernel_heap s) →
  heap_placed (kernel_heap s) →
  let p := end_of (saddr (kernel_heap s)) L1 in
  0 < p < 2 ^ 32 ∧ allocs (saddr (kernel_heap s)) L !! p = None ∧
  kheap_owns s' (<[p := n]> (allocs (saddr (kernel_heap s)) L)) (frees L - n).
Proof.
  intros Hr -> Hn Hr' Hs' Hal p.
  destruct (allocs_swap (saddr (kernel_heap s)) L1 n L2 Hn (repr_runs _ _ Hr)) as (E1 & E2 & E3).
  split_and!; try done.
  - destruct (repr_bounds _ _ Hr) as (? & _). subst p. unfold end_of, VANA_HEAP_BLOCK_SIZE. lia.
  - destruct (repr_bounds _ _ Hr) as (? & ? & ? & H32). rewrite (repr_total _ _ Hr) in H32.
    rewrite !blocks_app, blocks_free in H32. subst p. unfold end_of, VANA_HEAP_BLOCK_SIZE in *. lia.
  - split.
    { unfold heap_placed in *. rewrite Hs', (repr_total _ _ Hr'). rewrite (repr_total _ _ Hr) in Hal.
      rewrite !blocks_app, blocks_free in Hal. rewrite blocks_app, blocks_cons. exact Hal. }
    eexists. split_and!; [done| |].
    + by rewrite Hs', E2.
    + rewrite E3. lia.
Qed.

Lemma owns_set_ram s m A n : kheap_owns (set_ram m s) A n ↔ kheap_owns s A n.
Proof. done. Qed.

Lemma no_frees_no_fit L n : frees L = O → (0 < n)%nat → no_fit n L ∧ last L ≠ Some Free.
Proof.
  intros Hf Hn. split.
  - intros L1 L2 ->. rewrite !frees_app, frees_free in Hf. lia.
  - intros [L' ->]%last_Some. rewrite frees_app in Hf.
    change (frees [Free]) with 1%nat in Hf. lia.
Qed.

Lemma frees_fit L : Forall (λ s, (0 < seg_len s)%nat) L → frees L ≠ O → ∃ L1 L2, first_fit 1 L L1 L2.
Proof.
  intros HL Hf. destruct (fit_dec 1 L) as [?|Hno]; [lia|done..|].
  destruct Hf. clear HL. unfold frees.
  destruct (filter (.= Free) L) as [|x l] eqn:E; [done|].
  assert (x ∈ filter (.= Free) L) as [-> (L1 & L2 & ->)%list_elem_of_split]%list_elem_of_filter
    by (rewrite E; apply list_elem_of_here).
  by destruct (Hno L1 L2).
Qed.

(** The start of every live allocation is the start of a run of the layout. *)
Lemma allocs_split a L p k : allocs a L !! p = Some k →
  ∃ L1 L2, L = L1 ++ Alloc k :: L2 ∧ p = end_of a L1.
Proof.
  revert a. induction L as [|[|n] L IH]; intros a; simpl; [done|..].
  - intros (L1 & L2 & -> & ->)%IH. exists (Free :: L1), L2. split; [done|].
    rewrite end_of_cons. unfold VANA_HEAP_BLOCK_SIZE. f_equal.
  - intros [[<- <-]|[_ (L1 & L2 & -> & ->)%IH]]%lookup_insert_Some.
    + exists [], L. split; [done|]. unfold end_of. simpl. lia.
    + exists (Alloc n :: L1), L2. split; [done|]. by rewrite end_of_cons.
Qed.

Lemma allocs_extent a L p k : Forall (λ s, (0 < seg_len s)%nat) L →
  allocs a L !! p = Some k →
  (0 < k)%nat ∧ a <= p ∧ p + Z.of_nat k * VANA_HEAP_BLOCK_SIZE <= end_of a L.
Proof.
  intros HL (L1 & L2 & -> & ->)%allocs_split. apply Forall_app in HL as [_ HL].
  inversion HL; subst. simpl in *. unfold end_of. rewrite blocks_app, blocks_cons.
  unfold VANA_HEAP_BLOCK_SIZE. simpl. lia.
Qed.

Lemma allocs_disjoint a L p k q j : Forall (λ s, (0 < seg_len s)%nat) L → q ≠ p →
  allocs a L !! p = Some k → allocs a L !! q = Some j →
  p + Z.of_nat k * VANA_HEAP_BLOCK_SIZE <= q ∨ q + Z.of_nat j * VANA_HEAP_BLOCK_SIZE <= p.
Proof.
  intros HL Hne Hp Hq. pose proof Hp as (L1 & L2 & -> & ->)%allocs_split.
  rewrite allocs_app in Hq by done. simpl in Hq. apply Forall_app in HL as [H1 H2].
  inversion H2; subst. apply lookup_union_Some_raw in Hq as [Hq|[_ Hq]].
  - apply allocs_extent in Hq; [|done]. lia.
  - rewrite lookup_insert_ne in Hq by done. apply allocs_extent in Hq; [|done]. lia.
Qed.

Lemma kheap_release s A n p k : kheap_owns s A n → A !! p = Some k →
  ∃ s', kfree p s = Done (tt, s') ∧ kheap_owns s' (delete p A) (n + k) ∧
        ram s' = ram s ∧ console s' = console s.
Proof.
  intros (Hal & L & Hr & -> & ->) (L1 & L2 & -> & ->)%allocs_split.
  destruct (heap_free_run_spec _ _ _ _ Hr) as (h' & E & Hr' & Hs').
  exists (set_kernel_heap h' s). split_and!; [by unfold kfree; fold (end_of (saddr (kernel_heap s)) L1) in E; rewrite E| |done..].
  assert (0 < k)%nat as Hk.
  { pose proof (repr_runs _ _ Hr) as HL. rewrite Forall_app, Forall_cons in HL. tauto. }
  destruct (allocs_swap (saddr (kernel_heap s)) L1 k L2 Hk (repr_runs _ _ Hr')) as (E1 & E2 & E3).
  split.
  { unfold heap_placed in *. cbn. rewrite Hs', (repr_total _ _ Hr'). rewrite (repr_total _ _ Hr) in Hal.
    rewrite blocks_app, blocks_cons in Hal. by rewrite !blocks_app, blocks_free. }
  exists (L1 ++ replicate k Free ++ L2). cbn [kernel_heap set_kernel_heap].
  rewrite Hs', E2, E3, delete_insert_id by done. done.
Qed.

Lemma kzalloc_small s A n size :
  kheap_owns s A (Datatypes.S n) → 0 < size <= VANA_HEAP_BLOCK_SIZE →
  ∃ p s', kzalloc size s = Done (p, s') ∧ A !! p = None ∧
          kheap_owns s' (<[p := 1%nat]> A) n.
Proof.
  intros (Hal & L & Hr & -> & Hf) Hsz. pose proof (size_blocks_small _ Hsz) as E1.
  destruct (frees_fit L) as (L1 & L2 & Hff); [apply (repr_runs _ _ Hr)|lia|].
  rewrite <- E1 in Hff.
  destruct (kmalloc_run s L L1 L2 size Hr (small_valid _ Hsz) Hff) as (h' & Em & Hr' & Hs').
  rewrite E1 in *. destruct (repr_swap s (set_kernel_heap h' s) L L1 L2 1) as (Hp & HA & Ho);
    [done|apply Hff|lia|done..|].
  destruct (kzalloc_kmalloc s size _ _ ltac:(lia) Em ltac:(lia)) as [Ez _].
  eexists _, _. split_and!; [apply Ez|done|].
  by replace n with (frees L - 1)%nat by lia.
Qed.

Lemma kzalloc_exhausted s A size :
  kheap_owns s A 0 → valid_size size → kzalloc size s = Done (0, s).
Proof.
  intros (Hal & L & Hr & -> & Hf) Hv. destruct (size_blocks_bounds size Hv) as (Hn & _).
  destruct (no_frees_no_fit L (size_blocks size)) as [Hno Hl]; [done..|].
  unfold kzalloc. erewrite bind_done.
  2:{ unfold kmalloc. rewrite (heap_malloc_miss _ L), decide_False by done. reflexivity. }
  by destruct s.
Qed.

Lemma kzalloc_sound s A n size p s' :
  kheap_owns s A n → valid_size size → kzalloc size s = Done (p, s') →
  if decide (p = 0) then s' = s
  else A !! p = None ∧ kheap_owns s' (<[p := size_blocks size]> A) (n - size_blocks size).
Proof.
  intros (Hal & L & Hr & -> & ->) Hv Hz. destruct (size_blocks_bounds size Hv) as (Hn & _).
  destruct (fit_dec (size_blocks size) L Hn (repr_runs _ _ Hr)) as [(L1 & L2 & Hff)|Hno].
  - destruct (kmalloc_run s L L1 L2 size Hr Hv Hff) as (h' & Em & Hr' & Hs').
    destruct (repr_swap s (set_kernel_heap h' s) L L1 L2 (size_blocks size)) as (Hp & HA & Ho);
      [done|apply Hff|done..|].
    destruct (kzalloc_kmalloc s size _ _ ltac:(unfold valid_size in *; lia) Em ltac:(lia)) as [Ez _].
    rewrite Ez in Hz. simplify_eq. rewrite decide_False by lia. done.
  - unfold kzalloc in Hz. apply bind_done_inv in Hz as (q & s1 & Hm & Hz). unfold kmalloc in Hm.
    rewrite (heap_malloc_miss _ L) in Hm by done.
    destruct (decide (last L = Some Free)); simplify_eq/=.
    unfold mret, M_ret in Hz. simplify_eq. rewrite decide_True by done. by destruct s.
Qed.

Lemma kheap_owns_range s A n p k : kheap_owns s A n → A !! p = Some k →
  0 < p < 2 ^ 31 ∧ p mod VANA_HEAP_BLOCK_SIZE = 0.
Proof.
  intros ([Hal H32] & L & Hr & -> & _) Hp. pose proof (repr_bounds _ _ Hr) as (? & _).
  rewrite (repr_total _ _ Hr) in H32.
  pose proof (allocs_extent _ _ _ _ (repr_runs _ _ Hr) Hp) as (Hk & Hlo & Hhi).
  apply allocs_split in Hp as (L1 & L2 & -> & ->). unfold end_of in *. rewrite Z.mod_add by done.
  unfold VANA_HEAP_BLOCK_SIZE in *. lia.
Qed.

Lemma kheap_owns_end s A n p k : kheap_owns s A n → A !! p = Some k →
  p + Z.of_nat k * VANA_HEAP_BLOCK_SIZE < 2 ^ 31.
Proof.
  intros ([Hal H32] & L & Hr & -> & _) Hp. rewrite (repr_total _ _ Hr) in H32.
  pose proof (allocs_extent _ _ _ _ (repr_runs _ _ Hr) Hp) as (Hk & Hlo & Hhi). unfold end_of in Hhi. lia.
Qed.

#[export] Program Instance kheap_allocator : Allocator kmem := {
  alloc := kzalloc;
  release := kfree;
  owns := kheap_owns
}.
Next Obligation. exact kheap_owns_range. Qed.
Next Obligation. exact kzalloc_small. Qed.
Next Obligation. exact kzalloc_exhausted. Qed.
Next Obligation. exact kzalloc_sound. Qed.
Next Obligation.
  intros s A n p k Ho Hp. destruct (kheap_release s A n p k Ho Hp) as (s' & ? & ? & _). eauto.
Qed.

(** After [kheap_init] the kernel heap is ready whatever the memory held:
    nothing is allocated, all 25600 blocks are free, no error is printed and the
    memory outside the block table is untouched. *)
Theorem kheap_init_ready s :
  ∃ s', kheap_init s = Done (tt, s') ∧ kheap_owns s' ∅ (Z.to_nat 25600) ∧
        console s' = console s ∧ ram s' = ram s.
Proof.
  unfold kheap_init. cbv zeta.
  set (tbl := {| entries := _; total := _ |}).
  destruct (heap_create_cases (kernel_heap s) VANA_HEAP_ADDRESS
              (VANA_HEAP_ADDRESS + VANA_HEAP_SIZE_BYTES) tbl) as [h' H]; [done..|apply length_load_bytes|].
  rewrite decide_True in H by done. destruct H as (-> & Hs & Hr).
  exists (set_kernel_heap h' s). split_and!; [done| |done..].
  assert (heap_placed h') as Hpl.
  { unfold heap_placed. rewrite Hs, (repr_total _ _ Hr), blocks_free, Z2Nat.id by done. done. }
  change (total tbl) with 25600 in Hr. generalize dependent (Z.to_nat 25600). intros n Hr.
  split; [done|]. exists (replicate n Free). by rewrite allocs_free, frees_free.
Qed.

Lemma kzalloc_ram s size p s' : 0 <= size → kzalloc size s = Done (p, s') → p ≠ 0 →
  ram s' = store_bytes (ram s) p (replicate (Z.to_nat size) 0) ∧ console s' = console s.
Proof.
  intros Hsz Hz Hp. pose proof Hz as (q & s1 & Hm & Hz')%bind_done_inv.
  destruct (decide (q = 0)) as [->|Hq].
  { simpl in Hz'. unfold mret, M_ret in Hz'. by simplify_eq. }
  destruct (kzalloc_kmalloc s size q s1 Hsz Hm Hq) as [E Hr]. rewrite E in Hz. simplify_eq.
  split; [done|]. unfold kmalloc in Hm. destruct (heap_malloc _ _) as [[? ?]|]; by simplify_eq.
Qed.

(** The address [a] is not in a free block: it belongs to one of the allocations
    [A] or lies outside the heap. *)
Definition settled (s : kmem) (A : gmap Z nat) (a : Z) : Prop :=
  (∃ p k, A !! p = Some k ∧ p <= a < p + Z.of_nat k * VANA_HEAP_BLOCK_SIZE) ∨
  a < saddr (kernel_heap s) ∨
  saddr (kernel_heap s) + total (table (kernel_heap s)) * VANA_HEAP_BLOCK_SIZE <= a.

(** A new allocation of [b] blocks at [p]. *)
Record fresh_block (s s' : kmem) (A : gmap Z nat) (n : nat) (size : Z) (b : nat) (p : Z) : Prop := {
  fb_addr : 0 < p < 2 ^ 31 ∧ p mod VANA_HEAP_BLOCK_SIZE = 0;
  fb_end : p + Z.of_nat b * VANA_HEAP_BLOCK_SIZE <= 2 ^ 31;
  fb_new : A !! p = None;
  fb_owns : kheap_owns s' (<[p := b]> A) n;
  fb_disjoint : ∀ q k, A !! q = Some k →
    p + Z.of_nat b * VANA_HEAP_BLOCK_SIZE <= q ∨ q + Z.of_nat k * VANA_HEAP_BLOCK_SIZE <= p;
  fb_settled : ∀ a, settled s A a → ¬ (p <= a < p + Z.of_nat b * VANA_HEAP_BLOCK_SIZE);
  fb_ram : ∀ a, ram s' a = if decide (p <= a < p + size) then 0 else ram s a;
  fb_console : console s' = console s
}.

Lemma kzalloc_run s L L1 L2 size :
  heap_placed (kernel_heap s) → heap_repr (kernel_heap s) L → valid_size size →
  first_fit (size_blocks size) L L1 L2 →
  ∃ p s', kzalloc size s = Done (p, s') ∧
    fresh_block s s' (allocs (saddr (kernel_heap s)) L) (frees L - size_blocks size) size (size_blocks size) p.
Proof.
  intros Hal Hr Hv Hff. destruct (size_blocks_bounds size Hv) as (Hn & _).
  destruct (kmalloc_run s L L1 L2 size Hr Hv Hff) as (h' & Em & Hr' & Hs').
  destruct (repr_swap s (set_kernel_heap h' s) L L1 L2 (size_blocks size)) as (Hp & HA & Ho');
    [done|apply Hff|lia|done..|].
  destruct (kzalloc_kmalloc s size _ _ ltac:(unfold valid_size in *; lia) Em ltac:(lia)) as [Ez _].
  set (p := end_of (saddr (kernel_heap s)) L1) in *. set (b := size_blocks size) in *.
  eexists p, _. split; [apply Ez|].
  assert (∀ q k, allocs (saddr (kernel_heap s)) L !! q = Some k →
    p + Z.of_nat b * VANA_HEAP_BLOCK_SIZE <= q ∨ q + Z.of_nat k * VANA_HEAP_BLOCK_SIZE <= p) as Hdis.
  { intros q k Hq. destruct Ho' as (_ & L' & Hr'' & HL & _). assert (q ≠ p) by congruence.
    apply (allocs_disjoint (saddr h') L' p b q k); cbn in HL; rewrite <- ?HL; [|done|..].
    + apply (repr_runs _ _ Hr'').
    + by rewrite lookup_insert_eq.
    + by rewrite lookup_insert_ne. }
  destruct Hff as [HL _]. pose proof (repr_total _ _ Hr) as Htot.
  rewrite HL, !blocks_app, blocks_free in Htot.
  split; try done.
  - eapply (kheap_owns_range _ _ _ p b); [exact Ho'|by rewrite lookup_insert_eq].
  - destruct Hal as [_ Hal]. unfold p, end_of, VANA_HEAP_BLOCK_SIZE in *. lia.
  - intros a [(q & k & Hq & Ha)|Ha].
    + pose proof (Hdis q k Hq). lia.
    + unfold p, end_of, VANA_HEAP_BLOCK_SIZE in *. lia.
  - intros a. cbn [ram set_ram]. destruct (decide _) as [Ha|Ha].
    + apply store_bytes_in. replace (a - p) with (Z.of_nat (Z.to_nat (a - p))) by lia.
      rewrite idx_nat. apply lookup_replicate_2. lia.
    + apply store_bytes_out. rewrite length_replicate. unfold valid_size in Hv. lia.
Qed.

Lemma kzalloc_fresh s A n size :
  kheap_owns s A (Datatypes.S n) → 0 < size <= VANA_HEAP_BLOCK_SIZE →
  ∃ p s', kzalloc size s = Done (p, s') ∧ fresh_block s s' A n size 1 p.
Proof.
  intros (Hal & L & Hr & -> & Hf) Hsz. pose proof (size_blocks_small _ Hsz) as E1.
  destruct (frees_fit L) as (L1 & L2 & Hff); [apply (repr_runs _ _ Hr)|lia|].
  rewrite <- E1 in Hff.
  destruct (kzalloc_run s L L1 L2 size Hal Hr (small_valid _ Hsz) Hff) as (p & s' & E & Hb).
  exists p, s'. rewrite E1 in Hb. by replace n with (frees L - 1)%nat by lia.
Qed.

(** Whatever the size, what [kzalloc] returns is null or a new allocation. *)
Lemma kzalloc_result s A n size p s' :
  kheap_owns s A n → valid_size size → kzalloc size s = Done (p, s') →
  if decide (p = 0) then s' = s
  else fresh_block s s' A (n - size_blocks size) size (size_blocks size) p.
Proof.
  intros (Hal & L & Hr & -> & ->) Hv Hz. destruct (size_blocks_bounds size Hv) as (Hn & _).
  destruct (fit_dec (size_blocks size) L Hn (repr_runs _ _ Hr)) as [(L1 & L2 & Hff)|Hno].
  - destruct (kzalloc_run s L L1 L2 size Hal Hr Hv Hff) as (q & s1 & E & Hb). rewrite E in Hz. simplify_eq.
    rewrite decide_False; [done|]. destruct (fb_addr _ _ _ _ _ _ _ Hb). lia.
  - unfold kzalloc in Hz. apply bind_done_inv in Hz as (q & s1 & Hm & Hz). unfold kmalloc in Hm.
    rewrite (heap_malloc_miss _ L) in Hm by done.
    destruct (decide (last L = Some Free)); simplify_eq/=.
    unfold mret, M_ret in Hz. simplify_eq. rewrite decide_True by done. by destruct s.
Qed.

(** [kzalloc] of at most one block succeeds while a block is free.  The
    block it returns was not allocated, does not meet any live allocation, is
    filled with zeros, and no other byte of memory changes. *)
Theorem kzalloc_fresh_zeroed s A n size :
  kheap_owns s A (Datatypes.S n) → 0 < size <= VANA_HEAP_BLOCK_SIZE →
  ∃ p s', kzalloc size s = Done (p, s') ∧ p ≠ 0 ∧ kheap_owns s' (<[p := 1%nat]> A) n ∧
    (∀ q k, A !! q = Some k →
       p + VANA_HEAP_BLOCK_SIZE <= q ∨ q + Z.of_nat k * VANA_HEAP_BLOCK_SIZE <= p) ∧
    (∀ a, ram s' a = if decide (p <= a < p + size) then 0 else ram s a).
Proof.
  intros Ho Hsz. destruct (kzalloc_fresh s A n size Ho Hsz) as (p & s' & E & [? ? ? ? Hd ? ? ?]).
  exists p, s'. split_and!; [done|lia|done| |done]. intros q k Hq. apply Hd in Hq. lia.
Qed.

(** A kernel heap with a given layout, for the examples. *)
Definition kmem_of (L : layout) : kmem :=
  {| console := at_pos [] 0; kernel_heap := heap_of L; ram := λ _, 7 |}.

Lemma kzalloc_fresh_zeroed_witness :
  ∃ p s', kzalloc 12 (kmem_of demo) = Done (p, s') ∧ p ≠ 0 ∧
    kheap_owns s' (<[p := 1%nat]> (allocs (saddr (heap_of demo)) demo)) 3 ∧
    (∀ q k, allocs (saddr (heap_of demo)) demo !! q = Some k →
       p + VANA_HEAP_BLOCK_SIZE <= q ∨ q + Z.of_nat k * VANA_HEAP_BLOCK_SIZE <= p) ∧
    (∀ a, ram s' a = if decide (p <= a < p + 12) then 0 else ram (kmem_of demo) a).
Proof.
  apply (kzalloc_fresh_zeroed (kmem_of demo) _ 3 12); [|done].
  split; [done|]. exists demo. split_and!; [apply heap_of_repr; [apply demo_runs|by vm_compute]|done..].
Defined.

Lemma layout_owns L : Forall (λ s, (0 < seg_len s)%nat) L → Z.of_nat (blocks L) <= 25600 →
  kheap_owns (kmem_of L) (allocs VANA_HEAP_ADDRESS L) (frees L).
Proof.
  intros HL Hb. split.
  { split; [done|]. cbn. unfold VANA_HEAP_ADDRESS, VANA_HEAP_BLOCK_SIZE. lia. }
  exists L. split_and!; [by apply heap_of_repr|done|done].
Qed.

Lemma boot_owns n : Z.of_nat n <= 25600 → kheap_owns (kmem_of (replicate n Free)) ∅ n.
Proof.
  intros Hn. split.
  { split; [done|]. cbn. rewrite blocks_free. unfold VANA_HEAP_ADDRESS, VANA_HEAP_BLOCK_SIZE. lia. }
  exists (replicate n Free). split_and!.
  - apply heap_of_repr; [apply Forall_replicate; simpl; lia|by rewrite blocks_free].
  - by rewrite allocs_free.
  - by rewrite frees_free.
Qed.
