(* ===== verification/Paging.v ===== *)
(** * Paging

    Models src/src/memory/paging/paging.c and the register updates of
    paging.asm.  Page directories and tables are 32-bit words of the physical
    memory [ram]; a [paging_4gb_chunk] is an entry of the store [chunks].

    [pte] is the entry the MMU would use for a virtual address.  The theorems
    say that [paging_new_4gb] builds an identity mapping, that [paging_map_to]
    changes the entries of the range it is given and no other, that
    [paging_get_physical_address] inverts a mapping, and that
    [paging_free_4gb] returns every block that [paging_new_4gb] took. *)

From S2P Require Import Prelude Config CString Terminal Heap Kheap.
Local Open Scope Z_scope.

Definition PAGING_CACHE_DISABLED : Z := 16.
Definition PAGING_WRITE_THROUGH : Z := 8.
Definition PAGING_ACCESS_FROM_ALL : Z := 4.
Definition PAGING_IS_WRITEABLE : Z := 2.
Definition PAGING_IS_PRESENT : Z := 1.
Definition PAGING_TOTAL_ENTRIES_PER_TABLE : Z := 1024.
Definition PAGING_PAGE_SIZE : Z := 4096.

Record pstate := {
  pmem : kmem;
  cr3 : Z;
  paging_on : bool;
  current_directory : Z;
  chunks : gmap Z Z
}.

Definition set_pmem (k : kmem) (s : pstate) : pstate :=
  {| pmem := k; cr3 := cr3 s; paging_on := paging_on s;
     current_directory := current_directory s; chunks := chunks s |}.
Definition set_chunks (c : gmap Z Z) (s : pstate) : pstate :=
  {| pmem := pmem s; cr3 := cr3 s; paging_on := paging_on s;
     current_directory := current_directory s; chunks := c |}.
Definition set_directory (d : Z) (s : pstate) : pstate :=
  {| pmem := pmem s; cr3 := d; paging_on := paging_on s;
     current_directory := d; chunks := chunks s |}.

Definition in_kmem {A} (m : M kmem A) : M pstate A := zoom pmem set_pmem m.

Definition modify_ram (f : memory → memory) : M kmem unit :=
  modify (λ k, set_ram (f (ram k)) k).

(** ** Operations *)

(** The inner loop of [paging_new_4gb]: [n] entries are left, from entry [b]. *)
Fixpoint fill_table (n : nat) (entry b offset flags : Z) (m : memory) : memory :=
  match n with
  | O => m
  | S n =>
      fill_table n entry (b + 1) offset flags
        (store32 m (u32 (entry + 4 * b))
           (u32 (Z.lor (s32 (offset + b * PAGING_PAGE_SIZE)) flags)))
  end.

(** Its outer loop.  [offset] is an [int]: it wraps half way. *)
Fixpoint new_tables (n : nat) (i offset directory flags : Z) : M kmem unit :=
  match n with
  | O => mret tt
  | S n =>
      entry ← kzalloc (4 * PAGING_TOTAL_ENTRIES_PER_TABLE);
      modify_ram (fill_table (Z.to_nat PAGING_TOTAL_ENTRIES_PER_TABLE) entry 0 offset flags);;
      modify_ram (λ m, store32 m (u32 (directory + 4 * i))
                         (Z.lor (Z.lor entry flags) PAGING_IS_WRITEABLE));;
      new_tables n (i + 1)
        (s32 (offset + PAGING_TOTAL_ENTRIES_PER_TABLE * PAGING_PAGE_SIZE)) directory flags
  end.

Definition sizeof_paging_4gb_chunk : Z := 4.

Definition paging_new_4gb (flags : Z) : M pstate Z :=
  directory ← in_kmem (kzalloc (4 * PAGING_TOTAL_ENTRIES_PER_TABLE));
  in_kmem (new_tables (Z.to_nat PAGING_TOTAL_ENTRIES_PER_TABLE) 0 0 directory flags);;
  chunk_4gb ← in_kmem (kzalloc sizeof_paging_4gb_chunk);
  if chunk_4gb =? 0 then undef
  else
    modify (λ s, set_chunks (<[chunk_4gb := directory]> (chunks s)) s);;
    mret chunk_4gb.

Definition directory_entry (chunk : Z) : M pstate Z := λ s,
  match chunks s !! chunk with Some d => Done (d, s) | None => Undef end.

(** [paging_load_directory] loads [cr3]; [enable_paging] sets CR0.PG. *)
Definition paging_switch (directory : Z) : M pstate unit :=
  d ← directory_entry directory; modify (set_directory d).

Definition enable_paging : M pstate unit :=
  modify (λ s, {| pmem := pmem s; cr3 := cr3 s; paging_on := true;
                  current_directory := current_directory s; chunks := chunks s |}).

Fixpoint free_tables (n : nat) (chunk i : Z) : M pstate unit :=
  match n with
  | O => mret tt
  | S n =>
      d ← directory_entry chunk;
      entry ← gets (λ s, load32 (ram (pmem s)) (u32 (d + 4 * i)));
      in_kmem (kfree (Z.land entry 0xfffff000));;
      free_tables n chunk (i + 1)
  end.

Definition paging_free_4gb (chunk : Z) : M pstate unit :=
  free_tables (Z.to_nat PAGING_TOTAL_ENTRIES_PER_TABLE) chunk 0;;
  d ← directory_entry chunk;
  in_kmem (kfree d);;
  in_kmem (kfree chunk);;
  modify (λ s, set_chunks (delete chunk (chunks s)) s).

Definition paging_4gb_chunk_get_directory (chunk : Z) : M pstate Z := directory_entry chunk.

Definition paging_is_aligned (addr : Z) : bool := u32 addr mod PAGING_PAGE_SIZE =? 0.

(** [None] is the return value -1, with the two indexes left alone. *)
Definition paging_get_indexes (virtual_address : Z) : option (Z * Z) :=
  if negb (paging_is_aligned virtual_address) then None
  else
    Some (u32 virtual_address / (PAGING_TOTAL_ENTRIES_PER_TABLE * PAGING_PAGE_SIZE),
          u32 virtual_address mod (PAGING_TOTAL_ENTRIES_PER_TABLE * PAGING_PAGE_SIZE)
            / PAGING_PAGE_SIZE).

Definition paging_align_address (ptr : Z) : Z :=
  if negb (u32 ptr mod PAGING_PAGE_SIZE =? 0)
  then u32 (u32 ptr + PAGING_PAGE_SIZE - u32 ptr mod PAGING_PAGE_SIZE)
  else ptr.

Definition paging_align_to_lower_page (addr : Z) : Z :=
  let _addr := u32 addr in u32 (_addr - _addr mod PAGING_PAGE_SIZE).

(** The status and the memory after the call. *)
Definition paging_set (m : memory) (directory virt val : Z) : Z * memory :=
  if negb (paging_is_aligned virt) then (-1, m)
  else
    match paging_get_indexes virt with
    | None => (-1, m)
    | Some (directory_index, table_index) =>
        let entry := load32 m (u32 (directory + 4 * directory_index)) in
        let table := Z.land entry 0xfffff000 in
        (0, store32 m (u32 (table + 4 * table_index)) val)
    end.

Definition paging_map (directory virt phys flags : Z) : M pstate Z :=
  if negb (u32 virt mod PAGING_PAGE_SIZE =? 0) || negb (u32 phys mod PAGING_PAGE_SIZE =? 0)
  then mret (-1)
  else
    d ← directory_entry directory;
    m ← gets (λ s, ram (pmem s));
    let '(res, m') := paging_set m d virt (u32 (Z.lor (u32 phys) flags)) in
    in_kmem (modify (set_ram m'));;
    mret res.

(** The loop of [paging_map_range], with the number of pages left. *)
Fixpoint map_loop (n : nat) (directory virt phys flags res : Z) : M pstate Z :=
  match n with
  | O => mret res
  | S n =>
      res ← paging_map directory virt phys flags;
      if res <? 0 then mret res
      else map_loop n directory (u32 (virt + PAGING_PAGE_SIZE)) (u32 (phys + PAGING_PAGE_SIZE))
             flags res
  end.

Definition paging_map_range (directory virt phys count flags : Z) : M pstate Z :=
  map_loop (Z.to_nat count) directory virt phys flags 0.

Definition paging_map_to (directory virt phys phys_end flags : Z) : M pstate Z :=
  if negb (u32 virt mod PAGING_PAGE_SIZE =? 0) then mret (-1)
  else if negb (u32 phys mod PAGING_PAGE_SIZE =? 0) then mret (-1)
  else if negb (u32 phys_end mod PAGING_PAGE_SIZE =? 0) then mret (-1)
  else if u32 phys_end <? u32 phys then mret (-1)
  else
    let total_bytes := u32 (u32 phys_end - u32 phys) in
    let total_pages := s32 (total_bytes / PAGING_PAGE_SIZE) in
    paging_map_range directory virt phys total_pages flags.

Definition paging_get (m : memory) (directory virt : Z) : Z :=
  let '(directory_index, table_index) := default (0, 0) (paging_get_indexes virt) in
  let entry := load32 m (u32 (directory + 4 * directory_index)) in
  let table := Z.land entry 0xfffff000 in
  load32 m (u32 (table + 4 * table_index)).

Definition paging_get_physical_address (m : memory) (directory virt : Z) : Z :=
  let virt_addr_new := paging_align_to_lower_page virt in
  let difference := u32 (u32 virt - u32 virt_addr_new) in
  u32 (Z.land (paging_get m directory virt_addr_new) 0xfffff000 + difference).

(** ** Page tables in memory *)

Definition is_page (p : Z) : Prop := 0 <= p < 2 ^ 32 ∧ p mod PAGING_PAGE_SIZE = 0.

#[export] Instance is_page_dec p : Decision (is_page p).
Proof. unfold is_page. apply _. Defined.

(** The table of directory entry [i], and the entry of virtual address [v]. *)
Definition table_of (m : memory) (dir i : Z) : Z := Z.land (load32 m (dir + 4 * i)) 0xfffff000.

Definition dir_index (v : Z) : Z := v / 2 ^ 22.
Definition table_index (v : Z) : Z := v / PAGING_PAGE_SIZE mod 1024.

Definition pte (m : memory) (dir v : Z) : Z :=
  load32 m (table_of m dir (dir_index v) + 4 * table_index v).

Definition page_of (v : Z) : Z := v - v mod PAGING_PAGE_SIZE.

(** The directory and its 1024 tables occupy 1025 different pages. *)
Record pt_wf (m : memory) (dir : Z) : Prop := {
  pt_bytes : ∀ a, is_u8 (m a);
  pt_dir : is_page dir;
  pt_tables : ∀ i, 0 <= i < 1024 → table_of m dir i ≠ dir;
  pt_distinct : ∀ i j, 0 <= i < 1024 → 0 <= j < 1024 →
    table_of m dir i = table_of m dir j → i = j
}.

Ltac page := unfold is_page, PAGING_PAGE_SIZE in *; euclid.

Lemma load32_u32 m p : (∀ a, is_u8 (m a)) → is_u32 (load32 m p).
Proof.
  intros H. unfold load32, is_u32.
  pose proof (H p). pose proof (H (p + 1)). pose proof (H (p + 2)). pose proof (H (p + 3)).
  unfold is_u8 in *. lia.
Qed.

Lemma store_bytes_u8 m p l : (∀ a, is_u8 (m a)) → Forall is_u8 l → ∀ a, is_u8 (store_bytes m p l a).
Proof.
  intros Hm Hl a. unfold store_bytes, idx. destruct (_ <? 0); [apply Hm|].
  destruct (l !! _) eqn:E; [|apply Hm]. exact (Forall_lookup_1 _ _ _ _ Hl E).
Qed.

Lemma bytes32_u8 v : Forall is_u8 (bytes32 v).
Proof. unfold bytes32. repeat constructor; by apply Z.mod_pos_bound. Qed.

Lemma mask_page z : is_u32 z → is_page (Z.land z 0xfffff000).
Proof. intros H. rewrite land_page_mask by done. page. Qed.

Lemma mask_entry p f : is_page p → 0 <= f < 4096 → Z.land (Z.lor p f) 0xfffff000 = p.
Proof.
  intros Hp Hf. rewrite (lor_low 12) by page. rewrite land_page_mask by page. page.
Qed.

Lemma table_of_page m dir i : (∀ a, is_u8 (m a)) → is_page (table_of m dir i).
Proof. intros H. by apply mask_page, load32_u32. Qed.

Lemma page_word p j : is_page p → 0 <= j < 1024 → u32 (p + 4 * j) = p + 4 * j.
Proof. intros Hp Hj. apply u32_small. page. Qed.

Lemma pages_disjoint p q : is_page p → is_page q → p ≠ q → p + 4096 <= q ∨ q + 4096 <= p.
Proof. intros Hp Hq Hne. page. Qed.

Lemma indexes_range v : is_u32 v → 0 <= dir_index v < 1024 ∧ 0 <= table_index v < 1024.
Proof. unfold dir_index, table_index, PAGING_PAGE_SIZE. intros H. euclid. Qed.

Lemma indexes_inj v w : is_page v → is_page w →
  dir_index v = dir_index w → table_index v = table_index w → v = w.
Proof. unfold dir_index, table_index. intros. page. Qed.

Lemma indexes_page v : is_u32 v →
  dir_index (page_of v) = dir_index v ∧ table_index (page_of v) = table_index v ∧ is_page (page_of v).
Proof. unfold dir_index, table_index, page_of, is_page, PAGING_PAGE_SIZE. intros H. euclid. Qed.

Lemma pte_page m dir v : is_u32 v → pte m dir (page_of v) = pte m dir v.
Proof. intros H. destruct (indexes_page v H) as (E1 & E2 & _). unfold pte. by rewrite E1, E2. Qed.

Lemma paging_get_indexes_spec v : is_page v → paging_get_indexes v = Some (dir_index v, table_index v).
Proof.
  intros Hv. unfold paging_get_indexes, paging_is_aligned, dir_index, table_index.
  rewrite u32_small by page. destruct Hv as [Hv ->]. simpl. do 2 f_equal.
  unfold PAGING_TOTAL_ENTRIES_PER_TABLE, PAGING_PAGE_SIZE. euclid.
Qed.

Lemma paging_get_spec m dir v : pt_wf m dir → is_page v → paging_get m dir v = pte m dir v.
Proof.
  intros Hwf Hv. unfold paging_get. rewrite paging_get_indexes_spec by done. simpl.
  destruct (indexes_range v ltac:(page)). rewrite (page_word dir) by (apply Hwf || done).
  fold (table_of m dir (dir_index v)).
  by rewrite page_word by (apply table_of_page, Hwf || done).
Qed.

(** The translation the MMU performs. *)
Lemma paging_get_physical_address_spec m dir v : pt_wf m dir → is_u32 v →
  paging_get_physical_address m dir v = Z.land (pte m dir v) 0xfffff000 + v mod PAGING_PAGE_SIZE.
Proof.
  intros Hwf Hv. unfold paging_get_physical_address, paging_align_to_lower_page.
  rewrite !(u32_small v) by done. fold (page_of v).
  destruct (indexes_page v Hv) as (_ & _ & Hp). rewrite !(u32_small (page_of v)) by page.
  rewrite paging_get_spec, pte_page by done.
  pose proof (mask_page (pte m dir v) (load32_u32 _ _ (pt_bytes _ _ Hwf))) as Hm.
  unfold page_of in *. rewrite (u32_small (v - _)) by page. rewrite u32_small by page. page.
Qed.

(** ** Changing one entry *)

Section set_entry.
Context (m : memory) (dir v val : Z).
Hypothesis Hwf : pt_wf m dir.
Hypothesis Hv : is_page v.
Hypothesis Hval : is_u32 val.

Let slot := table_of m dir (dir_index v) + 4 * table_index v.
Let m' := store32 m slot val.

Lemma paging_set_eq : paging_set m dir v val = (0, m').
Proof.
  unfold paging_set. unfold paging_is_aligned. rewrite u32_small by page.
  destruct Hv as [Hr Hal]. rewrite Hal. simpl. rewrite paging_get_indexes_spec by done.
  destruct (indexes_range v ltac:(page)). rewrite (page_word dir) by (apply Hwf || done).
  fold (table_of m dir (dir_index v)).
  by rewrite page_word by (apply table_of_page, Hwf || done).
Qed.

(** The slot is in a page that is not the directory. *)
Lemma set_dir_word i : 0 <= i < 1024 → load32 m' (dir + 4 * i) = load32 m (dir + 4 * i).
Proof.
  intros Hi. destruct (indexes_range v ltac:(page)) as [H1 H2]. apply load32_store32_ne.
  pose proof (table_of_page m dir (dir_index v) (pt_bytes _ _ Hwf)) as Ht.
  pose proof (pages_disjoint _ _ Ht (pt_dir _ _ Hwf) (pt_tables _ _ Hwf _ H1)). lia.
Qed.

Lemma set_table_of i : 0 <= i < 1024 → table_of m' dir i = table_of m dir i.
Proof. intros Hi. unfold table_of. by rewrite set_dir_word. Qed.

Lemma set_pt_wf : pt_wf m' dir.
Proof.
  destruct Hwf as [Hb Hd Ht Hi]. split; [|done|..].
  - apply store_bytes_u8; [done|apply bytes32_u8].
  - intros i Hr. rewrite set_table_of by done. auto.
  - intros i j Hri Hrj. rewrite !set_table_of by done. auto.
Qed.

Lemma set_pte w : is_u32 w → pte m' dir w = if decide (page_of w = v) then val else pte m dir w.
Proof.
  intros Hw. rewrite <- (pte_page m' dir w), <- (pte_page m dir w) by done.
  destruct (indexes_page w Hw) as (_ & _ & Hp). generalize dependent (page_of w). clear w Hw. intros w Hw.
  destruct (indexes_range w ltac:(page)) as [H1 H2]. destruct (indexes_range v ltac:(page)) as [H3 H4].
  unfold pte. rewrite set_table_of by done. destruct (decide (w = v)) as [->|Hne].
  { by apply load32_store32. }
  apply load32_store32_ne. unfold slot.
  destruct (decide (dir_index w = dir_index v)) as [E|E].
  - rewrite E. assert (table_index w ≠ table_index v); [|lia].
    intros E'. apply Hne. by apply indexes_inj.
  - pose proof (table_of_page m dir (dir_index v) (pt_bytes _ _ Hwf)) as Ht1.
    pose proof (table_of_page m dir (dir_index w) (pt_bytes _ _ Hwf)) as Ht2.
    assert (table_of m dir (dir_index v) ≠ table_of m dir (dir_index w)) as Hd.
    { intros E'. apply E. symmetry. by eapply (pt_distinct _ _ Hwf). }
    pose proof (pages_disjoint _ _ Ht1 Ht2 Hd). lia.
Qed.

(** Only the slot changes. *)
Lemma set_outside a : ¬ (slot <= a < slot + 4) → m' a = m a.
Proof. intros H. apply store_bytes_out. simpl. lia. Qed.
End set_entry.

(** ** Mapping ranges *)

Definition with_ram (m : memory) (s : pstate) : pstate := set_pmem (set_ram m (pmem s)) s.

(** Every byte outside the tables of [dir] is the same in both memories. *)
Definition same_outside_tables (dir : Z) (m m' : memory) : Prop :=
  ∀ a, (∀ i, 0 <= i < 1024 → ¬ (table_of m dir i <= a < table_of m dir i + 4096)) → m' a = m a.

(** [m'] is [m] with the [len] bytes from [virt] mapped to [phys]. *)
Record mapped (m m' : memory) (dir virt phys len flags : Z) : Prop := {
  mapped_wf : pt_wf m' dir;
  mapped_pte : ∀ w, is_u32 w →
    pte m' dir w =
    if decide (virt <= w < virt + len) then Z.lor (phys + (page_of w - virt)) flags
    else pte m dir w;
  mapped_tables : ∀ i, 0 <= i < 1024 → table_of m' dir i = table_of m dir i;
  mapped_outside : same_outside_tables dir m m'
}.

Lemma mapped_refl m dir virt phys flags : pt_wf m dir → mapped m m dir virt phys 0 flags.
Proof.
  intros H. split; [done| |done|done]. intros w Hw. by rewrite decide_False by lia.
Qed.

Section map_range.
Context (chunk dir flags : Z).
Hypothesis Hflags : 0 <= flags < 4096.

Lemma paging_map_eq s v p :
  chunks s !! chunk = Some dir → pt_wf (ram (pmem s)) dir → is_page v → is_page p →
  let m := ram (pmem s) in
  paging_map chunk v p flags s =
  Done (0, with_ram (store32 m (table_of m dir (dir_index v) + 4 * table_index v) (Z.lor p flags)) s).
Proof.
  intros Hc Hwf Hv Hp m. subst m.
  assert (is_u32 (Z.lor p flags)) as Hval by (rewrite (lor_low 12) by page; page).
  unfold paging_map. rewrite !u32_small by page. pose proof Hv as [_ ->]. pose proof Hp as [_ ->].
  simpl. erewrite bind_done; [|unfold directory_entry; rewrite Hc; reflexivity].
  erewrite bind_done; [|reflexivity]. by rewrite paging_set_eq.
Qed.

Lemma mapped_page m v p : pt_wf m dir → is_page v → is_page p →
  mapped m (store32 m (table_of m dir (dir_index v) + 4 * table_index v) (Z.lor p flags)) dir v p 4096 flags.
Proof.
  intros Hwf Hv Hp.
  assert (is_u32 (Z.lor p flags)) as Hval by (rewrite (lor_low 12) by page; page). split.
  - by apply set_pt_wf.
  - intros w Hw. rewrite set_pte by done.
    destruct (decide (page_of w = v)) as [E|E].
    + rewrite decide_True by (unfold page_of in E; page). f_equal. lia.
    + by rewrite decide_False by (unfold page_of in E; page).
  - intros i Hi. by apply set_table_of.
  - intros a Ha. apply set_outside. destruct (indexes_range v ltac:(page)) as [H1 H2].
    specialize (Ha _ H1). lia.
Qed.

Lemma paging_map_step s v p :
  chunks s !! chunk = Some dir → pt_wf (ram (pmem s)) dir → is_page v → is_page p →
  ∃ m', paging_map chunk v p flags s = Done (0, with_ram m' s) ∧
        mapped (ram (pmem s)) m' dir v p 4096 flags.
Proof. intros Hc Hwf Hv Hp. eexists. split; [by apply paging_map_eq|by apply mapped_page]. Qed.

Lemma mapped_cons m m1 m2 v p n :
  is_page v → is_page p → 0 < n → v + 4096 + n <= 2 ^ 32 →
  mapped m m1 dir v p 4096 flags → mapped m1 m2 dir (v + 4096) (p + 4096) n flags →
  mapped m m2 dir v p (4096 + n) flags.
Proof.
  intros Hv Hp Hn Hr [Hw1 Hp1 Ht1 Ho1] [Hw2 Hp2 Ht2 Ho2]. split; [done|..].
  - intros w Hw. rewrite Hp2, Hp1 by done.
    destruct (decide (v <= w < v + (4096 + n))) as [H|H].
    + destruct (decide (v + 4096 <= w < v + 4096 + n)); [f_equal; lia|].
      by rewrite decide_True by lia.
    + by rewrite !decide_False by lia.
  - intros i Hi. by rewrite Ht2, Ht1.
  - intros a Ha. rewrite Ho2, Ho1; [done..|]. intros i Hi. rewrite Ht1 by done. auto.
Qed.

Lemma map_loop_spec n s v p res :
  chunks s !! chunk = Some dir → pt_wf (ram (pmem s)) dir → is_page v → is_page p → 0 <= res →
  v + Z.of_nat n * 4096 <= 2 ^ 32 → p + Z.of_nat n * 4096 <= 2 ^ 32 →
  ∃ m', map_loop n chunk v p flags res s = Done (if decide (n = O) then res else 0, with_ram m' s) ∧
        mapped (ram (pmem s)) m' dir v p (Z.of_nat n * 4096) flags.
Proof.
  revert s v p res. induction n as [|n IH]; intros s v p res Hc Hwf Hv Hp Hres Hrv Hrp.
  { exists (ram (pmem s)). split; [|by apply mapped_refl]. by destruct s as [[]]. }
  destruct (paging_map_step s v p Hc Hwf Hv Hp) as (m1 & E1 & M1).
  cbn [map_loop]. rewrite (bind_done _ _ _ _ _ E1). cbn [Z.ltb Z.compare].
  destruct (decide (n = O)) as [->|Hn].
  { exists m1. by split. }
  unfold PAGING_PAGE_SIZE. rewrite !u32_small by page.
  destruct (IH (with_ram m1 s) (v + 4096) (p + 4096) 0) as (m2 & E2 & M2);
    [done|apply M1|page|page|done|lia|lia|].
  exists m2. split; [rewrite E2; by destruct s, (decide (n = O))|].
  replace (Z.of_nat (S n) * 4096) with (4096 + Z.of_nat n * 4096) by lia.
  apply mapped_cons with m1; [done|done|lia|lia|done|done].
Qed.
End map_range.

Lemma paging_map_to_cases s chunk dir virt phys phys_end flags :
  chunks s !! chunk = Some dir → pt_wf (ram (pmem s)) dir →
  is_u32 virt → is_u32 phys → is_u32 phys_end → 0 <= flags < 4096 →
  virt + (phys_end - phys) <= 2 ^ 32 →
  if decide (is_page virt ∧ is_page phys ∧ is_page phys_end ∧ phys <= phys_end) then
    ∃ m', paging_map_to chunk virt phys phys_end flags s = Done (0, with_ram m' s) ∧
          mapped (ram (pmem s)) m' dir virt phys (phys_end - phys) flags
  else paging_map_to chunk virt phys phys_end flags s = Done (-1, s).
Proof.
  intros Hc Hwf Hv Hp Hpe Hf Hr. unfold paging_map_to. rewrite !u32_small by done.
  destruct (Z.eqb_spec (virt mod PAGING_PAGE_SIZE) 0); simpl;
    [|by rewrite decide_False by page].
  destruct (Z.eqb_spec (phys mod PAGING_PAGE_SIZE) 0); simpl;
    [|by rewrite decide_False by page].
  destruct (Z.eqb_spec (phys_end mod PAGING_PAGE_SIZE) 0); simpl;
    [|by rewrite decide_False by page].
  destruct (Z.ltb_spec phys_end phys); [by rewrite decide_False by lia|].
  rewrite decide_True by page.
  rewrite (u32_small (phys_end - phys)) by page. rewrite s32_small by page. unfold paging_map_range.
  edestruct (map_loop_spec chunk dir flags Hf (Z.to_nat ((phys_end - phys) / PAGING_PAGE_SIZE)) s virt phys 0)
    as (m' & E & HM); [done|done|page|page|done|page|page|].
  exists m'. rewrite E. split; [by destruct (decide _)|].
  by replace (phys_end - phys) with (Z.of_nat (Z.to_nat ((phys_end - phys) / PAGING_PAGE_SIZE)) * 4096) by page.
Qed.

(** [paging_map_to] maps exactly the pages of the range.  With aligned
    addresses it succeeds, every address of the range gets the entry of its
    frame and the flags, the entry of every other address is kept and no byte
    outside the page tables changes; otherwise it returns -1 and changes
    nothing. *)
Theorem paging_map_to_correct s chunk dir virt phys phys_end flags :
  chunks s !! chunk = Some dir → pt_wf (ram (pmem s)) dir →
  is_u32 virt → is_u32 phys → is_u32 phys_end → 0 <= flags < 4096 →
  virt + (phys_end - phys) <= 2 ^ 32 →
  if decide (is_page virt ∧ is_page phys ∧ is_page phys_end ∧ phys <= phys_end) then
    ∃ m', paging_map_to chunk virt phys phys_end flags s = Done (0, with_ram m' s) ∧
          mapped (ram (pmem s)) m' dir virt phys (phys_end - phys) flags
  else paging_map_to chunk virt phys phys_end flags s = Done (-1, s).
Proof. apply paging_map_to_cases. Qed.

(** A mapping read back. *)
Lemma mapped_translation m m' dir virt phys len flags :
  pt_wf m dir → mapped m m' dir virt phys len flags → is_page virt → is_page phys →
  0 <= len → virt + len <= 2 ^ 32 → phys + len <= 2 ^ 32 → 0 <= flags < 4096 →
  ∀ w, is_u32 w → paging_get_physical_address m' dir w =
    if decide (virt <= w < virt + len) then phys + (w - virt)
    else paging_get_physical_address m dir w.
Proof.
  intros Hwf [Hwf' Hpte _ _] Hv Hp Hl Hr Hr' Hf w Hw.
  rewrite !paging_get_physical_address_spec, Hpte by done.
  destruct (decide _) as [H|H]; [|done].
  rewrite mask_entry by (done || (unfold page_of; page)). unfold page_of. lia.
Qed.

(** C9: [paging_get_physical_address] inverts [paging_map_to]: an address of
    the mapped range, aligned or not, translates to the physical address at the
    same distance from [phys], and every other address translates as before. *)
Theorem paging_translation_after_map s chunk dir virt phys phys_end flags :
  chunks s !! chunk = Some dir → pt_wf (ram (pmem s)) dir →
  is_page virt → is_page phys → is_page phys_end → phys <= phys_end → 0 <= flags < 4096 →
  virt + (phys_end - phys) <= 2 ^ 32 →
  ∃ s', paging_map_to chunk virt phys phys_end flags s = Done (0, s') ∧
    ∀ w, is_u32 w →
      paging_get_physical_address (ram (pmem s')) dir w =
      if decide (virt <= w < virt + (phys_end - phys)) then phys + (w - virt)
      else paging_get_physical_address (ram (pmem s)) dir w.
Proof.
  intros Hc Hwf Hv Hp Hpe Hle Hf Hr.
  pose proof (paging_map_to_cases s chunk dir virt phys phys_end flags Hc Hwf
                ltac:(page) ltac:(page) ltac:(page) Hf Hr) as H.
  rewrite decide_True in H by done. destruct H as (m' & E & HM).
  exists (with_ram m' s). split; [done|]. eapply mapped_translation; try done; page.
Qed.

(** ** A new directory *)

Lemma fill_table_spec n entry b offset flags m :
  is_page entry → 0 <= b → b + Z.of_nat n <= 1024 →
  let m' := fill_table n entry b offset flags m in
  (∀ j, b <= j < b + Z.of_nat n →
     load32 m' (entry + 4 * j) = u32 (Z.lor (s32 (offset + j * PAGING_PAGE_SIZE)) flags)) ∧
  (∀ a, ¬ (entry + 4 * b <= a < entry + 4 * (b + Z.of_nat n)) → m' a = m a) ∧
  ((∀ a, is_u8 (m a)) → ∀ a, is_u8 (m' a)).
Proof.
  intros He. revert b m. induction n as [|n IH]; intros b m Hb Hn; cbn [fill_table].
  { split_and!; [lia|done|done]. }
  rewrite page_word by (done || lia).
  destruct (IH (b + 1) (store32 m (entry + 4 * b)
    (u32 (Z.lor (s32 (offset + b * PAGING_PAGE_SIZE)) flags)))) as (H1 & H2 & H3); [lia..|].
  split_and!.
  - intros j Hj. destruct (decide (j = b)) as [->|Hne]; [|apply H1; lia].
    rewrite (load32_ext _ (store32 m (entry + 4 * b)
      (u32 (Z.lor (s32 (offset + b * PAGING_PAGE_SIZE)) flags)))).
    + apply load32_store32, u32_range.
    + intros a Ha. apply H2. lia.
  - intros a Ha. rewrite H2 by lia. apply store_bytes_out. simpl. lia.
  - intros Hm. apply H3, store_bytes_u8; [done|apply bytes32_u8].
Qed.

Lemma s32_add_l a b : s32 (s32 a + b) = s32 (a + b).
Proof.
  unfold s32. f_equal. replace ((a + 2 ^ 31) mod 2 ^ 32 - 2 ^ 31 + b + 2 ^ 31)
    with ((a + 2 ^ 31) mod 2 ^ 32 + b) by lia.
  rewrite Zplus_mod_idemp_l. f_equal. lia.
Qed.

(** The value stored for page [b] of table [i]. *)
Lemma identity_entry i b flags : 0 <= i < 1024 → 0 <= b < 1024 → is_u8 flags →
  u32 (Z.lor (s32 (s32 (i * 2 ^ 22) + b * PAGING_PAGE_SIZE)) flags) =
  Z.lor (i * 2 ^ 22 + b * PAGING_PAGE_SIZE) flags.
Proof.
  intros Hi Hb Hf. rewrite s32_add_l, u32_lor, u32_s32. unfold PAGING_PAGE_SIZE.
  by rewrite !u32_small by range.
Qed.

(** The state of the outer loop once the tables [Ts] are in place. *)
Record tables_inv (s : kmem) (dir flags : Z) (A : gmap Z nat) (n : nat) (Ts : list Z) : Prop := {
  inv_owns : kheap_owns s (with_blocks Ts A) n;
  inv_dir : A !! dir = Some 1%nat;
  inv_nodup : NoDup Ts;
  inv_fresh : Forall (λ t, A !! t = None) Ts;
  inv_bytes : ∀ a, is_u8 (ram s a);
  inv_entry : ∀ j t, Ts !! j = Some t →
    load32 (ram s) (dir + 4 * Z.of_nat j) = Z.lor (Z.lor t flags) PAGING_IS_WRITEABLE;
  inv_ptes : ∀ j t b, Ts !! j = Some t → 0 <= b < 1024 →
    load32 (ram s) (t + 4 * b) = Z.lor (Z.of_nat j * 2 ^ 22 + b * PAGING_PAGE_SIZE) flags
}.

Lemma owned_page s A n p k : kheap_owns s A n → A !! p = Some k → is_page p.
Proof. intros Ho Hp. destruct (kheap_owns_range _ _ _ _ _ Ho Hp). unfold is_page, PAGING_PAGE_SIZE, VANA_HEAP_BLOCK_SIZE in *. lia. Qed.

Lemma inv_pages s dir flags A n Ts : tables_inv s dir flags A n Ts →
  is_page dir ∧ (dir ∉ Ts) ∧ (∀ t, t ∈ Ts → is_page t).
Proof.
  intros [Ho Hd _ Hf _ _ _].
  assert (dir ∉ Ts) as Hnd.
  { intros Hin. eapply Forall_forall in Hf; [|done]. simpl in Hf. congruence. }
  split_and!; [|done|].
  - eapply owned_page; [done|]. by rewrite with_blocks_out.
  - intros t Ht. eapply owned_page; [done|]. by apply with_blocks_in.
Qed.

Lemma entry_value t flags : is_page t → is_u8 flags →
  is_u32 (Z.lor (Z.lor t flags) PAGING_IS_WRITEABLE) ∧
  Z.land (Z.lor (Z.lor t flags) PAGING_IS_WRITEABLE) 0xfffff000 = t.
Proof.
  intros Ht Hf. rewrite <- Z.lor_assoc.
  pose proof (lor_bound flags PAGING_IS_WRITEABLE 8 ltac:(done) Hf ltac:(done)) as Hb.
  split; [|apply mask_entry; [done|lia]].
  rewrite (lor_low 12) by page. page.
Qed.

(** One round of the outer loop. *)
Definition table_round (m : memory) (dir flags i t : Z) : memory :=
  store32
    (fill_table (Z.to_nat PAGING_TOTAL_ENTRIES_PER_TABLE) t 0 (s32 (i * 2 ^ 22)) flags
       (store_bytes m t (replicate (Z.to_nat 4096) 0)))
    (dir + 4 * i) (Z.lor (Z.lor t flags) PAGING_IS_WRITEABLE).

Lemma table_round_spec m dir flags i t :
  is_page dir → is_page t → t ≠ dir → 0 <= i < 1024 → is_u8 flags → (∀ a, is_u8 (m a)) →
  let m' := table_round m dir flags i t in
  (∀ a, is_u8 (m' a)) ∧
  load32 m' (dir + 4 * i) = Z.lor (Z.lor t flags) PAGING_IS_WRITEABLE ∧
  (∀ b, 0 <= b < 1024 → load32 m' (t + 4 * b) = Z.lor (i * 2 ^ 22 + b * PAGING_PAGE_SIZE) flags) ∧
  (∀ a, ¬ (t <= a < t + 4096) → ¬ (dir + 4 * i <= a < dir + 4 * i + 4) → m' a = m a).
Proof.
  intros Hd Ht Hne Hi Hf Hm m'.
  pose proof (pages_disjoint t dir Ht Hd Hne) as Hdis.
  destruct (fill_table_spec (Z.to_nat PAGING_TOTAL_ENTRIES_PER_TABLE) t 0 (s32 (i * 2 ^ 22)) flags
    (store_bytes m t (replicate (Z.to_nat 4096) 0))) as (H1 & H2 & H3); [done|done|done|].
  rewrite Z2Nat.id in H1, H2 by done. change PAGING_TOTAL_ENTRIES_PER_TABLE with 1024 in H1, H2.
  split_and!.
  - apply store_bytes_u8; [|apply bytes32_u8]. apply H3, store_bytes_u8; [done|].
    apply Forall_replicate. range.
  - by apply load32_store32, entry_value.
  - intros b Hb. unfold m', table_round. rewrite load32_store32_ne, H1, identity_entry by (done || lia). done.
  - intros a Ha Hb. unfold m', table_round. etransitivity; [apply store_bytes_out; simpl; lia|].
    rewrite H2 by lia. apply store_bytes_out. rewrite length_replicate. lia.
Qed.

Lemma tables_inv_round s s1 dir flags A n Ts t :
  tables_inv s dir flags A (S n) Ts → is_u8 flags → Z.of_nat (length Ts) < 1024 →
  with_blocks Ts A !! t = None → kheap_owns s1 (<[t := 1%nat]> (with_blocks Ts A)) n →
  tables_inv (set_ram (table_round (ram s) dir flags (Z.of_nat (length Ts)) t) s1)
    dir flags A n (Ts ++ [t]).
Proof.
  intros Hinv Hf Hlen Ht Ho. destruct (inv_pages _ _ _ _ _ _ Hinv) as (Hpd & Hnd & Hpt).
  destruct Hinv as [_ Hd Hnodup Hfr Hb He Hp].
  assert (t ∉ Ts) as Hnt by (intros Hin; by rewrite with_blocks_in in Ht).
  assert (t ≠ dir) as Htd by (intros ->; by rewrite with_blocks_out, Hd in Ht).
  assert (is_page t) as Hpt' by (eapply owned_page; [done|by rewrite lookup_insert_eq]).
  destruct (table_round_spec (ram s) dir flags (Z.of_nat (length Ts)) t) as (R1 & R2 & R3 & R4);
    [done..|lia|done|done|].
  assert (∀ j t', Ts !! j = Some t' → (j < length Ts)%nat ∧ is_page t' ∧ t' ≠ t ∧ t' ≠ dir) as Hold.
  { intros j t' Hj. pose proof (list_elem_of_lookup_2 _ _ _ Hj).
    split_and!; [by eapply lookup_lt_Some|auto|congruence..]. }
  split; cbn [ram set_ram].
  - by rewrite with_blocks_snoc, owns_set_ram.
  - done.
  - apply NoDup_app. split_and!; [done| |apply NoDup_singleton]. by intros x Hx ->%list_elem_of_singleton.
  - apply Forall_app. split; [done|]. constructor; [|done]. by rewrite with_blocks_out in Ht.
  - done.
  - intros j t' [Hj|[-> Hj]]%lookup_snoc_Some; [|by subst].
    destruct (Hold j t') as (? & ? & ? & ?); [tauto|]. rewrite <- (He j t') by tauto.
    apply load32_ext. intros a Ha. pose proof (pages_disjoint _ _ Hpt' Hpd Htd). apply R4; lia.
  - intros j t' b [Hj|[-> Hj]]%lookup_snoc_Some Hr; [|subst; by apply R3].
    destruct (Hold j t') as (? & Hp' & Hne1 & Hne2); [tauto|]. rewrite <- (Hp j t' b) by tauto.
    apply load32_ext. intros a Ha.
    pose proof (pages_disjoint _ _ Hp' Hpt' Hne1). pose proof (pages_disjoint _ _ Hp' Hpd Hne2).
    apply R4; lia.
Qed.

Lemma new_tables_spec k s dir flags A n Ts :
  tables_inv s dir flags A (k + n) Ts → is_u8 flags → (k + length Ts = Z.to_nat 1024)%nat →
  ∃ s' Ts', new_tables k (Z.of_nat (length Ts)) (s32 (Z.of_nat (length Ts) * 2 ^ 22)) dir flags s
              = Done (tt, s') ∧
    tables_inv s' dir flags A n Ts' ∧ length Ts' = Z.to_nat 1024.
Proof.
  intros Hinv Hf. revert s Ts Hinv. induction k as [|k IH]; intros s Ts Hinv Hk.
  { exists s, Ts. done. }
  cbn [new_tables]. assert (Z.of_nat (length Ts) < 1024) as Hlt by lia.
  destruct (kzalloc_small s _ _ 4096 (inv_owns _ _ _ _ _ _ Hinv)) as (t & s1 & E & Ht & Ho); [done|].
  destruct (kheap_owns_range _ _ _ t 1 Ho) as [Hpos _]; [by rewrite lookup_insert_eq|].
  destruct (kzalloc_ram s 4096 t s1) as [Hram _]; [done|done|lia|].
  rewrite (bind_done _ _ _ _ _ E). erewrite bind_done; [|reflexivity].
  erewrite bind_done; [|reflexivity]. cbn [ram set_ram].
  destruct (inv_pages _ _ _ _ _ _ Hinv) as (Hpd & _ & _). rewrite page_word by (done || lia).
  rewrite s32_add_l, Hram.
  pose proof (tables_inv_round s s1 dir flags A (k + n) Ts t Hinv Hf Hlt Ht Ho) as Hinv'.
  destruct (IH _ _ Hinv') as (s' & Ts' & E' & Hinv'' & Hl); [rewrite length_app; simpl; lia|].
  exists s', Ts'. split; [|done]. rewrite <- E'. rewrite length_app. cbn [length].
  rewrite Nat2Z.inj_add. change (Z.of_nat 1) with 1.
  unfold PAGING_TOTAL_ENTRIES_PER_TABLE, PAGING_PAGE_SIZE.
  f_equal. f_equal. lia.
Qed.

Lemma tables_inv_lookup (Ts : list Z) i : 0 <= i < 1024 → length Ts = Z.to_nat 1024 →
  ∃ t, Ts !! Z.to_nat i = Some t.
Proof. intros Hi Hl. apply lookup_lt_is_Some_2. lia. Qed.

(** A complete set of tables is a well-formed identity mapping. *)
Lemma tables_inv_table_of s dir flags A n Ts i t :
  tables_inv s dir flags A n Ts → is_u8 flags → Ts !! Z.to_nat i = Some t → 0 <= i →
  table_of (ram s) dir i = t.
Proof.
  intros Hinv Hf Ht Hi. destruct (inv_pages _ _ _ _ _ _ Hinv) as (_ & _ & Hp).
  pose proof (inv_entry _ _ _ _ _ _ Hinv _ _ Ht) as E. rewrite Z2Nat.id in E by done.
  unfold table_of. rewrite E. apply entry_value; [|done].
  eapply Hp, list_elem_of_lookup_2, Ht.
Qed.

Lemma tables_inv_identity s dir flags A n Ts :
  tables_inv s dir flags A n Ts → is_u8 flags → length Ts = Z.to_nat 1024 →
  pt_wf (ram s) dir ∧ ∀ v, is_u32 v → pte (ram s) dir v = Z.lor (page_of v) flags.
Proof.
  intros Hinv Hf Hl. destruct (inv_pages _ _ _ _ _ _ Hinv) as (Hpd & Hnd & Hp). split; [split|].
  - apply (inv_bytes _ _ _ _ _ _ Hinv).
  - done.
  - intros i Hi. destruct (tables_inv_lookup Ts i Hi Hl) as [t Ht].
    rewrite (tables_inv_table_of _ _ _ _ _ _ _ _ Hinv Hf Ht) by lia.
    intros ->. apply Hnd. eapply list_elem_of_lookup_2, Ht.
  - intros i j Hi Hj. destruct (tables_inv_lookup Ts i Hi Hl) as [t Ht].
    destruct (tables_inv_lookup Ts j Hj Hl) as [t' Ht'].
    rewrite (tables_inv_table_of _ _ _ _ _ _ _ _ Hinv Hf Ht) by lia.
    rewrite (tables_inv_table_of _ _ _ _ _ _ _ _ Hinv Hf Ht') by lia.
    intros ->. pose proof (NoDup_lookup _ _ _ _ (inv_nodup _ _ _ _ _ _ Hinv) Ht Ht'). lia.
  - intros v Hv. destruct (indexes_range v Hv) as [H1 H2].
    destruct (tables_inv_lookup Ts _ H1 Hl) as [t Ht]. unfold pte.
    rewrite (tables_inv_table_of _ _ _ _ _ _ _ _ Hinv Hf Ht) by lia.
    rewrite (inv_ptes _ _ _ _ _ _ Hinv _ _ _ Ht H2), Z2Nat.id by lia. f_equal.
    unfold dir_index, table_index, page_of in *. page.
Qed.

(** Every entry of the directory is present. *)
Definition tables_present (m : memory) (dir : Z) : Prop :=
  ∀ i, 0 <= i < 1024 → Z.testbit (load32 m (dir + 4 * i)) 0 = true.

Lemma tables_inv_present s dir flags A n Ts :
  tables_inv s dir flags A n Ts → length Ts = Z.to_nat 1024 → Z.testbit flags 0 = true →
  tables_present (ram s) dir.
Proof.
  intros Hinv Hl Hf i Hi. destruct (tables_inv_lookup Ts i Hi Hl) as [t Ht].
  rewrite <- (Z2Nat.id i), (inv_entry _ _ _ _ _ _ Hinv _ _ Ht) by lia.
  by rewrite !Z.lor_spec, Hf, orb_true_r.
Qed.

(** ** Ownership of a directory *)

(** [chunk] is a directory whose tables are [Ts]; its pages are allocated on top
    of the allocations [A], and [n] blocks are left. *)
Record chunk_owned (s : pstate) (chunk dir : Z) (Ts : list Z) (A : gmap Z nat) (n : nat) : Prop := {
  co_chunk : chunks s !! chunk = Some dir;
  co_owns : kheap_owns (pmem s) (with_blocks (Ts ++ [dir; chunk]) A) n;
  co_nodup : NoDup (Ts ++ [dir; chunk]);
  co_fresh : Forall (λ t, A !! t = None) (Ts ++ [dir; chunk]);
  co_length : length Ts = Z.to_nat 1024;
  co_tables : ∀ j t, Ts !! j = Some t → table_of (ram (pmem s)) dir (Z.of_nat j) = t;
  co_wf : pt_wf (ram (pmem s)) dir
}.

(** The last step of [paging_new_4gb]: the chunk goes to a fresh block. *)
Lemma tables_inv_chunk k k' dir flags A n Ts chunk :
  tables_inv k dir flags (<[dir := 1%nat]> A) (S n) Ts → length Ts = Z.to_nat 1024 →
  kzalloc sizeof_paging_4gb_chunk k = Done (chunk, k') →
  with_blocks Ts (<[dir := 1%nat]> A) !! chunk = None →
  kheap_owns k' (<[chunk := 1%nat]> (with_blocks Ts (<[dir := 1%nat]> A))) n →
  tables_inv k' dir flags (<[dir := 1%nat]> (<[chunk := 1%nat]> A)) n Ts ∧
  A !! chunk = None ∧ chunk ≠ dir ∧ (chunk ∉ Ts) ∧ chunk ≠ 0.
Proof.
  intros Hinv Hlen E Hc Ho. destruct (inv_pages _ _ _ _ _ _ Hinv) as (Hpd & Hnd & Hpt).
  assert (chunk ∉ Ts) as Hnt by (intros Hin; by rewrite with_blocks_in in Hc).
  rewrite with_blocks_out in Hc by done. apply lookup_insert_None in Hc as [HA Hne].
  assert (is_page chunk ∧ 0 < chunk) as [Hpc Hpos].
  { split; [eapply owned_page|eapply kheap_owns_range]; try done; by rewrite lookup_insert_eq. }
  destruct (kzalloc_ram k sizeof_paging_4gb_chunk chunk k') as [Hram _]; [done|done|lia|].
  assert (∀ p b, is_page p → p ≠ chunk → 0 <= b < 1024 →
            load32 (ram k') (p + 4 * b) = load32 (ram k) (p + 4 * b)) as Hold.
  { intros p b Hp Hpc' Hb. rewrite Hram. apply load32_ext. intros a Ha. apply store_bytes_out.
    rewrite length_replicate. pose proof (pages_disjoint _ _ Hp Hpc Hpc').
    unfold sizeof_paging_4gb_chunk. lia. }
  destruct Hinv as [_ _ Hnodup Hfr Hb He Hpp]. split; [|auto with lia]. split.
  - by rewrite insert_insert_ne, <- with_blocks_insert by done.
  - by rewrite lookup_insert_eq.
  - done.
  - rewrite Forall_forall in *. intros t Ht. specialize (Hfr t Ht). simpl in Hfr.
    apply lookup_insert_None in Hfr as [H1 H2].
    rewrite lookup_insert_ne, lookup_insert_ne by (done || congruence). done.
  - intros a. rewrite Hram. apply store_bytes_u8; [done|]. by apply Forall_replicate.
  - intros j t Ht. pose proof (lookup_lt_Some _ _ _ Ht) as Hlt. rewrite <- (He j t Ht).
    apply Hold; done || lia.
  - intros j t b Ht Hr. rewrite <- (Hpp j t b Ht Hr). pose proof (list_elem_of_lookup_2 _ _ _ Ht).
    apply Hold; [by apply Hpt|congruence|done].
Qed.

Lemma paging_new_4gb_spec s A n flags :
  kheap_owns (pmem s) A (Z.to_nat 1026 + n) → is_u8 flags → (∀ a, is_u8 (ram (pmem s) a)) →
  ∃ chunk dir Ts s', paging_new_4gb flags s = Done (chunk, s') ∧
    chunk_owned s' chunk dir Ts A n ∧ A !! chunk = None ∧
    s' = set_chunks (<[chunk := dir]> (chunks s)) (set_pmem (pmem s') s) ∧
    (∀ v, is_u32 v → pte (ram (pmem s')) dir v = Z.lor (page_of v) flags) ∧
    (Z.testbit flags 0 = true → tables_present (ram (pmem s')) dir).
Proof.
  intros Ho Hf Hb.
  replace (Z.to_nat 1026 + n)%nat with (S (Z.to_nat 1024 + S n)) in Ho by lia.
  destruct (kzalloc_small (pmem s) A _ (4 * PAGING_TOTAL_ENTRIES_PER_TABLE) Ho) as (dir & k0 & E0 & Hd & Ho0); [done|].
  assert (0 < dir) by (eapply kheap_owns_range; [done|by rewrite lookup_insert_eq]).
  destruct (kzalloc_ram (pmem s) (4 * PAGING_TOTAL_ENTRIES_PER_TABLE) dir k0) as [Hram0 _]; [done|done|lia|].
  destruct (new_tables_spec (Z.to_nat 1024) k0 dir flags (<[dir := 1%nat]> A) (S n) [])
    as (k1 & Ts & E1 & Hinv & Hl); [split; simpl; try done|done|simpl; lia|].
  { by rewrite lookup_insert_eq. }
  { constructor. }
  { intros a. rewrite Hram0. apply store_bytes_u8; [done|]. by apply Forall_replicate. }
  destruct (kzalloc_small k1 _ _ sizeof_paging_4gb_chunk (inv_owns _ _ _ _ _ _ Hinv)) as (chunk & k2 & E2 & Hc & Ho2); [done|].
  destruct (tables_inv_chunk _ _ _ _ _ _ _ _ Hinv Hl E2 Hc Ho2) as (Hinv2 & HA & Hcd & Hct & Hc0).
  destruct (tables_inv_identity _ _ _ _ _ _ Hinv2 Hf Hl) as [Hwf Hpte].
  destruct (inv_pages _ _ _ _ _ _ Hinv2) as (_ & Hdt & _).
  exists chunk, dir, Ts, (set_chunks (<[chunk := dir]> (chunks s)) (set_pmem k2 s)).
  split_and!; [|split|done..|by apply (tables_inv_present _ _ _ _ _ _ Hinv2)].
  - unfold paging_new_4gb, in_kmem. erewrite bind_done; [|by apply zoom_done].
    erewrite bind_done; [|by apply zoom_done; apply E1].
    erewrite bind_done; [|by apply zoom_done; apply E2].
    rewrite (proj2 (Z.eqb_neq _ _) Hc0). done.
  - simpl. by rewrite lookup_insert_eq.
  - unfold with_blocks. rewrite foldr_app. apply (inv_owns _ _ _ _ _ _ Hinv2).
  - apply NoDup_app. split_and!; [apply (inv_nodup _ _ _ _ _ _ Hinv2)| |].
    + intros x Hx [->| ->%list_elem_of_singleton]%elem_of_cons; done.
    + apply NoDup_cons. split; [by intros ?%list_elem_of_singleton|apply NoDup_singleton].
  - apply Forall_app. split; [|by repeat constructor].
    eapply Forall_impl; [apply (inv_fresh _ _ _ _ _ _ Hinv)|]. intros t Ht. simpl in Ht.
    by apply lookup_insert_None in Ht as [? _].
  - done.
  - intros j t Ht. eapply tables_inv_table_of; [done|done| |lia]. by rewrite Nat2Z.id.
  - done.
Qed.

(** With 1026 free blocks [paging_new_4gb] succeeds and returns an identity
    mapping of the whole 4 GiB space: every address is mapped to its own page
    with the given flags and so translates to itself, the directory and its
    tables are 1025 distinct new pages, and the blocks already allocated stay
    allocated. *)
Theorem paging_new_4gb_identity s A n flags :
  kheap_owns (pmem s) A (Z.to_nat 1026 + n) → is_u8 flags → (∀ a, is_u8 (ram (pmem s) a)) →
  ∃ chunk dir Ts s', paging_new_4gb flags s = Done (chunk, s') ∧
    chunk_owned s' chunk dir Ts A n ∧
    ∀ v, is_u32 v →
      pte (ram (pmem s')) dir v = Z.lor (page_of v) flags ∧
      paging_get_physical_address (ram (pmem s')) dir v = v.
Proof.
  intros Ho Hf Hb.
  destruct (paging_new_4gb_spec s A n flags Ho Hf Hb) as (chunk & dir & Ts & s' & E & Hc & _ & _ & Hp & _).
  exists chunk, dir, Ts, s'. split_and!; [done..|]. intros v Hv. split; [auto|].
  rewrite paging_get_physical_address_spec, Hp by (apply Hc || done).
  destruct (indexes_page v Hv) as (_ & _ & Hpv). rewrite mask_entry by (done || range).
  unfold page_of. lia.
Qed.

Definition boot_pstate (L : layout) : pstate :=
  {| pmem := kmem_of L; cr3 := 0; paging_on := false; current_directory := 0; chunks := ∅ |}.

Lemma paging_new_4gb_identity_witness :
  ∃ chunk dir Ts s', paging_new_4gb 7 (boot_pstate (replicate (Z.to_nat 1026 + 4) Free)) = Done (chunk, s') ∧
    chunk_owned s' chunk dir Ts ∅ 4 ∧
    ∀ v, is_u32 v →
      pte (ram (pmem s')) dir v = Z.lor (page_of v) 7 ∧
      paging_get_physical_address (ram (pmem s')) dir v = v.
Proof.
  apply (paging_new_4gb_identity (boot_pstate (replicate (Z.to_nat 1026 + 4) Free)) ∅ 4 7).
  - apply boot_owns. lia.
  - range.
  - intros a. simpl. range.
Defined.

(** ** Memory that keeps the tables *)

(** A memory that agrees with [m] on the directory and the tables. *)
Definition same_tables (m m' : memory) (dir : Z) : Prop :=
  (∀ a, dir <= a < dir + 4096 → m' a = m a) ∧
  (∀ i a, 0 <= i < 1024 → table_of m dir i <= a < table_of m dir i + 4096 → m' a = m a).

Lemma same_tables_word m m' dir i : same_tables m m' dir → 0 <= i < 1024 →
  load32 m' (dir + 4 * i) = load32 m (dir + 4 * i).
Proof. intros [Hd _] Hi. apply load32_ext. intros a Ha. apply Hd. lia. Qed.

Lemma same_tables_of m m' dir i : same_tables m m' dir → 0 <= i < 1024 →
  table_of m' dir i = table_of m dir i.
Proof. intros Hs Hi. unfold table_of. by rewrite (same_tables_word m m'). Qed.

Lemma same_tables_pte m m' dir v : same_tables m m' dir → is_u32 v → pte m' dir v = pte m dir v.
Proof.
  intros Hs Hv. destruct (indexes_range v Hv) as [H1 H2]. unfold pte. rewrite (same_tables_of m m') by done.
  apply load32_ext. intros a Ha. apply (proj2 Hs (dir_index v)); [done|lia].
Qed.

Lemma same_tables_wf m m' dir : same_tables m m' dir → (∀ a, is_u8 (m' a)) → pt_wf m dir → pt_wf m' dir.
Proof.
  intros Hs Hb [_ Hd Ht Hi]. split; [done|done|..].
  - intros i Hr. rewrite (same_tables_of m m') by done. auto.
  - intros i j Hri Hrj. rewrite !(same_tables_of m m') by done. auto.
Qed.

(** The pages of a directory are allocated blocks. *)
Lemma chunk_owned_pages s chunk dir Ts A n :
  chunk_owned s chunk dir Ts A n →
  let A' := with_blocks (Ts ++ [dir; chunk]) A in
  A' !! dir = Some 1%nat ∧ ∀ i, 0 <= i < 1024 → A' !! table_of (ram (pmem s)) dir i = Some 1%nat.
Proof.
  intros Hc A'. split.
  - apply with_blocks_in, elem_of_app. right. apply list_elem_of_here.
  - intros i Hi. destruct (tables_inv_lookup Ts i Hi (co_length _ _ _ _ _ _ Hc)) as [t Ht].
    rewrite <- (Z2Nat.id i), (co_tables _ _ _ _ _ _ Hc _ _ Ht) by lia.
    apply with_blocks_in, elem_of_app. left. by eapply list_elem_of_lookup_2.
Qed.

(** A new allocation beside a directory. *)
Lemma chunk_owned_alloc s k chunk dir Ts A n n' size b p :
  chunk_owned s chunk dir Ts A n →
  fresh_block (pmem s) k (with_blocks (Ts ++ [dir; chunk]) A) n' size b p →
  size <= Z.of_nat b * VANA_HEAP_BLOCK_SIZE →
  chunk_owned (set_pmem k s) chunk dir Ts (<[p := b]> A) n' ∧
  same_tables (ram (pmem s)) (ram k) dir ∧ A !! p = None.
Proof.
  intros Hc Hf Hsz. destruct (chunk_owned_pages _ _ _ _ _ _ Hc) as [Hd Ht].
  pose proof (fb_new _ _ _ _ _ _ _ Hf) as [Hnin HA]%with_blocks_fresh.
  assert (same_tables (ram (pmem s)) (ram k) dir) as Hs.
  { split.
    - intros a Ha. rewrite (fb_ram _ _ _ _ _ _ _ Hf).
      pose proof (fb_disjoint _ _ _ _ _ _ _ Hf _ _ Hd) as Hdis. unfold VANA_HEAP_BLOCK_SIZE in *.
      by rewrite decide_False by lia.
    - intros i a Hi Ha. rewrite (fb_ram _ _ _ _ _ _ _ Hf).
      pose proof (fb_disjoint _ _ _ _ _ _ _ Hf _ _ (Ht i Hi)) as Hdis. unfold VANA_HEAP_BLOCK_SIZE in *.
      by rewrite decide_False by lia. }
  split_and!; [|done|done]. destruct Hc as [H1 H2 H3 H4 H5 H6 H7]. split; try done.
  - rewrite <- with_blocks_insert by done. apply Hf.
  - rewrite Forall_forall in *. intros t Htt. rewrite lookup_insert_ne; [auto|]. intros ->. done.
  - intros j t Hj. cbn. rewrite (same_tables_of (ram (pmem s))); [auto|done|].
    apply lookup_lt_Some in Hj. lia.
  - apply (same_tables_wf (ram (pmem s))); [done| |done]. intros a. cbn. rewrite (fb_ram _ _ _ _ _ _ _ Hf).
    destruct (decide _); [range|apply H7].
Qed.

(** A change of memory outside the pages of a directory. *)
Lemma chunk_owned_ram s m' chunk dir Ts A n :
  chunk_owned s chunk dir Ts A n → same_tables (ram (pmem s)) m' dir → (∀ a, is_u8 (m' a)) →
  chunk_owned (with_ram m' s) chunk dir Ts A n.
Proof.
  intros [H1 H2 H3 H4 H5 H6 H7] Hs Hb. split; try done.
  - intros j t Hj. cbn. rewrite (same_tables_of (ram (pmem s))); [auto|done|]. apply lookup_lt_Some in Hj. lia.
  - by apply (same_tables_wf (ram (pmem s))).
Qed.

(** Giving back an allocation beside a directory. *)
Lemma chunk_owned_free s chunk dir Ts A n b p :
  chunk_owned s chunk dir Ts A n → A !! p = Some b →
  ∃ k, kfree p (pmem s) = Done (tt, k) ∧ chunk_owned (set_pmem k s) chunk dir Ts (delete p A) (n + b) ∧
       ram k = ram (pmem s) ∧ console k = console (pmem s).
Proof.
  intros [H1 H2 H3 H4 H5 H6 H7] HA. rewrite Forall_forall in H4.
  assert (p ∉ Ts ++ [dir; chunk]) as Hp by (intros Hin; specialize (H4 p Hin); simpl in H4; congruence).
  destruct (kheap_release (pmem s) _ n p b H2) as (k & E & Ho & Hr & Hcon); [by rewrite with_blocks_out|].
  exists k. split_and!; try done. split; try done.
  - by rewrite with_blocks_delete in Ho.
  - rewrite Forall_forall. intros t Ht. rewrite lookup_delete_ne; [auto|]. intros ->. done.
  - cbn. by rewrite Hr.
  - cbn. by rewrite Hr.
Qed.

(** ** Release of a directory *)

(** Mapping pages does not change what a directory owns. *)
Lemma chunk_owned_mapped s m' chunk dir Ts A n virt phys len flags :
  chunk_owned s chunk dir Ts A n → mapped (ram (pmem s)) m' dir virt phys len flags →
  chunk_owned (with_ram m' s) chunk dir Ts A n.
Proof.
  intros [H1 H2 H3 H4 H5 H6 H7] [M1 M2 M3 M4]. split; try done.
  intros j t Ht. cbn [with_ram pmem set_pmem ram set_ram]. rewrite M3; [auto|].
  apply lookup_lt_Some in Ht. lia.
Qed.

Lemma kfree_page k Ts t A n :
  kheap_owns k (with_blocks (t :: Ts) A) n → t ∉ Ts → A !! t = None →
  ∃ k', kfree t k = Done (tt, k') ∧ kheap_owns k' (with_blocks Ts A) (n + 1) ∧ ram k' = ram k.
Proof.
  intros Ho Ht HA. destruct (kheap_release k _ n t 1 Ho) as (k' & E & Ho' & Hr & _).
  { simpl. by rewrite lookup_insert_eq. }
  exists k'. split_and!; [done| |done]. simpl in Ho'.
  by rewrite delete_insert_id in Ho' by (by rewrite with_blocks_out).
Qed.

Lemma free_tables_spec Ts s chunk dir P A n i :
  chunks s !! chunk = Some dir → kheap_owns (pmem s) (with_blocks (Ts ++ P) A) n →
  NoDup (Ts ++ P) → Forall (λ t, A !! t = None) (Ts ++ P) → is_page dir →
  0 <= i → i + Z.of_nat (length Ts) <= 1024 →
  (∀ j t, Ts !! j = Some t → table_of (ram (pmem s)) dir (i + Z.of_nat j) = t) →
  ∃ k, free_tables (length Ts) chunk i s = Done (tt, set_pmem k s) ∧
       kheap_owns k (with_blocks P A) (n + length Ts) ∧ ram k = ram (pmem s).
Proof.
  revert s n i. induction Ts as [|t Ts IH]; intros s n i Hc Ho Hnd HA Hd Hi Hl Ht.
  { exists (pmem s). split_and!; [by destruct s|by rewrite Nat.add_0_r|done]. }
  simpl in Hnd, HA, Hl. apply NoDup_cons in Hnd as [Hnt Hnd].
  apply Forall_cons in HA as [HAt HA].
  destruct (kfree_page (pmem s) (Ts ++ P) t A n Ho Hnt HAt) as (k1 & E1 & Ho1 & Hr1).
  cbn [length free_tables].
  erewrite bind_done; [|unfold directory_entry; rewrite Hc; reflexivity].
  erewrite bind_done; [|reflexivity]. rewrite page_word by (done || lia).
  pose proof (Ht O t eq_refl) as Et. change (Z.of_nat 0) with 0 in Et. rewrite Z.add_0_r in Et.
  fold (table_of (ram (pmem s)) dir i). rewrite Et.
  erewrite bind_done; [|unfold in_kmem; apply zoom_done, E1].
  destruct (IH (set_pmem k1 s) (n + 1)%nat (i + 1)) as (k & E & Ho' & Hr'); [done..|lia|lia| |].
  { intros j t' Hj. cbn [pmem set_pmem]. rewrite Hr1, <- Z.add_assoc.
    replace (1 + Z.of_nat j) with (Z.of_nat (S j)) by lia. by apply Ht. }
  exists k. split_and!; [by rewrite E; destruct s| |simpl in Hr'; congruence].
  by replace (n + S (length Ts))%nat with (n + 1 + length Ts)%nat by lia.
Qed.

Lemma paging_free_4gb_spec s chunk dir Ts A n :
  chunk_owned s chunk dir Ts A n →
  ∃ k, paging_free_4gb chunk s = Done (tt, set_chunks (delete chunk (chunks s)) (set_pmem k s)) ∧
       kheap_owns k A (n + Z.to_nat 1026) ∧ ram k = ram (pmem s).
Proof.
  intros [Hc Ho Hnd HA Hl Ht Hwf].
  destruct (free_tables_spec Ts s chunk dir [dir; chunk] A n 0) as (k1 & E1 & Ho1 & Hr1);
    [done|done|done|done|apply Hwf|done|lia|done|].
  apply NoDup_app in Hnd as (_ & _ & Hnd). apply NoDup_cons in Hnd as [Hdc _].
  apply Forall_app in HA as [_ HA]. apply Forall_cons in HA as [HAd HA].
  apply Forall_cons in HA as [HAc _].
  destruct (kfree_page k1 [chunk] dir A _ Ho1) as (k2 & E2 & Ho2 & Hr2); [done..|].
  destruct (kfree_page k2 [] chunk A _ Ho2) as (k3 & E3 & Ho3 & Hr3); [by intros ?%elem_of_nil|done|].
  exists k3. split_and!.
  - unfold paging_free_4gb, in_kmem.
    replace (Z.to_nat PAGING_TOTAL_ENTRIES_PER_TABLE) with (length Ts) by done.
    erewrite bind_done; [|apply E1].
    erewrite bind_done; [|unfold directory_entry; cbn; rewrite Hc; reflexivity].
    erewrite bind_done; [|apply zoom_done, E2]. erewrite bind_done; [|apply zoom_done, E3].
    by destruct s.
  - simpl in *. replace (n + Z.to_nat 1026)%nat with (n + length Ts + 1 + 1)%nat by lia. done.
  - simpl. congruence.
Qed.

(** [paging_free_4gb] gives back exactly the 1026 blocks of a directory,
    also after pages have been mapped in it: the other allocations survive, the
    heap has its blocks again and the chunk is gone. *)
Theorem paging_free_4gb_releases s chunk dir Ts A n :
  chunk_owned s chunk dir Ts A n →
  ∃ s', paging_free_4gb chunk s = Done (tt, s') ∧
        kheap_owns (pmem s') A (n + Z.to_nat 1026) ∧
        chunks s' = delete chunk (chunks s) ∧ ram (pmem s') = ram (pmem s).
Proof.
  intros Hc. destruct (paging_free_4gb_spec s chunk dir Ts A n Hc) as (k & E & Ho & Hr). eauto.
Qed.

Lemma paging_free_4gb_releases_witness :
  ∃ s chunk s', paging_free_4gb chunk s = Done (tt, s') ∧
    kheap_owns (pmem s') ∅ (4 + Z.to_nat 1026) ∧ chunks s' = delete chunk (chunks s) ∧
    ram (pmem s') = ram (pmem s).
Proof.
  destruct (paging_new_4gb_spec (boot_pstate (replicate (Z.to_nat 1026 + 4) Free)) ∅ 4 7)
    as (chunk & dir & Ts & s & _ & Hc & _).
  - apply boot_owns. lia.
  - range.
  - intros a. simpl. range.
  - exists s, chunk. apply (paging_free_4gb_releases s chunk dir Ts ∅ 4 Hc).
Defined.

Lemma new_chunk_example : ∃ s chunk dir, chunks s !! chunk = Some dir ∧ pt_wf (ram (pmem s)) dir.
Proof.
  destruct (paging_new_4gb_spec (boot_pstate (replicate (Z.to_nat 1026 + 4) Free)) ∅ 4 7)
    as (chunk & dir & Ts & s & _ & Hc & _).
  - apply boot_owns. lia.
  - range.
  - intros a. simpl. range.
  - exists s, chunk, dir. split; apply Hc.
Qed.

Lemma paging_map_to_correct_witness :
  ∃ s chunk dir m', paging_map_to chunk 0x400000 0x1000 0x3000 7 s = Done (0, with_ram m' s) ∧
    mapped (ram (pmem s)) m' dir 0x400000 0x1000 0x2000 7.
Proof.
  destruct new_chunk_example as (s & chunk & dir & Hc & Hwf). exists s, chunk, dir.
  exact (paging_map_to_correct s chunk dir 0x400000 0x1000 0x3000 7 Hc Hwf
    ltac:(range) ltac:(range) ltac:(range) ltac:(done) ltac:(done)).
Defined.

Lemma paging_translation_after_map_witness :
  ∃ s chunk dir s', paging_map_to chunk 0x400000 0x1000 0x3000 7 s = Done (0, s') ∧
    ∀ w, is_u32 w →
      paging_get_physical_address (ram (pmem s')) dir w =
      if decide (0x400000 <= w < 0x400000 + (0x3000 - 0x1000)) then 0x1000 + (w - 0x400000)
      else paging_get_physical_address (ram (pmem s)) dir w.
Proof.
  destruct new_chunk_example as (s & chunk & dir & Hc & Hwf). exists s, chunk, dir.
  apply (paging_translation_after_map s chunk dir 0x400000 0x1000 0x3000 7 Hc Hwf);
    first [by apply (bool_decide_unpack _) | lia].
Defined.
