(* ===== verification/Idt.v ===== *)
(** * Port I/O, the PIC and the interrupt tables

    Models src/src/io/io.asm (as the class [Ports]: the routines execute one
    [in] or [out] instruction, what the device does is a parameter),
    src/src/pic/pic.c and the tables of src/src/idt/idt.c: gate descriptors,
    interrupt callbacks and system call commands.  A function pointer stored in
    a table is a constructor of [callback] or [command]; the dispatchers that
    call through the tables are in the file Kernel. *)

From S2P Require Import Prelude Config.
Local Open Scope Z_scope.

(** ** Ports *)

Class Ports (D : Type) := {
  port_out8 : Z → Z → D → D;
  port_in8 : Z → D → Z * D;
  port_in16 : Z → D → Z * D
}.

Section io.
Context {D : Type} `{Ports D}.

Definition outb (port val : Z) : M D unit := λ d, Done (tt, port_out8 (u16 port) (u8 val) d).
Definition insb (port : Z) : M D Z := λ d, let '(v, d) := port_in8 (u16 port) d in Done (u8 v, d).
Definition insw (port : Z) : M D Z := λ d, let '(v, d) := port_in16 (u16 port) d in Done (u16 v, d).

(** ** pic.c *)

Definition PIC1_COMMAND : Z := 0x20.
Definition PIC2_COMMAND : Z := 0xA0.
Definition PIC_EOI : Z := 0x20.

Definition pic_send_eoi (irq : Z) : M D unit :=
  (if 8 <=? irq then outb PIC2_COMMAND PIC_EOI else mret tt);;
  outb PIC1_COMMAND PIC_EOI.

Definition interrupt_ignore : M D unit := outb 0xA0 0x20;; outb 0x20 0x20.
End io.

(** A device that records what is written and answers reads from a list. *)
Record port_trace := { written : list (Z * Z); pending : list Z }.

#[export] Instance trace_ports : Ports port_trace := {
  port_out8 p v d := {| written := written d ++ [(p, v)]; pending := pending d |};
  port_in8 p d := (default 0 (head (pending d)),
                   {| written := written d; pending := tail (pending d) |});
  port_in16 p d := (default 0 (head (pending d)),
                    {| written := written d; pending := tail (pending d) |})
}.

(** ** Gate descriptors *)

Definition IDT_TOTAL_DESCRIPTORS : Z := 256.
Definition GDT_KERNEL_CODE_SELECTOR : Z := 0x08.
Definition GDT_KERNEL_DATA_SELECTOR : Z := 0x10.
Definition GDT_TSS_SELECTOR : Z := 0x28.

Definition IDT_DESC_KERNEL_INTERRUPT_GATE : Z := Z.lor (Z.lor 0x80 0x00) 0x0E.
Definition IDT_DESC_USER_INTERRUPT_GATE : Z := Z.lor (Z.lor 0x80 0x60) 0x0E.

Record idt_desc := {
  offset_1 : Z;
  selector : Z;
  zero : Z;
  type_attr : Z;
  offset_2 : Z
}.

Record idtr_desc := { limit : Z; base : Z }.

(** The functions that the sources register. *)
Inductive callback :=
| NullCallback
| idt_handle_exception
| CallbackIgnore
| classic_keyboard_handler.

Inductive command :=
| NullCommand
| isr80h_command0_sum
| isr80h_command1_print
| isr80h_command2_getkey
| isr80h_command3_putchar
| isr80h_command4_malloc
| isr80h_command5_free
| isr80h_command6_process_load_start
| isr80h_command7_invoke_system_command
| isr80h_command8_get_program_arguments
| isr80h_command9_exit.

#[export] Instance callback_eq_dec : EqDecision callback.
Proof. solve_decision. Defined.
#[export] Instance command_eq_dec : EqDecision command.
Proof. solve_decision. Defined.

Record idt_state := {
  idt_descriptors : list idt_desc;
  idtr_descriptor : idtr_desc;
  interrupt_callbacks : list callback;
  isr80h_commands : list command;
  idt_loaded : option idtr_desc
}.

Definition set_descriptors (l : list idt_desc) (s : idt_state) : idt_state :=
  {| idt_descriptors := l; idtr_descriptor := idtr_descriptor s;
     interrupt_callbacks := interrupt_callbacks s; isr80h_commands := isr80h_commands s;
     idt_loaded := idt_loaded s |}.
Definition set_callbacks (l : list callback) (s : idt_state) : idt_state :=
  {| idt_descriptors := idt_descriptors s; idtr_descriptor := idtr_descriptor s;
     interrupt_callbacks := l; isr80h_commands := isr80h_commands s;
     idt_loaded := idt_loaded s |}.
Definition set_commands (l : list command) (s : idt_state) : idt_state :=
  {| idt_descriptors := idt_descriptors s; idtr_descriptor := idtr_descriptor s;
     interrupt_callbacks := interrupt_callbacks s; isr80h_commands := l;
     idt_loaded := idt_loaded s |}.
Definition set_idtr (r : idtr_desc) (s : idt_state) : idt_state :=
  {| idt_descriptors := idt_descriptors s; idtr_descriptor := r;
     interrupt_callbacks := interrupt_callbacks s; isr80h_commands := isr80h_commands s;
     idt_loaded := idt_loaded s |}.
Definition set_loaded (r : idtr_desc) (s : idt_state) : idt_state :=
  {| idt_descriptors := idt_descriptors s; idtr_descriptor := idtr_descriptor s;
     interrupt_callbacks := interrupt_callbacks s; isr80h_commands := isr80h_commands s;
     idt_loaded := Some r |}.

(** The descriptor [idt_set] writes. *)
Definition gate (address attr : Z) : idt_desc :=
  {| offset_1 := Z.land (u32 address) 0xFFFF; selector := GDT_KERNEL_CODE_SELECTOR; zero := 0;
     type_attr := u8 attr; offset_2 := Z.shiftr (u32 address) 16 |}.

Definition idt_set (interrupt_no address attr : Z) : M idt_state unit := λ s,
  match (idt_descriptors s).[interrupt_no <- gate address attr] with
  | Some l => Done (tt, set_descriptors l s)
  | None => Undef
  end.

(** The return value is 0, or -1 for an invalid vector. *)
Definition idt_register_interrupt_callback (interrupt : Z) (cb : callback) : M idt_state Z := λ s,
  if (interrupt <? 0) || (IDT_TOTAL_DESCRIPTORS <=? interrupt) then Done (-1, s)
  else match (interrupt_callbacks s).[interrupt <- cb] with
       | Some l => Done (0, set_callbacks l s)
       | None => Undef
       end.

Definition isr80h_register_command (command_id : Z) (c : command) : M idt_state unit := λ s,
  if (command_id <? 0) || (VANA_MAX_ISR80H_COMMANDS <=? command_id) then Panic
  else match (isr80h_commands s).[command_id] with
       | None => Undef
       | Some old =>
           if decide (old = NullCommand) then
             match (isr80h_commands s).[command_id <- c] with
             | Some l => Done (tt, set_commands l s)
             | None => Undef
             end
           else Panic
       end.

(** ** idt_init *)

Section idt_init.
(** The addresses of the assembly entry points and of the table itself. *)
Context (interrupt_pointer_table : Z → Z) (isr80h_wrapper idt_descriptors_addr : Z).

Fixpoint set_gates (n : nat) (i : Z) : M idt_state unit :=
  match n with
  | O => mret tt
  | S n => idt_set i (interrupt_pointer_table i) IDT_DESC_KERNEL_INTERRUPT_GATE;; set_gates n (i + 1)
  end.

Fixpoint register_exceptions (n : nat) (i : Z) : M idt_state unit :=
  match n with
  | O => mret tt
  | S n => idt_register_interrupt_callback i idt_handle_exception;; register_exceptions n (i + 1)
  end.

Definition null_gate : idt_desc :=
  {| offset_1 := 0; selector := 0; zero := 0; type_attr := 0; offset_2 := 0 |}.

Definition idt_init : M idt_state unit :=
  modify (λ s, set_descriptors (replicate (length (idt_descriptors s)) null_gate) s);;
  modify (set_idtr {| limit := 256 * 8 - 1; base := u32 idt_descriptors_addr |});;
  set_gates (Z.to_nat IDT_TOTAL_DESCRIPTORS) 0;;
  idt_set 0x80 isr80h_wrapper IDT_DESC_USER_INTERRUPT_GATE;;
  modify (λ s, set_callbacks (replicate (length (interrupt_callbacks s)) NullCallback) s);;
  modify (λ s, set_loaded (idtr_descriptor s) s);;
  register_exceptions 32 0;;
  idt_register_interrupt_callback 0x27 CallbackIgnore;;
  idt_register_interrupt_callback 0x2E CallbackIgnore;;
  idt_register_interrupt_callback 0x2F CallbackIgnore;;
  mret tt.
End idt_init.

(** isr80h.c *)
Definition isr80h_register_commands : M idt_state unit :=
  isr80h_register_command 0 isr80h_command0_sum;;
  isr80h_register_command 1 isr80h_command1_print;;
  isr80h_register_command 2 isr80h_command2_getkey;;
  isr80h_register_command 3 isr80h_command3_putchar;;
  isr80h_register_command 4 isr80h_command4_malloc;;
  isr80h_register_command 5 isr80h_command5_free;;
  isr80h_register_command 6 isr80h_command6_process_load_start;;
  isr80h_register_command 7 isr80h_command7_invoke_system_command;;
  isr80h_register_command 8 isr80h_command8_get_program_arguments;;
  isr80h_register_command 9 isr80h_command9_exit.

(** ** Properties *)

(** The handler address the CPU assembles from a gate. *)
Definition gate_offset (d : idt_desc) : Z := offset_2 d * 2 ^ 16 + offset_1 d.

Lemma gate_roundtrip address attr : gate_offset (gate address attr) = u32 address.
Proof.
  unfold gate_offset, gate; simpl. pose proof (u32_range address) as H. unfold is_u32 in H.
  change 0xFFFF with (Z.ones 16). rewrite Z.land_ones, Z.shiftr_div_pow2 by lia. euclid.
Qed.

Record idt_wf (s : idt_state) : Prop := {
  wf_descs : length (idt_descriptors s) = Z.to_nat IDT_TOTAL_DESCRIPTORS;
  wf_callbacks : length (interrupt_callbacks s) = Z.to_nat IDT_TOTAL_DESCRIPTORS;
  wf_commands : length (isr80h_commands s) = Z.to_nat VANA_MAX_ISR80H_COMMANDS
}.

Lemma set_gates_spec ipt n A B s :
  idt_descriptors s = A ++ B → (n ≤ length B)%nat →
  set_gates ipt n (Z.of_nat (length A)) s =
  Done (tt, set_descriptors
    (A ++ ((λ i, gate (ipt i) IDT_DESC_KERNEL_INTERRUPT_GATE) <$> seqZ (Z.of_nat (length A)) (Z.of_nat n))
       ++ drop n B) s).
Proof.
  revert A B s. induction n as [|n IH]; intros A B s Hs Hn.
  { simpl. rewrite drop_0, <- Hs. by destruct s. }
  destruct B as [|b B]; simpl in Hn; [lia|]. cbn [set_gates].
  erewrite bind_done; [|unfold idt_set; rewrite Hs, upd_app; reflexivity].
  set (g := gate _ _). replace (Z.of_nat (length A) + 1) with (Z.of_nat (length (A ++ [g])))
    by (rewrite length_app; simpl; lia).
  rewrite (IH (A ++ [g]) B); [|by cbn; rewrite <- app_assoc|lia].
  rewrite (seqZ_cons _ (Z.of_nat (S n))) by lia. rewrite fmap_cons, <- app_assoc.
  replace (Z.pred (Z.of_nat (S n))) with (Z.of_nat n) by lia. rewrite length_app.
  replace (Z.of_nat (length A + length [g])) with (Z.succ (Z.of_nat (length A))) by (simpl; lia).
  by destruct s.
Qed.

Lemma register_exceptions_spec n i s : idt_wf s → 0 <= i → i + Z.of_nat n <= 256 →
  ∃ l, register_exceptions n i s = Done (tt, set_callbacks l s) ∧
    length l = Z.to_nat IDT_TOTAL_DESCRIPTORS ∧
    ∀ j, l.[j] = if decide (i <= j < i + Z.of_nat n) then Some idt_handle_exception
                 else (interrupt_callbacks s).[j].
Proof.
  intros Hwf. revert i s Hwf. induction n as [|n IH]; intros i s Hwf Hi Hn.
  { exists (interrupt_callbacks s). split_and!; [by destruct s|apply Hwf|].
    intros j. by rewrite decide_False by lia. }
  cbn [register_exceptions]. unfold idt_register_interrupt_callback at 1, mbind, M_bind.
  destruct (Z.ltb_spec i 0), (Z.leb_spec IDT_TOTAL_DESCRIPTORS i); unfold IDT_TOTAL_DESCRIPTORS in *; try lia.
  simpl. destruct Hwf as [H1 H2 H3].
  destruct ((interrupt_callbacks s).[i <- idt_handle_exception]) as [l1|] eqn:E.
  2:{ rewrite upd_Some in E by (rewrite H2; unfold IDT_TOTAL_DESCRIPTORS; lia). done. }
  destruct (IH (i + 1) (set_callbacks l1 s)) as (l & E' & Hl & Hj); [|lia..|].
  { split; [done| |done]. simpl. by rewrite (upd_length _ _ _ _ E). }
  exists l. split_and!; [by rewrite E'; destruct s|done|].
  intros j. rewrite Hj. simpl. destruct (decide (i + 1 <= j < i + 1 + Z.of_nat n)).
  { by rewrite decide_True by lia. }
  destruct (decide (j = i)) as [->|Hne].
  - rewrite decide_True by lia. by apply upd_idx_eq in E.
  - rewrite decide_False by lia. by apply upd_idx_ne with (j := j) in E.
Qed.

Lemma idx_gates ipt n i : 0 <= i < n →
  ((λ i, gate (ipt i) IDT_DESC_KERNEL_INTERRUPT_GATE) <$> seqZ 0 n).[i] =
  Some (gate (ipt i) IDT_DESC_KERNEL_INTERRUPT_GATE).
Proof.
  intros H. replace i with (Z.of_nat (Z.to_nat i)) by lia.
  rewrite idx_nat, list_lookup_fmap, lookup_seqZ_lt by lia. done.
Qed.

Lemma idt_register_ok i cb s : idt_wf s → 0 <= i < 256 →
  ∃ l, idt_register_interrupt_callback i cb s = Done (0, set_callbacks l s) ∧
    length l = Z.to_nat IDT_TOTAL_DESCRIPTORS ∧
    ∀ j, l.[j] = if decide (j = i) then Some cb else (interrupt_callbacks s).[j].
Proof.
  intros [H1 H2 H3] Hi. unfold idt_register_interrupt_callback.
  destruct (Z.ltb_spec i 0), (Z.leb_spec IDT_TOTAL_DESCRIPTORS i); unfold IDT_TOTAL_DESCRIPTORS in *; try lia.
  simpl. destruct ((interrupt_callbacks s).[i <- cb]) as [l|] eqn:E.
  2:{ rewrite upd_Some in E by (rewrite H2; lia). done. }
  exists l. split_and!; [done|by rewrite (upd_length _ _ _ _ E)|].
  intros j. destruct (decide (j = i)) as [->|Hne]; [by apply upd_idx_eq in E|].
  by apply upd_idx_ne with (j := j) in E.
Qed.

Lemma idt_wf_callbacks l s : idt_wf s → length l = Z.to_nat IDT_TOTAL_DESCRIPTORS →
  idt_wf (set_callbacks l s).
Proof. intros [? ? ?] ?. by split. Qed.

(** The vector is handled by [cb] after [idt_init]. *)
Definition initial_callback (v : Z) : callback :=
  if (0 <=? v) && (v <=? 31) then idt_handle_exception
  else if (v =? 0x27) || (v =? 0x2E) || (v =? 0x2F) then CallbackIgnore
  else NullCallback.

Section idt_init_spec.
Context (ipt : Z → Z) (wrapper addr : Z).

(** The first half of [idt_init]: the descriptor table. *)
Lemma idt_gates_spec s : idt_wf s →
  ∃ l, (∀ k : M idt_state unit,
         (modify (λ s, set_descriptors (replicate (length (idt_descriptors s)) null_gate) s);;
          modify (set_idtr {| limit := 256 * 8 - 1; base := u32 addr |});;
          set_gates ipt (Z.to_nat IDT_TOTAL_DESCRIPTORS) 0;;
          idt_set 0x80 wrapper IDT_DESC_USER_INTERRUPT_GATE;; k) s =
         k (set_descriptors l (set_idtr {| limit := 256 * 8 - 1; base := u32 addr |} s))) ∧
    length l = Z.to_nat IDT_TOTAL_DESCRIPTORS ∧
    ∀ v, 0 <= v < 256 → l.[v] = Some (if v =? 0x80 then gate wrapper IDT_DESC_USER_INTERRUPT_GATE
                                      else gate (ipt v) IDT_DESC_KERNEL_INTERRUPT_GATE).
Proof.
  intros [H1 H2 H3]. set (gs := (λ i, gate (ipt i) IDT_DESC_KERNEL_INTERRUPT_GATE) <$> seqZ 0 256).
  assert (length gs = Z.to_nat IDT_TOTAL_DESCRIPTORS) as Hl.
  { unfold gs. by rewrite length_fmap, length_seqZ. }
  destruct (gs.[0x80 <- gate wrapper IDT_DESC_USER_INTERRUPT_GATE]) as [l|] eqn:E.
  2:{ rewrite upd_Some in E by (rewrite Hl; unfold IDT_TOTAL_DESCRIPTORS; lia). done. }
  exists l. split_and!; [|by rewrite (upd_length _ _ _ _ E)|].
  - intros k. erewrite bind_done; [|reflexivity]. erewrite bind_done; [|reflexivity].
    set (s1 := set_idtr _ _).
    pose proof (set_gates_spec ipt (Z.to_nat IDT_TOTAL_DESCRIPTORS) [] (idt_descriptors s1) s1 eq_refl) as E1.
    rewrite drop_ge, app_nil_l, app_nil_r in E1; unfold s1 in *; clear s1;
      cbn [idt_descriptors set_idtr set_descriptors] in *; rewrite ?length_replicate in *; [|lia..].
    erewrite bind_done; [|apply E1; lia]. rewrite Z2Nat.id by done.
    erewrite bind_done; [reflexivity|]. unfold idt_set.
    cbn [idt_descriptors set_idtr set_descriptors].
    change (Z.of_nat (length [])) with 0. change IDT_TOTAL_DESCRIPTORS with 256.
    fold gs. by rewrite E.
  - intros v Hv. destruct (Z.eqb_spec v 0x80) as [->|Hne]; [by apply upd_idx_eq in E|].
    apply upd_idx_ne with (j := v) in E; [|done]. rewrite E. by apply idx_gates.
Qed.

(** [idt_init] fills all 256 gates: the CPU finds the assembly stub of each
    vector behind a ring 0 gate, and the system call entry behind the one ring
    3 gate, vector 0x80; the exceptions terminate the process, IRQ 7, 14 and 15
    are ignored, every other vector has no callback; the table is loaded with
    its address and its size, and the system call commands are untouched. *)
Theorem idt_init_tables s : idt_wf s →
  ∃ s', idt_init ipt wrapper addr s = Done (tt, s') ∧ idt_wf s' ∧
    (∀ v, 0 <= v < 256 → ∃ d, (idt_descriptors s').[v] = Some d ∧
       gate_offset d = u32 (if v =? 0x80 then wrapper else ipt v) ∧
       selector d = GDT_KERNEL_CODE_SELECTOR ∧
       type_attr d = if v =? 0x80 then 0xEE else 0x8E) ∧
    (∀ v, 0 <= v < 256 → (interrupt_callbacks s').[v] = Some (initial_callback v)) ∧
    isr80h_commands s' = isr80h_commands s ∧
    idt_loaded s' = Some {| limit := 2047; base := u32 addr |}.
Proof.
  intros Hwf. destruct (idt_gates_spec s Hwf) as (l & E1 & Hl & Hg).
  destruct Hwf as [H1 H2 H3]. unfold idt_init.
  set (s1 := set_descriptors l (set_idtr {| limit := 256 * 8 - 1; base := u32 addr |} s)) in *.
  set (s2 := set_loaded (idtr_descriptor s1) (set_callbacks (replicate (length (interrupt_callbacks s)) NullCallback) s1)).
  assert (idt_wf s2) as Hwf2 by (split; simpl; rewrite ?length_replicate; done).
  destruct (register_exceptions_spec 32 0 s2 Hwf2) as (l3 & E3 & Hl3 & Hc3); [lia..|].
  destruct (idt_register_ok 0x27 CallbackIgnore (set_callbacks l3 s2)) as (l4 & E4 & Hl4 & Hc4);
    [by apply idt_wf_callbacks|lia|].
  destruct (idt_register_ok 0x2E CallbackIgnore (set_callbacks l4 s2)) as (l5 & E5 & Hl5 & Hc5);
    [by apply idt_wf_callbacks|lia|].
  destruct (idt_register_ok 0x2F CallbackIgnore (set_callbacks l5 s2)) as (l6 & E6 & Hl6 & Hc6);
    [by apply idt_wf_callbacks|lia|].
  exists (set_callbacks l6 s2). split_and!.
  - rewrite E1. erewrite bind_done; [|reflexivity]. erewrite bind_done; [|reflexivity].
    erewrite bind_done; [|apply E3]. erewrite bind_done; [|apply E4].
    erewrite bind_done; [|apply E5]. erewrite bind_done; [|apply E6]. done.
  - by apply idt_wf_callbacks.
  - intros v Hv. eexists. split; [apply Hg, Hv|].
    destruct (Z.eqb_spec v 0x80); (split; [apply gate_roundtrip|done]).
  - intros v Hv. cbn [interrupt_callbacks set_callbacks].
    rewrite Hc6, Hc5, Hc4, Hc3. unfold initial_callback. cbn [interrupt_callbacks set_callbacks].
    repeat (destruct (decide _)); btests; try done; subst; try lia.
    cbn. replace v with (Z.of_nat (Z.to_nat v)) by lia. rewrite idx_nat.
    apply lookup_replicate_2. unfold IDT_TOTAL_DESCRIPTORS in *. lia.
  - done.
  - done.
Qed.
End idt_init_spec.

Definition idt_blank : idt_state :=
  {| idt_descriptors := replicate (Z.to_nat 256) null_gate;
     idtr_descriptor := {| limit := 0; base := 0 |};
     interrupt_callbacks := replicate (Z.to_nat 256) NullCallback;
     isr80h_commands := replicate (Z.to_nat 1024) NullCommand; idt_loaded := None |}.

Lemma idt_blank_wf : idt_wf idt_blank.
Proof. split; apply length_replicate. Qed.

Lemma idt_init_tables_witness :
  ∃ s', idt_init (λ v, 0x100000 + 16 * v) 0x102000 0x200000 idt_blank = Done (tt, s') ∧ idt_wf s' ∧
    (∀ v, 0 <= v < 256 → ∃ d, (idt_descriptors s').[v] = Some d ∧
       gate_offset d = u32 (if v =? 0x80 then 0x102000 else 0x100000 + 16 * v) ∧
       selector d = GDT_KERNEL_CODE_SELECTOR ∧
       type_attr d = if v =? 0x80 then 0xEE else 0x8E) ∧
    (∀ v, 0 <= v < 256 → (interrupt_callbacks s').[v] = Some (initial_callback v)) ∧
    isr80h_commands s' = isr80h_commands idt_blank ∧
    idt_loaded s' = Some {| limit := 2047; base := u32 0x200000 |}.
Proof.
  exact (idt_init_tables (λ v, 0x100000 + 16 * v) 0x102000 0x200000 idt_blank idt_blank_wf).
Defined.

(** ** Registration of the system calls *)

Lemma isr80h_register_ok i c s : idt_wf s → 0 <= i < 1024 → (isr80h_commands s).[i] = Some NullCommand →
  ∃ l, isr80h_register_command i c s = Done (tt, set_commands l s) ∧ idt_wf (set_commands l s) ∧
    ∀ j, l.[j] = if decide (j = i) then Some c else (isr80h_commands s).[j].
Proof.
  intros [H1 H2 H3] Hi E. unfold isr80h_register_command, VANA_MAX_ISR80H_COMMANDS in *. btests.
  rewrite E, decide_True by done.
  destruct ((isr80h_commands s).[i <- c]) as [l|] eqn:E'; [|rewrite upd_Some in E' by lia; done].
  exists l. split_and!; [done|split; [done..|]; simpl; by rewrite (upd_length _ _ _ _ E')|].
  intros j. destruct (decide (j = i)) as [->|Hne]; [by apply upd_idx_eq in E'|].
  by apply upd_idx_ne with (j := j) in E'.
Qed.

Lemma isr80h_register_taken i c c' s :
  (isr80h_commands s).[i] = Some c' → c' ≠ NullCommand → isr80h_register_command i c s = Panic.
Proof.
  intros E Hc. unfold isr80h_register_command. destruct (_ || _); [done|].
  by rewrite E, decide_False.
Qed.

(** The command of each number of [enum ISR80H_COMMANDS]. *)
Definition command_table : list command :=
  [isr80h_command0_sum; isr80h_command1_print; isr80h_command2_getkey; isr80h_command3_putchar;
   isr80h_command4_malloc; isr80h_command5_free; isr80h_command6_process_load_start;
   isr80h_command7_invoke_system_command; isr80h_command8_get_program_arguments;
   isr80h_command9_exit].

Ltac register_step :=
  lazymatch goal with
  | Hwf : idt_wf ?s, Hn : ∀ j, _ → (isr80h_commands ?s).[j] = Some NullCommand
    |- context [(isr80h_register_command ?i ?c ≫= _) ?s] =>
      let l := fresh "l" in let E := fresh "E" in let W := fresh "W" in let C := fresh "C" in
      let N := fresh "N" in
      destruct (isr80h_register_ok i c s Hwf) as (l & E & W & C); [lia|apply Hn; lia|];
      assert (∀ j, i < j < 10 → (isr80h_commands (set_commands l s)).[j] = Some NullCommand) as N
        by (intros j Hj; cbn [isr80h_commands set_commands]; rewrite C, decide_False by lia; apply Hn; lia);
      rewrite (bind_done _ _ _ _ _ E); clear Hn
  end.

(** on a table whose first ten commands are free [isr80h_register_commands]
    binds each number of [enum ISR80H_COMMANDS] to its handler and leaves the
    other numbers alone; a second registration panics. *)
Theorem isr80h_commands_registered s : idt_wf s →
  (∀ j, -1 < j < 10 → (isr80h_commands s).[j] = Some NullCommand) →
  ∃ s', isr80h_register_commands s = Done (tt, s') ∧ idt_wf s' ∧
    (∀ j, (isr80h_commands s').[j] =
          if decide (0 <= j < 10) then command_table.[j] else (isr80h_commands s).[j]) ∧
    interrupt_callbacks s' = interrupt_callbacks s ∧
    isr80h_register_commands s' = Panic.
Proof.
  intros Hwf Hn. unfold isr80h_register_commands at 1.
  register_step. register_step. register_step. register_step. register_step.
  register_step. register_step. register_step. register_step.
  match goal with |- context [isr80h_register_command ?i ?c ?s] =>
    edestruct (isr80h_register_ok i c s) as (l9 & E9 & W9 & C9); [done|lia|auto with lia|] end.
  eexists. split; [exact E9|]. split_and!; [done| |done|].
  - intros j. cbn [isr80h_commands set_commands]. rewrite C9.
    cbn [isr80h_commands set_commands]. rewrite C7, C6, C5, C4, C3, C2, C1, C0, C.
    cbn [isr80h_commands set_commands].
    destruct (decide (0 <= j < 10)) as [Hj|Hj].
    + assert (j = 0 ∨ j = 1 ∨ j = 2 ∨ j = 3 ∨ j = 4 ∨ j = 5 ∨ j = 6 ∨ j = 7 ∨ j = 8 ∨ j = 9) as Hc by lia.
      by decompose [or] Hc; subst.
    + by rewrite !decide_False by lia.
  - unfold isr80h_register_commands, mbind at 1, M_bind at 1.
    rewrite (isr80h_register_taken 0 _ isr80h_command0_sum); [done| |done].
    cbn [isr80h_commands set_commands]. rewrite C9.
    cbn [isr80h_commands set_commands]. rewrite C7, C6, C5, C4, C3, C2, C1, C0, C. done.
Qed.

Lemma isr80h_commands_registered_witness :
  ∃ s', isr80h_register_commands idt_blank = Done (tt, s') ∧ idt_wf s' ∧
    (∀ j, (isr80h_commands s').[j] =
          if decide (0 <= j < 10) then command_table.[j] else (isr80h_commands idt_blank).[j]) ∧
    interrupt_callbacks s' = interrupt_callbacks idt_blank ∧
    isr80h_register_commands s' = Panic.
Proof.
  apply (isr80h_commands_registered idt_blank idt_blank_wf).
  intros j Hj. unfold idt_blank, idx. cbn [isr80h_commands].
  rewrite (proj2 (Z.ltb_ge _ _)) by lia. apply lookup_replicate_2. lia.
Defined.
