(* ===== verification/Gdt.v ===== *)
(** * The global descriptor table

    Models src/src/gdt/gdt.c and the descriptor table of src/src/kernel.c.  A
    raw entry is the list of its eight bytes.  [decode_*] read an entry the way
    the processor does, and the theorem shows that encoding loses nothing. *)

From S2P Require Import Prelude Config.
Local Open Scope Z_scope.

Record gdt_structured := { gdt_base : Z; gdt_limit : Z; gdt_type : Z }.

(** [None] stands for a store outside [target]; an invalid limit panics. *)
Definition encode_gdt_entry (target : list Z) (source : gdt_structured) : outcome (list Z) :=
  let lim := gdt_limit source in
  let bas := gdt_base source in
  if (65536 <? lim) && negb (Z.land lim 0xFFF =? 0xFFF) then Panic
  else of_option (
    target ← target.[6 <- 0x40];
    '(lim, target) ← (if 65536 <? lim
                      then t ← target.[6 <- 0xC0]; Some (Z.shiftr lim 12, t)
                      else Some (lim, target));
    target ← target.[0 <- Z.land lim 0xFF];
    target ← target.[1 <- Z.land (Z.shiftr lim 8) 0xFF];
    t6 ← target.[6];
    target ← target.[6 <- Z.lor t6 (Z.land (Z.shiftr lim 16) 0x0F)];
    target ← target.[2 <- Z.land bas 0xFF];
    target ← target.[3 <- Z.land (Z.shiftr bas 8) 0xFF];
    target ← target.[4 <- Z.land (Z.shiftr bas 16) 0xFF];
    target ← target.[7 <- Z.land (Z.shiftr bas 24) 0xFF];
    target.[5 <- gdt_type source]).

Fixpoint encode_loop (n : nat) (i : Z) (gdt : list (list Z)) (structured_gdt : list gdt_structured) :
    outcome (list (list Z)) :=
  match n with
  | O => Done gdt
  | S n =>
      target ← of_option gdt.[i];
      source ← of_option structured_gdt.[i];
      target ← encode_gdt_entry target source;
      gdt ← of_option gdt.[i <- target];
      encode_loop n (i + 1) gdt structured_gdt
  end.

Definition gdt_structured_to_gdt (gdt : list (list Z)) (structured_gdt : list gdt_structured)
    (total_entries : Z) : outcome (list (list Z)) :=
  encode_loop (Z.to_nat total_entries) 0 gdt structured_gdt.

(** kernel.c: the segments of the kernel; the TSS has 27 words. *)
Definition sizeof_tss : Z := 27 * 4.

Definition kernel_gdt_structured (tss : Z) : list gdt_structured :=
  [ {| gdt_base := 0x00; gdt_limit := 0x00; gdt_type := 0x00 |};
    {| gdt_base := 0x00; gdt_limit := 0xffffffff; gdt_type := 0x9a |};
    {| gdt_base := 0x00; gdt_limit := 0xffffffff; gdt_type := 0x92 |};
    {| gdt_base := 0x00; gdt_limit := 0xffffffff; gdt_type := 0xf8 |};
    {| gdt_base := 0x00; gdt_limit := 0xffffffff; gdt_type := 0xf2 |};
    {| gdt_base := tss; gdt_limit := sizeof_tss; gdt_type := 0xE9 |} ].

(** ** What the processor reads *)

Definition byte_at (e : list Z) (i : Z) : Z := default 0 e.[i].

Definition decode_base (e : list Z) : Z :=
  byte_at e 2 + byte_at e 3 * 2 ^ 8 + byte_at e 4 * 2 ^ 16 + byte_at e 7 * 2 ^ 24.

(** The last offset of the segment: the 20-bit limit, in pages when the
    granularity bit is set. *)
Definition decode_limit (e : list Z) : Z :=
  let l := byte_at e 0 + byte_at e 1 * 2 ^ 8 + byte_at e 6 mod 2 ^ 4 * 2 ^ 16 in
  if Z.testbit (byte_at e 6) 7 then l * 4096 + 4095 else l.

Definition decode_access (e : list Z) : Z := byte_at e 5.

(** The 32-bit default operand size bit. *)
Definition decode_32bit (e : list Z) : bool := Z.testbit (byte_at e 6) 6.

Definition decodes_to (e : list Z) (g : gdt_structured) : Prop :=
  decode_base e = gdt_base g ∧ decode_limit e = gdt_limit g ∧
  decode_access e = gdt_type g ∧ decode_32bit e = true.

(** The limits that have an encoding. *)
Definition encodable (g : gdt_structured) : Prop :=
  is_u32 (gdt_base g) ∧ is_u32 (gdt_limit g) ∧ is_u8 (gdt_type g) ∧
  (65536 < gdt_limit g → gdt_limit g mod 4096 = 4095).

(** The bytes [encode_gdt_entry] stores; [g] is the granularity nibble. *)
Definition entry_bytes (lim bas typ g : Z) : list Z :=
  [Z.land lim 0xFF; Z.land (Z.shiftr lim 8) 0xFF;
   Z.land bas 0xFF; Z.land (Z.shiftr bas 8) 0xFF; Z.land (Z.shiftr bas 16) 0xFF;
   typ; Z.lor g (Z.land (Z.shiftr lim 16) 0x0F); Z.land (Z.shiftr bas 24) 0xFF].

Lemma encode_bytes target src : length target = 8%nat →
  (65536 < gdt_limit src → gdt_limit src mod 4096 = 4095) →
  encode_gdt_entry target src =
  Done (if 65536 <? gdt_limit src
        then entry_bytes (Z.shiftr (gdt_limit src) 12) (gdt_base src) (gdt_type src) 0xC0
        else entry_bytes (gdt_limit src) (gdt_base src) (gdt_type src) 0x40).
Proof.
  intros Hl Hlim. destruct target as [|a0 [|a1 [|a2 [|a3 [|a4 [|a5 [|a6 [|a7 [|]]]]]]]]]; try done.
  unfold encode_gdt_entry. change 0xFFF with (Z.ones 12). rewrite Z.land_ones by done.
  change (2 ^ 12) with 4096. change (Z.ones 12) with 4095.
  destruct (Z.ltb_spec 65536 (gdt_limit src)) as [H|H]; [rewrite (Hlim H)|]; reflexivity.
Qed.

(** One of the two granularities: a 20-bit limit field under the nibble [g]. *)
Lemma decode_entry_bytes lim bas typ g : is_u32 bas → 0 <= lim < 2 ^ 20 →
  g = 0x40 ∨ g = 0xC0 →
  let e := entry_bytes lim bas typ g in
  decode_base e = bas ∧ decode_access e = typ ∧ decode_32bit e = true ∧
  decode_limit e = if decide (g = 0xC0) then lim * 4096 + 4095 else lim.
Proof.
  intros Hb Hl Hg e. unfold decode_base, decode_access, decode_32bit, decode_limit.
  change (byte_at e 0) with (Z.land lim 0xFF). change (byte_at e 1) with (Z.land (Z.shiftr lim 8) 0xFF).
  change (byte_at e 2) with (Z.land bas 0xFF). change (byte_at e 3) with (Z.land (Z.shiftr bas 8) 0xFF).
  change (byte_at e 4) with (Z.land (Z.shiftr bas 16) 0xFF). change (byte_at e 5) with typ.
  change (byte_at e 6) with (Z.lor g (Z.land (Z.shiftr lim 16) 0x0F)).
  change (byte_at e 7) with (Z.land (Z.shiftr bas 24) 0xFF). clear e.
  change 255 with (Z.ones 8). change 15 with (Z.ones 4).
  rewrite !Z.land_ones, !Z.shiftr_div_pow2 by lia.
  assert (0 <= lim / 2 ^ 16 < 2 ^ 4) as Hn by (unfold is_u32 in *; euclid).
  rewrite (Z.mod_small (lim / 2 ^ 16)) by done. rewrite (lor_low 4) by (destruct Hg as [-> | ->]; done).
  replace ((g + lim / 2 ^ 16) mod 2 ^ 4) with (lim / 2 ^ 16) by (destruct Hg as [-> | ->]; euclid).
  assert (Z.testbit (g + lim / 2 ^ 16) 6 = true ∧
          Z.testbit (g + lim / 2 ^ 16) 7 = bool_decide (g = 0xC0)) as [-> ->].
  { rewrite !Z.testbit_odd, !Z.shiftr_div_pow2 by lia.
    destruct Hg as [-> | ->]; rewrite ?bool_decide_true, ?bool_decide_false by done; split.
    - by replace ((64 + lim / 2 ^ 16) / 2 ^ 6) with 1 by euclid.
    - by replace ((64 + lim / 2 ^ 16) / 2 ^ 7) with 0 by euclid.
    - by replace ((192 + lim / 2 ^ 16) / 2 ^ 6) with 3 by euclid.
    - by replace ((192 + lim / 2 ^ 16) / 2 ^ 7) with 1 by euclid. }
  split_and!; [euclid|done|done|].
  destruct Hg as [-> | ->]; simpl; euclid.
Qed.

Lemma encode_gdt_entry_spec target src : length target = 8%nat → encodable src →
  ∃ e, encode_gdt_entry target src = Done e ∧ length e = 8%nat ∧ decodes_to e src.
Proof.
  intros Hl (Hb & Hlim & Ht & H12). rewrite encode_bytes by done. eexists. split; [done|].
  unfold decodes_to. destruct (Z.ltb_spec 65536 (gdt_limit src)) as [H|H].
  - destruct (decode_entry_bytes (Z.shiftr (gdt_limit src) 12) (gdt_base src) (gdt_type src) 0xC0)
      as (E1 & E2 & E3 & E4); [done|rewrite Z.shiftr_div_pow2 by done; euclid|by right|].
    rewrite E1, E2, E3, E4. split_and!; [done..| |done|done].
    simpl. rewrite Z.shiftr_div_pow2 by done. specialize (H12 H). euclid.
  - destruct (decode_entry_bytes (gdt_limit src) (gdt_base src) (gdt_type src) 0x40)
      as (E1 & E2 & E3 & E4); [done|range|by left|].
    rewrite E1, E2, E3, E4. done.
Qed.

(** Every descriptor with a representable limit survives encoding: the
    processor reads back the base, the limit, the type and the 32-bit flag of
    the structured form, whatever the entry held before. *)
Theorem gdt_entry_roundtrip target src : length target = 8%nat → encodable src →
  ∃ e, encode_gdt_entry target src = Done e ∧ length e = 8%nat ∧ decodes_to e src.
Proof. apply encode_gdt_entry_spec. Qed.

Lemma gdt_entry_roundtrip_witness :
  ∃ e, encode_gdt_entry (replicate 8 0xAA)
         {| gdt_base := 0x12345678; gdt_limit := 0x1ABCDFFF; gdt_type := 0x92 |} = Done e ∧
    length e = 8%nat ∧
    decodes_to e {| gdt_base := 0x12345678; gdt_limit := 0x1ABCDFFF; gdt_type := 0x92 |}.
Proof.
  apply (gdt_entry_roundtrip (replicate 8 0xAA)
    {| gdt_base := 0x12345678; gdt_limit := 0x1ABCDFFF; gdt_type := 0x92 |}); [done|].
  unfold encodable; simpl. split_and!; try range. done.
Defined.

(** A limit above 64 KiB whose last page is not complete has no encoding. *)
Lemma encode_gdt_entry_panics target src :
  65536 < gdt_limit src → gdt_limit src mod 4096 ≠ 4095 → encode_gdt_entry target src = Panic.
Proof.
  intros H1 H2. unfold encode_gdt_entry. change 0xFFF with (Z.ones 12). rewrite Z.land_ones by done.
  rewrite (proj2 (Z.ltb_lt _ _)) by done. by rewrite (proj2 (Z.eqb_neq _ _)).
Qed.

Lemma encode_loop_spec srcs A B gs :
  Forall encodable srcs → length B = length srcs → Forall (λ e, length e = 8%nat) B →
  Forall2 (λ e s, decodes_to e s) A gs →
  ∃ es, encode_loop (length srcs) (Z.of_nat (length A)) (A ++ B) (gs ++ srcs) = Done es ∧
        Forall2 (λ e s, decodes_to e s) es (gs ++ srcs).
Proof.
  revert A B gs. induction srcs as [|src srcs IH]; intros A B gs Hs HB HB8 HA.
  { destruct B; [|done]. exists A. by rewrite !app_nil_r. }
  destruct B as [|b B]; [done|]. apply Forall_cons in Hs as [Hs1 Hs]. apply Forall_cons in HB8 as [Hb HB8].
  cbn [length encode_loop]. rewrite idx_app. cbn [of_option mbind outcome_bind].
  rewrite (Forall2_length _ _ _ HA), idx_app. cbn [of_option mbind outcome_bind].
  destruct (encode_gdt_entry_spec b src Hb Hs1) as (e & -> & He & Hd). cbn [of_option mbind outcome_bind].
  rewrite <- (Forall2_length _ _ _ HA), upd_app. cbn [of_option mbind outcome_bind].
  destruct (IH (A ++ [e]) B (gs ++ [src])) as (es & E & Hes); [done|by injection HB|done| |].
  { apply Forall2_app; [done|]. constructor; [done|constructor]. }
  exists es. rewrite <- !app_assoc in *. split; [|done]. rewrite <- E. f_equal. rewrite length_app. simpl. lia.
Qed.

(** the segment table of the kernel is encoded in full, entry by entry,
    without a panic, for any 32-bit address of the TSS. *)
Theorem kernel_gdt_encodes tss gdt : is_u32 tss → length gdt = 6%nat →
  Forall (λ e, length e = 8%nat) gdt →
  ∃ es, gdt_structured_to_gdt gdt (kernel_gdt_structured tss) VANA_TOTAL_GDT_SEGMENTS = Done es ∧
        Forall2 (λ e s, decodes_to e s) es (kernel_gdt_structured tss).
Proof.
  intros Ht Hl H8. apply (encode_loop_spec (kernel_gdt_structured tss) [] gdt []);
    [|by rewrite Hl|done|constructor].
  repeat constructor; simpl; try range; intros; done.
Qed.

Lemma kernel_gdt_encodes_witness :
  ∃ es, gdt_structured_to_gdt (replicate 6 (replicate 8 0)) (kernel_gdt_structured 0x101020)
          VANA_TOTAL_GDT_SEGMENTS = Done es ∧
        Forall2 (λ e s, decodes_to e s) es (kernel_gdt_structured 0x101020).
Proof.
  apply (kernel_gdt_encodes 0x101020 (replicate 6 (replicate 8 0))); [range|done|by repeat constructor].
Defined.
