(* ===== verification/Keyboard.v ===== *)
(** * The keyboard

    Models src/src/keyboard/keyboard.c (the ring buffer and the driver list) and
    src/src/keyboard/classic.c (the PS/2 driver).  Characters are [char]s, that
    is values from -128 to 127.

    The ring buffer is shown to be a first-in first-out queue of 1024
    characters; the last two theorems of that part say what happens outside
    that contract.  The scancode translation is compared with a reference
    layout of the US keyboard. *)

From S2P Require Import Prelude Config CString Idt.
Local Open Scope Z_scope.

(** ** The ring buffer *)

Record keyboard_buffer := { kbuf : list Z; khead : Z; ktail : Z }.

Definition keyboard_get_tail_index (kb : keyboard_buffer) : Z :=
  Z.rem (ktail kb) VANA_KEYBOARD_BUFFER_SIZE.

Definition keyboard_backspace : M keyboard_buffer unit := λ kb,
  if ktail kb =? 0 then Done (tt, kb)
  else
    let kb := {| kbuf := kbuf kb; khead := khead kb; ktail := s32 (ktail kb - 1) |} in
    match (kbuf kb).[keyboard_get_tail_index kb <- 0] with
    | Some b => Done (tt, {| kbuf := b; khead := khead kb; ktail := ktail kb |})
    | None => Undef
    end.

Definition keyboard_push (c : Z) : M keyboard_buffer unit := λ kb,
  if c =? 0 then Done (tt, kb)
  else match (kbuf kb).[keyboard_get_tail_index kb <- c] with
       | Some b => Done (tt, {| kbuf := b; khead := khead kb; ktail := s32 (ktail kb + 1) |})
       | None => Undef
       end.

Definition keyboard_pop : M keyboard_buffer Z := λ kb,
  let real_index := Z.rem (khead kb) VANA_KEYBOARD_BUFFER_SIZE in
  match (kbuf kb).[real_index] with
  | None => Undef
  | Some c =>
      if c =? 0 then Done (0, kb)
      else match (kbuf kb).[real_index <- 0] with
           | Some b => Done (c, {| kbuf := b; khead := s32 (khead kb + 1); ktail := ktail kb |})
           | None => Undef
           end
  end.

(** ** The driver list and the PS/2 driver *)

(** The [init] callbacks that exist. *)
Inductive keyboard_init_function := NullInit | classic_keyboard_init_function.

Record keyboard := {
  kb_init : keyboard_init_function;
  kb_name : list Z;
  capslock_state : Z;
  shift_state : Z;
  kb_next : Z
}.

Definition KEYBOARD_CAPS_LOCK_ON : Z := 1.
Definition KEYBOARD_CAPS_LOCK_OFF : Z := 0.
Definition KEYBOARD_SHIFT_ON : Z := 1.
Definition KEYBOARD_SHIFT_OFF : Z := 0.
Definition CLASSIC_KEYBOARD_CAPSLOCK : Z := 0x3A.
Definition CLASSIC_KEYBOARD_LSHIFT : Z := 0x2A.
Definition CLASSIC_KEYBOARD_RSHIFT : Z := 0x36.
Definition CLASSIC_KEYBOARD_KEY_RELEASED : Z := 0x80.
Definition ISR_KEYBOARD_INTERRUPT : Z := 0x21.
Definition KEYBOARD_INPUT_PORT : Z := 0x60.
Definition PS2_PORT : Z := 0x64.
Definition PS2_COMMAND_ENABLE_FIRST_PORT : Z := 0xAE.

Definition keyboard_scan_set_one : list Z := [
    0x00; 0x1B; 49; 50; 51; 52; 53;
    54; 55; 56; 57; 48; 45; 61;
    0x08; 9; 81; 87; 69; 82; 84;
    89; 85; 73; 79; 80; 91; 93;
    0x0d; 0x00; 65; 83; 68; 70; 71;
    72; 74; 75; 76; 59; 39; 96;
    0x00; 92; 90; 88; 67; 86; 66;
    78; 77; 44; 46; 47; 0x00; 42;
    0x00; 0x20; 0x00; 0x00; 0x00; 0x00;
    0x00; 0x00; 0x00; 0x00; 0x00; 0x00;
    0x00; 55; 56; 57; 45; 52; 53;
    54; 43; 49; 50; 51; 48; 46 ].

(** The [switch] on the base character while shift is held. *)
Definition shift_char (c : Z) : Z :=
  match c with
  | 49 => 33 | 50 => 64 | 51 => 35 | 52 => 36 | 53 => 37
  | 54 => 94 | 55 => 38 | 56 => 42 | 57 => 40 | 48 => 41
  | 45 => 95 | 61 => 43 | 91 => 123 | 93 => 125 | 59 => 58
  | 39 => 34 | 96 => 126 | 92 => 124 | 44 => 60 | 46 => 62 | 47 => 63
  | _ => c
  end.

Definition classic_keyboard_scancode_to_char (kb : keyboard) (scancode : Z) : option Z :=
  let size_of_keyboard_set_one := Z.of_nat (length keyboard_scan_set_one) in
  if size_of_keyboard_set_one <? scancode then Some 0
  else
    c ← keyboard_scan_set_one.[scancode];
    let c := s8 c in
    let c := if negb (shift_state kb =? 0) then shift_char c else c in
    let uppercase := Z.lxor (capslock_state kb) (shift_state kb) in
    let c :=
      if (65 <=? c) && (c <=? 90) then (if uppercase =? 0 then s8 (c + 32) else c)
      else if (97 <=? c) && (c <=? 122) then (if negb (uppercase =? 0) then s8 (c - 32) else c)
      else c in
    Some (u8 c).

Section driver.
Context {D : Type} `{Ports D} (classic_keyboard : Z).

Record kbd_state := {
  kbuffer : keyboard_buffer;
  keyboard_list_head : Z;
  keyboard_list_last : Z;
  keyboards : gmap Z keyboard;
  kidt : idt_state;
  kdev : D
}.

Definition set_kbuffer (b : keyboard_buffer) (s : kbd_state) : kbd_state :=
  {| kbuffer := b; keyboard_list_head := keyboard_list_head s;
     keyboard_list_last := keyboard_list_last s; keyboards := keyboards s;
     kidt := kidt s; kdev := kdev s |}.
Definition set_kidt (i : idt_state) (s : kbd_state) : kbd_state :=
  {| kbuffer := kbuffer s; keyboard_list_head := keyboard_list_head s;
     keyboard_list_last := keyboard_list_last s; keyboards := keyboards s;
     kidt := i; kdev := kdev s |}.
Definition set_kdev (d : D) (s : kbd_state) : kbd_state :=
  {| kbuffer := kbuffer s; keyboard_list_head := keyboard_list_head s;
     keyboard_list_last := keyboard_list_last s; keyboards := keyboards s;
     kidt := kidt s; kdev := d |}.
Definition set_keyboards (k : gmap Z keyboard) (s : kbd_state) : kbd_state :=
  {| kbuffer := kbuffer s; keyboard_list_head := keyboard_list_head s;
     keyboard_list_last := keyboard_list_last s; keyboards := k;
     kidt := kidt s; kdev := kdev s |}.
Definition set_list (h l : Z) (s : kbd_state) : kbd_state :=
  {| kbuffer := kbuffer s; keyboard_list_head := h; keyboard_list_last := l;
     keyboards := keyboards s; kidt := kidt s; kdev := kdev s |}.

Definition get_keyboard (p : Z) : M kbd_state keyboard := λ s,
  match keyboards s !! p with Some k => Done (k, s) | None => Undef end.

Definition update_keyboard (p : Z) (f : keyboard → keyboard) : M kbd_state unit :=
  k ← get_keyboard p;
  modify (λ s, set_keyboards (<[p := f k]> (keyboards s)) s).

Definition keyboard_set_capslock (p state : Z) : M kbd_state unit :=
  update_keyboard p (λ k, {| kb_init := kb_init k; kb_name := kb_name k; capslock_state := state;
                             shift_state := shift_state k; kb_next := kb_next k |}).
Definition keyboard_get_capslock (p : Z) : M kbd_state Z :=
  k ← get_keyboard p; mret (capslock_state k).
Definition keyboard_set_shift (p state : Z) : M kbd_state unit :=
  update_keyboard p (λ k, {| kb_init := kb_init k; kb_name := kb_name k;
                             capslock_state := capslock_state k;
                             shift_state := state; kb_next := kb_next k |}).
Definition keyboard_get_shift (p : Z) : M kbd_state Z :=
  k ← get_keyboard p; mret (shift_state k).

Definition classic_keyboard_init : M kbd_state Z :=
  zoom kidt set_kidt
    (idt_register_interrupt_callback ISR_KEYBOARD_INTERRUPT classic_keyboard_handler);;
  keyboard_set_capslock classic_keyboard KEYBOARD_CAPS_LOCK_OFF;;
  keyboard_set_shift classic_keyboard KEYBOARD_SHIFT_OFF;;
  zoom kdev set_kdev (outb PS2_PORT PS2_COMMAND_ENABLE_FIRST_PORT);;
  mret 0.

Definition classic_init : Z := classic_keyboard.

Definition keyboard_insert (p : Z) : M kbd_state Z :=
  if p =? 0 then mret (- EINVARG)
  else
    k ← get_keyboard p;
    match kb_init k with
    | NullInit => mret (- EINVARG)
    | classic_keyboard_init_function =>
        last ← gets keyboard_list_last;
        (if negb (last =? 0) then
           update_keyboard last (λ k, {| kb_init := kb_init k; kb_name := kb_name k;
                                         capslock_state := capslock_state k;
                                         shift_state := shift_state k; kb_next := p |});;
           modify (λ s, set_list (keyboard_list_head s) p s)
         else modify (set_list p p));;
        classic_keyboard_init
    end.

Definition keyboard_init : M kbd_state unit := keyboard_insert classic_init;; mret tt.

Definition classic_keyboard_handle_interrupt : M kbd_state unit :=
  scancode ← zoom kdev set_kdev (insb KEYBOARD_INPUT_PORT);
  zoom kdev set_kdev (insb KEYBOARD_INPUT_PORT);;
  let released := Z.land scancode CLASSIC_KEYBOARD_KEY_RELEASED in
  let keycode := u8 (Z.land scancode (Z.lnot CLASSIC_KEYBOARD_KEY_RELEASED)) in
  if (keycode =? CLASSIC_KEYBOARD_LSHIFT) || (keycode =? CLASSIC_KEYBOARD_RSHIFT) then
    keyboard_set_shift classic_keyboard
      (if negb (released =? 0) then KEYBOARD_SHIFT_OFF else KEYBOARD_SHIFT_ON)
  else if negb (released =? 0) then mret tt
  else if scancode =? CLASSIC_KEYBOARD_CAPSLOCK then
    old_state ← keyboard_get_capslock classic_keyboard;
    keyboard_set_capslock classic_keyboard
      (if old_state =? KEYBOARD_CAPS_LOCK_ON then KEYBOARD_CAPS_LOCK_OFF else KEYBOARD_CAPS_LOCK_ON)
  else
    k ← get_keyboard classic_keyboard;
    c ← liftO (classic_keyboard_scancode_to_char k scancode);
    if negb (c =? 0) then zoom kbuffer set_kbuffer (keyboard_push (s8 c)) else mret tt.
End driver.

Arguments kbd_state D : clear implicits.

(** ** The queue *)

(** [q] is the content of the ring: slot [k] places after the head holds the
    [k]-th character of [q], and 0 when there is none. *)
Record ring_repr (kb : keyboard_buffer) (q : list Z) : Prop := {
  ring_length : length (kbuf kb) = Z.to_nat VANA_KEYBOARD_BUFFER_SIZE;
  ring_head : 0 <= khead kb;
  ring_tail : ktail kb = khead kb + Z.of_nat (length q);
  ring_max : ktail kb < 2 ^ 31;
  ring_cap : Z.of_nat (length q) <= VANA_KEYBOARD_BUFFER_SIZE;
  ring_nonzero : Forall (λ c, c ≠ 0) q;
  ring_slots : ∀ k, 0 <= k < VANA_KEYBOARD_BUFFER_SIZE →
    (kbuf kb).[(khead kb + k) mod VANA_KEYBOARD_BUFFER_SIZE] = Some (default 0 q.[k])
}.

Lemma ring_index h k : 0 <= h → 0 <= k →
  Z.rem (h + k) VANA_KEYBOARD_BUFFER_SIZE = (h + k) mod VANA_KEYBOARD_BUFFER_SIZE.
Proof. intros. apply Z.rem_mod_nonneg; unfold VANA_KEYBOARD_BUFFER_SIZE; lia. Qed.

(** Two slots at different distances from the head are different. *)
Lemma ring_slot_ne h j k :
  0 <= j < VANA_KEYBOARD_BUFFER_SIZE → 0 <= k < VANA_KEYBOARD_BUFFER_SIZE → j ≠ k →
  (h + j) mod VANA_KEYBOARD_BUFFER_SIZE ≠ (h + k) mod VANA_KEYBOARD_BUFFER_SIZE.
Proof. unfold VANA_KEYBOARD_BUFFER_SIZE. intros. euclid. Qed.

Lemma ring_slot_range h l : length l = Z.to_nat VANA_KEYBOARD_BUFFER_SIZE →
  0 <= h mod VANA_KEYBOARD_BUFFER_SIZE < Z.of_nat (@length Z l).
Proof. intros ->. rewrite Z2Nat.id by done. by apply Z.mod_pos_bound. Qed.

Lemma ring_push kb q c : ring_repr kb q → c ≠ 0 →
  Z.of_nat (length q) < VANA_KEYBOARD_BUFFER_SIZE → ktail kb + 1 < 2 ^ 31 →
  ∃ kb', keyboard_push c kb = Done (tt, kb') ∧ ring_repr kb' (q ++ [c]) ∧ ktail kb' = ktail kb + 1.
Proof.
  intros [Hl Hh Ht Hm Hc Hn Hs] Hc0 Hroom Hmax. unfold keyboard_push.
  rewrite (proj2 (Z.eqb_neq _ _) Hc0). unfold keyboard_get_tail_index. rewrite Ht, ring_index by lia.
  rewrite <- Ht.
  destruct ((kbuf kb).[ktail kb mod VANA_KEYBOARD_BUFFER_SIZE <- c]) as [b|] eqn:E.
  2:{ rewrite upd_Some in E by (by apply ring_slot_range). done. }
  eexists. split; [done|]. rewrite s32_small by range. split; [|done].
  split; cbn [kbuf khead ktail]; rewrite ?length_app; simpl; try lia.
  - by rewrite (upd_length _ _ _ _ E).
  - apply Forall_app. by repeat constructor.
  - intros k Hk. destruct (decide (k = Z.of_nat (length q))) as [->|Hne].
    + rewrite <- Ht. rewrite (upd_idx_eq _ _ _ _ E). by rewrite idx_app.
    + rewrite (upd_idx_ne _ _ _ _ _ (ring_slot_ne (khead kb) (Z.of_nat (length q)) k ltac:(lia) Hk ltac:(lia))
                 ltac:(rewrite <- Ht; exact E)).
      rewrite Hs by done. f_equal.
      destruct (decide (k < Z.of_nat (length q))).
      * destruct (idx_is_Some q k) as [x Hx]; [lia|]. rewrite Hx.
        unfold idx in *. destruct (k <? 0); [done|]. by rewrite (lookup_app_l_Some _ _ _ _ Hx).
      * rewrite !idx_None; [done|rewrite ?length_app; simpl; lia..].
Qed.

Lemma ring_pop kb c q : ring_repr kb (c :: q) →
  ∃ kb', keyboard_pop kb = Done (c, kb') ∧ ring_repr kb' q ∧ ktail kb' = ktail kb.
Proof.
  intros [Hl Hh Ht Hm Hc Hn Hs]. unfold keyboard_pop. cbn [length] in *.
  pose proof (Hs 0 ltac:(done)) as H0. rewrite Z.add_0_r in H0.
  replace (Z.rem (khead kb) VANA_KEYBOARD_BUFFER_SIZE) with (khead kb mod VANA_KEYBOARD_BUFFER_SIZE)
    by (symmetry; apply Z.rem_mod_nonneg; unfold VANA_KEYBOARD_BUFFER_SIZE; lia).
  change (default 0 (c :: q).[0]) with c in H0. rewrite H0.
  apply Forall_cons in Hn as [Hc0 Hn].
  rewrite (proj2 (Z.eqb_neq _ _) Hc0).
  destruct ((kbuf kb).[khead kb mod VANA_KEYBOARD_BUFFER_SIZE <- 0]) as [b|] eqn:E.
  2:{ rewrite upd_Some in E by (by apply ring_slot_range). done. }
  eexists. split; [done|]. rewrite s32_small by range. split; [|done].
  split; cbn [kbuf khead ktail]; try lia; [by rewrite (upd_length _ _ _ _ E)|done|].
  intros k Hk. replace (khead kb + 1 + k) with (khead kb + (k + 1)) by lia.
  destruct (decide (k + 1 = VANA_KEYBOARD_BUFFER_SIZE)) as [Ek|Hne].
  - rewrite Ek. replace ((khead kb + VANA_KEYBOARD_BUFFER_SIZE) mod VANA_KEYBOARD_BUFFER_SIZE)
      with (khead kb mod VANA_KEYBOARD_BUFFER_SIZE) by (unfold VANA_KEYBOARD_BUFFER_SIZE; euclid).
    rewrite (upd_idx_eq _ _ _ _ E), idx_None by lia. done.
  - pose proof (ring_slot_ne (khead kb) 0 (k + 1) ltac:(done) ltac:(lia) ltac:(lia)) as Hd.
    rewrite Z.add_0_r in Hd. rewrite (upd_idx_ne _ _ _ _ _ Hd E), Hs by lia. do 2 f_equal.
    replace (k + 1) with (Z.of_nat (S (Z.to_nat k))) by lia. rewrite idx_nat. simpl.
    replace k with (Z.of_nat (Z.to_nat k)) at 2 by lia. by rewrite idx_nat.
Qed.

Lemma ring_pop_empty kb : ring_repr kb [] → keyboard_pop kb = Done (0, kb).
Proof.
  intros [Hl Hh Ht Hm Hc Hn Hs]. unfold keyboard_pop.
  pose proof (Hs 0 ltac:(done)) as H0. rewrite Z.add_0_r in H0.
  rewrite Z.rem_mod_nonneg, H0 by (unfold VANA_KEYBOARD_BUFFER_SIZE; lia). done.
Qed.

Lemma ring_backspace kb q c : ring_repr kb (q ++ [c]) →
  ∃ kb', keyboard_backspace kb = Done (tt, kb') ∧ ring_repr kb' q ∧ ktail kb' = ktail kb - 1.
Proof.
  intros [Hl Hh Ht Hm Hc Hn Hs]. rewrite length_app in *. simpl in *. unfold keyboard_backspace.
  destruct (Z.eqb_spec (ktail kb) 0); [lia|]. rewrite s32_small by range.
  unfold keyboard_get_tail_index; cbn [ktail kbuf khead].
  replace (ktail kb - 1) with (khead kb + Z.of_nat (length q)) by lia. rewrite ring_index by lia.
  destruct ((kbuf kb).[(khead kb + Z.of_nat (length q)) mod VANA_KEYBOARD_BUFFER_SIZE <- 0]) as [b|] eqn:E.
  2:{ rewrite upd_Some in E by (by apply ring_slot_range). done. }
  eexists. split; [done|]. split; [|done]. apply Forall_app in Hn as [Hn _].
  split; cbn [kbuf khead ktail]; try lia; [by rewrite (upd_length _ _ _ _ E)|done|].
  intros k Hk. destruct (decide (k = Z.of_nat (length q))) as [->|Hne].
  - rewrite (upd_idx_eq _ _ _ _ E), idx_None by lia. done.
  - rewrite (upd_idx_ne _ _ _ _ _ (ring_slot_ne (khead kb) (Z.of_nat (length q)) k ltac:(lia) Hk ltac:(lia)) E).
    rewrite Hs by done. f_equal. destruct (decide (k < Z.of_nat (length q))).
    + destruct (idx_is_Some q k) as [x Hx]; [lia|]. rewrite Hx.
      unfold idx in *. destruct (k <? 0); [done|]. by rewrite (lookup_app_l_Some _ _ _ _ Hx).
    + rewrite !idx_None; [done|rewrite ?length_app; simpl; lia..].
Qed.

(** Sequences of operations on the ring and on an ideal queue; an operation
    yields the character it returns, 0 for none. *)
Inductive kop := KPush (c : Z) | KPop | KBackspace.

Definition ring_op (o : kop) : M keyboard_buffer Z :=
  match o with
  | KPush c => keyboard_push c;; mret 0
  | KPop => keyboard_pop
  | KBackspace => keyboard_backspace;; mret 0
  end.

Fixpoint ring_ops (os : list kop) : M keyboard_buffer (list Z) :=
  match os with
  | [] => mret []
  | o :: os => r ← ring_op o; rs ← ring_ops os; mret (r :: rs)
  end.

Definition queue_op (o : kop) (q : list Z) : Z * list Z :=
  match o with
  | KPush c => (0, if c =? 0 then q else q ++ [c])
  | KPop => match q with [] => (0, []) | c :: q => (c, q) end
  | KBackspace => (0, removelast q)
  end.

Fixpoint queue_ops (os : list kop) (q : list Z) : list Z * list Z :=
  match os with
  | [] => ([], q)
  | o :: os =>
      let '(r, q) := queue_op o q in
      let '(rs, q) := queue_ops os q in (r :: rs, q)
  end.

(** The operations stay within the capacity of the ring, and delete only
    characters that are in it. *)
Fixpoint within (os : list kop) (q : list Z) : bool :=
  match os with
  | [] => true
  | o :: os =>
      (match o with
       | KPush c => (c =? 0) || (Z.of_nat (length q) <? VANA_KEYBOARD_BUFFER_SIZE)
       | KPop => true
       | KBackspace => negb (bool_decide (q = []))
       end) && within os (queue_op o q).2
  end.

Lemma ring_op_step o os kb q : ring_repr kb q → within (o :: os) q = true →
  ktail kb + Z.of_nat (length (o :: os)) < 2 ^ 31 →
  ∃ kb', ring_op o kb = Done ((queue_op o q).1, kb') ∧ ring_repr kb' (queue_op o q).2 ∧
         ktail kb' + Z.of_nat (length os) < 2 ^ 31 ∧ within os (queue_op o q).2 = true.
Proof.
  intros Hr Hw Ht. cbn [length] in Ht. cbn [within] in Hw. apply andb_true_iff in Hw as [Ho Hw].
  destruct o as [c| |]; cbn [queue_op ring_op fst snd] in *.
  - destruct (Z.eqb_spec c 0) as [->|Hc].
    { exists kb. split_and!; [done|done|lia|done]. }
    destruct (ring_push kb q c) as (kb' & E & Hr' & Ht'); [done|done|simpl in Ho; lia|lia|].
    exists kb'. split_and!; [|done|lia|done]. by erewrite bind_done; [|apply E].
  - destruct q as [|c q].
    + exists kb. split_and!; [by apply ring_pop_empty|done|lia|done].
    + destruct (ring_pop kb c q Hr) as (kb' & E & Hr' & Ht').
      exists kb'. split_and!; [done|done|lia|done].
  - destruct (bool_decide_reflect (q = [])) as [|Hq]; [done|].
    destruct (exists_last Hq) as (q' & c & ->). rewrite removelast_last in *.
    destruct (ring_backspace kb q' c Hr) as (kb' & E & Hr' & Ht').
    exists kb'. split_and!; [by erewrite bind_done; [|apply E]|done|lia|done].
Qed.

(** C10: the ring buffer refines a first-in first-out queue: every sequence of
    [keyboard_push], [keyboard_pop] and [keyboard_backspace] that keeps at most
    1024 characters queued, deletes only queued characters and cannot take the tail
    to 2^31 (it counts the characters pushed and is never reduced modulo the size of
    the buffer) returns what the ideal queue returns, and ends in a ring that holds
    its content. *)
Theorem keyboard_ring_refines_queue os kb q :
  ring_repr kb q → within os q = true → ktail kb + Z.of_nat (length os) < 2 ^ 31 →
  ∃ kb', ring_ops os kb = Done ((queue_ops os q).1, kb') ∧ ring_repr kb' (queue_ops os q).2.
Proof.
  revert kb q. induction os as [|o os IH]; intros kb q Hr Hw Ht.
  { by exists kb. }
  destruct (ring_op_step o os kb q Hr Hw Ht) as (kb1 & E1 & Hr1 & Ht1 & Hw1).
  cbn [ring_ops queue_ops]. rewrite (bind_done _ _ _ _ _ E1).
  destruct (queue_op o q) as [r q1]. cbn [fst snd] in *.
  destruct (IH kb1 q1 Hr1 Hw1 Ht1) as (kb2 & E2 & Hr2). exists kb2.
  rewrite (bind_done _ _ _ _ _ E2). by destruct (queue_ops os q1).
Qed.

Definition ring_empty : keyboard_buffer :=
  {| kbuf := replicate (Z.to_nat 1024) 0; khead := 0; ktail := 0 |}.

Lemma ring_empty_repr : ring_repr ring_empty [].
Proof.
  split; try done. intros k Hk. unfold ring_empty; cbn [kbuf khead].
  rewrite Z.mod_small by lia. replace (0 + k) with (Z.of_nat (Z.to_nat k)) by lia.
  rewrite idx_nat, lookup_replicate_2; [|unfold VANA_KEYBOARD_BUFFER_SIZE in *; lia].
  rewrite idx_None; [done|simpl; lia].
Qed.

Lemma keyboard_ring_refines_queue_witness :
  ∃ kb', ring_ops [KPush 104; KPush 105; KBackspace; KPop; KPop] ring_empty = Done ([0; 0; 0; 104; 0], kb') ∧
         ring_repr kb' [].
Proof.
  apply (keyboard_ring_refines_queue [KPush 104; KPush 105; KBackspace; KPop; KPop] ring_empty []);
    [exact ring_empty_repr|done|done].
Defined.

(** Outside that contract characters are lost.  A push into a full ring
    overwrites the oldest character, so that the next pop returns the newest
    one; a backspace on an empty ring that has been used moves the tail behind
    the head, and the next character pushed is not found by the next pop. *)
Theorem keyboard_ring_limits kb q c : ring_repr kb q → c ≠ 0 → ktail kb + 1 < 2 ^ 31 →
  (Z.of_nat (length q) = VANA_KEYBOARD_BUFFER_SIZE →
     ∃ kb1 kb2, keyboard_push c kb = Done (tt, kb1) ∧ keyboard_pop kb1 = Done (c, kb2)) ∧
  (q = [] → 0 < ktail kb →
     ∃ kb1 kb2, keyboard_backspace kb = Done (tt, kb1) ∧ keyboard_push c kb1 = Done (tt, kb2) ∧
                keyboard_pop kb2 = Done (0, kb2)).
Proof.
  intros [Hl Hh Ht Hm Hc Hn Hs] Hc0 Hmax. split.
  - intros Hfull. rewrite Hfull in Ht. unfold keyboard_push, keyboard_get_tail_index.
    rewrite (proj2 (Z.eqb_neq _ _) Hc0), Ht, ring_index by (done || lia).
    replace ((khead kb + VANA_KEYBOARD_BUFFER_SIZE) mod VANA_KEYBOARD_BUFFER_SIZE)
      with (khead kb mod VANA_KEYBOARD_BUFFER_SIZE) by (unfold VANA_KEYBOARD_BUFFER_SIZE; euclid).
    destruct ((kbuf kb).[khead kb mod VANA_KEYBOARD_BUFFER_SIZE <- c]) as [b|] eqn:E.
    2:{ rewrite upd_Some in E by (by apply ring_slot_range). done. }
    eexists _, _. split; [done|]. unfold keyboard_pop. cbn [kbuf khead].
    rewrite Z.rem_mod_nonneg by (unfold VANA_KEYBOARD_BUFFER_SIZE; lia).
    rewrite (upd_idx_eq _ _ _ _ E), (proj2 (Z.eqb_neq _ _) Hc0).
    rewrite upd_Some; [done|]. apply ring_slot_range. by rewrite (upd_length _ _ _ _ E).
  - intros -> Hpos. simpl in Ht. rewrite Z.add_0_r in Ht. unfold keyboard_backspace.
    destruct (Z.eqb_spec (ktail kb) 0); [lia|]. rewrite s32_small by range.
    unfold keyboard_push, keyboard_pop, keyboard_get_tail_index; cbn [kbuf khead ktail].
    rewrite !Z.rem_mod_nonneg by (unfold VANA_KEYBOARD_BUFFER_SIZE; lia).
    destruct ((kbuf kb).[(ktail kb - 1) mod VANA_KEYBOARD_BUFFER_SIZE <- 0]) as [b|] eqn:E.
    2:{ rewrite upd_Some in E by (by apply ring_slot_range). done. }
    pose proof (upd_length _ _ _ _ E) as Hlb.
    exists {| kbuf := b; khead := khead kb; ktail := ktail kb - 1 |}.
    rewrite (proj2 (Z.eqb_neq _ _) Hc0). cbn [kbuf khead ktail].
    rewrite Z.rem_mod_nonneg by (unfold VANA_KEYBOARD_BUFFER_SIZE; lia).
    destruct (b.[(ktail kb - 1) mod VANA_KEYBOARD_BUFFER_SIZE <- c]) as [b'|] eqn:E'.
    2:{ rewrite upd_Some in E' by (apply ring_slot_range; congruence). done. }
    eexists. split_and!; [done|done|]. cbn [kbuf khead ktail].
    rewrite Z.rem_mod_nonneg by (unfold VANA_KEYBOARD_BUFFER_SIZE; lia).
    assert ((ktail kb - 1) mod VANA_KEYBOARD_BUFFER_SIZE ≠ khead kb mod VANA_KEYBOARD_BUFFER_SIZE) as Hd.
    { unfold VANA_KEYBOARD_BUFFER_SIZE. euclid. }
    rewrite (upd_idx_ne _ _ _ _ _ Hd E'), (upd_idx_ne _ _ _ _ _ Hd E).
    pose proof (Hs 0 ltac:(done)) as H0. rewrite Z.add_0_r in H0. by rewrite H0.
Qed.

Lemma ring_used_repr : ring_repr {| kbuf := replicate (Z.to_nat 1024) 0; khead := 1; ktail := 1 |} [].
Proof.
  split; try done. intros k Hk. cbn [kbuf khead].
  replace ((1 + k) mod VANA_KEYBOARD_BUFFER_SIZE) with (Z.of_nat (Z.to_nat ((1 + k) mod VANA_KEYBOARD_BUFFER_SIZE)))
    by (unfold VANA_KEYBOARD_BUFFER_SIZE; euclid).
  rewrite idx_nat, lookup_replicate_2; [|unfold VANA_KEYBOARD_BUFFER_SIZE in *; euclid].
  rewrite idx_None; [done|simpl; lia].
Qed.

(** At the bound: the tail of an empty buffer after 2^31 - 1 characters.  The next
    push overflows it, and the one after the next writes in front of the buffer. *)
Lemma keyboard_tail_overflow :
  let kb := {| kbuf := replicate (Z.to_nat 1024) 0; khead := 2 ^ 31 - 1; ktail := 2 ^ 31 - 1 |} in
  (keyboard_push 97;; gets ktail) kb ≫= (λ r, Done r.1) = Done (- 2 ^ 31) ∧
  (keyboard_push 97;; keyboard_push 98;; keyboard_push 99) kb = Undef.
Proof. by vm_compute. Qed.

Lemma keyboard_ring_limits_witness :
  let kb := {| kbuf := replicate (Z.to_nat 1024) 0; khead := 1; ktail := 1 |} in
  ∃ kb1 kb2, keyboard_backspace kb = Done (tt, kb1) ∧ keyboard_push 97 kb1 = Done (tt, kb2) ∧
             keyboard_pop kb2 = Done (0, kb2).
Proof.
  intros kb. apply (keyboard_ring_limits kb [] 97 ring_used_repr); done.
Defined.

(** ** Scancodes *)

(** The US layout of the main block: scancode, character, shifted character. *)
Definition us_layout : list (Z * (Z * Z)) :=
  [(0x01, (27, 27)); (0x02, (49, 33)); (0x03, (50, 64)); (0x04, (51, 35)); (0x05, (52, 36));
   (0x06, (53, 37)); (0x07, (54, 94)); (0x08, (55, 38)); (0x09, (56, 42)); (0x0A, (57, 40));
   (0x0B, (48, 41)); (0x0C, (45, 95)); (0x0D, (61, 43)); (0x0E, (8, 8)); (0x0F, (9, 9));
   (0x10, (113, 81)); (0x11, (119, 87)); (0x12, (101, 69)); (0x13, (114, 82)); (0x14, (116, 84));
   (0x15, (121, 89)); (0x16, (117, 85)); (0x17, (105, 73)); (0x18, (111, 79)); (0x19, (112, 80));
   (0x1A, (91, 123)); (0x1B, (93, 125)); (0x1C, (13, 13)); (0x1E, (97, 65)); (0x1F, (115, 83));
   (0x20, (100, 68)); (0x21, (102, 70)); (0x22, (103, 71)); (0x23, (104, 72)); (0x24, (106, 74));
   (0x25, (107, 75)); (0x26, (108, 76)); (0x27, (59, 58)); (0x28, (39, 34)); (0x29, (96, 126));
   (0x2B, (92, 124)); (0x2C, (122, 90)); (0x2D, (120, 88)); (0x2E, (99, 67)); (0x2F, (118, 86));
   (0x30, (98, 66)); (0x31, (110, 78)); (0x32, (109, 77)); (0x33, (44, 60)); (0x34, (46, 62));
   (0x35, (47, 63)); (0x37, (42, 42)); (0x39, (32, 32))].

Definition us_char (shift caps : bool) (scancode : Z) : Z :=
  match list_find (λ e, e.1 = scancode) us_layout with
  | None => 0
  | Some (_, (_, (plain, shifted))) =>
      let letter := (97 <=? plain) && (plain <=? 122) in
      if (if letter then xorb shift caps else shift) then shifted else plain
  end.

Definition keyboard_in (shift caps : bool) (k : keyboard) : keyboard :=
  {| kb_init := kb_init k; kb_name := kb_name k; capslock_state := Z.b2z caps;
     shift_state := Z.b2z shift; kb_next := kb_next k |}.

Definition main_block : list Z := seqZ 0 0x3A.

Lemma scancode_table k shift caps scancode : 0 <= scancode < 0x3A →
  classic_keyboard_scancode_to_char (keyboard_in shift caps k) scancode = Some (us_char shift caps scancode).
Proof.
  intros Hs. assert (scancode ∈ main_block) as Hin.
  { apply elem_of_seqZ. lia. }
  assert (forallb (λ sc, bool_decide (
    classic_keyboard_scancode_to_char
      {| kb_init := NullInit; kb_name := []; capslock_state := Z.b2z caps;
         shift_state := Z.b2z shift; kb_next := 0 |} sc = Some (us_char shift caps sc))) main_block = true) as Hall.
  { by destruct shift, caps; vm_compute. }
  rewrite forallb_forall in Hall. specialize (Hall scancode).
  apply list_elem_of_In in Hin. apply Hall in Hin. by apply bool_decide_eq_true in Hin.
Qed.

(** For every scancode of the main block and every state of shift and caps
    lock the driver produces the character of the US layout: letters are upper
    case when exactly one of shift and caps lock is on, the other keys follow
    shift alone, and keys without a character give 0. *)
Theorem scancode_us_layout k shift caps scancode : 0 <= scancode < 0x3A →
  classic_keyboard_scancode_to_char (keyboard_in shift caps k) scancode = Some (us_char shift caps scancode).
Proof. apply scancode_table. Qed.

Lemma scancode_us_layout_witness (k := {| kb_init := NullInit; kb_name := []; capslock_state := 7;
                                          shift_state := 7; kb_next := 0 |}) :
  classic_keyboard_scancode_to_char (keyboard_in true false k) 0x1E = Some 65.
Proof. apply (scancode_us_layout k true false 0x1E). done. Defined.

(** The numeric keypad starts at scancode 0x47, but the table has its first
    key at index 0x45 (Num Lock): each keypad key yields the character of the
    key two places further, and 0x52 is read past the end of the table, since
    the bound is tested with [>]. *)
Theorem keypad_misaligned k :
  classic_keyboard_scancode_to_char (keyboard_in false false k) 0x45 = Some 55 ∧
  classic_keyboard_scancode_to_char (keyboard_in false false k) 0x47 = Some 57 ∧
  classic_keyboard_scancode_to_char (keyboard_in false false k) 0x52 = None.
Proof. done. Qed.

(** ** The interrupt handler *)

Lemma byte_cases (P : Z → Prop) `{∀ z, Decision (P z)} :
  forallb (λ z, bool_decide (P z)) (seqZ 0 256) = true → ∀ z, is_u8 z → P z.
Proof.
  intros Hall z Hz. rewrite forallb_forall in Hall. specialize (Hall z).
  apply (bool_decide_eq_true_1 (P z)), Hall, list_elem_of_In, elem_of_seqZ. range.
Qed.

Lemma scancode_bits sc : is_u8 sc →
  Z.land sc CLASSIC_KEYBOARD_KEY_RELEASED = (if decide (128 <= sc) then 128 else 0) ∧
  u8 (Z.land sc (Z.lnot CLASSIC_KEYBOARD_KEY_RELEASED)) = sc mod 128.
Proof. revert sc. apply (byte_cases _). by vm_compute. Qed.

Lemma us_char_range shift caps sc : 0 <= us_char shift caps sc < 127.
Proof.
  unfold us_char. destruct (list_find _ us_layout) as [[i [c [p s]]]|] eqn:E; [|lia].
  apply list_find_Some in E as (E & _ & _).
  assert (Forall (λ e, 0 <= e.2.1 < 127 ∧ 0 <= e.2.2 < 127) us_layout) as Hall
    by (repeat constructor; simpl; lia).
  apply (Forall_lookup_1 _ _ _ _ Hall) in E as [Hp Hs]. simpl in Hp, Hs.
  by destruct (if (97 <=? p) && (p <=? 122) then xorb shift caps else shift).
Qed.

(** What a key event means: the new state of shift and caps lock, and the
    character typed. *)
Definition key_event (sc : Z) (shift caps : bool) : bool * bool * list Z :=
  if decide (sc mod 128 = CLASSIC_KEYBOARD_LSHIFT ∨ sc mod 128 = CLASSIC_KEYBOARD_RSHIFT)
  then (bool_decide (sc < 128), caps, [])
  else if decide (128 <= sc) then (shift, caps, [])
  else if decide (sc = CLASSIC_KEYBOARD_CAPSLOCK) then (shift, negb caps, [])
  else (shift, caps, filter (λ c, c ≠ 0) [us_char shift caps sc]).

Section handler.
Context {D : Type} `{Ports D} (classic_keyboard : Z).

(** One keyboard interrupt, for every scancode of the main block and every
    release code: shift follows its two keys, caps lock toggles on a press,
    other releases are ignored, and a press appends the character of the US
    layout under the current modifiers to the queue. *)
Theorem keyboard_interrupt_behaviour s k shift caps q sc x d1 d2 :
  port_in8 KEYBOARD_INPUT_PORT (kdev s) = (sc, d1) → port_in8 KEYBOARD_INPUT_PORT d1 = (x, d2) →
  0 <= sc <= 0x3A ∨ 0x80 <= sc < 0x100 →
  keyboards s !! classic_keyboard = Some (keyboard_in shift caps k) →
  ring_repr (kbuffer s) q → Z.of_nat (length q) < VANA_KEYBOARD_BUFFER_SIZE →
  ktail (kbuffer s) + 1 < 2 ^ 31 →
  let '(shift', caps', typed) := key_event sc shift caps in
  ∃ s', classic_keyboard_handle_interrupt classic_keyboard s = Done (tt, s') ∧
        keyboards s' !! classic_keyboard = Some (keyboard_in shift' caps' k) ∧
        ring_repr (kbuffer s') (q ++ typed) ∧ kdev s' = d2 ∧ kidt s' = kidt s.
Proof.
  intros Hin1 Hin2 Hsc Hk Hr Hroom Hmax.
  assert (is_u8 sc) as Hu8 by range.
  destruct (scancode_bits sc Hu8) as [Hrel Hcode].
  unfold classic_keyboard_handle_interrupt.
  erewrite bind_done.
  2:{ apply zoom_done. unfold insb. change (u16 KEYBOARD_INPUT_PORT) with KEYBOARD_INPUT_PORT.
      rewrite Hin1, u8_small by done. reflexivity. }
  erewrite bind_done.
  2:{ apply zoom_done. unfold insb. change (u16 KEYBOARD_INPUT_PORT) with KEYBOARD_INPUT_PORT.
      cbn [kdev set_kdev]. rewrite Hin2. reflexivity. }
  cbv zeta. rewrite Hrel, Hcode.
  unfold key_event. destruct (decide (sc mod 128 = _ ∨ _)) as [Hsh|Hsh].
  { replace ((sc mod 128 =? _) || _) with true by (symmetry; apply orb_true_iff; rewrite !Z.eqb_eq; tauto).
    eexists. split_and!.
    - unfold keyboard_set_shift, update_keyboard, get_keyboard, modify, mbind, M_bind.
      cbn [keyboards set_kdev]. rewrite Hk. reflexivity.
    - cbn. rewrite lookup_insert_eq. unfold keyboard_in. f_equal. f_equal.
      destruct (decide (128 <= sc)); [rewrite bool_decide_false by lia|rewrite bool_decide_true by lia]; done.
    - by rewrite app_nil_r.
    - done.
    - done. }
  replace ((sc mod 128 =? _) || _) with false
    by (symmetry; apply orb_false_iff; rewrite !Z.eqb_neq; tauto).
  destruct (decide (128 <= sc)) as [Hge|Hlt].
  { eexists. split_and!; [done|done|by rewrite app_nil_r|done|done]. }
  change (negb (0 =? 0)) with false. cbn iota.
  destruct (decide (sc = CLASSIC_KEYBOARD_CAPSLOCK)) as [->|Hcaps].
  { cbn [Z.eqb CLASSIC_KEYBOARD_CAPSLOCK Pos.eqb]. eexists. split_and!.
    - unfold keyboard_get_capslock, keyboard_set_capslock, update_keyboard, get_keyboard, modify, mbind, M_bind.
      cbn [keyboards set_kdev]. rewrite Hk. cbn. rewrite Hk. reflexivity.
    - cbn. rewrite lookup_insert_eq. by destruct caps.
    - by rewrite app_nil_r.
    - done.
    - done. }
  rewrite (proj2 (Z.eqb_neq _ _) Hcaps). unfold CLASSIC_KEYBOARD_CAPSLOCK in Hcaps.
  erewrite bind_done; [|unfold get_keyboard; cbn [keyboards set_kdev]; rewrite Hk; reflexivity].
  erewrite bind_done; [|unfold liftO; rewrite scancode_table by lia; reflexivity].
  pose proof (us_char_range shift caps sc) as Hc. rewrite s8_small by lia.
  destruct (Z.eqb_spec (us_char shift caps sc) 0) as [E0|Hne].
  { rewrite E0. eexists. split_and!; [done|done|by rewrite app_nil_r|done|done]. }
  destruct (ring_push (kbuffer s) q (us_char shift caps sc)) as (kb' & E & Hr' & _); [done..|].
  rewrite filter_cons_True by done. eexists.
  split; [apply zoom_done, E|]. by split_and!.
Qed.
End handler.

Lemma keyboard_interrupt_behaviour_witness :
  let s := {| kbuffer := ring_empty; keyboard_list_head := 8; keyboard_list_last := 8;
              keyboards := {[ 8 := keyboard_in true false {| kb_init := NullInit; kb_name := [];
                                capslock_state := 0; shift_state := 0; kb_next := 0 |} ]};
              kidt := idt_blank; kdev := {| written := []; pending := [0x1E; 0x1E] |} |} in
  ∃ s', classic_keyboard_handle_interrupt 8 s = Done (tt, s') ∧
        keyboards s' !! 8 = keyboards s !! 8 ∧
        ring_repr (kbuffer s') [65] ∧ kdev s' = {| written := []; pending := [] |} ∧ kidt s' = kidt s.
Proof.
  intros s. apply (keyboard_interrupt_behaviour 8 s
    {| kb_init := NullInit; kb_name := []; capslock_state := 0; shift_state := 0; kb_next := 0 |}
    true false [] 0x1E 0x1E {| written := []; pending := [0x1E] |} {| written := []; pending := [] |});
    [done|done|lia|done|exact ring_empty_repr|done|done].
Defined.
