(* ===== verification/PathParser.v ===== *)
(** * The path parser

    Models src/src/fs/pparser.c.  The nodes of a parsed path and its component
    strings live in typed stores; [pathparser_free] removes what it frees, so
    that a use after free or a double free is [Undef].  The parser is a client
    of the allocator and is verified against the class [Allocator].

    [components] is the abstract result: the names between the slashes, up to
    the first empty one.  The theorems say that a valid path yields exactly its
    drive and its components, that an invalid one yields null without a leak,
    and that [pathparser_free] gives back everything. *)

From S2P Require Import Prelude Config CString Heap Kheap.
Local Open Scope Z_scope.

Record path_part := { part : Z; next : Z }.
Record path_root := { drive_no : Z; first : Z }.

Definition sizeof_path_root : Z := 8.
Definition sizeof_path_part : Z := 8.

(** ** Pure helpers *)

Definition pathparser_path_valid_format (filename : list Z) : option bool :=
  len ← strnlen filename VANA_MAX_PATH;
  if 3 <=? len then
    c ← filename.[0];
    if isdigit (s8 c) then
      r ← memcmp (drop 1 filename) [58; 47] 2;
      Some (r =? 0)
    else Some false
  else Some false.

(** The drive, or [- EBADPATH], and the advanced pointer. *)
Definition pathparser_get_drive_by_path (path : list Z) : option (Z * list Z) :=
  valid ← pathparser_path_valid_format path;
  if negb valid then Some (- EBADPATH, path)
  else
    c ← path.[0];
    let drive_no := tonumericdigit (s8 c) in
    Some (drive_no, drop 3 path).

(** The copying loop of [pathparser_get_path_part]: the advanced pointer, the
    buffer and the number of bytes copied. *)
Fixpoint copy_part (path buf : list Z) (i : Z) : option (list Z * list Z * Z) :=
  match path with
  | [] => None
  | c :: rest =>
      if negb (c =? 47) && negb (c =? 0) then
        buf ← buf.[i <- c]; copy_part rest buf (i + 1)
      else Some (path, buf, i)
  end.

Section parser.
Context {S : Type} `{Allocator S}.

Record pp_state := {
  pp_mem : S;
  roots : gmap Z path_root;
  parts : gmap Z path_part;
  strs : gmap Z (list Z)
}.

Definition set_pp_mem (m : S) (s : pp_state) : pp_state :=
  {| pp_mem := m; roots := roots s; parts := parts s; strs := strs s |}.
Definition set_roots (r : gmap Z path_root) (s : pp_state) : pp_state :=
  {| pp_mem := pp_mem s; roots := r; parts := parts s; strs := strs s |}.
Definition set_parts (p : gmap Z path_part) (s : pp_state) : pp_state :=
  {| pp_mem := pp_mem s; roots := roots s; parts := p; strs := strs s |}.
Definition set_strs (t : gmap Z (list Z)) (s : pp_state) : pp_state :=
  {| pp_mem := pp_mem s; roots := roots s; parts := parts s; strs := t |}.

Definition pp_alloc (size : Z) : M pp_state Z := zoom pp_mem set_pp_mem (alloc size).
Definition pp_release (p : Z) : M pp_state unit := zoom pp_mem set_pp_mem (release p).

(** Access through a pointer, and the release of an object of each kind. *)
Definition get_part (p : Z) : M pp_state path_part := λ s,
  match parts s !! p with Some x => Done (x, s) | None => Undef end.
Definition get_root (p : Z) : M pp_state path_root := λ s,
  match roots s !! p with Some x => Done (x, s) | None => Undef end.

Definition free_str (p : Z) : M pp_state unit :=
  pp_release p;; modify (λ s, set_strs (delete p (strs s)) s).
Definition free_part (p : Z) : M pp_state unit :=
  pp_release p;; modify (λ s, set_parts (delete p (parts s)) s).
Definition free_root (p : Z) : M pp_state unit :=
  pp_release p;; modify (λ s, set_roots (delete p (roots s)) s).

(** ** Operations *)

Definition pathparser_create_root (drive_number : Z) : M pp_state Z :=
  path_r ← pp_alloc sizeof_path_root;
  if path_r =? 0 then mret 0
  else
    modify (λ s, set_roots (<[path_r := {| drive_no := drive_number; first := 0 |}]> (roots s)) s);;
    mret path_r.

(** The string (null when there is no component) and the advanced pointer. *)
Definition pathparser_get_path_part (path : list Z) : M pp_state (Z * list Z) :=
  result_path_part ← pp_alloc VANA_MAX_PATH;
  if result_path_part =? 0 then mret (0, path)
  else
    r ← liftO (copy_part path (replicate (Z.to_nat VANA_MAX_PATH) 0) 0);
    let '(path, buf, i) := r in
    modify (λ s, set_strs (<[result_path_part := buf]> (strs s)) s);;
    c ← liftO path.[0];
    let path := if c =? 47 then drop 1 path else path in
    if i =? 0 then free_str result_path_part;; mret (0, path)
    else mret (result_path_part, path).

Definition pathparser_parse_path_part (last_part : Z) (path : list Z) : M pp_state (Z * list Z) :=
  r ← pathparser_get_path_part path;
  let '(path_part_str, path) := r in
  if path_part_str =? 0 then mret (0, path)
  else
    p ← pp_alloc sizeof_path_part;
    if p =? 0 then free_str path_part_str;; mret (0, path)
    else
      modify (λ s, set_parts (<[p := {| part := path_part_str; next := 0 |}]> (parts s)) s);;
      (if negb (last_part =? 0) then
         l ← get_part last_part;
         modify (λ s, set_parts (<[last_part := {| part := part l; next := p |}]> (parts s)) s)
       else mret tt);;
      mret (p, path).

(** [while (part)]: each round consumes a component, so the length of the path
    bounds the number of rounds. *)
Fixpoint parse_loop (fuel : nat) (p : Z) (path : list Z) : M pp_state unit :=
  if p =? 0 then mret tt
  else match fuel with
       | O => λ _, Spin
       | Datatypes.S fuel =>
           r ← pathparser_parse_path_part p path; parse_loop fuel r.1 r.2
       end.

Definition pathparser_parse (path : list Z) : M pp_state Z :=
  let fail (root first : Z) :=
    (if negb (root =? 0) then free_root root else mret tt);;
    (if negb (first =? 0) then free_part first else mret tt);;
    mret 0 in
  len ← liftO (strlen path);
  if VANA_MAX_PATH <? len then fail 0 0
  else
    r ← liftO (pathparser_get_drive_by_path path);
    let '(res, tmp_path) := r in
    if res <? 0 then fail 0 0
    else
      root ← pathparser_create_root res;
      if root =? 0 then fail 0 0
      else
        r ← pathparser_parse_path_part 0 tmp_path;
        let '(first_part, tmp_path) := r in
        if first_part =? 0 then fail root 0
        else
          pr ← get_root root;
          modify (λ s, set_roots (<[root := {| drive_no := drive_no pr; first := first_part |}]> (roots s)) s);;
          r ← pathparser_parse_path_part first_part tmp_path;
          parse_loop (length path) r.1 r.2;;
          mret root.

(** [while (part)] over the list of parts; [fuel] bounds its length. *)
Fixpoint free_loop (fuel : nat) (p : Z) : M pp_state unit :=
  if p =? 0 then mret tt
  else match fuel with
       | O => λ _, Spin
       | Datatypes.S fuel =>
           x ← get_part p;
           let next_part := next x in
           free_str (part x);;
           free_part p;;
           free_loop fuel next_part
       end.

Definition pathparser_free (fuel : nat) (root : Z) : M pp_state unit :=
  r ← get_root root;
  free_loop fuel (first r);;
  free_root root.
End parser.

Arguments pp_state S : clear implicits.

(** ** The abstract path *)

Fixpoint components_from (acc s : list Z) : list (list Z) :=
  match s with
  | [] => if decide (acc = []) then [] else [acc]
  | c :: s =>
      if c =? 47 then if decide (acc = []) then [] else acc :: components_from [] s
      else components_from (acc ++ [c]) s
  end.

Definition components (s : list Z) : list (list Z) := components_from [] s.

(** The paths that have the form [<digit>:/...] and at most [VANA_MAX_PATH]
    characters. *)
Definition path_drive (s : list Z) : option (Z * list Z) :=
  match s with
  | d :: c1 :: c2 :: rest =>
      if (48 <=? d) && (d <=? 57) && (c1 =? 58) && (c2 =? 47) &&
         (Z.of_nat (length s) <=? VANA_MAX_PATH)
      then Some (d - 48, rest) else None
  | _ => None
  end.

Definition plain (s : list Z) : Prop := Forall (λ c, c ≠ 47 ∧ c ≠ 0) s.

Lemma copy_part_spec comp c rest A B : plain comp → c = 47 ∨ c = 0 → (length comp ≤ length B)%nat →
  copy_part (comp ++ c :: rest) (A ++ B) (Z.of_nat (length A)) =
  Some (c :: rest, A ++ comp ++ drop (length comp) B, Z.of_nat (length A + length comp)).
Proof.
  intros Hp Hc. revert A B. induction Hp as [|x comp [Hx1 Hx2] Hp IH]; intros A B Hl.
  - cbn [app copy_part]. replace (negb (c =? 47) && negb (c =? 0)) with false by (by destruct Hc as [-> | ->]).
    simpl. by rewrite Nat.add_0_r.
  - destruct B as [|b B]; simpl in Hl; [lia|]. cbn [app copy_part].
    rewrite (proj2 (Z.eqb_neq _ _) Hx1), (proj2 (Z.eqb_neq _ _) Hx2). cbn [negb andb].
    rewrite upd_app. cbn [mbind option_bind].
    replace (Z.of_nat (length A) + 1) with (Z.of_nat (length (A ++ [x]))) by (rewrite length_app; simpl; lia).
    replace (A ++ x :: B) with ((A ++ [x]) ++ B) by (by rewrite <- app_assoc).
    rewrite IH by lia. rewrite length_app, <- app_assoc. simpl.
    by replace (length A + 1 + length comp)%nat with (length A + S (length comp))%nat by lia.
Qed.

Lemma copy_part_start comp c rest B : plain comp → c = 47 ∨ c = 0 → (length comp ≤ length B)%nat →
  copy_part (comp ++ c :: rest) B 0 =
  Some (c :: rest, comp ++ drop (length comp) B, Z.of_nat (length comp)).
Proof. apply (copy_part_spec comp c rest []). Qed.

(** The next component of a path, and what follows it. *)
Lemma components_from_app acc comp r : plain comp →
  components_from acc (comp ++ 47 :: r) =
  if decide (acc ++ comp = []) then [] else (acc ++ comp) :: components r.
Proof.
  intros Hp. revert acc. induction Hp as [|x comp [Hx _] _ IH]; intros acc.
  { simpl. by rewrite app_nil_r. }
  cbn [app components_from]. rewrite (proj2 (Z.eqb_neq _ _) Hx), IH. by rewrite <- app_assoc.
Qed.

Lemma components_from_end acc comp : plain comp →
  components_from acc comp = if decide (acc ++ comp = []) then [] else [acc ++ comp].
Proof.
  intros Hp. revert acc. induction Hp as [|x comp [Hx _] _ IH]; intros acc.
  { simpl. by rewrite app_nil_r. }
  cbn [components_from]. rewrite (proj2 (Z.eqb_neq _ _) Hx), IH. by rewrite <- app_assoc.
Qed.

Lemma components_split r tl : nonzero r → ∃ comp c rest r',
  r ++ 0 :: tl = comp ++ c :: rest ∧ (c = 47 ∨ c = 0) ∧ plain comp ∧
  (if c =? 47 then rest else c :: rest) = r' ++ 0 :: tl ∧ nonzero r' ∧
  components r = (if decide (comp = []) then [] else comp :: components r') ∧
  (length comp + length r' ≤ length r)%nat.
Proof.
  intros Hr. assert (∃ comp r', plain comp ∧ nonzero r' ∧ (r = comp ++ 47 :: r' ∨ r = comp ∧ r' = []))
    as (comp & r' & Hp & Hr' & [->|[-> ->]]).
  { induction Hr as [|x r Hx Hr (comp & r' & Hp & Hr' & IH)].
    { exists [], []. by split_and!; [constructor|constructor|right]. }
    destruct (decide (x = 47)) as [->|Hne].
    { exists [], r. split_and!; [constructor|done|by left]. }
    exists (x :: comp), r'. split_and!; [by constructor|done|].
    destruct IH as [->|[-> ->]]; [by left|by right]. }
  - exists comp, 47, (r' ++ 0 :: tl), r'. split_and!; try done; [by rewrite <- app_assoc|by left| |].
    + unfold components at 1. by rewrite components_from_app.
    + rewrite length_app. simpl. lia.
  - exists comp, 0, tl, []. split_and!; try done; [by right| |simpl; lia].
    unfold components at 1. by rewrite components_from_end.
Qed.

(** ** Parsed paths *)

Section parser_spec.
Context {S : Type} `{Allocator S}.
Implicit Types s : pp_state S.

(** No address is in two stores. *)
Definition separate s : Prop :=
  ∀ p, (is_Some (strs s !! p) → parts s !! p = None ∧ roots s !! p = None) ∧
       (is_Some (parts s !! p) → roots s !! p = None).

(** The heap is in the state [A], [n], and every object of the stores is one of
    its allocations. *)
Record pp_inv s (A : gmap Z nat) (n : nat) : Prop := {
  pi_owns : owns (pp_mem s) A n;
  pi_stores : ∀ p, A !! p = None → roots s !! p = None ∧ parts s !! p = None ∧ strs s !! p = None;
  pi_separate : separate s
}.

(** [pas] are the addresses of the list nodes and of their strings. *)
Fixpoint plist (P : gmap Z path_part) (T : gmap Z (list Z)) (pas : list (Z * Z)) (cs : list (list Z)) : Prop :=
  match pas, cs with
  | [], [] => True
  | (pa, sa) :: pas, c :: cs =>
      P !! pa = Some {| part := sa; next := default 0 (fst <$> head pas) |} ∧
      (∃ buf, T !! sa = Some buf ∧ cstr buf = Some c) ∧ plist P T pas cs
  | _, _ => False
  end.

(** The allocations of a list of parts, in the order they are freed. *)
Definition blocks_of (pas : list (Z * Z)) : list Z := pas ≫= λ x, [x.2; x.1].

Lemma pp_alloc_ok s A n size : pp_inv s A (Datatypes.S n) → 0 < size <= VANA_HEAP_BLOCK_SIZE →
  ∃ p m, pp_alloc size s = Done (p, set_pp_mem m s) ∧ p ≠ 0 ∧ A !! p = None ∧
         owns m (<[p := 1%nat]> A) n ∧
         roots s !! p = None ∧ parts s !! p = None ∧ strs s !! p = None.
Proof.
  intros [Ho Hs _] Hsz. destruct (alloc_small (pp_mem s) A n size Ho Hsz) as (p & m & E & Hp & Ho').
  assert (0 < p) by (eapply owns_range; [done|by rewrite lookup_insert_eq]).
  exists p, m. split_and!; [by apply zoom_done|lia|done|done|apply Hs, Hp..].
Qed.

Lemma pp_release_ok s A n p : owns (pp_mem s) (<[p := 1%nat]> A) n → A !! p = None →
  ∃ m, pp_release p s = Done (tt, set_pp_mem m s) ∧ owns m A (n + 1).
Proof.
  intros Ho Hp. destruct (release_block (pp_mem s) [] p A n Ho) as (m & E & Ho'); [by intros ?%elem_of_nil|done|].
  exists m. split; [by apply zoom_done|done].
Qed.

(** Reading one component: none is left. *)
Lemma get_path_part_none s A n c rest : pp_inv s A (Datatypes.S n) → c = 47 ∨ c = 0 →
  ∃ m, pathparser_get_path_part (c :: rest) s =
         Done (0, if c =? 47 then rest else c :: rest, set_pp_mem m s) ∧
       pp_inv (set_pp_mem m s) A (Datatypes.S n).
Proof.
  intros Hinv Hc. destruct (pp_alloc_ok s A n VANA_MAX_PATH Hinv) as (p & m & E & Hp & HA & Ho & _ & _ & Hsp); [done|].
  set (buf := replicate (Z.to_nat VANA_MAX_PATH) 0).
  destruct (pp_release_ok (set_strs (<[p := buf]> (strs s)) (set_pp_mem m s)) A n p Ho HA) as (m' & E' & Ho').
  exists m'. split; [|split; [by rewrite Nat.add_1_r in Ho'|apply Hinv..]].
  unfold pathparser_get_path_part. rewrite (bind_done _ _ _ _ _ E), (proj2 (Z.eqb_neq _ _) Hp).
  fold buf. erewrite bind_done.
  2:{ unfold liftO. change (c :: rest) with ([] ++ c :: rest).
      rewrite copy_part_start; [reflexivity|by apply Forall_nil|done|simpl; lia]. }
  cbv beta iota. erewrite bind_done; [|reflexivity]. erewrite bind_done; [|reflexivity].
  change (Z.of_nat (length []) =? 0) with true. change ([] ++ drop _ buf) with buf. cbv beta iota zeta.
  unfold free_str. erewrite bind_done; [|erewrite bind_done; [reflexivity|apply E']].
  unfold mret, M_ret. cbn. rewrite delete_insert_id by done. destruct s; simpl.
  by destruct (c =? 47).
Qed.

(** Reading one component: it goes to a new string. *)
Lemma get_path_part_some s A n comp c rest :
  pp_inv s A (Datatypes.S n) → c = 47 ∨ c = 0 → plain comp → comp ≠ [] →
  Z.of_nat (length comp) < VANA_MAX_PATH →
  ∃ sa m buf, pathparser_get_path_part (comp ++ c :: rest) s =
         Done (sa, if c =? 47 then rest else c :: rest,
               set_strs (<[sa := buf]> (strs s)) (set_pp_mem m s)) ∧
       cstr buf = Some comp ∧ sa ≠ 0 ∧ A !! sa = None ∧ owns m (<[sa := 1%nat]> A) n.
Proof.
  intros Hinv Hc Hp Hne Hl.
  destruct (pp_alloc_ok s A n VANA_MAX_PATH Hinv) as (p & m & E & Hp0 & HA & Ho & _ & _ & _); [done|].
  set (z := replicate (Z.to_nat VANA_MAX_PATH) 0).
  exists p, m, (comp ++ drop (length comp) z). split_and!; [|..|done|done|done].
  - unfold pathparser_get_path_part. rewrite (bind_done _ _ _ _ _ E), (proj2 (Z.eqb_neq _ _) Hp0).
    fold z. erewrite bind_done.
    2:{ unfold liftO. rewrite copy_part_start; [reflexivity|done|done|].
        unfold z. rewrite length_replicate. lia. }
    cbv beta iota. erewrite bind_done; [|reflexivity]. erewrite bind_done; [|reflexivity].
    rewrite (proj2 (Z.eqb_neq (Z.of_nat _) 0)); [by destruct (c =? 47)|].
    destruct comp; [done|]. simpl. lia.
  - unfold z. rewrite drop_replicate. destruct (Z.to_nat VANA_MAX_PATH - length comp)%nat eqn:El; [lia|].
    cbn [replicate]. apply cstr_app. eapply Forall_impl; [done|]. simpl. tauto.
Qed.

(** Appending a part behind [last]; 0 stands for no part. *)
Definition link (last pa : Z) (P : gmap Z path_part) : gmap Z path_part :=
  match P !! last with
  | Some l => if last =? 0 then P else <[last := {| part := part l; next := pa |}]> P
  | None => P
  end.

Lemma parse_path_part_none s A n last c rest : pp_inv s A (Datatypes.S n) → c = 47 ∨ c = 0 →
  ∃ m, pathparser_parse_path_part last (c :: rest) s =
         Done (0, if c =? 47 then rest else c :: rest, set_pp_mem m s) ∧
       pp_inv (set_pp_mem m s) A (Datatypes.S n).
Proof.
  intros Hinv Hc. destruct (get_path_part_none s A n c rest Hinv Hc) as (m & E & Hinv').
  exists m. split; [|done]. unfold pathparser_parse_path_part. by rewrite (bind_done _ _ _ _ _ E).
Qed.

Lemma parse_path_part_some s A n last comp c rest :
  pp_inv s A (Datatypes.S (Datatypes.S n)) → c = 47 ∨ c = 0 → plain comp → comp ≠ [] →
  Z.of_nat (length comp) < VANA_MAX_PATH → last = 0 ∨ is_Some (parts s !! last) →
  ∃ sa pa buf s', pathparser_parse_path_part last (comp ++ c :: rest) s =
       Done (pa, if c =? 47 then rest else c :: rest, s') ∧
    pp_inv s' (<[pa := 1%nat]> (<[sa := 1%nat]> A)) n ∧ cstr buf = Some comp ∧
    A !! sa = None ∧ A !! pa = None ∧ sa ≠ pa ∧ pa ≠ 0 ∧
    roots s' = roots s ∧ strs s' = <[sa := buf]> (strs s) ∧
    parts s' = link last pa (<[pa := {| part := sa; next := 0 |}]> (parts s)).
Proof.
  intros Hinv Hc Hp Hne Hl Hlast.
  destruct (get_path_part_some s A _ comp c rest Hinv Hc Hp Hne Hl) as (sa & m & buf & E & Hb & Hsa & HA & Ho).
  set (s1 := set_strs (<[sa := buf]> (strs s)) (set_pp_mem m s)).
  destruct (alloc_small m _ n sizeof_path_part Ho) as (pa & m2 & E2 & Hpa & Ho2); [done|].
  assert (0 < pa) by (eapply owns_range; [done|by rewrite lookup_insert_eq]).
  apply lookup_insert_None in Hpa as [HpA Hne'].
  set (P1 := <[pa := {| part := sa; next := 0 |}]> (parts s)).
  exists sa, pa, buf, {| pp_mem := m2; roots := roots s; parts := link last pa P1;
                         strs := <[sa := buf]> (strs s) |}.
  assert (last ≠ 0 → last ≠ pa ∧ is_Some (P1 !! last)) as Hlp.
  { intros Hl0. destruct Hlast as [|[l Hlk]]; [done|].
    assert (last ≠ pa) by (intros ->; destruct Hinv as [_ Hs _]; destruct (Hs _ HpA) as (_ & Hq & _); congruence).
    split; [done|]. unfold P1. rewrite lookup_insert_ne by done. eauto. }
  split_and!; try done; [| |lia].
  - unfold pathparser_parse_path_part. rewrite (bind_done _ _ _ _ _ E). cbv beta iota.
    rewrite (proj2 (Z.eqb_neq _ _) Hsa). fold s1.
    erewrite bind_done; [|by apply zoom_done, E2].
    rewrite (proj2 (Z.eqb_neq pa 0)) by lia. erewrite bind_done; [|reflexivity].
    unfold link. destruct (Z.eqb_spec last 0) as [->|Hl0]; cbn [negb].
    + erewrite bind_done; [|reflexivity]. unfold mret, M_ret, s1. simpl. by destruct (P1 !! 0).
    + destruct (Hlp Hl0) as [Hlpa [l Hlk]]. rewrite Hlk.
      erewrite bind_done.
      2:{ erewrite bind_done; [reflexivity|]. unfold get_part. cbn [parts set_parts s1 set_strs set_pp_mem].
          fold P1. rewrite Hlk. reflexivity. }
      done.
  - destruct Hinv as [_ Hs Hsep].
    assert (∀ q, link last pa P1 !! q = None ↔ P1 !! q = None) as Hlink.
    { intros q. unfold link. destruct (Z.eqb_spec last 0) as [->|Hl0]; [by destruct (P1 !! 0)|].
      destruct (Hlp Hl0) as [Hlpa [l Hlk]]. rewrite Hlk. rewrite lookup_insert_None.
      split; [by intros [? _]|intros; split; congruence]. }
    split; [done|..]; cbn [roots parts strs].
    + intros q Hq. apply lookup_insert_None in Hq as [Hq Hqp]. apply lookup_insert_None in Hq as [Hq Hqs].
      destruct (Hs q Hq) as (Hq1 & Hq2 & Hq3). split_and!; [done| |by rewrite lookup_insert_ne].
      apply Hlink. unfold P1. by rewrite lookup_insert_ne.
    + destruct (Hs sa HA) as (Hr1 & Hr2 & Hr3). destruct (Hs pa HpA) as (Ht1 & Ht2 & Ht3).
      intros q. cbn [roots parts strs]. rewrite Hlink. split.
      * intros [x [[<- _]|[Hqs Hx]]%lookup_insert_Some].
        { unfold P1. by rewrite lookup_insert_ne. }
        destruct (Hsep q) as [Hq _]. destruct Hq as [Hq1 Hq2]; [eauto|]. split; [|done].
        unfold P1. rewrite lookup_insert_ne by congruence. done.
      * intros Hx. destruct (decide (q = pa)) as [->|Hqp]; [done|]. apply Hsep.
        apply not_eq_None_Some in Hx. apply not_eq_None_Some. intros Hx'. apply Hx, Hlink.
        unfold P1. by rewrite lookup_insert_ne.
Qed.

(** Updates away from a list keep it; appending at its end extends it. *)
Lemma plist_frame P T P' T' pas cs :
  (∀ pa sa, (pa, sa) ∈ pas → P' !! pa = P !! pa ∧ T' !! sa = T !! sa) →
  plist P T pas cs → plist P' T' pas cs.
Proof.
  revert cs. induction pas as [|[pa sa] pas IH]; intros [|c cs] Hf; try done.
  intros (H1 & (buf & H2 & H3) & H4). destruct (Hf pa sa) as [E1 E2]; [by left|].
  split_and!; [by rewrite E1|exists buf; by rewrite E2|].
  apply IH; [|done]. intros. apply Hf. by right.
Qed.

Lemma plist_snoc P T pas last sl cs c pa sa buf :
  plist P T (pas ++ [(last, sl)]) cs → last ≠ 0 → pa ∉ (pas ++ [(last, sl)]).*1 →
  NoDup (pas ++ [(last, sl)]).*1 → sa ∉ (pas ++ [(last, sl)]).*2 → cstr buf = Some c →
  plist (link last pa (<[pa := {| part := sa; next := 0 |}]> P)) (<[sa := buf]> T)
    ((pas ++ [(last, sl)]) ++ [(pa, sa)]) (cs ++ [c]).
Proof.
  intros Hpl Hl0 Hpa Hnd Hsa Hb.
  assert (P !! last = Some {| part := sl; next := 0 |}) as Hlast.
  { clear -Hpl. revert cs Hpl. induction pas as [|[q t] pas IH]; intros [|c cs]; simpl; try done.
    - by intros (? & _).
    - intros (_ & _ & Hr). eauto. }
  assert (pa ≠ last) as Hne.
  { intros ->. apply Hpa. rewrite fmap_app. apply elem_of_app. right. by left. }
  set (P' := link last pa _). set (T' := <[sa := buf]> T).
  assert (P' = <[last := {| part := sl; next := pa |}]> (<[pa := {| part := sa; next := 0 |}]> P)) as HP'.
  { unfold P', link. rewrite lookup_insert_ne by done. rewrite Hlast.
    by rewrite (proj2 (Z.eqb_neq _ _) Hl0). }
  assert (P' !! pa = Some {| part := sa; next := 0 |}) as Hpa'.
  { rewrite HP', lookup_insert_ne, lookup_insert_eq by done. done. }
  clearbody P'. revert cs Hpl. induction pas as [|[q t] pas IH]; intros [|c0 cs]; simpl; try done.
  - intros (_ & (b & H2 & H3) & Hcs). destruct cs; [|done]. split_and!.
    + by rewrite HP', lookup_insert_eq.
    + exists b. split; [|done]. unfold T'. rewrite lookup_insert_ne; [done|].
      intros ->. apply Hsa. simpl. by left.
    + simpl. split_and!; [done| |done].
      exists buf. split; [|done]. unfold T'. by rewrite lookup_insert_eq.
  - intros (H1 & (b & H2 & H3) & Hr). simpl in Hpa, Hsa, Hnd, IH.
    apply not_elem_of_cons in Hpa as [Hpq Hpa]. apply not_elem_of_cons in Hsa as [Hst Hsa].
    apply NoDup_cons in Hnd as [Hq Hnd]. split_and!.
    + assert (q ≠ last).
      { intros ->. apply Hq. rewrite fmap_app. apply elem_of_app. right. by left. }
      rewrite HP', lookup_insert_ne, lookup_insert_ne, H1 by done. by destruct pas as [|[] ?].
    + exists b. split; [|done]. unfold T'. by rewrite lookup_insert_ne.
    + by apply IH.
Qed.

(** The state after a parse: [root] holds the drive and the components [cs] in
    the nodes [pas], allocated on top of [A]; [n] blocks are free. *)
Record parsed s (root drive : Z) (pas : list (Z * Z)) (cs : list (list Z)) (A : gmap Z nat) (n : nat) : Prop := {
  pd_inv : pp_inv s (with_blocks (blocks_of pas ++ [root]) A) n;
  pd_nodup : NoDup (blocks_of pas ++ [root]);
  pd_fresh : Forall (λ t, A !! t = None) (blocks_of pas ++ [root]);
  pd_list : plist (parts s) (strs s) pas cs;
  pd_root : roots s !! root = Some {| drive_no := drive; first := default 0 (fst <$> head pas) |};
  pd_nonnull : Forall (λ x, x.1 ≠ 0) pas
}.

Lemma blocks_of_cons x pas : blocks_of (x :: pas) = x.2 :: x.1 :: blocks_of pas.
Proof. done. Qed.

Lemma blocks_of_app pas pas' : blocks_of (pas ++ pas') = blocks_of pas ++ blocks_of pas'.
Proof. apply bind_app. Qed.

Lemma blocks_of_in pas pa sa : (pa, sa) ∈ pas → pa ∈ blocks_of pas ∧ sa ∈ blocks_of pas.
Proof.
  intros Hin. split; apply list_elem_of_bind; exists (pa, sa); (split; [|done]); simpl.
  - right. by left.
  - by left.
Qed.

Lemma blocks_of_nodup pas : NoDup (blocks_of pas) → NoDup pas.*1.
Proof.
  induction pas as [|[pa sa] pas IH]; [done|]. rewrite blocks_of_cons. simpl.
  intros [_ [Hpa Hnd]%NoDup_cons]%NoDup_cons. apply NoDup_cons. split; [|auto].
  intros (x & -> & Hx)%list_elem_of_fmap. apply Hpa. destruct x. by apply blocks_of_in in Hx as [? _].
Qed.

Lemma blocks_of_snoc pas pa sa root :
  blocks_of (pas ++ [(pa, sa)]) ++ [root] ≡ₚ pa :: sa :: blocks_of pas ++ [root].
Proof.
  rewrite blocks_of_app. change (blocks_of [(pa, sa)]) with [sa; pa]. rewrite <- app_assoc. simpl.
  rewrite <- !Permutation_middle. by rewrite Permutation_swap.
Qed.

(** One more component. *)
Lemma parsed_step s root drive pas0 last sl cs A n comp c rest :
  let pas := pas0 ++ [(last, sl)] in
  parsed s root drive pas cs A (Datatypes.S (Datatypes.S n)) →
  c = 47 ∨ c = 0 → plain comp → comp ≠ [] → Z.of_nat (length comp) < VANA_MAX_PATH →
  ∃ pa sa s', pathparser_parse_path_part last (comp ++ c :: rest) s =
       Done (pa, if c =? 47 then rest else c :: rest, s') ∧ pa ≠ 0 ∧
    parsed s' root drive (pas ++ [(pa, sa)]) (cs ++ [comp]) A n.
Proof.
  intros pas [Hinv Hnd Hfr Hpl Hrt Hnn] Hc Hp Hne Hl.
  assert (last ≠ 0) as Hl0 by (by apply Forall_app in Hnn as [_ [? _]%Forall_cons]).
  assert (is_Some (parts s !! last)) as Hls.
  { clear -Hpl. subst pas. revert cs Hpl. induction pas0 as [|[q t] pas0 IH]; intros [|c cs]; simpl; try done.
    - intros (? & _). eauto.
    - intros (_ & _ & Hr). eauto. }
  destruct (parse_path_part_some s _ n last comp c rest Hinv Hc Hp Hne Hl) as
    (sa & pa & buf & s' & E & Hinv' & Hb & HA & HpA & Hsp & Hpa0 & Hr & Ht & HP); [by right|].
  apply with_blocks_fresh in HA as [Hsn HsA]. apply with_blocks_fresh in HpA as [Hpn HpA].
  assert (pa ∉ pas.*1) as Hpn1.
  { intros (x & -> & Hx)%list_elem_of_fmap. apply Hpn, elem_of_app. left. destruct x. by apply blocks_of_in in Hx as [? _]. }
  assert (sa ∉ pas.*2) as Hsn1.
  { intros (x & -> & Hx)%list_elem_of_fmap. apply Hsn, elem_of_app. left. destruct x. by apply blocks_of_in in Hx as [_ ?]. }
  exists pa, sa, s'. split_and!; [done|done|]. split.
  - by rewrite (with_blocks_perm _ _ _ (blocks_of_snoc pas pa sa root)).
  - rewrite blocks_of_snoc. apply NoDup_cons. split; [|by apply NoDup_cons].
    apply not_elem_of_cons. split; [congruence|done].
  - rewrite blocks_of_snoc. by repeat constructor.
  - rewrite HP, Ht. apply plist_snoc; try done. apply blocks_of_nodup.
    by apply NoDup_app in Hnd as [? _].
  - rewrite Hr, Hrt. do 3 f_equal. subst pas. by destruct pas0.
  - apply Forall_app. by repeat constructor.
Qed.

Lemma parsed_none s root drive pas cs A n last c rest :
  parsed s root drive pas cs A (Datatypes.S n) → c = 47 ∨ c = 0 →
  ∃ s', pathparser_parse_path_part last (c :: rest) s =
       Done (0, if c =? 47 then rest else c :: rest, s') ∧
    parsed s' root drive pas cs A (Datatypes.S n).
Proof.
  intros [Hinv Hnd Hfr Hpl Hrt Hnn] Hc.
  destruct (parse_path_part_none s _ n last c rest Hinv Hc) as (m & E & Hinv').
  exists (set_pp_mem m s). split; [done|]. by split.
Qed.

(** The loop of [pathparser_parse] from the part [last] on. *)
Lemma parse_rest_spec fuel r tl s root drive pas0 last sl cs A n :
  parsed s root drive (pas0 ++ [(last, sl)]) cs A (2 * length (components r) + Datatypes.S n) →
  nonzero r → (length r ≤ fuel)%nat → Z.of_nat (length r) < VANA_MAX_PATH →
  ∃ s' pas', (r ← pathparser_parse_path_part last (r ++ 0 :: tl); parse_loop fuel r.1 r.2) s = Done (tt, s') ∧
    parsed s' root drive pas' (cs ++ components r) A (Datatypes.S n).
Proof.
  revert r s pas0 last sl cs. induction fuel as [|fuel IH]; intros r s pas0 last sl cs Hpd Hr Hf Hl;
  destruct (components_split r tl Hr) as (comp & c & rest & r' & -> & Hc & Hp & Er & Hr' & Ecs & Hlen);
  rewrite Ecs in *; destruct (decide (comp = [])) as [->|Hne].
  1, 3: destruct (parsed_none _ _ _ _ _ _ _ last c rest Hpd Hc) as (s' & E & Hpd');
    exists s', (pas0 ++ [(last, sl)]); rewrite app_nil_r; split; [|done];
    simpl; rewrite (bind_done _ _ _ _ _ E); done.
  { destruct comp; simpl in *; [done|lia]. }
  cbn [length] in Hpd. replace (2 * Datatypes.S (length (components r')) + Datatypes.S n)%nat
    with (Datatypes.S (Datatypes.S (2 * length (components r') + Datatypes.S n))) in Hpd by lia.
  destruct (parsed_step _ _ _ _ _ _ _ _ _ comp c rest Hpd Hc Hp Hne) as (pa & sa & s1 & E & Hpa & Hpd1); [lia|].
  assert (0 < length comp)%nat by (destruct comp; [done|simpl; lia]).
  destruct (IH r' s1 (pas0 ++ [(last, sl)]) pa sa (cs ++ [comp]) Hpd1) as (s' & pas' & E' & Hpd'); [done|lia|lia|].
  exists s', pas'. split; [|by rewrite <- app_assoc in Hpd'].
  rewrite (bind_done _ _ _ _ _ E). cbn [fst snd parse_loop]. rewrite (proj2 (Z.eqb_neq _ _) Hpa), Er. apply E'.
Qed.

(** ** The whole parser *)

Lemma isdigit_s8 c : is_u8 c → isdigit (s8 c) = (48 <=? c) && (c <=? 57).
Proof.
  intros Hc. unfold isdigit. destruct (decide (c < 128)).
  - by rewrite s8_small by range.
  - assert (s8 c = c - 256) as ->.
    { unfold s8, is_u8 in *. replace (c + 2 ^ 7) with (c - 2 ^ 7 + 1 * 2 ^ 8) by lia.
      rewrite Z.mod_add, Z.mod_small by lia. lia. }
    unfold is_u8 in *. destruct (Z.leb_spec 48 (c - 256)), (Z.leb_spec c 57); simpl; lia || by rewrite andb_false_r.
Qed.

Lemma get_drive_spec str tl : nonzero str → Forall is_u8 (str ++ 0 :: tl) →
  Z.of_nat (length str) <= VANA_MAX_PATH →
  pathparser_get_drive_by_path (str ++ 0 :: tl) =
  Some (match path_drive str with
        | Some (d, rest) => (d, rest ++ 0 :: tl)
        | None => (- EBADPATH, str ++ 0 :: tl)
        end).
Proof.
  intros Hnz Hu8 Hl. unfold pathparser_get_drive_by_path, pathparser_path_valid_format.
  rewrite (strnlen_cstr _ str) by (done || by apply cstr_app). cbn [mbind option_bind].
  rewrite Z.min_r by done.
  destruct str as [|c0 [|c1 [|c2 rest]]]; [done..|].
  destruct (Z.leb_spec 3 (Z.of_nat (length (c0 :: c1 :: c2 :: rest)))) as [_|H3]; [|simpl in H3; lia].
  change ((c0 :: c1 :: c2 :: rest) ++ 0 :: tl) with (c0 :: c1 :: c2 :: rest ++ 0 :: tl) in *.
  change ((c0 :: c1 :: c2 :: rest ++ 0 :: tl).[0]) with (Some c0). cbn [mbind option_bind].
  apply Forall_cons in Hu8 as [H0 Hu8]. apply Forall_cons in Hu8 as [H1 Hu8].
  apply Forall_cons in Hu8 as [H2 _].
  rewrite isdigit_s8 by done. cbn [path_drive]. rewrite (proj2 (Z.leb_le _ _) Hl), andb_true_r.
  destruct ((48 <=? c0) && (c0 <=? 57)) eqn:Ed; [|done]. cbn [andb].
  unfold memcmp. change (Z.to_nat 2) with 2%nat. cbn [drop memcmp_loop].
  change (s8 58) with 58. change (s8 47) with 47. rewrite !s8_special by (done || range).
  apply andb_true_iff in Ed as [Ed1%Z.leb_le Ed2%Z.leb_le].
  destruct (Z.eqb_spec c1 58); [|by destruct (s8 c1 <? 58)].
  destruct (Z.eqb_spec c2 47); [|by destruct (s8 c2 <? 47)].
  unfold tonumericdigit. rewrite s8_small by range. by destruct rest.
Qed.

Lemma create_root_ok s A n drive : pp_inv s A (Datatypes.S n) →
  ∃ root s', pathparser_create_root drive s = Done (root, s') ∧ root ≠ 0 ∧ A !! root = None ∧
    pp_inv s' (<[root := 1%nat]> A) n ∧ parts s' = parts s ∧ strs s' = strs s ∧
    roots s' = <[root := {| drive_no := drive; first := 0 |}]> (roots s).
Proof.
  intros Hinv. destruct (pp_alloc_ok s A n sizeof_path_root Hinv)
    as (root & m & E & Hr0 & HA & Ho & Hr1 & Hr2 & Hr3); [done|].
  exists root, (set_roots (<[root := {| drive_no := drive; first := 0 |}]> (roots s)) (set_pp_mem m s)).
  split_and!; try done.
  - unfold pathparser_create_root. rewrite (bind_done _ _ _ _ _ E), (proj2 (Z.eqb_neq _ _) Hr0). done.
  - destruct Hinv as [_ Hs Hsep]. split; [done|..]; cbn [roots parts strs set_roots set_pp_mem].
    + intros q [Hq Hne]%lookup_insert_None. rewrite lookup_insert_ne by done. by apply Hs.
    + intros q. cbn [roots parts strs set_roots set_pp_mem]. destruct (Hsep q) as [Hq1 Hq2].
      destruct (decide (q = root)) as [->|Hne].
      * rewrite Hr2, Hr3. split; intros [? ?]; done.
      * by rewrite !lookup_insert_ne by done.
Qed.

Lemma free_root_ok s A n root : pp_inv s (<[root := 1%nat]> A) n → A !! root = None →
  parts s !! root = None → strs s !! root = None →
  ∃ m, free_root root s = Done (tt, set_roots (delete root (roots s)) (set_pp_mem m s)) ∧
       pp_inv (set_roots (delete root (roots s)) (set_pp_mem m s)) A (n + 1).
Proof.
  intros [Ho Hs Hsep] HA Hp Ht. destruct (pp_release_ok s A n root Ho HA) as (m & E & Ho').
  exists m. split; [unfold free_root; by rewrite (bind_done _ _ _ _ _ E)|].
  split; [done|..]; cbn [roots parts strs set_roots set_pp_mem].
  - intros q Hq. destruct (decide (q = root)) as [->|Hne]; [by rewrite lookup_delete_eq|].
    rewrite lookup_delete_ne by done. apply Hs. by rewrite lookup_insert_ne.
  - intros q. cbn [roots parts strs set_roots set_pp_mem]. destruct (Hsep q) as [Hq1 Hq2].
    rewrite lookup_delete_None. split; [intros Hx; destruct (Hq1 Hx)|intros Hx; specialize (Hq2 Hx)]; auto.
Qed.

(** Setting the [first] field of a root that is in its store. *)
Lemma pp_inv_set_root s A n root x : pp_inv s A n → is_Some (roots s !! root) →
  pp_inv (set_roots (<[root := x]> (roots s)) s) A n.
Proof.
  intros [Ho Hs Hsep] [y Hy]. split; [done|..]; cbn [roots parts strs set_roots].
  - intros q Hq. destruct (Hs q Hq) as (? & ? & ?). rewrite lookup_insert_ne by congruence. done.
  - intros q. cbn [roots parts strs set_roots]. destruct (Hsep q) as [Hq1 Hq2].
    destruct (decide (q = root)) as [->|]; [|by rewrite lookup_insert_ne].
    split; [intros Hz; destruct (Hq1 Hz); congruence|intros Hz; specialize (Hq2 Hz); congruence].
Qed.

(** The first component, linked from the root. *)
Lemma parsed_first s root drive A n comp c rest :
  pp_inv s (<[root := 1%nat]> A) (Datatypes.S (Datatypes.S n)) → A !! root = None →
  roots s !! root = Some {| drive_no := drive; first := 0 |} →
  c = 47 ∨ c = 0 → plain comp → comp ≠ [] → Z.of_nat (length comp) < VANA_MAX_PATH →
  ∃ pa sa s', pathparser_parse_path_part 0 (comp ++ c :: rest) s =
       Done (pa, if c =? 47 then rest else c :: rest, s') ∧ pa ≠ 0 ∧ roots s' = roots s ∧
    parsed (set_roots (<[root := {| drive_no := drive; first := pa |}]> (roots s')) s')
      root drive [(pa, sa)] [comp] A n.
Proof.
  intros Hinv HA Hr Hc Hp Hne Hl.
  destruct (parse_path_part_some s _ _ 0 comp c rest Hinv Hc Hp Hne Hl) as
    (sa & pa & buf & s' & E & Hinv' & Hbuf & HsA & HpA & Hsp & Hpa0 & Hrt & Ht & HP); [by left|].
  apply lookup_insert_None in HsA as [HsA Hsr]. apply lookup_insert_None in HpA as [HpA Hpr].
  exists pa, sa, s'. split_and!; [done..|].
  split; try change (blocks_of [(pa, sa)] ++ [root]) with [sa; pa; root].
  - apply pp_inv_set_root; [|rewrite Hrt; eauto]. cbn. by rewrite (insert_insert_ne _ sa pa).
  - repeat (apply NoDup_cons; split;
      [by repeat (apply not_elem_of_cons; split; [congruence|]); apply not_elem_of_nil|]).
    apply NoDup_nil_2.
  - by repeat constructor.
  - cbn [set_roots parts strs plist head fmap option_fmap option_map default]. split_and!; [| |done].
    + rewrite HP. unfold link. destruct (_ !! 0); simpl; by rewrite lookup_insert_eq.
    + exists buf. by rewrite Ht, lookup_insert_eq.
  - cbn. by rewrite lookup_insert_eq.
  - by repeat constructor.
Qed.

Lemma path_drive_inv str drive rest : path_drive str = Some (drive, rest) → nonzero str →
  Z.of_nat (length str) <= VANA_MAX_PATH ∧ (length str = 3 + length rest)%nat ∧ nonzero rest ∧ 0 <= drive.
Proof.
  unfold path_drive, nonzero. destruct str as [|c0 [|c1 [|c2 r]]]; [done..|].
  destruct (_ && _) eqn:E; [|done]. rewrite !andb_true_iff, !Z.leb_le in E. intros ? Hnz. simplify_eq.
  do 3 (apply Forall_cons in Hnz as [_ Hnz]). split_and!; [tauto|done|done|lia].
Qed.

Lemma parse_valid_spec s b str drive rest A n :
  pp_inv s A (2 * length (components rest) + Datatypes.S (Datatypes.S n)) → cstr b = Some str →
  Forall is_u8 b → path_drive str = Some (drive, rest) → components rest ≠ [] →
  ∃ root pas s', pathparser_parse b s = Done (root, s') ∧ root ≠ 0 ∧
    parsed s' root drive pas (components rest) A (Datatypes.S n).
Proof.
  intros Hinv Hb Hu8 Hd Hne. destruct (cstr_inv _ _ Hb) as (tl & -> & Hnz).
  destruct (path_drive_inv _ _ _ Hd Hnz) as (Hl & Hlen & Hnr & Hdr).
  unfold pathparser_parse. cbv zeta.
  erewrite bind_done; [|unfold liftO; rewrite strlen_cstr, Hb; reflexivity].
  rewrite (proj2 (Z.ltb_ge _ _) Hl).
  erewrite bind_done; [|unfold liftO; rewrite get_drive_spec, Hd by done; reflexivity]. cbv beta iota.
  rewrite (proj2 (Z.ltb_ge _ _) Hdr).
  replace (2 * _ + _)%nat with (Datatypes.S (2 * length (components rest) + Datatypes.S n)) in Hinv by lia.
  destruct (create_root_ok s A _ drive Hinv) as (root & s1 & E1 & Hr0 & HA & Hinv1 & _ & _ & Hrt1).
  rewrite (bind_done _ _ _ _ _ E1), (proj2 (Z.eqb_neq _ _) Hr0).
  destruct (components_split rest tl Hnr) as (comp & c & rst & r' & Er & Hc & Hp & Er' & Hr' & Ecs & Hlr).
  rewrite Ecs in *. destruct (decide (comp = [])) as [|Hcomp]; [done|]. rewrite Er.
  assert (0 < length comp)%nat by (destruct comp; [done|simpl; lia]). cbn [length] in Hinv1.
  replace (2 * _ + _)%nat with (Datatypes.S (Datatypes.S (2 * length (components r') + Datatypes.S n))) in Hinv1 by lia.
  assert (roots s1 !! root = Some {| drive_no := drive; first := 0 |}) as Hrt1'
    by (by rewrite Hrt1, lookup_insert_eq).
  destruct (parsed_first s1 root drive A _ comp c rst Hinv1 HA Hrt1' Hc Hp Hcomp)
    as (pa & sa & s2 & E2 & Hpa0 & Hrt2 & Hpd); [lia|].
  rewrite (bind_done _ _ _ _ _ E2). cbv beta iota. rewrite (proj2 (Z.eqb_neq _ _) Hpa0).
  erewrite bind_done; [|unfold get_root; rewrite Hrt2, Hrt1'; reflexivity].
  erewrite bind_done; [|reflexivity]. rewrite Er'.
  destruct (parse_rest_spec (length (str ++ 0 :: tl)) r' tl _ root drive [] pa sa [comp] A n Hpd Hr')
    as (s' & pas & E3 & Hpd'); [rewrite length_app; simpl; lia|lia|].
  exists root, pas, s'. split_and!; [|done|done].
  apply bind_done_inv in E3 as (x & s4 & E4 & E5).
  rewrite (bind_done _ _ _ _ _ E4), (bind_done _ _ _ _ _ E5). done.
Qed.

Lemma parse_invalid_spec s b str A n :
  pp_inv s A (Datatypes.S (Datatypes.S n)) → cstr b = Some str → Forall is_u8 b →
  (∀ drive rest, path_drive str = Some (drive, rest) → components rest = []) →
  ∃ m, pathparser_parse b s = Done (0, set_pp_mem m s) ∧
       pp_inv (set_pp_mem m s) A (Datatypes.S (Datatypes.S n)).
Proof.
  intros Hinv Hb Hu8 Hd. destruct (cstr_inv _ _ Hb) as (tl & -> & Hnz).
  assert (s = set_pp_mem (pp_mem s) s) as Hs by (by destruct s).
  unfold pathparser_parse. cbv zeta.
  erewrite bind_done; [|unfold liftO; rewrite strlen_cstr, Hb; reflexivity].
  destruct (Z.ltb_spec VANA_MAX_PATH (Z.of_nat (length str))) as [Hl|Hl].
  { exists (pp_mem s). by rewrite <- Hs. }
  erewrite bind_done; [|unfold liftO; rewrite get_drive_spec by done; reflexivity].
  destruct (path_drive str) as [[drive rest]|] eqn:Ed; cbv beta iota.
  2:{ exists (pp_mem s). by rewrite <- Hs. }
  destruct (path_drive_inv _ _ _ Ed Hnz) as (_ & _ & Hnr & Hdr). rewrite (proj2 (Z.ltb_ge _ _) Hdr).
  destruct (create_root_ok s A _ drive Hinv) as (root & s1 & E1 & Hr0 & HA & Hinv1 & Hp1 & Ht1 & Hrt1).
  rewrite (bind_done _ _ _ _ _ E1), (proj2 (Z.eqb_neq _ _) Hr0).
  destruct (components_split rest tl Hnr) as (comp & c & rst & r' & Er & Hc & Hp & _ & _ & Ecs & _).
  rewrite (Hd _ _ eq_refl) in Ecs. destruct (decide (comp = [])) as [->|]; [|done]. rewrite Er. cbn [app].
  destruct (parse_path_part_none s1 _ n 0 c rst Hinv1 Hc) as (m2 & E2 & Hinv2).
  rewrite (bind_done _ _ _ _ _ E2). cbv beta iota. cbn [Z.eqb].
  destruct (pi_stores _ _ _ Hinv root HA) as (Hr & Hpr & Htr).
  destruct (free_root_ok (set_pp_mem m2 s1) A _ root Hinv2 HA) as (m3 & E3 & Hinv3);
    [by cbn; rewrite Hp1|by cbn; rewrite Ht1|].
  exists m3. cbn [negb]. rewrite (bind_done _ _ _ _ _ E3).
  rewrite Nat.add_1_r in Hinv3. cbn in *.
  assert (set_roots (delete root (roots s1)) (set_pp_mem m3 (set_pp_mem m2 s1)) = set_pp_mem m3 s) as Es.
  { rewrite Hrt1, delete_insert_id by done. destruct s, s1. simpl in *. by subst. }
  rewrite Es in *. done.
Qed.

(** ** Release *)

Lemma free_str_ok s A n p : pp_inv s (<[p := 1%nat]> A) n → A !! p = None → is_Some (strs s !! p) →
  ∃ m, free_str p s = Done (tt, set_strs (delete p (strs s)) (set_pp_mem m s)) ∧
       pp_inv (set_strs (delete p (strs s)) (set_pp_mem m s)) A (n + 1).
Proof.
  intros [Ho Hs Hsep] HA Hsome. destruct (pp_release_ok s A n p Ho HA) as (m & E & Ho').
  exists m. split; [unfold free_str; by rewrite (bind_done _ _ _ _ _ E)|].
  destruct (Hsep p) as [Hp _]. destruct (Hp Hsome) as [Hp1 Hp2].
  split; [done|..]; cbn [roots parts strs set_strs set_pp_mem].
  - intros q Hq. destruct (decide (q = p)) as [->|Hne]; [by rewrite lookup_delete_eq|].
    rewrite lookup_delete_ne by done. apply Hs. by rewrite lookup_insert_ne.
  - intros q. cbn [roots parts strs set_strs set_pp_mem]. destruct (Hsep q) as [Hq1 Hq2]. split; [|done].
    intros [x Hx%lookup_delete_Some]. apply Hq1. destruct Hx. eauto.
Qed.

Lemma free_part_ok s A n p : pp_inv s (<[p := 1%nat]> A) n → A !! p = None → is_Some (parts s !! p) →
  ∃ m, free_part p s = Done (tt, set_parts (delete p (parts s)) (set_pp_mem m s)) ∧
       pp_inv (set_parts (delete p (parts s)) (set_pp_mem m s)) A (n + 1).
Proof.
  intros [Ho Hs Hsep] HA Hsome. destruct (pp_release_ok s A n p Ho HA) as (m & E & Ho').
  exists m. split; [unfold free_part; by rewrite (bind_done _ _ _ _ _ E)|].
  destruct (Hsep p) as [Hp1 Hp2]. specialize (Hp2 Hsome).
  assert (strs s !! p = None) as Hp3.
  { destruct (strs s !! p) eqn:Ex; [|done]. destruct Hp1 as [Hp1 _]; [eauto|]. destruct Hsome. congruence. }
  split; [done|..]; cbn [roots parts strs set_parts set_pp_mem].
  - intros q Hq. destruct (decide (q = p)) as [->|Hne]; [by rewrite lookup_delete_eq|].
    rewrite lookup_delete_ne by done. apply Hs. by rewrite lookup_insert_ne.
  - intros q. cbn [roots parts strs set_parts set_pp_mem]. destruct (Hsep q) as [Hq1 Hq2].
    rewrite lookup_delete_None. split.
    + intros Hx. destruct (Hq1 Hx). auto.
    + intros [x Hx%lookup_delete_Some]. apply Hq2. destruct Hx. eauto.
Qed.

Lemma free_loop_spec fuel s pas cs root A n :
  pp_inv s (with_blocks (blocks_of pas ++ [root]) A) n → NoDup (blocks_of pas ++ [root]) →
  Forall (λ t, A !! t = None) (blocks_of pas ++ [root]) → plist (parts s) (strs s) pas cs →
  Forall (λ x, x.1 ≠ 0) pas → (length pas ≤ fuel)%nat →
  ∃ s', free_loop fuel (default 0 (fst <$> head pas)) s = Done (tt, s') ∧
    pp_inv s' (with_blocks [root] A) (n + 2 * length pas) ∧ roots s' = roots s.
Proof.
  revert s cs n fuel. induction pas as [|[pa sa] pas IH]; intros s cs n fuel Hinv Hnd Hfr Hpl Hnn Hf.
  { exists s. split_and!; [by destruct fuel|by rewrite Nat.add_0_r|done]. }
  destruct cs as [|c cs]; [done|]. destruct Hpl as (Hpa & (buf & Hsa & Hb) & Hpl).
  destruct fuel as [|fuel]; simpl in Hf; [lia|].
  rewrite blocks_of_cons in *. cbn [fst snd app] in *.
  apply NoDup_cons in Hnd as [Hsn Hnd]. apply NoDup_cons in Hnd as [Hpn Hnd].
  apply Forall_cons in Hfr as [HsA Hfr]. apply Forall_cons in Hfr as [HpA Hfr].
  apply Forall_cons in Hnn as [Hpa0 Hnn]. apply not_elem_of_cons in Hsn as [Hsp Hsn].
  cbn [head fmap option_fmap option_map default fst] in *.
  destruct (free_str_ok s (with_blocks (pa :: blocks_of pas ++ [root]) A) n sa Hinv) as (m1 & E1 & Hinv1);
    [by apply with_blocks_fresh; split; [apply not_elem_of_cons|]|eauto|].
  set (s1 := set_strs _ _) in *.
  destruct (free_part_ok s1 (with_blocks (blocks_of pas ++ [root]) A) (n + 1) pa Hinv1) as (m2 & E2 & Hinv2);
    [by apply with_blocks_fresh|by exists {| part := sa; next := default 0 (fst <$> head pas) |}|].
  set (s2 := set_parts _ _) in *.
  assert (plist (parts s2) (strs s2) pas cs) as Hpl2.
  { apply (plist_frame (parts s) (strs s)); [|done]. intros q t [Hq Ht]%blocks_of_in.
    cbn [parts strs s1 s2 set_parts set_strs set_pp_mem]. split; apply lookup_delete_ne; intros <-.
    - apply Hpn, elem_of_app. by left.
    - apply Hsn, elem_of_app. by left. }
  destruct (IH s2 cs _ fuel Hinv2) as (s' & E & Hinv' & Hr); [done..|lia|].
  exists s'. split_and!; [| |done].
  2:{ by replace (n + 2 * length ((pa, sa) :: pas))%nat with (n + 1 + 1 + 2 * length pas)%nat by (simpl; lia). }
  cbn [free_loop default from_option id]. rewrite (proj2 (Z.eqb_neq _ _) Hpa0).
  erewrite bind_done; [|unfold get_part; rewrite Hpa; reflexivity]. cbn [part next].
  rewrite (bind_done _ _ _ _ _ E1), (bind_done _ _ _ _ _ E2). apply E.
Qed.

Lemma free_spec s root drive pas cs A n fuel : parsed s root drive pas cs A n → (length pas ≤ fuel)%nat →
  ∃ s', pathparser_free fuel root s = Done (tt, s') ∧ pp_inv s' A (n + 2 * length pas + 1).
Proof.
  intros [Hinv Hnd Hfr Hpl Hrt Hnn] Hf.
  destruct (free_loop_spec fuel s pas cs root A n) as (s1 & E1 & Hinv1 & Hr1); [done..|].
  assert (A !! root = None) as HA by (by apply Forall_app in Hfr as [_ [? _]%Forall_cons]).
  assert (is_Some (roots s1 !! root)) as [x Hx] by (rewrite Hr1, Hrt; eauto).
  assert (parts s1 !! root = None ∧ strs s1 !! root = None) as [Hp Ht].
  { destruct (pi_separate _ _ _ Hinv1 root) as [H1 H2]. split.
    - destruct (parts s1 !! root) eqn:Ex; [|done]. rewrite H2 in Hx; [done|eauto].
    - destruct (strs s1 !! root) eqn:Ex; [|done]. destruct H1 as [_ H1]; [eauto|congruence]. }
  destruct (free_root_ok s1 A _ root Hinv1 HA Hp Ht) as (m & E2 & Hinv2).
  eexists. split; [|apply Hinv2]. unfold pathparser_free.
  erewrite bind_done; [|unfold get_root; rewrite Hrt; reflexivity]. cbn [first].
  rewrite (bind_done _ _ _ _ _ E1). apply E2.
Qed.

(** C38: a valid path is parsed into its drive and its components, in order: the
    result is a non-null root with one node and one string for each component,
    all of them fresh, provided two blocks per component and two more are free.
    The number of rounds of the loop never exceeds the length of the path. *)
Theorem pathparser_parse_valid s b str drive rest A n :
  pp_inv s A (2 * length (components rest) + Datatypes.S (Datatypes.S n)) → cstr b = Some str →
  Forall is_u8 b → path_drive str = Some (drive, rest) → components rest ≠ [] →
  ∃ root pas s', pathparser_parse b s = Done (root, s') ∧ root ≠ 0 ∧
    parsed s' root drive pas (components rest) A (Datatypes.S n).
Proof. apply parse_valid_spec. Qed.

(** C40: a path that is too long, has no [<digit>:/] prefix or names no component
    yields null; the blocks taken meanwhile are back in the heap and the stores
    are as before. *)
Theorem pathparser_parse_invalid s b str A n :
  pp_inv s A (Datatypes.S (Datatypes.S n)) → cstr b = Some str → Forall is_u8 b →
  (∀ drive rest, path_drive str = Some (drive, rest) → components rest = []) →
  ∃ m, pathparser_parse b s = Done (0, set_pp_mem m s) ∧
       pp_inv (set_pp_mem m s) A (Datatypes.S (Datatypes.S n)).
Proof. apply parse_invalid_spec. Qed.

(** Parsing a valid path and freeing the result leaves no allocation
    behind: the heap has the allocations and the number of free blocks it had
    before. *)
Theorem pathparser_parse_free_roundtrip s b str drive rest A n :
  pp_inv s A (2 * length (components rest) + Datatypes.S (Datatypes.S n)) → cstr b = Some str →
  Forall is_u8 b → path_drive str = Some (drive, rest) → components rest ≠ [] →
  ∃ root s1 s2, pathparser_parse b s = Done (root, s1) ∧
    pathparser_free (length (components rest)) root s1 = Done (tt, s2) ∧
    pp_inv s2 A (2 * length (components rest) + Datatypes.S (Datatypes.S n)).
Proof.
  intros Hinv Hb Hu8 Hd Hne.
  destruct (parse_valid_spec s b str drive rest A n) as (root & pas & s1 & E1 & _ & Hpd); [done..|].
  assert (length pas = length (components rest)) as Hl.
  { pose proof (pd_list _ _ _ _ _ _ _ Hpd) as Hpl. clear -Hpl.
    generalize dependent (components rest). induction pas as [|[pa sa] pas IH]; intros [|c cs]; simpl; try done.
    intros (_ & _ & Hr). f_equal. auto. }
  destruct (free_spec s1 root drive pas _ A _ (length (components rest)) Hpd) as (s2 & E2 & Hinv2); [lia|].
  exists root, s1, s2. split_and!; [done|done|]. rewrite Hl in Hinv2.
  by replace (2 * length (components rest) + Datatypes.S (Datatypes.S n))%nat
    with (Datatypes.S n + 2 * length (components rest) + 1)%nat by lia.
Qed.
End parser_spec.

(** ** The parser touches the memory only through the allocator *)

Section parser_frame.
Context {S : Type} `{Allocator S} {T : Type} (frame : S → T).
Hypothesis alloc_keeps : ∀ size, keeps frame (alloc size).
Hypothesis release_keeps : ∀ p, keeps frame (release p).

Let pframe (s : pp_state S) : T := frame (pp_mem s).

Lemma pp_alloc_keeps size : keeps pframe (pp_alloc size).
Proof. apply (keeps_zoom _ frame); [done|]. by intros t s. Qed.
Lemma pp_release_keeps p : keeps pframe (pp_release p).
Proof. apply (keeps_zoom _ frame); [done|]. by intros t s. Qed.
Lemma get_part_keeps p : keeps pframe (get_part p).
Proof. intros s x s'. unfold get_part. destruct (parts s !! p); naive_solver. Qed.
Lemma get_root_keeps p : keeps pframe (get_root p).
Proof. intros s x s'. unfold get_root. destruct (roots s !! p); naive_solver. Qed.
#[local] Hint Resolve pp_alloc_keeps pp_release_keeps get_part_keeps get_root_keeps : keeps.

Lemma parse_path_part_keeps last path : keeps pframe (pathparser_parse_path_part last path).
Proof. unfold pathparser_parse_path_part, pathparser_get_path_part. keep. Qed.
#[local] Hint Resolve parse_path_part_keeps : keeps.

Lemma parse_loop_keeps fuel p path : keeps pframe (parse_loop fuel p path).
Proof. revert p path. induction fuel; intros; cbn [parse_loop]; keep; auto. Qed.
#[local] Hint Resolve parse_loop_keeps : keeps.

Lemma pathparser_parse_keeps path : keeps pframe (pathparser_parse path).
Proof. unfold pathparser_parse, pathparser_create_root, free_root, free_part. keep. Qed.

Lemma free_loop_keeps fuel p : keeps pframe (free_loop fuel p).
Proof. revert p. induction fuel; intros; cbn [free_loop]; unfold free_str, free_part; keep; auto. Qed.
#[local] Hint Resolve free_loop_keeps : keeps.

Lemma pathparser_free_keeps fuel root : keeps pframe (pathparser_free fuel root).
Proof. unfold pathparser_free, free_root. keep. Qed.
End parser_frame.

(** ** Examples: the path "0:/bin/sh" on the kernel heap *)

Definition boot_pp (n : nat) : pp_state kmem :=
  {| pp_mem := kmem_of (replicate n Free); roots := ∅; parts := ∅; strs := ∅ |}.

Lemma boot_pp_inv n : Z.of_nat n <= 25600 → pp_inv (boot_pp n) ∅ n.
Proof.
  intros Hn. split.
  - by apply boot_owns.
  - intros p _. cbn. by rewrite !lookup_empty.
  - intros p. cbn. rewrite !lookup_empty. by split; intros [? ?].
Qed.

Lemma pathparser_parse_valid_witness :
  ∃ root pas s', pathparser_parse (text "0:/bin/sh") (boot_pp 7) = Done (root, s') ∧ root ≠ 0 ∧
    parsed s' root 0 pas [codes "bin"; codes "sh"] ∅ 2.
Proof.
  apply (pathparser_parse_valid (boot_pp 7) (text "0:/bin/sh") (codes "0:/bin/sh") 0 (codes "bin/sh") ∅ 1);
    [by apply boot_pp_inv|done|by repeat constructor|done|done].
Defined.

Lemma pathparser_parse_invalid_witness :
  ∃ m, pathparser_parse (text "0:/") (boot_pp 2) = Done (0, set_pp_mem m (boot_pp 2)) ∧
       pp_inv (set_pp_mem m (boot_pp 2)) ∅ 2.
Proof.
  apply (pathparser_parse_invalid (boot_pp 2) (text "0:/") (codes "0:/") ∅ 0);
    [by apply boot_pp_inv|done|by repeat constructor|].
  intros drive rest E. vm_compute in E. by simplify_eq.
Defined.

Lemma pathparser_parse_free_roundtrip_witness :
  ∃ root s1 s2, pathparser_parse (text "0:/bin/sh") (boot_pp 7) = Done (root, s1) ∧
    pathparser_free 2 root s1 = Done (tt, s2) ∧ pp_inv s2 ∅ 7.
Proof.
  apply (pathparser_parse_free_roundtrip (boot_pp 7) (text "0:/bin/sh") (codes "0:/bin/sh") 0 (codes "bin/sh") ∅ 1);
    [by apply boot_pp_inv|done|by repeat constructor|done|done].
Defined.
