(* ===== verification/Disk.v ===== *)
(** * The disk and the disk streamer

    Models src/src/disk/disk.c and src/src/disk/streamer.c in two layers.

    The ATA driver [disk_read_sector] talks to a device through the ports.  The
    device is not part of the sources: [AtaDisk] states the documented protocol
    of a READ SECTORS command that the driver relies on, and [ata_sim] is a
    device that follows it.

    The streamer reads sectors through the contract [BlockDevice], which the
    driver implements ([ata_block_device]), and its theorem says that a stream
    delivers the bytes of the medium from its position on, across any number of
    sector boundaries. *)

From S2P Require Import Prelude Config CString Heap Kheap Idt.
Local Open Scope Z_scope.

(** ** The driver *)

Section driver.
Context {D : Type} `{Ports D}.

(** [while (!(c & 0x08)) c = insb(0x1F7);], at most [fuel] further reads. *)
Fixpoint wait_drq (fuel : nat) (c : Z) : M D unit :=
  if negb (Z.land c 0x08 =? 0) then mret tt
  else match fuel with
       | O => λ _, Spin
       | S fuel => c ← insb 0x1F7; wait_drq fuel c
       end.

(** The inner loop stores [n] words, least significant byte first. *)
Fixpoint read_words (n : nat) : M D (list Z) :=
  match n with
  | O => mret []
  | S n =>
      w ← insw 0x1F0;
      rest ← read_words n;
      mret (w mod 2 ^ 8 :: w / 2 ^ 8 :: rest)
  end.

Fixpoint read_sectors (fuel n : nat) : M D (list Z) :=
  match n with
  | O => mret []
  | S n =>
      c ← insb 0x1F7;
      wait_drq fuel c;;
      bytes ← read_words 256;
      rest ← read_sectors fuel n;
      mret (bytes ++ rest)
  end.

Definition ata_select (lba total : Z) : M D unit :=
  outb 0x1F6 (Z.lor (Z.shiftr lba 24) 0xE0);;
  outb 0x1F2 total;;
  outb 0x1F3 (Z.land lba 0xff);;
  outb 0x1F4 (u8 (Z.shiftr lba 8));;
  outb 0x1F5 (u8 (Z.shiftr lba 16));;
  outb 0x1F7 0x20.

(** The status and the bytes stored in [buf]. *)
Definition disk_read_sector (fuel : nat) (lba total : Z) : M D (Z * list Z) :=
  ata_select lba total;;
  bytes ← read_sectors fuel (Z.to_nat total);
  mret (0, bytes).
End driver.

(** ** The protocol of the device *)

(** [ata_data d w n k]: a READ command is in progress, the [n] words from word
    [w] of the medium are still to be delivered, and the device shows [k] more
    status values without the DRQ bit before the next word is ready. *)
Class AtaDisk (D : Type) `{Ports D} := {
  ata_image : D → Z → Z;
  ata_data : D → Z → nat → nat → Prop;
  ata_max_wait : nat;
  ata_image_u8 d a : is_u8 (ata_image d a);
  ata_wait_bound d w n k : ata_data d w n k → (k ≤ ata_max_wait)%nat;
  ata_command d lba total : 0 <= lba < 2 ^ 28 → 1 <= total <= 255 →
    let d' := port_out8 0x1F7 0x20
               (port_out8 0x1F5 (lba / 2 ^ 16 mod 2 ^ 8)
                 (port_out8 0x1F4 (lba / 2 ^ 8 mod 2 ^ 8)
                   (port_out8 0x1F3 (lba mod 2 ^ 8)
                     (port_out8 0x1F2 total
                       (port_out8 0x1F6 (0xE0 + lba / 2 ^ 24) d))))) in
    ata_image d' = ata_image d ∧ ∃ k, ata_data d' (256 * lba) (256 * Z.to_nat total) k;
  ata_busy d w n k : ata_data d w n (S k) → ∃ v d', port_in8 0x1F7 d = (v, d') ∧ is_u8 v ∧
    Z.land v 0x08 = 0 ∧ ata_data d' w n k ∧ ata_image d' = ata_image d;
  ata_ready d w n : ata_data d w (S n) 0 → ∃ v d', port_in8 0x1F7 d = (v, d') ∧ is_u8 v ∧
    Z.land v 0x08 ≠ 0 ∧ ata_data d' w (S n) 0 ∧ ata_image d' = ata_image d;
  ata_word d w n : ata_data d w (S n) 0 → ∃ d',
    port_in16 0x1F0 d = (ata_image d (2 * w) + ata_image d (2 * w + 1) * 2 ^ 8, d') ∧
    ata_image d' = ata_image d ∧
    ∃ k, ata_data d' (w + 1) n k ∧ ((n mod 256)%nat ≠ O → k = O)
}.

(** The [n] bytes of a medium from byte [a] on. *)
Definition image_bytes (img : Z → Z) (a n : Z) : list Z := (λ i, img (a + i)) <$> seqZ 0 n.

Lemma length_image_bytes img a n : length (image_bytes img a n) = Z.to_nat n.
Proof. unfold image_bytes. by rewrite length_fmap, length_seqZ. Qed.

Lemma image_bytes_app img a n m : 0 <= n → 0 <= m →
  image_bytes img a (n + m) = image_bytes img a n ++ image_bytes img (a + n) m.
Proof.
  intros Hn Hm. unfold image_bytes. rewrite seqZ_app, fmap_app by lia. f_equal.
  apply list_eq. intros i. rewrite !list_lookup_fmap.
  destruct (decide (Z.of_nat i < m)); [rewrite !lookup_seqZ_lt by lia|by rewrite !lookup_seqZ_ge by lia].
  simpl. do 2 f_equal. lia.
Qed.

Lemma image_bytes_1 img a : image_bytes img a 1 = [img a].
Proof. unfold image_bytes. change (seqZ 0 1) with [0]. cbn. by rewrite Z.add_0_r. Qed.

Lemma image_bytes_lookup img a n i : 0 <= i < n → (image_bytes img a n).[i] = Some (img (a + i)).
Proof.
  intros Hi. replace i with (Z.of_nat (Z.to_nat i)) by lia. rewrite idx_nat.
  unfold image_bytes. rewrite list_lookup_fmap, lookup_seqZ_lt by lia. simpl. by rewrite Z.add_0_l.
Qed.

Section ata.
Context {D : Type} `{AtaDisk D}.

(** Polling ends once the device is ready. *)
Lemma wait_spec k fuel d w n : ata_data d w (S n) k → (k ≤ fuel)%nat →
  ∃ d', (c ← insb 0x1F7; wait_drq fuel c) d = Done (tt, d') ∧
        ata_data d' w (S n) 0 ∧ ata_image d' = ata_image d.
Proof.
  revert fuel d. induction k as [|k IH]; intros fuel d Hd Hf.
  - destruct (ata_ready d w n Hd) as (v & d' & E & Hv & Hdrq & Hd' & Hi).
    exists d'. split_and!; [|done|done].
    erewrite bind_done; [|unfold insb; change (u16 0x1F7) with 0x1F7; rewrite E, u8_small by done; reflexivity].
    by destruct fuel; cbn [wait_drq]; rewrite (proj2 (Z.eqb_neq _ _) Hdrq).
  - destruct fuel as [|fuel]; [lia|].
    destruct (ata_busy d w (S n) k Hd) as (v & d1 & E & Hv & Hdrq & Hd1 & Hi).
    destruct (IH fuel d1 Hd1) as (d' & E' & Hd' & Hi'); [lia|].
    exists d'. split_and!; [|done|congruence].
    erewrite bind_done; [|unfold insb; change (u16 0x1F7) with 0x1F7; rewrite E, u8_small by done; reflexivity].
    cbn [wait_drq]. rewrite Hdrq. apply E'.
Qed.

(** The words of one sector arrive without further polling. *)
Lemma read_words_spec n m d w : ata_data d w (n + m) 0 → (n ≤ 256)%nat → (m mod 256 = 0)%nat →
  ∃ d', read_words n d = Done (image_bytes (ata_image d) (2 * w) (2 * Z.of_nat n), d') ∧
        ata_image d' = ata_image d ∧ ∃ k, ata_data d' (w + Z.of_nat n) m k.
Proof.
  revert d w. induction n as [|n IH]; intros d w Hd Hn Hm.
  { exists d. split_and!; [done|done|]. exists O. by rewrite Z.add_0_r. }
  destruct (ata_word d w (n + m) Hd) as (d1 & E & Hi & k & Hd1 & Hk).
  set (b0 := ata_image d (2 * w)) in *. set (b1 := ata_image d (2 * w + 1)) in *.
  pose proof (ata_image_u8 d (2 * w)) as Hb0. pose proof (ata_image_u8 d (2 * w + 1)) as Hb1.
  fold b0 in Hb0. fold b1 in Hb1. unfold is_u8 in Hb0, Hb1.
  assert (∃ d', read_words n d1 = Done (image_bytes (ata_image d) (2 * (w + 1)) (2 * Z.of_nat n), d') ∧
        ata_image d' = ata_image d ∧ ∃ k, ata_data d' (w + Z.of_nat (S n)) m k) as (d' & E' & Hi' & Hk').
  { destruct (decide (n = O)) as [->|Hn0].
    { exists d1. split_and!; [done|done|]. exists k. by replace (w + Z.of_nat 1) with (w + 1) by lia. }
    rewrite Hk in Hd1.
    2:{ rewrite Nat.Div0.add_mod, Hm, Nat.add_0_r, Nat.Div0.mod_mod, Nat.mod_small by lia. done. }
    destruct (IH d1 (w + 1) Hd1) as (d' & E' & Hi' & k' & Hk'); [lia|done|].
    exists d'. rewrite Hi in *. split_and!; [done|done|]. exists k'.
    by replace (w + Z.of_nat (S n)) with (w + 1 + Z.of_nat n) by lia. }
  exists d'. split_and!; [|done|done]. cbn [read_words].
  erewrite bind_done.
  2:{ unfold insw. change (u16 0x1F0) with 0x1F0. rewrite E, u16_small by range. reflexivity. }
  rewrite (bind_done _ _ _ _ _ E'). unfold mret, M_ret. do 2 f_equal.
  replace (2 * Z.of_nat (S n)) with (1 + (1 + 2 * Z.of_nat n)) by lia.
  rewrite !image_bytes_app by lia. replace (2 * w + 1 + 1) with (2 * (w + 1)) by lia.
  rewrite !image_bytes_1. fold b0 b1. cbn [app]. f_equal; [euclid|]. f_equal. euclid.
Qed.

Lemma read_sectors_spec fuel n d w k : ata_data d w (256 * n) k → (ata_max_wait ≤ fuel)%nat →
  ∃ d', read_sectors fuel n d = Done (image_bytes (ata_image d) (2 * w) (512 * Z.of_nat n), d') ∧
        ata_image d' = ata_image d.
Proof.
  intros Hd Hf. revert d w k Hd. induction n as [|n IH]; intros d w k Hd.
  { by exists d. }
  cbn [read_sectors]. replace (256 * S n)%nat with (S (255 + 256 * n)) in Hd by lia.
  destruct (wait_spec k fuel d w _ Hd) as (d1 & E1 & Hd1 & Hi1).
  { pose proof (ata_wait_bound _ _ _ _ Hd). lia. }
  apply bind_done_inv in E1 as (c & d0 & E0 & E1).
  replace (S (255 + 256 * n)) with (256 + 256 * n)%nat in Hd1 by lia.
  destruct (read_words_spec 256 (256 * n) d1 w Hd1) as (d2 & E2 & Hi2 & k2 & Hd2); [lia| |].
  { rewrite Nat.mul_comm. apply Nat.Div0.mod_mul. }
  destruct (IH d2 _ k2 Hd2) as (d3 & E3 & Hi3). rewrite Hi2, Hi1 in *.
  exists d3. split; [|congruence]. rewrite (bind_done _ _ _ _ _ E0), (bind_done _ _ _ _ _ E1).
  rewrite (bind_done _ _ _ _ _ E2), (bind_done _ _ _ _ _ E3). unfold mret, M_ret. do 2 f_equal.
  replace (512 * Z.of_nat (S n)) with (2 * Z.of_nat 256 + 512 * Z.of_nat n) by lia.
  rewrite image_bytes_app by lia. do 2 f_equal. lia.
Qed.

Lemma disk_read_sector_spec fuel lba total d :
  0 <= lba < 2 ^ 28 → 1 <= total <= 255 → (ata_max_wait ≤ fuel)%nat →
  ∃ d', disk_read_sector fuel lba total d =
          Done ((0, image_bytes (ata_image d) (512 * lba) (512 * total)), d') ∧
        ata_image d' = ata_image d.
Proof.
  intros Hl Ht Hf. destruct (ata_command d lba total Hl Ht) as (Hi & k & Hd).
  destruct (read_sectors_spec fuel (Z.to_nat total) _ (256 * lba) k Hd Hf) as (d' & E & Hi').
  exists d'. split; [|congruence]. unfold disk_read_sector.
  erewrite bind_done.
  2:{ unfold ata_select, outb, mbind, M_bind.
      change (u16 0x1F6) with 0x1F6. change (u16 0x1F2) with 0x1F2. change (u16 0x1F3) with 0x1F3.
      change (u16 0x1F4) with 0x1F4. change (u16 0x1F5) with 0x1F5. change (u16 0x1F7) with 0x1F7.
      change (u8 0x20) with 0x20. change 0xff with (Z.ones 8). rewrite Z.land_ones by done.
      rewrite !Z.shiftr_div_pow2 by done. rewrite Z.lor_comm, (lor_low 5) by (done || euclid).
      rewrite (u8_small (0xE0 + _)) by (unfold is_u8; euclid). rewrite (u8_small total) by range.
      rewrite (u8_small (lba mod _)) by (unfold is_u8; euclid).
      rewrite (u8_small (u8 (lba / 2 ^ 8))), (u8_small (u8 (lba / 2 ^ 16))) by apply u8_range.
      reflexivity. }
  rewrite (bind_done _ _ _ _ _ E), Hi, Z2Nat.id by lia.
  by replace (2 * (256 * lba)) with (512 * lba) by lia.
Qed.
End ata.

(** ** A device that follows the protocol *)

Record ata_sim := {
  sim_medium : Z → Z;
  sim_regs : Z * Z * Z * Z * Z;
  sim_word : Z;
  sim_left : nat;
  sim_wait : nat
}.

Definition sim_image (d : ata_sim) (a : Z) : Z := u8 (sim_medium d a).

Definition sim_set_regs (r : Z * Z * Z * Z * Z) (d : ata_sim) : ata_sim :=
  {| sim_medium := sim_medium d; sim_regs := r; sim_word := sim_word d;
     sim_left := sim_left d; sim_wait := sim_wait d |}.

Definition sim_out (p v : Z) (d : ata_sim) : ata_sim :=
  let '(head, count, lo, mid, hi) := sim_regs d in
  if p =? 0x1F6 then sim_set_regs (v, count, lo, mid, hi) d
  else if p =? 0x1F2 then sim_set_regs (head, v, lo, mid, hi) d
  else if p =? 0x1F3 then sim_set_regs (head, count, v, mid, hi) d
  else if p =? 0x1F4 then sim_set_regs (head, count, lo, v, hi) d
  else if p =? 0x1F5 then sim_set_regs (head, count, lo, mid, v) d
  else {| sim_medium := sim_medium d; sim_regs := sim_regs d;
          sim_word := 256 * (head mod 16 * 2 ^ 24 + hi * 2 ^ 16 + mid * 2 ^ 8 + lo);
          sim_left := 256 * Z.to_nat count; sim_wait := 2 |}.

Definition sim_in8 (p : Z) (d : ata_sim) : Z * ata_sim :=
  match sim_wait d with
  | O => (0x58, d)
  | S k => (0x80, {| sim_medium := sim_medium d; sim_regs := sim_regs d; sim_word := sim_word d;
                     sim_left := sim_left d; sim_wait := k |})
  end.

Definition sim_in16 (p : Z) (d : ata_sim) : Z * ata_sim :=
  (sim_image d (2 * sim_word d) + sim_image d (2 * sim_word d + 1) * 2 ^ 8,
   {| sim_medium := sim_medium d; sim_regs := sim_regs d; sim_word := sim_word d + 1;
      sim_left := pred (sim_left d);
      sim_wait := if decide ((pred (sim_left d) mod 256)%nat = O) then 2 else 0 |}).

#[export] Instance sim_ports : Ports ata_sim := {
  port_out8 := sim_out; port_in8 := sim_in8; port_in16 := sim_in16
}.

#[export] Program Instance sim_ata : AtaDisk ata_sim := {
  ata_image := sim_image;
  ata_data d w n k := sim_word d = w ∧ sim_left d = n ∧ sim_wait d = k ∧ (k ≤ 2)%nat;
  ata_max_wait := 2
}.
Next Obligation. intros d a. apply u8_range. Qed.
Next Obligation. intros d w n k. simpl. tauto. Qed.
Next Obligation.
  intros [img [[[[h c] l] m] hi] w n k] lba total Hl Ht. split; [done|]. exists 2%nat.
  split_and!; [|done|done|lia]. cbn. f_equal. euclid.
Qed.
Next Obligation.
  intros [img r w n k] w' n' k' (Hw & Hn & Hk & Hk2). cbn in *. subst. eexists _, _.
  split; [reflexivity|]. split_and!; [range|done|done|done|done|lia|done].
Qed.
Next Obligation.
  intros [img r w n k] w' n' (Hw & Hn & Hk & Hk2). cbn in *. subst. eexists _, _.
  split; [reflexivity|]. split_and!; [range|done|done|done|done|lia|done].
Qed.
Next Obligation.
  intros [img r w n k] w' n' (Hw & Hn & Hk & Hk2). cbn in *. subst. eexists.
  split; [reflexivity|]. split; [done|]. eexists. split; [split_and!; [done..|]|].
  - cbn -[Nat.modulo]. destruct (decide ((n' mod 256)%nat = O)); lia.
  - intros Hne. cbn -[Nat.modulo]. by rewrite decide_False.
Qed.

(** The ATA driver reads the sectors it is asked for.  With a device that
    follows the protocol and a polling budget of at least the number of busy
    status values the device shows, [disk_read_sector] terminates with status 0
    and the [512 * total] bytes of the medium from sector [lba] on. *)
Theorem disk_read_sector_correct {D} `{AtaDisk D} fuel lba total d :
  0 <= lba < 2 ^ 28 → 1 <= total <= 255 → (ata_max_wait ≤ fuel)%nat →
  ∃ d', disk_read_sector fuel lba total d =
          Done ((0, image_bytes (ata_image d) (512 * lba) (512 * total)), d') ∧
        ata_image d' = ata_image d.
Proof. apply disk_read_sector_spec. Qed.

Definition sim_disk (medium : Z → Z) : ata_sim :=
  {| sim_medium := medium; sim_regs := (0, 0, 0, 0, 0); sim_word := 0; sim_left := 0; sim_wait := 0 |}.

Lemma disk_read_sector_correct_witness :
  ∃ d', disk_read_sector 2 0x123456 2 (sim_disk (λ a, a * a)) =
          Done ((0, image_bytes (ata_image (sim_disk (λ a, a * a))) (512 * 0x123456) (512 * 2)), d') ∧
        ata_image d' = ata_image (sim_disk (λ a, a * a)).
Proof. apply (disk_read_sector_correct 2 0x123456 2 (sim_disk (λ a, a * a))); done || lia. Defined.

(** ** Block devices *)

Class BlockDevice (D : Type) := {
  bd_read : Z → Z → M D (Z * list Z);
  bd_image : D → Z → Z;
  bd_image_u8 d a : is_u8 (bd_image d a);
  bd_read_ok d lba total : 0 <= lba < 2 ^ 28 → 1 <= total <= 255 →
    ∃ d', bd_read lba total d =
            Done ((0, image_bytes (bd_image d) (512 * lba) (512 * total)), d') ∧
          bd_image d' = bd_image d
}.

(** The ATA driver on a device that follows the protocol is one. *)
#[export] Program Instance ata_block_device {D} `{AtaDisk D} : BlockDevice D := {
  bd_read := disk_read_sector ata_max_wait;
  bd_image := ata_image
}.
Next Obligation. intros. apply ata_image_u8. Qed.
Next Obligation. intros. by apply disk_read_sector_spec. Qed.

(** A device that answers from memory. *)
#[export] Program Instance memory_block_device : BlockDevice (Z → Z) := {
  bd_read lba total d := Done ((0, image_bytes (λ a, u8 (d a)) (512 * lba) (512 * total)), d);
  bd_image d a := u8 (d a)
}.
Next Obligation. intros. apply u8_range. Qed.
Next Obligation. intros. by exists d. Qed.

(** ** disk.c: the descriptor of the one disk *)

Inductive disk_ptr := NullDisk | TheDisk.
Inductive fs_ptr := NullFs | Fat16Fs.

#[export] Instance disk_ptr_eq_dec : EqDecision disk_ptr.
Proof. solve_decision. Defined.
#[export] Instance fs_ptr_eq_dec : EqDecision fs_ptr.
Proof. solve_decision. Defined.

Record disk := {
  disk_type : Z;
  sector_size : Z;
  disk_id : Z;
  filesystem : fs_ptr;
  fs_private : Z
}.

Record disk_stream := { pos : Z; sdisk : disk_ptr }.
Definition sizeof_disk_stream : Z := 8.

Definition disk_get (index : Z) : disk_ptr := if negb (index =? 0) then NullDisk else TheDisk.

Section streamer.
Context {S : Type} `{Allocator S} {D : Type} `{BlockDevice D}.

Record dstate := {
  dmem : S;
  ddev : D;
  dsk : disk;
  streams : gmap Z disk_stream
}.

Definition set_dmem (m : S) (s : dstate) : dstate :=
  {| dmem := m; ddev := ddev s; dsk := dsk s; streams := streams s |}.
Definition set_ddev (d : D) (s : dstate) : dstate :=
  {| dmem := dmem s; ddev := d; dsk := dsk s; streams := streams s |}.
Definition set_dsk (k : disk) (s : dstate) : dstate :=
  {| dmem := dmem s; ddev := ddev s; dsk := k; streams := streams s |}.
Definition set_streams (t : gmap Z disk_stream) (s : dstate) : dstate :=
  {| dmem := dmem s; ddev := ddev s; dsk := dsk s; streams := t |}.

Definition disk_read_block (idisk : disk_ptr) (lba total : Z) : M dstate (Z * list Z) :=
  match idisk with
  | NullDisk => mret (- EIO, [])
  | TheDisk => zoom ddev set_ddev (bd_read (s32 lba) total)
  end.

(** ** streamer.c *)

Definition get_stream (p : Z) : M dstate disk_stream := λ s,
  match streams s !! p with Some x => Done (x, s) | None => Undef end.
Definition put_stream (p : Z) (x : disk_stream) : M dstate unit :=
  modify (λ s, set_streams (<[p := x]> (streams s)) s).

Definition diskstreamer_new (disk_id : Z) : M dstate Z :=
  match disk_get disk_id with
  | NullDisk => mret 0
  | TheDisk =>
      streamer ← zoom dmem set_dmem (alloc sizeof_disk_stream);
      if streamer =? 0 then undef
      else put_stream streamer {| pos := 0; sdisk := TheDisk |};; mret streamer
  end.

Definition diskstreamer_seek (stream new_pos : Z) : M dstate Z :=
  x ← get_stream stream;
  put_stream stream {| pos := new_pos; sdisk := sdisk x |};;
  mret 0.

(** The copying loop: [n] bytes of [buf] from index [i]. *)
Fixpoint copy_out (n : nat) (buf : list Z) (i : Z) : option (list Z) :=
  match n with
  | O => Some []
  | Datatypes.S n => b ← buf.[i]; rest ← copy_out n buf (i + 1); Some (b :: rest)
  end.

(** The status and the bytes stored at [out].  A read of [total] bytes makes at
    most [total] recursive calls. *)
Fixpoint diskstreamer_read (fuel : nat) (stream total : Z) : M dstate (Z * list Z) :=
  match fuel with
  | O => λ _, Spin
  | Datatypes.S fuel =>
      x ← get_stream stream;
      let sector := Z.quot (pos x) VANA_SECTOR_SIZE in
      let offset := Z.rem (pos x) VANA_SECTOR_SIZE in
      let overflow := VANA_SECTOR_SIZE <=? offset + total in
      let total_to_read := if overflow then total - ((offset + total) - VANA_SECTOR_SIZE) else total in
      r ← disk_read_block (sdisk x) sector 1;
      let '(res, buf) := r in
      if res <? 0 then mret (res, [])
      else
        bytes ← liftO (copy_out (Z.to_nat total_to_read) buf offset);
        put_stream stream {| pos := s32 (pos x + total_to_read); sdisk := sdisk x |};;
        if overflow then
          r ← diskstreamer_read fuel stream (total - total_to_read);
          mret (r.1, bytes ++ r.2)
        else mret (res, bytes)
  end.

Definition diskstreamer_close (stream : Z) : M dstate unit :=
  zoom dmem set_dmem (release stream);;
  modify (λ s, set_streams (delete stream (streams s)) s).

(** ** Properties *)

Lemma copy_out_image img a n i m : 0 <= i → 0 <= n → i + n <= m →
  copy_out (Z.to_nat n) (image_bytes img a m) i = Some (image_bytes img (a + i) n).
Proof.
  intros Hi Hn Hm. replace n with (Z.of_nat (Z.to_nat n)) in * by lia. rewrite Nat2Z.id.
  revert i Hi Hm. induction (Z.to_nat n) as [|k IH]; intros i Hi Hm; [done|].
  cbn [copy_out]. rewrite image_bytes_lookup by lia. cbn [mbind option_bind].
  rewrite IH by lia. cbn [mbind option_bind].
  replace (Z.of_nat (Datatypes.S k)) with (1 + Z.of_nat k) by lia.
  rewrite image_bytes_app, image_bytes_1 by lia. by rewrite <- Z.add_assoc.
Qed.

(** Two states that differ in the device only by its internal state. *)
Record same_disk (s s' : dstate) : Prop := {
  sd_mem : dmem s' = dmem s;
  sd_dsk : dsk s' = dsk s;
  sd_image : bd_image (ddev s') = bd_image (ddev s)
}.

Lemma diskstreamer_read_spec fuel stream total s x :
  streams s !! stream = Some x → sdisk x = TheDisk → 0 <= pos x → 0 <= total →
  pos x + total < 2 ^ 31 → (Z.to_nat total < fuel)%nat →
  ∃ s', diskstreamer_read fuel stream total s =
          Done ((0, image_bytes (bd_image (ddev s)) (pos x) total), s') ∧
        streams s' = <[stream := {| pos := pos x + total; sdisk := TheDisk |}]> (streams s) ∧
        same_disk s s'.
Proof.
  revert s x total. induction fuel as [|fuel IH]; intros s x total Hx Hd Hp Ht Hmax Hf; [lia|].
  set (img := bd_image (ddev s)).
  set (sector := pos x / 512). set (offset := pos x mod 512).
  assert (pos x = 512 * sector + offset ∧ 0 <= offset < 512 ∧ 0 <= sector < 2 ^ 28) as (Hpos & Hoff & Hsec)
    by (unfold sector, offset; euclid).
  cbn [diskstreamer_read]. erewrite bind_done; [|unfold get_stream; rewrite Hx; reflexivity].
  unfold VANA_SECTOR_SIZE. rewrite Z.quot_div_nonneg, Z.rem_mod_nonneg by lia.
  fold sector offset. cbv zeta. rewrite Hd.
  destruct (bd_read_ok (ddev s) sector 1) as (d' & E & Hi); [done|lia|].
  erewrite bind_done.
  2:{ unfold disk_read_block. apply zoom_done. rewrite s32_small by range. apply E. }
  cbn [Z.ltb Z.compare].
  set (n := if 512 <=? offset + total then total - (offset + total - 512) else total).
  assert (0 <= n ∧ n <= total ∧ offset + n <= 512) as (Hn0 & Hnt & Hn)
    by (unfold n; destruct (Z.leb_spec 512 (offset + total)); lia).
  erewrite bind_done.
  2:{ unfold liftO. fold img. rewrite copy_out_image, <- Hpos by lia. reflexivity. }
  erewrite bind_done; [|reflexivity]. cbn [streams set_ddev set_streams].
  rewrite s32_small by range.
  destruct (Z.leb_spec 512 (offset + total)) as [Hov|Hov].
  - set (s1 := set_streams _ _).
    destruct (IH s1 {| pos := pos x + n; sdisk := TheDisk |} (total - n)) as (s' & E' & Hst & [Hs1 Hs2 Hs3]);
      [by cbn; rewrite lookup_insert_eq|done|cbn; lia|lia|cbn; lia|unfold n in *; lia|].
    exists s'. cbn in Hst, Hs1, Hs2, Hs3, E'. split_and!.
    + rewrite (bind_done _ _ _ _ _ E'). unfold mret, M_ret. cbn [fst snd]. rewrite Hi. fold img.
      rewrite <- image_bytes_app by lia. by replace (n + (total - n)) with total by lia.
    + rewrite Hst, insert_insert_eq. do 2 f_equal. lia.
    + split; [done|done|congruence].
  - assert (n = total) as -> by (unfold n; lia). eexists. split_and!; [reflexivity|done|]. by split.
Qed.

(** C15: a stream delivers the medium byte by byte.  Reading [total] bytes at any
    position, aligned or not and across any number of sectors, terminates after
    at most [total] recursive calls, returns status 0 and exactly the bytes of
    the medium from the position on, and advances the position by [total];
    other streams, the heap and the medium are unchanged. *)
Theorem diskstreamer_read_correct stream total s x :
  streams s !! stream = Some x → sdisk x = TheDisk → 0 <= pos x → 0 <= total →
  pos x + total < 2 ^ 31 →
  ∃ s', diskstreamer_read (Datatypes.S (Z.to_nat total)) stream total s =
          Done ((0, image_bytes (bd_image (ddev s)) (pos x) total), s') ∧
        streams s' = <[stream := {| pos := pos x + total; sdisk := TheDisk |}]> (streams s) ∧
        same_disk s s'.
Proof. intros. apply diskstreamer_read_spec; done || lia. Qed.
End streamer.

Arguments dstate S D : clear implicits.

#[export] Instance dstate_allocator {S D} `{Allocator S} : Allocator (dstate S D) :=
  allocator_lift dmem set_dmem (λ m t, eq_refl) ltac:(by intros []).

Definition demo_disk : disk :=
  {| disk_type := 0; sector_size := 512; disk_id := 0; filesystem := NullFs; fs_private := 0 |}.

Lemma diskstreamer_read_correct_witness :
  let s := {| dmem := kmem_of demo; ddev := (λ a : Z, a); dsk := demo_disk;
              streams := {[ 4096 := {| pos := 500; sdisk := TheDisk |} ]} |} in
  ∃ s', diskstreamer_read 601 4096 600 s = Done ((0, image_bytes (bd_image (λ a : Z, a)) 500 600), s') ∧
        streams s' = <[4096 := {| pos := 1100; sdisk := TheDisk |}]> (streams s) ∧ same_disk s s'.
Proof.
  intros s. apply (diskstreamer_read_correct 4096 600 s {| pos := 500; sdisk := TheDisk |}); done.
Defined.
