(* ===== verification/Fat16.v ===== *)
(** * The FAT16 file system

    Models src/src/fs/fat/fat16.c.  The packed structures read from the disk
    (boot sector header, directory entries) are lists of bytes with accessors
    at the offsets of their fields; the objects of the driver live in typed
    stores, and what is freed is removed from its store.  There is one disk, so
    the [struct disk*] arguments are left out and [fs_private] is read from it.

    [int] arithmetic is exact (its overflow is undefined in C); the conversions
    between [int] and [uint32_t] are written out. *)

From S2P Require Import Prelude Config CString Heap Kheap Idt PathParser Disk.
Local Open Scope Z_scope.

(** ** On-disk structures *)

Definition le16 (b : list Z) (o : Z) : option Z :=
  b0 ← b.[o]; b1 ← b.[o + 1]; Some (b0 + b1 * 2 ^ 8).
Definition le32 (b : list Z) (o : Z) : option Z :=
  lo ← le16 b o; hi ← le16 b (o + 2); Some (lo + hi * 2 ^ 16).

(** [struct fat_h]: 36 bytes of primary and 26 bytes of extended header. *)
Definition sizeof_fat_h : Z := 62.
Definition bytes_per_sector (h : list Z) : option Z := le16 h 11.
Definition sectors_per_cluster (h : list Z) : option Z := h.[13].
Definition reserved_sectors (h : list Z) : option Z := le16 h 14.
Definition fat_copies (h : list Z) : option Z := h.[16].
Definition root_dir_entries (h : list Z) : option Z := le16 h 17.
Definition sectors_per_fat (h : list Z) : option Z := le16 h 22.
Definition ext_signature (h : list Z) : option Z := h.[38].

(** [struct fat_directory_item]: 32 bytes. *)
Definition sizeof_fat_directory_item : Z := 32.
Definition item_filename (i : list Z) : list Z := i.
Definition item_ext (i : list Z) : list Z := drop 8 i.
Definition item_attribute (i : list Z) : option Z := i.[11].
Definition high_16_bits_first_cluster (i : list Z) : option Z := le16 i 20.
Definition low_16_bits_first_cluster (i : list Z) : option Z := le16 i 26.
Definition item_filesize (i : list Z) : option Z := le32 i 28.

Definition VANA_FAT16_SIGNATURE : Z := 0x29.
Definition VANA_FAT16_FAT_ENTRY_SIZE : Z := 0x02.
Definition VANA_FAT16_BAD_SECTOR : Z := 0xFF7.
Definition FAT_ITEM_TYPE_DIRECTORY : Z := 0.
Definition FAT_ITEM_TYPE_FILE : Z := 1.
Definition FAT_FILE_READ_ONLY : Z := 0x01.
Definition FAT_FILE_SUBDIRECTORY : Z := 0x10.

Definition SEEK_SET : Z := 0.
Definition SEEK_CUR : Z := 1.
Definition SEEK_END : Z := 2.
Definition FILE_MODE_READ : Z := 0.
Definition FILE_MODE_WRITE : Z := 1.
Definition FILE_MODE_APPEND : Z := 2.
Definition FILE_MODE_INVALID : Z := 3.
Definition FILE_STAT_READ_ONLY : Z := 1.

(** ** Objects of the driver *)

Record fat_directory := {
  dir_item : Z;
  dir_total : Z;
  sector_pos : Z;
  ending_sector_pos : Z
}.

(** The union member is a pointer to an entry or to a directory. *)
Record fat_item := { fi_ptr : Z; fi_type : Z }.

Record fat_file_descriptor := { fd_item : Z; fd_pos : Z }.

Record fat_private := {
  header : list Z;
  root_directory : fat_directory;
  cluster_read_stream : Z;
  fat_read_stream : Z;
  directory_stream : Z
}.

Definition no_directory : fat_directory :=
  {| dir_item := 0; dir_total := 0; sector_pos := 0; ending_sector_pos := 0 |}.

Definition sizeof_fat_private : Z := 92.
Definition sizeof_fat_directory : Z := 16.
Definition sizeof_fat_item : Z := 8.
Definition sizeof_fat_file_descriptor : Z := 8.

Record file_stat := { stat_flags : Z; stat_filesize : Z }.

(** ** Names *)

(** [fat16_to_proper_string]: [out] points to index [o] of [buf]; [n] more
    characters may be copied. *)
Fixpoint proper_string (n : nat) (inp : list Z) (buf : list Z) (o : Z) : option (list Z * Z) :=
  c ← inp.[0];
  if negb (c =? 0) && negb (c =? 0x20) then
    buf ← buf.[o <- c];
    match n with
    | O => buf ← buf.[o + 1 <- 0]; Some (buf, o + 1)
    | S n => proper_string n (drop 1 inp) buf (o + 1)
    end
  else buf ← buf.[o <- 0]; Some (buf, o).

Definition fat16_to_proper_string (inp : list Z) (size : Z) (buf : list Z) (o : Z) :
    option (list Z * Z) :=
  proper_string (Z.to_nat (size - 1)) inp buf o.

(** The buffer [out] after the call. *)
Definition fat16_get_full_relative_filename (item : list Z) (out : list Z) (max_len : Z) :
    option (list Z) :=
  out ← memset out 0 max_len;
  '(out, o) ← fat16_to_proper_string (item_filename item) 8 out 0;
  e0 ← (item_ext item).[0];
  if negb (e0 =? 0) && negb (e0 =? 0x20) then
    out ← out.[o <- 46];
    '(out, _) ← fat16_to_proper_string (item_ext item) 3 out (o + 1);
    Some out
  else Some out.

Definition fat16_get_first_cluster (item : list Z) : option Z :=
  high ← high_16_bits_first_cluster item;
  low ← low_16_bits_first_cluster item;
  Some (u32 (Z.lor (Z.shiftl high 16) low)).

Definition fat16_cluster_to_sector (private : fat_private) (cluster : Z) : option Z :=
  spc ← sectors_per_cluster (header private);
  Some (ending_sector_pos (root_directory private) + (cluster - 2) * spc).

Definition fat16_get_first_fat_sector (private : fat_private) : option Z :=
  reserved_sectors (header private).

Section fat.
Context {S : Type} `{Allocator S} {D : Type} `{BlockDevice D}.

Record fstate := {
  fpp : pp_state (dstate S D);
  privs : gmap Z fat_private;
  dirs : gmap Z fat_directory;
  dirbufs : gmap Z (list Z);
  ditems : gmap Z (list Z);
  fitems : gmap Z fat_item;
  fdescs : gmap Z fat_file_descriptor
}.

Definition fds (s : fstate) : dstate S D := pp_mem (fpp s).

Definition set_fpp x (s : fstate) : fstate :=
  {| fpp := x; privs := privs s; dirs := dirs s; dirbufs := dirbufs s; ditems := ditems s;
     fitems := fitems s; fdescs := fdescs s |}.
Definition set_fds x (s : fstate) : fstate := set_fpp (set_pp_mem x (fpp s)) s.
Definition set_privs x (s : fstate) : fstate :=
  {| fpp := fpp s; privs := x; dirs := dirs s; dirbufs := dirbufs s; ditems := ditems s;
     fitems := fitems s; fdescs := fdescs s |}.
Definition set_dirs x (s : fstate) : fstate :=
  {| fpp := fpp s; privs := privs s; dirs := x; dirbufs := dirbufs s; ditems := ditems s;
     fitems := fitems s; fdescs := fdescs s |}.
Definition set_dirbufs x (s : fstate) : fstate :=
  {| fpp := fpp s; privs := privs s; dirs := dirs s; dirbufs := x; ditems := ditems s;
     fitems := fitems s; fdescs := fdescs s |}.
Definition set_ditems x (s : fstate) : fstate :=
  {| fpp := fpp s; privs := privs s; dirs := dirs s; dirbufs := dirbufs s; ditems := x;
     fitems := fitems s; fdescs := fdescs s |}.
Definition set_fitems x (s : fstate) : fstate :=
  {| fpp := fpp s; privs := privs s; dirs := dirs s; dirbufs := dirbufs s; ditems := ditems s;
     fitems := x; fdescs := fdescs s |}.
Definition set_fdescs x (s : fstate) : fstate :=
  {| fpp := fpp s; privs := privs s; dirs := dirs s; dirbufs := dirbufs s; ditems := ditems s;
     fitems := fitems s; fdescs := x |}.

Definition in_disk {A} (m : M (dstate S D) A) : M fstate A := zoom fds set_fds m.
Definition f_alloc (size : Z) : M fstate Z := in_disk (zoom dmem set_dmem (alloc (u32 size))).
Definition f_free (p : Z) : M fstate unit := in_disk (zoom dmem set_dmem (release p)).

Definition the_disk : M fstate disk := gets (λ s, dsk (fds s)).

(** Reading an object through a pointer. *)
Definition deref {X} (store : fstate → gmap Z X) (p : Z) : M fstate X := λ s,
  match store s !! p with Some x => Done (x, s) | None => Undef end.

Definition the_private : M fstate fat_private := d ← the_disk; deref privs (fs_private d).

(** A read of [total] bytes; its recursion depth is bounded by [total]. *)
Definition stream_read (stream total : Z) : M fstate (Z * list Z) :=
  in_disk (diskstreamer_read (Datatypes.S (Z.to_nat total)) stream total).

(** ** Directories *)

Definition fat16_sector_to_absolute (sector : Z) : M fstate Z :=
  d ← the_disk; mret (sector * sector_size d).

(** The [while (1)] loop; [fuel] bounds the number of entries. *)
Fixpoint count_items (fuel : nat) (stream i : Z) : M fstate Z :=
  match fuel with
  | O => λ _, Spin
  | Datatypes.S fuel =>
      r ← stream_read stream sizeof_fat_directory_item;
      let '(res, item) := r in
      if negb (res =? VANA_ALL_OK) then mret (- EIO)
      else
        c ← liftO item.[0];
        if c =? 0x00 then mret i
        else if c =? 0xE5 then count_items fuel stream i
        else count_items fuel stream (i + 1)
  end.

Definition fat16_get_total_items_for_directory (fuel : nat) (directory_start_sector : Z) : M fstate Z :=
  private ← the_private;
  d ← the_disk;
  let directory_start_pos := s32 (u32 directory_start_sector * sector_size d) in
  let stream := directory_stream private in
  r ← in_disk (diskstreamer_seek stream directory_start_pos);
  if negb (r =? VANA_ALL_OK) then mret (- EIO)
  else count_items fuel stream 0.

(** The status and the directory to store. *)
Definition fat16_get_root_directory (fuel : nat) (private : fat_private) :
    M fstate (Z * fat_directory) :=
  copies ← liftO (fat_copies (header private));
  spf ← liftO (sectors_per_fat (header private));
  reserved ← liftO (reserved_sectors (header private));
  let root_dir_sector_pos := copies * spf + reserved in
  entries ← liftO (root_dir_entries (header private));
  let root_dir_size := entries * sizeof_fat_directory_item in
  d ← the_disk;
  if sector_size d =? 0 then undef
  else
    let total_sectors := Z.quot root_dir_size (sector_size d) in
    let total_sectors := if negb (Z.rem root_dir_size (sector_size d) =? 0)
                         then total_sectors + 1 else total_sectors in
    total_items ← fat16_get_total_items_for_directory fuel root_dir_sector_pos;
    dir ← f_alloc root_dir_size;
    if dir =? 0 then mret (- ENOMEM, root_directory private)
    else
      let stream := directory_stream private in
      start ← fat16_sector_to_absolute root_dir_sector_pos;
      r ← in_disk (diskstreamer_seek stream start);
      if negb (r =? VANA_ALL_OK) then f_free dir;; mret (- EIO, root_directory private)
      else
        r ← stream_read stream root_dir_size;
        let '(res, bytes) := r in
        if negb (res =? VANA_ALL_OK) then f_free dir;; mret (- EIO, root_directory private)
        else
          modify (λ s, set_dirbufs (<[dir := bytes]> (dirbufs s)) s);;
          mret (0, {| dir_item := dir; dir_total := total_items; sector_pos := root_dir_sector_pos;
                      ending_sector_pos := root_dir_sector_pos + total_sectors |}).

Definition fat16_init_private (private : Z) : M fstate unit :=
  d ← the_disk;
  s1 ← in_disk (diskstreamer_new (disk_id d));
  s2 ← in_disk (diskstreamer_new (disk_id d));
  s3 ← in_disk (diskstreamer_new (disk_id d));
  modify (λ s, set_privs (<[private :=
    {| header := replicate (Z.to_nat sizeof_fat_h) 0; root_directory := no_directory;
       cluster_read_stream := s1; fat_read_stream := s2; directory_stream := s3 |}]> (privs s)) s).

Definition set_fs_private (p : Z) (fs : fs_ptr) : M fstate unit :=
  modify (λ s, set_fds (set_dsk
    {| disk_type := disk_type (dsk (fds s)); sector_size := sector_size (dsk (fds s));
       disk_id := disk_id (dsk (fds s)); filesystem := fs; fs_private := p |} (fds s)) s).

(** The part of [fat16_resolve] between the creation of the stream and [out]. *)
Definition fat16_load_header (fuel : nat) (private stream : Z) : M fstate Z :=
  r ← stream_read stream sizeof_fat_h;
  let '(res, bytes) := r in
  if negb (res =? VANA_ALL_OK) then mret (- EIO)
  else
    p ← deref privs private;
    let p := {| header := bytes; root_directory := root_directory p;
                cluster_read_stream := cluster_read_stream p;
                fat_read_stream := fat_read_stream p; directory_stream := directory_stream p |} in
    modify (λ s, set_privs (<[private := p]> (privs s)) s);;
    sig ← liftO (ext_signature (header p));
    if negb (sig =? VANA_FAT16_SIGNATURE) then mret (- EFSNOTUS)
    else
      r ← fat16_get_root_directory fuel p;
      let '(res, dir) := r in
      modify (λ s, set_privs (<[private :=
        {| header := header p; root_directory := dir; cluster_read_stream := cluster_read_stream p;
           fat_read_stream := fat_read_stream p; directory_stream := directory_stream p |}]> (privs s)) s);;
      if negb (res =? VANA_ALL_OK) then mret (- EIO) else mret 0.

Definition fat16_resolve (fuel : nat) : M fstate Z :=
  private ← f_alloc sizeof_fat_private;
  if private =? 0 then undef
  else
    fat16_init_private private;;
    set_fs_private private Fat16Fs;;
    d ← the_disk;
    stream ← in_disk (diskstreamer_new (disk_id d));
    res ← (if stream =? 0 then mret (- ENOMEM) else fat16_load_header fuel private stream);
    (if negb (stream =? 0) then in_disk (diskstreamer_close stream) else mret tt);;
    (if res <? 0 then
       f_free private;;
       modify (λ s, set_privs (delete private (privs s)) s);;
       set_fs_private 0 Fat16Fs
     else mret tt);;
    mret res.

(** ** Clusters *)

Definition fat16_get_fat_entry (cluster : Z) : M fstate Z :=
  private ← the_private;
  let stream := fat_read_stream private in
  if stream =? 0 then mret (-1)
  else
    d ← the_disk;
    first ← liftO (fat16_get_first_fat_sector private);
    let fat_table_position := u32 (first * sector_size d) in
    res ← in_disk (diskstreamer_seek stream
            (s32 (fat_table_position + u32 (cluster * VANA_FAT16_FAT_ENTRY_SIZE))));
    if res <? 0 then mret res
    else
      r ← stream_read stream 2;
      let '(res, bytes) := r in
      if res <? 0 then mret res
      else result ← liftO (le16 bytes 0); mret result.

(** The walk along the chain; the negative results are errors. *)
Fixpoint follow_chain (n : nat) (cluster_to_use : Z) : M fstate Z :=
  match n with
  | O => mret cluster_to_use
  | Datatypes.S n =>
      entry ← fat16_get_fat_entry cluster_to_use;
      if (entry =? 0xFFF8) || (entry =? 0xFFFF) then mret (- EIO)
      else if entry =? VANA_FAT16_BAD_SECTOR then mret (- EIO)
      else if (entry =? 0xFF0) || (entry =? 0xFF6) then mret (- EIO)
      else if entry =? 0x00 then mret (- EIO)
      else follow_chain n entry
  end.

Definition size_of_cluster_bytes (private : fat_private) : M fstate Z :=
  d ← the_disk;
  spc ← liftO (sectors_per_cluster (header private));
  mret (spc * sector_size d).

Definition fat16_get_cluster_for_offset (starting_cluster offset : Z) : M fstate Z :=
  private ← the_private;
  size ← size_of_cluster_bytes private;
  if size =? 0 then undef
  else follow_chain (Z.to_nat (Z.quot offset size)) starting_cluster.

(** The status and the bytes stored at [out]. *)
Fixpoint fat16_read_internal_from_stream (fuel : nat) (stream cluster offset total : Z) :
    M fstate (Z * list Z) :=
  match fuel with
  | O => λ _, Spin
  | Datatypes.S fuel =>
      private ← the_private;
      size ← size_of_cluster_bytes private;
      cluster_to_use ← fat16_get_cluster_for_offset cluster offset;
      if cluster_to_use <? 0 then mret (cluster_to_use, [])
      else
        let offset_from_cluster := Z.rem offset size in
        starting_sector ← liftO (fat16_cluster_to_sector private cluster_to_use);
        d ← the_disk;
        let starting_pos := starting_sector * sector_size d + offset_from_cluster in
        let total_to_read := if size <? total then size else total in
        res ← in_disk (diskstreamer_seek stream starting_pos);
        if negb (res =? VANA_ALL_OK) then mret (res, [])
        else
          r ← stream_read stream total_to_read;
          let '(res, bytes) := r in
          if negb (res =? VANA_ALL_OK) then mret (res, bytes)
          else
            let total := total - total_to_read in
            if 0 <? total then
              r ← fat16_read_internal_from_stream fuel stream cluster (offset + total_to_read) total;
              mret (r.1, bytes ++ r.2)
            else mret (res, bytes)
  end.

Definition fat16_read_internal (starting_cluster offset total : Z) : M fstate (Z * list Z) :=
  private ← the_private;
  fat16_read_internal_from_stream (Datatypes.S (Z.to_nat total)) (cluster_read_stream private)
    starting_cluster offset total.

(** ** Directory trees *)

Definition fat16_free_directory (directory : Z) : M fstate unit :=
  if directory =? 0 then mret tt
  else
    x ← deref dirs directory;
    (if negb (dir_item x =? 0) then
       f_free (dir_item x);; modify (λ s, set_dirbufs (delete (dir_item x) (dirbufs s)) s)
     else mret tt);;
    f_free directory;;
    modify (λ s, set_dirs (delete directory (dirs s)) s).

Definition fat16_fat_item_free (item : Z) : M fstate unit :=
  x ← deref fitems item;
  (if fi_type x =? FAT_ITEM_TYPE_DIRECTORY then fat16_free_directory (fi_ptr x)
   else if fi_type x =? FAT_ITEM_TYPE_FILE then
     f_free (fi_ptr x);; modify (λ s, set_ditems (delete (fi_ptr x) (ditems s)) s)
   else mret tt);;
  f_free item;;
  modify (λ s, set_fitems (delete item (fitems s)) s).

Definition fat16_clone_directory_item (item : list Z) (size : Z) : M fstate Z :=
  if size <? sizeof_fat_directory_item then mret 0
  else
    item_copy ← f_alloc size;
    if item_copy =? 0 then mret 0
    else
      bytes ← liftO (memcpy (replicate (Z.to_nat size) 0) item size);
      modify (λ s, set_ditems (<[item_copy := bytes]> (ditems s)) s);;
      mret item_copy.

(** On an error the directory is freed, and its address is returned all the
    same. *)
Definition fat16_load_fat_directory (fuel : nat) (item : list Z) : M fstate Z :=
  private ← the_private;
  attr ← liftO (item_attribute item);
  if Z.land attr FAT_FILE_SUBDIRECTORY =? 0 then fat16_free_directory 0;; mret 0
  else
    directory ← f_alloc sizeof_fat_directory;
    if directory =? 0 then fat16_free_directory 0;; mret 0
    else
      modify (λ s, set_dirs (<[directory := no_directory]> (dirs s)) s);;
      c ← liftO (fat16_get_first_cluster item);
      let cluster := s32 c in
      cluster_sector ← liftO (fat16_cluster_to_sector private cluster);
      total_items ← fat16_get_total_items_for_directory fuel cluster_sector;
      let directory_size := total_items * sizeof_fat_directory_item in
      buf ← f_alloc directory_size;
      let dir := {| dir_item := buf; dir_total := total_items; sector_pos := 0; ending_sector_pos := 0 |} in
      modify (λ s, set_dirs (<[directory := dir]> (dirs s)) s);;
      if buf =? 0 then fat16_free_directory directory;; mret directory
      else
        r ← fat16_read_internal cluster 0x00 directory_size;
        let '(res, bytes) := r in
        modify (λ s, set_dirbufs (<[buf := bytes ++ drop (length bytes)
                                      (replicate (Z.to_nat (u32 directory_size)) 0)]> (dirbufs s)) s);;
        (if negb (res =? VANA_ALL_OK) then fat16_free_directory directory else mret tt);;
        mret directory.

Definition fat16_new_fat_item_for_directory_item (fuel : nat) (item : list Z) : M fstate Z :=
  f_item ← f_alloc sizeof_fat_item;
  if f_item =? 0 then mret 0
  else
    attr ← liftO (item_attribute item);
    if negb (Z.land attr FAT_FILE_SUBDIRECTORY =? 0) then
      d ← fat16_load_fat_directory fuel item;
      modify (λ s, set_fitems (<[f_item := {| fi_ptr := d; fi_type := FAT_ITEM_TYPE_DIRECTORY |}]> (fitems s)) s);;
      mret f_item
    else
      i ← fat16_clone_directory_item item sizeof_fat_directory_item;
      modify (λ s, set_fitems (<[f_item := {| fi_ptr := i; fi_type := FAT_ITEM_TYPE_FILE |}]> (fitems s)) s);;
      mret f_item.

(** Entry [i] of an array of directory entries. *)
Definition dir_entry (buf : list Z) (i : Z) : option (list Z) :=
  if (0 <=? i) && (i * 32 + 32 <=? Z.of_nat (length buf))
  then Some (take 32 (drop (Z.to_nat (i * 32)) buf)) else None.

(** The name of entry [item] compared with [name]; the result of [istrncmp]. *)
Definition compare_entry (item name : list Z) : option Z :=
  tmp_filename ← fat16_get_full_relative_filename item
                   (replicate (Z.to_nat VANA_MAX_PATH) 0) VANA_MAX_PATH;
  istrncmp tmp_filename name VANA_MAX_PATH.

(** The search does not stop at a match: a later match replaces it. *)
Fixpoint find_loop (fuel n : nat) (i : Z) (directory : fat_directory) (name : list Z) (f_item : Z) :
    M fstate Z :=
  match n with
  | O => mret f_item
  | Datatypes.S n =>
      buf ← deref dirbufs (dir_item directory);
      item ← liftO (dir_entry buf i);
      r ← liftO (compare_entry item name);
      if r =? 0 then
        f ← fat16_new_fat_item_for_directory_item fuel item;
        find_loop fuel n (i + 1) directory name f
      else find_loop fuel n (i + 1) directory name f_item
  end.

Definition fat16_find_item_in_directory (fuel : nat) (directory : fat_directory) (name : list Z) :
    M fstate Z :=
  find_loop fuel (Z.to_nat (dir_total directory)) 0 directory name 0.

(** The parts of a path, read from the stores of the parser. *)
Definition path_node (p : Z) : M fstate (path_part * list Z) :=
  x ← deref (λ s, parts (fpp s)) p;
  name ← deref (λ s, strs (fpp s)) (part x);
  mret (x, name).

(** [depth] bounds the number of parts. *)
Fixpoint walk_path (fuel depth : nat) (current_item next_part : Z) : M fstate Z :=
  if next_part =? 0 then mret current_item
  else match depth with
       | O => λ _, Spin
       | Datatypes.S depth =>
           x ← deref fitems current_item;
           if negb (fi_type x =? FAT_ITEM_TYPE_DIRECTORY) then mret 0
           else
             directory ← deref dirs (fi_ptr x);
             n ← path_node next_part;
             tmp_item ← fat16_find_item_in_directory fuel directory n.2;
             fat16_fat_item_free current_item;;
             walk_path fuel depth tmp_item (next n.1)
       end.

Definition fat16_get_directory_entry (fuel depth : nat) (path : Z) : M fstate Z :=
  private ← the_private;
  n ← path_node path;
  root_item ← fat16_find_item_in_directory fuel (root_directory private) n.2;
  if root_item =? 0 then mret 0
  else walk_path fuel depth root_item (next n.1).

(** ** The operations of the file system *)

(** A descriptor, or an error code as a pointer. *)
Definition fat16_open (fuel depth : nat) (path mode : Z) : M fstate Z :=
  if negb (mode =? FILE_MODE_READ) then mret (ERROR (- ERDONLY))
  else
    descriptor ← f_alloc sizeof_fat_file_descriptor;
    if descriptor =? 0 then mret (ERROR (- ENOMEM))
    else
      item ← fat16_get_directory_entry fuel depth path;
      if item =? 0 then f_free descriptor;; mret (ERROR (- EIO))
      else
        modify (λ s, set_fdescs (<[descriptor := {| fd_item := item; fd_pos := 0 |}]> (fdescs s)) s);;
        mret descriptor.

Definition fat16_free_file_descriptor (desc : Z) : M fstate unit :=
  x ← deref fdescs desc;
  fat16_fat_item_free (fd_item x);;
  f_free desc;;
  modify (λ s, set_fdescs (delete desc (fdescs s)) s).

Definition fat16_close (private : Z) : M fstate Z :=
  fat16_free_file_descriptor private;; mret 0.

(** The status and the statistics ([None]: the structure is not written). *)
Definition fat16_stat (private : Z) : M fstate (Z * option file_stat) :=
  descriptor ← deref fdescs private;
  desc_item ← deref fitems (fd_item descriptor);
  if negb (fi_type desc_item =? FAT_ITEM_TYPE_FILE) then mret (- EINVARG, None)
  else
    ritem ← deref ditems (fi_ptr desc_item);
    size ← liftO (item_filesize ritem);
    attr ← liftO (item_attribute ritem);
    mret (0, Some {| stat_filesize := size;
                     stat_flags := if negb (Z.land attr FAT_FILE_READ_ONLY =? 0)
                                   then Z.lor 0 FILE_STAT_READ_ONLY else 0 |}).

(** The loop of [fat16_read] over the [n] objects left; the status, the bytes
    read and the final [offset]. *)
Fixpoint read_objects (n : nat) (cluster offset size : Z) : M fstate (Z * list Z * Z) :=
  match n with
  | O => mret (0, [], offset)
  | Datatypes.S n =>
      r ← fat16_read_internal cluster offset (s32 size);
      let '(res, bytes) := r in
      if res <? 0 then mret (res, bytes, offset)
      else
        r ← read_objects n cluster (s32 (offset + size)) size;
        let '(res, rest, offset) := r in
        mret (res, bytes ++ rest, offset)
  end.

Definition fat16_read (descriptor size nmemb : Z) : M fstate (Z * list Z) :=
  fat_desc ← deref fdescs descriptor;
  x ← deref fitems (fd_item fat_desc);
  item ← deref ditems (fi_ptr x);
  cluster ← liftO (fat16_get_first_cluster item);
  r ← read_objects (Z.to_nat nmemb) (s32 cluster) (s32 (fd_pos fat_desc)) size;
  let '(res, bytes, offset) := r in
  if res <? 0 then mret (res, bytes)
  else
    modify (λ s, set_fdescs (<[descriptor := {| fd_item := fd_item fat_desc; fd_pos := u32 offset |}]>
                               (fdescs s)) s);;
    mret (s32 nmemb, bytes).

Definition fat16_seek (private offset seek_mode : Z) : M fstate Z :=
  desc ← deref fdescs private;
  desc_item ← deref fitems (fd_item desc);
  if negb (fi_type desc_item =? FAT_ITEM_TYPE_FILE) then mret (- EINVARG)
  else
    ritem ← deref ditems (fi_ptr desc_item);
    size ← liftO (item_filesize ritem);
    if size <=? u32 offset then mret (- EIO)
    else
      let set_pos p :=
        modify (λ s, set_fdescs (<[private := {| fd_item := fd_item desc; fd_pos := p |}]> (fdescs s)) s) in
      if seek_mode =? SEEK_SET then set_pos (u32 offset);; mret 0
      else if seek_mode =? SEEK_END then mret (- EUNIMP)
      else if seek_mode =? SEEK_CUR then set_pos (u32 (fd_pos desc + offset));; mret 0
      else mret (- EINVARG).
End fat.

Arguments fstate S D : clear implicits.

(** ** A mounted file system *)

(** The numbers of the geometry that the driver uses. *)
Record geometry := { g_spc : Z; g_reserved : Z; g_data : Z }.

Definition cluster_size (g : geometry) : Z := g_spc g * VANA_SECTOR_SIZE.

(** Entry [c] of the file allocation table on the medium. *)
Definition fat_entry (g : geometry) (img : Z → Z) (c : Z) : Z :=
  img (g_reserved g * VANA_SECTOR_SIZE + 2 * c) +
  img (g_reserved g * VANA_SECTOR_SIZE + 2 * c + 1) * 2 ^ 8.

(** The entries at which the driver gives up. *)
Definition ends_chain (e : Z) : bool :=
  (e =? 0xFFF8) || (e =? 0xFFFF) || (e =? VANA_FAT16_BAD_SECTOR) || (e =? 0xFF0) ||
  (e =? 0xFF6) || (e =? 0x00).

(** The [n]-th cluster after [c]. *)
Fixpoint chain (ent : Z → Z) (n : nat) (c : Z) : option Z :=
  match n with
  | O => Some c
  | S n => if ends_chain (ent c) then None else chain ent n (ent c)
  end.

(** Where byte [o] of the file that starts at cluster [c] is on the medium. *)
Definition file_pos (g : geometry) (img : Z → Z) (c o : Z) : option Z :=
  cl ← chain (fat_entry g img) (Z.to_nat (o / cluster_size g)) c;
  Some ((g_data g + (cl - 2) * g_spc g) * VANA_SECTOR_SIZE + o mod cluster_size g).

Definition file_bytes (g : geometry) (img : Z → Z) (c o n : Z) : list Z :=
  (λ i, img (default 0 (file_pos g img c (o + i)))) <$> seqZ 0 n.

Section mounted.
Context {S : Type} `{Allocator S} {D : Type} `{BlockDevice D}.
Implicit Types s : fstate S D.

Definition image s : Z → Z := bd_image (ddev (fds s)).

(** A stream of the disk. *)
Definition has_stream (t : gmap Z disk_stream) (p : Z) : Prop :=
  ∃ q, t !! p = Some {| pos := q; sdisk := TheDisk |}.

Record mounted s (p : fat_private) (g : geometry) : Prop := {
  mt_private : privs s !! fs_private (dsk (fds s)) = Some p;
  mt_sector : sector_size (dsk (fds s)) = VANA_SECTOR_SIZE;
  mt_spc : sectors_per_cluster (header p) = Some (g_spc g);
  mt_reserved : reserved_sectors (header p) = Some (g_reserved g);
  mt_data : ending_sector_pos (root_directory p) = g_data g;
  mt_spc_range : 0 < g_spc g < 2 ^ 8;
  mt_reserved_range : 0 <= g_reserved g < 2 ^ 16;
  mt_data_range : 0 <= g_data g;
  mt_cluster : has_stream (streams (fds s)) (cluster_read_stream p);
  mt_fat : has_stream (streams (fds s)) (fat_read_stream p);
  mt_dir : has_stream (streams (fds s)) (directory_stream p);
  mt_fat_nonnull : fat_read_stream p ≠ 0
}.

(** [s'] is [s] after some reads: stream positions and the internal state of
    the device may differ. *)
Record quiet s s' : Prop := {
  q_disk : same_disk (fds s) (fds s');
  q_streams : ∀ p, has_stream (streams (fds s)) p → has_stream (streams (fds s')) p;
  q_dom : dom (streams (fds s')) = dom (streams (fds s));
  q_frame : s' = set_fds (fds s') s
}.

Lemma quiet_refl s : quiet s s.
Proof. split; [by split|done|done|]. by destruct s as [[]]. Qed.

Lemma quiet_trans s1 s2 s3 : quiet s1 s2 → quiet s2 s3 → quiet s1 s3.
Proof.
  intros [[Q1 Q2 Q3] Q4 Q5 Q6] [[R1 R2 R3] R4 R5 R6]. split; [split; congruence|auto|congruence|].
  rewrite R6 at 1. rewrite Q6. done.
Qed.

Lemma quiet_image s s' : quiet s s' → image s' = image s.
Proof. intros [[_ _ E] _ _ _]. exact E. Qed.

Lemma quiet_mounted s s' p g : quiet s s' → mounted s p g → mounted s' p g.
Proof.
  intros [[Q1 Q2 Q3] Q4 Q5 Q6] []. split; rewrite ?Q2; auto. by rewrite Q6.
Qed.

(** Seeking and reading a stream of the disk. *)
Lemma seek_quiet s p q : has_stream (streams (fds s)) p →
  ∃ s', in_disk (diskstreamer_seek p q) s = Done (0, s') ∧ quiet s s' ∧
        streams (fds s') !! p = Some {| pos := q; sdisk := TheDisk |}.
Proof.
  intros [q0 Hp]. exists (set_fds (set_streams (<[p := {| pos := q; sdisk := TheDisk |}]> (streams (fds s))) (fds s)) s).
  split_and!.
  - unfold in_disk. apply zoom_done. unfold diskstreamer_seek.
    erewrite bind_done; [|unfold get_stream; rewrite Hp; reflexivity]. done.
  - split; [by split| | |done].
    + cbn. intros p' [q' Hp']. destruct (decide (p = p')) as [->|Hne].
      * exists q. by rewrite lookup_insert_eq.
      * exists q'. by rewrite lookup_insert_ne.
    + cbn. rewrite dom_insert_lookup_L; [done|eauto].
  - cbn. by rewrite lookup_insert_eq.
Qed.

Lemma read_quiet s p q total :
  streams (fds s) !! p = Some {| pos := q; sdisk := TheDisk |} → 0 <= q → 0 <= total →
  q + total < 2 ^ 31 →
  ∃ s', stream_read p total s = Done ((0, image_bytes (image s) q total), s') ∧ quiet s s'.
Proof.
  intros Hp Hq Ht Hmax.
  destruct (diskstreamer_read_spec (Datatypes.S (Z.to_nat total)) p total (fds s) _ Hp) as (d' & E & Hst & Hsd);
    [done|done|done|done|lia|].
  exists (set_fds d' s). split; [by apply zoom_done|]. split; [done| | |done].
  - cbn. rewrite Hst. intros p' [q' Hp']. destruct (decide (p = p')) as [->|Hne].
    + eexists. by rewrite lookup_insert_eq.
    + exists q'. by rewrite lookup_insert_ne.
  - cbn. rewrite Hst, dom_insert_lookup_L; [done|eauto].
Qed.

Lemma the_private_spec s p g : mounted s p g → the_private s = Done (p, s).
Proof.
  intros Hm. unfold the_private, the_disk, gets. erewrite bind_done; [|reflexivity].
  unfold deref. by rewrite (mt_private _ _ _ Hm).
Qed.

Lemma size_of_cluster_spec s p g : mounted s p g → size_of_cluster_bytes p s = Done (cluster_size g, s).
Proof.
  intros Hm. unfold size_of_cluster_bytes, the_disk, gets. erewrite bind_done; [|reflexivity].
  erewrite bind_done; [|unfold liftO; rewrite (mt_spc _ _ _ Hm); reflexivity].
  by rewrite (mt_sector _ _ _ Hm).
Qed.

(** ** The file allocation table *)

Lemma fat_entry_range s g c : 0 <= fat_entry g (image s) c < 2 ^ 16.
Proof.
  unfold fat_entry, image.
  pose proof (bd_image_u8 (ddev (fds s)) (g_reserved g * VANA_SECTOR_SIZE + 2 * c)).
  pose proof (bd_image_u8 (ddev (fds s)) (g_reserved g * VANA_SECTOR_SIZE + 2 * c + 1)).
  unfold is_u8 in *. lia.
Qed.

Lemma get_fat_entry_spec s p g c : mounted s p g → 0 <= c < 2 ^ 16 →
  ∃ s', fat16_get_fat_entry c s = Done (fat_entry g (image s) c, s') ∧ quiet s s'.
Proof.
  intros Hm Hc. pose proof (mt_reserved_range _ _ _ Hm) as Hres.
  set (q := g_reserved g * VANA_SECTOR_SIZE + 2 * c).
  assert (0 <= q < 2 ^ 31 - 2) as Hq by (unfold q, VANA_SECTOR_SIZE; lia).
  destruct (seek_quiet s (fat_read_stream p) q (mt_fat _ _ _ Hm)) as (s1 & E1 & Q1 & Hst).
  destruct (read_quiet s1 (fat_read_stream p) q 2 Hst) as (s2 & E2 & Q2); [lia..|].
  exists s2. split; [|by eapply quiet_trans].
  unfold fat16_get_fat_entry. rewrite (bind_done _ _ _ _ _ (the_private_spec _ _ _ Hm)).
  rewrite (proj2 (Z.eqb_neq _ _) (mt_fat_nonnull _ _ _ Hm)).
  unfold the_disk, gets. erewrite bind_done; [|reflexivity].
  erewrite bind_done; [|unfold liftO, fat16_get_first_fat_sector; rewrite (mt_reserved _ _ _ Hm); reflexivity].
  cbv zeta. rewrite (mt_sector _ _ _ Hm). unfold VANA_FAT16_FAT_ENTRY_SIZE.
  rewrite (u32_small (g_reserved g * VANA_SECTOR_SIZE)), (u32_small (c * 2)) by (unfold is_u32, VANA_SECTOR_SIZE; lia).
  rewrite s32_small by (unfold is_s32, q, VANA_SECTOR_SIZE in *; lia).
  replace (g_reserved g * VANA_SECTOR_SIZE + c * 2) with q by (unfold q; lia).
  rewrite (bind_done _ _ _ _ _ E1). cbn [Z.ltb Z.compare].
  rewrite (bind_done _ _ _ _ _ E2). cbn [Z.ltb Z.compare].
  rewrite (quiet_image _ _ Q1).
  erewrite bind_done; [reflexivity|]. unfold liftO, le16.
  rewrite !image_bytes_lookup by lia. cbn [mbind option_bind].
  by rewrite Z.add_0_r, Z.add_0_l.
Qed.

Lemma follow_chain_spec n s p g c : mounted s p g → 0 <= c < 2 ^ 16 →
  ∃ s', follow_chain n c s = Done (default (- EIO) (chain (fat_entry g (image s)) n c), s') ∧ quiet s s'.
Proof.
  revert s c. induction n as [|n IH]; intros s c Hm Hc.
  { exists s. split; [done|apply quiet_refl]. }
  destruct (get_fat_entry_spec s p g c Hm Hc) as (s1 & E1 & Q1).
  cbn [follow_chain chain]. rewrite (bind_done _ _ _ _ _ E1). set (e := fat_entry g (image s) c).
  destruct (IH s1 e) as (s2 & E2 & Q2); [by eapply quiet_mounted|apply fat_entry_range|].
  rewrite (quiet_image _ _ Q1) in E2. unfold ends_chain.
  destruct ((e =? 0xFFF8) || (e =? 0xFFFF)); [by exists s1|].
  destruct (e =? VANA_FAT16_BAD_SECTOR); [by exists s1|]. rewrite !orb_false_l.
  destruct ((e =? 0xFF0) || (e =? 0xFF6)); [by exists s1|].
  destruct (e =? 0); [by exists s1|]. exists s2. split; [done|by eapply quiet_trans].
Qed.

Lemma cluster_size_pos s p g : mounted s p g → 0 < cluster_size g.
Proof. intros Hm. pose proof (mt_spc_range _ _ _ Hm). unfold cluster_size, VANA_SECTOR_SIZE. lia. Qed.

Lemma get_cluster_for_offset_spec s p g c offset : mounted s p g → 0 <= c < 2 ^ 16 → 0 <= offset →
  ∃ s', fat16_get_cluster_for_offset c offset s =
          Done (default (- EIO) (chain (fat_entry g (image s)) (Z.to_nat (offset / cluster_size g)) c), s') ∧
        quiet s s'.
Proof.
  intros Hm Hc Ho. pose proof (cluster_size_pos _ _ _ Hm) as Hcs.
  destruct (follow_chain_spec (Z.to_nat (offset / cluster_size g)) s p g c Hm Hc) as (s' & E & Q).
  exists s'. split; [|done]. unfold fat16_get_cluster_for_offset.
  rewrite (bind_done _ _ _ _ _ (the_private_spec _ _ _ Hm)).
  rewrite (bind_done _ _ _ _ _ (size_of_cluster_spec _ _ _ Hm)).
  destruct (Z.eqb_spec (cluster_size g) 0); [lia|]. by rewrite Z.quot_div_nonneg by lia.
Qed.

(** ** Reading a file *)

Definition cluster_start (g : geometry) (cl : Z) : Z := (g_data g + (cl - 2) * g_spc g) * VANA_SECTOR_SIZE.

(** One round of [fat16_read_internal_from_stream]. *)
Lemma read_step fuel s p g stream c offset total cl :
  mounted s p g → has_stream (streams (fds s)) stream → 0 <= c < 2 ^ 16 → 0 <= offset → 0 <= total →
  chain (fat_entry g (image s)) (Z.to_nat (offset / cluster_size g)) c = Some cl → 0 <= cl →
  let n := Z.min total (cluster_size g) in
  let start := cluster_start g cl + offset mod cluster_size g in
  0 <= start → start + n < 2 ^ 31 →
  ∃ s', quiet s s' ∧
    fat16_read_internal_from_stream (Datatypes.S fuel) stream c offset total s =
    if 0 <? total - n then
      (r ← fat16_read_internal_from_stream fuel stream c (offset + n) (total - n);
       mret (r.1, image_bytes (image s) start n ++ r.2)) s'
    else Done ((0, image_bytes (image s) start n), s').
Proof.
  intros Hm Hst Hc Ho Ht Hch Hcl n start Hs0 Hs1. pose proof (cluster_size_pos _ _ _ Hm) as Hcs.
  destruct (get_cluster_for_offset_spec s p g c offset Hm Hc Ho) as (s1 & E1 & Q1).
  rewrite Hch in E1. cbn [default from_option id] in E1.
  destruct (seek_quiet s1 stream start) as (s2 & E2 & Q2 & Hst2); [by apply Q1|].
  destruct (read_quiet s2 stream start n Hst2) as (s3 & E3 & Q3); [done|lia|done|].
  exists s3. split; [by eapply quiet_trans; [eapply quiet_trans|]|].
  cbn [fat16_read_internal_from_stream].
  rewrite (bind_done _ _ _ _ _ (the_private_spec _ _ _ Hm)).
  rewrite (bind_done _ _ _ _ _ (size_of_cluster_spec _ _ _ Hm)).
  rewrite (bind_done _ _ _ _ _ E1). rewrite (proj2 (Z.ltb_ge cl 0)) by done. cbv zeta.
  rewrite Z.rem_mod_nonneg by lia.
  erewrite bind_done.
  2:{ unfold liftO, fat16_cluster_to_sector. rewrite (mt_spc _ _ _ Hm), (mt_data _ _ _ Hm). reflexivity. }
  unfold the_disk, gets. erewrite bind_done; [|reflexivity].
  rewrite (mt_sector _ _ _ (quiet_mounted _ _ _ _ Q1 Hm)). fold (cluster_start g cl). fold start.
  replace (if cluster_size g <? total then cluster_size g else total) with n
    by (unfold n; destruct (Z.ltb_spec (cluster_size g) total); lia).
  rewrite (bind_done _ _ _ _ _ E2). cbn [Z.eqb VANA_ALL_OK negb].
  rewrite (bind_done _ _ _ _ _ E3). cbn [Z.eqb VANA_ALL_OK negb].
  rewrite (quiet_image _ _ Q2), (quiet_image _ _ Q1). by destruct (0 <? total - n).
Qed.

Lemma file_pos_same_cluster g img c o i : 0 < cluster_size g → 0 <= o → 0 <= i →
  o mod cluster_size g + i < cluster_size g →
  file_pos g img c (o + i) = (λ a, a + i) <$> file_pos g img c o.
Proof.
  intros Hcs Ho Hi Hlt. unfold file_pos.
  assert ((o + i) / cluster_size g = o / cluster_size g ∧
          (o + i) mod cluster_size g = o mod cluster_size g + i) as [-> ->].
  { pose proof (Z.div_mod o (cluster_size g)). pose proof (Z.mod_pos_bound o (cluster_size g) Hcs).
    split; [symmetry; apply (Z.div_unique_pos _ _ _ (o mod cluster_size g + i))|
            symmetry; apply (Z.mod_unique_pos _ _ (o / cluster_size g))]; lia. }
  destruct (chain _ _ _); simpl; [f_equal; lia|done].
Qed.

Lemma file_bytes_cluster g img c o n a : 0 < cluster_size g → 0 <= o →
  o mod cluster_size g + n <= cluster_size g → file_pos g img c o = Some a →
  file_bytes g img c o n = image_bytes img a n.
Proof.
  intros Hcs Ho Hn Ha. apply list_fmap_ext. intros i x Hx%lookup_seqZ.
  rewrite file_pos_same_cluster, Ha by lia. done.
Qed.

Lemma file_bytes_app g img c o n m : 0 <= n → 0 <= m →
  file_bytes g img c o (n + m) = file_bytes g img c o n ++ file_bytes g img c (o + n) m.
Proof.
  intros Hn Hm. unfold file_bytes. rewrite seqZ_app, fmap_app by lia. f_equal.
  apply list_eq. intros i. rewrite !list_lookup_fmap.
  destruct (decide (Z.of_nat i < m)); [rewrite !lookup_seqZ_lt by lia|by rewrite !lookup_seqZ_ge by lia].
  simpl. do 4 f_equal. lia.
Qed.

(** Every byte of the range is on a cluster of the chain, on the medium. *)
Definition on_chain (g : geometry) (img : Z → Z) (c o n : Z) : Prop :=
  ∀ i, 0 <= i < n → ∃ a, file_pos g img c (o + i) = Some a ∧ 0 <= a < 2 ^ 31 - 1.

(** The chain gives the cluster of the first byte. *)
Lemma on_chain_start s g c o n : 0 < cluster_size g → 0 <= c → 0 <= o → 0 < n →
  on_chain g (image s) c o n →
  ∃ cl, chain (fat_entry g (image s)) (Z.to_nat (o / cluster_size g)) c = Some cl ∧ 0 <= cl ∧
    file_pos g (image s) c o = Some (cluster_start g cl + o mod cluster_size g).
Proof.
  intros Hcs Hc Ho Hn Hall. destruct (Hall 0) as (a & Ha & _); [lia|]. rewrite Z.add_0_r in Ha.
  unfold file_pos in *. destruct (chain _ _ c) as [cl|] eqn:E; [|done]. exists cl.
  split_and!; [done| |done]. clear Ha Hall. revert c Hc E.
  induction (Z.to_nat _) as [|k IH]; intros c Hc E; simpl in E; [by simplify_eq|].
  destruct (ends_chain _); [done|]. eapply IH; [|exact E]. apply fat_entry_range.
Qed.

Lemma read_internal_spec fuel s p g stream c offset total :
  mounted s p g → has_stream (streams (fds s)) stream → 0 <= c < 2 ^ 16 → 0 <= offset → 0 < total →
  offset mod cluster_size g = 0 ∨ offset mod cluster_size g + total <= cluster_size g →
  on_chain g (image s) c offset total → (Z.to_nat total ≤ fuel)%nat →
  ∃ s', fat16_read_internal_from_stream fuel stream c offset total s =
          Done ((0, file_bytes g (image s) c offset total), s') ∧ quiet s s'.
Proof.
  revert s offset total. induction fuel as [|fuel IH]; intros s offset total Hm Hst Hc Ho Ht Hal Hon Hf; [lia|].
  pose proof (cluster_size_pos _ _ _ Hm) as Hcs.
  pose proof (Z.mod_pos_bound offset (cluster_size g) Hcs) as Hmod.
  destruct (on_chain_start s g c offset total) as (cl & Hch & Hcl & Hpos); [lia..|done|].
  set (start := cluster_start g cl + offset mod cluster_size g) in *.
  set (n := Z.min total (cluster_size g)) in *.
  destruct (Hon 0) as (a & Ha & Har); [lia|]. rewrite Z.add_0_r, Hpos in Ha. injection Ha as <-.
  destruct (Hon (n - 1)) as (b & Hb & Hbr); [lia|].
  rewrite file_pos_same_cluster, Hpos in Hb by lia. simpl in Hb. injection Hb as <-.
  assert (n = Z.min total (cluster_size g)) as Hn by done.
  assert (start = cluster_start g cl + offset mod cluster_size g) as Hstart by done.
  destruct (read_step fuel s p g stream c offset total cl) as (s1 & Q1 & ->); try done; [lia..|].
  fold n start.
  assert (file_bytes g (image s) c offset n = image_bytes (image s) start n) as Hfb.
  { apply file_bytes_cluster; [done|done|lia|done]. }
  destruct (Z.ltb_spec 0 (total - n)) as [Hmore|Hdone].
  - destruct (IH s1 (offset + n) (total - n)) as (s2 & E2 & Q2); try done; try lia.
    + by eapply quiet_mounted.
    + by apply Q1.
    + left. assert (n = cluster_size g) as -> by lia. rewrite Z.add_mod, Z.mod_same, Z.add_0_r, Z.mod_mod by lia. lia.
    + intros i Hi. rewrite (quiet_image _ _ Q1). rewrite <- Z.add_assoc. apply Hon. lia.
    + exists s2. split; [|by eapply quiet_trans].
      rewrite (bind_done _ _ _ _ _ E2). unfold mret, M_ret. cbn [fst snd].
      rewrite (quiet_image _ _ Q1), <- Hfb, <- file_bytes_app by lia.
      by replace (n + (total - n)) with total by lia.
  - exists s1. split; [|done]. rewrite <- Hfb. by replace n with total by lia.
Qed.

Lemma fat16_read_internal_spec s p g c offset total :
  mounted s p g → 0 <= c < 2 ^ 16 → 0 <= offset → 0 < total →
  offset mod cluster_size g = 0 ∨ offset mod cluster_size g + total <= cluster_size g →
  on_chain g (image s) c offset total →
  ∃ s', fat16_read_internal c offset total s = Done ((0, file_bytes g (image s) c offset total), s') ∧
        quiet s s'.
Proof.
  intros Hm Hc Ho Ht Hal Hon.
  destruct (read_internal_spec (Datatypes.S (Z.to_nat total)) s p g (cluster_read_stream p) c offset total)
    as (s' & E & Q); try done; [apply Hm|lia|].
  exists s'. split; [|done]. unfold fat16_read_internal.
  by rewrite (bind_done _ _ _ _ _ (the_private_spec _ _ _ Hm)).
Qed.

Lemma read_objects_spec n s p g c offset size :
  mounted s p g → 0 <= c < 2 ^ 16 → 0 <= offset → 0 < size →
  offset + Z.of_nat n * size < 2 ^ 31 →
  (∀ i, 0 <= i < Z.of_nat n → let o := offset + i * size in
     o mod cluster_size g = 0 ∨ o mod cluster_size g + size <= cluster_size g) →
  on_chain g (image s) c offset (Z.of_nat n * size) →
  ∃ s', read_objects n c offset size s =
          Done ((0, file_bytes g (image s) c offset (Z.of_nat n * size), offset + Z.of_nat n * size), s') ∧
        quiet s s'.
Proof.
  revert s offset. induction n as [|n IH]; intros s offset Hm Hc Ho Hs Hmax Hal Hon.
  { exists s. split; [|apply quiet_refl]. unfold file_bytes. cbn. by rewrite Z.add_0_r. }
  destruct (fat16_read_internal_spec s p g c offset size) as (s1 & E1 & Q1); try done.
  { specialize (Hal 0). rewrite Z.mul_0_l, Z.add_0_r in Hal. apply Hal. lia. }
  { intros i Hi. apply Hon. lia. }
  cbn [read_objects]. assert (0 <= Z.of_nat n * size) by nia.
  rewrite (s32_small size) by range. rewrite (bind_done _ _ _ _ _ E1). cbn [Z.ltb Z.compare].
  rewrite (s32_small (offset + size)) by range.
  destruct (IH s1 (offset + size)) as (s2 & E2 & Q2); try done; try lia.
  { by eapply quiet_mounted. }
  { intros i Hi. replace (offset + size + i * size) with (offset + (i + 1) * size) by lia. apply Hal. lia. }
  { intros i Hi. rewrite (quiet_image _ _ Q1), <- Z.add_assoc. apply Hon. lia. }
  exists s2. split; [|by eapply quiet_trans]. rewrite (bind_done _ _ _ _ _ E2). cbv beta iota.
  unfold mret, M_ret. rewrite (quiet_image _ _ Q1), <- file_bytes_app by lia.
  replace (size + Z.of_nat n * size) with (Z.of_nat (Datatypes.S n) * size) by lia.
  do 3 f_equal. lia.
Qed.

(** [desc] is an open descriptor of the file with entry [item], at [q]. *)
Definition open_file s (desc q : Z) (item : list Z) : Prop :=
  ∃ i x, fdescs s !! desc = Some {| fd_item := i; fd_pos := q |} ∧
         fitems s !! i = Some {| fi_ptr := x; fi_type := FAT_ITEM_TYPE_FILE |} ∧
         ditems s !! x = Some item.

Lemma open_file_quiet s s' desc q item : quiet s s' → open_file s desc q item → open_file s' desc q item.
Proof. intros [_ _ _ Q] (i & x & H1 & H2 & H3). exists i, x. by rewrite Q. Qed.

Lemma fat16_read_spec s p g desc q item c size nmemb :
  mounted s p g → open_file s desc q item → fat16_get_first_cluster item = Some c → 0 <= c < 2 ^ 16 →
  0 <= q → 0 < size → 0 <= nmemb → q + nmemb * size < 2 ^ 31 →
  (∀ i, 0 <= i < nmemb → let o := q + i * size in
     o mod cluster_size g = 0 ∨ o mod cluster_size g + size <= cluster_size g) →
  on_chain g (image s) c q (nmemb * size) →
  ∃ s1 s', fat16_read desc size nmemb s = Done ((nmemb, file_bytes g (image s) c q (nmemb * size)), s') ∧
    open_file s' desc (q + nmemb * size) item ∧ quiet s s1 ∧ s' = set_fdescs (fdescs s') s1 ∧
    fdescs s' = alter (λ x, {| fd_item := fd_item x; fd_pos := q + nmemb * size |}) desc (fdescs s).
Proof.
  intros Hm (i & x & Hd & Hi & Hx) Hcl Hc Hq Hs Hn Hmax Hal Hon.
  destruct (read_objects_spec (Z.to_nat nmemb) s p g c q size) as (s1 & E1 & Q1); try done;
    rewrite ?Z2Nat.id by done; try done.
  assert (nmemb < 2 ^ 31) by nia.
  exists s1, (set_fdescs (<[desc := {| fd_item := i; fd_pos := q + nmemb * size |}]> (fdescs s1)) s1).
  rewrite Z2Nat.id in E1 by done. split_and!; [| |done|done|].
  - unfold fat16_read. erewrite bind_done; [|unfold deref; rewrite Hd; reflexivity]. cbn [fd_item fd_pos].
    erewrite bind_done; [|unfold deref; rewrite Hi; reflexivity]. cbn [fi_ptr].
    erewrite bind_done; [|unfold deref; rewrite Hx; reflexivity].
    erewrite bind_done; [|unfold liftO; rewrite Hcl; reflexivity].
    rewrite !s32_small by range. rewrite (bind_done _ _ _ _ _ E1). cbn [Z.ltb Z.compare].
    erewrite bind_done; [|reflexivity]. rewrite u32_small by range. done.
  - exists i, x. cbn [fdescs fitems ditems set_fdescs]. rewrite lookup_insert_eq.
    rewrite (q_frame _ _ Q1). done.
  - cbn [fdescs set_fdescs]. rewrite (q_frame _ _ Q1). cbn [fdescs set_fds]. apply map_eq. intros j.
    destruct (decide (j = desc)) as [-> |Hj]; [by rewrite lookup_insert_eq, lookup_alter_eq, Hd|].
    by rewrite lookup_insert_ne, lookup_alter_ne.
Qed.

(** C4: [fat16_read] returns the bytes of the file.  On a mounted volume, when
    every object to read starts on a cluster boundary or stays within one cluster,
    the chain of the file covers the objects and they end below 2^31, the result
    is the number of objects and the bytes found by following the cluster chain in
    the file allocation table.  The position of the descriptor moves by the bytes
    read; no other descriptor changes, and besides them only the positions of
    disk streams do. *)
Theorem fat16_read_correct s p g desc q item c size nmemb :
  mounted s p g → open_file s desc q item → fat16_get_first_cluster item = Some c → 0 <= c < 2 ^ 16 →
  0 <= q → 0 < size → 0 <= nmemb → q + nmemb * size < 2 ^ 31 →
  (∀ i, 0 <= i < nmemb → let o := q + i * size in
     o mod cluster_size g = 0 ∨ o mod cluster_size g + size <= cluster_size g) →
  on_chain g (image s) c q (nmemb * size) →
  ∃ s1 s', fat16_read desc size nmemb s = Done ((nmemb, file_bytes g (image s) c q (nmemb * size)), s') ∧
    open_file s' desc (q + nmemb * size) item ∧ quiet s s1 ∧ s' = set_fdescs (fdescs s') s1 ∧
    fdescs s' = alter (λ x, {| fd_item := fd_item x; fd_pos := q + nmemb * size |}) desc (fdescs s).
Proof. apply fat16_read_spec. Qed.

(** A read that starts inside a cluster and runs past its end does not
    follow the chain: the cluster is chosen once, for the first byte, and up to
    a cluster of bytes is then read from consecutive sectors of the medium, so
    that the bytes after the cluster boundary are those of the cluster that
    happens to lie behind it. *)
Theorem fat16_unaligned_read_physical s p g c offset total cl :
  mounted s p g → 0 <= c < 2 ^ 16 → 0 <= offset → 0 < total <= cluster_size g →
  cluster_size g < offset mod cluster_size g + total →
  chain (fat_entry g (image s)) (Z.to_nat (offset / cluster_size g)) c = Some cl → 2 <= cl →
  let start := cluster_start g cl + offset mod cluster_size g in
  start + total < 2 ^ 31 →
  ∃ s', fat16_read_internal c offset total s = Done ((0, image_bytes (image s) start total), s') ∧
        quiet s s'.
Proof.
  intros Hm Hc Ho Ht Hcross Hch Hcl start Hmax. pose proof (cluster_size_pos _ _ _ Hm) as Hcs.
  pose proof (Z.mod_pos_bound offset (cluster_size g) Hcs) as Hmod.
  pose proof (mt_data_range _ _ _ Hm). pose proof (mt_spc_range _ _ _ Hm).
  destruct (read_step (Z.to_nat total) s p g (cluster_read_stream p) c offset total cl)
    as (s' & Q & E); try done; try lia; [apply Hm|..].
  { unfold cluster_start, VANA_SECTOR_SIZE. nia. }
  exists s'. split; [|done]. unfold fat16_read_internal.
  rewrite (bind_done _ _ _ _ _ (the_private_spec _ _ _ Hm)), E, Z.min_l by lia.
  by rewrite Z.sub_diag.
Qed.
End mounted.

(** ** An example volume: one sector per cluster, the table at sector 1, the
    data area at sector 4, and a file on the clusters 3 and 5. *)

Definition demo_medium (a : Z) : Z :=
  if a =? 518 then 5 else if a =? 519 then 0
  else if a =? 522 then 0xFF else if a =? 523 then 0xFF else a mod 251.

Definition demo_private : fat_private :=
  {| header := replicate 13 0 ++ [1; 1; 0] ++ replicate 46 0;
     root_directory := {| dir_item := 0; dir_total := 0; sector_pos := 3; ending_sector_pos := 4 |};
     cluster_read_stream := 8; fat_read_stream := 9; directory_stream := 10 |}.

Definition demo_geometry : geometry := {| g_spc := 1; g_reserved := 1; g_data := 4 |}.

Definition demo_item : list Z := codes "HELLO   TXT" ++ replicate 15 0 ++ [3; 0; 0; 4; 0; 0].

Definition demo_volume : fstate kmem (Z → Z) :=
  let st := {| pos := 0; sdisk := TheDisk |} in
  {| fpp := {| pp_mem := {| dmem := kmem_of (replicate 40 Free); ddev := demo_medium;
                            dsk := {| disk_type := 0; sector_size := 512; disk_id := 0;
                                      filesystem := Fat16Fs; fs_private := 7 |};
                            streams := {[ 8 := st; 9 := st; 10 := st ]} |};
               roots := ∅; parts := ∅; strs := ∅ |};
     privs := {[ 7 := demo_private ]}; dirs := ∅; dirbufs := ∅;
     ditems := {[ 21 := demo_item ]};
     fitems := {[ 22 := {| fi_ptr := 21; fi_type := FAT_ITEM_TYPE_FILE |} ]};
     fdescs := {[ 23 := {| fd_item := 22; fd_pos := 0 |} ]} |}.

Lemma demo_mounted : mounted demo_volume demo_private demo_geometry.
Proof. split; try done; by exists 0. Qed.

Lemma demo_on_chain : on_chain demo_geometry (image demo_volume) 3 0 1024.
Proof.
  intros i Hi.
  assert (forallb (λ i, match file_pos demo_geometry (image demo_volume) 3 (0 + i) with
                        | Some a => (0 <=? a) && (a <? 2 ^ 31 - 1) | None => false end) (seqZ 0 1024) = true)
    as Hall by (by vm_compute).
  rewrite forallb_forall in Hall. specialize (Hall i).
  rewrite <- list_elem_of_In, elem_of_seqZ in Hall. specialize (Hall ltac:(lia)).
  destruct (file_pos _ _ _ _) as [a|]; [|done]. exists a. split; [done|]. lia.
Qed.

Lemma fat16_read_correct_witness :
  ∃ s1 s', fat16_read 23 1024 1 demo_volume =
             Done ((1, file_bytes demo_geometry (image demo_volume) 3 0 (1 * 1024)), s') ∧
    open_file s' 23 (0 + 1 * 1024) demo_item ∧ quiet demo_volume s1 ∧ s' = set_fdescs (fdescs s') s1 ∧
    fdescs s' = alter (λ x, {| fd_item := fd_item x; fd_pos := 0 + 1 * 1024 |}) 23 (fdescs demo_volume).
Proof.
  apply (fat16_read_correct demo_volume demo_private demo_geometry 23 0 demo_item 3 1024 1);
    try done; try lia.
  - exact demo_mounted.
  - by exists 22, 21.
  - intros i Hi. left. by replace i with 0 by lia.
  - exact demo_on_chain.
Defined.

Lemma fat16_unaligned_read_physical_witness :
  ∃ s', fat16_read_internal 3 100 500 demo_volume =
          Done ((0, image_bytes (image demo_volume) (cluster_start demo_geometry 3 + 100 mod 512) 500), s') ∧
        quiet demo_volume s'.
Proof.
  apply (fat16_unaligned_read_physical demo_volume demo_private demo_geometry 3 100 500 3);
    try done; exact demo_mounted.
Defined.
