(* ===== verification/FatLookup.v ===== *)
(** * Looking up and opening files: properties of fs/fat/fat16.c

    The 8.3 names of directory entries, the search of a directory, and what
    [fat16_open] does for a file of the root directory. *)

From S2P Require Import Prelude Config CString Terminal Heap Kheap PathParser Disk Fat16.

Local Open Scope Z_scope.

(** ** 8.3 names *)

(** At most [n] characters, up to a blank or a NUL. *)
Fixpoint trim (n : nat) (l : list Z) : list Z :=
  match n, l with
  | S n, c :: l => if (c =? 0) || (c =? 0x20) then [] else c :: trim n l
  | _, _ => []
  end.

(** The name of an entry as a user writes it: "NAME.EXT", or "NAME". *)
Definition short_name (item : list Z) : list Z :=
  trim 8 (item_filename item) ++
  match trim 3 (item_ext item) with [] => [] | e => 46 :: e end.

Lemma trim_length n l : (length (trim n l) ≤ n)%nat.
Proof.
  revert l. induction n as [|n IH]; intros [|c l]; simpl; try lia.
  destruct (_ || _); simpl; [lia|]. specialize (IH l). lia.
Qed.

Lemma trim_nonzero n l : nonzero (trim n l).
Proof.
  unfold nonzero. revert l. induction n as [|n IH]; intros [|c l]; simpl; try constructor.
  destruct (Z.eqb_spec c 0), (Z.eqb_spec c 0x20); simpl; try by constructor.
Qed.

Lemma trim_u8 n l : Forall is_u8 l → Forall is_u8 (trim n l).
Proof.
  intros Hl. revert n. induction Hl as [|c l Hc Hl IH]; intros [|n]; simpl; try by constructor.
  destruct (_ || _); by constructor.
Qed.

Lemma short_name_nonzero item : nonzero (short_name item).
Proof.
  apply Forall_app. split; [apply trim_nonzero|]. pose proof (trim_nonzero 3 (item_ext item)) as He.
  destruct (trim 3 _); [by apply Forall_nil|]. by apply Forall_cons.
Qed.

Lemma short_name_length item : (length (short_name item) ≤ 12)%nat.
Proof.
  unfold short_name. rewrite length_app. pose proof (trim_length 8 (item_filename item)).
  pose proof (trim_length 3 (item_ext item)). destruct (trim 3 _); simpl in *; lia.
Qed.

Lemma short_name_u8 item : Forall is_u8 item → Forall is_u8 (short_name item).
Proof.
  intros Hi. apply Forall_app. split; [by apply trim_u8|].
  pose proof (trim_u8 3 (item_ext item) (Forall_drop _ 8 _ Hi)) as He.
  destruct (trim 3 _); [by apply Forall_nil|]. apply Forall_cons. split; [range|done].
Qed.

(** [proper_string] into a buffer that is zero from the output position on. *)
Lemma proper_string_spec n inp A m : (S n ≤ length inp)%nat → (S n < m)%nat →
  proper_string n inp (A ++ replicate m 0) (Z.of_nat (length A)) =
  Some (A ++ trim (S n) inp ++ replicate (m - length (trim (S n) inp)) 0,
        Z.of_nat (length A + length (trim (S n) inp))).
Proof.
  revert inp A m. induction n as [|n IH]; intros [|c inp] A m Hi Hm; simpl in Hi; try lia;
    destruct m as [|m]; try lia; cbn [replicate proper_string trim];
    change ((c :: inp).[0]) with (Some c); cbn [mbind option_bind];
    destruct (Z.eqb_spec c 0), (Z.eqb_spec c 0x20); cbn [negb andb orb];
    rewrite upd_app; cbn [mbind option_bind app length]; try by rewrite Nat.sub_0_r, Nat.add_0_r.
  - destruct m as [|m]; [lia|]. cbn [replicate].
    replace (A ++ c :: 0 :: replicate m 0) with ((A ++ [c]) ++ 0 :: replicate m 0) by by rewrite <- app_assoc.
    replace (Z.of_nat (length A) + 1) with (Z.of_nat (length (A ++ [c]))) by (rewrite length_app; simpl; lia).
    rewrite upd_app. cbn [mbind option_bind]. rewrite length_app, <- app_assoc. done.
  - replace (A ++ c :: replicate m 0) with ((A ++ [c]) ++ replicate m 0) by by rewrite <- app_assoc.
    replace (Z.of_nat (length A) + 1) with (Z.of_nat (length (A ++ [c]))) by (rewrite length_app; simpl; lia).
    change (drop 1 (c :: inp)) with inp. rewrite IH by lia.
    rewrite length_app, <- app_assoc. cbn [trim app length]. f_equal. f_equal. lia.
Qed.

Lemma full_filename_spec item : length item = 32%nat →
  fat16_get_full_relative_filename item (replicate (Z.to_nat VANA_MAX_PATH) 0) VANA_MAX_PATH =
  Some (short_name item ++ replicate (108 - length (short_name item)) 0).
Proof.
  intros Hl. unfold fat16_get_full_relative_filename, short_name.
  replace (memset _ 0 VANA_MAX_PATH) with (Some (replicate 108 0)) by by vm_compute.
  cbn [mbind option_bind]. unfold fat16_to_proper_string.
  pose proof (trim_length 8 (item_filename item)) as Hn.
  change (Z.to_nat (8 - 1)) with 7%nat. change (Z.to_nat (3 - 1)) with 2%nat.
  pose proof (proper_string_spec 7 (item_filename item) [] 108 ltac:(unfold item_filename; lia) ltac:(lia)) as Hp8.
  change (Z.of_nat (length (@nil Z))) with 0 in Hp8. cbn [app] in Hp8. rewrite Hp8. clear Hp8.
  set (nm := trim 8 (item_filename item)) in *. cbn [mbind option_bind app length Nat.add].
  assert (length (item_ext item) = 24%nat) as He by (unfold item_ext; rewrite length_drop; lia).
  pose proof (trim_length 3 (item_ext item)) as Hx.
  pose proof (proper_string_spec 2 (item_ext item) (nm ++ [46]) (107 - length nm)) as Hp.
  destruct (item_ext item) as [|e0 ext] eqn:Ee; [done|]. change ((e0 :: ext).[0]) with (Some e0).
  cbn [mbind option_bind]. cbn [trim] in Hx, Hp |- *.
  destruct (Z.eqb_spec e0 0), (Z.eqb_spec e0 0x20); cbn [negb andb orb] in Hp, Hx |- *;
    try by rewrite app_nil_r.
  destruct (108 - length nm)%nat as [|k] eqn:Ek; [lia|]. cbn [replicate]. rewrite upd_app. cbn [mbind option_bind].
  replace (nm ++ 46 :: replicate k 0) with ((nm ++ [46]) ++ replicate (107 - length nm) 0)
    by (rewrite <- app_assoc; do 3 f_equal; lia).
  replace (Z.of_nat (length nm) + 1) with (Z.of_nat (length (nm ++ [46]))) by (rewrite length_app; simpl; lia).
  rewrite Hp by (simpl in *; lia). cbn [mbind option_bind]. rewrite <- !app_assoc. do 2 f_equal.
  cbn [app]. do 4 f_equal. rewrite length_app. cbn [length] in *. lia.
Qed.

(** The entry [item] is the one a user means by [name]. *)
Definition name_matches (item name : list Z) : Prop :=
  fold_case <$> short_name item = fold_case <$> name.

#[export] Instance name_matches_dec item name : Decision (name_matches item name).
Proof. unfold name_matches. apply _. Defined.

Lemma compare_entry_spec item b name :
  length item = 32%nat → Forall is_u8 item → cstr b = Some name → Forall is_u8 name →
  (length name ≤ 108)%nat →
  ∃ r, compare_entry item b = Some r ∧ (r = 0 ↔ name_matches item name).
Proof.
  intros Hl Hi Hb Hn Hlen. unfold compare_entry. rewrite full_filename_spec by done. cbn [mbind option_bind].
  pose proof (short_name_length item) as Hs.
  destruct (istrncmp_loop_0 (short_name item ++ replicate (108 - length (short_name item)) 0) b
    (short_name item) name 108) as (r & E & Hr); try done.
  - replace (108 - length (short_name item))%nat with (S (107 - length (short_name item))) by lia.
    apply cstr_app, short_name_nonzero.
  - by apply short_name_u8.
  - exists r. split; [done|]. rewrite Hr. unfold name_matches. by rewrite !take_ge by lia.
Qed.

(** The comparison of a directory entry with a path component.  The 11 bytes
    of an entry are turned into "NAME.EXT" (blanks removed, no dot without an
    extension) and compared with the component up to ASCII case: the result is 0
    exactly when they denote the same 8.3 name. *)
Theorem fat16_name_comparison item b name :
  length item = 32%nat → Forall is_u8 item → cstr b = Some name → Forall is_u8 name →
  (length name ≤ 108)%nat →
  fat16_get_full_relative_filename item (replicate (Z.to_nat VANA_MAX_PATH) 0) VANA_MAX_PATH =
    Some (short_name item ++ replicate (108 - length (short_name item)) 0) ∧
  ∃ r, compare_entry item b = Some r ∧ (r = 0 ↔ name_matches item name).
Proof. intros. split; [by apply full_filename_spec|by apply compare_entry_spec]. Qed.

Lemma fat16_name_comparison_witness :
  fat16_get_full_relative_filename demo_item (replicate (Z.to_nat VANA_MAX_PATH) 0) VANA_MAX_PATH =
    Some (codes "HELLO.TXT" ++ replicate 99 0) ∧
  ∃ r, compare_entry demo_item (text "Hello.txt") = Some r ∧
       (r = 0 ↔ name_matches demo_item (codes "Hello.txt")).
Proof.
  apply (fat16_name_comparison demo_item (text "Hello.txt") (codes "Hello.txt"));
    [done|repeat constructor; range|done|repeat constructor; range|simpl; lia].
Defined.

(** ** Searching a directory *)

Section lookup.
Context {S : Type} `{Allocator S} {D : Type} `{BlockDevice D}.
Implicit Types s : fstate S D.

Definition with_heap (m : S) s : fstate S D := set_fds (set_dmem m (fds s)) s.

Lemma f_alloc_ok s A n size : owns (dmem (fds s)) A (Datatypes.S n) → 0 < size <= VANA_HEAP_BLOCK_SIZE →
  ∃ p m, f_alloc size s = Done (p, with_heap m s) ∧ 0 < p < 2 ^ 31 ∧ A !! p = None ∧
         owns m (<[p := 1%nat]> A) n.
Proof.
  intros Ho Hs. unfold VANA_HEAP_BLOCK_SIZE in Hs.
  destruct (alloc_small _ A n size Ho Hs) as (p & m & E & HA & Ho').
  destruct (owns_range _ _ _ p 1%nat Ho') as [Hr _]; [by rewrite lookup_insert_eq|].
  exists p, m. split_and!; try done; try lia.
  unfold f_alloc, in_disk, zoom. rewrite (u32_small size) by range. by rewrite E.
Qed.

Lemma dir_entry_Some buf i : 0 <= i → i * 32 + 32 <= Z.of_nat (length buf) →
  dir_entry buf i = Some (take 32 (drop (Z.to_nat (i * 32)) buf)).
Proof. intros Hi Hb. unfold dir_entry. by btests. Qed.

Lemma dir_entry_wf buf i e : dir_entry buf i = Some e → Forall is_u8 buf →
  length e = 32%nat ∧ Forall is_u8 e.
Proof.
  unfold dir_entry. destruct (Z.leb_spec 0 i); simpl; [|done].
  destruct (Z.leb_spec (i * 32 + 32) (Z.of_nat (length buf))); [|done]. intros E Hb. simplify_eq.
  split; [rewrite length_take, length_drop; lia|by apply Forall_take, Forall_drop].
Qed.

(** What [fat16_new_fat_item_for_directory_item] builds for a file. *)
Definition new_item s (m : S) (f i : Z) (entry : list Z) : fstate S D :=
  set_fitems (<[f := {| fi_ptr := i; fi_type := FAT_ITEM_TYPE_FILE |}]> (fitems s))
    (set_ditems (<[i := entry]> (ditems s)) (with_heap m s)).

Lemma new_item_spec fuel s A n entry attr :
  owns (dmem (fds s)) A (Datatypes.S (Datatypes.S n)) → length entry = 32%nat →
  item_attribute entry = Some attr → Z.land attr FAT_FILE_SUBDIRECTORY = 0 →
  ∃ f i m, fat16_new_fat_item_for_directory_item fuel entry s = Done (f, new_item s m f i entry) ∧
    0 < f < 2 ^ 31 ∧ A !! f = None ∧ A !! i = None ∧ f ≠ i ∧ owns m (<[i := 1%nat]> (<[f := 1%nat]> A)) n.
Proof.
  intros Ho Hl Ha Hat.
  destruct (f_alloc_ok s A _ sizeof_fat_item Ho) as (f & m1 & E1 & Hf0 & HAf & Ho1); [done|].
  destruct (f_alloc_ok (with_heap m1 s) (<[f := 1%nat]> A) n sizeof_fat_directory_item Ho1)
    as (i & m & E2 & Hi0 & HAi & Ho2); [done|].
  assert (f ≠ i) as Hne by (intros ->; by rewrite lookup_insert_eq in HAi).
  rewrite lookup_insert_ne in HAi by done.
  exists f, i, m. split_and!; try done; try lia.
  unfold fat16_new_fat_item_for_directory_item. rewrite (bind_done _ _ _ _ _ E1).
  rewrite (proj2 (Z.eqb_neq f 0)) by lia.
  erewrite bind_done; [|unfold liftO; rewrite Ha; reflexivity]. rewrite Hat. cbn [Z.eqb negb].
  assert (fat16_clone_directory_item entry sizeof_fat_directory_item (with_heap m1 s) =
    Done (i, set_ditems (<[i := entry]> (ditems s)) (with_heap m s))) as E3.
  { unfold fat16_clone_directory_item. change (sizeof_fat_directory_item <? sizeof_fat_directory_item) with false. cbv iota.
    rewrite (bind_done _ _ _ _ _ E2), (proj2 (Z.eqb_neq i 0)) by lia.
    change (with_heap m (with_heap m1 s)) with (with_heap m s).
    rewrite (bind_done _ _ (with_heap m s) entry (with_heap m s)); [done|]. unfold liftO.
    rewrite memcpy_spec by (rewrite ?length_replicate; unfold sizeof_fat_directory_item; lia).
    rewrite drop_ge, app_nil_r, take_ge by (rewrite ?length_replicate; unfold sizeof_fat_directory_item; lia). done. }
  by rewrite (bind_done _ _ _ _ _ E3).
Qed.

(** One entry of the search. *)
Lemma find_step fuel n i s dir buf b name f0 e :
  dirbufs s !! dir_item dir = Some buf → Forall is_u8 buf → dir_entry buf i = Some e →
  cstr b = Some name → Forall is_u8 name → (length name ≤ 108)%nat →
  find_loop fuel (Datatypes.S n) i dir b f0 s =
  if decide (name_matches e name)
  then (f ← fat16_new_fat_item_for_directory_item fuel e; find_loop fuel n (i + 1) dir b f) s
  else find_loop fuel n (i + 1) dir b f0 s.
Proof.
  intros Hbuf Hu8 He Hb Hn Hl. destruct (dir_entry_wf _ _ _ He Hu8) as [Hle Hue].
  destruct (compare_entry_spec e b name) as (r & Er & Hr); try done.
  cbn [find_loop]. erewrite bind_done; [|unfold deref; rewrite Hbuf; reflexivity].
  erewrite bind_done; [|unfold liftO; rewrite He; reflexivity].
  erewrite bind_done; [|unfold liftO; rewrite Er; reflexivity].
  destruct (Z.eqb_spec r 0), (decide _); try done; tauto.
Qed.

(** Entries without the name are passed over. *)
Lemma find_none fuel n i s dir buf b name f0 :
  dirbufs s !! dir_item dir = Some buf → Forall is_u8 buf → 0 <= i →
  (i + Z.of_nat n) * 32 <= Z.of_nat (length buf) →
  cstr b = Some name → Forall is_u8 name → (length name ≤ 108)%nat →
  (∀ j e, i <= j < i + Z.of_nat n → dir_entry buf j = Some e → ¬ name_matches e name) →
  find_loop fuel n i dir b f0 s = Done (f0, s).
Proof.
  revert i. induction n as [|n IH]; intros i Hbuf Hu8 Hi Hlen Hb Hn Hl Hm; [done|].
  pose proof (dir_entry_Some buf i Hi ltac:(lia)) as He.
  rewrite (find_step _ _ _ _ _ _ _ _ _ _ Hbuf Hu8 He Hb Hn Hl).
  rewrite decide_False by (eapply Hm; [|exact He]; lia).
  apply IH; try done; try lia. intros j e Hj. apply Hm. lia.
Qed.

(** The search when exactly entry [k] has the name. *)
Lemma find_unique fuel n i s dir buf b name k entry attr A free f0 :
  dirbufs s !! dir_item dir = Some buf → Forall is_u8 buf → 0 <= i →
  (i + Z.of_nat n) * 32 <= Z.of_nat (length buf) →
  cstr b = Some name → Forall is_u8 name → (length name ≤ 108)%nat →
  owns (dmem (fds s)) A (Datatypes.S (Datatypes.S free)) → i <= k < i + Z.of_nat n →
  dir_entry buf k = Some entry → item_attribute entry = Some attr → Z.land attr FAT_FILE_SUBDIRECTORY = 0 →
  (∀ j e, i <= j < i + Z.of_nat n → dir_entry buf j = Some e → name_matches e name ↔ j = k) →
  ∃ f x m, find_loop fuel n i dir b f0 s = Done (f, new_item s m f x entry) ∧
    0 < f < 2 ^ 31 ∧ A !! f = None ∧ A !! x = None ∧ f ≠ x ∧ owns m (<[x := 1%nat]> (<[f := 1%nat]> A)) free.
Proof.
  revert i. induction n as [|n IH]; intros i Hbuf Hu8 Hi Hlen Hb Hn Hl Ho Hki Hk Hattr Hat Hm; [lia|].
  pose proof (dir_entry_Some buf i Hi ltac:(lia)) as He.
  rewrite (find_step _ _ _ _ _ _ _ _ _ _ Hbuf Hu8 He Hb Hn Hl).
  pose proof (Hm i _ ltac:(lia) He) as Hmi. destruct (decide (i = k)) as [->|Hne].
  - rewrite decide_True by tauto. rewrite Hk in He. injection He as <-.
    destruct (new_item_spec fuel s A free entry attr) as (f & x & m & E & Hf); try done.
    { by eapply dir_entry_wf. }
    exists f, x, m. split; [|done]. rewrite (bind_done _ _ _ _ _ E).
    eapply find_none; try done; try lia. intros j e Hj He Hmj. apply (Hm j e) in Hmj; done || lia.
  - rewrite decide_False by tauto. apply IH; try done; try lia. intros j e Hj. apply Hm. lia.
Qed.

(** ** Opening a file of the root directory *)

(** [entry] is the one entry of the root directory with the name [name]. *)
Definition root_file s (p : fat_private) (name entry : list Z) : Prop :=
  ∃ buf k, dirbufs s !! dir_item (root_directory p) = Some buf ∧ Forall is_u8 buf ∧
    dir_total (root_directory p) * 32 <= Z.of_nat (length buf) ∧
    0 <= k < dir_total (root_directory p) ∧ dir_entry buf k = Some entry ∧
    ∀ j e, 0 <= j < dir_total (root_directory p) → dir_entry buf j = Some e →
      name_matches e name ↔ j = k.

Definition is_file (entry : list Z) : Prop :=
  ∃ attr, item_attribute entry = Some attr ∧ Z.land attr FAT_FILE_SUBDIRECTORY = 0.

(** The state after opening: a descriptor [d] at position 0, for a new item [f]
    that holds a copy [x] of the entry. *)
Definition opened s (m : S) (d f x : Z) (entry : list Z) : fstate S D :=
  set_fdescs (<[d := {| fd_item := f; fd_pos := 0 |}]> (fdescs s)) (new_item s m f x entry).

(** A path of one part is looked up in the root directory only. *)
Lemma directory_entry_root fuel depth s p g path sa b r s' :
  mounted s p g → parts (fpp s) !! path = Some {| part := sa; next := 0 |} → strs (fpp s) !! sa = Some b →
  fat16_find_item_in_directory fuel (root_directory p) b s = Done (r, s') →
  fat16_get_directory_entry fuel depth path s = Done (r, s').
Proof.
  intros Hm Hpath Hsa E. unfold fat16_get_directory_entry.
  rewrite (bind_done _ _ _ _ _ (the_private_spec _ _ _ Hm)).
  rewrite (bind_done _ _ _ ({| part := sa; next := 0 |}, b) s).
  2:{ unfold path_node. erewrite bind_done; [|unfold deref; rewrite Hpath; reflexivity].
      erewrite bind_done; [|unfold deref; cbn; rewrite Hsa; reflexivity]. done. }
  cbn [fst snd next]. rewrite (bind_done _ _ _ _ _ E).
  destruct (Z.eqb_spec r 0) as [->|]; [done|]. by destruct depth.
Qed.

Lemma mounted_with_heap s p g m : mounted s p g → mounted (with_heap m s) p g.
Proof. intros []. by split. Qed.

Lemma fat16_open_spec fuel depth s p g name entry path sa b A n :
  mounted s p g → root_file s p name entry → is_file entry →
  parts (fpp s) !! path = Some {| part := sa; next := 0 |} → strs (fpp s) !! sa = Some b →
  cstr b = Some name → Forall is_u8 name → (length name ≤ 108)%nat →
  owns (dmem (fds s)) A (3 + n) →
  ∃ d f x m, fat16_open fuel depth path FILE_MODE_READ s = Done (d, opened s m d f x entry) ∧
    0 < d < 2 ^ 31 ∧ A !! d = None ∧
    owns m (<[x := 1%nat]> (<[f := 1%nat]> (<[d := 1%nat]> A))) n.
Proof.
  intros Hm (buf & k & Hbuf & Hu8 & Hlen & Hk & Hek & Huniq) (attr & Hattr & Hat) Hpath Hsa Hb Hn Hl Ho.
  destruct (f_alloc_ok s A _ sizeof_fat_file_descriptor Ho) as (d & m1 & E1 & Hd & HAd & Ho1); [done|].
  destruct (find_unique fuel (Z.to_nat (dir_total (root_directory p))) 0 (with_heap m1 s) (root_directory p) buf
    b name k entry attr (<[d := 1%nat]> A) n 0) as (f & x & m & E2 & Hf & _ & _ & _ & Ho2); try done; try lia.
  { intros j e Hj. apply Huniq. lia. }
  exists d, f, x, m. split_and!; try done; try lia.
  unfold fat16_open. cbn [Z.eqb FILE_MODE_READ negb].
  rewrite (bind_done _ _ _ _ _ E1), (proj2 (Z.eqb_neq d 0)) by lia.
  pose proof (directory_entry_root fuel depth (with_heap m1 s) p g path sa b _ _
    (mounted_with_heap _ _ _ _ Hm) Hpath Hsa E2) as E3.
  rewrite (bind_done _ _ _ _ _ E3), (proj2 (Z.eqb_neq f 0)) by lia. done.
Qed.
End lookup.
