(* ===== verification/File.v ===== *)
(** * The file layer: fs/file.c, and the probing of the disk in disk/disk.c

    The two global tables of fs/file.c (the registered file systems and the open
    descriptors), the calls [fopen], [fread], [fseek], [fstat], [fclose] that
    go through the function table of the file system, and
    [disk_search_and_init], which mounts the disk.

    The function table of a file system is the constructor of [fs_ptr] that
    names it: a call through it is a match on that constructor. *)

From S2P Require Import Prelude Config CString Terminal Heap Kheap PathParser Disk Fat16 FatLookup.

Local Open Scope Z_scope.

Record file_descriptor := {
  index : Z;
  fd_filesystem : fs_ptr;
  private : Z;
  fd_disk : disk_ptr
}.

Definition sizeof_file_descriptor : Z := 16.

Definition file_get_mode_by_string (str : list Z) : option Z :=
  r ← strncmp str (text "r") 1;
  if r =? 0 then Some FILE_MODE_READ
  else
    w ← strncmp str (text "w") 1;
    if w =? 0 then Some FILE_MODE_WRITE
    else
      a ← strncmp str (text "a") 1;
      if a =? 0 then Some FILE_MODE_APPEND else Some FILE_MODE_INVALID.

Section file.
Context {S : Type} `{Allocator S} {D : Type} `{BlockDevice D}.

Record vstate := {
  vfat : fstate S D;
  fat16_fs_name : list Z;
  filesystems : list fs_ptr;
  file_descriptors : list Z;
  fd_objs : gmap Z file_descriptor
}.

Definition set_vfat x (s : vstate) : vstate :=
  {| vfat := x; fat16_fs_name := fat16_fs_name s; filesystems := filesystems s;
     file_descriptors := file_descriptors s; fd_objs := fd_objs s |}.
Definition set_fs_name x (s : vstate) : vstate :=
  {| vfat := vfat s; fat16_fs_name := x; filesystems := filesystems s;
     file_descriptors := file_descriptors s; fd_objs := fd_objs s |}.
Definition set_filesystems x (s : vstate) : vstate :=
  {| vfat := vfat s; fat16_fs_name := fat16_fs_name s; filesystems := x;
     file_descriptors := file_descriptors s; fd_objs := fd_objs s |}.
Definition set_file_descriptors x (s : vstate) : vstate :=
  {| vfat := vfat s; fat16_fs_name := fat16_fs_name s; filesystems := filesystems s;
     file_descriptors := x; fd_objs := fd_objs s |}.
Definition set_fd_objs x (s : vstate) : vstate :=
  {| vfat := vfat s; fat16_fs_name := fat16_fs_name s; filesystems := filesystems s;
     file_descriptors := file_descriptors s; fd_objs := x |}.

Definition in_fat {A} (m : M (fstate S D) A) : M vstate A := zoom vfat set_vfat m.
Definition in_parser {A} (m : M (pp_state (dstate S D)) A) : M vstate A :=
  in_fat (zoom fpp set_fpp m).

(** ** The function table of a file system *)

Definition fs_do_resolve (fs : fs_ptr) (fuel : nat) : M vstate Z :=
  match fs with Fat16Fs => in_fat (fat16_resolve fuel) | NullFs => undef end.
Definition fs_do_open (fs : fs_ptr) (fuel : nat) (path mode : Z) : M vstate Z :=
  match fs with Fat16Fs => in_fat (fat16_open fuel fuel path mode) | NullFs => undef end.
Definition fs_do_read (fs : fs_ptr) (p size nmemb : Z) : M vstate (Z * list Z) :=
  match fs with Fat16Fs => in_fat (fat16_read p size nmemb) | NullFs => undef end.
Definition fs_do_seek (fs : fs_ptr) (p offset whence : Z) : M vstate Z :=
  match fs with Fat16Fs => in_fat (fat16_seek p offset whence) | NullFs => undef end.
Definition fs_do_stat (fs : fs_ptr) (p : Z) : M vstate (Z * option file_stat) :=
  match fs with Fat16Fs => in_fat (fat16_stat p) | NullFs => undef end.
Definition fs_do_close (fs : fs_ptr) (p : Z) : M vstate Z :=
  match fs with Fat16Fs => in_fat (fat16_close p) | NullFs => undef end.

(** ** Registration *)

(** The index of the first free slot from [i] on, of [n] slots. *)
Fixpoint free_filesystem (n : nat) (i : Z) (table : list fs_ptr) : option (option Z) :=
  match n with
  | O => Some None
  | Datatypes.S n =>
      fs ← table.[i];
      match fs with NullFs => Some (Some i) | Fat16Fs => free_filesystem n (i + 1) table end
  end.

Definition fs_get_free_filesystem : M vstate (option Z) :=
  t ← gets filesystems; liftO (free_filesystem (Z.to_nat VANA_MAX_FILESYSTEMS) 0 t).

(** Without a free slot the kernel prints a message and stops. *)
Definition fs_insert_filesystem (fs : fs_ptr) : M vstate unit :=
  slot ← fs_get_free_filesystem;
  match slot with
  | None => panic
  | Some i => t ← gets filesystems; t ← liftO t.[i <- fs]; modify (set_filesystems t)
  end.

Definition fat16_init : M vstate fs_ptr :=
  name ← gets fat16_fs_name;
  name ← liftO (strcpy name (text "FAT16"));
  modify (set_fs_name name);; mret Fat16Fs.

Definition fs_static_load : M vstate unit := fs ← fat16_init; fs_insert_filesystem fs.

Definition fs_load : M vstate unit :=
  modify (set_filesystems (replicate (Z.to_nat VANA_MAX_FILESYSTEMS) NullFs));;
  fs_static_load.

Definition fs_init : M vstate unit :=
  modify (set_file_descriptors (replicate (Z.to_nat VANA_MAX_FILE_DESCRIPTORS) 0));;
  fs_load.

(** ** Mounting *)

Fixpoint resolve_loop (fuel n : nat) (i : Z) : M vstate fs_ptr :=
  match n with
  | O => mret NullFs
  | Datatypes.S n =>
      t ← gets filesystems;
      fs ← liftO t.[i];
      match fs with
      | NullFs => resolve_loop fuel n (i + 1)
      | Fat16Fs =>
          r ← fs_do_resolve fs fuel;
          if r =? 0 then mret fs else resolve_loop fuel n (i + 1)
      end
  end.

Definition fs_resolve (fuel : nat) : M vstate fs_ptr :=
  resolve_loop fuel (Z.to_nat VANA_MAX_FILESYSTEMS) 0.

Definition set_disk (d : disk) : M vstate unit :=
  modify (λ s, set_vfat (set_fds (set_dsk d (fds (vfat s))) (vfat s)) s).

Definition disk_search_and_init (fuel : nat) : M vstate unit :=
  set_disk {| disk_type := 0; sector_size := VANA_SECTOR_SIZE; disk_id := 0;
              filesystem := NullFs; fs_private := 0 |};;
  fs ← fs_resolve fuel;
  d ← gets (λ s, dsk (fds (vfat s)));
  set_disk {| disk_type := disk_type d; sector_size := sector_size d; disk_id := disk_id d;
              filesystem := fs; fs_private := fs_private d |}.

(** ** Descriptors *)

Definition get_fd (p : Z) : M vstate file_descriptor := λ s,
  match fd_objs s !! p with Some x => Done (x, s) | None => Undef end.
Definition put_fd (p : Z) (x : file_descriptor) : M vstate unit :=
  modify (λ s, set_fd_objs (<[p := x]> (fd_objs s)) s).

Definition set_slot (i p : Z) : M vstate unit :=
  t ← gets file_descriptors; t ← liftO t.[i <- p]; modify (set_file_descriptors t).

Definition file_free_descriptor (desc : Z) : M vstate unit :=
  x ← get_fd desc;
  set_slot (index x - 1) 0;;
  in_fat (f_free desc);;
  modify (λ s, set_fd_objs (delete desc (fd_objs s)) s).

(** The status and the pointer stored at [desc_out]. *)
Fixpoint new_descriptor_loop (n : nat) (i : Z) : M vstate (Z * Z) :=
  match n with
  | O => mret (- ENOMEM, 0)
  | Datatypes.S n =>
      t ← gets file_descriptors;
      p ← liftO t.[i];
      if p =? 0 then
        desc ← in_fat (f_alloc sizeof_file_descriptor);
        if desc =? 0 then undef
        else
          put_fd desc {| index := i + 1; fd_filesystem := NullFs; private := 0; fd_disk := NullDisk |};;
          set_slot i desc;;
          mret (0, desc)
      else new_descriptor_loop n (i + 1)
  end.

Definition file_new_descriptor : M vstate (Z * Z) :=
  new_descriptor_loop (Z.to_nat VANA_MAX_FILE_DESCRIPTORS) 0.

Definition file_get_descriptor (fd : Z) : M vstate Z :=
  if (fd <=? 0) || (VANA_MAX_FILE_DESCRIPTORS <=? fd) then mret 0
  else t ← gets file_descriptors; liftO t.[fd - 1].

(** ** The calls *)

(** The code at [out] of [fopen] for a negative [res]. *)
Definition fopen_fail (fuel : nat) (root_path : Z) (dk : disk_ptr) (p desc : Z) : M vstate Z :=
  (if negb (root_path =? 0) then in_parser (pathparser_free fuel root_path) else mret tt);;
  (if bool_decide (dk = TheDisk) && negb (p =? 0) then
     d ← gets (λ s, dsk (fds (vfat s))); _ ← fs_do_close (filesystem d) p; mret tt
   else mret tt);;
  (if negb (desc =? 0) then file_free_descriptor desc else mret tt);;
  mret 0.

(** The part of [fopen] from the call of the driver's [open] on. *)
Definition fopen_open (fuel : nat) (root_path first : Z) (fs : fs_ptr) (mode : Z) : M vstate Z :=
  p ← fs_do_open fs fuel first mode;
  if ISERR p then fopen_fail fuel root_path TheDisk p 0
  else
    r ← file_new_descriptor;
    let '(res, desc) := r in
    if res <? 0 then fopen_fail fuel root_path TheDisk p desc
    else
      x ← get_fd desc;
      d ← gets (λ s, dsk (fds (vfat s)));
      put_fd desc {| index := index x; fd_filesystem := filesystem d; private := p; fd_disk := TheDisk |};;
      mret (index x).

Definition fopen (fuel : nat) (filename mode_str : list Z) : M vstate Z :=
  root_path ← in_parser (pathparser_parse filename);
  if root_path =? 0 then fopen_fail fuel 0 NullDisk 0 0
  else
    root ← in_parser (get_root root_path);
    if first root =? 0 then fopen_fail fuel root_path NullDisk 0 0
    else match disk_get (drive_no root) with
    | NullDisk => fopen_fail fuel root_path NullDisk 0 0
    | TheDisk =>
        d ← gets (λ s, dsk (fds (vfat s)));
        if bool_decide (filesystem d = NullFs) then fopen_fail fuel root_path TheDisk 0 0
        else
          mode ← liftO (file_get_mode_by_string mode_str);
          if mode =? FILE_MODE_INVALID then fopen_fail fuel root_path TheDisk 0 0
          else
            fopen_open fuel root_path (first root) (filesystem d) mode
    end.

Definition fstat (fd : Z) : M vstate (Z * option file_stat) :=
  desc ← file_get_descriptor fd;
  if desc =? 0 then mret (- EIO, None)
  else x ← get_fd desc; fs_do_stat (fd_filesystem x) (private x).

Definition fclose (fd : Z) : M vstate Z :=
  desc ← file_get_descriptor fd;
  if desc =? 0 then mret (- EIO)
  else
    x ← get_fd desc;
    res ← fs_do_close (fd_filesystem x) (private x);
    (if res =? VANA_ALL_OK then file_free_descriptor desc else mret tt);;
    mret res.

Definition fseek (fd offset whence : Z) : M vstate Z :=
  desc ← file_get_descriptor fd;
  if desc =? 0 then mret (- EIO)
  else x ← get_fd desc; fs_do_seek (fd_filesystem x) (private x) (u32 offset) whence.

(** The status and the bytes stored at [ptr]. *)
Definition fread (size nmemb fd : Z) : M vstate (Z * list Z) :=
  if (size =? 0) || (nmemb =? 0) || (fd <? 1) then mret (- EINVARG, [])
  else
    desc ← file_get_descriptor fd;
    if desc =? 0 then mret (- EINVARG, [])
    else x ← get_fd desc; fs_do_read (fd_filesystem x) (private x) size nmemb.
End file.

Arguments vstate S D : clear implicits.

(** ** Descriptors *)

Lemma components_forall (P : Z → Prop) acc s : Forall P acc → Forall P s →
  Forall (λ c, Forall P c ∧ (length c ≤ length acc + length s)%nat) (components_from acc s).
Proof.
  revert acc. induction s as [|c s IH]; intros acc Ha Hs; simpl.
  - case_decide; [by apply Forall_nil|]. by repeat constructor; [|lia].
  - apply Forall_cons in Hs as [Hc Hs]. destruct (c =? 47).
    + case_decide; [by apply Forall_nil|]. apply Forall_cons. split; [split; [done|lia]|].
      eapply Forall_impl; [apply IH; [by apply Forall_nil|done]|]. simpl. intros x [? ?]. split; [done|lia].
    + eapply Forall_impl; [apply IH; [|done]|].
      * apply Forall_app. split; [done|]. by apply Forall_singleton.
      * intros x [? Hx]. rewrite length_app in Hx. simpl in Hx. split; [done|lia].
Qed.

Section file_spec.
Context {S : Type} `{Allocator S} {D : Type} `{BlockDevice D}.
Implicit Types s : vstate S D.

(** Slot [k] is the first free slot of the descriptor table. *)
Definition first_free s (k : Z) : Prop :=
  length (file_descriptors s) = 512%nat ∧ 0 <= k < 512 ∧
  (file_descriptors s).[k] = Some 0 ∧
  ∀ i p, 0 <= i < k → (file_descriptors s).[i] = Some p → p ≠ 0.

(** [fd] is an open descriptor of the file [entry], at position [q]. *)
Definition open_fd s (fd q : Z) (entry : list Z) : Prop :=
  ∃ desc d, (file_descriptors s).[fd - 1] = Some desc ∧ desc ≠ 0 ∧
    fd_objs s !! desc = Some {| index := fd; fd_filesystem := Fat16Fs; private := d; fd_disk := TheDisk |} ∧
    open_file (vfat s) d q entry.

(** The state after [file_new_descriptor] chose slot [k]. *)
Definition new_fd s (m : S) (k desc : Z) : vstate S D :=
  {| vfat := with_heap m (vfat s); fat16_fs_name := fat16_fs_name s; filesystems := filesystems s;
     file_descriptors := <[Z.to_nat k := desc]> (file_descriptors s);
     fd_objs := <[desc := {| index := k + 1; fd_filesystem := NullFs; private := 0; fd_disk := NullDisk |}]>
                  (fd_objs s) |}.

Lemma set_slot_spec s i p : 0 <= i < Z.of_nat (length (file_descriptors s)) →
  set_slot i p s = Done (tt, set_file_descriptors (<[Z.to_nat i := p]> (file_descriptors s)) s).
Proof.
  intros Hi. unfold set_slot, gets. erewrite bind_done; [|reflexivity].
  erewrite bind_done; [|unfold liftO; rewrite upd_Some by done; reflexivity]. done.
Qed.

Lemma new_descriptor_loop_spec n i s k A free : 0 <= i <= k → k < i + Z.of_nat n →
  first_free s k → owns (dmem (fds (vfat s))) A (Datatypes.S free) →
  ∃ desc m, new_descriptor_loop n i s = Done ((0, desc), new_fd s m k desc) ∧ desc ≠ 0 ∧
    owns m (<[desc := 1%nat]> A) free.
Proof.
  revert i. induction n as [|n IH]; intros i Hi Hk (Hl & Hk5 & Hz & Hused) Ho; [lia|].
  destruct (idx_is_Some (file_descriptors s) i) as [p Hp]; [lia|].
  cbn [new_descriptor_loop]. unfold gets at 1. erewrite bind_done; [|reflexivity].
  erewrite bind_done; [|unfold liftO; rewrite Hp; reflexivity].
  destruct (decide (i = k)) as [->|Hne].
  - rewrite Hz in Hp. injection Hp as <-. cbn [Z.eqb].
    destruct (f_alloc_ok (vfat s) A free sizeof_file_descriptor Ho) as (desc & m & E & Hd & _ & Ho'); [done|].
    exists desc, m. split_and!; [|lia|done].
    erewrite bind_done; [|unfold in_fat; apply zoom_done, E]. rewrite (proj2 (Z.eqb_neq desc 0)) by lia.
    unfold put_fd. erewrite bind_done; [|reflexivity].
    erewrite bind_done; [|apply set_slot_spec; cbn; lia]. done.
  - rewrite (proj2 (Z.eqb_neq p 0)) by (eapply Hused; [|exact Hp]; lia).
    apply IH; [lia|lia|done|done].
Qed.

Lemma get_descriptor_spec s fd desc : 0 < fd < 512 → (file_descriptors s).[fd - 1] = Some desc →
  file_get_descriptor fd s = Done (desc, s).
Proof.
  intros Hfd Hs. unfold file_get_descriptor, VANA_MAX_FILE_DESCRIPTORS.
  rewrite (proj2 (Z.leb_gt fd 0)), (proj2 (Z.leb_gt 512 fd)) by lia. cbn [orb].
  unfold gets. erewrite bind_done; [|reflexivity]. unfold liftO. by rewrite Hs.
Qed.

(** ** Reading through a descriptor *)

Lemma fread_spec s fd q entry p g c size nmemb :
  0 < fd < 512 → open_fd s fd q entry → mounted (vfat s) p g →
  fat16_get_first_cluster entry = Some c → 0 <= c < 2 ^ 16 → 0 <= q → 0 < size → 0 < nmemb →
  q + nmemb * size < 2 ^ 31 →
  (∀ i, 0 <= i < nmemb → let o := q + i * size in
     o mod cluster_size g = 0 ∨ o mod cluster_size g + size <= cluster_size g) →
  on_chain g (image (vfat s)) c q (nmemb * size) →
  ∃ f, fread size nmemb fd s =
         Done ((nmemb, file_bytes g (image (vfat s)) c q (nmemb * size)), set_vfat f s) ∧
       open_fd (set_vfat f s) fd (q + nmemb * size) entry ∧ mounted f p g ∧ image f = image (vfat s).
Proof.
  intros Hfd (desc & d & Hslot & Hd0 & Hobj & Hof) Hm Hc Hcr Hq Hs Hn Hmax Hal Hon.
  destruct (fat16_read_spec (vfat s) p g d q entry c size nmemb) as (f1 & f & E & Hof' & Hqt & Hf & _); try done; [lia|].
  exists f. split_and!.
  - unfold fread. rewrite (proj2 (Z.eqb_neq size 0)), (proj2 (Z.eqb_neq nmemb 0)), (proj2 (Z.ltb_ge fd 1)) by lia.
    cbn [orb]. rewrite (bind_done _ _ _ _ _ (get_descriptor_spec _ _ _ Hfd Hslot)).
    rewrite (proj2 (Z.eqb_neq desc 0)) by done.
    erewrite bind_done; [|unfold get_fd; rewrite Hobj; reflexivity]. cbn [fd_filesystem private].
    unfold fs_do_read, in_fat. by apply zoom_done.
  - by exists desc, d.
  - rewrite Hf. destruct (quiet_mounted _ _ _ _ Hqt Hm). by split.
  - rewrite Hf. exact (quiet_image _ _ Hqt).
Qed.

(** ** Opening a file *)

(** What the allocator leaves alone below the file system. *)
Definition hardware (d : dstate S D) : D * disk * gmap Z disk_stream := (ddev d, dsk d, streams d).

Lemma parse_hardware b (pp pp' : pp_state (dstate S D)) r : pathparser_parse b pp = Done (r, pp') →
  hardware (pp_mem pp') = hardware (pp_mem pp).
Proof.
  apply (pathparser_parse_keeps hardware); intros; by apply keeps_zoom_off.
Qed.

Lemma mounted_set_fpp f p g (pp : pp_state (dstate S D)) :
  mounted f p g → hardware (pp_mem pp) = hardware (fds f) → mounted (set_fpp pp f) p g.
Proof.
  intros [] Hh. unfold hardware in Hh. injection Hh as Hdev Hdsk Hstr.
  split; change (fds (set_fpp pp f)) with (pp_mem pp); rewrite ?Hdsk, ?Hstr; done.
Qed.

(** A path of one component on drive 0. *)
Definition root_path (b name : list Z) : Prop :=
  Forall is_u8 b ∧ ∃ str rest, cstr b = Some str ∧ path_drive str = Some (0, rest) ∧ components rest = [name].

Lemma root_path_name b name : root_path b name → Forall is_u8 name ∧ (length name ≤ 108)%nat.
Proof.
  intros (Hu8 & str & rest & Hb & Hd & Hc). destruct (cstr_inv _ _ Hb) as (tl & -> & Hnz).
  destruct (path_drive_inv _ _ _ Hd Hnz) as (Hl & Hlen & _ & _). unfold VANA_MAX_PATH in Hl.
  assert (Forall is_u8 rest) as Hr.
  { apply Forall_app in Hu8 as [Hu8 _]. unfold path_drive in Hd.
    destruct str as [|? [|? [|? r]]]; try done. destruct (_ && _); simplify_eq.
    by do 3 apply Forall_cons in Hu8 as [_ Hu8]. }
  pose proof (components_forall is_u8 [] rest ltac:(by apply Forall_nil) Hr) as Hall. fold (components rest) in Hall.
  rewrite Hc in Hall. apply Forall_cons in Hall as [[? Hn] _]. simpl in Hn. split; [done|lia].
Qed.

(** The state of the parser after a path of one component. *)
Lemma parse_root_path pp b name A n : root_path b name → pp_inv pp A (7 + n) →
  ∃ root pa sa pp', pathparser_parse b pp = Done (root, pp') ∧ root ≠ 0 ∧
    parsed pp' root 0 [(pa, sa)] [name] A (4 + n) ∧ hardware (pp_mem pp') = hardware (pp_mem pp).
Proof.
  intros (Hu8 & str & rest & Hb & Hd & Hc) Hinv.
  destruct (parse_valid_spec pp b str 0 rest A (3 + n)) as (root & pas & pp' & E & Hr & Hp);
    [by rewrite Hc|done..|by rewrite Hc|].
  rewrite Hc in Hp. pose proof (pd_list _ _ _ _ _ _ _ Hp) as Hl.
  destruct pas as [|[pa sa] [|[] pas]]; try done; [|by destruct Hl as (_ & _ & ?)].
  exists root, pa, sa, pp'. split_and!; try done. by eapply parse_hardware.
Qed.

Lemma parsed_one (pp : pp_state (dstate S D)) root pa sa name A n : parsed pp root 0 [(pa, sa)] [name] A n →
  pa ≠ 0 ∧ roots pp !! root = Some {| drive_no := 0; first := pa |} ∧
  parts pp !! pa = Some {| part := sa; next := 0 |} ∧
  (∃ buf, strs pp !! sa = Some buf ∧ cstr buf = Some name) ∧
  owns (pp_mem pp) (with_blocks [sa; pa; root] A) n.
Proof.
  intros [[P1 _ _] _ _ P4 P5 P6]. destruct P4 as (Hpa & Hb & _). apply Forall_cons in P6 as [Hpa0 _]. done.
Qed.

Lemma in_parser_done {A} (m : M (pp_state (dstate S D)) A) s a pp :
  m (fpp (vfat s)) = Done (a, pp) → in_parser m s = Done (a, set_vfat (set_fpp pp (vfat s)) s).
Proof. intros E. by apply zoom_done, zoom_done. Qed.

Lemma mounted_opened (f : fstate S D) p g m d i x entry : mounted f p g → mounted (opened f m d i x entry) p g.
Proof. intros []. by split. Qed.

(** [fopen] up to the call of the driver. *)
Lemma fopen_prefix fuel s b name A n :
  root_path b name → pp_inv (fpp (vfat s)) A (7 + n) → filesystem (dsk (fds (vfat s))) = Fat16Fs →
  ∃ root pa sa pp, root ≠ 0 ∧ parsed pp root 0 [(pa, sa)] [name] A (4 + n) ∧
    hardware (pp_mem pp) = hardware (fds (vfat s)) ∧
    fopen fuel b (text "r") s =
      fopen_open fuel root pa Fat16Fs FILE_MODE_READ (set_vfat (set_fpp pp (vfat s)) s).
Proof.
  intros Hpath Hinv Hfs.
  destruct (parse_root_path (fpp (vfat s)) b name A n Hpath Hinv) as (root & pa & sa & pp & E1 & Hr0 & Hp & Hhw).
  exists root, pa, sa, pp. split_and!; try done.
  destruct (parsed_one _ _ _ _ _ _ _ Hp) as (Hpa0 & Hroots & _).
  set (s1 := set_vfat (set_fpp pp (vfat s)) s).
  unfold fopen. rewrite (bind_done _ _ _ _ _ (in_parser_done _ _ _ _ E1)). fold s1.
  rewrite (proj2 (Z.eqb_neq root 0) Hr0).
  rewrite (bind_done _ _ _ {| drive_no := 0; first := pa |} s1).
  2:{ rewrite (in_parser_done _ _ {| drive_no := 0; first := pa |} pp); [done|].
      unfold get_root. cbn. by rewrite Hroots. }
  cbn [first drive_no]. rewrite (proj2 (Z.eqb_neq pa 0) Hpa0).
  change (disk_get 0) with TheDisk. cbv iota. unfold gets. erewrite bind_done; [|reflexivity].
  assert (filesystem (dsk (fds (vfat s1))) = Fat16Fs) as ->.
  { unfold hardware in Hhw. injection Hhw as _ Hd _. change (dsk (fds (vfat s1))) with (dsk (pp_mem pp)). by rewrite Hd. }
  change (bool_decide (Fat16Fs = NullFs)) with false. cbv iota.
  by rewrite (bind_done _ _ _ FILE_MODE_READ s1).
Qed.

Lemma fopen_spec fuel s b name entry p g k A n :
  root_path b name → pp_inv (fpp (vfat s)) A (7 + n) → filesystem (dsk (fds (vfat s))) = Fat16Fs →
  mounted (vfat s) p g → root_file (vfat s) p name entry → is_file entry → first_free s k →
  ∃ desc s', fopen fuel b (text "r") s = Done (k + 1, s') ∧
    open_fd s' (k + 1) 0 entry ∧ mounted (vfat s') p g ∧ image (vfat s') = image (vfat s) ∧
    file_descriptors s' = <[Z.to_nat k := desc]> (file_descriptors s).
Proof.
  intros Hpath Hinv Hfs Hm Hroot Hfile Hfree.
  destruct (root_path_name _ _ Hpath) as [Hnu8 Hnl].
  destruct (fopen_prefix fuel s b name A n Hpath Hinv Hfs) as (root & pa & sa & pp & Hr0 & Hparsed & Hhw & ->).
  destruct (parsed_one _ _ _ _ _ _ _ Hparsed) as (Hpa0 & Hroots & Hparts & (buf & Hstrs & Hbuf) & Ho).
  pose proof (mounted_set_fpp _ _ _ pp Hm Hhw) as Hm1. unfold hardware in Hhw. injection Hhw as Hdev Hdsk _.
  destruct (fat16_open_spec fuel fuel (set_fpp pp (vfat s)) p g name entry pa sa buf (with_blocks [sa; pa; root] A) (1 + n))
    as (d & i & x & m & E2 & Hd & _ & Ho2); try done.
  set (f1 := set_fpp pp (vfat s)) in *. set (f2 := opened f1 m d i x entry) in *.
  destruct (new_descriptor_loop_spec (Z.to_nat VANA_MAX_FILE_DESCRIPTORS) 0 (set_vfat f2 s) k
    (<[x:=1%nat]> (<[i:=1%nat]> (<[d:=1%nat]> (with_blocks [sa; pa; root] A)))) n)
    as (desc & m2 & E3 & Hdesc & _).
  { destruct Hfree; lia. } { unfold VANA_MAX_FILE_DESCRIPTORS. destruct Hfree; lia. } { done. } { done. }
  set (o := {| index := k + 1; fd_filesystem := Fat16Fs; private := d; fd_disk := TheDisk |}).
  set (s3 := new_fd (set_vfat f2 s) m2 k desc) in *.
  exists desc, (set_fd_objs (<[desc := o]> (fd_objs s3)) s3). split_and!.
  - unfold fopen_open.
    rewrite (bind_done _ _ _ d (set_vfat f2 (set_vfat f1 s))) by by apply zoom_done.
    change (set_vfat f2 (set_vfat f1 s)) with (set_vfat f2 s).
    unfold ISERR. rewrite s32_small, (proj2 (Z.ltb_ge d 0)) by (range || lia).
    unfold file_new_descriptor. rewrite (bind_done _ _ _ _ _ E3). cbv beta iota. cbn [Z.ltb Z.compare].
    rewrite (bind_done _ _ s3 {| index := k + 1; fd_filesystem := NullFs; private := 0; fd_disk := NullDisk |} s3).
    2:{ unfold get_fd. cbn. by rewrite lookup_insert_eq. }
    erewrite bind_done; [|reflexivity]. erewrite bind_done; [|reflexivity].
    cbn [index]. do 2 f_equal. unfold o. do 2 f_equal. rewrite <- Hfs.
    change (dsk (fds (vfat s3))) with (dsk (pp_mem pp)). by rewrite Hdsk.
  - exists desc, d. cbn [file_descriptors fd_objs set_fd_objs vfat].
    replace (k + 1 - 1) with k by lia. split_and!; [|done|by rewrite lookup_insert_eq|].
    + destruct Hfree as (Hl & Hk & _). apply (upd_idx_eq (file_descriptors s)), upd_Some. cbn. lia.
    + exists i, x. cbn. by rewrite !lookup_insert_eq.
  - change (mounted (with_heap m2 f2) p g). by apply mounted_with_heap, mounted_opened.
  - change (bd_image (ddev (pp_mem pp)) = image (vfat s)). by rewrite Hdev.
  - done.
Qed.

(** C1: opening and reading a file.  The volume is mounted by the FAT16 driver, the
    heap has at least seven free blocks and a descriptor below 512 is unused.
    [fopen] for reading of a path "0:/NAME.EXT" that names one file of the root
    directory (up to case) returns the lowest unused descriptor.  [fread] on it, of
    fewer than 2^31 bytes that the cluster chain of the file covers, in objects that
    start on a cluster boundary or do not cross one, returns the number of objects
    (not of bytes, as its comment says) and exactly the bytes found along the chain
    on the medium; the size in the directory entry is not consulted. *)
Theorem fopen_fread_correct fuel s b name entry p g c k A n size nmemb :
  root_path b name → pp_inv (fpp (vfat s)) A (7 + n) → filesystem (dsk (fds (vfat s))) = Fat16Fs →
  mounted (vfat s) p g → root_file (vfat s) p name entry → is_file entry → first_free s k → k < 511 →
  fat16_get_first_cluster entry = Some c → 0 <= c < 2 ^ 16 → 0 < size → 0 < nmemb → nmemb * size < 2 ^ 31 →
  (∀ i, 0 <= i < nmemb → let o := i * size in
     o mod cluster_size g = 0 ∨ o mod cluster_size g + size <= cluster_size g) →
  on_chain g (image (vfat s)) c 0 (nmemb * size) →
  ∃ s1 s2, fopen fuel b (text "r") s = Done (k + 1, s1) ∧
    fread size nmemb (k + 1) s1 = Done ((nmemb, file_bytes g (image (vfat s)) c 0 (nmemb * size)), s2) ∧
    open_fd s2 (k + 1) (nmemb * size) entry ∧ mounted (vfat s2) p g.
Proof.
  intros Hpath Hinv Hfs Hm Hroot Hfile Hfree Hk Hc Hcr Hs Hn Hmax Hal Hon.
  destruct (fopen_spec fuel s b name entry p g k A n) as (desc & s1 & E1 & Ho & Hm1 & Himg & _); try done.
  destruct (fread_spec s1 (k + 1) 0 entry p g c size nmemb) as (f & E2 & Ho2 & Hm2 & _); try done;
    rewrite ?Himg; try done.
  { destruct Hfree as (_ & ? & _). lia. }
  rewrite Himg in E2. eauto 8.
Qed.

(** ** Opening a file that does not exist *)

(** The driver reports a missing file of the root directory with [-EIO]. *)
Lemma fat16_open_missing fuel depth f p g name path sa b buf A n :
  mounted f p g → dirbufs f !! dir_item (root_directory p) = Some buf → Forall is_u8 buf →
  0 <= dir_total (root_directory p) → dir_total (root_directory p) * 32 <= Z.of_nat (length buf) →
  (∀ j e, 0 <= j < dir_total (root_directory p) → dir_entry buf j = Some e → ¬ name_matches e name) →
  parts (fpp f) !! path = Some {| part := sa; next := 0 |} → strs (fpp f) !! sa = Some b →
  cstr b = Some name → Forall is_u8 name → (length name ≤ 108)%nat → owns (dmem (fds f)) A (1 + n) →
  ∃ m, fat16_open fuel depth path FILE_MODE_READ f = Done (ERROR (- EIO), with_heap m f) ∧
       owns m A (1 + n).
Proof.
  intros Hm Hbuf Hu8 Htot Hlen Hno Hpath Hsa Hb Hn Hl Ho.
  destruct (f_alloc_ok f A n sizeof_fat_file_descriptor Ho) as (d & m1 & E1 & Hd & HAd & Ho1); [done|].
  destruct (release_ok m1 _ n d 1%nat Ho1) as (m & E2 & Ho2); [by rewrite lookup_insert_eq|].
  rewrite delete_insert_id, Nat.add_comm in Ho2 by done. exists m. split; [|done]. unfold fat16_open. cbn [Z.eqb FILE_MODE_READ negb].
  rewrite (bind_done _ _ _ _ _ E1), (proj2 (Z.eqb_neq d 0)) by lia.
  rewrite (bind_done _ _ _ 0 (with_heap m1 f)).
  - cbn [Z.eqb]. rewrite (bind_done _ _ _ tt (with_heap m f)); [done|].
    unfold f_free, in_disk, zoom. cbn. by rewrite E2.
  - apply (directory_entry_root _ _ _ p g _ sa b); [by apply mounted_with_heap|done..|].
    eapply find_none; try done; [lia|]. intros j e Hj. apply Hno. lia.
Qed.

(** Closing an error pointer reads through it. *)
Lemma close_error_undefined fuel s root pa sa name e A n : root ≠ 0 → (1 ≤ fuel)%nat → e ≠ 0 →
  parsed (fpp (vfat s)) root 0 [(pa, sa)] [name] A n → filesystem (dsk (fds (vfat s))) = Fat16Fs →
  fdescs (vfat s) !! e = None → fopen_fail fuel root TheDisk e 0 s = Undef.
Proof.
  intros Hr Hf He Hp Hfs Hno. unfold fopen_fail. rewrite (proj2 (Z.eqb_neq root 0) Hr). cbn [negb].
  destruct (free_spec (fpp (vfat s)) root 0 [(pa, sa)] [name] A n fuel Hp) as (pp & E & _); [done|].
  rewrite (bind_done _ _ _ _ _ (in_parser_done _ _ _ _ E)).
  change (bool_decide (TheDisk = TheDisk)) with true. rewrite (proj2 (Z.eqb_neq e 0) He). cbn [andb negb].
  assert (dsk (pp_mem pp) = dsk (fds (vfat s))) as Hd.
  { assert (hardware (pp_mem pp) = hardware (fds (vfat s))) as Hh; [|by injection Hh].
    eapply (pathparser_free_keeps hardware); [..|exact E]; intros; by apply keeps_zoom_off. }
  set (s1 := set_vfat _ s).
  assert (fs_do_close Fat16Fs e s1 = Undef) as Hc.
  { unfold fs_do_close, in_fat, zoom, fat16_close, fat16_free_file_descriptor, deref, mbind, M_bind. cbn.
    by rewrite Hno. }
  unfold gets at 1, mbind, M_bind. change (dsk (fds (vfat s1))) with (dsk (pp_mem pp)). rewrite Hd, Hfs.
  by rewrite Hc.
Qed.

(** [fopen] of a file that is not in the root directory does not return an
    error: the driver's error code is passed to the driver's [close] as if it
    were a descriptor, which is then dereferenced. *)
Theorem fopen_missing_file_undefined fuel s b name p g buf A n :
  root_path b name → pp_inv (fpp (vfat s)) A (7 + n) → filesystem (dsk (fds (vfat s))) = Fat16Fs →
  mounted (vfat s) p g → dirbufs (vfat s) !! dir_item (root_directory p) = Some buf → Forall is_u8 buf →
  0 <= dir_total (root_directory p) → dir_total (root_directory p) * 32 <= Z.of_nat (length buf) →
  (∀ j e, 0 <= j < dir_total (root_directory p) → dir_entry buf j = Some e → ¬ name_matches e name) →
  (1 ≤ fuel)%nat → fdescs (vfat s) !! ERROR (- EIO) = None →
  fopen fuel b (text "r") s = Undef.
Proof.
  intros Hpath Hinv Hfs Hm Hbuf Hu8 Htot Hlen Hno Hfuel Hd.
  destruct (root_path_name _ _ Hpath) as [Hnu8 Hnl].
  destruct (fopen_prefix fuel s b name A n Hpath Hinv Hfs) as (root & pa & sa & pp & Hr0 & Hp & Hhw & ->).
  destruct (parsed_one _ _ _ _ _ _ _ Hp) as (_ & _ & Hparts & (nb & Hstrs & Hnb) & Ho).
  pose proof (mounted_set_fpp _ _ _ pp Hm Hhw) as Hm1.
  destruct (fat16_open_missing fuel fuel (set_fpp pp (vfat s)) p g name pa sa nb buf (with_blocks [sa; pa; root] A) (3 + n))
    as (m & E & Ho'); try done.
  unfold fopen_open. set (f1 := set_fpp pp (vfat s)) in *.
  rewrite (bind_done _ _ _ (ERROR (- EIO)) (set_vfat (with_heap m f1) (set_vfat f1 s))) by by apply zoom_done.
  change (ISERR (ERROR (- EIO))) with true. cbv iota.
  apply (close_error_undefined _ _ _ pa sa name _ A (4 + n)); try done.
  - destruct Hp as [[_ P2 P3] ? ? ? ? ?]. split; [split|..]; done.
  - change (filesystem (dsk (pp_mem pp)) = Fat16Fs). unfold hardware in Hhw. by injection Hhw as _ -> _.
Qed.
End file_spec.

(** ** Examples *)

Definition demo_root : fat_private :=
  {| header := header demo_private;
     root_directory := {| dir_item := 30; dir_total := 1; sector_pos := 3; ending_sector_pos := 4 |};
     cluster_read_stream := 8; fat_read_stream := 9; directory_stream := 10 |}.

Definition demo_vfs : vstate kmem (Z → Z) :=
  {| vfat := set_privs {[ 7 := demo_root ]} (set_dirbufs {[ 30 := demo_item ]} demo_volume);
     fat16_fs_name := text "FAT16"; filesystems := replicate 12 NullFs;
     file_descriptors := replicate 512 0; fd_objs := ∅ |}.

Lemma demo_vfs_inv : pp_inv (fpp (vfat demo_vfs)) ∅ 40.
Proof.
  split.
  - by apply (boot_owns 40).
  - intros p _. cbn. by rewrite !lookup_empty.
  - intros p. cbn. rewrite !lookup_empty. by split; intros [? ?].
Qed.

Lemma demo_vfs_mounted : mounted (vfat demo_vfs) demo_root demo_geometry.
Proof. split; try done; by exists 0. Qed.

Lemma demo_root_entry j e : 0 <= j < 1 → dir_entry demo_item j = Some e → e = demo_item ∧ j = 0.
Proof. intros Hj He. assert (j = 0) as -> by lia. vm_compute in He. by simplify_eq. Qed.

Lemma demo_item_u8 : Forall is_u8 demo_item.
Proof. repeat constructor; range. Qed.

Lemma demo_path name : Forall is_u8 (text name) → (∃ rest, path_drive (codes name) = Some (0, rest)) →
  cstr (text name) = Some (codes name) → ∀ comp,
  (∀ rest, path_drive (codes name) = Some (0, rest) → components rest = [comp]) → root_path (text name) comp.
Proof. intros Hu8 [rest Hr] Hc comp Hcomp. split; [done|]. eexists _, rest. eauto. Qed.

Lemma fopen_fread_correct_witness :
  ∃ s1 s2, fopen 0 (text "0:/hello.txt") (text "r") demo_vfs = Done (1, s1) ∧
    fread 512 2 1 s1 =
      Done ((2, file_bytes demo_geometry (image (vfat demo_vfs)) 3 0 (2 * 512)), s2) ∧
    open_fd s2 1 (2 * 512) demo_item ∧ mounted (vfat s2) demo_root demo_geometry.
Proof.
  apply (fopen_fread_correct 0 demo_vfs (text "0:/hello.txt") (codes "hello.txt") demo_item demo_root
    demo_geometry 3 0 ∅ 33 512 2); try done; try lia.
  - apply demo_path; [repeat constructor; range|by eexists|done|]. intros rest E. by simplify_eq/=.
  - exact demo_vfs_inv.
  - exact demo_vfs_mounted.
  - exists demo_item, 0. split_and!; try done; [exact demo_item_u8|].
    intros j e Hj He. apply demo_root_entry in He as [-> ->]; [|done]. by split.
  - by exists 0.
  - split_and!; try done. intros i p Hi. lia.
  - intros i Hi. left. cbn. assert (i = 0 ∨ i = 1) as [-> | ->] by lia; done.
  - exact demo_on_chain.
Defined.

Lemma fopen_missing_file_undefined_witness :
  fopen 1 (text "0:/nothere") (text "r") demo_vfs = Undef.
Proof.
  apply (fopen_missing_file_undefined 1 demo_vfs (text "0:/nothere") (codes "nothere") demo_root
    demo_geometry demo_item ∅ 33); try done; try lia.
  - apply demo_path; [repeat constructor; range|by eexists|done|]. intros rest E. by simplify_eq/=.
  - exact demo_vfs_inv.
  - exact demo_vfs_mounted.
  - exact demo_item_u8.
  - intros j e Hj He. apply demo_root_entry in He as [-> ->]; [|done]. by vm_compute.
Defined.

(** A volume image with a boot sector, one FAT, a root directory of one sector
    and the file HELLO.TXT of 600 bytes on the clusters 3 and 5. *)
Definition place (l : list Z) (a : Z) (img : Z → Z) : Z → Z := λ x, default (img x) (l.[x - a]).

Definition boot_image : Z → Z :=
  place (replicate 11 0 ++ [0; 2; 1; 1; 0; 1; 16; 0; 0; 0; 0; 1; 0] ++ replicate 14 0 ++ [0x29]) 0 (
  place [0xf8; 0xff; 0xff; 0xff; 0xff; 0xff; 5; 0; 0xff; 0xff; 0xff; 0xff] 512 (
  place (codes "HELLO   TXT" ++ replicate 15 0 ++ [3; 0; 0x58; 2; 0; 0]) 1024 (
  place (replicate 512 65) 2048 (place (replicate 512 66) 3072 (λ _, 0))))).

Definition boot_vfs : vstate kmem (Z → Z) :=
  {| vfat := {| fpp := {| pp_mem := {| dmem := kmem_of (replicate 40 Free); ddev := boot_image;
                                       dsk := demo_disk; streams := ∅ |};
                          roots := ∅; parts := ∅; strs := ∅ |};
                privs := ∅; dirs := ∅; dirbufs := ∅; ditems := ∅; fitems := ∅; fdescs := ∅ |};
     fat16_fs_name := replicate 20 0; filesystems := replicate 12 Fat16Fs;
     file_descriptors := replicate 512 7; fd_objs := ∅ |}.

(** The file layer from its initialisation on: register the driver, mount the
    disk, open the file, ask for its size, read it and close it. *)
Example boot_mount_and_read :
  (λ r, r.1) <$> (fs_init;; disk_search_and_init 20;;
    fd ← fopen 20 (text "0:/hello.txt") (text "r");
    st ← fstat fd; r ← fread 600 1 fd; c ← fclose fd; gone ← fread 1 1 fd;
    mret (fd, st, r, c, gone.1)) boot_vfs =
  Done (1, (0, Some {| stat_flags := 0; stat_filesize := 600 |}),
        (1, replicate 512 65 ++ replicate 88 66), 0, - EINVARG).
Proof. by vm_compute. Qed.
