(* ===== verification/System.v ===== *)
(** * The state of the running kernel

    The data structures of task/task.h, task/process.h, loader/formats/elfloader.h
    and idt/idt.h, and the record of all the globals that the upper half of
    the kernel works on: the file layer with the memory below it, the tasks, the
    processes, the loaded ELF files, the keyboard, the interrupt tables and the
    registers of the CPU that the code sets.

    Structures that the code only reaches through typed pointers (tasks,
    processes, ELF file handles) are objects of a store, keyed by their address;
    a dangling or null pointer has no object.  What is read or written at raw
    addresses (program images, user memory, argument vectors) is in [ram]. *)

From S2P Require Import Prelude Config CString Terminal Heap Kheap Paging Idt Keyboard PathParser Disk Fat16 FatLookup File.

Local Open Scope Z_scope.

#[export] Instance pstate_allocator : Allocator pstate :=
  allocator_lift pmem set_pmem (λ m t, eq_refl) ltac:(by intros []).

(** ** Structures *)

Record registers := {
  r_edi : Z;
  r_esi : Z;
  r_ebp : Z;
  r_ebx : Z;
  r_edx : Z;
  r_ecx : Z;
  r_eax : Z;
  r_ip : Z;
  r_cs : Z;
  r_flags : Z;
  r_esp : Z;
  r_ss : Z
}.

(** The frame the interrupt entry points push. *)
Record interrupt_frame := {
  f_edi : Z;
  f_esi : Z;
  f_ebp : Z;
  f_reserved : Z;
  f_ebx : Z;
  f_edx : Z;
  f_ecx : Z;
  f_eax : Z;
  f_ip : Z;
  f_cs : Z;
  f_flags : Z;
  f_esp : Z;
  f_ss : Z
}.

Record task := {
  page_directory : Z;
  task_registers : registers;
  task_process : Z;
  task_next_ptr : Z;
  task_prev : Z
}.

Definition set_page_directory (x : Z) (s : task) : task :=
  {| page_directory := x; task_registers := task_registers s; task_process := task_process s;
     task_next_ptr := task_next_ptr s; task_prev := task_prev s |}.
Definition set_task_registers (x : registers) (s : task) : task :=
  {| page_directory := page_directory s; task_registers := x; task_process := task_process s;
     task_next_ptr := task_next_ptr s; task_prev := task_prev s |}.
Definition set_task_process (x : Z) (s : task) : task :=
  {| page_directory := page_directory s; task_registers := task_registers s; task_process := x;
     task_next_ptr := task_next_ptr s; task_prev := task_prev s |}.
Definition set_task_next_ptr (x : Z) (s : task) : task :=
  {| page_directory := page_directory s; task_registers := task_registers s;
     task_process := task_process s; task_next_ptr := x; task_prev := task_prev s |}.
Definition set_task_prev (x : Z) (s : task) : task :=
  {| page_directory := page_directory s; task_registers := task_registers s;
     task_process := task_process s; task_next_ptr := task_next_ptr s; task_prev := x |}.

Definition sizeof_task : Z := 64.

Definition no_registers : registers :=
  {| r_edi := 0; r_esi := 0; r_ebp := 0; r_ebx := 0; r_edx := 0; r_ecx := 0; r_eax := 0;
     r_ip := 0; r_cs := 0; r_flags := 0; r_esp := 0; r_ss := 0 |}.

(** The fields of [struct elf_file] that the code uses. *)
Record elf_file := {
  elf_mem : Z;
  virtual_base_address : Z;
  virtual_end_address : Z;
  physical_base_address : Z;
  physical_end_address : Z
}.

Definition set_elf_mem (x : Z) (s : elf_file) : elf_file :=
  {| elf_mem := x; virtual_base_address := virtual_base_address s;
     virtual_end_address := virtual_end_address s;
     physical_base_address := physical_base_address s;
     physical_end_address := physical_end_address s |}.
Definition set_virtual_base_address (x : Z) (s : elf_file) : elf_file :=
  {| elf_mem := elf_mem s; virtual_base_address := x;
     virtual_end_address := virtual_end_address s;
     physical_base_address := physical_base_address s;
     physical_end_address := physical_end_address s |}.
Definition set_virtual_end_address (x : Z) (s : elf_file) : elf_file :=
  {| elf_mem := elf_mem s; virtual_base_address := virtual_base_address s;
     virtual_end_address := x; physical_base_address := physical_base_address s;
     physical_end_address := physical_end_address s |}.
Definition set_physical_base_address (x : Z) (s : elf_file) : elf_file :=
  {| elf_mem := elf_mem s; virtual_base_address := virtual_base_address s;
     virtual_end_address := virtual_end_address s; physical_base_address := x;
     physical_end_address := physical_end_address s |}.
Definition set_physical_end_address (x : Z) (s : elf_file) : elf_file :=
  {| elf_mem := elf_mem s; virtual_base_address := virtual_base_address s;
     virtual_end_address := virtual_end_address s;
     physical_base_address := physical_base_address s; physical_end_address := x |}.

Definition sizeof_elf_file : Z := 132.

Definition PROCESS_FILETYPE_ELF : Z := 0.
Definition PROCESS_FILETYPE_BINARY : Z := 1.

(** [ptr] and [elf_file] are one union; the keyboard buffer of the structure is
    never used. *)
Record process_allocation := { alloc_ptr : Z; alloc_size : Z }.

Record process := {
  process_id : Z;
  process_filename : list Z;
  process_task : Z;
  allocations : list process_allocation;
  filetype : Z;
  process_ptr : Z;
  process_stack : Z;
  process_size : Z;
  process_argc : Z;
  process_argv : Z
}.

Definition set_process_id (x : Z) (s : process) : process :=
  {| process_id := x; process_filename := process_filename s; process_task := process_task s;
     allocations := allocations s; filetype := filetype s; process_ptr := process_ptr s;
     process_stack := process_stack s; process_size := process_size s;
     process_argc := process_argc s; process_argv := process_argv s |}.
Definition set_process_filename (x : list Z) (s : process) : process :=
  {| process_id := process_id s; process_filename := x; process_task := process_task s;
     allocations := allocations s; filetype := filetype s; process_ptr := process_ptr s;
     process_stack := process_stack s; process_size := process_size s;
     process_argc := process_argc s; process_argv := process_argv s |}.
Definition set_process_task (x : Z) (s : process) : process :=
  {| process_id := process_id s; process_filename := process_filename s; process_task := x;
     allocations := allocations s; filetype := filetype s; process_ptr := process_ptr s;
     process_stack := process_stack s; process_size := process_size s;
     process_argc := process_argc s; process_argv := process_argv s |}.
Definition set_allocations (x : list process_allocation) (s : process) : process :=
  {| process_id := process_id s; process_filename := process_filename s;
     process_task := process_task s; allocations := x; filetype := filetype s;
     process_ptr := process_ptr s; process_stack := process_stack s;
     process_size := process_size s; process_argc := process_argc s;
     process_argv := process_argv s |}.
Definition set_filetype (x : Z) (s : process) : process :=
  {| process_id := process_id s; process_filename := process_filename s;
     process_task := process_task s; allocations := allocations s; filetype := x;
     process_ptr := process_ptr s; process_stack := process_stack s;
     process_size := process_size s; process_argc := process_argc s;
     process_argv := process_argv s |}.
Definition set_process_ptr (x : Z) (s : process) : process :=
  {| process_id := process_id s; process_filename := process_filename s;
     process_task := process_task s; allocations := allocations s; filetype := filetype s;
     process_ptr := x; process_stack := process_stack s; process_size := process_size s;
     process_argc := process_argc s; process_argv := process_argv s |}.
Definition set_process_stack (x : Z) (s : process) : process :=
  {| process_id := process_id s; process_filename := process_filename s;
     process_task := process_task s; allocations := allocations s; filetype := filetype s;
     process_ptr := process_ptr s; process_stack := x; process_size := process_size s;
     process_argc := process_argc s; process_argv := process_argv s |}.
Definition set_process_size (x : Z) (s : process) : process :=
  {| process_id := process_id s; process_filename := process_filename s;
     process_task := process_task s; allocations := allocations s; filetype := filetype s;
     process_ptr := process_ptr s; process_stack := process_stack s; process_size := x;
     process_argc := process_argc s; process_argv := process_argv s |}.
Definition set_process_argc (x : Z) (s : process) : process :=
  {| process_id := process_id s; process_filename := process_filename s;
     process_task := process_task s; allocations := allocations s; filetype := filetype s;
     process_ptr := process_ptr s; process_stack := process_stack s;
     process_size := process_size s; process_argc := x; process_argv := process_argv s |}.
Definition set_process_argv (x : Z) (s : process) : process :=
  {| process_id := process_id s; process_filename := process_filename s;
     process_task := process_task s; allocations := allocations s; filetype := filetype s;
     process_ptr := process_ptr s; process_stack := process_stack s;
     process_size := process_size s; process_argc := process_argc s; process_argv := x |}.

Definition sizeof_process : Z := 9364.

Definition zero_process : process :=
  {| process_id := 0; process_filename := replicate (Z.to_nat VANA_MAX_PATH) 0; process_task := 0;
     allocations := replicate (Z.to_nat VANA_MAX_PROGRAM_ALLOCATIONS) {| alloc_ptr := 0; alloc_size := 0 |};
     filetype := 0; process_ptr := 0; process_stack := 0; process_size := 0;
     process_argc := 0; process_argv := 0 |}.

(** The registers of the CPU that the C code and the assembly helpers set: the
    selector in the data segment registers, the interrupt flag, the GDT and task
    registers. *)
Definition KernelSegments : Z := 0x10.
Definition UserSegments : Z := 0x23.

Record cpu := { data_segments : Z; interrupts_on : bool; gdtr : Z * Z; tr : Z }.

(** What a routine that may leave the kernel does: return a value, or enter user
    mode with the given registers and never return. *)
Inductive flow := Returns (v : Z) | EntersUser (regs : registers).

(** ** The state *)

Section system.
Context {D : Type}.

Record kstate := {
  kvfs : vstate pstate D;
  elf_files : gmap Z elf_file;
  tasks : gmap Z task;
  current_task : Z;
  task_tail : Z;
  task_head : Z;
  procs : gmap Z process;
  processes : list Z;
  current_process : Z;
  kernel_chunk : Z;
  kcpu : cpu;
  kkbd : kbd_state unit;
  gdt_real : list (list Z);
  tss_stack : Z * Z
}.

Definition set_kvfs (x : vstate pstate D) (s : kstate) : kstate :=
  {| kvfs := x; elf_files := elf_files s; tasks := tasks s; current_task := current_task s;
     task_tail := task_tail s; task_head := task_head s; procs := procs s;
     processes := processes s; current_process := current_process s;
     kernel_chunk := kernel_chunk s; kcpu := kcpu s; kkbd := kkbd s; gdt_real := gdt_real s;
     tss_stack := tss_stack s |}.
Definition set_elf_files (x : gmap Z elf_file) (s : kstate) : kstate :=
  {| kvfs := kvfs s; elf_files := x; tasks := tasks s; current_task := current_task s;
     task_tail := task_tail s; task_head := task_head s; procs := procs s;
     processes := processes s; current_process := current_process s;
     kernel_chunk := kernel_chunk s; kcpu := kcpu s; kkbd := kkbd s; gdt_real := gdt_real s;
     tss_stack := tss_stack s |}.
Definition set_tasks (x : gmap Z task) (s : kstate) : kstate :=
  {| kvfs := kvfs s; elf_files := elf_files s; tasks := x; current_task := current_task s;
     task_tail := task_tail s; task_head := task_head s; procs := procs s;
     processes := processes s; current_process := current_process s;
     kernel_chunk := kernel_chunk s; kcpu := kcpu s; kkbd := kkbd s; gdt_real := gdt_real s;
     tss_stack := tss_stack s |}.
Definition set_current_task (x : Z) (s : kstate) : kstate :=
  {| kvfs := kvfs s; elf_files := elf_files s; tasks := tasks s; current_task := x;
     task_tail := task_tail s; task_head := task_head s; procs := procs s;
     processes := processes s; current_process := current_process s;
     kernel_chunk := kernel_chunk s; kcpu := kcpu s; kkbd := kkbd s; gdt_real := gdt_real s;
     tss_stack := tss_stack s |}.
Definition set_task_tail (x : Z) (s : kstate) : kstate :=
  {| kvfs := kvfs s; elf_files := elf_files s; tasks := tasks s; current_task := current_task s;
     task_tail := x; task_head := task_head s; procs := procs s; processes := processes s;
     current_process := current_process s; kernel_chunk := kernel_chunk s; kcpu := kcpu s;
     kkbd := kkbd s; gdt_real := gdt_real s; tss_stack := tss_stack s |}.
Definition set_task_head (x : Z) (s : kstate) : kstate :=
  {| kvfs := kvfs s; elf_files := elf_files s; tasks := tasks s; current_task := current_task s;
     task_tail := task_tail s; task_head := x; procs := procs s; processes := processes s;
     current_process := current_process s; kernel_chunk := kernel_chunk s; kcpu := kcpu s;
     kkbd := kkbd s; gdt_real := gdt_real s; tss_stack := tss_stack s |}.
Definition set_procs (x : gmap Z process) (s : kstate) : kstate :=
  {| kvfs := kvfs s; elf_files := elf_files s; tasks := tasks s; current_task := current_task s;
     task_tail := task_tail s; task_head := task_head s; procs := x; processes := processes s;
     current_process := current_process s; kernel_chunk := kernel_chunk s; kcpu := kcpu s;
     kkbd := kkbd s; gdt_real := gdt_real s; tss_stack := tss_stack s |}.
Definition set_processes (x : list Z) (s : kstate) : kstate :=
  {| kvfs := kvfs s; elf_files := elf_files s; tasks := tasks s; current_task := current_task s;
     task_tail := task_tail s; task_head := task_head s; procs := procs s; processes := x;
     current_process := current_process s; kernel_chunk := kernel_chunk s; kcpu := kcpu s;
     kkbd := kkbd s; gdt_real := gdt_real s; tss_stack := tss_stack s |}.
Definition set_current_process (x : Z) (s : kstate) : kstate :=
  {| kvfs := kvfs s; elf_files := elf_files s; tasks := tasks s; current_task := current_task s;
     task_tail := task_tail s; task_head := task_head s; procs := procs s;
     processes := processes s; current_process := x; kernel_chunk := kernel_chunk s;
     kcpu := kcpu s; kkbd := kkbd s; gdt_real := gdt_real s; tss_stack := tss_stack s |}.
Definition set_kernel_chunk (x : Z) (s : kstate) : kstate :=
  {| kvfs := kvfs s; elf_files := elf_files s; tasks := tasks s; current_task := current_task s;
     task_tail := task_tail s; task_head := task_head s; procs := procs s;
     processes := processes s; current_process := current_process s; kernel_chunk := x;
     kcpu := kcpu s; kkbd := kkbd s; gdt_real := gdt_real s; tss_stack := tss_stack s |}.
Definition set_kcpu (x : cpu) (s : kstate) : kstate :=
  {| kvfs := kvfs s; elf_files := elf_files s; tasks := tasks s; current_task := current_task s;
     task_tail := task_tail s; task_head := task_head s; procs := procs s;
     processes := processes s; current_process := current_process s;
     kernel_chunk := kernel_chunk s; kcpu := x; kkbd := kkbd s; gdt_real := gdt_real s;
     tss_stack := tss_stack s |}.
Definition set_kkbd (x : kbd_state unit) (s : kstate) : kstate :=
  {| kvfs := kvfs s; elf_files := elf_files s; tasks := tasks s; current_task := current_task s;
     task_tail := task_tail s; task_head := task_head s; procs := procs s;
     processes := processes s; current_process := current_process s;
     kernel_chunk := kernel_chunk s; kcpu := kcpu s; kkbd := x; gdt_real := gdt_real s;
     tss_stack := tss_stack s |}.
Definition set_gdt_real (x : list (list Z)) (s : kstate) : kstate :=
  {| kvfs := kvfs s; elf_files := elf_files s; tasks := tasks s; current_task := current_task s;
     task_tail := task_tail s; task_head := task_head s; procs := procs s;
     processes := processes s; current_process := current_process s;
     kernel_chunk := kernel_chunk s; kcpu := kcpu s; kkbd := kkbd s; gdt_real := x;
     tss_stack := tss_stack s |}.
Definition set_tss_stack (x : Z * Z) (s : kstate) : kstate :=
  {| kvfs := kvfs s; elf_files := elf_files s; tasks := tasks s; current_task := current_task s;
     task_tail := task_tail s; task_head := task_head s; procs := procs s;
     processes := processes s; current_process := current_process s;
     kernel_chunk := kernel_chunk s; kcpu := kcpu s; kkbd := kkbd s; gdt_real := gdt_real s;
     tss_stack := x |}.

(** *** The parts of the state *)

Definition kpaging (s : kstate) : pstate := dmem (fds (vfat (kvfs s))).
Definition set_kpaging (p : pstate) (s : kstate) : kstate :=
  set_kvfs (set_vfat (with_heap p (vfat (kvfs s))) (kvfs s)) s.

Definition kram (s : kstate) : memory := ram (pmem (kpaging s)).
Definition set_kram (m : memory) (s : kstate) : kstate :=
  set_kpaging (set_pmem (set_ram m (pmem (kpaging s))) (kpaging s)) s.

Definition in_vfs {A} (m : M (vstate pstate D) A) : M kstate A := zoom kvfs set_kvfs m.
Definition in_paging {A} (m : M pstate A) : M kstate A := zoom kpaging set_kpaging m.
Definition in_heap {A} (m : M kmem A) : M kstate A := in_paging (in_kmem m).
Definition in_console {A} (m : M terminal A) : M kstate A := in_heap (zoom console set_console m).

(** The keyboard driver shares the ports of the machine with the disk. *)
Definition kbd_of (s : kstate) : kbd_state D :=
  {| kbuffer := kbuffer (kkbd s); keyboard_list_head := keyboard_list_head (kkbd s);
     keyboard_list_last := keyboard_list_last (kkbd s); keyboards := keyboards (kkbd s);
     kidt := kidt (kkbd s); kdev := ddev (fds (vfat (kvfs s))) |}.
Definition set_device (d : D) (s : kstate) : kstate :=
  set_kvfs (set_vfat (set_fds (set_ddev d (fds (vfat (kvfs s)))) (vfat (kvfs s))) (kvfs s)) s.
Definition set_kbd_of (k : kbd_state D) (s : kstate) : kstate :=
  set_device (kdev k) (set_kkbd
    {| kbuffer := kbuffer k; keyboard_list_head := keyboard_list_head k;
       keyboard_list_last := keyboard_list_last k; keyboards := keyboards k;
       kidt := kidt k; kdev := tt |} s).

Definition in_kbd {A} (m : M (kbd_state D) A) : M kstate A := zoom kbd_of set_kbd_of m.
Definition in_idt {A} (m : M idt_state A) : M kstate A := in_kbd (zoom kidt set_kidt m).
Definition in_ports {A} (m : M D A) : M kstate A := in_kbd (zoom kdev set_kdev m).

(** [panic]: the message is printed and the machine stops. *)
Definition kpanic {A} (msg : list Z) : M kstate A := in_console (kernel_panic msg).

(** Objects. *)
Definition get_obj {X} (store : kstate → gmap Z X) (p : Z) : M kstate X := λ s,
  match store s !! p with Some x => Done (x, s) | None => Undef end.
Definition get_task : Z → M kstate task := get_obj tasks.
Definition get_process : Z → M kstate process := get_obj procs.
Definition get_elf : Z → M kstate elf_file := get_obj elf_files.

Lemma bind_get_obj {X B} (store : kstate → gmap Z X) (p : Z) x (f : X → M kstate B) s :
  store s !! p = Some x → (get_obj store p ≫= f) s = f x s.
Proof. intros E. unfold get_obj, mbind, M_bind. by rewrite E. Qed.

Definition update_task (p : Z) (f : task → task) : M kstate unit :=
  x ← get_task p; modify (λ s, set_tasks (<[p := f x]> (tasks s)) s).
Definition update_process (p : Z) (f : process → process) : M kstate unit :=
  x ← get_process p; modify (λ s, set_procs (<[p := f x]> (procs s)) s).
Definition update_elf (p : Z) (f : elf_file → elf_file) : M kstate unit :=
  x ← get_elf p; modify (λ s, set_elf_files (<[p := f x]> (elf_files s)) s).

(** ** Memory through the MMU

    [mmu m dir v] is the physical address of [v] under the page directory at
    [dir]; it has none when a present bit is missing (the kernel runs in ring 0
    with CR0.WP clear, so the other bits do not matter to it). *)
Definition mmu (m : memory) (dir v : Z) : option Z :=
  let pde := load32 m (u32 (dir + 4 * (u32 v / 2 ^ 22))) in
  if Z.testbit pde 0 then
    let entry := load32 m (u32 (Z.land pde 0xfffff000 + 4 * (u32 v / PAGING_PAGE_SIZE mod 1024))) in
    if Z.testbit entry 0 then Some (Z.land entry 0xfffff000 + u32 v mod PAGING_PAGE_SIZE) else None
  else None.

(** A byte access of the running kernel: a page fault is outside the model. *)
Definition vaddr (v : Z) : M kstate Z := λ s,
  match mmu (kram s) (cr3 (kpaging s)) v with Some a => Done (a, s) | None => Undef end.
Definition vread (v : Z) : M kstate Z := a ← vaddr v; gets (λ s, kram s a).
Definition vwrite (v c : Z) : M kstate unit :=
  a ← vaddr v; modify (λ s, set_kram (store_bytes (kram s) a [c]) s).

(** Access through a pointer that must not be null, under the identity mapping
    of the kernel. *)
Definition store_at (p : Z) (bytes : list Z) : M kstate unit :=
  if (p =? 0) && negb (bool_decide (bytes = [])) then undef
  else modify (λ s, set_kram (store_bytes (kram s) p bytes) s).
End system.

Arguments kstate D : clear implicits.

(** A kernel with the memory [p] and nothing else, for the examples. *)
Definition demo_kernel (p : pstate) : kstate (Z → Z) :=
  {| kvfs := {| vfat := {| fpp := {| pp_mem := {| dmem := p; ddev := λ _, 0; dsk := demo_disk; streams := ∅ |};
                                     roots := ∅; parts := ∅; strs := ∅ |};
                           privs := ∅; dirs := ∅; dirbufs := ∅; ditems := ∅; fitems := ∅; fdescs := ∅ |};
                fat16_fs_name := []; filesystems := []; file_descriptors := []; fd_objs := ∅ |};
     elf_files := ∅; tasks := ∅; current_task := 0; task_tail := 0; task_head := 0; procs := ∅;
     processes := replicate 12 0; current_process := 0; kernel_chunk := 0;
     kcpu := {| data_segments := KernelSegments; interrupts_on := false; gdtr := (0, 0); tr := 0 |};
     kkbd := {| kbuffer := ring_empty; keyboard_list_head := 0; keyboard_list_last := 0; keyboards := ∅;
                kidt := idt_blank; kdev := tt |};
     gdt_real := []; tss_stack := (0, 0) |}.
