(* ===== verification/Elf.v ===== *)
(** * ELF executables: loader/formats/elf.c and loader/formats/elfloader.c

    The accessors and checks on an ELF header that lies in memory, the pass over
    the program headers that computes where the image begins and ends, and
    [elf_load], which brings a file from disk to memory. *)

From S2P Require Import Prelude Config CString Terminal Heap Kheap Paging Idt Keyboard PathParser Disk Fat16 FatLookup File System.

Local Open Scope Z_scope.

Definition load16 (m : memory) (p : Z) : Z := m p + m (p + 1) * 2 ^ 8.

(** ** The structures of elf.h, read at an address *)

Definition PF_W : Z := 0x02.
Definition PT_LOAD : Z := 1.
Definition ET_EXEC : Z := 2.
Definition EI_CLASS : Z := 4.
Definition EI_DATA : Z := 5.
Definition ELFCLASSNONE : Z := 0.
Definition ELFCLASS32 : Z := 1.
Definition ELFDATANONE : Z := 0.
Definition ELFDATA2LSB : Z := 1.

Definition e_ident (m : memory) (h i : Z) : Z := m (h + i).
Definition e_type (m : memory) (h : Z) : Z := load16 m (h + 16).
Definition e_entry (m : memory) (h : Z) : Z := load32 m (h + 24).
Definition e_phoff (m : memory) (h : Z) : Z := load32 m (h + 28).
Definition e_shoff (m : memory) (h : Z) : Z := load32 m (h + 32).
Definition e_phnum (m : memory) (h : Z) : Z := load16 m (h + 44).
Definition e_shstrndx (m : memory) (h : Z) : Z := load16 m (h + 50).

Definition sizeof_elf32_phdr : Z := 32.
Definition p_type (m : memory) (p : Z) : Z := load32 m p.
Definition p_offset (m : memory) (p : Z) : Z := load32 m (p + 4).
Definition p_vaddr (m : memory) (p : Z) : Z := load32 m (p + 8).
Definition p_filesz (m : memory) (p : Z) : Z := load32 m (p + 16).
Definition p_memsz (m : memory) (p : Z) : Z := load32 m (p + 20).
Definition p_flags (m : memory) (p : Z) : Z := load32 m (p + 24).

Definition sizeof_elf32_shdr : Z := 40.
Definition sh_offset (m : memory) (p : Z) : Z := load32 m (p + 16).

(** ** Accessors *)

Definition elf_get_entry_ptr (m : memory) (elf_header : Z) : Z := e_entry m elf_header.
Definition elf_get_entry (m : memory) (elf_header : Z) : Z := e_entry m elf_header.

Definition elf_signature : list Z := [0x7f; 69; 76; 70].

Definition elf_valid_signature (m : memory) (buffer : Z) : option bool :=
  r ← memcmp (load_bytes m buffer 4) elf_signature 4; Some (r =? 0).

Definition elf_valid_class (m : memory) (header : Z) : bool :=
  (e_ident m header EI_CLASS =? ELFCLASSNONE) || (e_ident m header EI_CLASS =? ELFCLASS32).

Definition elf_valid_encoding (m : memory) (header : Z) : bool :=
  (e_ident m header EI_DATA =? ELFDATANONE) || (e_ident m header EI_DATA =? ELFDATA2LSB).

Definition elf_is_executable (m : memory) (header : Z) : bool :=
  (e_type m header =? ET_EXEC) && (VANA_PROGRAM_VIRTUAL_ADDRESS <=? e_entry m header).

Definition elf_has_program_header (m : memory) (header : Z) : bool := negb (e_phoff m header =? 0).

Definition elf_memory (file : elf_file) : Z := elf_mem file.
Definition elf_header (file : elf_file) : Z := elf_mem file.

Definition elf_sheader (m : memory) (header : Z) : Z := u32 (header + e_shoff m header).

Definition elf_pheader (m : memory) (header : Z) : Z :=
  if e_phoff m header =? 0 then 0 else u32 (header + e_phoff m header).

Definition elf_program_header (m : memory) (header index : Z) : Z :=
  u32 (elf_pheader m header + index * sizeof_elf32_phdr).

Definition elf_section (m : memory) (header index : Z) : Z :=
  u32 (elf_sheader m header + index * sizeof_elf32_shdr).

Definition elf_phdr_phys_address (m : memory) (file : elf_file) (phdr : Z) : Z :=
  u32 (elf_memory file + p_offset m phdr).

Definition elf_str_table (m : memory) (header : Z) : Z :=
  u32 (header + sh_offset m (elf_section m header (e_shstrndx m header))).

Definition elf_virtual_base (file : elf_file) : Z := virtual_base_address file.
Definition elf_virtual_end (file : elf_file) : Z := virtual_end_address file.
Definition elf_phys_base (file : elf_file) : Z := physical_base_address file.
Definition elf_phys_end (file : elf_file) : Z := physical_end_address file.

(** ** Validation and program headers *)

Definition elf_validate_loaded (m : memory) (header : Z) : option Z :=
  sig ← elf_valid_signature m header;
  Some (if sig && elf_valid_class m header && elf_valid_encoding m header &&
           elf_has_program_header m header && elf_is_executable m header
        then VANA_ALL_OK else - EINFORMAT).

Definition elf_process_phdr_pt_load (m : memory) (phdr : Z) (f : elf_file) : elf_file :=
  let f :=
    if (p_vaddr m phdr <=? virtual_base_address f) || (virtual_base_address f =? 0x00)
    then set_physical_base_address (u32 (elf_memory f + p_offset m phdr))
           (set_virtual_base_address (p_vaddr m phdr) f)
    else f in
  let end_virtual_address := u32 (p_vaddr m phdr + p_filesz m phdr) in
  if (virtual_end_address f <=? end_virtual_address) || (virtual_end_address f =? 0x00)
  then set_physical_end_address (u32 (elf_memory f + p_offset m phdr + p_filesz m phdr))
         (set_virtual_end_address end_virtual_address f)
  else f.

Definition elf_process_pheader (m : memory) (phdr : Z) (f : elf_file) : elf_file :=
  if p_type m phdr =? PT_LOAD then elf_process_phdr_pt_load m phdr f else f.

(** The loop over the [n] headers from index [i]; the status is always 0. *)
Fixpoint pheaders_loop (m : memory) (n : nat) (i : Z) (f : elf_file) : elf_file :=
  match n with
  | O => f
  | S n => pheaders_loop m n (i + 1)
             (elf_process_pheader m (elf_program_header m (elf_header f) i) f)
  end.

Definition elf_process_pheaders (m : memory) (f : elf_file) : elf_file :=
  pheaders_loop m (Z.to_nat (e_phnum m (elf_header f))) 0 f.

(** The status and the handle after the call. *)
Definition elf_process_loaded (m : memory) (f : elf_file) : option (Z * elf_file) :=
  res ← elf_validate_loaded m (elf_header f);
  if res <? 0 then Some (res, f) else Some (0, elf_process_pheaders m f).

(** ** Loading *)

Section elf.
Context {D : Type} `{BlockDevice D}.

Definition elf_file_free (p : Z) : M (kstate D) unit :=
  f ← get_elf p;
  (if negb (elf_mem f =? 0) then in_heap (kfree (elf_mem f)) else mret tt);;
  in_heap (kfree p);;
  modify (λ s, set_elf_files (delete p (elf_files s)) s).

Definition elf_file_new : M (kstate D) Z :=
  p ← in_heap (kzalloc sizeof_elf_file);
  (if p =? 0 then mret tt
   else modify (λ s, set_elf_files (<[p :=
     {| elf_mem := 0; virtual_base_address := 0; virtual_end_address := 0;
        physical_base_address := 0; physical_end_address := 0 |}]> (elf_files s)) s));;
  mret p.

(** The part of [elf_load] between [fopen] and [out]. *)
Definition elf_load_open (file fd : Z) : M (kstate D) Z :=
  r ← in_vfs (fstat fd);
  let '(res, st) := r in
  if res <? 0 then mret res
  else
    st ← liftO st;
    mem ← in_heap (kzalloc (stat_filesize st));
    update_elf file (set_elf_mem mem);;
    r ← in_vfs (fread (stat_filesize st) 1 fd);
    let '(res, bytes) := r in
    store_at mem bytes;;
    if res <? 0 then mret res
    else
      f ← get_elf file;
      m ← gets kram;
      r ← liftO (elf_process_loaded m f);
      update_elf file (λ _, r.2);;
      mret r.1.

(** The status, and the pointer stored at [file_out]. *)
Definition elf_load (fuel : nat) (filename : list Z) : M (kstate D) (Z * option Z) :=
  file ← elf_file_new;
  res ← in_vfs (fopen fuel filename (text "r"));
  let fd := if res <=? 0 then 0 else res in
  res ← (if res <=? 0 then mret (- EIO) else elf_load_open file fd);
  (if res <? 0 then elf_file_free file else mret tt);;
  in_vfs (fclose fd);;
  mret (res, if res <? 0 then None else Some file).

Definition elf_close (p : Z) : M (kstate D) unit :=
  if p =? 0 then mret tt
  else
    f ← get_elf p;
    in_heap (kfree (elf_mem f));;
    in_heap (kfree p);;
    modify (λ s, set_elf_files (delete p (elf_files s)) s).
End elf.

(** ** The checks *)

(** The headers the loader accepts. *)
Definition elf_acceptable (m : memory) (h : Z) : Prop :=
  load_bytes m h 4 = elf_signature ∧ m (h + 4) ∈ [0; 1] ∧ m (h + 5) ∈ [0; 1] ∧
  e_phoff m h ≠ 0 ∧ e_type m h = ET_EXEC ∧ VANA_PROGRAM_VIRTUAL_ADDRESS <= e_entry m h.

#[export] Instance elf_acceptable_dec m h : Decision (elf_acceptable m h).
Proof. unfold elf_acceptable. apply _. Defined.

Lemma in01 x : ((x =? 0) || (x =? 1)) = bool_decide (x ∈ [0; 1]).
Proof.
  apply eq_bool_prop_intro. rewrite bool_decide_spec, !elem_of_cons, orb_True, !Is_true_true, !Z.eqb_eq.
  split; [tauto|]. by intros [?|[?|?%elem_of_nil]]; auto.
Qed.

Lemma elf_signature_spec m h : (∀ a, is_u8 (m a)) →
  elf_valid_signature m h = Some (bool_decide (load_bytes m h 4 = elf_signature)).
Proof.
  intros Hm. unfold elf_valid_signature.
  change (load_bytes m h 4) with [m (h + 0); m (h + 1); m (h + 2); m (h + 3)].
  unfold memcmp, elf_signature. change (Z.to_nat 4) with 4%nat. cbn [memcmp_loop].
  change (s8 127) with 127. change (s8 69) with 69. change (s8 76) with 76. change (s8 70) with 70.
  rewrite !s8_special by (apply Hm || done || range).
  generalize (m (h + 0)) (m (h + 1)) (m (h + 2)) (m (h + 3)). intros a b c d.
  destruct (Z.eqb_spec a 127) as [->|]; [|by rewrite bool_decide_eq_false_2 by congruence; destruct (_ <? _)].
  destruct (Z.eqb_spec b 69) as [->|]; [|by rewrite bool_decide_eq_false_2 by congruence; destruct (_ <? _)].
  destruct (Z.eqb_spec c 76) as [->|]; [|by rewrite bool_decide_eq_false_2 by congruence; destruct (_ <? _)].
  destruct (Z.eqb_spec d 70) as [->|]; [done|by rewrite bool_decide_eq_false_2 by congruence; destruct (_ <? _)].
Qed.

Lemma elf_validate_spec m h : (∀ a, is_u8 (m a)) →
  elf_validate_loaded m h = Some (if decide (elf_acceptable m h) then VANA_ALL_OK else - EINFORMAT).
Proof.
  intros Hm. unfold elf_validate_loaded. rewrite elf_signature_spec by done. cbn [mbind option_bind]. f_equal.
  unfold elf_valid_class, elf_valid_encoding, elf_has_program_header, elf_is_executable, e_ident,
    EI_CLASS, EI_DATA, ELFCLASSNONE, ELFCLASS32, ELFDATANONE, ELFDATA2LSB. rewrite !in01.
  destruct (decide (elf_acceptable m h)) as [(H1 & H2 & H3 & H4 & H5 & H6)|Hn].
  - rewrite !bool_decide_eq_true_2 by done. rewrite H5, (proj2 (Z.eqb_neq _ _) H4), (proj2 (Z.leb_le _ _) H6). done.
  - destruct (bool_decide_reflect (load_bytes m h 4 = elf_signature)); [|done].
    destruct (bool_decide_reflect (m (h + 4) ∈ [0; 1])); [|done].
    destruct (bool_decide_reflect (m (h + 5) ∈ [0; 1])); [|done].
    destruct (Z.eqb_spec (e_phoff m h) 0); [done|]. destruct (Z.eqb_spec (e_type m h) ET_EXEC); [|done].
    destruct (Z.leb_spec VANA_PROGRAM_VIRTUAL_ADDRESS (e_entry m h)); [|done]. by destruct Hn.
Qed.

(** ** The extent of the image *)

(** The addresses of the loadable program headers among the first [n]. *)
Definition loadable (m : memory) (h : Z) (i n : Z) : list Z :=
  filter (λ p, p_type m p = PT_LOAD) (elf_program_header m h <$> seqZ i n).

Definition seg_end (m : memory) (p : Z) : Z := p_vaddr m p + p_filesz m p.

(** The handle [f] describes the smallest range that contains the segments [ps],
    and where its two ends lie in the file image. *)
Record elf_extent (m : memory) (f : elf_file) (ps : list Z) : Prop := {
  ex_base : ∃ p, p ∈ ps ∧ virtual_base_address f = p_vaddr m p ∧
                 physical_base_address f = u32 (elf_mem f + p_offset m p);
  ex_base_min : Forall (λ p, virtual_base_address f <= p_vaddr m p) ps;
  ex_end : ∃ p, p ∈ ps ∧ virtual_end_address f = seg_end m p ∧
                physical_end_address f = u32 (elf_mem f + p_offset m p + p_filesz m p);
  ex_end_max : Forall (λ p, seg_end m p <= virtual_end_address f) ps
}.

Definition seg_ok (m : memory) (p : Z) : Prop :=
  0 < p_vaddr m p ∧ 0 <= p_filesz m p ∧ seg_end m p < 2 ^ 32.

#[export] Instance seg_ok_dec m p : Decision (seg_ok m p).
Proof. unfold seg_ok. apply _. Defined.

Definition extent_or_none (m : memory) (f : elf_file) (ps : list Z) : Prop :=
  if decide (ps = []) then virtual_base_address f = 0 ∧ virtual_end_address f = 0 else elf_extent m f ps.

(** The two ends of the range are updated independently. *)
Lemma pt_load_fields m p f : seg_ok m p →
  let f' := elf_process_phdr_pt_load m p f in
  let lo := (p_vaddr m p <=? virtual_base_address f) || (virtual_base_address f =? 0) in
  let hi := (virtual_end_address f <=? seg_end m p) || (virtual_end_address f =? 0) in
  elf_mem f' = elf_mem f ∧
  virtual_base_address f' = (if lo then p_vaddr m p else virtual_base_address f) ∧
  physical_base_address f' = (if lo then u32 (elf_mem f + p_offset m p) else physical_base_address f) ∧
  virtual_end_address f' = (if hi then seg_end m p else virtual_end_address f) ∧
  physical_end_address f' =
    (if hi then u32 (elf_mem f + p_offset m p + p_filesz m p) else physical_end_address f).
Proof.
  intros (Hv & Hz & He). unfold elf_process_phdr_pt_load, elf_memory. cbv zeta.
  rewrite (u32_small (p_vaddr m p + p_filesz m p)) by (unfold seg_end in *; range). fold (seg_end m p).
  destruct (_ || (virtual_base_address f =? 0)); cbn;
    (destruct (_ || (virtual_end_address f =? 0)); cbn; done).
Qed.

Lemma pt_load_extent m f ps p : Forall (seg_ok m) ps → seg_ok m p → extent_or_none m f ps →
  extent_or_none m (elf_process_phdr_pt_load m p f) (ps ++ [p]).
Proof.
  intros Hps Hok Hx. pose proof Hok as (Hv & Hz & He).
  destruct (pt_load_fields m p f Hok) as (Em & Eb & Epb & Ee & Epe).
  assert (p ∈ ps ++ [p]) as Hin by (apply elem_of_app; right; by apply list_elem_of_singleton).
  unfold extent_or_none in *. rewrite decide_False by (by destruct ps).
  case_decide as Hnil.
  - destruct Hx as [Hb0 He0]. rewrite Hb0, orb_true_r in Eb, Epb. rewrite He0, orb_true_r in Ee, Epe.
    subst ps. split; [exists p|apply Forall_singleton|exists p|apply Forall_singleton]; rewrite ?Em; done || lia.
  - destruct Hx as [(q & Hq & Hqb & Hqp) Hmin (r & Hr & Hre & Hrp) Hmax].
    rewrite Forall_forall in Hps. destruct (Hps _ Hq) as [Hq0 _]. destruct (Hps _ Hr) as (Hr0 & Hr1 & _).
    rewrite (proj2 (Z.eqb_neq (virtual_base_address f) 0)), orb_false_r in Eb, Epb by lia.
    rewrite (proj2 (Z.eqb_neq (virtual_end_address f) 0)), orb_false_r in Ee, Epe by (unfold seg_end in *; lia).
    split.
    + rewrite Eb, Epb, Em. destruct (p_vaddr m p <=? virtual_base_address f); [by exists p|]. exists q. split; [|done]. apply elem_of_app. by left.
    + rewrite Eb. destruct (Z.leb_spec (p_vaddr m p) (virtual_base_address f)); apply Forall_app; split;
        try (apply Forall_singleton; lia); try done. eapply Forall_impl; [exact Hmin|]. simpl. intros; lia.
    + rewrite Ee, Epe, Em. destruct (virtual_end_address f <=? seg_end m p); [by exists p|]. exists r. split; [|done]. apply elem_of_app. by left.
    + rewrite Ee. destruct (Z.leb_spec (virtual_end_address f) (seg_end m p)); apply Forall_app; split;
        try (apply Forall_singleton; lia); try done. eapply Forall_impl; [exact Hmax|]. simpl. intros; lia.
Qed.

Lemma pheaders_loop_extent m h n i f ps : elf_mem f = h → Forall (seg_ok m) (ps ++ loadable m h i (Z.of_nat n)) →
  extent_or_none m f ps →
  extent_or_none m (pheaders_loop m n i f) (ps ++ loadable m h i (Z.of_nat n)) ∧
  elf_mem (pheaders_loop m n i f) = h.
Proof.
  revert i f ps. induction n as [|n IH]; intros i f ps Hf Hok Hx.
  { cbn. by rewrite app_nil_r. }
  cbn [pheaders_loop]. unfold elf_header. rewrite Hf.
  assert (loadable m h i (Z.of_nat (S n)) =
    (if decide (p_type m (elf_program_header m h i) = PT_LOAD) then [elf_program_header m h i] else []) ++
    loadable m h (i + 1) (Z.of_nat n)) as E.
  { unfold loadable. rewrite seqZ_cons by lia. replace (Z.pred (Z.of_nat (S n))) with (Z.of_nat n) by lia.
    rewrite fmap_cons, filter_cons. by destruct (decide _). }
  rewrite E in *. unfold elf_process_pheader. set (p := elf_program_header m h i) in *.
  destruct (decide (p_type m p = PT_LOAD)) as [Ht|Ht].
  - rewrite Ht. change (PT_LOAD =? PT_LOAD) with true. cbv iota. rewrite app_assoc in *. apply Forall_app in Hok as Hps. destruct Hps as [Hps _].
    apply Forall_app in Hps as [Hps Hp]. apply Forall_cons in Hp as [Hp _].
    apply IH; [|done|by apply pt_load_extent]. by destruct (pt_load_fields m p f Hp) as [-> _].
  - rewrite (proj2 (Z.eqb_neq _ _) Ht). by apply IH.
Qed.

Lemma pheaders_loop_mem m n i f : elf_mem (pheaders_loop m n i f) = elf_mem f.
Proof.
  revert i f. induction n as [|n IH]; intros i f; [done|]. cbn [pheaders_loop]. rewrite IH.
  unfold elf_process_pheader, elf_process_phdr_pt_load. by repeat (case_match; try done).
Qed.

(** C19: a loaded image is accepted exactly when it has the ELF signature, its
    class is 32-bit or none, its data encoding is little-endian or none, it is an
    executable with program headers and its entry point is at or above the program
    base; it is refused with [-EINFORMAT], and the handle left alone, otherwise.
    For an accepted image whose loadable segments lie above address zero and end
    below the top of the address space, the handle then describes the smallest
    range of virtual addresses that contains the file-backed part of every
    loadable segment, with the addresses in the image where its first and last
    segment begin and end; the range is empty when there is no loadable segment.
    The handle is new: its range is empty before. *)
Theorem elf_process_loaded_correct m f :
  (∀ a, is_u8 (m a)) → virtual_base_address f = 0 → virtual_end_address f = 0 →
  let h := elf_mem f in
  let segs := loadable m h 0 (e_phnum m h) in
  ∃ f', elf_process_loaded m f =
          Some (if decide (elf_acceptable m h) then (VANA_ALL_OK, f') else (- EINFORMAT, f)) ∧
        elf_mem f' = h ∧ (Forall (seg_ok m) segs → extent_or_none m f' segs).
Proof.
  intros Hm Hb He h segs. exists (elf_process_pheaders m f). split_and!.
  - unfold elf_process_loaded. change (elf_header f) with h. rewrite elf_validate_spec by done.
    cbn [mbind option_bind]. by destruct (decide (elf_acceptable m h)).
  - apply pheaders_loop_mem.
  - intros Hok. assert (0 <= e_phnum m h) as Hn
      by (unfold e_phnum, load16; pose proof (Hm (h + 44)); pose proof (Hm (h + 44 + 1)); range).
    destruct (pheaders_loop_extent m h (Z.to_nat (e_phnum m h)) 0 f []) as [Hx _];
      [done|by rewrite Z2Nat.id|by unfold extent_or_none|].
    by rewrite Z2Nat.id in Hx.
Qed.

(** An image with a data segment, a note and a text segment. *)
Definition demo_elf : list Z := [
  127; 69; 76; 70; 1; 1; 1; 0; 0; 0; 0; 0; 0; 0; 0; 0; 2; 0; 3; 0; 1; 0; 0; 0; 16; 0; 64; 0;
   52; 0; 0; 0; 0; 0; 0; 0; 0; 0; 0; 0; 52; 0; 32; 0; 3; 0; 40; 0; 0; 0; 0; 0; 1; 0; 0; 0; 0;
   32; 0; 0; 0; 16; 64; 0; 0; 16; 64; 0; 128; 0; 0; 0; 0; 1; 0; 0; 6; 0; 0; 0; 0; 16; 0; 0; 4;
   0; 0; 0; 0; 0; 0; 0; 0; 0; 0; 0; 0; 0; 0; 0; 0; 0; 0; 0; 0; 0; 0; 0; 4; 0; 0; 0; 0; 16; 0;
   0; 1; 0; 0; 0; 0; 16; 0; 0; 0; 0; 64; 0; 0; 0; 64; 0; 0; 2; 0; 0; 0; 2; 0; 0; 5; 0; 0; 0; 0;
   16; 0; 0].

Definition demo_elf_memory : memory := store_bytes (λ _, 0) 0x1001000 demo_elf.

Definition demo_elf_file : elf_file :=
  {| elf_mem := 0x1001000; virtual_base_address := 0; virtual_end_address := 0;
     physical_base_address := 0; physical_end_address := 0 |}.

Lemma elf_process_loaded_correct_witness :
  ∃ f', elf_process_loaded demo_elf_memory demo_elf_file =
          Some (if decide (elf_acceptable demo_elf_memory 0x1001000) then (VANA_ALL_OK, f')
                else (- EINFORMAT, demo_elf_file)) ∧
        elf_mem f' = 0x1001000 ∧
        (Forall (seg_ok demo_elf_memory) (loadable demo_elf_memory 0x1001000 0 3) →
         extent_or_none demo_elf_memory f' (loadable demo_elf_memory 0x1001000 0 3)).
Proof.
  apply (elf_process_loaded_correct demo_elf_memory demo_elf_file).
  - intros a. apply store_bytes_u8; [by intros|]. apply (bool_decide_unpack _). by vm_compute.
  - reflexivity.
  - reflexivity.
Defined.

(** The segments of the image lie where the loader expects them. *)
Example demo_elf_segments_ok : Forall (seg_ok demo_elf_memory) (loadable demo_elf_memory 0x1001000 0 3).
Proof. apply (bool_decide_unpack _). by vm_compute. Qed.

Example demo_elf_extent :
  elf_process_loaded demo_elf_memory demo_elf_file =
  Some (0, {| elf_mem := 0x1001000; virtual_base_address := 0x400000; virtual_end_address := 0x401080;
              physical_base_address := 0x1002000; physical_end_address := 0x1003080 |}).
Proof. by vm_compute. Qed.
