(* ===== verification/Task.v ===== *)
(** * Tasks: task/task.c, and the paging helpers of kernel.c and task.asm

    The list of tasks, the scheduler, the saved registers, and the access of the
    kernel to the memory of a task. *)

From S2P Require Import Prelude Config CString Terminal Heap Kheap Paging Idt Keyboard PathParser Disk Fat16 FatLookup File System Elf.

Local Open Scope Z_scope.

Section task.
Context {D : Type} `{BlockDevice D}.

(** ** Registers *)

Definition set_segments (g : Z) : M (kstate D) unit :=
  modify (λ s, set_kcpu {| data_segments := g; interrupts_on := interrupts_on (kcpu s);
                           gdtr := gdtr (kcpu s); tr := tr (kcpu s) |} s).

Definition kernel_registers : M (kstate D) unit := set_segments KernelSegments.
Definition user_registers : M (kstate D) unit := set_segments UserSegments.

Definition kernel_page : M (kstate D) unit :=
  kernel_registers;; c ← gets kernel_chunk; in_paging (paging_switch c).

(** [task_return] loads every register, the data segments from the selector of the
    stack, and leaves for ring 3 with interrupts enabled. *)
Definition task_return (regs : registers) : M (kstate D) flow :=
  modify (λ s, set_kcpu {| data_segments := u16 (r_ss regs); interrupts_on := true;
                           gdtr := gdtr (kcpu s); tr := tr (kcpu s) |} s);;
  mret (EntersUser
    {| r_edi := r_edi regs; r_esi := r_esi regs; r_ebp := r_ebp regs; r_ebx := r_ebx regs;
       r_edx := r_edx regs; r_ecx := r_ecx regs; r_eax := r_eax regs; r_ip := r_ip regs;
       r_cs := r_cs regs; r_flags := Z.lor (r_flags regs) 0x200; r_esp := r_esp regs;
       r_ss := r_ss regs |}).

(** ** The list of tasks *)

Definition task_get_next : M (kstate D) Z :=
  cur ← gets current_task;
  x ← get_task cur;
  if task_next_ptr x =? 0 then gets task_head else mret (task_next_ptr x).

Definition task_list_remove (t : Z) : M (kstate D) unit :=
  x ← get_task t;
  (if negb (task_prev x =? 0)
   then update_task (task_prev x) (set_task_next_ptr (task_next_ptr x)) else mret tt);;
  head ← gets task_head;
  x ← get_task t;
  (if t =? head then modify (set_task_head (task_next_ptr x)) else mret tt);;
  tail ← gets task_tail;
  (if t =? tail then modify (set_task_tail (task_prev x)) else mret tt);;
  cur ← gets current_task;
  (if t =? cur then n ← task_get_next; modify (set_current_task n) else mret tt).

Definition task_free (t : Z) : M (kstate D) Z :=
  x ← get_task t;
  in_paging (paging_free_4gb (page_directory x));;
  task_list_remove t;;
  in_heap (kfree t);;
  modify (λ s, set_tasks (delete t (tasks s)) s);;
  mret 0.

(** The union of a process holds its ELF file. *)
Definition task_init (t p : Z) : M (kstate D) Z :=
  modify (λ s, set_tasks (<[t := {| page_directory := 0; task_registers := no_registers;
                                    task_process := 0; task_next_ptr := 0; task_prev := 0 |}]> (tasks s)) s);;
  chunk ← in_paging (paging_new_4gb (Z.lor PAGING_IS_PRESENT PAGING_ACCESS_FROM_ALL));
  update_task t (set_page_directory chunk);;
  if chunk =? 0 then mret (- EIO)
  else
    x ← get_process p;
    entry ← (if filetype x =? PROCESS_FILETYPE_ELF then
               f ← get_elf (process_ptr x); m ← gets kram; mret (e_entry m (elf_header f))
             else mret VANA_PROGRAM_VIRTUAL_ADDRESS);
    update_task t (λ y, set_task_process p (set_task_registers
      {| r_edi := 0; r_esi := 0; r_ebp := 0; r_ebx := 0; r_edx := 0; r_ecx := 0; r_eax := 0;
         r_ip := entry; r_cs := USER_CODE_SEGMENT; r_flags := 0;
         r_esp := VANA_PROGRAM_VIRTUAL_STACK_ADDRESS_START; r_ss := USER_DATA_SEGMENT |} y));;
    mret 0.

(** Appending to the list. *)
Definition task_list_append (t : Z) : M (kstate D) unit :=
  head ← gets task_head;
  if head =? 0 then
    modify (set_task_head t);; modify (set_task_tail t);; modify (set_current_task t)
  else
    tail ← gets task_tail;
    update_task tail (set_task_next_ptr t);;
    update_task t (set_task_prev tail);;
    modify (set_task_tail t).

(** A task, or an error code as a pointer. *)
Definition task_new (p : Z) : M (kstate D) Z :=
  t ← in_heap (kzalloc sizeof_task);
  res ← (if t =? 0 then mret (- ENOMEM)
         else
           res ← task_init t p;
           if negb (res =? VANA_ALL_OK) then mret res else task_list_append t;; mret res);
  if ISERR res then task_free t;; mret (ERROR res) else mret t.

(** ** Switching *)

Definition task_switch (t : Z) : M (kstate D) Z :=
  modify (set_current_task t);;
  x ← get_task t;
  in_paging (paging_switch (page_directory x));;
  mret 0.

Definition task_next : M (kstate D) flow :=
  next_task ← task_get_next;
  (if next_task =? 0 then kpanic (line "No more tasks!") else mret tt);;
  task_switch next_task;;
  x ← get_task next_task;
  task_return (task_registers x).

Definition task_save_state (t : Z) (frame : interrupt_frame) : M (kstate D) unit :=
  update_task t (set_task_registers
    {| r_edi := f_edi frame; r_esi := f_esi frame; r_ebp := f_ebp frame; r_ebx := f_ebx frame;
       r_edx := f_edx frame; r_ecx := f_ecx frame; r_eax := f_eax frame; r_ip := f_ip frame;
       r_cs := f_cs frame; r_flags := f_flags frame; r_esp := f_esp frame; r_ss := f_ss frame |}).

Definition task_current_save_state (frame : interrupt_frame) : M (kstate D) unit :=
  cur ← gets current_task;
  (if cur =? 0 then kpanic (line "No current task to save") else mret tt);;
  task_save_state cur frame.

Definition task_page : M (kstate D) Z :=
  user_registers;; cur ← gets current_task; task_switch cur;; mret 0.

Definition task_page_task (t : Z) : M (kstate D) Z :=
  user_registers;; x ← get_task t; in_paging (paging_switch (page_directory x));; mret 0.

Definition task_run_first_ever_task : M (kstate D) flow :=
  cur ← gets current_task;
  (if cur =? 0 then kpanic (line "task_run_first_ever_task(): No current task exists!") else mret tt);;
  head ← gets task_head;
  task_switch head;;
  x ← get_task head;
  task_return (task_registers x).

(** ** The memory of a task *)

(** [strncpy] with both strings reached through the current page directory. *)
Fixpoint strncpy_user (n : nat) (dest src : Z) : M (kstate D) unit :=
  match n with
  | O => vwrite dest 0
  | S n =>
      c ← vread src;
      if c =? 0 then vwrite dest 0
      else vwrite dest c;; strncpy_user n (dest + 1) (src + 1)
  end.

(** The status and the buffer [phys] after the call. *)
Definition copy_string_from_task (t virtual : Z) (phys : list Z) (max : Z) : M (kstate D) (Z * list Z) :=
  if PAGING_PAGE_SIZE <=? max then mret (- EINVARG, phys)
  else
    tmp ← in_heap (kzalloc max);
    if tmp =? 0 then mret (- ENOMEM, phys)
    else
      x ← get_task t;
      task_directory ← in_paging (directory_entry (page_directory x));
      old_entry ← gets (λ s, paging_get (kram s) task_directory tmp);
      in_paging (paging_map (page_directory x) tmp tmp
        (Z.lor (Z.lor PAGING_IS_WRITEABLE PAGING_IS_PRESENT) PAGING_ACCESS_FROM_ALL));;
      in_paging (paging_switch (page_directory x));;
      strncpy_user (Z.to_nat (max - 1)) tmp virtual;;
      kernel_page;;
      m ← gets kram;
      let '(res, m) := paging_set m task_directory tmp old_entry in
      modify (set_kram m);;
      if res <? 0 then in_heap (kfree tmp);; mret (- EIO, phys)
      else
        phys ← liftO (strncpy phys (load_bytes m tmp max) max);
        in_heap (kfree tmp);;
        mret (res, phys).

(** A 32-bit load through the current page directory. *)
Definition vread32 (v : Z) : M (kstate D) Z :=
  a ← vread v; b ← vread (v + 1); c ← vread (v + 2); d ← vread (v + 3);
  mret (a + b * 2 ^ 8 + c * 2 ^ 16 + d * 2 ^ 24).

Definition task_get_stack_item (t index : Z) : M (kstate D) Z :=
  x ← get_task t;
  task_page_task t;;
  result ← vread32 (r_esp (task_registers x) + 4 * index);
  kernel_page;;
  mret result.

Definition task_virtual_address_to_physical (t virtual_address : Z) : M (kstate D) Z :=
  x ← get_task t;
  d ← in_paging (directory_entry (page_directory x));
  gets (λ s, paging_get_physical_address (kram s) d virtual_address).
End task.

(** ** The scheduler *)

Section schedule.
Context {D : Type} `{BlockDevice D}.
Implicit Types (s : kstate D) (ts : list Z).

(** The forward links of a list of tasks, ending in null. *)
Fixpoint links (T : gmap Z task) (ts : list Z) : Prop :=
  match ts with
  | [] => True
  | t :: ts => (∃ x, T !! t = Some x ∧ task_next_ptr x = default 0 (head ts)) ∧ links T ts
  end.

(** The run queue is [ts]: [task_head] and [task_tail] are its ends, the forward
    links follow it, and the running task is one of it. *)
Record queue s (ts : list Z) : Prop := {
  q_links : links (tasks s) ts;
  q_nodup : NoDup ts;
  q_nonnull : Forall (λ t, t ≠ 0) ts;
  q_head : task_head s = default 0 (head ts);
  q_tail : task_tail s = default 0 (last ts);
  q_current : current_task s ∈ ts
}.

(** The task after position [i], in turn. *)
Definition turn ts (i : nat) : Z := default 0 (ts !! (i mod length ts)%nat).

Lemma links_lookup T ts i t : links T ts → ts !! i = Some t →
  ∃ x, T !! t = Some x ∧ task_next_ptr x = default 0 (ts !! S i).
Proof.
  revert i. induction ts as [|u ts IH]; intros i Hl Hi; [done|]. destruct Hl as [Hu Hl].
  destruct i as [|i]; simpl in Hi; [|by apply IH]. simplify_eq.
  destruct Hu as (x & Hx & Hn). exists x. split; [done|]. simpl. by destruct ts.
Qed.

Lemma links_app T ts us : links T (ts ++ us) → links T us.
Proof. induction ts as [|t ts IH]; [done|]. simpl. intros [_ Hl]. by apply IH. Qed.

Lemma task_get_next_spec s ts i : queue s ts → ts !! i = Some (current_task s) →
  task_get_next s = Done (turn ts (S i), s).
Proof.
  intros Hq Hi. pose proof (lookup_lt_Some _ _ _ Hi) as Hlt.
  destruct (links_lookup _ _ _ _ (q_links _ _ Hq) Hi) as (x & Hx & Hn).
  unfold task_get_next, gets. erewrite bind_done; [|reflexivity].
  erewrite bind_done; [|unfold get_task, get_obj; rewrite Hx; reflexivity]. rewrite Hn. unfold turn.
  destruct (decide (S i < length ts)%nat) as [Hlen|Hlen].
  - rewrite Nat.mod_small by done. destruct (lookup_lt_is_Some_2 _ _ Hlen) as [u Hu]. rewrite Hu. simpl.
    assert (u ≠ 0) as Hu0.
    { pose proof (q_nonnull _ _ Hq) as Hnn. rewrite Forall_forall in Hnn. apply Hnn. by eapply list_elem_of_lookup_2. }
    by rewrite (proj2 (Z.eqb_neq u 0) Hu0).
  - rewrite lookup_ge_None_2 by lia. simpl. replace (S i) with (length ts) by lia.
    rewrite Nat.Div0.mod_same, (q_head _ _ Hq). by destruct ts.
Qed.

(** A task that can be switched to: its page directory is [dir]. *)
Definition runnable s (t : Z) (x : task) (dir : Z) : Prop :=
  tasks s !! t = Some x ∧ chunks (kpaging s) !! page_directory x = Some dir.

(** What entering a task changes. *)
Definition entered s (t : Z) (x : task) (dir : Z) : kstate D :=
  set_kcpu {| data_segments := u16 (r_ss (task_registers x)); interrupts_on := true; gdtr := gdtr (kcpu s); tr := tr (kcpu s) |}
    (set_kpaging (set_directory dir (kpaging s)) (set_current_task t s)).

Definition user_mode (r : registers) : registers :=
  {| r_edi := r_edi r; r_esi := r_esi r; r_ebp := r_ebp r; r_ebx := r_ebx r; r_edx := r_edx r;
     r_ecx := r_ecx r; r_eax := r_eax r; r_ip := r_ip r; r_cs := r_cs r;
     r_flags := Z.lor (r_flags r) 0x200; r_esp := r_esp r; r_ss := r_ss r |}.

Lemma task_switch_spec s t x dir : runnable s t x dir →
  task_switch t s = Done (0, set_kpaging (set_directory dir (kpaging s)) (set_current_task t s)).
Proof.
  intros [Ht Hd]. unfold task_switch. erewrite bind_done; [|reflexivity].
  erewrite bind_done; [|unfold get_task, get_obj; cbn; rewrite Ht; reflexivity].
  erewrite bind_done; [done|]. apply zoom_done. unfold paging_switch.
  erewrite bind_done; [|unfold directory_entry; change (kpaging (set_current_task t s)) with (kpaging s); rewrite Hd; reflexivity]. done.
Qed.

Lemma enter_spec s t x dir : runnable s t x dir →
  (task_switch t;; x ← get_task t; task_return (task_registers x)) s =
  Done (EntersUser (user_mode (task_registers x)), entered s t x dir).
Proof.
  intros Hr. rewrite (bind_done _ _ _ _ _ (task_switch_spec _ _ _ _ Hr)). destruct Hr as [Ht _].
  erewrite bind_done; [|unfold get_task, get_obj; cbn; rewrite Ht; reflexivity]. done.
Qed.

Lemma turn_nonnull s ts i : queue s ts → turn ts i ∈ ts ∧ turn ts i ≠ 0.
Proof.
  intros Hq. assert (length ts ≠ 0)%nat as Hl.
  { pose proof (q_current _ _ Hq) as Hc. destruct ts; [by apply elem_of_nil in Hc|done]. }
  destruct (lookup_lt_is_Some_2 ts (i mod length ts)) as [u Hu]; [by apply Nat.mod_upper_bound|].
  unfold turn. rewrite Hu. simpl. apply list_elem_of_lookup_2 in Hu. split; [done|].
  pose proof (q_nonnull _ _ Hq) as Hnn. rewrite Forall_forall in Hnn. by apply Hnn.
Qed.

Lemma task_next_spec s ts i x dir : queue s ts → ts !! i = Some (current_task s) →
  runnable s (turn ts (S i)) x dir →
  task_next s = Done (EntersUser (user_mode (task_registers x)), entered s (turn ts (S i)) x dir).
Proof.
  intros Hq Hi Hr. unfold task_next. rewrite (bind_done _ _ _ _ _ (task_get_next_spec _ _ _ Hq Hi)).
  destruct (turn_nonnull s ts (S i) Hq) as [_ Hn]. rewrite (proj2 (Z.eqb_neq _ 0) Hn).
  erewrite bind_done; [|reflexivity]. by apply enter_spec.
Qed.

(** [k] successive yields. *)
Fixpoint yields (k : nat) : M (kstate D) (list flow) :=
  match k with
  | O => mret []
  | S k => f ← task_next; fs ← yields k; mret (f :: fs)
  end.

Lemma queue_entered s ts t x dir : queue s ts → t ∈ ts → queue (entered s t x dir) ts.
Proof. intros [] Ht. by split. Qed.

Lemma runnable_entered s t y dir u x d : runnable s u x d → runnable (entered s t y dir) u x d.
Proof. done. Qed.

Lemma turn_current s ts i : queue s ts → ts !! (i mod length ts)%nat = Some (turn ts i).
Proof.
  intros Hq. assert (length ts ≠ 0)%nat as Hl.
  { pose proof (q_current _ _ Hq) as Hc. destruct ts; [by apply elem_of_nil in Hc|done]. }
  unfold turn. destruct (lookup_lt_is_Some_2 ts (i mod length ts)) as [u Hu]; [by apply Nat.mod_upper_bound|].
  by rewrite Hu.
Qed.

Lemma yields_spec k s ts i (X : Z → task) (dirs : Z → Z) :
  queue s ts → current_task s = turn ts i → (∀ t, t ∈ ts → runnable s t (X t) (dirs t)) →
  ∃ s', yields k s =
          Done ((λ j, EntersUser (user_mode (task_registers (X (turn ts j))))) <$> seq (S i) k, s') ∧
        queue s' ts ∧ current_task s' = turn ts (i + k) ∧ ∀ t, t ∈ ts → runnable s' t (X t) (dirs t).
Proof.
  revert s i. induction k as [|k IH]; intros s i Hq Hc Hr.
  { exists s. rewrite Nat.add_0_r. done. }
  destruct (turn_nonnull s ts (S i) Hq) as [Hin _].
  pose proof (turn_current s ts i Hq) as Hi. rewrite <- Hc in Hi.
  assert (turn ts (S (i mod length ts)) = turn ts (S i)) as Et.
  { unfold turn. do 2 f_equal. rewrite <- (Nat.add_1_r (i mod length ts)), <- (Nat.add_1_r i).
    by rewrite Nat.Div0.add_mod_idemp_l. }
  destruct (IH (entered s (turn ts (S i)) (X (turn ts (S i))) (dirs (turn ts (S i)))) (S i)) as (s' & E & Hq' & Hc' & Hr').
  { by apply queue_entered. } { done. } { intros t Ht. by apply runnable_entered, Hr. }
  exists s'. split_and!; [|done|by rewrite Nat.add_succ_r|done].
  pose proof (task_next_spec s ts _ (X (turn ts (S i))) (dirs (turn ts (S i))) Hq Hi) as En.
  rewrite Et in En. specialize (En (Hr _ Hin)).
  cbn [yields]. rewrite (bind_done _ _ _ _ _ En), (bind_done _ _ _ _ _ E). done.
Qed.

Lemma turns_permutation s ts i : queue s ts → (turn ts <$> seq i (length ts)) ≡ₚ ts.
Proof.
  intros Hq. assert (turn ts <$> seq i (length ts) = rotate i ts) as ->.
  { apply list_eq. intros j. rewrite list_lookup_fmap.
    destruct (decide (j < length ts)%nat) as [Hlen|Hlen].
    - rewrite lookup_seq_lt by done. simpl. rewrite <- (turn_current s) by done.
      rewrite lookup_rotate_r by done. f_equal. unfold rotate_nat_add. rewrite Z2Nat.inj_mod by lia. f_equal; lia.
    - rewrite lookup_seq_ge, lookup_ge_None_2 by (rewrite ?length_rotate; lia). done. }
  unfold rotate. rewrite Permutation_app_comm, take_drop. done.
Qed.

(** C3: round robin.  From any state of the run queue, [k] successive calls of
    [task_next] enter the [k] tasks that follow the current one in queue order,
    wrapping around at the end, each with exactly its saved registers and with
    interrupts enabled; the queue itself does not change, and [length ts]
    successive calls run every task exactly once. *)
Theorem scheduler_round_robin k s ts i (X : Z → task) (dirs : Z → Z) :
  queue s ts → current_task s = turn ts i → (∀ t, t ∈ ts → runnable s t (X t) (dirs t)) →
  (∃ s', yields k s =
           Done ((λ j, EntersUser (user_mode (task_registers (X (turn ts j))))) <$> seq (S i) k, s') ∧
         queue s' ts ∧ current_task s' = turn ts (i + k)) ∧
  (turn ts <$> seq (S i) (length ts)) ≡ₚ ts.
Proof.
  intros Hq Hc Hr. split; [|by eapply turns_permutation].
  destruct (yields_spec k s ts i X dirs Hq Hc Hr) as (s' & E & Hq' & Hc' & _). eauto.
Qed.

(** ** Adding and removing tasks *)

Lemma links_frame T ts p x : p ∉ ts → links T ts → links (<[p := x]> T) ts.
Proof.
  induction ts as [|t ts IH]; simpl; [done|]. intros Hp [(y & Hy & Hn) Hl].
  rewrite not_elem_of_cons in Hp. destruct Hp as [Hne Hp]. split; [|by apply IH].
  exists y. by rewrite lookup_insert_ne.
Qed.

(** Unlinking [t] behind [p]. *)
Lemma links_unlink T us p t vs x : NoDup (us ++ p :: t :: vs) → links T (us ++ p :: t :: vs) → T !! p = Some x →
  links (<[p := set_task_next_ptr (default 0 (head vs)) x]> T) (us ++ p :: vs).
Proof.
  induction us as [|u us IH]; simpl; intros Hnd Hl Hp.
  - destruct Hl as (_ & _ & Hl). apply NoDup_cons in Hnd as [Hnp _]. rewrite not_elem_of_cons in Hnp.
    split; [|apply links_frame; tauto]. eexists. by rewrite lookup_insert_eq.
  - apply NoDup_cons in Hnd as [Hnu Hnd]. destruct Hl as [(y & Hy & Hn) Hl]. split; [|by apply IH].
    assert (u ≠ p) by (intros ->; apply Hnu, elem_of_app; right; apply list_elem_of_here).
    exists y. rewrite lookup_insert_ne by done. split; [done|]. rewrite Hn. by destruct us.
Qed.

(** Linking [t] behind the last element [p]. *)
Lemma links_snoc T us p t x y : NoDup (us ++ [p; t]) → links T (us ++ [p]) → T !! p = Some x →
  T !! t = Some y → task_next_ptr y = 0 →
  links (<[p := set_task_next_ptr t x]> T) (us ++ [p; t]).
Proof.
  induction us as [|u us IH]; simpl; intros Hnd Hl Hp Ht Hy.
  - apply NoDup_cons in Hnd as [Hnp _]. rewrite list_elem_of_singleton in Hnp.
    split; [eexists; by rewrite lookup_insert_eq|]. split; [|done]. exists y. by rewrite lookup_insert_ne.
  - apply NoDup_cons in Hnd as [Hnu Hnd]. destruct Hl as [(z & Hz & Hn) Hl]. split; [|by apply IH].
    assert (u ≠ p) by (intros ->; apply Hnu, elem_of_app; right; apply list_elem_of_here).
    exists z. rewrite lookup_insert_ne by done. split; [done|]. rewrite Hn. by destruct us.
Qed.

Lemma update_task_done s p x f : tasks s !! p = Some x →
  update_task p f s = Done (tt, set_tasks (<[p := f x]> (tasks s)) s).
Proof.
  intros Hp. unfold update_task. erewrite bind_done; [|unfold get_task, get_obj; rewrite Hp; reflexivity]. done.
Qed.

(** The state after the removal of [t], given the new [tasks]. *)
Definition removed s (T : gmap Z task) (t : Z) (x : task) : kstate D :=
  let h := if decide (t = task_head s) then task_next_ptr x else task_head s in
  let c := if decide (t = current_task s)
           then if decide (task_next_ptr x = 0) then h else task_next_ptr x else current_task s in
  set_current_task c
    (set_task_tail (if decide (t = task_tail s) then task_prev x else task_tail s)
      (set_task_head h (set_tasks T s))).

Lemma modify_or_keep (b : bool) (f : kstate D → kstate D) s :
  (if b then modify f else mret tt) s = Done (tt, if b then f s else s).
Proof. by destruct b. Qed.

Lemma task_list_remove_state s t x T :
  tasks s !! t = Some x → T !! t = Some x →
  (if negb (task_prev x =? 0) then update_task (task_prev x) (set_task_next_ptr (task_next_ptr x))
   else mret tt) s = Done (tt, set_tasks T s) →
  task_list_remove t s = Done (tt, removed s T t x).
Proof.
  intros Hx HT E. unfold task_list_remove, get_task.
  rewrite (bind_get_obj _ _ _ _ _ Hx), (bind_done _ _ _ _ _ E), bind_gets.
  rewrite (bind_get_obj tasks t x) by done.
  rewrite (bind_done _ _ _ _ _ (modify_or_keep _ _ _)), bind_gets.
  rewrite (bind_done _ _ _ _ _ (modify_or_keep _ _ _)), bind_gets.
  rewrite !eqb_decide. cbn [task_head task_tail set_tasks set_task_head set_task_tail].
  set (s1 := set_tasks T s).
  set (s2 := if bool_decide (t = task_head s) then set_task_head (task_next_ptr x) s1 else s1).
  assert (s2 = set_task_head (if decide (t = task_head s) then task_next_ptr x else task_head s) s1) as ->.
  { unfold s2, s1. destruct (decide _); by case_bool_decide. }
  cbn [task_tail set_task_head set_tasks s1].
  set (s3 := set_task_head _ s1).
  set (s4' := if bool_decide _ then _ else s3).
  assert (s4' = set_task_tail (if decide (t = task_tail s) then task_prev x else task_tail s) s3) as ->.
  { unfold s4', s3, s1. destruct (decide (t = task_tail s)); by case_bool_decide. }
  unfold removed. fold s1. fold s3. clear E. set (s4 := set_task_tail _ s3).
  change (current_task s4) with (current_task s). case_bool_decide as Hc.
  - rewrite decide_True by done. unfold task_get_next.
    rewrite (bind_done _ _ _ (if decide (task_next_ptr x = 0) then task_head s4 else task_next_ptr x) s4); [done|].
    unfold get_task. rewrite bind_gets, (bind_get_obj tasks _ x), eqb_decide by (change (current_task s4) with (current_task s); by rewrite <- Hc).
    case_bool_decide; by case_decide.
  - rewrite decide_False by done. unfold s4, s3, s1. by destruct s.
Qed.

Lemma head_in (l : list Z) x : head l = Some x → x ∈ l.
Proof. destruct l; simpl; intros; simplify_eq. apply list_elem_of_here. Qed.
Lemma last_in (l : list Z) x : last l = Some x → x ∈ l.
Proof. intros [l' ->]%last_Some. apply elem_of_app. right. by apply list_elem_of_singleton. Qed.

Lemma head_default_ne (l : list Z) t : l ≠ [] → t ∉ l → t ≠ default 0 (head l).
Proof. destruct l as [|a l]; [done|]. intros _ Ht ->. apply Ht, list_elem_of_here. Qed.
Lemma last_default_ne (l : list Z) t : l ≠ [] → t ∉ l → t ≠ default 0 (last l).
Proof.
  intros Hne Ht ->. apply Ht. destruct (last l) as [a|] eqn:E; [by apply last_in|]. by apply last_None in E.
Qed.

Lemma removed_queue s us t vs x T :
  queue s (us ++ t :: vs) → us ++ vs ≠ [] → tasks s !! t = Some x → task_prev x = default 0 (last us) →
  links T (us ++ vs) → queue (removed s T t x) (us ++ vs).
Proof.
  intros [Hl Hnd Hnn Hh Ht Hc] Hne Hx Hp HT.
  assert (task_next_ptr x = default 0 (head vs)) as Hn.
  { apply links_app in Hl. destruct Hl as [(y & Hy & Hn) _]. by simplify_eq. }
  pose proof (Permutation_middle us vs t) as Hperm. rewrite <- Hperm in Hnd, Hc. apply NoDup_cons in Hnd as [Htn Hnd].
  assert (Forall (λ t, t ≠ 0) (us ++ vs)) as Hnn'.
  { rewrite <- Hperm in Hnn. by apply Forall_cons in Hnn as [_ Hnn]. }
  assert ((t ∉ us) ∧ (t ∉ vs)) as [Htu Htv] by (rewrite elem_of_app in Htn; tauto).
  assert (default 0 (head (us ++ vs)) = if decide (t = task_head s) then task_next_ptr x else task_head s) as Eh.
  { rewrite Hh. destruct us as [|u us]; simpl; [by rewrite decide_True|].
    rewrite decide_False; [done|]. intros ->. apply Htu, list_elem_of_here. }
  assert (default 0 (head (us ++ vs)) ∈ us ++ vs) as Hhin.
  { destruct (us ++ vs); [done|]. apply list_elem_of_here. }
  unfold removed. rewrite <- Eh. split; cbn; try done.
  - rewrite Ht, last_app_cons, last_app. destruct vs as [|v vs].
    + cbn [last]. rewrite decide_True by done. by destruct (last us).
    + rewrite last_cons_cons. destruct (last (v :: vs)) as [l|] eqn:E; [|by apply last_None in E].
      rewrite decide_False; [done|]. intros ->. by apply Htv, last_in.
  - destruct (decide (t = current_task s)) as [Hct|Hct].
    + rewrite Hn. destruct (decide (default 0 (head vs) = 0)); [done|].
      destruct vs as [|v vs]; [done|]. apply elem_of_app. right. apply list_elem_of_here.
    + apply elem_of_cons in Hc as [Hc|Hc]; [congruence|done].
Qed.

Lemma task_list_remove_spec s us t vs x :
  queue s (us ++ t :: vs) → us ++ vs ≠ [] → tasks s !! t = Some x → task_prev x = default 0 (last us) →
  ∃ T, task_list_remove t s = Done (tt, removed s T t x) ∧ queue (removed s T t x) (us ++ vs) ∧
       ∀ u, u ∉ us → T !! u = tasks s !! u.
Proof.
  intros Hq Hne Hx Hp. pose proof Hq as [Hl Hnd Hnn _ _ _].
  destruct us as [|u0 us0 _] using rev_ind.
  - exists (tasks s). cbn in Hp. destruct Hl as [_ Hl].
    split_and!; [|by apply (removed_queue s [] t vs)|done].
    apply task_list_remove_state; [done..|]. rewrite Hp. cbn. by destruct s.
  - rewrite last_snoc in Hp. cbn in Hp. rewrite <- app_assoc in Hl, Hnd, Hnn. cbn in Hl, Hnd, Hnn.
    destruct (links_lookup _ _ (length us0) u0 Hl) as (y & Hy & _); [by apply list_lookup_middle|].
    assert (u0 ≠ 0) as Hu0 by (rewrite Forall_app, Forall_cons in Hnn; tauto).
    assert (task_next_ptr x = default 0 (head vs)) as Hn.
    { apply links_app in Hl. destruct Hl as (_ & (z & Hz & Hn) & _). by simplify_eq. }
    assert (t ≠ u0) as Htu.
    { apply NoDup_app in Hnd as (_ & _ & Hnd). apply NoDup_cons in Hnd as [Hnu _]. intros ->.
      apply Hnu, list_elem_of_here. }
    exists (<[u0 := set_task_next_ptr (task_next_ptr x) y]> (tasks s)). split_and!.
    + apply task_list_remove_state; [done|by rewrite lookup_insert_ne|].
      rewrite Hp, (proj2 (Z.eqb_neq u0 0) Hu0). cbn [negb]. by apply update_task_done.
    + apply removed_queue; try done; [by rewrite last_snoc|]. rewrite Hn, <- app_assoc. by eapply links_unlink.
    + intros u Hu. rewrite lookup_insert_ne; [done|]. intros ->. apply Hu, elem_of_app. right.
      by apply list_elem_of_singleton.
Qed.

(** A new task goes to the end of the queue, or starts it. *)
Lemma task_list_append_spec s us p t x y :
  queue s (us ++ [p]) → t ≠ 0 → (t ∉ us ++ [p]) → tasks s !! p = Some x → tasks s !! t = Some y → task_next_ptr y = 0 →
  ∃ s', task_list_append t s = Done (tt, s') ∧ queue s' (us ++ [p; t]) ∧ current_task s' = current_task s ∧
        tasks s' !! t = Some (set_task_prev p y).
Proof.
  intros [Hl Hnd Hnn Hh Ht Hc] Ht0 Htn Hx Hy Hyn.
  assert (us ++ [p; t] = (us ++ [p]) ++ [t]) as Eapp by by rewrite <- app_assoc.
  assert (p ≠ 0) as Hp0 by (apply Forall_app in Hnn as [_ Hnn]; by apply Forall_cons in Hnn as [? _]).
  assert (t ≠ p) as Htp by (intros ->; apply Htn, elem_of_app; right; by apply list_elem_of_singleton).
  assert (NoDup (us ++ [p; t])) as Hnd'.
  { rewrite Eapp. apply NoDup_app. split_and!; [done| |apply NoDup_singleton].
    intros z Hz ->%list_elem_of_singleton. done. }
  assert (task_head s ≠ 0) as Hh0.
  { rewrite Hh. destruct us as [|u us]; [done|]. by apply Forall_cons in Hnn as [? _]. }
  rewrite last_snoc in Ht. cbn in Ht.
  set (T := <[t := set_task_prev p y]> (<[p := set_task_next_ptr t x]> (tasks s))).
  exists (set_task_tail t (set_tasks T s)). split_and!.
  - unfold task_list_append. rewrite bind_gets, (proj2 (Z.eqb_neq _ _) Hh0), bind_gets, Ht.
    rewrite (bind_done _ _ _ _ _ (update_task_done s p x _ Hx)).
    erewrite bind_done; [|apply (update_task_done _ t y); cbn; by rewrite lookup_insert_ne]. done.
  - split; cbn; try done.
    + unfold T. pose proof (links_snoc _ _ _ t x y Hnd' Hl Hx Hy Hyn) as HL.
      rewrite Eapp in HL |- *. revert HL. generalize (us ++ [p]) as ls. intros ls HL.
      clear -HL Hy Hyn Htp. induction ls as [|l ls IH]; cbn in HL |- *.
      * destruct HL as [_ _]. split; [|done]. eexists. by rewrite lookup_insert_eq.
      * destruct HL as [(z & Hz & Hn) HL]. split; [|by apply IH].
        destruct (decide (l = t)) as [->|Hne].
        { rewrite lookup_insert_ne in Hz by done. simplify_eq. eexists. by rewrite lookup_insert_eq. }
        exists z. by rewrite lookup_insert_ne.
    + apply Forall_app. apply Forall_app in Hnn as [? _]. by repeat constructor.
    + rewrite Hh. by destruct us.
    + by rewrite Eapp, last_snoc.
    + apply elem_of_app in Hc. rewrite list_elem_of_singleton in Hc. apply elem_of_app.
      destruct Hc as [Hc| ->]; [by left|right; apply list_elem_of_here].
  - done.
  - unfold T. cbn. by rewrite lookup_insert_eq.
Qed.

Lemma task_list_remove_current s us t vs x T :
  queue s (us ++ t :: vs) → us ++ vs ≠ [] → tasks s !! t = Some x →
  current_task (removed s T t x) =
  if decide (t = current_task s) then default (default 0 (head us)) (head vs) else current_task s.
Proof.
  intros Hq Hne Hx. cbn.
  assert (task_next_ptr x = default 0 (head vs)) as Hn.
  { destruct Hq as [Hl _ _ _ _ _]. apply links_app in Hl. destruct Hl as [(y & Hy & Hn) _]. by simplify_eq. }
  rewrite Hn, (q_head _ _ Hq). destruct (decide (t = current_task s)); [|done].
  destruct vs as [|v vs]; cbn.
  - rewrite app_nil_r in Hne. destruct us as [|u us]; [done|]. cbn. destruct (decide (0 = 0)); [|done].
    rewrite decide_False; [done|]. destruct Hq as [_ Hnd _ _ _ _]. cbn in Hnd. apply NoDup_cons in Hnd as [Hnu _].
    intros ->. apply Hnu, elem_of_app. right. apply list_elem_of_here.
  - rewrite decide_False; [done|]. destruct Hq as [_ _ Hnn _ _ _]. rewrite Forall_app, !Forall_cons in Hnn. tauto.
Qed.

(** [task_list_remove] takes a task out of the run queue.  Whatever its place,
    the queue afterwards is the old one without the task, head and tail are its
    ends, and if the removed task was the running one its successor (or the head
    of the queue, when it was the last) becomes current; otherwise the running
    task stays current.  (The link back from the task to its predecessor must be
    right.) *)
Theorem task_list_remove_correct s us t vs x :
  queue s (us ++ t :: vs) → us ++ vs ≠ [] → tasks s !! t = Some x → task_prev x = default 0 (last us) →
  ∃ s', task_list_remove t s = Done (tt, s') ∧ queue s' (us ++ vs) ∧
    current_task s' = if decide (t = current_task s) then default (default 0 (head us)) (head vs)
                      else current_task s.
Proof.
  intros Hq Hne Hx Hp. destruct (task_list_remove_spec s us t vs x Hq Hne Hx Hp) as (T & E & Hq' & _).
  exists (removed s T t x). split_and!; [done..|]. by apply task_list_remove_current.
Qed.

(** After a task has been removed and freed, the task behind it still points back
    to it: removing that one too writes to the freed structure. *)
Theorem task_remove_successor_undefined s us t u vs x y :
  queue s (us ++ t :: u :: vs) → tasks s !! t = Some x → task_prev x = default 0 (last us) →
  tasks s !! u = Some y → task_prev y = t →
  ∃ s', task_list_remove t s = Done (tt, s') ∧
        task_list_remove u (set_tasks (delete t (tasks s')) s') = Undef.
Proof.
  intros Hq Hx Hp Hy Hpy.
  destruct (task_list_remove_spec s us t (u :: vs) x Hq) as (T & E & _ & HT); [by destruct us|done|done|].
  exists (removed s T t x). split; [done|].
  pose proof Hq as [_ Hnd Hnn _ _ _].
  assert (t ≠ 0) as Ht0 by (rewrite Forall_app, Forall_cons in Hnn; tauto).
  assert (u ∉ us) as Hu.
  { apply NoDup_app in Hnd as (_ & Hd & _). intros Hin. apply (Hd u Hin). right. left. }
  assert (t ≠ u) as Htu.
  { apply NoDup_app in Hnd as (_ & _ & Hnd). apply NoDup_cons in Hnd as [Hn _]. intros ->. apply Hn. left. }
  unfold task_list_remove, get_task.
  rewrite (bind_get_obj tasks u y) by (cbn; rewrite lookup_delete_ne, HT by done; done).
  rewrite Hpy, (proj2 (Z.eqb_neq t 0) Ht0). cbn [negb].
  unfold update_task, get_task, get_obj, mbind, M_bind. cbn. by rewrite lookup_delete_eq.
Qed.
End schedule.

(** ** Examples: three tasks, the second one running *)

Definition demo_task (chunk nxt prv entry : Z) : task :=
  {| page_directory := chunk; task_process := 0; task_next_ptr := nxt; task_prev := prv;
     task_registers := {| r_edi := 0; r_esi := 0; r_ebp := 0; r_ebx := 0; r_edx := 0; r_ecx := 0; r_eax := 0;
                          r_ip := entry; r_cs := USER_CODE_SEGMENT; r_flags := 0;
                          r_esp := VANA_PROGRAM_VIRTUAL_STACK_ADDRESS_START; r_ss := USER_DATA_SEGMENT |} |}.

Definition demo_tasks : gmap Z task :=
  {[ 100 := demo_task 50 200 0 0x400000; 200 := demo_task 51 300 100 0x400010;
     300 := demo_task 52 0 200 0x400020 ]}.

Definition demo_running : kstate (Z → Z) :=
  set_tasks demo_tasks (set_current_task 200 (set_task_tail 300 (set_task_head 100
    (demo_kernel {| pmem := kmem_of (replicate 4 Free); cr3 := 0; paging_on := true;
                    current_directory := 0; chunks := {[ 50 := 4096; 51 := 8192; 52 := 12288 ]} |})))).

Lemma demo_queue : queue demo_running [100; 200; 300].
Proof.
  split; try done.
  - cbn. split_and!; try done; by eexists.
  - apply (bool_decide_unpack _). by vm_compute.
  - by repeat constructor.
  - right. left.
Qed.

Lemma scheduler_round_robin_witness :
  (∃ s', yields 4 demo_running =
     Done ((λ j, EntersUser (user_mode (task_registers
              (default (demo_task 0 0 0 0) (demo_tasks !! turn [100; 200; 300] j))))) <$> seq 2 4, s') ∧
     queue s' [100; 200; 300] ∧ current_task s' = 300) ∧
  (turn [100; 200; 300] <$> seq 2 3) ≡ₚ [100; 200; 300].
Proof.
  apply (scheduler_round_robin 4 demo_running [100; 200; 300] 1
    (λ t, default (demo_task 0 0 0 0) (demo_tasks !! t))
    (λ t, if t =? 100 then 4096 else if t =? 200 then 8192 else 12288)); [exact demo_queue|done|].
  intros t Ht. rewrite !elem_of_cons, elem_of_nil in Ht. destruct Ht as [-> |[-> |[-> |[]]]]; done.
Defined.

Lemma task_list_remove_correct_witness :
  ∃ s', task_list_remove 200 demo_running = Done (tt, s') ∧ queue s' [100; 300] ∧ current_task s' = 300.
Proof.
  apply (task_list_remove_correct demo_running [100] 200 [300] (demo_task 51 300 100 0x400010));
    [exact demo_queue|done..].
Defined.
