(* ===== verification/UserMem.v ===== *)
(** * Access of the kernel to the memory of a task

    Properties of the part of task/task.c that reaches into the address space of
    a task: [copy_string_from_task] and [task_get_stack_item].  Both run with the
    page directory of the task loaded; [mmu] is related to the page table entries
    of Paging.v, and the theorems say that the string (or the word) seen by the
    task is the one the kernel gets, and that the page tables of the task, the
    heap and the rest of memory are as before. *)

From S2P Require Import Prelude Config CString Terminal Heap Kheap Paging Idt Keyboard PathParser Disk Fat16 FatLookup File System Elf Task.

Local Open Scope Z_scope.

(** ** The MMU and the page table entries *)

Lemma mmu_spec m dir v : pt_wf m dir → is_u32 v →
  mmu m dir v =
  if Z.testbit (load32 m (dir + 4 * dir_index v)) 0 && Z.testbit (pte m dir v) 0
  then Some (Z.land (pte m dir v) 0xfffff000 + v mod PAGING_PAGE_SIZE) else None.
Proof.
  intros Hwf Hv. destruct (indexes_range v Hv) as [H1 H2]. unfold mmu. rewrite !(u32_small v) by done.
  fold (dir_index v) (table_index v). rewrite (page_word dir) by (apply Hwf || done).
  fold (table_of m dir (dir_index v)).
  rewrite (page_word (table_of m dir (dir_index v))) by (by apply table_of_page, Hwf || done).
  fold (pte m dir v). by destruct (Z.testbit (load32 _ _) 0), (Z.testbit (pte m dir v) 0).
Qed.

(** The physical byte behind an address of the task, if it is not in the page
    tables. *)
Definition outside_tables (m : memory) (dir a : Z) : Prop :=
  ∀ i, 0 <= i < 1024 → ¬ (table_of m dir i <= a < table_of m dir i + 4096).

(** [m'] translates like [m] away from the page [p]. *)
Lemma mmu_frame m m' dir v :
  pt_wf m dir → pt_wf m' dir → is_u32 v → pte m' dir v = pte m dir v →
  load32 m' (dir + 4 * dir_index v) = load32 m (dir + 4 * dir_index v) →
  mmu m' dir v = mmu m dir v.
Proof. intros Hm Hm' Hv E1 E2. rewrite !mmu_spec by done. by rewrite E1, E2. Qed.

Lemma same_tables_mmu m m' dir v : same_tables m m' dir → (∀ a, is_u8 (m' a)) → pt_wf m dir → is_u32 v →
  mmu m' dir v = mmu m dir v.
Proof.
  intros Hs Hb Hwf Hv. apply mmu_frame; [done|by eapply same_tables_wf|done|by apply same_tables_pte|].
  apply same_tables_word; [done|by apply indexes_range].
Qed.

(** ** A page mapped to itself *)

Section self_mapped.
Context (dir page : Z).
Hypothesis Hpage : is_page page.

(** The page [page] is mapped to itself, and is not one of the tables. *)
Record self_mapped (m : memory) : Prop := {
  sm_wf : pt_wf m dir;
  sm_map : ∀ a, page <= a < page + 4096 → mmu m dir a = Some a;
  sm_dir : page ≠ dir;
  sm_tables : ∀ i, 0 <= i < 1024 → table_of m dir i ≠ page
}.

(** A byte seen by the task at [v], stored outside [page]. *)
Definition sees (m : memory) (v c : Z) : Prop :=
  ∃ a, mmu m dir v = Some a ∧ m a = c ∧ ¬ (page <= a < page + 4096).

Lemma in_page_same_tables m m' : self_mapped m →
  (∀ a, ¬ (page <= a < page + 4096) → m' a = m a) → same_tables m m' dir.
Proof.
  intros [Hwf _ Hd Ht] Hm. split.
  - intros a Ha. apply Hm. pose proof (pages_disjoint page dir Hpage (pt_dir _ _ Hwf) Hd). lia.
  - intros i a Hi Ha. apply Hm. pose proof (Ht i Hi) as Hne.
    pose proof (pages_disjoint _ _ (table_of_page m dir i (pt_bytes _ _ Hwf)) Hpage Hne). lia.
Qed.

Lemma self_mapped_frame m m' : self_mapped m → (∀ a, is_u8 (m' a)) →
  (∀ a, ¬ (page <= a < page + 4096) → m' a = m a) → self_mapped m'.
Proof.
  intros Hm Hb Hf. pose proof (in_page_same_tables _ _ Hm Hf) as Hs. destruct Hm as [Hwf Hmap Hd Ht].
  split; [by eapply same_tables_wf| |done|].
  - intros a Ha. rewrite (same_tables_mmu m m') by (done || page). auto.
  - intros i Hi. rewrite (same_tables_of m m') by done. auto.
Qed.

Lemma sees_frame m m' v c : self_mapped m → (∀ a, is_u8 (m' a)) → is_u32 v →
  (∀ a, ¬ (page <= a < page + 4096) → m' a = m a) → sees m v c → sees m' v c.
Proof.
  intros Hm Hb Hv Hf (a & Ha & Hc & Hout). exists a.
  rewrite (same_tables_mmu m m') by (done || by apply in_page_same_tables || apply Hm).
  rewrite Hf by done. done.
Qed.
End self_mapped.

(** ** A page lent to a task

    The page [tmp] belongs to no table of [dir]; [m1] differs from [m] in that
    page only, and [m2] is [m1] with [tmp] mapped to itself. *)

Section lend.
Context (m m1 : memory) (dir tmp : Z).
Hypothesis Hwf : pt_wf m dir.
Hypothesis Hpres : tables_present m dir.
Hypothesis Htmp : is_page tmp.
Hypothesis Hdir : tmp ≠ dir.
Hypothesis Htab : ∀ i, 0 <= i < 1024 → table_of m dir i ≠ tmp.
Hypothesis Hm1 : ∀ a, ¬ (tmp <= a < tmp + 4096) → m1 a = m a.
Hypothesis Hb1 : ∀ a, is_u8 (m1 a).

Definition lend_slot : Z := table_of m1 dir (dir_index tmp) + 4 * table_index tmp.
Definition lend (flags : Z) : memory := store32 m1 lend_slot (Z.lor tmp flags).

Lemma lend_same_tables : same_tables m m1 dir.
Proof.
  split.
  - intros a Ha. apply Hm1. pose proof (pages_disjoint tmp dir Htmp (pt_dir _ _ Hwf) Hdir). lia.
  - intros i a Hi Ha. apply Hm1. pose proof (Htab i Hi) as Hne.
    pose proof (pages_disjoint _ _ (table_of_page m dir i (pt_bytes _ _ Hwf)) Htmp Hne). lia.
Qed.

Lemma lend_wf1 : pt_wf m1 dir.
Proof. by eapply same_tables_wf; [apply lend_same_tables|..]. Qed.

Lemma lend_slot_eq : lend_slot = table_of m dir (dir_index tmp) + 4 * table_index tmp.
Proof.
  unfold lend_slot. rewrite (same_tables_of m m1); [done|apply lend_same_tables|]. apply indexes_range. page.
Qed.

(** The slot is outside the page. *)
Lemma lend_slot_out : lend_slot + 4 <= tmp ∨ tmp + 4096 <= lend_slot.
Proof.
  destruct (indexes_range tmp ltac:(page)) as [H1 H2]. rewrite lend_slot_eq. pose proof (Htab _ H1) as Hne.
  pose proof (pages_disjoint _ _ (table_of_page m dir _ (pt_bytes _ _ Hwf)) Htmp Hne). lia.
Qed.

Context (flags : Z).
Hypothesis Hflags : 0 <= flags < 4096.
Hypothesis Hon : Z.testbit flags 0 = true.

Lemma lend_mapped : mapped m1 (lend flags) dir tmp tmp 4096 flags.
Proof. apply mapped_page; [done|apply lend_wf1|done..]. Qed.

Lemma lend_word i : 0 <= i < 1024 → load32 (lend flags) (dir + 4 * i) = load32 m (dir + 4 * i).
Proof.
  intros Hi. unfold lend, lend_slot.
  rewrite set_dir_word by (done || apply lend_wf1 || (rewrite (lor_low 12) by page; page)).
  apply same_tables_word; [apply lend_same_tables|done].
Qed.

Lemma lend_self_mapped : self_mapped dir tmp (lend flags).
Proof.
  destruct lend_mapped as [Hw Hp Ht _]. split; [done| |done|].
  - intros a Ha. rewrite mmu_spec by (done || page). destruct (indexes_range a ltac:(page)) as [H1 H2].
    rewrite lend_word, Hpres, Hp by (done || page). rewrite decide_True by lia.
    replace (tmp + (page_of a - tmp)) with tmp by (unfold page_of; page).
    rewrite Z.lor_spec, Hon, orb_true_r. cbn [andb]. rewrite mask_entry by done. f_equal. page.
  - intros i Hi. rewrite Ht, (same_tables_of m m1) by (done || apply lend_same_tables). auto.
Qed.

(** What the task saw outside the page, it still sees. *)
Lemma lend_sees v a c : is_u32 v → ¬ (tmp <= v < tmp + 4096) → mmu m dir v = Some a → m a = c →
  ¬ (tmp <= a < tmp + 4096) → outside_tables m dir a → sees dir tmp (lend flags) v c.
Proof.
  intros Hv Hvt Hmmu Hc Ha Hout. destruct lend_mapped as [Hw Hp Ht Ho]. exists a. split_and!; [| |done].
  - rewrite <- Hmmu. destruct (indexes_range v Hv) as [H1 H2]. apply mmu_frame; [done..| |by apply lend_word].
    rewrite Hp, decide_False by done. apply same_tables_pte; [apply lend_same_tables|done].
  - rewrite Ho, Hm1 by (done || intros i Hi; rewrite (same_tables_of m m1) by (done || apply lend_same_tables); auto).
    done.
Qed.

(** Putting the old entry back. *)
Lemma lend_restore m3 : (∀ a, ¬ (tmp <= a < tmp + 4096) → m3 a = lend flags a) →
  ∀ a, ¬ (tmp <= a < tmp + 4096) → store32 m3 lend_slot (pte m1 dir tmp) a = m a.
Proof.
  intros H3 a Ha. unfold pte. fold lend_slot. destruct (decide (lend_slot <= a < lend_slot + 4)).
  - rewrite store32_load32 by done. auto.
  - unfold store32. rewrite store_bytes_out by (simpl; lia). rewrite H3 by done.
    unfold lend, store32. rewrite store_bytes_out by (simpl; lia). auto.
Qed.
End lend.

Section user_mem.
Context {D : Type} `{BlockDevice D}.
Implicit Types s : kstate D.

Lemma vread_spec s v a : mmu (kram s) (cr3 (kpaging s)) v = Some a → vread v s = Done (kram s a, s).
Proof. intros E. unfold vread, vaddr, gets, mbind, M_bind. by rewrite E. Qed.

Lemma vwrite_spec s v a c : mmu (kram s) (cr3 (kpaging s)) v = Some a →
  vwrite v c s = Done (tt, set_kram (store_bytes (kram s) a [c]) s).
Proof. intros E. unfold vwrite, vaddr, modify, mbind, M_bind. by rewrite E. Qed.

Lemma set_kram_kram s m m' : set_kram m (set_kram m' s) = set_kram m s.
Proof. done. Qed.

(** ** The string copy under the page directory of the task *)

Section copy_loop.
Context (dir page : Z).
Hypothesis Hpage : is_page page.

Lemma strncpy_user_spec n str : ∀ s dest src,
  cr3 (kpaging s) = dir → self_mapped dir page (kram s) → nonzero str → Forall is_u8 str →
  page <= dest → dest + Z.of_nat n < page + 4096 →
  (∀ i c, take n (str ++ [0]) !! i = Some c → is_u32 (src + Z.of_nat i) ∧ sees dir page (kram s) (src + Z.of_nat i) c) →
  ∃ m', strncpy_user n dest src s = Done (tt, set_kram m' s) ∧ (∀ a, is_u8 (m' a)) ∧
        ∀ a, m' a = store_bytes (kram s) dest (take n str ++ [0]) a.
Proof.
  revert str. induction n as [|n IH]; intros str s dest src Hcr Hm Hnz Hu8 Hlo Hhi Hs; cbn [strncpy_user].
  - exists (store_bytes (kram s) dest [0]). split_and!; [|by apply store_bytes_u8; [apply Hm|repeat constructor]|done].
    apply vwrite_spec. rewrite Hcr. apply (sm_map _ _ _ Hm). lia.
  - assert (∃ c str', str ++ [0] = c :: str') as (c & str' & Estr) by (destruct str; simpl; eauto).
    destruct (Hs O c) as [Hv (a & Ha & Hc & Hout)]; [by rewrite Estr|]. change (Z.of_nat 0) with 0 in *.
    rewrite Z.add_0_r in *. erewrite bind_done; [|apply vread_spec; by rewrite Hcr]. rewrite Hc.
    assert (mmu (kram s) (cr3 (kpaging s)) dest = Some dest) as Hdest.
    { rewrite Hcr. apply (sm_map _ _ _ Hm). lia. }
    destruct str as [|c0 str]; simpl in Estr; injection Estr as <- <-; cbn [Z.eqb app take] in *.
    + exists (store_bytes (kram s) dest [0]). split_and!; [by apply vwrite_spec|by apply store_bytes_u8; [apply Hm|repeat constructor]|done].
    + apply Forall_cons in Hnz as [Hc0 Hnz]. apply Forall_cons in Hu8 as [Hcu Hu8].
      rewrite (proj2 (Z.eqb_neq _ _) Hc0). erewrite bind_done; [|by apply vwrite_spec].
      set (s1 := set_kram _ s).
      assert (∀ x, is_u8 (kram s1 x)) as Hb1.
      { intros x. change (kram s1) with (store_bytes (kram s) dest [c0]).
        apply store_bytes_u8; [apply Hm|by apply Forall_singleton]. }
      assert (∀ x, ¬ (page <= x < page + 4096) → kram s1 x = kram s x) as Hf1.
      { intros x Hx. change (kram s1) with (store_bytes (kram s) dest [c0]). apply store_bytes_out. simpl. lia. }
      destruct (IH str s1 (dest + 1) (src + 1)) as (m' & E & Hb & Hm'); try done; try lia.
      * by apply (self_mapped_frame dir page Hpage (kram s)).
      * intros i c Hi. destruct (Hs (S i) c) as [Hvi Hsi]; [done|].
        replace (src + 1 + Z.of_nat i) with (src + Z.of_nat (S i)) by lia. split; [done|].
        by apply (sees_frame dir page Hpage (kram s)).
      * exists m'. split_and!; [by rewrite E|done|]. intros x. rewrite Hm'.
        change (kram s1) with (store_bytes (kram s) dest [c0]). unfold store_bytes.
        destruct (decide (x = dest)) as [->|Hne].
        -- by rewrite (idx_None _ (dest - (dest + 1))), Z.sub_diag by lia.
        -- destruct (decide (x < dest)).
           ++ by rewrite !idx_None by lia.
           ++ replace (x - dest) with (Z.of_nat (S (Z.to_nat (x - dest - 1)))) by lia.
              replace (x - (dest + 1)) with (Z.of_nat (Z.to_nat (x - dest - 1))) by lia.
              rewrite !idx_nat. simpl. destruct (_ !! _); done.
Qed.
End copy_loop.

(** ** Copying a string *)

Lemma in_paging_done {B} (m : M pstate B) s a p :
  m (kpaging s) = Done (a, p) → in_paging m s = Done (a, set_kpaging p s).
Proof. apply zoom_done. Qed.

Lemma in_heap_done {B} (m : M kmem B) s a k :
  m (pmem (kpaging s)) = Done (a, k) → in_heap m s = Done (a, set_kpaging (set_pmem k (kpaging s)) s).
Proof. intros E. unfold in_heap, in_kmem. apply zoom_done. by apply zoom_done. Qed.

Lemma set_kpaging_id s : set_kpaging (set_pmem (pmem (kpaging s)) (kpaging s)) s = s.
Proof. by destruct s as [[[[[[]]]]]]. Qed.

Lemma paging_switch_done p chunk dir : chunks p !! chunk = Some dir →
  paging_switch chunk p = Done (tt, set_directory dir p).
Proof. intros E. unfold paging_switch, directory_entry, mbind, M_bind, modify. by rewrite E. Qed.

Definition kernel_segments (c : cpu) : cpu :=
  {| data_segments := KernelSegments; interrupts_on := interrupts_on c; gdtr := gdtr c; tr := tr c |}.

Lemma kernel_page_done s kd : chunks (kpaging s) !! kernel_chunk s = Some kd →
  kernel_page s = Done (tt, set_kpaging (set_directory kd (kpaging s)) (set_kcpu (kernel_segments (kcpu s)) s)).
Proof.
  intros E. unfold kernel_page, kernel_registers, set_segments. rewrite bind_modify, bind_gets.
  by apply in_paging_done, paging_switch_done.
Qed.

(** The state after a routine that borrowed a free block and returned with the
    directory [kd] of the kernel loaded: the allocations, the page directories,
    the console and every byte outside the free blocks are as before. *)
Record borrowed s s' (A : gmap Z nat) (n : nat) (kd : Z) : Prop := {
  bo_state : s' = set_kpaging (kpaging s') (set_kcpu (kernel_segments (kcpu s)) s);
  bo_chunks : chunks (kpaging s') = chunks (kpaging s);
  bo_cr3 : cr3 (kpaging s') = kd;
  bo_owns : kheap_owns (pmem (kpaging s')) A n;
  bo_console : console (pmem (kpaging s')) = console (pmem (kpaging s));
  bo_bytes : ∀ a, is_u8 (kram s' a);
  bo_ram : ∀ a, settled (pmem (kpaging s)) A a → kram s' a = kram s a
}.

(** The bytes [l] at [v] in the address space of [dir]; the pages and the bytes
    themselves are not in free blocks and not in the page tables. *)
Definition user_bytes s (A : gmap Z nat) (dir v : Z) (l : list Z) : Prop :=
  ∀ i c, l !! i = Some c →
    let u := v + Z.of_nat i in
    is_u32 u ∧ settled (pmem (kpaging s)) A u ∧
    ∃ a, mmu (kram s) dir u = Some a ∧ kram s a = c ∧
         settled (pmem (kpaging s)) A a ∧ outside_tables (kram s) dir a.


Lemma fresh_not_table p k chunk dir Ts A n0 n size b tmp : chunk_owned p chunk dir Ts A n0 →
  fresh_block (pmem p) k (with_blocks (Ts ++ [dir; chunk]) A) n size b tmp →
  is_page tmp ∧ tmp ≠ dir ∧ ∀ i, 0 <= i < 1024 → table_of (ram (pmem p)) dir i ≠ tmp.
Proof.
  intros Hc Hf. destruct (fb_addr _ _ _ _ _ _ _ Hf) as [Hr Hal].
  pose proof (proj1 (with_blocks_fresh _ _ _) (fb_new _ _ _ _ _ _ _ Hf)) as [Hnt _].
  rewrite not_elem_of_app, not_elem_of_cons in Hnt. destruct Hnt as (Ht & Hd & _). split_and!; [|done|].
  - split; [lia|done].
  - intros i Hi E. apply Ht. destruct (tables_inv_lookup Ts i Hi (co_length _ _ _ _ _ _ Hc)) as [t Hti].
    rewrite <- E, <- (Z2Nat.id i), (co_tables _ _ _ _ _ _ Hc _ _ Hti) by lia. by eapply list_elem_of_lookup_2.
Qed.

Lemma copied_string m tmp str max phys k :
  0 < max < 4096 → max <= Z.of_nat (length phys) → nonzero str →
  (∀ a, tmp <= a < tmp + max → m a = store_bytes (λ _, 0) tmp (take (Z.to_nat (max - 1)) str ++ [0]) a) →
  k = Nat.min (Z.to_nat (max - 1)) (length str) →
  strncpy phys (load_bytes m tmp max) max = Some (take k str ++ 0 :: drop (S k) phys).
Proof.
  intros Hmax Hlen Hnz Hm ->. set (n := Z.to_nat (max - 1)) in *.
  assert (load_bytes m tmp max = (take n str ++ [0]) ++ replicate (Z.to_nat max - S (length (take n str))) 0) as ->.
  { apply list_eq. intros i. destruct (decide (i < Z.to_nat max)%nat) as [Hi|Hi].
    2:{ rewrite !lookup_ge_None_2; [done|..]; rewrite ?length_load_bytes, ?length_app; simpl;
          rewrite ?length_replicate, ?length_take; lia. }
    rewrite <- !idx_nat, idx_load_bytes, Hm by lia. rewrite idx_nat. unfold store_bytes.
    rewrite Z.add_simpl_l, idx_nat, (lookup_app (take n str ++ [0])).
    destruct ((take n str ++ [0]) !! i) eqn:E; [done|]. simpl. apply lookup_ge_None in E.
    rewrite length_app in *. simpl in *. symmetry. apply lookup_replicate_2. lia. }
  rewrite <- app_assoc. cbn [app].
  destruct (strncpy_cstr phys (take n str ++ 0 :: replicate (Z.to_nat max - S (length (take n str))) 0) (take n str) max) as [E _].
  { apply cstr_app. by apply Forall_take. }
  { lia. }
  rewrite E. f_equal. rewrite length_take. fold n.
  replace (n `min` (n `min` length str))%nat with (n `min` length str)%nat by lia.
  by rewrite take_take, Nat.min_l by lia.
Qed.

Lemma copy_string_spec s t x dir Ts A n kd v str phys max :
  tasks s !! t = Some x → chunk_owned (kpaging s) (page_directory x) dir Ts A (S n) →
  tables_present (kram s) dir → chunks (kpaging s) !! kernel_chunk s = Some kd →
  0 < max < 4096 → max <= Z.of_nat (length phys) → nonzero str → Forall is_u8 str →
  let A' := with_blocks (Ts ++ [dir; page_directory x]) A in
  user_bytes s A' dir v (take (Z.to_nat (max - 1)) (str ++ [0])) →
  let k := Nat.min (Z.to_nat (max - 1)) (length str) in
  ∃ s', copy_string_from_task t v phys max s = Done ((0, take k str ++ 0 :: drop (S k) phys), s') ∧
        borrowed s s' A' (S n) kd.
Proof.
  intros Ht Hco Hpres Hkd Hmax Hlen Hnz Hu8 A' Hub k.
  destruct (kzalloc_fresh (pmem (kpaging s)) A' n max) as (tmp & k1 & E1 & Hf);
    [apply Hco|unfold VANA_HEAP_BLOCK_SIZE; lia|].
  destruct (fresh_not_table _ _ _ _ _ _ _ _ _ _ _ Hco Hf) as (Htmp & Hdir & Htab).
  pose proof (fb_ram _ _ _ _ _ _ _ Hf) as Hram. pose proof (co_wf _ _ _ _ _ _ Hco) as Hwf.
  fold (kram s) in Hram, Hwf, Htab. set (m1 := ram k1) in *.
  assert (∀ a, ¬ (tmp <= a < tmp + 4096) → m1 a = kram s a) as Hm1.
  { intros a Ha. rewrite Hram, decide_False by lia. done. }
  assert (∀ a, is_u8 (m1 a)) as Hb1.
  { intros a. rewrite Hram. destruct (decide _); [range|apply Hwf]. }
  pose proof (lend_self_mapped _ _ _ _ Hwf Hpres Htmp Hdir Htab Hm1 Hb1 7 ltac:(lia) eq_refl) as Hself.
  set (m2 := lend m1 dir tmp 7) in *.
  set (s3 := set_kpaging (set_directory dir (with_ram m2 (set_pmem k1 (kpaging s)))) s).
  destruct (strncpy_user_spec dir tmp Htmp (Z.to_nat (max - 1)) str s3 tmp v) as (m3 & E3 & Hb3 & Hm3);
    [done|done|done|done|lia|lia| |].
  { intros i c Hi. destruct (Hub i c Hi) as (Hui & Hsi & a & Ha & Hca & Hsa & Hoa). split; [done|].
    eapply (lend_sees (kram s)); try done; by apply (fb_settled _ _ _ _ _ _ _ Hf). }
  change (kram s3) with m2 in Hm3.
  assert (∀ a, ¬ (tmp <= a < tmp + 4096) → m3 a = m2 a) as Hm3out.
  { intros a Ha. rewrite Hm3. apply store_bytes_out. rewrite length_app, length_take. simpl. lia. }
  pose proof (in_page_same_tables dir tmp Htmp m2 m3 Hself Hm3out) as Hst3.
  assert (pt_wf m3 dir) as Hwf3 by (eapply same_tables_wf; [done|done|apply Hself]).
  destruct (indexes_range tmp ltac:(page)) as [Hi1 Hi2].
  assert (table_of m3 dir (dir_index tmp) + 4 * table_index tmp = lend_slot m1 dir tmp) as Eslot.
  { rewrite (same_tables_of m2 m3) by done.
    by rewrite (mapped_tables _ _ _ _ _ _ _ (lend_mapped _ _ _ _ Hwf Htmp Hdir Htab Hm1 Hb1 7 ltac:(lia))). }
  set (m4 := store32 m3 (lend_slot m1 dir tmp) (pte m1 dir tmp)) in *.
  assert (paging_set m3 dir tmp (pte m1 dir tmp) = (0, m4)) as E4.
  { rewrite paging_set_eq by (done || by apply load32_u32). by rewrite Eslot. }
  pose proof (lend_restore _ _ _ _ Hm1 Hb1 7 m3 Hm3out) as Hrest. fold m4 in Hrest.
  destruct (kheap_release (set_ram m4 k1) (<[tmp := 1%nat]> A') n tmp 1) as (k5 & E5 & Ho5 & Hr5 & Hc5);
    [apply (fb_owns _ _ _ _ _ _ _ Hf)|by rewrite lookup_insert_eq|].
  rewrite delete_insert_id in Ho5 by apply (fb_new _ _ _ _ _ _ _ Hf).
  assert (pt_wf m1 dir) as Hwf1 by by apply (lend_wf1 (kram s) m1 dir tmp).
  exists (set_kpaging (set_directory kd (set_pmem k5 (kpaging s))) (set_kcpu (kernel_segments (kcpu s)) s)). split.
  - unfold copy_string_from_task. rewrite (proj2 (Z.leb_gt _ _)) by (unfold PAGING_PAGE_SIZE; lia).
    erewrite bind_done; [|apply in_heap_done, E1].
    rewrite (proj2 (Z.eqb_neq tmp 0)) by (pose proof (fb_addr _ _ _ _ _ _ _ Hf); lia).
    unfold get_task. erewrite bind_get_obj; [|exact Ht].
    erewrite bind_done; [|apply in_paging_done; unfold directory_entry; cbn; by rewrite (co_chunk _ _ _ _ _ _ Hco)].
    rewrite bind_gets. erewrite bind_done; [|apply in_paging_done; apply (paging_map_eq _ dir); [done|apply Hco|exact Hwf1|done|done]].
    erewrite bind_done; [|apply in_paging_done, paging_switch_done, Hco].
    erewrite bind_done; [|exact E3].
    erewrite bind_done; [|by apply kernel_page_done].
    rewrite bind_gets. change (kram (set_kpaging (set_directory _ _) _)) with m3.
    change (kram (set_kpaging (set_pmem _ _) _)) with m1.
    rewrite (paging_get_spec m1) by done. rewrite E4, bind_modify. cbn [Z.ltb Z.compare].
    erewrite bind_liftO; [|apply (copied_string m4 tmp str max phys k); try done].
    + erewrite bind_done; [|apply in_heap_done, E5]. done.
    + intros a Ha. unfold m4. pose proof (lend_slot_out _ _ _ _ Hwf Htmp Hdir Htab Hm1).
      unfold store32. rewrite store_bytes_out by (simpl; lia). rewrite Hm3. unfold store_bytes.
      destruct (_.[a - tmp]); [done|]. simpl. unfold m2, lend, store32. rewrite store_bytes_out by (simpl; lia).
      rewrite Hram, decide_True by lia. done.
  - split; try done.
    + cbn. by rewrite Nat.add_1_r in Ho5.
    + cbn. rewrite Hc5. apply Hf.
    + intros a. change (is_u8 (ram k5 a)). rewrite Hr5. apply store_bytes_u8; [done|apply bytes32_u8].
    + intros a Ha. change (ram k5 a = kram s a). rewrite Hr5. apply Hrest. by apply (fb_settled _ _ _ _ _ _ _ Hf).
Qed.

(** C16: [copy_string_from_task] hands the kernel the string the task sees.  For a
    string in the address space of the task the buffer receives its longest
    prefix that fits and a terminator; the borrowed block is free again and every
    byte of memory outside the free blocks, the page tables of the task included,
    is as before, with the page directory of the kernel loaded.  A buffer of a
    page or more, or a full heap, is reported without touching anything. *)
Theorem copy_string_from_task_correct s t x dir Ts A n kd v str phys max :
  tasks s !! t = Some x → chunk_owned (kpaging s) (page_directory x) dir Ts A n →
  tables_present (kram s) dir → chunks (kpaging s) !! kernel_chunk s = Some kd →
  0 < max <= Z.of_nat (length phys) → nonzero str → Forall is_u8 str →
  let A' := with_blocks (Ts ++ [dir; page_directory x]) A in
  user_bytes s A' dir v (take (Z.to_nat (max - 1)) (str ++ [0])) →
  let k := Nat.min (Z.to_nat (max - 1)) (length str) in
  if decide (4096 <= max) then copy_string_from_task t v phys max s = Done ((- EINVARG, phys), s)
  else if decide (n = O) then copy_string_from_task t v phys max s = Done ((- ENOMEM, phys), s)
  else ∃ s', copy_string_from_task t v phys max s = Done ((0, take k str ++ 0 :: drop (S k) phys), s') ∧
             borrowed s s' A' n kd.
Proof.
  intros Ht Hco Hpres Hkd Hmax Hnz Hu8 A' Hub k. destruct (decide (4096 <= max)) as [Hbig|Hsmall].
  { unfold copy_string_from_task. by rewrite (proj2 (Z.leb_le _ _)). }
  destruct n as [|n]; simpl.
  - unfold copy_string_from_task. rewrite (proj2 (Z.leb_gt _ _)) by (unfold PAGING_PAGE_SIZE; lia).
    erewrite bind_done; [|apply in_heap_done; apply (kzalloc_exhausted _ A'); [apply Hco|]].
    + by rewrite set_kpaging_id.
    + apply small_valid. unfold VANA_HEAP_BLOCK_SIZE. lia.
  - eapply copy_string_spec; try done; lia.
Qed.
End user_mem.

(** ** Examples

    Five allocated blocks, a page directory that maps every address to itself,
    and in the last block the string "Hi", followed by the address of the block. *)

Definition demo_layout : layout := replicate 5 (Alloc 1) ++ replicate (Z.to_nat 1026 + 4) Free.
Definition demo_allocs : gmap Z nat := allocs VANA_HEAP_ADDRESS demo_layout.
Definition block (j : Z) : Z := VANA_HEAP_ADDRESS + j * 4096.

Record demo_memory (p : pstate) (chunk dir : Z) (Ts : list Z) : Prop := {
  dm_owned : chunk_owned p chunk dir Ts demo_allocs 4;
  dm_present : tables_present (ram (pmem p)) dir;
  dm_identity : ∀ v, is_u32 v → mmu (ram (pmem p)) dir v = Some v;
  dm_hello : load_bytes (ram (pmem p)) (block 4) 8 = [72; 105; 0; 0; 0; 64; 0; 1];
  dm_console : console (pmem p) = at_pos (replicate 400 0) 0;
  dm_block : outside_tables (ram (pmem p)) dir (block 4) ∧
             outside_tables (ram (pmem p)) dir (block 4 + 1) ∧ outside_tables (ram (pmem p)) dir (block 4 + 2)
}.

Lemma demo_block_page j : 0 <= j < 5 → is_page (block j) ∧ demo_allocs !! block j = Some 1%nat.
Proof.
  intros Hj. split; [unfold block, VANA_HEAP_ADDRESS; page|].
  assert (j = 0 ∨ j = 1 ∨ j = 2 ∨ j = 3 ∨ j = 4) as [-> |[-> |[-> |[-> | ->]]]] by lia; by vm_compute.
Qed.

Lemma demo_memory_exists : ∃ p chunk dir Ts, demo_memory p chunk dir Ts.
Proof.
  destruct (paging_new_4gb_spec (boot_pstate demo_layout) demo_allocs 4 7)
    as (chunk & dir & Ts & p & _ & Hc & _ & _ & Hp & Hpres).
  { apply (layout_owns demo_layout); [|by vm_compute]. apply (bool_decide_unpack _). by vm_compute. }
  { range. }
  { intros a. cbn. range. }
  destruct (demo_block_page 4 ltac:(lia)) as [Hb HA].
  set (m' := store_bytes (ram (pmem p)) (block 4) [72; 105; 0; 0; 0; 64; 0; 1]).
  pose proof (co_fresh _ _ _ _ _ _ Hc) as Hfr. rewrite Forall_forall in Hfr.
  assert (dir ≠ block 4) as Hd.
  { intros E. specialize (Hfr dir). rewrite E, HA in Hfr. assert (Some 1%nat = None); [|done].
    apply Hfr. rewrite <- E. apply elem_of_app. right. apply list_elem_of_here. }
  assert (∀ i, 0 <= i < 1024 → table_of (ram (pmem p)) dir i ≠ block 4) as Ht.
  { intros i Hi E. destruct (tables_inv_lookup Ts i Hi (co_length _ _ _ _ _ _ Hc)) as [t Hti].
    rewrite <- (Z2Nat.id i), (co_tables _ _ _ _ _ _ Hc _ _ Hti) in E by lia.
    specialize (Hfr t). rewrite E, HA in Hfr. assert (Some 1%nat = None); [|done].
    apply Hfr. rewrite <- E. apply elem_of_app. left. by eapply list_elem_of_lookup_2. }
  pose proof (co_wf _ _ _ _ _ _ Hc) as Hwf.
  assert (same_tables (ram (pmem p)) m' dir) as Hs.
  { split.
    - intros a Ha. apply store_bytes_out. pose proof (pages_disjoint _ _ (pt_dir _ _ Hwf) Hb Hd). simpl. lia.
    - intros i a Hi Ha. apply store_bytes_out.
      pose proof (pages_disjoint _ _ (table_of_page _ dir i (pt_bytes _ _ Hwf)) Hb (Ht i Hi)). simpl. lia. }
  assert (∀ a, is_u8 (m' a)) as Hm'.
  { apply store_bytes_u8; [apply Hwf|]. apply (bool_decide_unpack _). by vm_compute. }
  assert (∀ j, 0 <= j < 3 → outside_tables m' dir (block 4 + j)) as Hout.
  { intros j Hj i Hi. rewrite (same_tables_of (ram (pmem p))) by done.
    pose proof (pages_disjoint _ _ (table_of_page _ dir i (pt_bytes _ _ Hwf)) Hb (Ht i Hi)). lia. }
  exists (with_ram m' (set_pmem (set_console (at_pos (replicate 400 0) 0) (pmem p)) p)), chunk, dir, Ts. split.
  - apply chunk_owned_ram; [by destruct Hc|done|done].
  - intros i Hi. cbn. rewrite (same_tables_word (ram (pmem p))) by done. by apply Hpres.
  - intros v Hv. cbn. rewrite mmu_spec by (done || by eapply same_tables_wf).
    destruct (indexes_range v Hv) as [H1 H2]. rewrite (same_tables_word (ram (pmem p))), Hpres by done.
    rewrite (same_tables_pte (ram (pmem p))), Hp by done. rewrite Z.lor_spec, orb_true_r. cbn [andb].
    destruct (indexes_page v Hv) as (_ & _ & Hpg). rewrite mask_entry by (done || lia). f_equal. unfold page_of. lia.
  - by apply (load_store_bytes _ _ [72; 105; 0; 0; 0; 64; 0; 1]).
  - done.
  - split_and!; [rewrite <- (Z.add_0_r (block 4)) | |]; apply Hout; lia.
Qed.

Lemma demo_hello (s : kstate (Z → Z)) p chunk dir Ts : demo_memory p chunk dir Ts → kpaging s = p →
  user_bytes s (with_blocks (Ts ++ [dir; chunk]) demo_allocs) dir (block 4) [72; 105; 0].
Proof.
  intros [Hc _ Hid Hh _ (O0 & O1 & O2)] <- i c Hi. fold (kram s) in *. destruct (demo_block_page 4 ltac:(lia)) as [Hb HA].
  pose proof (lookup_lt_Some _ _ _ Hi) as Hlt. cbn in Hlt.
  assert (settled (pmem (kpaging s)) (with_blocks (Ts ++ [dir; chunk]) demo_allocs) (block 4 + Z.of_nat i)) as Hset.
  { left. exists (block 4), 1%nat. rewrite with_blocks_out; [split; [done|unfold VANA_HEAP_BLOCK_SIZE; lia]|].
    intros Hin. pose proof (co_fresh _ _ _ _ _ _ Hc) as Hfr. rewrite Forall_forall in Hfr.
    specialize (Hfr _ Hin). simpl in Hfr. congruence. }
  assert (is_u32 (block 4 + Z.of_nat i)) as Hu by (unfold block, VANA_HEAP_ADDRESS; range).
  split_and!; [done|done|]. exists (block 4 + Z.of_nat i). split_and!; [by apply Hid| |done|].
  - assert ([72; 105; 0; 0; 0; 64; 0; 1] !! i = Some c) as Hi' by (by destruct i as [|[|[|i]]]).
    rewrite <- Hh, <- idx_nat, idx_load_bytes in Hi' by lia. by injection Hi'.
  - destruct i as [|[|[|i]]]; [rewrite Z.add_0_r|..|lia]; done.
Qed.

(** A kernel with the memory [p] that runs one task. *)
Definition demo_machine (p : pstate) (chunk : Z) : kstate (Z → Z) :=
  set_kernel_chunk chunk (set_tasks {[ block 1 := demo_task chunk 0 0 0x400000 ]}
    (set_current_task (block 1) (set_task_tail (block 1) (set_task_head (block 1) (demo_kernel p))))).

Lemma copy_string_from_task_correct_witness :
  ∃ p chunk dir Ts s', demo_memory p chunk dir Ts ∧
    copy_string_from_task (block 1) (block 4) [7; 7; 7; 7; 7; 7] 6 (demo_machine p chunk) =
      Done ((0, [72; 105; 0; 7; 7; 7]), s') ∧
    borrowed (demo_machine p chunk) s' (with_blocks (Ts ++ [dir; chunk]) demo_allocs) 4 dir.
Proof.
  destruct demo_memory_exists as (p & chunk & dir & Ts & Hm). exists p, chunk, dir, Ts.
  destruct (copy_string_from_task_correct (demo_machine p chunk) (block 1) (demo_task chunk 0 0 0x400000)
    dir Ts demo_allocs 4 dir (block 4) [72; 105] [7; 7; 7; 7; 7; 7] 6) as (s' & E & Hb); try done.
  - apply Hm.
  - apply Hm.
  - apply Hm.
  - apply (bool_decide_unpack _). by vm_compute.
  - apply (bool_decide_unpack _). by vm_compute.
  - by eapply demo_hello.
  - by exists s'.
Defined.
