(* ===== verification/Process.v ===== *)
(** * Processes: task/process.c (32-bit part)

    The table of processes, the memory a process allocates, loading and mapping
    of programs, program arguments and termination. *)

From S2P Require Import Prelude Config CString Terminal Heap Kheap Paging Idt Keyboard PathParser Disk Fat16 FatLookup File System Elf Task.

Local Open Scope Z_scope.

Definition PAGE_USER_RW : Z :=
  Z.lor (Z.lor PAGING_IS_WRITEABLE PAGING_IS_PRESENT) PAGING_ACCESS_FROM_ALL.

(** ** The table of allocations *)

(** The index of the first entry with address [ptr] among the [n] entries from
    [i] on. *)
Fixpoint find_allocation (n : nat) (i ptr : Z) (l : list process_allocation) : option (option Z) :=
  match n with
  | O => Some None
  | S n =>
      a ← l.[i];
      if alloc_ptr a =? ptr then Some (Some i) else find_allocation n (i + 1) ptr l
  end.

Definition process_find_free_allocation_index (x : process) : option Z :=
  r ← find_allocation (Z.to_nat VANA_MAX_PROGRAM_ALLOCATIONS) 0 0 (allocations x);
  Some (default (- ENOMEM) r).

Definition process_is_process_pointer (x : process) (ptr : Z) : option bool :=
  r ← find_allocation (Z.to_nat VANA_MAX_PROGRAM_ALLOCATIONS) 0 ptr (allocations x);
  Some (bool_decide (r ≠ None)).

Definition process_get_allocation_by_addr (x : process) (addr : Z) : option (option Z) :=
  find_allocation (Z.to_nat VANA_MAX_PROGRAM_ALLOCATIONS) 0 addr (allocations x).

Definition process_allocation_unjoin (ptr : Z) (x : process) : process :=
  set_allocations ((λ a, if alloc_ptr a =? ptr then {| alloc_ptr := 0x00; alloc_size := 0 |} else a)
                     <$> allocations x) x.

Section process.
Context {D : Type} `{BlockDevice D}.

(** ** The table of processes *)

(** [process_init] of a new block; the object exists from here on. *)
Definition process_init (p : Z) : M (kstate D) unit :=
  modify (λ s, set_procs (<[p := zero_process]> (procs s)) s).

Definition process_get (process_id : Z) : M (kstate D) Z :=
  if (process_id <? 0) || (VANA_MAX_PROCESSES <=? process_id) then mret 0
  else l ← gets processes; liftO l.[process_id].

Definition process_switch (p : Z) : M (kstate D) Z := modify (set_current_process p);; mret 0.

Definition process_page_directory (p : Z) : M (kstate D) Z :=
  x ← get_process p; t ← get_task (process_task x); mret (page_directory t).

Definition process_malloc (p size : Z) : M (kstate D) Z :=
  ptr ← in_heap (kzalloc size);
  if ptr =? 0 then mret 0
  else
    x ← get_process p;
    index ← liftO (process_find_free_allocation_index x);
    if index <? 0 then in_heap (kfree ptr);; mret 0
    else
      dir ← process_page_directory p;
      res ← in_paging (paging_map_to dir ptr ptr (paging_align_address (u32 (ptr + size))) PAGE_USER_RW);
      if res <? 0 then in_heap (kfree ptr);; mret 0
      else
        x ← get_process p;
        l ← liftO (allocations x).[index <- {| alloc_ptr := ptr; alloc_size := size |}];
        update_process p (set_allocations l);;
        mret ptr.

Definition process_free (p ptr : Z) : M (kstate D) unit :=
  x ← get_process p;
  r ← liftO (process_get_allocation_by_addr x ptr);
  match r with
  | None => mret tt
  | Some i =>
      a ← liftO (allocations x).[i];
      dir ← process_page_directory p;
      res ← in_paging (paging_map_to dir (alloc_ptr a) (alloc_ptr a)
                         (paging_align_address (u32 (alloc_ptr a + alloc_size a))) 0x00);
      if res <? 0 then mret tt
      else
        update_process p (process_allocation_unjoin ptr);;
        in_heap (kfree ptr)
  end.

Fixpoint terminate_loop (n : nat) (p i : Z) : M (kstate D) unit :=
  match n with
  | O => mret tt
  | S n =>
      x ← get_process p;
      a ← liftO (allocations x).[i];
      (if negb (alloc_ptr a =? 0) then process_free p (alloc_ptr a) else mret tt);;
      terminate_loop n p (i + 1)
  end.

Definition process_terminate_allocations (p : Z) : M (kstate D) Z :=
  terminate_loop (Z.to_nat VANA_MAX_PROGRAM_ALLOCATIONS) p 0;; mret 0.

Definition process_free_binary_data (p : Z) : M (kstate D) Z :=
  x ← get_process p;
  (if negb (process_ptr x =? 0) then in_heap (kfree (process_ptr x)) else mret tt);;
  mret 0.

Definition process_free_elf_data (p : Z) : M (kstate D) Z :=
  x ← get_process p;
  (if negb (process_ptr x =? 0) then elf_close (process_ptr x) else mret tt);;
  mret 0.

Definition process_free_program_data (p : Z) : M (kstate D) Z :=
  x ← get_process p;
  if filetype x =? PROCESS_FILETYPE_BINARY then process_free_binary_data p
  else if filetype x =? PROCESS_FILETYPE_ELF then process_free_elf_data p
  else mret (- EINVARG).

Fixpoint switch_to_any_loop (n : nat) (i : Z) : M (kstate D) unit :=
  match n with
  | O => kpanic (line "No processes to switch too")
  | S n =>
      l ← gets processes;
      p ← liftO l.[i];
      if negb (p =? 0) then process_switch p;; mret tt else switch_to_any_loop n (i + 1)
  end.

Definition process_switch_to_any : M (kstate D) unit :=
  switch_to_any_loop (Z.to_nat VANA_MAX_PROCESSES) 0.

Definition process_unlink (p : Z) : M (kstate D) unit :=
  x ← get_process p;
  l ← gets processes;
  l ← liftO l.[process_id x <- 0x00];
  modify (set_processes l);;
  cur ← gets current_process;
  if cur =? p then process_switch_to_any else mret tt.

Definition process_free_process (p : Z) : M (kstate D) Z :=
  process_terminate_allocations p;;
  process_free_program_data p;;
  x ← get_process p;
  (if negb (process_stack x =? 0) then
     in_heap (kfree (process_stack x));; update_process p (set_process_stack 0)
   else mret tt);;
  x ← get_process p;
  (if negb (process_task x =? 0) then
     task_free (process_task x);; update_process p (set_process_task 0)
   else mret tt);;
  in_heap (kfree p);;
  modify (λ s, set_procs (delete p (procs s)) s);;
  mret 0.

Definition process_terminate (p : Z) : M (kstate D) Z :=
  process_unlink p;; process_free_process p.

(** ** Arguments *)

(** [argc] and [argv]. *)
Definition process_get_arguments (p : Z) : M (kstate D) (Z * Z) :=
  x ← get_process p; mret (process_argc x, process_argv x).

(** [struct command_argument]: 512 characters and the address of the next. *)
Definition sizeof_argument : Z := 512.
Definition argument_next (m : memory) (a : Z) : Z := load32 m (a + sizeof_argument).

(** The list is followed for at most [fuel] elements. *)
Fixpoint count_arguments (fuel : nat) (m : memory) (current i : Z) : outcome Z :=
  if current =? 0 then Done i
  else match fuel with
       | O => Spin
       | S fuel => count_arguments fuel m (argument_next m current) (i + 1)
       end.

Definition process_count_command_arguments (fuel : nat) (root_argument : Z) : M (kstate D) Z := λ s,
  n ← count_arguments fuel (kram s) root_argument 0; Done (n, s).

(** The copying loop; the status. *)
Fixpoint inject_loop (fuel : nat) (p argv current i : Z) : M (kstate D) Z :=
  if current =? 0 then mret 0
  else match fuel with
       | O => λ _, Spin
       | S fuel =>
           argument_str ← process_malloc p sizeof_argument;
           if argument_str =? 0 then mret (- ENOMEM)
           else
             m ← gets kram;
             str ← liftO (strncpy (load_bytes m argument_str sizeof_argument)
                            (load_bytes m current sizeof_argument) sizeof_argument);
             store_at argument_str str;;
             store_at (argv + 4 * i) (bytes32 argument_str);;
             m ← gets kram;
             inject_loop fuel p argv (argument_next m current) (i + 1)
       end.

Definition process_inject_arguments (fuel : nat) (p root_argument : Z) : M (kstate D) Z :=
  argc ← process_count_command_arguments fuel root_argument;
  if argc =? 0 then mret (- EIO)
  else
    argv ← process_malloc p (u32 (4 * argc));
    if argv =? 0 then mret (- ENOMEM)
    else
      res ← inject_loop fuel p argv root_argument 0;
      if res <? 0 then mret res
      else update_process p (λ x, set_process_argv argv (set_process_argc argc x));; mret res.

(** ** Loading *)

(** The part of [process_load_binary] between [fopen] and [out]: the status and
    the address of the program data. *)
Definition load_binary_open (p fd : Z) : M (kstate D) (Z * Z) :=
  r ← in_vfs (fstat fd);
  let '(res, st) := r in
  if negb (res =? VANA_ALL_OK) then mret (res, 0x00)
  else
    st ← liftO st;
    program_data_ptr ← in_heap (kzalloc (stat_filesize st));
    if program_data_ptr =? 0 then mret (- ENOMEM, 0x00)
    else
      r ← in_vfs (fread (stat_filesize st) 1 fd);
      let '(n, bytes) := r in
      store_at program_data_ptr bytes;;
      if negb (n =? 1) then mret (- EIO, program_data_ptr)
      else
        update_process p (λ x, set_process_size (stat_filesize st)
          (set_process_ptr program_data_ptr (set_filetype PROCESS_FILETYPE_BINARY x)));;
        mret (res, program_data_ptr).

Definition process_load_binary (fuel : nat) (filename : list Z) (p : Z) : M (kstate D) Z :=
  fd ← in_vfs (fopen fuel filename (text "r"));
  r ← (if fd =? 0 then mret (- EIO, 0x00) else load_binary_open p fd);
  let '(res, program_data_ptr) := r in
  (if (res <? 0) && negb (program_data_ptr =? 0) then in_heap (kfree program_data_ptr) else mret tt);;
  in_vfs (fclose fd);;
  mret res.

Definition process_load_elf (fuel : nat) (filename : list Z) (p : Z) : M (kstate D) Z :=
  r ← elf_load fuel filename;
  let '(res, file) := r in
  if ISERR res then mret res
  else
    update_process p (λ x, set_process_ptr (default 0 file) (set_filetype PROCESS_FILETYPE_ELF x));;
    mret res.

Definition process_load_data (fuel : nat) (filename : list Z) (p : Z) : M (kstate D) Z :=
  res ← process_load_elf fuel filename p;
  if res =? - EINFORMAT then process_load_binary fuel filename p else mret res.

(** ** Mapping *)

Definition process_map_binary (p : Z) : M (kstate D) Z :=
  x ← get_process p;
  dir ← process_page_directory p;
  in_paging (paging_map_to dir VANA_PROGRAM_VIRTUAL_ADDRESS (process_ptr x)
    (paging_align_address (u32 (process_ptr x + process_size x))) PAGE_USER_RW);;
  mret 0.

(** The loop over the [n] program headers from index [i]; [res] is the last
    status. *)
Fixpoint map_elf_loop (n : nat) (p i : Z) (f : elf_file) (phdrs res : Z) : M (kstate D) Z :=
  match n with
  | O => mret res
  | S n =>
      m ← gets kram;
      let phdr := u32 (phdrs + i * sizeof_elf32_phdr) in
      let phys := elf_phdr_phys_address m f phdr in
      let flags := Z.lor PAGING_IS_PRESENT PAGING_ACCESS_FROM_ALL in
      let flags := if negb (Z.land (p_flags m phdr) PF_W =? 0) then Z.lor flags PAGING_IS_WRITEABLE else flags in
      dir ← process_page_directory p;
      res ← in_paging (paging_map_to dir (paging_align_to_lower_page (p_vaddr m phdr))
              (paging_align_to_lower_page phys)
              (paging_align_address (u32 (phys + p_memsz m phdr))) flags);
      if ISERR res then mret res else map_elf_loop n p (i + 1) f phdrs res
  end.

Definition process_map_elf (p : Z) : M (kstate D) Z :=
  x ← get_process p;
  f ← get_elf (process_ptr x);
  m ← gets kram;
  let header := elf_header f in
  map_elf_loop (Z.to_nat (e_phnum m header)) p 0 f (elf_pheader m header) 0.

Definition process_map_memory (p : Z) : M (kstate D) Z :=
  x ← get_process p;
  res ← (if filetype x =? PROCESS_FILETYPE_ELF then process_map_elf p
         else if filetype x =? PROCESS_FILETYPE_BINARY then process_map_binary p
         else kpanic (line "process_map_memory: Invalid filetype"));
  if res <? 0 then mret res
  else
    dir ← process_page_directory p;
    in_paging (paging_map_to dir VANA_PROGRAM_VIRTUAL_STACK_ADDRESS_END (process_stack x)
      (paging_align_address (u32 (process_stack x + VANA_USER_PROGRAM_STACK_SIZE))) PAGE_USER_RW);;
    mret res.

(** ** Slots *)

Fixpoint free_slot_loop (n : nat) (i : Z) : M (kstate D) Z :=
  match n with
  | O => mret (- EISTKN)
  | S n =>
      l ← gets processes;
      p ← liftO l.[i];
      if p =? 0 then mret i else free_slot_loop n (i + 1)
  end.

Definition process_get_free_slot : M (kstate D) Z := free_slot_loop (Z.to_nat VANA_MAX_PROCESSES) 0.

(** The body of [process_load_for_slot] from the allocation of the process on,
    up to [out]: the status, and whether the process was published. *)
Definition load_for_slot_body (fuel : nat) (filename : list Z) (p process_slot : Z) : M (kstate D) (Z * bool) :=
  process_init p;;
  res ← process_load_data fuel filename p;
  if res <? 0 then mret (res, false)
  else
    stack ← in_heap (kzalloc VANA_USER_PROGRAM_STACK_SIZE);
    update_process p (set_process_stack stack);;
    if stack =? 0 then mret (- ENOMEM, false)
    else
      x ← get_process p;
      name ← liftO (strncpy (process_filename x) filename VANA_MAX_PATH);
      update_process p (λ x, set_process_id (u16 process_slot) (set_process_filename name x));;
      t ← task_new p;
      update_process p (set_process_task t);;
      if ERROR_I t =? 0 then update_process p (set_process_task 0);; mret (ERROR_I t, false)
      else
        res ← process_map_memory p;
        if res <? 0 then mret (res, false)
        else
          l ← gets processes;
          l ← liftO l.[process_slot <- p];
          modify (set_processes l);;
          mret (res, true).

(** The status and the value of the caller's pointer, which is [out] before the
    call.  When the slot is taken, the local [_process] is read without having
    been set. *)
Definition process_load_for_slot (fuel : nat) (filename : list Z) (out process_slot : Z) : M (kstate D) (Z * Z) :=
  taken ← process_get process_slot;
  if negb (taken =? 0) then undef
  else
    p ← in_heap (kzalloc sizeof_process);
    if p =? 0 then mret (- ENOMEM, out)
    else
      r ← load_for_slot_body fuel filename p process_slot;
      let '(res, published) := (r : Z * bool) in
      if ISERR res then process_free_process p;; mret (res, 0)
      else mret (res, if published then p else out).

Definition process_load (fuel : nat) (filename : list Z) (out : Z) : M (kstate D) (Z * Z) :=
  process_slot ← process_get_free_slot;
  if process_slot <? 0 then mret (- EISTKN, out)
  else process_load_for_slot fuel filename out process_slot.

Definition process_load_switch (fuel : nat) (filename : list Z) (out : Z) : M (kstate D) (Z * Z) :=
  r ← process_load fuel filename out;
  (if r.1 =? 0 then process_switch r.2;; mret tt else mret tt);;
  mret r.
End process.
