(* ===== verification/ProcessMem.v ===== *)
(** * The memory of a process

    Properties of the memory management of task/process.c: [process_malloc] and
    [process_free] (the implementation of the user's [malloc] and [free]) and
    the release of everything a process owns when it ends.  [proc_mem] relates a
    process, its table of allocations and its page directory to the allocations
    of the kernel heap. *)

From S2P Require Import Prelude Config CString Terminal Heap Kheap Paging Idt Keyboard PathParser Disk Fat16 FatLookup File System Elf Task UserMem Process.

Local Open Scope Z_scope.

(** ** The table of allocations *)

(** The first entry with address [ptr]. *)
Definition slot_of (ptr : Z) (l : list process_allocation) : option nat :=
  fst <$> list_find (λ a, alloc_ptr a = ptr) l.

Lemma slot_of_cons ptr a l :
  slot_of ptr (a :: l) = if decide (alloc_ptr a = ptr) then Some O else S <$> slot_of ptr l.
Proof.
  unfold slot_of. simpl. destruct (decide _); [done|]. by destruct (list_find _ l) as [[]|].
Qed.

Lemma find_allocation_spec n i ptr l : (i + n = length l)%nat →
  find_allocation n (Z.of_nat i) ptr l = Some ((λ j, Z.of_nat (i + j)) <$> slot_of ptr (drop i l)).
Proof.
  revert i. induction n as [|n IH]; intros i Hl; cbn [find_allocation].
  { by rewrite drop_ge by lia. }
  destruct (lookup_lt_is_Some_2 l i) as [a Ha]; [lia|]. rewrite idx_nat, Ha. cbn [mbind option_bind].
  rewrite (drop_S _ _ _ Ha), slot_of_cons, eqb_decide.
  destruct (decide (alloc_ptr a = ptr)) as [E|E]; [rewrite bool_decide_eq_true_2 by done|rewrite bool_decide_eq_false_2 by done].
  - cbn. by rewrite Nat.add_0_r.
  - replace (Z.of_nat i + 1) with (Z.of_nat (S i)) by lia. rewrite IH by lia.
    destruct (slot_of ptr (drop (S i) l)); cbn; [|done]. do 2 f_equal. lia.
Qed.

Lemma find_slot ptr l : length l = Z.to_nat VANA_MAX_PROGRAM_ALLOCATIONS →
  find_allocation (Z.to_nat VANA_MAX_PROGRAM_ALLOCATIONS) 0 ptr l = Some (Z.of_nat <$> slot_of ptr l).
Proof. intros E. rewrite <- E. exact (find_allocation_spec (length l) 0 ptr l eq_refl). Qed.

Lemma slot_of_Some ptr l i : slot_of ptr l = Some i →
  ∃ a, l !! i = Some a ∧ alloc_ptr a = ptr ∧ ∀ j b, l !! j = Some b → (j < i)%nat → alloc_ptr b ≠ ptr.
Proof.
  unfold slot_of. rewrite fmap_Some. intros ([j a] & Hf & ->). apply list_find_Some in Hf as (Ha & Hp & Hbefore).
  exists a. split_and!; [done|done|]. exact Hbefore.
Qed.

(** The entries in use, and what the table says about the heap. *)
Definition live (l : list process_allocation) : list process_allocation :=
  filter (λ a, alloc_ptr a ≠ 0) l.

Record table_ok (A : gmap Z nat) (l : list process_allocation) : Prop := {
  to_length : length l = Z.to_nat VANA_MAX_PROGRAM_ALLOCATIONS;
  to_distinct : ∀ i j a b, l !! i = Some a → l !! j = Some b → alloc_ptr a = alloc_ptr b → alloc_ptr a ≠ 0 → i = j;
  to_alloc : ∀ i a, l !! i = Some a → alloc_ptr a ≠ 0 →
    valid_size (alloc_size a) ∧ A !! alloc_ptr a = Some (size_blocks (alloc_size a));
  to_free : ∀ i a, l !! i = Some a → alloc_ptr a = 0 → alloc_size a = 0
}.

Lemma table_ok_insert A l i a ptr size :
  table_ok A l → l !! i = Some a → alloc_ptr a = 0 → ptr ≠ 0 → A !! ptr = None → valid_size size →
  table_ok (<[ptr := size_blocks size]> A) (<[i := {| alloc_ptr := ptr; alloc_size := size |}]> l).
Proof.
  intros [Hl Hd Ha Hz] Hi Ea Hp HA Hv. pose proof (lookup_lt_Some _ _ _ Hi).
  assert (∀ j b, l !! j = Some b → alloc_ptr b ≠ 0 → alloc_ptr b ≠ ptr) as Hne.
  { intros j b Hb Hb0 E. destruct (Ha j b Hb Hb0) as [_ HA']. congruence. }
  split.
  - by rewrite length_insert.
  - intros j k b c Hj Hk E Hb0. rewrite list_lookup_insert_Some in Hj, Hk.
    destruct Hj as [(<- & <- & _)|(Hij & Hj)], Hk as [(<- & <- & _)|(Hik & Hk)]; cbn in *; try done.
    + destruct (Hne k c Hk); congruence.
    + destruct (Hne j b Hj); congruence.
    + by eapply (Hd j k).
  - intros j b Hj Hb0. rewrite list_lookup_insert_Some in Hj. destruct Hj as [(<- & <- & _)|(Hij & Hj)]; cbn in *.
    + by rewrite lookup_insert_eq.
    + rewrite lookup_insert_ne by (by apply not_eq_sym, (Hne j)). eauto.
  - intros j b Hj Hb0. rewrite list_lookup_insert_Some in Hj. destruct Hj as [(<- & <- & _)|(Hij & Hj)]; [done|eauto].
Qed.

Lemma unjoin_lookup ptr (l : list process_allocation) i a :
  ((λ a, if alloc_ptr a =? ptr then {| alloc_ptr := 0x00; alloc_size := 0 |} else a) <$> l) !! i = Some a →
  alloc_ptr a ≠ 0 → l !! i = Some a ∧ alloc_ptr a ≠ ptr.
Proof.
  rewrite list_lookup_fmap, fmap_Some. intros (b & Hb & ->) Ha. destruct (Z.eqb_spec (alloc_ptr b) ptr); [done|].
  by split.
Qed.

Lemma table_ok_unjoin A x ptr : table_ok A (allocations x) →
  table_ok (delete ptr A) (allocations (process_allocation_unjoin ptr x)).
Proof.
  intros [Hl Hd Ha Hz]. unfold process_allocation_unjoin. cbn [allocations set_allocations]. split.
  - by rewrite length_fmap.
  - intros i j a b Hi Hj E Ha0. apply unjoin_lookup in Hi as [Hi _]; [|done].
    apply unjoin_lookup in Hj as [Hj _]; [|by rewrite <- E]. eauto.
  - intros i a Hi Ha0. apply unjoin_lookup in Hi as [Hi Hne]; [|done].
    rewrite lookup_delete_ne by done. eauto.
  - intros i a. rewrite list_lookup_fmap, fmap_Some. intros (b & Hb & ->). destruct (_ =? _); [done|eauto].
Qed.

Section process_mem.
Context {D : Type} `{BlockDevice D}.
Implicit Types s : kstate D.

(** The process [p] with its task, its page directory and its allocations. *)
Record proc_mem s (p : Z) (x : process) (t : task) (dir : Z) (Ts : list Z) (A : gmap Z nat) (n : nat) : Prop := {
  pm_proc : procs s !! p = Some x;
  pm_task : tasks s !! process_task x = Some t;
  pm_dir : chunk_owned (kpaging s) (page_directory t) dir Ts A n;
  pm_table : table_ok A (allocations x)
}.

Lemma process_page_directory_spec s p x t :
  procs s !! p = Some x → tasks s !! process_task x = Some t →
  process_page_directory p s = Done (page_directory t, s).
Proof.
  intros Hp Ht. unfold process_page_directory, get_process, get_task.
  by rewrite (bind_get_obj _ _ _ _ _ Hp), (bind_get_obj _ _ _ _ _ Ht).
Qed.

Lemma update_process_done s p x f : procs s !! p = Some x →
  update_process p f s = Done (tt, set_procs (<[p := f x]> (procs s)) s).
Proof. intros Hp. unfold update_process, get_process. by rewrite (bind_get_obj _ _ _ _ _ Hp). Qed.

(** The end of an allocation, rounded up to a page. *)
Lemma align_end ptr size : 0 < ptr → ptr mod VANA_HEAP_BLOCK_SIZE = 0 → valid_size size →
  ptr + Z.of_nat (size_blocks size) * VANA_HEAP_BLOCK_SIZE <= 2 ^ 31 →
  paging_align_address (u32 (ptr + size)) = ptr + Z.of_nat (size_blocks size) * 4096.
Proof.
  intros Hp Hal Hv Hend. destruct (size_blocks_bounds size Hv) as (_ & Hb & _).
  unfold paging_align_address, valid_size, VANA_HEAP_BLOCK_SIZE in *.
  rewrite !(u32_small (u32 _)) by apply u32_range. rewrite !(u32_small (ptr + size)) by (unfold is_u32; lia).
  unfold PAGING_PAGE_SIZE. destruct (Z.eqb_spec ((ptr + size) mod 4096) 0); cbn [negb].
  - euclid.
  - rewrite u32_small by euclid. euclid.
Qed.

Lemma map_allocation s chunk dir Ts A n ptr size flags :
  chunk_owned (kpaging s) chunk dir Ts A n → 0 < ptr → ptr mod VANA_HEAP_BLOCK_SIZE = 0 → valid_size size →
  ptr + Z.of_nat (size_blocks size) * VANA_HEAP_BLOCK_SIZE <= 2 ^ 31 → 0 <= flags < 4096 →
  ∃ m', in_paging (paging_map_to chunk ptr ptr (paging_align_address (u32 (ptr + size))) flags) s =
          Done (0, set_kram m' s) ∧
        mapped (kram s) m' dir ptr ptr (Z.of_nat (size_blocks size) * 4096) flags ∧
        chunk_owned (kpaging (set_kram m' s)) chunk dir Ts A n.
Proof.
  intros Hc Hp Hal Hv Hend Hf. rewrite align_end by done.
  destruct (size_blocks_bounds size Hv) as (Hb & _). unfold VANA_HEAP_BLOCK_SIZE in *.
  pose proof (paging_map_to_cases (kpaging s) chunk dir ptr ptr (ptr + Z.of_nat (size_blocks size) * 4096) flags
    (co_chunk _ _ _ _ _ _ Hc) (co_wf _ _ _ _ _ _ Hc) ltac:(range) ltac:(range) ltac:(range) Hf ltac:(lia)) as Hm.
  rewrite decide_True in Hm by (unfold is_page, PAGING_PAGE_SIZE; split_and!; try lia; rewrite ?Z.mod_add by lia; lia).
  destruct Hm as (m' & E & Hm). rewrite Z.add_simpl_l in Hm. exists m'. split_and!; [|done|].
  - by apply in_paging_done.
  - by eapply chunk_owned_mapped.
Qed.

(** ** malloc *)

(** What [process_malloc] leaves: the new allocation [ptr] of [size] bytes,
    entered in slot [i]. *)
Record malloced s s' (p : Z) (x : process) (t : task) (dir : Z) (Ts : list Z) (A : gmap Z nat) (n : nat)
    (size ptr : Z) (i : nat) : Prop := {
  ma_fresh : A !! ptr = None ∧ ptr ≠ 0;
  ma_mem : proc_mem s' p (set_allocations (<[i := {| alloc_ptr := ptr; alloc_size := size |}]> (allocations x)) x)
             t dir Ts (<[ptr := size_blocks size]> A) n;
  ma_zero : ∀ a, ptr <= a < ptr + size → kram s' a = 0;
  ma_user : ∀ w, is_u32 w → pte (kram s') dir w =
    if decide (ptr <= w < ptr + Z.of_nat (size_blocks size) * 4096)
    then Z.lor (page_of w) PAGE_USER_RW else pte (kram s) dir w;
  ma_ram : ∀ a, settled (pmem (kpaging s)) (with_blocks (Ts ++ [dir; page_directory t]) A) a →
    outside_tables (kram s) dir a → kram s' a = kram s a;
  ma_frame : tasks s' = tasks s ∧ processes s' = processes s ∧
    ∀ q, q ≠ p → procs s' !! q = procs s !! q
}.

Lemma set_process_alloc_task l x : process_task (set_allocations l x) = process_task x.
Proof. done. Qed.

Lemma process_malloc_spec s p x t dir Ts A n n' size ptr k1 i :
  proc_mem s p x t dir Ts A n → valid_size size →
  kzalloc size (pmem (kpaging s)) = Done (ptr, k1) →
  fresh_block (pmem (kpaging s)) k1 (with_blocks (Ts ++ [dir; page_directory t]) A) n' size (size_blocks size) ptr →
  slot_of 0 (allocations x) = Some i →
  ∃ s', process_malloc p size s = Done (ptr, s') ∧ malloced s s' p x t dir Ts A n' size ptr i.
Proof.
  intros [Hp Ht Hco Htab] Hv Ez Hf Hi. destruct (size_blocks_bounds size Hv) as (Hb & Hsz & _).
  destruct (fb_addr _ _ _ _ _ _ _ Hf) as [Hptr Hal].
  destruct (chunk_owned_alloc _ _ _ _ _ _ _ _ _ _ _ Hco Hf ltac:(lia)) as (Hco1 & Hst & HA).
  set (s1 := set_kpaging (set_pmem k1 (kpaging s)) s).
  destruct (map_allocation s1 (page_directory t) dir Ts _ _ ptr size PAGE_USER_RW Hco1) as (m' & Em & Hm & Hco2);
    [lia|done|done|apply (fb_end _ _ _ _ _ _ _ Hf)|done|].
  destruct (slot_of_Some _ _ _ Hi) as (a & Ha & Ea & _).
  set (x' := set_allocations (<[i := {| alloc_ptr := ptr; alloc_size := size |}]> (allocations x)) x).
  exists (set_procs (<[p := x']> (procs s)) (set_kram m' s1)). split.
  - unfold process_malloc. erewrite bind_done; [|apply in_heap_done, Ez].
    rewrite (proj2 (Z.eqb_neq ptr 0)) by lia. unfold get_process. rewrite (bind_get_obj _ _ x) by done.
    unfold process_find_free_allocation_index. rewrite find_slot by apply Htab. rewrite Hi.
    rewrite (bind_liftO _ _ (Z.of_nat i)) by done. rewrite (proj2 (Z.ltb_ge _ _)) by lia.
    rewrite (bind_done _ _ _ _ _ (process_page_directory_spec s1 _ _ _ Hp Ht)).
    rewrite (bind_done _ _ _ _ _ Em). cbn [Z.ltb Z.compare]. rewrite (bind_get_obj _ _ x) by done.
    rewrite (bind_liftO _ _ (<[i := {| alloc_ptr := ptr; alloc_size := size |}]> (allocations x))).
    + by rewrite (bind_done _ _ _ _ _ (update_process_done (set_kram m' s1) _ x _ Hp)).
    + apply lookup_lt_Some in Ha. rewrite upd_Some by lia. by rewrite Nat2Z.id.
  - split.
    + split; [done|lia].
    + split; [by cbn; rewrite lookup_insert_eq|done|exact Hco2|].
      by eapply table_ok_insert; [..|lia|done|done].
    + intros b Hbr. change (m' b = 0). rewrite (mapped_outside _ _ _ _ _ _ _ Hm).
      * change (ram k1 b = 0). rewrite (fb_ram _ _ _ _ _ _ _ Hf). by rewrite decide_True.
      * intros j Hj. change (kram s1) with (ram k1). rewrite (same_tables_of (kram s)) by done.
        destruct (chunk_owned_pages _ _ _ _ _ _ Hco) as [_ Hpages].
        pose proof (fb_disjoint _ _ _ _ _ _ _ Hf _ _ (Hpages j Hj)) as Hd. fold (kram s) in Hd.
        unfold VANA_HEAP_BLOCK_SIZE in *. lia.
    + intros w Hw. change (pte m' dir w = if decide (ptr <= w < ptr + Z.of_nat (size_blocks size) * 4096)
        then Z.lor (page_of w) PAGE_USER_RW else pte (kram s) dir w).
      rewrite (mapped_pte _ _ _ _ _ _ _ Hm) by done. destruct (decide _).
      * f_equal. lia.
      * by apply same_tables_pte.
    + intros b Hset Hout. change (m' b = kram s b). rewrite (mapped_outside _ _ _ _ _ _ _ Hm).
      * change (ram k1 b = kram s b). rewrite (fb_ram _ _ _ _ _ _ _ Hf), decide_False; [done|].
        pose proof (fb_settled _ _ _ _ _ _ _ Hf b Hset). lia.
      * intros j Hj. change (kram s1) with (ram k1). rewrite (same_tables_of (kram s)) by done. by apply Hout.
    + split_and!; [done|done|]. intros q Hq. cbn. by rewrite lookup_insert_ne.
Qed.

(** ** free *)

Record freed s s' (p : Z) (x : process) (t : task) (dir : Z) (Ts : list Z) (A : gmap Z nat) (n : nat)
    (ptr : Z) (b : nat) : Prop := {
  fr_mem : proc_mem s' p (process_allocation_unjoin ptr x) t dir Ts (delete ptr A) (n + b);
  fr_gone : ∀ w, is_u32 w → pte (kram s') dir w =
    if decide (ptr <= w < ptr + Z.of_nat b * 4096) then page_of w else pte (kram s) dir w;
  fr_ram : ∀ a, outside_tables (kram s) dir a → kram s' a = kram s a;
  fr_state : s' = set_procs (<[p := process_allocation_unjoin ptr x]> (procs s)) (set_kpaging (kpaging s') s);
  fr_chunks : chunks (kpaging s') = chunks (kpaging s)
}.

Lemma process_free_spec s p x t dir Ts A n ptr i a :
  proc_mem s p x t dir Ts A n → ptr ≠ 0 → allocations x !! i = Some a → alloc_ptr a = ptr →
  ∃ s', process_free p ptr s = Done (tt, s') ∧
        freed s s' p x t dir Ts A n ptr (size_blocks (alloc_size a)).
Proof.
  intros [Hp Ht Hco Htab] Hptr Ha Ea.
  destruct (to_alloc _ _ Htab i a Ha) as [Hv HA]; [congruence|]. rewrite Ea in HA.
  assert (slot_of ptr (allocations x) = Some i) as Hslot.
  { unfold slot_of. destruct (list_find _ _) as [[j b]|] eqn:E.
    - apply list_find_Some in E as (Hj & Ej & _). simpl. f_equal.
      eapply (to_distinct _ _ Htab j i); [done|done|congruence|congruence].
    - rewrite list_find_None, Forall_forall in E. destruct (E a); [by eapply list_elem_of_lookup_2|done]. }
  assert (with_blocks (Ts ++ [dir; page_directory t]) A !! ptr = Some (size_blocks (alloc_size a))) as HA'.
  { rewrite with_blocks_out; [done|]. intros Hin. pose proof (co_fresh _ _ _ _ _ _ Hco) as Hfr.
    rewrite Forall_forall in Hfr. specialize (Hfr _ Hin). simpl in Hfr. congruence. }
  destruct (kheap_owns_range _ _ _ _ _ (co_owns _ _ _ _ _ _ Hco) HA') as [Hr Hal].
  pose proof (kheap_owns_end _ _ _ _ _ (co_owns _ _ _ _ _ _ Hco) HA') as Hend.
  destruct (map_allocation s (page_directory t) dir Ts A n ptr (alloc_size a) 0 Hco) as (m' & Em & Hm & Hco1);
    [lia|done|done|lia|done|].
  set (x' := process_allocation_unjoin ptr x).
  set (s1 := set_procs (<[p := x']> (procs s)) (set_kram m' s)).
  destruct (chunk_owned_free _ _ _ _ _ _ _ _ Hco1 HA) as (k & Ek & Hco2 & Hrk & _).
  exists (set_kpaging (set_pmem k (kpaging s1)) s1). split.
  - unfold process_free, get_process. rewrite (bind_get_obj _ _ x) by done.
    unfold process_get_allocation_by_addr. rewrite find_slot by apply Htab. rewrite Hslot.
    rewrite (bind_liftO _ _ (Some (Z.of_nat i))) by done.
    rewrite (bind_liftO _ _ a) by (by rewrite idx_nat).
    rewrite (bind_done _ _ _ _ _ (process_page_directory_spec s _ _ _ Hp Ht)).
    rewrite Ea, (bind_done _ _ _ _ _ Em). cbn [Z.ltb Z.compare].
    rewrite (bind_done _ _ _ _ _ (update_process_done (set_kram m' s) _ x _ Hp)).
    by apply in_heap_done.
  - assert (kram (set_kpaging (set_pmem k (kpaging s1)) s1) = m') as Hk by (change (ram k = m'); by rewrite Hrk).
    split; rewrite ?Hk.
    + split; [by cbn; rewrite lookup_insert_eq|done|exact Hco2|by apply table_ok_unjoin].
    + intros w Hw. rewrite (mapped_pte _ _ _ _ _ _ _ Hm) by done. destruct (decide _); [|done].
      rewrite Z.lor_0_r. lia.
    + intros b Hb. by apply (mapped_outside _ _ _ _ _ _ _ Hm).
    + done.
    + done.
Qed.


(** ** The two calls on every branch *)

Lemma process_malloc_no_slot s p x t dir Ts A n size :
  proc_mem s p x t dir Ts A (S n) → 0 < size <= VANA_HEAP_BLOCK_SIZE → slot_of 0 (allocations x) = None →
  ∃ s', process_malloc p size s = Done (0, s') ∧ proc_mem s' p x t dir Ts A (S n).
Proof.
  intros [Hp Ht Hco Htab] Hsz Hi.
  destruct (kzalloc_fresh (pmem (kpaging s)) _ n size (co_owns _ _ _ _ _ _ Hco) Hsz) as (ptr & k1 & Ez & Hf).
  destruct (fb_addr _ _ _ _ _ _ _ Hf) as [Hptr _].
  destruct (chunk_owned_alloc _ _ _ _ _ _ _ _ _ _ _ Hco Hf ltac:(lia)) as (Hco1 & _ & HA).
  destruct (chunk_owned_free _ _ _ _ _ _ _ _ Hco1 (lookup_insert_eq _ _ _)) as (k2 & Ek & Hco2 & _).
  exists (set_kpaging (set_pmem k2 (kpaging s)) s). split.
  - unfold process_malloc. erewrite bind_done; [|apply in_heap_done, Ez].
    rewrite (proj2 (Z.eqb_neq ptr 0)) by lia. unfold get_process. rewrite (bind_get_obj _ _ x) by done.
    unfold process_find_free_allocation_index. rewrite find_slot by apply Htab. rewrite Hi.
    rewrite (bind_liftO _ _ (- ENOMEM)) by done. change (- ENOMEM <? 0) with true. cbv iota.
    by erewrite bind_done; [|by apply in_heap_done].
  - split; try done. cbn. rewrite delete_insert_id in Hco2 by done. by rewrite Nat.add_1_r in Hco2.
Qed.

(** C17: the memory a process asks for, the process and its page tables being in
    order.  A request of one byte to a page succeeds while the heap has a free
    block and the table of the process a free entry: the block is new, filled with zeros, recorded in the first free entry, and
    mapped in the address space of the process at its own address, writable from
    user mode; every other mapping and every byte outside the free blocks and the
    page tables stays as it was.  Otherwise null is returned and nothing is
    leaked.  A request of no bytes is different: the heap answers it with a free
    block that it does not mark taken. *)
Theorem process_malloc_correct s p x t dir Ts A n size :
  proc_mem s p x t dir Ts A n → 0 < size <= VANA_HEAP_BLOCK_SIZE →
  match n, slot_of 0 (allocations x) with
  | O, _ => process_malloc p size s = Done (0, s)
  | S n, None => ∃ s', process_malloc p size s = Done (0, s') ∧ proc_mem s' p x t dir Ts A (S n)
  | S n, Some i => ∃ ptr s', process_malloc p size s = Done (ptr, s') ∧
                             malloced s s' p x t dir Ts A n size ptr i
  end.
Proof.
  intros Hpm Hsz. destruct n as [|n].
  - unfold process_malloc. erewrite bind_done; [|apply in_heap_done; eapply kzalloc_exhausted; [apply Hpm|by apply small_valid]].
    by rewrite set_kpaging_id.
  - destruct (slot_of 0 (allocations x)) as [i|] eqn:Hi; [|by apply process_malloc_no_slot].
    destruct (kzalloc_fresh (pmem (kpaging s)) _ n size (co_owns _ _ _ _ _ _ (pm_dir _ _ _ _ _ _ _ _ Hpm)) Hsz)
      as (ptr & k1 & Ez & Hf).
    rewrite <- (size_blocks_small size Hsz) in Hf. exists ptr.
    eapply process_malloc_spec; [done|by apply small_valid|done..].
Qed.

Lemma kfree_null k A n : kheap_owns k A n → kfree 0 k = Undef.
Proof.
  intros ([Hal H32] & L & Hr & _). pose proof (repr_bounds _ _ Hr) as (Hpos & Htot & _).
  unfold kfree, heap_free, heap_mark_blocks_free, heap_address_to_block.
  assert (4096 <= saddr (kernel_heap k)) as Hs by (unfold VANA_HEAP_BLOCK_SIZE in *; euclid).
  unfold VANA_HEAP_BLOCK_SIZE in *. rewrite (s32_small (0 - _)) by (unfold is_s32; lia).
  assert (Z.quot (0 - saddr (kernel_heap k)) 4096 < 0) as Hq by euclid.
  rewrite s32_small by (unfold is_s32; lia).
  destruct (Z.to_nat _) as [|m] eqn:E; [lia|]. cbn [heap_free_loop]. by rewrite idx_None by lia.
Qed.

(** C18: the memory a process gives back.  An address in its table is unmapped
    from its address space, its entry is cleared and the block returns to the
    heap, nothing else changing; an address that is not in the table is ignored,
    except that null matches the first free entry of the table, and is then freed
    as a block of the kernel heap, outside of which it lies. *)
Theorem process_free_correct s p x t dir Ts A n ptr :
  proc_mem s p x t dir Ts A n →
  match slot_of ptr (allocations x) with
  | None => process_free p ptr s = Done (tt, s)
  | Some i =>
      if decide (ptr = 0) then process_free p ptr s = Undef
      else ∃ a s', allocations x !! i = Some a ∧ process_free p ptr s = Done (tt, s') ∧
                   freed s s' p x t dir Ts A n ptr (size_blocks (alloc_size a))
  end.
Proof.
  intros Hpm. pose proof Hpm as [Hp Ht Hco Htab]. destruct (slot_of ptr (allocations x)) as [i|] eqn:Hslot.
  - destruct (slot_of_Some _ _ _ Hslot) as (a & Ha & Ea & _). destruct (decide (ptr = 0)) as [->|Hne].
    + unfold process_free, get_process. rewrite (bind_get_obj _ _ x) by done.
      unfold process_get_allocation_by_addr. rewrite find_slot by apply Htab. rewrite Hslot.
      rewrite (bind_liftO _ _ (Some (Z.of_nat i))) by done. rewrite (bind_liftO _ _ a) by (by rewrite idx_nat).
      rewrite (bind_done _ _ _ _ _ (process_page_directory_spec s _ _ _ Hp Ht)).
      rewrite Ea, (to_free _ _ Htab i a Ha Ea). change (paging_align_address (u32 (0 + 0))) with 0.
      assert (in_paging (paging_map_to (page_directory t) 0 0 0 0) s = Done (0, set_kpaging (kpaging s) s)) as Em
        by (by apply in_paging_done).
      rewrite (bind_done _ _ _ _ _ Em). cbn [Z.ltb Z.compare].
      rewrite (bind_done _ _ _ _ _ (update_process_done (set_kpaging (kpaging s) s) _ x _ Hp)).
      unfold in_heap, in_paging, in_kmem, zoom. cbn. by rewrite (kfree_null _ _ _ (co_owns _ _ _ _ _ _ Hco)).
    + destruct (process_free_spec s p x t dir Ts A n ptr i a Hpm Hne Ha Ea) as (s' & E & Hfr). eauto.
  - unfold process_free, get_process. rewrite (bind_get_obj _ _ x) by done.
    unfold process_get_allocation_by_addr. rewrite find_slot by apply Htab. by rewrite Hslot.
Qed.

(** ** Releasing all allocations of a process *)

Definition pointers (l : list process_allocation) : list Z := alloc_ptr <$> live l.

Lemma pointers_dead l : Forall (λ a, alloc_ptr a = 0) l → pointers l = [].
Proof.
  unfold pointers, live. induction 1 as [|a l Ha _ IH]; [done|]. by rewrite filter_cons_False by tauto.
Qed.

Lemma unjoin_later A l i a : table_ok A l → l !! i = Some a → alloc_ptr a ≠ 0 →
  drop (S i) ((λ b, if alloc_ptr b =? alloc_ptr a then {| alloc_ptr := 0x00; alloc_size := 0 |} else b) <$> l) =
  drop (S i) l.
Proof.
  intros Htab Hi Ha. apply list_eq. intros j. rewrite !lookup_drop, list_lookup_fmap.
  destruct (l !! (S i + j)%nat) as [b|] eqn:Hb; [|done]. simpl.
  destruct (Z.eqb_spec (alloc_ptr b) (alloc_ptr a)) as [E|]; [|done].
  pose proof (to_distinct _ _ Htab _ _ _ _ Hb Hi E ltac:(congruence)). lia.
Qed.

(** Nothing but the process, the heap and the page tables has changed. *)
Record only_proc_mem s s' (p : Z) (x' : process) : Prop := {
  op_state : s' = set_procs (<[p := x']> (procs s)) (set_kpaging (kpaging s') s);
  op_chunks : chunks (kpaging s') = chunks (kpaging s)
}.

Lemma only_proc_mem_trans s s1 s' p x1 x' :
  only_proc_mem s s1 p x1 → only_proc_mem s1 s' p x' → only_proc_mem s s' p x'.
Proof.
  intros [E1 C1] [E2 C2]. split; [|congruence]. rewrite E2, E1. cbn. by rewrite insert_insert_eq.
Qed.

Lemma terminate_loop_spec m : ∀ s p x t dir Ts A n i,
  proc_mem s p x t dir Ts A n → (i + m = length (allocations x))%nat →
  Forall (λ a, alloc_ptr a = 0) (take i (allocations x)) →
  let ps := pointers (drop i (allocations x)) in
  ∃ s' l, terminate_loop m p (Z.of_nat i) s = Done (tt, s') ∧
    proc_mem s' p (set_allocations l x) t dir Ts (without ps A) (n + blocks_at A ps) ∧
    pointers l = [] ∧ only_proc_mem s s' p (set_allocations l x).
Proof.
  induction m as [|m IH]; intros s p x t dir Ts A n i Hpm Hl Hz ps.
  - exists s, (allocations x). subst ps. rewrite drop_ge by lia. cbn. rewrite Nat.add_0_r.
    assert (set_allocations (allocations x) x = x) as Ex by (by destruct x). rewrite Ex. split_and!; [done|done|..].
    + rewrite take_ge in Hz by lia. by apply pointers_dead.
    + split; [|done]. rewrite insert_id by apply Hpm. symmetry.
      by destruct s as [[[[[[]]]]]].
  - destruct (lookup_lt_is_Some_2 (allocations x) i) as [a Ha]; [lia|].
    cbn [terminate_loop]. unfold get_process. rewrite (bind_get_obj _ _ x) by apply Hpm.
    rewrite (bind_liftO _ _ a) by (by rewrite idx_nat).
    assert (ps = if decide (alloc_ptr a = 0) then pointers (drop (S i) (allocations x))
                 else alloc_ptr a :: pointers (drop (S i) (allocations x))) as Eps.
    { unfold ps, pointers, live. rewrite (drop_S _ _ _ Ha). destruct (decide (alloc_ptr a = 0)).
      - by rewrite filter_cons_False by tauto.
      - by rewrite filter_cons_True by done. }
    rewrite Eps. clear ps Eps. replace (Z.of_nat i + 1) with (Z.of_nat (S i)) by lia.
    destruct (Z.eqb_spec (alloc_ptr a) 0) as [E|E]; cbn [negb].
    + rewrite decide_True by done. rewrite bind_mret. apply (IH s p x t dir Ts A n (S i)); [done|lia|].
      rewrite (take_S_r _ _ _ Ha). apply Forall_app. split; [done|by apply Forall_singleton].
    + rewrite decide_False by done.
      destruct (process_free_spec s p x t dir Ts A n (alloc_ptr a) i a Hpm E Ha eq_refl) as (s1 & E1 & [Hm1 _ _ Hs1 Hc1]).
      rewrite (bind_done _ _ _ _ _ E1). set (x1 := process_allocation_unjoin (alloc_ptr a) x) in *.
      assert (drop (S i) (allocations x1) = drop (S i) (allocations x)) as Ed.
      { apply (unjoin_later A); [apply Hpm|done|done]. }
      destruct (IH s1 p x1 t dir Ts (delete (alloc_ptr a) A) (n + size_blocks (alloc_size a))%nat (S i))
        as (s' & l & E' & Hm' & Hl' & Ho'); [done|unfold x1, process_allocation_unjoin; cbn; rewrite length_fmap; lia| |].
      { unfold x1, process_allocation_unjoin. cbn [allocations set_allocations]. rewrite <- fmap_take.
        rewrite (take_S_r _ _ _ Ha), fmap_app. apply Forall_app. split.
        - apply Forall_fmap. eapply Forall_impl; [exact Hz|]. intros b Hb. simpl. by destruct (_ =? _).
        - apply Forall_singleton. by rewrite Z.eqb_refl. }
      rewrite Ed in Hm'. set (qs := pointers (drop (S i) (allocations x))) in *.
      assert (alloc_ptr a ∉ qs) as Hnin.
      { unfold qs, pointers, live. rewrite list_elem_of_fmap. intros (b & Eb & [_ Hb]%list_elem_of_filter).
        apply list_elem_of_lookup in Hb as [j Hj]. rewrite lookup_drop in Hj.
        pose proof (to_distinct _ _ (pm_table _ _ _ _ _ _ _ _ Hpm) _ _ _ _ Ha Hj Eb E). lia. }
      exists s', l. split_and!; [done| |done|].
      * replace (without (alloc_ptr a :: qs) A) with (without qs (delete (alloc_ptr a) A)).
        2:{ rewrite (without_perm (alloc_ptr a :: qs) (qs ++ [alloc_ptr a])) by apply Permutation_cons_append.
            by rewrite without_app. }
        replace (n + blocks_at A (alloc_ptr a :: qs))%nat
          with (n + size_blocks (alloc_size a) + blocks_at (delete (alloc_ptr a) A) qs)%nat; [done|].
        cbn [blocks_at foldr]. destruct (to_alloc _ _ (pm_table _ _ _ _ _ _ _ _ Hpm) i a Ha E) as [_ ->]. simpl.
        rewrite <- Nat.add_assoc. do 2 f_equal. clear -Hnin. induction qs as [|q qs IHq]; [done|].
        apply not_elem_of_cons in Hnin as [Hne Hnin]. cbn. rewrite lookup_delete_ne by done. f_equal. by apply IHq.
      * eapply only_proc_mem_trans; [|exact Ho']. split; [exact Hs1|exact Hc1].
Qed.

(** ** The end of a process *)

(** A process whose allocations have been released. *)
Record dying s (p : Z) (x : process) (t : task) (dir : Z) (Ts : list Z) (A : gmap Z nat) (n : nat) : Prop := {
  dy_proc : procs s !! p = Some x;
  dy_task : tasks s !! process_task x = Some t;
  dy_dir : chunk_owned (kpaging s) (page_directory t) dir Ts A n
}.

Lemma dying_kfree s p x t dir Ts A n q b : dying s p x t dir Ts A n → A !! q = Some b →
  ∃ k, in_heap (kfree q) s = Done (tt, set_kpaging (set_pmem k (kpaging s)) s) ∧
       dying (set_kpaging (set_pmem k (kpaging s)) s) p x t dir Ts (delete q A) (n + b).
Proof.
  intros [Hp Ht Hd] Hq. destruct (chunk_owned_free _ _ _ _ _ _ _ _ Hd Hq) as (k & E & Hd' & _).
  exists k. split; [by apply in_heap_done|by split].
Qed.

(** The blocks that hold the program itself. *)
Definition program_blocks s (x : process) (ps : list Z) : Prop :=
  process_ptr x ≠ 0 ∧
  ((filetype x = PROCESS_FILETYPE_ELF ∧
    ∃ f, elf_files s !! process_ptr x = Some f ∧ ps = [process_ptr x; elf_mem f]) ∨
   (filetype x = PROCESS_FILETYPE_BINARY ∧ ps = [process_ptr x])).

Lemma free_program_data_spec s p x t dir Ts A n ps :
  dying s p x t dir Ts A n → program_blocks s x ps → NoDup ps → Forall (λ q, is_Some (A !! q)) ps →
  ∃ s', process_free_program_data p s = Done (0, s') ∧
        dying s' p x t dir Ts (without ps A) (n + blocks_at A ps) ∧
        (∃ E, s' = set_elf_files E (set_kpaging (kpaging s') s)) ∧ chunks (kpaging s') = chunks (kpaging s).
Proof.
  intros Hd (Hne & [(Hf & f & Hef & ->)|(Hf & ->)]) Hnd Hall;
    unfold process_free_program_data, get_process; rewrite (bind_get_obj _ _ x) by apply Hd; rewrite Hf; cbn [Z.eqb].
  - apply NoDup_cons in Hnd as [Hnin _]. rewrite list_elem_of_singleton in Hnin.
    apply Forall_cons in Hall as [[b Hb] Hall]. apply Forall_cons in Hall as [[c Hc] _].
    destruct (dying_kfree s p x t dir Ts A n (elf_mem f) c Hd Hc) as (k1 & E1 & Hd1). set (s1 := set_kpaging _ s) in *.
    destruct (dying_kfree s1 p x t dir Ts _ _ (process_ptr x) b Hd1) as (k2 & E2 & Hd2); [by rewrite lookup_delete_ne|].
    set (s2 := set_kpaging _ s1) in *.
    exists (set_elf_files (delete (process_ptr x) (elf_files s)) s2). split_and!.
    + cbn. unfold process_free_elf_data, get_process. rewrite (bind_get_obj _ _ x) by apply Hd.
      rewrite (proj2 (Z.eqb_neq _ _) Hne). cbn [negb]. unfold elf_close. rewrite (proj2 (Z.eqb_neq _ _) Hne).
      erewrite bind_done; [reflexivity|]. unfold get_elf. rewrite (bind_get_obj _ _ f) by done.
      rewrite (bind_done _ _ _ _ _ E1), (bind_done _ _ _ _ _ E2). done.
    + cbn [blocks_at foldr]. rewrite Hb, Hc. destruct Hd2 as [? ? ?]. split; [done|done|].
      cbn in *. by replace (n + (b + (c + 0)))%nat with (n + c + b)%nat by lia.
    + eexists. done.
    + done.
  - apply Forall_singleton in Hall as [b Hb].
    destruct (dying_kfree s p x t dir Ts A n (process_ptr x) b Hd Hb) as (k1 & E1 & Hd1). set (s1 := set_kpaging _ s) in *.
    exists s1. split_and!.
    + cbn. unfold process_free_binary_data, get_process. rewrite (bind_get_obj _ _ x) by apply Hd.
      rewrite (proj2 (Z.eqb_neq _ _) Hne). cbn [negb]. by rewrite (bind_done _ _ _ _ _ E1).
    + cbn [blocks_at foldr]. rewrite Hb. cbn. by rewrite Nat.add_0_r.
    + exists (elf_files s). by unfold s1.
    + done.
Qed.

Lemma links_delete T ts p : p ∉ ts → links T ts → links (delete p T) ts.
Proof.
  induction ts as [|u ts IH]; simpl; [done|]. intros Hp [(y & Hy & Hn) Hl].
  apply not_elem_of_cons in Hp as [Hne Hp]. split; [|by apply IH].
  exists y. by rewrite lookup_delete_ne.
Qed.

(** [task_free]: the directory, the queue entry and the task are gone. *)
Lemma task_free_spec s p x t dir Ts A n us vs b :
  let tk := process_task x in
  dying s p x t dir Ts A n → A !! tk = Some b → queue s (us ++ tk :: vs) → us ++ vs ≠ [] →
  task_prev t = default 0 (last us) →
  ∃ s', task_free tk s = Done (0, s') ∧
    kheap_owns (pmem (kpaging s')) (delete tk A) (n + Z.to_nat 1026 + b) ∧ queue s' (us ++ vs) ∧
    procs s' = procs s ∧ processes s' = processes s ∧ current_process s' = current_process s ∧
    chunks (kpaging s') = delete (page_directory t) (chunks (kpaging s)) ∧ tasks s' !! tk = None ∧
    (∀ u, u ∉ us → u ≠ tk → tasks s' !! u = tasks s !! u) ∧
    current_task s' = if decide (tk = current_task s) then default (default 0 (head us)) (head vs)
                      else current_task s.
Proof.
  intros tk [Hp Ht Hd] Hb Hq Hne Hprev.
  destruct (paging_free_4gb_spec _ _ _ _ _ _ Hd) as (k1 & E1 & Ho1 & _).
  set (p1 := set_chunks _ _) in E1. set (s1 := set_kpaging p1 s).
  assert (queue s1 (us ++ tk :: vs)) as Hq1 by (by destruct Hq; split).
  destruct (task_list_remove_spec s1 us tk vs t Hq1 Hne Ht Hprev) as (T & E2 & Hq2 & HT).
  pose proof (task_list_remove_current s1 us tk vs t T Hq1 Hne Ht) as Hcur.
  set (s2 := removed s1 T tk t) in *.
  destruct (kheap_release k1 A _ tk b Ho1 Hb) as (k3 & E3 & Ho3 & _).
  exists (set_tasks (delete tk (tasks s2)) (set_kpaging (set_pmem k3 (kpaging s2)) s2)). split_and!; try done.
  - unfold task_free, get_task. rewrite (bind_get_obj _ _ t) by done.
    rewrite (bind_done _ _ _ _ _ (in_paging_done _ _ _ _ E1)), (bind_done _ _ _ _ _ E2).
    erewrite bind_done; [|by apply in_heap_done]. done.
  - destruct Hq2 as [Hl2 Hnd2 Hnn2 Hh2 Ht2 Hc2]. split; try done. cbn. apply links_delete; [|done].
    apply (q_nodup _ _) in Hq. rewrite <- Permutation_middle in Hq. by apply NoDup_cons in Hq as [? _].
  - cbn. by rewrite lookup_delete_eq.
  - intros u Hu Hut. cbn. rewrite lookup_delete_ne by done. by apply HT.
Qed.


(** The blocks of a process besides its page directory. *)
Definition proc_blocks (p : Z) (x : process) (ps : list Z) : list Z :=
  p :: process_task x :: process_stack x :: ps ++ pointers (allocations x).

Record proc_owned s p x t dir Ts A n (ps : list Z) : Prop := {
  po_mem : proc_mem s p x t dir Ts A n;
  po_prog : program_blocks s x ps;
  po_stack : process_stack x ≠ 0;
  po_nodup : NoDup (proc_blocks p x ps);
  po_alloc : Forall (λ q, is_Some (A !! q)) (proc_blocks p x ps)
}.

(** The allocations and the program of a process, released. *)
Lemma release_program_spec s p x t dir Ts A n ps :
  proc_owned s p x t dir Ts A n ps →
  let qs := ps ++ pointers (allocations x) in
  ∃ s' l, (process_terminate_allocations p;; process_free_program_data p) s = Done (0, s') ∧
    dying s' p (set_allocations l x) t dir Ts (without qs A) (n + blocks_at A qs) ∧
    (∃ E, s' = set_procs (<[p := set_allocations l x]> (procs s)) (set_elf_files E (set_kpaging (kpaging s') s))) ∧
    chunks (kpaging s') = chunks (kpaging s).
Proof.
  intros [Hpm Hprog Hst Hnd Hall] qs.
  pose proof Hnd as Hnd'. unfold proc_blocks in Hnd', Hall.
  do 3 apply NoDup_cons in Hnd' as [_ Hnd']. do 3 apply Forall_cons in Hall as [_ Hall].
  apply NoDup_app in Hnd' as (Hps & Hdis & _). apply Forall_app in Hall as [Hallp _].
  pose proof (to_length _ _ (pm_table _ _ _ _ _ _ _ _ Hpm)) as Hl.
  destruct (terminate_loop_spec (Z.to_nat VANA_MAX_PROGRAM_ALLOCATIONS) s p x t dir Ts A n 0 Hpm)
    as (s1 & l & E1 & Hm1 & _ & [Hs1 Hc1]); [by rewrite Hl|done|].
  change (drop 0 (allocations x)) with (allocations x) in *. set (ptrs := pointers (allocations x)) in *.
  assert (dying s1 p (set_allocations l x) t dir Ts (without ptrs A) (n + blocks_at A ptrs)) as Hd1.
  { destruct Hm1. by split. }
  destruct (free_program_data_spec s1 p (set_allocations l x) t dir Ts _ _ ps Hd1) as (s2 & E2 & Hd2 & (E & Hs2) & Hc2).
  { destruct Hprog as (Hne & Hcase). split; [done|]. rewrite Hs1. exact Hcase. }
  { done. }
  { rewrite Forall_forall in *. intros q Hq. rewrite without_out by auto. auto. }
  exists s2, l. split_and!.
  - unfold process_terminate_allocations. erewrite bind_done; [exact E2|].
    erewrite bind_done; [|exact E1]. done.
  - unfold qs. rewrite without_app, blocks_at_app. rewrite blocks_at_without in Hd2 by done.
    by replace (n + (blocks_at A ps + blocks_at A ptrs))%nat with (n + blocks_at A ptrs + blocks_at A ps)%nat by lia.
  - exists E. rewrite Hs2, Hs1. done.
  - congruence.
Qed.

Lemma process_free_process_spec s p x t dir Ts A n ps us vs :
  let tk := process_task x in
  proc_owned s p x t dir Ts A n ps → queue s (us ++ tk :: vs) → us ++ vs ≠ [] →
  task_prev t = default 0 (last us) →
  let bs := proc_blocks p x ps in
  ∃ s', process_free_process p s = Done (0, s') ∧
    kheap_owns (pmem (kpaging s')) (without bs A) (n + Z.to_nat 1026 + blocks_at A bs) ∧
    queue s' (us ++ vs) ∧ procs s' = delete p (procs s) ∧ tasks s' !! tk = None ∧
    processes s' = processes s ∧ current_process s' = current_process s ∧
    chunks (kpaging s') = delete (page_directory t) (chunks (kpaging s)) ∧
    (∀ u, u ∉ us → u ≠ tk → tasks s' !! u = tasks s !! u) ∧
    current_task s' = if decide (tk = current_task s) then default (default 0 (head us)) (head vs)
                      else current_task s.
Proof.
  intros tk Hpo Hq Hne Hprev bs. pose proof Hpo as [Hpm Hprog Hst Hnd Hall].
  assert (tk ≠ 0) as Htk.
  { pose proof (q_nonnull _ _ Hq) as Hnn. rewrite Forall_app, Forall_cons in Hnn. tauto. }
  destruct (release_program_spec s p x t dir Ts A n ps Hpo) as (s1 & l & E1 & Hd1 & (E & Hs1) & Hc1).
  set (qs := ps ++ pointers (allocations x)) in *. set (x1 := set_allocations l x) in *.
  unfold proc_blocks in Hnd, Hall. fold qs in Hnd, Hall. fold tk in Hnd, Hall.
  apply NoDup_cons in Hnd as [Hnp Hnd]. apply NoDup_cons in Hnd as [Hntk Hnd]. apply NoDup_cons in Hnd as [Hns _].
  apply not_elem_of_cons in Hnp as [Hptk Hnp]. apply not_elem_of_cons in Hnp as [Hpst Hnp].
  apply not_elem_of_cons in Hntk as [Htkst Hntk].
  apply Forall_cons in Hall as [[bp Hbp] Hall]. apply Forall_cons in Hall as [[bt Hbt] Hall].
  apply Forall_cons in Hall as [[bk Hbk] _].
  destruct (dying_kfree s1 p x1 t dir Ts _ _ (process_stack x) bk Hd1) as (k2 & E2 & Hd2).
  { by rewrite without_out. }
  set (s2 := set_kpaging _ s1) in *. set (x3 := set_process_stack 0 x1).
  set (s3 := set_procs (<[p := x3]> (procs s2)) s2).
  assert (dying s3 p x3 t dir Ts (delete (process_stack x) (without qs A)) (n + blocks_at A qs + bk)) as Hd3.
  { destruct Hd2 as [? ? ?]. split; [by cbn; rewrite lookup_insert_eq|done|done]. }
  destruct (task_free_spec s3 p x3 t dir Ts _ _ us vs bt Hd3) as (s4 & E4 & Ho4 & Hq4 & Hp4 & Hps4 & Hcp4 & Hch4 & Ht4 & Hts4 & Hct4).
  { cbn. rewrite lookup_delete_ne by done. by rewrite without_out. }
  { destruct Hq as [? ? ? ? ? ?]. unfold s3, s2. rewrite Hs1. by split. }
  { done. }
  { done. }
  set (x5 := set_process_task 0 x3). set (s5 := set_procs (<[p := x5]> (procs s4)) s4).
  destruct (kheap_release (pmem (kpaging s5)) (delete tk (delete (process_stack x) (without qs A)))
    _ p bp Ho4) as (k6 & E6 & Ho6 & _).
  { rewrite !lookup_delete_ne by done. by rewrite without_out. }
  set (s6 := set_kpaging (set_pmem k6 (kpaging s5)) s5).
  exists (set_procs (delete p (procs s6)) s6).
  assert (procs s1 !! p = Some x1) as Hx1 by apply Hd1.
  split_and!.
  - unfold process_free_process, get_process. apply bind_done_inv in E1 as (r & s0 & Ea & Eb).
    rewrite (bind_done _ _ _ _ _ Ea), (bind_done _ _ _ _ _ Eb), (bind_get_obj _ _ x1) by done.
    change (process_stack x1) with (process_stack x). rewrite (proj2 (Z.eqb_neq _ _) Hst). cbn [negb].
    rewrite (bind_done _ _ s1 tt s3).
    2:{ rewrite (bind_done _ _ _ _ _ E2). exact (update_process_done s2 p x1 _ Hx1). }
    rewrite (bind_get_obj _ _ x3) by (cbn; by rewrite lookup_insert_eq).
    change (process_task x3) with tk. rewrite (proj2 (Z.eqb_neq _ _) Htk). cbn [negb].
    rewrite (bind_done _ _ s3 tt s5).
    2:{ rewrite (bind_done _ _ _ _ _ E4). apply (update_process_done s4 p x3).
        rewrite Hp4. cbn. by rewrite lookup_insert_eq. }
    erewrite bind_done; [|apply in_heap_done, E6]. done.
  - change (kheap_owns k6 (without bs A) (n + Z.to_nat 1026 + blocks_at A bs)).
    unfold bs, proc_blocks. fold qs tk. cbn [without blocks_at foldr] in Ho6 |- *.
    fold (without qs A) (blocks_at A qs). rewrite Hbp, Hbt, Hbk. cbn [default from_option id].
    by replace (n + Z.to_nat 1026 + (bp + (bt + (bk + blocks_at A qs))))%nat
      with (n + blocks_at A qs + bk + Z.to_nat 1026 + bt + bp)%nat by lia.
  - by destruct Hq4.
  - cbn. rewrite Hp4. cbn. rewrite Hs1. cbn. by rewrite !delete_insert_eq.
  - done.
  - change (processes s4 = processes s). rewrite Hps4. unfold s3, s2. by rewrite Hs1.
  - change (current_process s4 = current_process s). rewrite Hcp4. unfold s3, s2. by rewrite Hs1.
  - change (chunks (kpaging s4) = delete (page_directory t) (chunks (kpaging s))). rewrite Hch4. by rewrite <- Hc1.
  - intros u Hu Hut. change (tasks s4 !! u = tasks s !! u). rewrite Hts4 by done. unfold s3, s2. by rewrite Hs1.
  - change (current_task s4 = if decide (tk = current_task s) then default (default 0 (head us)) (head vs) else current_task s).
    rewrite Hct4. unfold s3, s2. by rewrite Hs1.
Qed.

(** The first process of the table. *)
Definition some_process (l : list Z) : option Z := snd <$> list_find (λ q, q ≠ 0) l.

Lemma switch_to_any_spec n : ∀ s i c,
  (i + n = length (processes s))%nat → some_process (drop i (processes s)) = Some c →
  switch_to_any_loop n (Z.of_nat i) s = Done (tt, set_current_process c s).
Proof.
  induction n as [|n IH]; intros s i c Hl Hc; cbn [switch_to_any_loop].
  { by rewrite drop_ge in Hc by lia. }
  destruct (lookup_lt_is_Some_2 (processes s) i) as [q Hq]; [lia|].
  rewrite bind_gets, (bind_liftO _ _ q) by (by rewrite idx_nat).
  rewrite (drop_S _ _ _ Hq) in Hc. unfold some_process in Hc. cbn in Hc.
  destruct (Z.eqb_spec q 0) as [->|Hne]; cbn [negb].
  - rewrite decide_False in Hc by tauto. replace (Z.of_nat i + 1) with (Z.of_nat (S i)) by lia. apply IH; [lia|].
    unfold some_process. by destruct (list_find _ _) as [[]|]; simplify_eq/=.
  - rewrite decide_True in Hc by done. by simplify_eq/=.
Qed.

Lemma process_unlink_spec s p x c :
  let l := <[Z.to_nat (process_id x) := 0]> (processes s) in
  procs s !! p = Some x → length (processes s) = Z.to_nat VANA_MAX_PROCESSES →
  0 <= process_id x < VANA_MAX_PROCESSES →
  (if decide (current_process s = p) then some_process l = Some c else c = current_process s) →
  process_unlink p s = Done (tt, set_current_process c (set_processes l s)).
Proof.
  intros l Hp Hl Hid Hc. unfold process_unlink, get_process. rewrite (bind_get_obj _ _ x), bind_gets by done.
  rewrite (bind_liftO _ _ l) by (apply upd_Some; unfold VANA_MAX_PROCESSES in *; lia).
  rewrite bind_modify, bind_gets. change (current_process (set_processes l s)) with (current_process s).
  destruct (decide (current_process s = p)) as [E|E]; rewrite eqb_decide.
  - rewrite bool_decide_eq_true_2 by done. apply (switch_to_any_spec _ (set_processes l s) 0); [|done].
    cbn. unfold l. by rewrite length_insert.
  - rewrite bool_decide_eq_false_2 by done. subst c. by destruct s.
Qed.

Lemma process_terminate_spec s p x t dir Ts A n ps us vs c :
  proc_owned s p x t dir Ts A n ps → queue s (us ++ process_task x :: vs) → us ++ vs ≠ [] →
  task_prev t = default 0 (last us) →
  length (processes s) = Z.to_nat VANA_MAX_PROCESSES → 0 <= process_id x < VANA_MAX_PROCESSES →
  let l := <[Z.to_nat (process_id x) := 0]> (processes s) in
  (if decide (current_process s = p) then some_process l = Some c else c = current_process s) →
  let bs := proc_blocks p x ps in
  ∃ s', process_terminate p s = Done (0, s') ∧
    kheap_owns (pmem (kpaging s')) (without bs A) (n + Z.to_nat 1026 + blocks_at A bs) ∧
    queue s' (us ++ vs) ∧ procs s' = delete p (procs s) ∧ tasks s' !! process_task x = None ∧
    chunks (kpaging s') = delete (page_directory t) (chunks (kpaging s)) ∧
    (∀ u, u ∉ us → u ≠ process_task x → tasks s' !! u = tasks s !! u) ∧
    processes s' = l ∧ current_process s' = c ∧
    current_task s' = if decide (process_task x = current_task s) then default (default 0 (head us)) (head vs)
                      else current_task s.
Proof.
  intros Hpo Hq Hne Hprev Hl Hid l Hc bs.
  pose proof (process_unlink_spec s p x c ltac:(apply Hpo) Hl Hid Hc) as E. fold l in E.
  set (s1 := set_current_process c (set_processes l s)) in *.
  destruct (process_free_process_spec s1 p x t dir Ts A n ps us vs) as (s' & E' & Ho & Hq' & Hp & Ht & Hps & Hcp & Hch & Hts & Hct).
  { destruct Hpo as [[? ? ? ?] ? ? ? ?]. by split. }
  { by destruct Hq. }
  { done. }
  { done. }
  exists s'. split_and!; try done. unfold process_terminate. by rewrite (bind_done _ _ _ _ _ E).
Qed.

(** C5: a process that ends leaves nothing behind.  Assume that another task is in
    the run queue, that the prev link of the task of the process is the task before
    it in the queue (which the removal of that task would have left dangling, see
    [task_remove_successor_undefined]) and, if the process is the current one, that
    the table has another process.  Then its allocations, its program, its stack,
    its task with the 1026 blocks of its page directory and its own structure go
    back to the heap, every other allocation staying; its task leaves the run
    queue, its entry in the table of processes is cleared, and if it was the
    current process the first remaining one becomes current. *)
Theorem process_terminate_releases s p x t dir Ts A n ps us vs c :
  proc_owned s p x t dir Ts A n ps → queue s (us ++ process_task x :: vs) → us ++ vs ≠ [] →
  task_prev t = default 0 (last us) →
  length (processes s) = Z.to_nat VANA_MAX_PROCESSES → 0 <= process_id x < VANA_MAX_PROCESSES →
  let l := <[Z.to_nat (process_id x) := 0]> (processes s) in
  (if decide (current_process s = p) then some_process l = Some c else c = current_process s) →
  let bs := proc_blocks p x ps in
  ∃ s', process_terminate p s = Done (0, s') ∧
    kheap_owns (pmem (kpaging s')) (without bs A) (n + Z.to_nat 1026 + blocks_at A bs) ∧
    queue s' (us ++ vs) ∧ procs s' = delete p (procs s) ∧ tasks s' !! process_task x = None ∧
    chunks (kpaging s') = delete (page_directory t) (chunks (kpaging s)) ∧
    processes s' = l ∧ current_process s' = c.
Proof.
  intros Hpo Hq Hne Hprev Hl Hid l Hc bs.
  destruct (process_terminate_spec s p x t dir Ts A n ps us vs c Hpo Hq Hne Hprev Hl Hid Hc)
    as (s' & E & Ho & Hq' & Hp & Ht & Hch & _ & Hps & Hcp & _).
  exists s'. by split_and!.
Qed.
End process_mem.

(** ** Examples

    The blocks of Examples in UserMem.v: a process, its task, its stack, its ELF
    file and the loaded image. *)

Definition demo_process : process :=
  set_process_task (block 1) (set_process_stack (block 2) (set_process_ptr (block 3)
    (set_filetype PROCESS_FILETYPE_ELF (set_process_id 0 zero_process)))).

Definition demo_elf_loaded : elf_file :=
  {| elf_mem := block 4; virtual_base_address := 0x400000; virtual_end_address := 0x400100;
     physical_base_address := block 4; physical_end_address := block 4 + 0x100 |}.

(** The process with a second one waiting in the queue. *)
Definition demo_processes (p : pstate) (chunk : Z) : kstate (Z → Z) :=
  set_elf_files {[ block 3 := demo_elf_loaded ]}
    (set_processes (block 0 :: 5000 :: replicate 10 0) (set_current_process (block 0)
      (set_procs {[ block 0 := demo_process ]}
        (set_tasks {[ block 1 := demo_task chunk 6000 0 0x400000; 6000 := demo_task 7000 0 (block 1) 0x400000 ]}
          (set_task_tail 6000 (demo_machine p chunk)))))).

Lemma demo_proc_mem p chunk dir Ts : demo_memory p chunk dir Ts →
  proc_mem (demo_processes p chunk) (block 0) demo_process (demo_task chunk 6000 0 0x400000) dir Ts demo_allocs 4.
Proof.
  intros Hm. split; [done|done|apply Hm|]. split.
  - done.
  - intros i j a b Hi _ _ Ha. apply lookup_replicate in Hi as [-> _]. done.
  - intros i a Hi Ha. apply lookup_replicate in Hi as [-> _]. done.
  - intros i a Hi Ha. apply lookup_replicate in Hi as [-> _]. done.
Qed.

Lemma process_malloc_correct_witness :
  ∃ p chunk dir Ts ptr s', demo_memory p chunk dir Ts ∧
    process_malloc (block 0) 12 (demo_processes p chunk) = Done (ptr, s') ∧
    malloced (demo_processes p chunk) s' (block 0) demo_process (demo_task chunk 6000 0 0x400000) dir Ts
      demo_allocs 3 12 ptr 0.
Proof.
  destruct demo_memory_exists as (p & chunk & dir & Ts & Hm). exists p, chunk, dir, Ts.
  destruct (process_malloc_correct _ _ _ _ _ _ _ _ 12 (demo_proc_mem p chunk dir Ts Hm)) as (ptr & s' & E & H).
  - done.
  - by exists ptr, s'.
Defined.

Lemma process_free_correct_witness :
  ∃ p chunk dir Ts ptr s s', demo_memory p chunk dir Ts ∧
    process_malloc (block 0) 12 (demo_processes p chunk) = Done (ptr, s) ∧
    process_free (block 0) ptr s = Done (tt, s') ∧
    kheap_owns (pmem (kpaging s')) (with_blocks (Ts ++ [dir; chunk]) demo_allocs) 4.
Proof.
  destruct demo_memory_exists as (p & chunk & dir & Ts & Hm). exists p, chunk, dir, Ts.
  pose proof (demo_proc_mem p chunk dir Ts Hm) as Hpm.
  destruct (kzalloc_fresh (pmem p) _ 3 12 (co_owns _ _ _ _ _ _ (dm_owned _ _ _ _ Hm))) as (ptr & k1 & Ez & Hf); [done|].
  destruct (process_malloc_spec _ _ _ _ _ _ _ _ 3 12 ptr k1 O Hpm) as (s & E & [[HA H0] Hpm' _ _ _ _]);
    [by apply small_valid|exact Ez|exact Hf|done|].
  exists ptr, s. change (size_blocks 12) with 1%nat in Hpm'.
  pose proof (process_free_correct _ _ _ _ _ _ _ _ ptr Hpm') as Hfree.
  unfold slot_of in Hfree. cbn [allocations set_allocations demo_process set_process_task set_process_stack
    set_process_ptr set_filetype set_process_id zero_process replicate Z.to_nat VANA_MAX_PROGRAM_ALLOCATIONS
    Pos.to_nat Pos.iter_op Nat.add] in Hfree.
  match type of Hfree with context [list_find ?P ?l] =>
    assert (list_find P l = Some (O, {| alloc_ptr := ptr; alloc_size := 12 |})) as El
      by (change l with ({| alloc_ptr := ptr; alloc_size := 12 |} :: tail l); cbn [list_find]; by rewrite decide_True)
  end.
  rewrite El in Hfree. cbn [fmap option_fmap option_map fst] in Hfree. rewrite decide_False in Hfree by done.
  destruct Hfree as (a & s' & Ha & E' & [Hpm'' _ _ _ _]). exists s'. split_and!; [done|done|done|].
  assert (a = {| alloc_ptr := ptr; alloc_size := 12 |}) as -> by (cbn in Ha; by injection Ha).
  pose proof (co_owns _ _ _ _ _ _ (pm_dir _ _ _ _ _ _ _ _ Hpm'')) as Ho.
  by rewrite delete_insert_id in Ho by done.
Defined.

Lemma process_terminate_releases_witness :
  ∃ p chunk dir Ts s', demo_memory p chunk dir Ts ∧
    process_terminate (block 0) (demo_processes p chunk) = Done (0, s') ∧
    kheap_owns (pmem (kpaging s')) ∅ (4 + Z.to_nat 1026 + 5) ∧ queue s' [6000] ∧
    processes s' = 0 :: 5000 :: replicate 10 0 ∧ current_process s' = 5000.
Proof.
  destruct demo_memory_exists as (p & chunk & dir & Ts & Hm). exists p, chunk, dir, Ts.
  destruct (process_terminate_releases (demo_processes p chunk) (block 0) demo_process
    (demo_task chunk 6000 0 0x400000) dir Ts demo_allocs 4 [block 3; block 4] [] [6000] 5000)
    as (s' & E & Ho & Hq & _ & _ & _ & Hl & Hc); [| |done|reflexivity|reflexivity|done|reflexivity|].
  - split; [by apply demo_proc_mem| |done|apply (bool_decide_unpack _); by vm_compute|apply (bool_decide_unpack _); by vm_compute].
    split; [done|]. left. split; [done|]. by exists demo_elf_loaded.
  - split; try done.
    + cbn. split_and!; try done; by eexists.
    + apply (bool_decide_unpack _). by vm_compute.
    + by repeat constructor.
    + left.
  - exists s'. split_and!; [done|done| |done..].
    assert (without (proc_blocks (block 0) demo_process [block 3; block 4]) demo_allocs = ∅) as <- by (by vm_compute).
    exact Ho.
Defined.
