(* ===== verification/Kernel.v ===== *)
(** * System calls, interrupts and boot

    Models the system call handlers (isr80h/heap.c, io.c, misc.c, process.c), the
    dispatchers of idt/idt.c and the entry point [kernel_main] of kernel.c.

    A handler may leave the kernel through [task_return]; its result is then
    [EntersUser] and the code after the call is not run. *)

From S2P Require Import Prelude Config CString Terminal Heap Kheap Paging Idt Gdt Keyboard PathParser Disk Fat16 FatLookup File System Elf Task Process.

Local Open Scope Z_scope.

Section kernel.
Context {D : Type} `{BlockDevice D} `{Ports D}.

(** The bytes that an uninitialised local array of [n] characters holds. *)
Context (uninit : Z → list Z).
(** The address of the static keyboard descriptor. *)
Context (classic_keyboard : Z).

Definition current_process_of_task : M (kstate D) Z :=
  cur ← gets current_task; x ← get_task cur; mret (task_process x).

Definition stack_item (index : Z) : M (kstate D) Z :=
  cur ← gets current_task; task_get_stack_item cur index.

(** ** isr80h/misc.c and isr80h/io.c *)

Definition command0_sum : M (kstate D) flow :=
  a ← stack_item 0; b ← stack_item 1; mret (Returns (u32 (s32 a + s32 b))).

Definition command1_print : M (kstate D) flow :=
  user_space_msg_buffer ← stack_item 0;
  cur ← gets current_task;
  r ← copy_string_from_task cur user_space_msg_buffer (uninit 1024) 1024;
  in_console (print r.2);;
  mret (Returns 0).

Definition command2_getkey : M (kstate D) flow :=
  c ← in_kbd (zoom kbuffer set_kbuffer keyboard_pop); mret (Returns (u32 c)).

Definition command3_putchar : M (kstate D) flow :=
  c ← stack_item 0; in_console (terminal_writechar (s8 c) 15);; mret (Returns 0).

(** ** isr80h/heap.c *)

Definition command4_malloc : M (kstate D) flow :=
  size ← stack_item 0;
  p ← current_process_of_task;
  ptr ← process_malloc p (u32 (s32 size));
  mret (Returns ptr).

Definition command5_free : M (kstate D) flow :=
  ptr_to_free ← stack_item 0;
  p ← current_process_of_task;
  process_free p ptr_to_free;;
  mret (Returns 0).

(** ** isr80h/process.c *)

(** Switching to the task of a freshly loaded process. *)
Definition enter_process (p : Z) : M (kstate D) flow :=
  x ← get_process p;
  task_switch (process_task x);;
  t ← get_task (process_task x);
  task_return (task_registers t).

Definition command6_process_load_start (fuel : nat) : M (kstate D) flow :=
  filename_user_ptr ← stack_item 0;
  cur ← gets current_task;
  r ← copy_string_from_task cur filename_user_ptr (uninit VANA_MAX_PATH) VANA_MAX_PATH;
  let '(res, filename) := r in
  if res <? 0 then mret (Returns 0)
  else
    path ← liftO (strcpy (uninit VANA_MAX_PATH) (text "0:/"));
    rest ← liftO (strcpy (drop 3 path) filename);
    r ← process_load_switch fuel (take 3 path ++ rest) 0;
    if r.1 <? 0 then mret (Returns 0) else enter_process r.2.

(** Of [strlen] only the comparison of its result with 0 matters. *)
Definition command7_invoke_system_command (fuel : nat) : M (kstate D) flow :=
  item ← stack_item 0;
  cur ← gets current_task;
  arguments ← task_virtual_address_to_physical cur item;
  m ← gets kram;
  if (arguments =? 0) || (m arguments =? 0) then mret (Returns (ERROR (- EINVARG)))
  else
    path ← liftO (strcpy (uninit VANA_MAX_PATH) (text "0:/"));
    rest ← liftO (strncpy (drop 3 path) (load_bytes m arguments sizeof_argument) (VANA_MAX_PATH - 3));
    r ← process_load_switch fuel (take 3 path ++ rest) 0;
    let '(res, p) := r in
    if res <? 0 then mret (Returns (ERROR res))
    else
      res ← process_inject_arguments fuel p arguments;
      if res <? 0 then mret (Returns (ERROR res)) else enter_process p.

Definition command8_get_program_arguments : M (kstate D) flow :=
  p ← current_process_of_task;
  item ← stack_item 0;
  cur ← gets current_task;
  arguments ← task_virtual_address_to_physical cur item;
  r ← process_get_arguments p;
  store_at arguments (bytes32 r.1);;
  store_at (arguments + 4) (bytes32 r.2);;
  mret (Returns 0).

Definition command9_exit : M (kstate D) flow :=
  p ← current_process_of_task; process_terminate p;; task_next.

(** ** The dispatchers of idt.c *)

Definition run_command (fuel : nat) (c : command) : M (kstate D) flow :=
  match c with
  | NullCommand => undef
  | isr80h_command0_sum => command0_sum
  | isr80h_command1_print => command1_print
  | isr80h_command2_getkey => command2_getkey
  | isr80h_command3_putchar => command3_putchar
  | isr80h_command4_malloc => command4_malloc
  | isr80h_command5_free => command5_free
  | isr80h_command6_process_load_start => command6_process_load_start fuel
  | isr80h_command7_invoke_system_command => command7_invoke_system_command fuel
  | isr80h_command8_get_program_arguments => command8_get_program_arguments
  | isr80h_command9_exit => command9_exit
  end.

Definition isr80h_handle_command (fuel : nat) (cmd : Z) : M (kstate D) flow :=
  if (cmd <? 0) || (VANA_MAX_ISR80H_COMMANDS <=? cmd) then mret (Returns 0)
  else
    l ← gets (λ s, isr80h_commands (kidt (kkbd s)));
    func ← liftO l.[cmd];
    if decide (func = NullCommand) then mret (Returns 0) else run_command fuel func.

Definition isr80h_handler (fuel : nat) (cmd : Z) (frame : interrupt_frame) : M (kstate D) flow :=
  kernel_page;;
  task_current_save_state frame;;
  res ← isr80h_handle_command fuel cmd;
  match res with
  | EntersUser regs => mret (EntersUser regs)
  | Returns v => task_page;; mret (Returns v)
  end.

Definition handle_exception : M (kstate D) flow :=
  p ← current_process_of_task; process_terminate p;; task_next.

Definition run_callback (cb : callback) : M (kstate D) flow :=
  match cb with
  | NullCallback => undef
  | idt_handle_exception => handle_exception
  | CallbackIgnore => in_ports interrupt_ignore;; mret (Returns 0)
  | classic_keyboard_handler => in_kbd (classic_keyboard_handle_interrupt classic_keyboard);; mret (Returns 0)
  end.

(** The index of a negative vector is not checked. *)
Definition interrupt_handler (interrupt : Z) : M (kstate D) flow :=
  res ← (if interrupt <? IDT_TOTAL_DESCRIPTORS then
           l ← gets (λ s, interrupt_callbacks (kidt (kkbd s)));
           cb ← liftO l.[interrupt];
           if decide (cb = NullCallback) then
             buf ← liftO (int_to_string interrupt (uninit 32));
             in_console (print (text "Unhandled interrupt "));;
             in_console (print buf);;
             in_console (print (line ""));;
             kpanic (text "")
           else run_callback cb
         else mret (Returns 0));
  match res with
  | EntersUser regs => mret (EntersUser regs)
  | Returns v =>
      (if (0x20 <=? interrupt) && (interrupt <=? 0x2F)
       then in_ports (pic_send_eoi (interrupt - 0x20)) else mret tt);;
      mret (Returns v)
  end.

(** ** kernel.c *)

Definition set_interrupts (b : bool) : M (kstate D) unit :=
  modify (λ s, set_kcpu {| data_segments := data_segments (kcpu s); interrupts_on := b;
                           gdtr := gdtr (kcpu s); tr := tr (kcpu s) |} s).
Definition enable_interrupts : M (kstate D) unit := set_interrupts true.
Definition disable_interrupts : M (kstate D) unit := set_interrupts false.

(** [lgdt] and the reload of the segment registers. *)
Definition gdt_load (size address : Z) : M (kstate D) unit :=
  modify (λ s, set_kcpu {| data_segments := KernelSegments; interrupts_on := interrupts_on (kcpu s);
                           gdtr := (size, address); tr := tr (kcpu s) |} s).
Definition tss_load (selector : Z) : M (kstate D) unit :=
  modify (λ s, set_kcpu {| data_segments := data_segments (kcpu s); interrupts_on := interrupts_on (kcpu s);
                           gdtr := gdtr (kcpu s); tr := selector |} s).

(** The test routine of kernel.c; [argument] is the address of its local
    [struct command_argument]. *)
Definition inject_process_args (fuel : nat) (argument : Z) : M (kstate D) unit :=
  let set_argument (str : list Z) :=
    m ← gets kram;
    buf ← liftO (strcpy (load_bytes m argument sizeof_argument) str);
    store_at argument buf;;
    store_at (argument + sizeof_argument) (bytes32 0) in
  r ← process_load_switch fuel (text "0:/blank.elf") 0;
  (if negb (r.1 =? VANA_ALL_OK) then kpanic (line "Failed to load blank.elf") else mret tt);;
  set_argument (text "Testing!");;
  process_inject_arguments fuel r.2 argument;;
  r ← process_load_switch fuel (text "0:/blank.elf") r.2;
  (if negb (r.1 =? VANA_ALL_OK) then kpanic (line "Failed to load blank.elf") else mret tt);;
  set_argument (text "Abc!");;
  process_inject_arguments fuel r.2 argument;;
  mret tt.

Section main.
(** Link-time addresses. *)
Context (tss gdt_real_addr idt_descriptors_addr isr80h_wrapper : Z) (interrupt_pointer_table : Z → Z).

Definition say (s : list Z) : M (kstate D) unit := in_console (print s).

(** [kernel_main] up to the interrupt tables. *)
Definition kernel_setup_tables : M (kstate D) unit :=
  in_console terminal_initialize;;
  say (line "Terminal ready.");;
  disable_interrupts;;
  gdt ← gets gdt_real;
  gdt ← liftO (mapM (λ e, memset e 0x00 8) gdt);
  (λ s, match gdt_structured_to_gdt gdt (kernel_gdt_structured tss) VANA_TOTAL_GDT_SEGMENTS with
        | Done g => Done (tt, set_gdt_real g s)
        | Panic => Panic | Undef => Undef | Spin => Spin
        end);;
  gdt_load (VANA_TOTAL_GDT_SEGMENTS * 8 - 1) (u32 gdt_real_addr);;
  say (line "GDT loaded.");;
  in_heap kheap_init;;
  say (line "Heap initialized.");;
  modify (set_tss_stack (0x600000, GDT_KERNEL_DATA_SELECTOR));;
  tss_load GDT_TSS_SELECTOR;;
  say (line "TSS loaded.");;
  in_idt (idt_init interrupt_pointer_table isr80h_wrapper idt_descriptors_addr);;
  in_idt isr80h_register_commands;;
  say (line "IDT initialized.").

(** The drivers and paging. *)
Definition kernel_setup_drivers (fuel : nat) : M (kstate D) unit :=
  in_idt (idt_register_interrupt_callback 0x20 CallbackIgnore);;
  in_vfs fs_init;;
  in_vfs (disk_search_and_init fuel);;
  stream ← in_vfs (in_fat (in_disk (diskstreamer_new 0)));
  (if negb (stream =? 0) then in_vfs (in_fat (in_disk (diskstreamer_close stream))) else mret tt);;
  say (line "Disk initialized.");;
  in_kbd (keyboard_init classic_keyboard);;
  say (line "Keyboard initialized.");;
  chunk ← in_paging (paging_new_4gb (Z.lor (Z.lor PAGING_IS_WRITEABLE PAGING_IS_PRESENT) PAGING_ACCESS_FROM_ALL));
  modify (set_kernel_chunk chunk);;
  in_paging (paging_switch chunk);;
  in_paging enable_paging;;
  say (line "Paging enabled.").

Definition kernel_main (fuel : nat) : M (kstate D) flow :=
  kernel_setup_tables;;
  kernel_setup_drivers fuel;;
  r ← process_load_switch fuel (text "0:/shell.elf") 0;
  (if negb (r.1 =? VANA_ALL_OK) then kpanic (line "Failed to load shell.elf") else mret tt);;
  in_ports (outb 0x21 0xFC);;
  in_ports (outb 0xA1 0xFF);;
  enable_interrupts;;
  task_run_first_ever_task.
End main.
End kernel.
