(* ===== verification/Syscall.v ===== *)
(** * System calls from end to end

    Properties of the dispatcher of idt/idt.c together with the handlers of
    isr80h/: a system call of a task is answered from the words and strings the
    task has put in its own memory, and the task goes on in its own address space
    with its registers saved.  The last theorem is about the exit call. *)

From S2P Require Import Prelude Config CString Terminal Heap Kheap Paging Idt Gdt Keyboard PathParser Disk Fat16 FatLookup File System Elf Task UserMem Process ProcessMem Kernel.

Local Open Scope Z_scope.

(** A word seen at [v] under the directory [dir]. *)
Definition user_word (m : memory) (dir v w : Z) : Prop :=
  ∃ a b c d, mmu m dir v = Some a ∧ mmu m dir (v + 1) = Some b ∧
             mmu m dir (v + 2) = Some c ∧ mmu m dir (v + 3) = Some d ∧
             w = m a + m b * 2 ^ 8 + m c * 2 ^ 16 + m d * 2 ^ 24.

Definition frame_registers (frame : interrupt_frame) : registers :=
  {| r_edi := f_edi frame; r_esi := f_esi frame; r_ebp := f_ebp frame; r_ebx := f_ebx frame;
     r_edx := f_edx frame; r_ecx := f_ecx frame; r_eax := f_eax frame; r_ip := f_ip frame;
     r_cs := f_cs frame; r_flags := f_flags frame; r_esp := f_esp frame; r_ss := f_ss frame |}.

Section syscall.
Context {D : Type} `{BlockDevice D}.
Context (uninit : Z → list Z).
Implicit Types s : kstate D.

(** The CPU in the kernel, with its page directory. *)
Definition kernel_mode s (kd : Z) : kstate D :=
  set_kpaging (set_directory kd (kpaging s)) (set_kcpu (kernel_segments (kcpu s)) s).

(** ... and back in a task. *)
Definition task_mode s (t dir : Z) : kstate D :=
  set_kpaging (set_directory dir (kpaging s)) (set_current_task t
    (set_kcpu {| data_segments := UserSegments; interrupts_on := interrupts_on (kcpu s);
                 gdtr := gdtr (kcpu s); tr := tr (kcpu s) |} s)).

(** After the entry into the kernel: the registers of the task are saved. *)
Definition entered_kernel s (t : Z) (x : task) (frame : interrupt_frame) (kd : Z) : kstate D :=
  set_tasks (<[t := set_task_registers (frame_registers frame) x]> (tasks s)) (kernel_mode s kd).

Lemma isr80h_entry s t x frame kd :
  current_task s = t → t ≠ 0 → tasks s !! t = Some x → chunks (kpaging s) !! kernel_chunk s = Some kd →
  (kernel_page;; task_current_save_state frame) s = Done (tt, entered_kernel s t x frame kd).
Proof.
  intros Hc Ht Hx Hk. rewrite (bind_done _ _ _ _ _ (kernel_page_done _ _ Hk)).
  unfold task_current_save_state. rewrite bind_gets. change (current_task _) with (current_task s).
  rewrite Hc, (proj2 (Z.eqb_neq _ _) Ht). rewrite bind_mret. by apply (update_task_done (kernel_mode s kd) t x).
Qed.

Lemma task_page_spec s t x dir : current_task s = t → runnable s t x dir →
  task_page s = Done (0, task_mode s t dir).
Proof.
  intros Hc Hr. unfold task_page, user_registers, set_segments. rewrite bind_modify, bind_gets.
  change (current_task _) with (current_task s). rewrite Hc.
  set (s1 := set_kcpu _ s). assert (runnable s1 t x dir) as Hr1 by exact Hr.
  by rewrite (bind_done _ _ _ _ _ (task_switch_spec s1 t x dir Hr1)).
Qed.

(** The dispatcher around a handler that returns. *)
Lemma isr80h_handler_spec fuel cmd s t x frame kd v s2 x2 dir :
  current_task s = t → t ≠ 0 → tasks s !! t = Some x → chunks (kpaging s) !! kernel_chunk s = Some kd →
  isr80h_handle_command uninit fuel cmd (entered_kernel s t x frame kd) = Done (Returns v, s2) →
  current_task s2 = t → runnable s2 t x2 dir →
  isr80h_handler uninit fuel cmd frame s = Done (Returns v, task_mode s2 t dir).
Proof.
  intros Hc Ht Hx Hk Hh Hc2 Hr. pose proof (isr80h_entry s t x frame kd Hc Ht Hx Hk) as He.
  apply bind_done_inv in He as (? & s1 & E1 & E2). unfold isr80h_handler.
  rewrite (bind_done _ _ _ _ _ E1), (bind_done _ _ _ _ _ E2), (bind_done _ _ _ _ _ Hh).
  by rewrite (bind_done _ _ _ _ _ (task_page_spec _ _ _ _ Hc2 Hr)).
Qed.

(** ** Words on the stack of the task *)

Lemma vread32_spec s v w : user_word (kram s) (cr3 (kpaging s)) v w → vread32 v s = Done (w, s).
Proof.
  intros (a & b & c & d & Ha & Hb & Hc & Hd & ->). unfold vread32.
  rewrite (bind_done _ _ _ _ _ (vread_spec _ _ _ Ha)), (bind_done _ _ _ _ _ (vread_spec _ _ _ Hb)).
  by rewrite (bind_done _ _ _ _ _ (vread_spec _ _ _ Hc)), (bind_done _ _ _ _ _ (vread_spec _ _ _ Hd)).
Qed.

Lemma task_get_stack_item_spec s t x dir kd index w :
  runnable s t x dir → chunks (kpaging s) !! kernel_chunk s = Some kd →
  user_word (kram s) dir (r_esp (task_registers x) + 4 * index) w →
  task_get_stack_item t index s = Done (w, kernel_mode s kd).
Proof.
  intros [Hx Hd] Hk Hw. unfold task_get_stack_item, get_task. rewrite (bind_get_obj _ _ x) by done.
  unfold task_page_task, user_registers, set_segments, get_task.
  set (s1 := set_kcpu {| data_segments := UserSegments; interrupts_on := interrupts_on (kcpu s);
                         gdtr := gdtr (kcpu s); tr := tr (kcpu s) |} s).
  erewrite bind_done.
  2:{ rewrite bind_modify. fold s1. rewrite (bind_get_obj _ _ x) by done.
      rewrite (bind_done _ _ _ tt (set_kpaging (set_directory dir (kpaging s)) s1)); [reflexivity|].
      by apply in_paging_done, paging_switch_done. }
  rewrite (bind_done _ _ _ w (set_kpaging (set_directory dir (kpaging s)) s1)) by (by apply vread32_spec).
  by rewrite (bind_done _ _ _ _ _ (kernel_page_done (set_kpaging (set_directory dir (kpaging s)) s1) kd Hk)).
Qed.

Lemma stack_item_spec s t x dir kd index w :
  current_task s = t → runnable s t x dir → chunks (kpaging s) !! kernel_chunk s = Some kd →
  user_word (kram s) dir (r_esp (task_registers x) + 4 * index) w →
  stack_item index s = Done (w, kernel_mode s kd).
Proof. intros Hc Hr Hk Hw. unfold stack_item. rewrite bind_gets, Hc. by eapply task_get_stack_item_spec. Qed.

Lemma handle_command_spec fuel cmd c s r :
  (isr80h_commands (kidt (kkbd s))).[cmd] = Some c → c ≠ NullCommand → 0 <= cmd < VANA_MAX_ISR80H_COMMANDS →
  run_command uninit fuel c s = Done r → isr80h_handle_command uninit fuel cmd s = Done r.
Proof.
  intros Hc Hn Hr E. unfold isr80h_handle_command.
  rewrite (proj2 (Z.ltb_ge _ _)), (proj2 (Z.leb_gt _ _)) by lia. cbn [orb].
  rewrite bind_gets, (bind_liftO _ _ c) by done. by rewrite decide_False.
Qed.

(** ** Printing *)

Lemma user_bytes_take s A dir v l k : user_bytes s A dir v l → user_bytes s A dir v (take k l).
Proof. intros Hu i c Hi. apply lookup_take_Some in Hi as [Hi _]. by apply Hu. Qed.

Lemma in_console_done {B} (m : M terminal B) s a c :
  m (console (pmem (kpaging s))) = Done (a, c) →
  in_console m s = Done (a, set_kpaging (set_pmem (set_console c (pmem (kpaging s))) (kpaging s)) s).
Proof. intros E. unfold in_console. apply in_heap_done. by apply zoom_done. Qed.

(** A task in the kernel: what a handler relies on. *)
Record in_call s (t : Z) (x : task) (dir : Z) (Ts : list Z) (A : gmap Z nat) (n : nat) (kd : Z) : Prop := {
  ic_current : current_task s = t;
  ic_nonnull : t ≠ 0;
  ic_task : tasks s !! t = Some x;
  ic_dir : chunk_owned (kpaging s) (page_directory x) dir Ts A n;
  ic_present : tables_present (kram s) dir;
  ic_kernel : chunks (kpaging s) !! kernel_chunk s = Some kd
}.

Lemma in_call_entered s t x dir Ts A n kd frame : in_call s t x dir Ts A n kd →
  in_call (entered_kernel s t x frame kd) t (set_task_registers (frame_registers frame) x) dir Ts A n kd.
Proof.
  intros [H1 H2 H3 H4 H5 H6]. split; [done|done|by cbn; rewrite lookup_insert_eq|by destruct H4|done|done].
Qed.

Lemma in_call_kernel_mode s t x dir Ts A n kd : in_call s t x dir Ts A n kd →
  in_call (kernel_mode s kd) t x dir Ts A n kd.
Proof. intros [H1 H2 H3 H4 H5 H6]. split; [done|done|done|by destruct H4|done|done]. Qed.

Lemma in_call_runnable s t x dir Ts A n kd : in_call s t x dir Ts A n kd → runnable s t x dir.
Proof. intros Hi. split; apply Hi. Qed.

Lemma command1_print_spec s t x dir Ts A n kd ptr str :
  let A' := with_blocks (Ts ++ [dir; page_directory x]) A in
  let tm := console (pmem (kpaging s)) in
  in_call s t x dir Ts A (S n) kd → length (uninit 1024) = Z.to_nat 1024 → Forall is_u8 (uninit 1024) →
  user_word (kram s) dir (r_esp (task_registers x)) ptr →
  nonzero str → Forall is_u8 str → user_bytes s A' dir ptr (take (Z.to_nat 1023) (str ++ [0])) →
  let shown := take (Z.to_nat 1023) str in
  terminal_wf tm → 8 ∉ shown → end_pos shown (pos_of tm) <= Z.of_nat (length (vga tm)) →
  ∃ s1 s2 tm', command1_print uninit s = Done (Returns 0, s2) ∧ borrowed (kernel_mode s kd) s1 A' (S n) kd ∧
    s2 = set_kpaging (set_pmem (set_console tm' (pmem (kpaging s1))) (kpaging s1)) s1 ∧
    (vga tm', pos_of tm') = render shown (pos_of tm) (vga tm).
Proof.
  intros A' tm Hic Hul Hub Hw Hnz Hu8 Hstr shown Htm H8 Hend. pose proof (in_call_runnable _ _ _ _ _ _ _ _ Hic) as Hr.
  pose proof (in_call_kernel_mode _ _ _ _ _ _ _ _ Hic) as Hic1.
  destruct (copy_string_spec (kernel_mode s kd) t x dir Ts A n kd ptr str (uninit 1024) 1024) as (s1 & Ec & Hb);
    try apply Hic1; try done.
  { rewrite Hul. lia. }
  set (k := Nat.min (Z.to_nat (1024 - 1)) (length str)) in Ec. assert (take k str = shown) as Ek.
  { unfold k, shown. change (1024 - 1) with 1023. destruct (decide (Z.to_nat 1023 ≤ length str)%nat); [by rewrite Nat.min_l|].
    by rewrite !take_ge by lia. }
  rewrite Ek in Ec.
  destruct (print_spec tm (shown ++ 0 :: drop (S k) (uninit 1024)) shown) as (tm' & Ep & _ & Er); try done.
  { apply Forall_app. split; [by apply Forall_take|]. apply Forall_cons. split; [range|]. by apply Forall_drop. }
  { apply cstr_app. by apply Forall_take. }
  eexists s1, _, tm'. split_and!; [|exact Hb|reflexivity|exact Er].
  unfold command1_print. rewrite (bind_done _ _ _ ptr (kernel_mode s kd)).
  2:{ eapply stack_item_spec; [apply Hic|exact Hr|apply Hic|]. by rewrite Z.mul_0_r, Z.add_0_r. }
  rewrite bind_gets. change (current_task (kernel_mode s kd)) with (current_task s).
  rewrite (ic_current _ _ _ _ _ _ _ _ Hic), (bind_done _ _ _ _ _ Ec). cbn [snd].
  erewrite bind_done; [reflexivity|]. apply in_console_done. rewrite (bo_console _ _ _ _ _ Hb). exact Ep.
Qed.

(** C6: the print system call.  A task calls command 1, which is registered, with the
    address of a string of its own memory on its stack; the heap has a free block,
    and the first 1023 characters of the string have no backspace and fit in the
    window.  Then exactly these characters appear on the console; the task returns
    to its own address space with its registers saved, the heap has the allocations
    it had, and no byte of memory outside the free blocks has changed. *)
Theorem isr80h_print_correct fuel s t x frame dir Ts A n kd ptr str :
  let A' := with_blocks (Ts ++ [dir; page_directory x]) A in
  let tm := console (pmem (kpaging s)) in
  in_call s t x dir Ts A (S n) kd →
  (isr80h_commands (kidt (kkbd s))).[1] = Some isr80h_command1_print →
  length (uninit 1024) = Z.to_nat 1024 → Forall is_u8 (uninit 1024) →
  user_word (kram s) dir (f_esp frame) ptr →
  nonzero str → Forall is_u8 str → user_bytes s A' dir ptr (take (Z.to_nat 1023) (str ++ [0])) →
  let shown := take (Z.to_nat 1023) str in
  terminal_wf tm → 8 ∉ shown → end_pos shown (pos_of tm) <= Z.of_nat (length (vga tm)) →
  ∃ s', isr80h_handler uninit fuel 1 frame s = Done (Returns 0, s') ∧
    (let tm' := console (pmem (kpaging s')) in (vga tm', pos_of tm') = render shown (pos_of tm) (vga tm)) ∧
    current_task s' = t ∧ tasks s' = <[t := set_task_registers (frame_registers frame) x]> (tasks s) ∧
    cr3 (kpaging s') = dir ∧ data_segments (kcpu s') = UserSegments ∧
    kheap_owns (pmem (kpaging s')) A' (S n) ∧
    ∀ a, settled (pmem (kpaging s)) A' a → kram s' a = kram s a.
Proof.
  intros A' tm Hic Hcmd Hul Hub Hw Hnz Hu8 Hstr shown Htm H8 Hend.
  pose proof (in_call_entered _ _ _ _ _ _ _ _ frame Hic) as Hic1. set (s0 := entered_kernel s t x frame kd) in *.
  destruct (command1_print_spec s0 t _ dir Ts A n kd ptr str Hic1) as (s1 & s2 & tm' & E & Hb & Es2 & Er); try done.
  assert (tasks s2 = tasks s0 ∧ current_task s2 = t) as [Ht2 Hc2].
  { rewrite Es2. cbn. rewrite (bo_state _ _ _ _ _ Hb). split; [done|]. apply Hic. }
  exists (task_mode s2 t dir). split_and!.
  - apply (isr80h_handler_spec _ _ s t x frame kd 0 s2 (set_task_registers (frame_registers frame) x)); [apply Hic|apply Hic|apply Hic|apply Hic| |exact Hc2|split].
    + eapply handle_command_spec; [exact Hcmd|done|done|exact E].
    + rewrite Ht2. apply Hic1.
    + rewrite Es2. cbn. rewrite (bo_chunks _ _ _ _ _ Hb). apply Hic.
  - rewrite Es2. exact Er.
  - done.
  - exact Ht2.
  - done.
  - done.
  - rewrite Es2. apply (bo_owns _ _ _ _ _ Hb).
  - intros a Ha. rewrite Es2. change (kram s1 a = kram s a). rewrite (bo_ram _ _ _ _ _ Hb); [done|exact Ha].
Qed.

(** ** Exit *)

(** The exit system call.  Everything the process owned is released (the heap
    is left with the allocations of the others), and the CPU goes to another
    task.  It is not the next task of the run queue, however: removing the task
    of the process already moves [current_task] to its successor [v], and
    [task_next] moves on from there, so that [w], two places behind, runs and [v]
    loses its turn. *)
Theorem exit_releases_and_skips s p x t dir Ts A n ps us v w vs c y dw :
  proc_owned s p x t dir Ts A n ps → current_task s = process_task x → task_process t = p →
  queue s (us ++ process_task x :: v :: w :: vs) → task_prev t = default 0 (last us) →
  length (processes s) = Z.to_nat VANA_MAX_PROCESSES → 0 <= process_id x < VANA_MAX_PROCESSES →
  (if decide (current_process s = p)
   then some_process (<[Z.to_nat (process_id x) := 0]> (processes s)) = Some c else c = current_process s) →
  runnable s w y dw → page_directory y ≠ page_directory t →
  let bs := proc_blocks p x ps in
  ∃ s', command9_exit s = Done (EntersUser (user_mode (task_registers y)), s') ∧
    queue s' (us ++ v :: w :: vs) ∧ current_task s' = w ∧ cr3 (kpaging s') = dw ∧
    kheap_owns (pmem (kpaging s')) (without bs A) (n + Z.to_nat 1026 + blocks_at A bs).
Proof.
  intros Hpo Hct Htp Hq Hprev Hl Hid Hc [Hy Hdw] Hne bs.
  destruct (process_terminate_spec s p x t dir Ts A n ps us (v :: w :: vs) c Hpo Hq)
    as (s1 & E & Ho & Hq1 & _ & _ & Hch & Hts & _ & _ & Hct1); [by destruct us|done..|].
  rewrite decide_True in Hct1 by done. cbn in Hct1.
  pose proof (q_nodup _ _ Hq) as Hnd. apply NoDup_app in Hnd as (_ & Hdis & Hnd).
  assert ((w ∉ us) ∧ w ≠ process_task x) as [Hwu Hwt].
  { split; [intros Hin; apply (Hdis w Hin); right; right; left|].
    intros ->. apply NoDup_cons in Hnd as [Hn _]. apply Hn. right. left. }
  assert (turn (us ++ v :: w :: vs) (S (length us)) = w) as Eturn.
  { unfold turn. rewrite Nat.mod_small by (rewrite length_app; cbn; lia).
    rewrite lookup_app_r by lia. by replace (S (length us) - length us)%nat with 1%nat by lia. }
  assert (runnable s1 w y dw) as Hr1.
  { split; [by rewrite Hts|]. rewrite Hch. by rewrite lookup_delete_ne. }
  exists (entered s1 w y dw). split_and!.
  - unfold command9_exit. rewrite (bind_done _ _ s p s).
    2:{ unfold current_process_of_task, get_task. rewrite bind_gets, Hct, (bind_get_obj _ _ t) by apply Hpo.
        by rewrite Htp. }
    rewrite (bind_done _ _ _ _ _ E).
    pose proof (task_next_spec s1 (us ++ v :: w :: vs) (length us) y dw Hq1) as Hnext. rewrite Eturn in Hnext.
    apply Hnext; [|done]. rewrite Hct1. by apply list_lookup_middle.
  - destruct Hq1 as [? ? ? ? ? ?]. split; try done. cbn. apply elem_of_app. right. right. left.
  - done.
  - done.
  - exact Ho.
Qed.
End syscall.

(** ** Examples *)

(** The stack of the task holds the address of its string. *)
Definition demo_frame : interrupt_frame :=
  {| f_edi := 0; f_esi := 0; f_ebp := 0; f_reserved := 0; f_ebx := 0; f_edx := 0; f_ecx := 0; f_eax := 1;
     f_ip := 0x400000; f_cs := USER_CODE_SEGMENT; f_flags := 0x200; f_esp := block 4 + 4; f_ss := USER_DATA_SEGMENT |}.

Definition demo_calling (p : pstate) (chunk : Z) : kstate (Z → Z) :=
  let s := demo_machine p chunk in set_kkbd (set_kidt (set_commands command_table idt_blank) (kkbd s)) s.

Lemma isr80h_print_correct_witness :
  ∃ p chunk dir Ts s', demo_memory p chunk dir Ts ∧
    isr80h_handler (λ n, replicate (Z.to_nat n) 7) 0 1 demo_frame (demo_calling p chunk) = Done (Returns 0, s') ∧
    (vga (console (pmem (kpaging s'))), pos_of (console (pmem (kpaging s')))) =
      render [72; 105] 0 (replicate 400 0).
Proof.
  destruct demo_memory_exists as (p & chunk & dir & Ts & Hm). exists p, chunk, dir, Ts.
  pose proof (dm_console _ _ _ _ Hm) as Hcon. pose proof (dm_hello _ _ _ _ Hm) as Hh.
  destruct (isr80h_print_correct (λ n, replicate (Z.to_nat n) 7) 0 (demo_calling p chunk) (block 1)
    (demo_task chunk 0 0 0x400000) demo_frame dir Ts demo_allocs 3 dir (block 4) [72; 105]) as (s' & E & Er & _).
  - split; [done|done|done|apply Hm|apply Hm|apply Hm].
  - done.
  - by vm_compute.
  - apply Forall_replicate. range.
  - exists (block 4 + 4), (block 4 + 4 + 1), (block 4 + 4 + 2), (block 4 + 4 + 3).
    change (f_esp demo_frame) with (block 4 + 4).
    assert (∀ j, 0 <= j < 4 → mmu (ram (pmem p)) dir (block 4 + 4 + j) = Some (block 4 + 4 + j)) as Hid.
    { intros j Hj. apply (dm_identity _ _ _ _ Hm). unfold block, VANA_HEAP_ADDRESS. range. }
    split_and!; [rewrite <- (Z.add_0_r (block 4 + 4)); by apply Hid|by apply Hid..|].
    pose proof (idx_load_bytes (ram (pmem p)) (block 4) 8 4 ltac:(lia)) as E4.
    pose proof (idx_load_bytes (ram (pmem p)) (block 4) 8 5 ltac:(lia)) as E5.
    pose proof (idx_load_bytes (ram (pmem p)) (block 4) 8 6 ltac:(lia)) as E6.
    pose proof (idx_load_bytes (ram (pmem p)) (block 4) 8 7 ltac:(lia)) as E7.
    rewrite Hh in E4, E5, E6, E7. cbn in E4, E5, E6, E7. injection E4 as E4. injection E5 as E5.
    injection E6 as E6. injection E7 as E7. rewrite <- !Z.add_assoc.
    change (4 + 1) with 5. change (4 + 2) with 6. change (4 + 3) with 7.
    change (kram (demo_calling p chunk)) with (ram (pmem p)). by rewrite <- E4, <- E5, <- E6, <- E7.
  - apply (bool_decide_unpack _). by vm_compute.
  - apply (bool_decide_unpack _). by vm_compute.
  - apply user_bytes_take. by eapply demo_hello.
  - change (console _) with (console (pmem p)). rewrite Hcon. by apply at_pos_wf.
  - apply (bool_decide_unpack _). by vm_compute.
  - change (console _) with (console (pmem p)). rewrite Hcon. by vm_compute.
  - exists s'. split_and!; [done|exact E|]. cbn zeta in Er. rewrite Er.
    change (console _) with (console (pmem p)). by rewrite Hcon.
Defined.

(** Three tasks; the first belongs to the process that exits. *)
Definition demo_exiting (p : pstate) (chunk : Z) : kstate (Z → Z) :=
  let s := demo_processes p chunk in
  set_kpaging (set_chunks (<[8000 := 12288]> (chunks p)) p)
    (set_task_tail 6500 (set_tasks
      {[ block 1 := set_task_process (block 0) (demo_task chunk 6000 0 0x400000);
         6000 := demo_task 7000 6500 (block 1) 0x400010; 6500 := demo_task 8000 0 6000 0x400020 ]} s)).

Lemma exit_releases_and_skips_witness :
  ∃ p chunk dir Ts s', demo_memory p chunk dir Ts ∧ chunk ≠ 8000 ∧
    command9_exit (demo_exiting p chunk) =
      Done (EntersUser (user_mode (task_registers (demo_task 8000 0 6000 0x400020))), s') ∧
    queue s' [6000; 6500] ∧ current_task s' = 6500.
Proof.
  destruct demo_memory_exists as (p & chunk & dir & Ts & Hm). exists p, chunk, dir, Ts.
  assert (chunk ≠ 8000) as Hc.
  { intros ->. destruct (dm_owned _ _ _ _ Hm) as [_ Ho _ _ _ _ _].
    destruct (kheap_owns_range _ _ _ 8000 1 Ho) as [_ Hal]; [|by vm_compute in Hal].
    apply with_blocks_in, elem_of_app. right. right. left. }
  destruct (exit_releases_and_skips (demo_exiting p chunk) (block 0) demo_process
    (set_task_process (block 0) (demo_task chunk 6000 0 0x400000)) dir Ts demo_allocs 4 [block 3; block 4]
    [] 6000 6500 [] 5000 (demo_task 8000 0 6000 0x400020) 12288) as (s' & E & Hq & Hct & _).
  - split; [| |done|apply (bool_decide_unpack _); by vm_compute|apply (bool_decide_unpack _); by vm_compute].
    + destruct (demo_proc_mem p chunk dir Ts Hm) as [Hp _ _ Htab]. split; [vm_compute; reflexivity|reflexivity| |exact Htab].
      destruct (dm_owned _ _ _ _ Hm). split; [cbn; by rewrite lookup_insert_ne|assumption..].
    + split; [done|]. left. split; [done|]. by exists demo_elf_loaded.
  - reflexivity.
  - reflexivity.
  - split.
    + cbn. split_and!; by eexists.
    + apply (bool_decide_unpack _). by vm_compute.
    + apply (bool_decide_unpack _). by vm_compute.
    + reflexivity.
    + reflexivity.
    + left.
  - reflexivity.
  - reflexivity.
  - done.
  - by vm_compute.
  - split; [by vm_compute|]. cbn. by rewrite lookup_insert_eq.
  - cbn. congruence.
  - exists s'. split_and!; [exact Hm|exact Hc|exact E|exact Hq|exact Hct].
Defined.
