(* ===== verification/UserLib.v ===== *)
(** * The library of the user programs: programs/stdlib, programs/shell

    The C library the shell and the other programs are linked with.  Its string
    and memory functions have the text of those of the kernel (CString.v); this
    file adds [itoa], [printf], [strtok], line input and the command parser, and
    one round of the shell.

    A program sees the kernel through its system calls, represented by their
    effect on the caller as Kernel.v and Syscall.v give it.  What the kernel
    answers is arbitrary: [world] holds the values successive calls of
    [vana_getkey], [vana_malloc] and [vana_system] return (0 for a key when none
    is left: the queue is empty; 0 for memory when none is left: no memory), and
    records the characters shown on the terminal, the commands handed to
    [vana_system] and the blocks handed to [vana_free].  Automatic variables
    start with arbitrary contents, [uninit n] for [n] bytes. *)

From S2P Require Import Prelude Config CString Idt.

Local Open Scope Z_scope.

(** ** Numbers *)

Fixpoint itoa_loop (fuel : nat) (i loc : Z) (text : list Z) : option (Z * list Z) :=
  if i =? 0 then Some (loc, text)
  else match fuel with
       | O => None
       | S fuel => text ← text.[loc - 1 <- u8 (48 - Z.rem i 10)]; itoa_loop fuel (Z.quot i 10) (loc - 1) text
       end.

(** The index of the first character and the static buffer [text[12]] after the
    call. *)
Definition itoa (i : Z) (text : list Z) : option (Z * list Z) :=
  text ← text.[11 <- 0];
  let neg := negb (0 <=? i) in
  let i := if 0 <=? i then - i else i in
  r ← itoa_loop 12 i 11 text;
  let '(loc, text) := (r : Z * list Z) in
  r ← (if loc =? 11 then text ← text.[loc - 1 <- 48]; Some (loc - 1, text) else Some (loc, text));
  let '(loc, text) := (r : Z * list Z) in
  if neg then text ← text.[loc - 1 <- 45]; Some (loc - 1, text) else Some (loc, text).

(** ** The world of a program *)

(** A [struct command_argument]: its text and the address of the next one. *)
Record argument := { argument_text : list Z; argument_next : Z }.

Record world := {
  keys : list Z;
  memory_answers : list Z;
  system_answers : list Z;
  shown : list Z;
  started : list Z;
  given_back : list Z;
  argument_blocks : gmap Z argument;
  buffers : gmap Z (list Z);
  sp : option (Z * Z);
  itoa_text : list Z
}.

Definition set_keys (x : list Z) (w : world) : world :=
  {| keys := x; memory_answers := memory_answers w; system_answers := system_answers w; shown := shown w;
     started := started w; given_back := given_back w; argument_blocks := argument_blocks w;
     buffers := buffers w; sp := sp w; itoa_text := itoa_text w |}.
Definition set_memory_answers (x : list Z) (w : world) : world :=
  {| keys := keys w; memory_answers := x; system_answers := system_answers w; shown := shown w;
     started := started w; given_back := given_back w; argument_blocks := argument_blocks w;
     buffers := buffers w; sp := sp w; itoa_text := itoa_text w |}.
Definition set_system_answers (x : list Z) (w : world) : world :=
  {| keys := keys w; memory_answers := memory_answers w; system_answers := x; shown := shown w;
     started := started w; given_back := given_back w; argument_blocks := argument_blocks w;
     buffers := buffers w; sp := sp w; itoa_text := itoa_text w |}.
Definition set_shown (x : list Z) (w : world) : world :=
  {| keys := keys w; memory_answers := memory_answers w; system_answers := system_answers w; shown := x;
     started := started w; given_back := given_back w; argument_blocks := argument_blocks w;
     buffers := buffers w; sp := sp w; itoa_text := itoa_text w |}.
Definition set_started (x : list Z) (w : world) : world :=
  {| keys := keys w; memory_answers := memory_answers w; system_answers := system_answers w;
     shown := shown w; started := x; given_back := given_back w; argument_blocks := argument_blocks w;
     buffers := buffers w; sp := sp w; itoa_text := itoa_text w |}.
Definition set_given_back (x : list Z) (w : world) : world :=
  {| keys := keys w; memory_answers := memory_answers w; system_answers := system_answers w;
     shown := shown w; started := started w; given_back := x; argument_blocks := argument_blocks w;
     buffers := buffers w; sp := sp w; itoa_text := itoa_text w |}.
Definition set_argument_blocks (x : gmap Z argument) (w : world) : world :=
  {| keys := keys w; memory_answers := memory_answers w; system_answers := system_answers w;
     shown := shown w; started := started w; given_back := given_back w; argument_blocks := x;
     buffers := buffers w; sp := sp w; itoa_text := itoa_text w |}.
Definition set_buffers (x : gmap Z (list Z)) (w : world) : world :=
  {| keys := keys w; memory_answers := memory_answers w; system_answers := system_answers w;
     shown := shown w; started := started w; given_back := given_back w;
     argument_blocks := argument_blocks w; buffers := x; sp := sp w; itoa_text := itoa_text w |}.
Definition set_sp (x : option (Z * Z)) (w : world) : world :=
  {| keys := keys w; memory_answers := memory_answers w; system_answers := system_answers w;
     shown := shown w; started := started w; given_back := given_back w;
     argument_blocks := argument_blocks w; buffers := buffers w; sp := x; itoa_text := itoa_text w |}.
Definition set_itoa_text (x : list Z) (w : world) : world :=
  {| keys := keys w; memory_answers := memory_answers w; system_answers := system_answers w;
     shown := shown w; started := started w; given_back := given_back w;
     argument_blocks := argument_blocks w; buffers := buffers w; sp := sp w; itoa_text := x |}.

(** *** The system calls *)

Definition vana_getkey : M world Z := λ w,
  match keys w with k :: ks => Done (k, set_keys ks w) | [] => Done (0, w) end.

Definition vana_malloc (size : Z) : M world Z := λ w,
  match memory_answers w with p :: ps => Done (p, set_memory_answers ps w) | [] => Done (0, w) end.

Definition vana_free (ptr : Z) : M world unit := modify (λ w, set_given_back (given_back w ++ [ptr]) w).

(** The kernel narrows the word on the stack to a [char]. *)
Definition vana_putchar (c : Z) : M world unit := modify (λ w, set_shown (shown w ++ [u8 c]) w).

(** [print]: the kernel copies at most 1023 characters of the string and shows
    them. *)
Definition print (s : list Z) : M world unit :=
  str ← liftO (cstr s); modify (λ w, set_shown (shown w ++ take 1023 str) w).

(** [vana_system] comes back to its caller with an answer of the kernel, or, when
    there is none, not at all. *)
Definition vana_system (root : Z) : M world Z := λ w,
  match system_answers w with
  | r :: rs => Done (r, set_system_answers rs (set_started (started w ++ [root]) w))
  | [] => Spin
  end.

(** The stubs of vana.asm: the command in [eax] and the words on the stack, the
    first stack item first. *)
Inductive stub :=
  | StubPrint (s : Z) | StubSum (a b : Z) | StubGetkey | StubPutchar (c : Z) | StubMalloc (size : Z)
  | StubFree (ptr : Z) | StubProcessLoadStart (filename : Z) | StubSystem (arguments : Z)
  | StubGetArguments (arguments : Z) | StubExit.

Definition stub_call (c : stub) : Z * list Z :=
  match c with
  | StubPrint s => (1, [s])
  | StubSum a b => (0, [a; b])
  | StubGetkey => (2, [])
  | StubPutchar c => (3, [c])
  | StubMalloc size => (4, [size])
  | StubFree ptr => (5, [ptr])
  | StubProcessLoadStart filename => (6, [filename])
  | StubSystem arguments => (7, [arguments])
  | StubGetArguments arguments => (8, [arguments])
  | StubExit => (9, [])
  end.

Definition malloc (size : Z) : M world Z := vana_malloc size.
Definition free (ptr : Z) : M world unit := vana_free ptr.

(** ** stdio *)

Definition putchar (c : Z) : M world Z := vana_putchar (s8 c);; mret 0.

(** A variable argument of [printf]. *)
Inductive vararg := VInt (i : Z) | VString (s : list Z).

(** [print(itoa(ival))] *)
Definition print_int (i : Z) : M world unit :=
  t ← gets itoa_text;
  r ← liftO (itoa i t);
  modify (set_itoa_text r.2);;
  print (drop (Z.to_nat r.1) r.2).

(** The loop over the format; [p] is what is left of the format, terminator
    included. *)
Fixpoint printf_loop (p : list Z) (ap : list vararg) : M world unit :=
  match p with
  | [] => undef
  | c :: p =>
      if c =? 0 then mret tt
      else if negb (c =? 37) then putchar c;; printf_loop p ap
      else
        match p with
        | [] => undef
        | d :: p =>
            if d =? 105 then
              match ap with VInt i :: ap => print_int i;; printf_loop p ap | _ => undef end
            else if d =? 115 then
              match ap with VString s :: ap => print s;; printf_loop p ap | _ => undef end
            else putchar d;; printf_loop p ap
        end
  end.

Definition printf (fmt : list Z) (ap : list vararg) : M world Z := printf_loop fmt ap;; mret 0.

(** ** strtok *)

(** A pointer is a buffer and an offset. *)
Definition peek (p : Z * Z) : M world Z := λ w,
  match b ← buffers w !! p.1; b.[p.2] with Some c => Done (c, w) | None => Undef end.

Definition poke (p : Z * Z) (c : Z) : M world unit := λ w,
  match b ← buffers w !! p.1; b' ← b.[p.2 <- c]; Some (<[p.1 := b']> (buffers w)) with
  | Some bs => Done (tt, set_buffers bs w)
  | None => Undef
  end.

Definition next_char (p : Z * Z) : Z * Z := (p.1, p.2 + 1).

(** Does one of the delimiters match?  (The inner [for] loops.) *)
Definition is_delimiter (c : Z) (delimiters : list Z) : bool := bool_decide (c ∈ delimiters).

Fixpoint skip_delimiters (fuel : nat) (p_start : Z * Z) (delimiters : list Z) : M world (Z * Z) :=
  match fuel with
  | O => λ _, Spin
  | S fuel =>
      c ← peek p_start;
      if is_delimiter c delimiters then skip_delimiters fuel (next_char p_start) delimiters else mret p_start
  end.

Fixpoint token_end (fuel : nat) (s : Z * Z) (delimiters : list Z) : M world (Z * Z) :=
  match fuel with
  | O => λ _, Spin
  | S fuel =>
      c ← peek s;
      if c =? 0 then mret s
      else if is_delimiter c delimiters then poke s 0;; mret (next_char s)
      else token_end fuel (next_char s) delimiters
  end.

(** [delimiters] is the string without its terminator. *)
Definition strtok (fuel : nat) (str : option (Z * Z)) (delimiters : list Z) : M world (option (Z * Z)) :=
  s ← gets sp;
  match str, s with
  | None, None => mret None
  | _, _ =>
      let s := match s with None => str | Some _ => s end in
      match s with
      | None => undef
      | Some s =>
          p_start ← skip_delimiters fuel s delimiters;
          modify (set_sp (Some p_start));;
          c ← peek p_start;
          if c =? 0 then modify (set_sp None);; mret None
          else
            e ← token_end fuel p_start delimiters;
            modify (set_sp (Some e));;
            mret (Some p_start)
      end
  end.

(** ** Line input *)

Fixpoint getkeyblock_loop (fuel : nat) : M world Z :=
  match fuel with
  | O => λ _, Spin
  | S fuel => val ← vana_getkey; if val =? 0 then getkeyblock_loop fuel else mret val
  end.
Definition vana_getkeyblock (fuel : nat) : M world Z := getkeyblock_loop fuel.

(** The buffer [out] after the call.  Each round reads one key; [i] may go back. *)
Fixpoint readline_loop (fuel : nat) (i max : Z) (echo : bool) (out : list Z) : M world (Z * list Z) :=
  match fuel with
  | O => λ _, Spin
  | S fuel' =>
      if i <? max - 1 then
        val ← vana_getkeyblock fuel;
        let key := u8 val in
        if key =? 13 then mret (i, out)
        else
          (if echo then vana_putchar key else mret tt);;
          if (key =? 8) && (1 <=? i) then
            out ← liftO out.[i - 1 <- 0]; readline_loop fuel' (i - 2 + 1) max echo out
          else out ← liftO out.[i <- key]; readline_loop fuel' (i + 1) max echo out
      else mret (i, out)
  end.

Definition vana_terminal_readline (fuel : nat) (out : list Z) (max : Z) (output_while_typing : bool) : M world (list Z) :=
  r ← readline_loop fuel 0 max output_while_typing out;
  liftO r.2.[r.1 <- 0].

(** ** Commands *)

Definition sizeof_argument_text : Z := 512.

(** The bytes at a pointer. *)
Definition string_at (p : Z * Z) : M world (list Z) := λ w,
  match buffers w !! p.1 with Some b => Done (drop (Z.to_nat p.2) b, w) | None => Undef end.

Section programs.
Context (uninit : Z → list Z).

(** A new argument that holds the token, null when there is no
    memory. *)
Definition new_argument (token : Z * Z) : M world Z :=
  a ← vana_malloc (sizeof_argument_text + 4);
  if a =? 0 then mret 0
  else
    str ← string_at token;
    t ← liftO (strncpy (uninit sizeof_argument_text) str sizeof_argument_text);
    modify (λ w, set_argument_blocks (<[a := {| argument_text := t; argument_next := 0 |}]> (argument_blocks w)) w);;
    mret a.

Definition link_argument (a next : Z) : M world unit := λ w,
  match argument_blocks w !! a with
  | Some x => Done (tt, set_argument_blocks (<[a := {| argument_text := argument_text x; argument_next := next |}]> (argument_blocks w)) w)
  | None => Undef
  end.

Fixpoint parse_tokens (fuel : nat) (current : Z) : M world unit :=
  match fuel with
  | O => λ _, Spin
  | S fuel' =>
      token ← strtok fuel None [32];
      match token with
      | None => mret tt
      | Some token =>
          a ← new_argument token;
          if a =? 0 then mret tt
          else link_argument current a;; parse_tokens fuel' a
      end
  end.

(** [b] is the local buffer [scommand], which is gone after the return. *)
Definition vana_parse_command (fuel : nat) (b : Z) (command : list Z) (max : Z) : M world Z :=
  if 1025 <=? max then mret 0
  else
    scommand ← liftO (strncpy (uninit 1025) command 1025);
    modify (λ w, set_buffers (<[b := scommand]> (buffers w)) w);;
    token ← strtok fuel (Some (b, 0)) [32];
    root ← match token with
           | None => mret 0
           | Some token =>
               a ← new_argument token;
               if a =? 0 then mret 0 else parse_tokens fuel a;; mret a
           end;
    modify (λ w, set_buffers (delete b (buffers w)) w);;
    mret root.

Definition vana_system_run (fuel : nat) (b : Z) (command : list Z) : M world Z :=
  buf ← liftO (strncpy (uninit 1024) command 1024);
  root ← vana_parse_command fuel b buf 1024;
  if root =? 0 then mret (-1) else vana_system root.

(** ** The shell *)

(** One round of the loop of [main] in shell.c. *)
Definition shell_round (fuel : nat) (b : Z) : M world unit :=
  print (text "> ");;
  buf ← vana_terminal_readline fuel (uninit 1024) 1024 true;
  print [10; 0];;
  vana_system_run fuel b buf;;
  print [10; 0].

Fixpoint shell_rounds (rounds fuel : nat) (b : Z) : M world unit :=
  match rounds with
  | O => λ _, Spin
  | S rounds => shell_round fuel b;; shell_rounds rounds fuel b
  end.

(** [main]: the banner, then rounds for ever. *)
Definition shell_main (rounds fuel : nat) (b : Z) : M world unit :=
  print (line "Vana v1.0.0");; shell_rounds rounds fuel b.
End programs.

(** ** The blank program *)

Fixpoint blank_loop (n : nat) : M world unit :=
  match n with O => mret tt | S n => print (line "Hello from blank process!");; blank_loop n end.

(** [argv] as the strings it points to. *)
Definition blank_main (argv : list (list Z)) : M world Z :=
  s ← liftO (head argv); print s;; blank_loop 5;; mret 0.

(** ** Numbers: correctness *)

Lemma itoa_loop_spec fuel (k : nat) v l r :
  (k ≤ fuel)%nat → (k ≤ length l)%nat → 0 <= v < 10 ^ Z.of_nat k →
  ∃ l1 l2 ds, l = l1 ++ l2 ∧ length l2 = length ds ∧ (length ds ≤ k)%nat ∧
    itoa_loop fuel (- v) (Z.of_nat (length l)) (l ++ r) = Some (Z.of_nat (length l1), l1 ++ ds ++ r) ∧
    if decide (v = 0) then ds = [] else decimal v ds.
Proof.
  revert fuel v l r. induction k as [|k IH]; intros fuel v l r Hf Hl Hv.
  { assert (v = 0) as -> by (simpl in Hv; lia). exists l, [], []. rewrite app_nil_r.
    split_and!; try done. by destruct fuel. }
  destruct (decide (v = 0)) as [->|Hne].
  { exists l, [], []. rewrite app_nil_r. split_and!; try done; [simpl; lia|by destruct fuel]. }
  destruct fuel as [|fuel]; [lia|]. destruct l as [|x l _] using rev_ind; [simpl in Hl; lia|].
  rewrite length_app in *. simpl length in *. cbn [itoa_loop].
  destruct (Z.eqb_spec (- v) 0); [lia|].
  rewrite Z.rem_opp_l, Z.quot_opp_l, Z.rem_mod_nonneg, Z.quot_div_nonneg by lia.
  replace (Z.of_nat (length l + 1) - 1) with (Z.of_nat (length l)) by lia.
  rewrite <- app_assoc. cbn [app]. rewrite upd_app. cbn [mbind option_bind].
  replace (48 - - (v mod 10)) with (v mod 10 + 48) by lia.
  assert (is_digit (v mod 10 + 48)) as Hd by (unfold is_digit; pose proof (Z.mod_pos_bound v 10); lia).
  rewrite u8_small by (unfold is_digit, is_u8 in *; lia).
  rewrite Nat2Z.inj_succ, Z.pow_succ_r in Hv by lia.
  destruct (IH fuel (v / 10) l ((v mod 10 + 48) :: r)) as (l1 & l2 & ds & -> & Hlen & Hk & E & Hds);
    [lia|lia|split; [apply Z.div_pos; lia|apply Z.div_lt_upper_bound; lia]|].
  exists l1, (l2 ++ [x]), (ds ++ [v mod 10 + 48]). rewrite !length_app, <- !app_assoc. simpl.
  split_and!; [done|lia|lia|by rewrite <- length_app, app_assoc|].
  pose proof (Z.div_mod v 10). pose proof (Z.mod_pos_bound v 10). destruct (decide (v / 10 = 0)) as [Hq|Hq].
  - subst ds. replace (v mod 10) with v by lia. apply decimal_digit. lia.
  - replace v with (v / 10 * 10 + (v mod 10 + 48 - 48)) at 1 by lia.
    apply decimal_snoc; [done| |done]. pose proof (Z.div_pos v 10). lia.
Qed.

(** The text of an [int]: a sign and the decimal notation of the magnitude. *)
Definition signed_decimal (i : Z) (str : list Z) : Prop :=
  if decide (0 <= i) then decimal i str else ∃ ds, str = 45 :: ds ∧ decimal (- i) ds.

Lemma decimal_nonzero v ds : decimal v ds → nonzero ds.
Proof. intros (_ & H & _). eapply Forall_impl; [exact H|]. unfold is_digit. simpl. lia. Qed.

Lemma itoa_spec i t : is_s32 i → length t = 12%nat →
  ∃ loc t' str, itoa i t = Some (loc, t') ∧ length t' = 12%nat ∧ 0 <= loc < 12 ∧
    cstr (drop (Z.to_nat loc) t') = Some str ∧ signed_decimal i str ∧ (length str ≤ 11)%nat.
Proof.
  intros Hi Ht. unfold is_s32 in Hi.
  destruct t as [|x t _] using rev_ind; [done|]. rewrite length_app in Ht. simpl in Ht.
  unfold itoa. assert ((t ++ [x]).[11 <- 0] = Some (t ++ [0])) as ->
    by (replace 11 with (Z.of_nat (length t)) by lia; apply upd_app). cbn [mbind option_bind].
  replace (if 0 <=? i then - i else i) with (- Z.abs i) by (destruct (Z.leb_spec 0 i); lia).
  destruct (itoa_loop_spec 12 10 (Z.abs i) t [0]) as (l1 & l2 & ds & -> & Hlen & Hk & E & Hds); [lia|lia|lia|].
  rewrite length_app in Ht. replace (Z.of_nat (length (l1 ++ l2))) with 11 in E by (rewrite length_app; lia).
  rewrite E. cbn [mbind option_bind].
  assert (∃ l1' ds', (1 ≤ length l1')%nat ∧ (length l1' + length ds' = 11)%nat ∧ decimal (Z.abs i) ds' ∧
    (if Z.of_nat (length l1) =? 11
     then text ← (l1 ++ ds ++ [0]).[Z.of_nat (length l1) - 1 <- 48]; Some (Z.of_nat (length l1) - 1, text)
     else Some (Z.of_nat (length l1), l1 ++ ds ++ [0])) = Some (Z.of_nat (length l1'), l1' ++ ds' ++ [0]))
    as (l1' & ds' & H1 & H11 & Hdec & ->).
  { destruct (decide (Z.abs i = 0)) as [Hz|Hz].
    - subst ds. simpl in Hlen. destruct l1 as [|y l1 _] using rev_ind; [simpl in Ht; lia|].
      rewrite length_app in *. simpl length in *.
      exists l1, [48]. rewrite (proj2 (Z.eqb_eq _ _)) by lia.
      replace (Z.of_nat (length l1 + 1) - 1) with (Z.of_nat (length l1)) by lia.
      rewrite <- !app_assoc. cbn [app]. rewrite upd_app, Hz.
      split_and!; [lia|simpl; lia|by apply (decimal_digit 0)|done].
    - assert (ds ≠ []) by (by destruct Hds as (_ & _ & ? & _)). destruct ds; [done|]. simpl length in *.
      exists l1, (z :: ds). rewrite (proj2 (Z.eqb_neq _ _)) by lia.
      split_and!; [lia|simpl; lia|done|done]. }
  cbn [mbind option_bind]. unfold signed_decimal. pose proof (decimal_nonzero _ _ Hdec) as Hnz.
  destruct (Z.leb_spec 0 i); cbn [negb].
  - exists (Z.of_nat (length l1')), (l1' ++ ds' ++ [0]), ds'. rewrite Nat2Z.id, drop_app_length, cstr_app by done.
    rewrite !length_app. simpl. rewrite decide_True by lia. rewrite Z.abs_eq in Hdec by lia. split_and!; (done || lia).
  - destruct l1' as [|y l0 _] using rev_ind; [simpl in H1; lia|]. rewrite length_app in *. simpl length in *.
    replace (Z.of_nat (length l0 + 1) - 1) with (Z.of_nat (length l0)) by lia.
    rewrite <- !app_assoc. cbn [app]. rewrite upd_app. cbn [mbind option_bind].
    eexists _, _, (45 :: ds'). split; [done|]. rewrite Nat2Z.id, drop_app_length.
    change (45 :: ds' ++ [0]) with ((45 :: ds') ++ 0 :: []). rewrite cstr_app by (by constructor). rewrite !length_app. simpl.
    rewrite decide_False by lia. rewrite Z.abs_neq in Hdec by lia.
    split_and!; try (done || lia). by exists ds'.
Qed.

(** [itoa] writes the decimal notation of every [int], the least one
    included, and its 12 byte buffer is always long enough. *)
Theorem itoa_signed_decimal i t : is_s32 i → length t = 12%nat →
  ∃ loc t' str, itoa i t = Some (loc, t') ∧ length t' = 12%nat ∧ 0 <= loc < 12 ∧
    cstr (drop (Z.to_nat loc) t') = Some str ∧ signed_decimal i str ∧ (length str ≤ 11)%nat.
Proof. apply itoa_spec. Qed.

Lemma itoa_signed_decimal_witness :
  ∃ loc t' str, itoa (- 2147483648) (replicate 12 7) = Some (loc, t') ∧ length t' = 12%nat ∧ 0 <= loc < 12 ∧
    cstr (drop (Z.to_nat loc) t') = Some str ∧ signed_decimal (- 2147483648) str ∧ (length str ≤ 11)%nat.
Proof. apply (itoa_signed_decimal (- 2147483648) (replicate 12 7)); [unfold is_s32; lia|reflexivity]. Defined.

(** ** Words *)

(** The words of a line: the maximal runs of characters other than the space. *)
Fixpoint words (s : list Z) : list (list Z) :=
  match s with
  | [] => []
  | c :: s' =>
      if c =? 32 then words s'
      else match s' with
           | [] => [[c]]
           | d :: _ => if d =? 32 then [c] :: words s'
                       else match words s' with [] => [[c]] | w :: ws => (c :: w) :: ws end
           end
  end.

Definition spaceless (w : list Z) : Prop := Forall (λ c, c ≠ 32) w.

Lemma words_spaces k s : words (replicate k 32 ++ s) = words s.
Proof. by induction k. Qed.

Lemma words_last w : spaceless w → w ≠ [] → words w = [w].
Proof.
  induction 1 as [|c w Hc Hw IH]; intros Hne; [done|]. simpl. destruct (Z.eqb_spec c 32); [done|].
  destruct w as [|d w]; [done|]. inversion Hw; subst. destruct (Z.eqb_spec d 32); [done|]. by rewrite IH.
Qed.

Lemma words_cons w s : spaceless w → w ≠ [] → words (w ++ 32 :: s) = w :: words s.
Proof.
  induction 1 as [|c w Hc Hw IH]; intros Hne; [done|]. simpl. destruct (Z.eqb_spec c 32); [done|].
  destruct w as [|d w]; [done|]. inversion Hw; subst. cbn [app] in *.
  destruct (Z.eqb_spec d 32); [done|]. by rewrite IH.
Qed.

(** A line starts with spaces, and then ends or has a word. *)
Lemma words_split s : ∃ k, s = replicate k 32 ∨
  ∃ w, spaceless w ∧ w ≠ [] ∧ (s = replicate k 32 ++ w ∨ ∃ s', s = replicate k 32 ++ w ++ 32 :: s').
Proof.
  induction s as [|c s (k & IH)]; [by exists O; left|].
  destruct (decide (c = 32)) as [->|Hc].
  { exists (S k). destruct IH as [->|(w & Hw & Hne & [->|(s' & ->)])]; [by left|right; exists w..];
      split_and!; try done; [by left|right; by exists s']. }
  exists O. right. destruct k as [|k].
  - destruct IH as [->|(w & Hw & Hne & [->|(s' & ->)])].
    + exists [c]. split_and!; [by apply Forall_singleton|done|by left].
    + exists (c :: w). split_and!; [by constructor|done|by left].
    + exists (c :: w). split_and!; [by constructor|done|right; by exists s'].
  - exists [c]. split_and!; [by apply Forall_singleton|done|right].
    destruct IH as [->|(w & Hw & Hne & [->|(s' & ->)])]; by eexists.
Qed.

(** ** strtok: correctness *)

(** [strtok] runs over the text [s] of buffer [b] that starts at offset
    [length pre] and ends at a terminator. *)
Record scanning (w : world) (b : Z) (pre s r : list Z) : Prop := {
  sc_buffer : buffers w !! b = Some (pre ++ s ++ 0 :: r);
  sc_text : nonzero s
}.

Lemma peek_at w b l c r n : buffers w !! b = Some (l ++ c :: r) → n = Z.of_nat (length l) →
  peek (b, n) w = Done (c, w).
Proof. intros H ->. unfold peek. cbn [fst snd]. rewrite H. cbn [mbind option_bind]. by rewrite idx_app. Qed.

Lemma poke_at w b l c r n d : buffers w !! b = Some (l ++ c :: r) → n = Z.of_nat (length l) →
  poke (b, n) d w = Done (tt, set_buffers (<[b := l ++ d :: r]> (buffers w)) w).
Proof. intros H ->. unfold poke. cbn [fst snd]. rewrite H. cbn [mbind option_bind]. by rewrite upd_app. Qed.

Lemma is_space c : is_delimiter c [32] = (c =? 32).
Proof. unfold is_delimiter. rewrite eqb_decide. apply bool_decide_ext. rewrite list_elem_of_singleton. done. Qed.

Lemma skip_spaces fuel w b l k c r n :
  buffers w !! b = Some (l ++ replicate k 32 ++ c :: r) → c ≠ 32 → (k < fuel)%nat → n = Z.of_nat (length l) →
  skip_delimiters fuel (b, n) [32] w = Done ((b, n + Z.of_nat k), w).
Proof.
  revert fuel l n. induction k as [|k IH]; intros fuel l n Hb Hc Hf Hn; (destruct fuel as [|fuel]; [lia|]);
    cbn [skip_delimiters]; cbn [replicate app] in Hb; rewrite (bind_done _ _ _ _ _ (peek_at _ _ _ _ _ _ Hb Hn)), is_space.
  - destruct (Z.eqb_spec c 32); [done|]. by rewrite Z.add_0_r.
  - rewrite Z.eqb_refl. unfold next_char. cbn [fst snd].
    rewrite (IH fuel (l ++ [32])); [by replace (n + 1 + Z.of_nat k) with (n + Z.of_nat (S k)) by lia| |done|lia|].
    + by rewrite <- app_assoc.
    + rewrite length_app. simpl. lia.
Qed.

Lemma token_end_last fuel w b l t r n :
  buffers w !! b = Some (l ++ t ++ 0 :: r) → spaceless t → nonzero t → (length t < fuel)%nat → n = Z.of_nat (length l) →
  token_end fuel (b, n) [32] w = Done ((b, n + Z.of_nat (length t)), w).
Proof.
  revert fuel l n. induction t as [|c t IH]; intros fuel l n Hb Hs Hz Hf Hn; (destruct fuel as [|fuel]; [simpl in Hf; lia|]);
    cbn [token_end]; cbn [app] in Hb; rewrite (bind_done _ _ _ _ _ (peek_at _ _ _ _ _ _ Hb Hn)).
  - simpl. by rewrite Z.add_0_r.
  - inversion Hs; inversion Hz; subst. rewrite is_space. do 2 rewrite (proj2 (Z.eqb_neq _ _)) by done.
    unfold next_char. cbn [fst snd]. simpl length in *. rewrite (IH fuel (l ++ [c])); [|by rewrite <- app_assoc|done|done|lia|].
    + by replace (Z.of_nat (length l) + 1 + Z.of_nat (length t)) with (Z.of_nat (length l) + Z.of_nat (S (length t))) by lia.
    + rewrite length_app. simpl. lia.
Qed.

Lemma token_end_cut fuel w b l t r n :
  buffers w !! b = Some (l ++ t ++ 32 :: r) → spaceless t → nonzero t → (length t < fuel)%nat → n = Z.of_nat (length l) →
  token_end fuel (b, n) [32] w =
    Done ((b, n + Z.of_nat (length t) + 1), set_buffers (<[b := l ++ t ++ 0 :: r]> (buffers w)) w).
Proof.
  revert fuel l n. induction t as [|c t IH]; intros fuel l n Hb Hs Hz Hf Hn; (destruct fuel as [|fuel]; [simpl in Hf; lia|]);
    cbn [token_end]; cbn [app] in Hb |- *; rewrite (bind_done _ _ _ _ _ (peek_at _ _ _ _ _ _ Hb Hn)), is_space.
  - cbn [Z.eqb Pos.eqb]. rewrite (bind_done _ _ _ _ _ (poke_at _ _ _ _ _ _ _ Hb Hn)). simpl. by rewrite Z.add_0_r.
  - inversion Hs; inversion Hz; subst. do 2 rewrite (proj2 (Z.eqb_neq _ _)) by done.
    unfold next_char. cbn [fst snd]. simpl length in *. rewrite (IH fuel (l ++ [c])); [|by rewrite <- app_assoc|done|done|lia|].
    + rewrite <- app_assoc. cbn [app].
      by replace (Z.of_nat (length l) + 1 + Z.of_nat (length t) + 1) with (Z.of_nat (length l) + Z.of_nat (S (length t)) + 1) by lia.
    + rewrite length_app. simpl. lia.
Qed.

(** What a call of [strtok] leaves: the end of the text, or the first word and
    the rest of the text. *)
Definition next_token (w w' : world) (b : Z) (s : list Z) (token : option (Z * Z)) (r : list Z) : Prop :=
  match words s with
  | [] => token = None ∧ w' = set_sp None w
  | x :: xs => ∃ off buf pre' s',
      token = Some (b, off) ∧ cstr (drop (Z.to_nat off) buf) = Some x ∧ buf = pre' ++ s' ++ 0 :: r ∧ nonzero s' ∧
      w' = set_sp (Some (b, Z.of_nat (length pre'))) (set_buffers (<[b := buf]> (buffers w)) w) ∧
      words s' = xs ∧ (length s' < length s)%nat
  end.

(** The text [strtok] looks at, as it was left by the last call or as given. *)
Definition scans_from (w : world) (str : option (Z * Z)) (p : Z * Z) : Prop :=
  sp w = Some p ∨ sp w = None ∧ str = Some p.

Lemma strtok_none fuel w b pre k r str :
  buffers w !! b = Some (pre ++ replicate k 32 ++ 0 :: r) → (k < fuel)%nat →
  scans_from w str (b, Z.of_nat (length pre)) → strtok fuel str [32] w = Done (None, set_sp None w).
Proof.
  intros Hb Hf Hsp. unfold strtok. rewrite bind_gets. destruct Hsp as [->|[-> ->]]; [destruct str|];
    rewrite (bind_done _ _ _ _ _ (skip_spaces fuel w b pre k 0 r _ Hb ltac:(done) Hf eq_refl)), bind_modify;
    (rewrite (bind_done _ _ _ 0 (set_sp (Some (b, Z.of_nat (length pre) + Z.of_nat k)) w)); [done|]);
    (eapply (peek_at _ _ (pre ++ replicate k 32)); [by rewrite <- app_assoc|rewrite length_app, length_replicate; lia]).
Qed.

Lemma strtok_some fuel w b pre k c r str e w' :
  let p := (b, Z.of_nat (length (pre ++ replicate k 32))) in
  buffers w !! b = Some ((pre ++ replicate k 32) ++ c :: r) → c ≠ 32 → c ≠ 0 → (k < fuel)%nat →
  scans_from w str (b, Z.of_nat (length pre)) → token_end fuel p [32] (set_sp (Some p) w) = Done (e, w') →
  strtok fuel str [32] w = Done (Some p, set_sp (Some e) w').
Proof.
  intros p Hb Hc Hz Hf Hsp He. pose proof Hb as Hb'. rewrite <- app_assoc in Hb'.
  pose proof (skip_spaces fuel w b pre k c r _ Hb' Hc Hf eq_refl) as Es.
  replace (Z.of_nat (length pre) + Z.of_nat k) with (Z.of_nat (length (pre ++ replicate k 32))) in Es
    by (rewrite length_app, length_replicate; lia).
  assert (peek p (set_sp (Some p) w) = Done (c, set_sp (Some p) w)) as Ep by (by eapply peek_at).
  unfold strtok. rewrite bind_gets. destruct Hsp as [->|[-> ->]]; [destruct str|];
    rewrite (bind_done _ _ _ _ _ Es), bind_modify, (bind_done _ _ _ _ _ Ep), (proj2 (Z.eqb_neq c 0) Hz);
    by rewrite (bind_done _ _ _ _ _ He).
Qed.

Lemma strtok_spec fuel w b pre s r str :
  scanning w b pre s r → (length s < fuel)%nat → scans_from w str (b, Z.of_nat (length pre)) →
  ∃ token w', strtok fuel str [32] w = Done (token, w') ∧ next_token w w' b s token r.
Proof.
  intros [Hb Hz] Hf Hsp. unfold next_token. destruct (words_split s) as (k & [->|(t & Ht & Hne & Hs)]).
  { rewrite <- (app_nil_r (replicate k 32)), words_spaces. rewrite length_replicate in Hf.
    eexists _, _. split; [by eapply strtok_none|done]. }
  destruct t as [|c t]; [done|]. pose proof (Forall_inv Ht) as Hc.
  destruct Hs as [->|(s' & ->)].
  - rewrite words_spaces, words_last by done. apply Forall_app in Hz as [_ Hz].
    rewrite length_app, length_replicate in Hf. rewrite <- app_assoc, app_assoc in Hb. eexists _, _. split.
    { eapply (strtok_some fuel w b pre k c); [exact Hb|done|exact (Forall_inv Hz)|lia|done|].
      by eapply (token_end_last fuel _ b _ (c :: t) r); [exact Hb|..|lia|]. }
    eexists _, ((pre ++ replicate k 32) ++ (c :: t) ++ 0 :: r), (pre ++ replicate k 32 ++ c :: t), [].
    split_and!; [done| | |by apply Forall_nil| |done|rewrite !length_app; simpl; lia].
    + rewrite Nat2Z.id, drop_app_length. by apply cstr_app.
    + by rewrite <- !app_assoc.
    + unfold set_sp, set_buffers. cbn. rewrite insert_id by exact Hb. do 3 f_equal. rewrite !length_app. simpl. lia.
  - rewrite words_spaces, words_cons by done. apply Forall_app in Hz as [_ Hz]. apply Forall_app in Hz as [Hz Hz'].
    rewrite !length_app, length_replicate in Hf. rewrite <- !app_assoc, app_assoc in Hb. eexists _, _. split.
    { eapply (strtok_some fuel w b pre k c); [exact Hb|done|exact (Forall_inv Hz)|lia|done|].
      by eapply (token_end_cut fuel _ b _ (c :: t) (s' ++ 0 :: r)); [exact Hb|..|lia|]. }
    eexists _, ((pre ++ replicate k 32) ++ (c :: t) ++ 0 :: s' ++ 0 :: r), (pre ++ replicate k 32 ++ (c :: t) ++ [0]), s'.
    split_and!; [done| | |exact (Forall_inv_tail Hz')| |done|rewrite !length_app; simpl; lia].
    + rewrite Nat2Z.id, drop_app_length. by apply cstr_app.
    + by rewrite <- !app_assoc.
    + unfold set_sp, set_buffers. cbn. do 3 f_equal. rewrite !length_app. simpl. rewrite length_app. simpl. lia.
Qed.

(** ** Commands: correctness *)

(** The arguments linked from [root] hold the words [ws], each cut to what fits. *)
Fixpoint chain (args : gmap Z argument) (root : Z) (ws : list (list Z)) : Prop :=
  match ws with
  | [] => root = 0
  | x :: ws => root ≠ 0 ∧ ∃ a, args !! root = Some a ∧ cstr (argument_text a) = Some (take 511 x) ∧
      chain args (argument_next a) ws
  end.

(** The parts of the world that parsing leaves alone. *)
Definition untouched (w w' : world) : Prop :=
  keys w' = keys w ∧ system_answers w' = system_answers w ∧ shown w' = shown w ∧ started w' = started w ∧
  given_back w' = given_back w ∧ itoa_text w' = itoa_text w.

(** Blocks the kernel may still hand out: none is null, none is in use. *)
Definition fresh_answers (w : world) : Prop :=
  NoDup (memory_answers w) ∧ (0 ∉ memory_answers w) ∧ ∀ a, a ∈ memory_answers w → argument_blocks w !! a = None.

Section commands.
Context (uninit : Z → list Z).
Hypothesis uninit_length : ∀ n, length (uninit n) = Z.to_nat n.

Lemma new_argument_spec w b off buf x a ps :
  buffers w !! b = Some buf → cstr (drop (Z.to_nat off) buf) = Some x →
  memory_answers w = a :: ps → a ≠ 0 →
  ∃ t, cstr t = Some (take 511 x) ∧
    new_argument uninit (b, off) w = Done (a, set_argument_blocks
      (<[a := {| argument_text := t; argument_next := 0 |}]> (argument_blocks w)) (set_memory_answers ps w)).
Proof.
  intros Hb Hx Hm Ha.
  destruct (strncpy_cstr (uninit 512) _ x 512 Hx) as [E E']; [rewrite uninit_length; lia|].
  set (k := Nat.min _ _) in *.
  assert (take k x = take 511 x) as Hk.
  { subst k. destruct (le_lt_dec (length x) 511); [rewrite !take_ge by lia; done|f_equal; lia]. }
  rewrite Hk in E, E'. exists (take 511 x ++ 0 :: drop (S k) (uninit 512)). split; [exact E'|].
  unfold new_argument.
  assert (vana_malloc (sizeof_argument_text + 4) w = Done (a, set_memory_answers ps w)) as Em
    by (unfold vana_malloc; by rewrite Hm).
  rewrite (bind_done _ _ _ _ _ Em), (proj2 (Z.eqb_neq a 0) Ha).
  rewrite (bind_done _ _ _ (drop (Z.to_nat off) buf) (set_memory_answers ps w))
    by (unfold string_at; cbn [fst snd]; cbn; by rewrite Hb).
  by rewrite (bind_liftO _ _ _ _ E), bind_modify.
Qed.
Lemma new_argument_none w token : memory_answers w = [] → new_argument uninit token w = Done (0, w).
Proof. intros H. unfold new_argument. rewrite (bind_done _ _ _ 0 w); [done|]. unfold vana_malloc. by rewrite H. Qed.

Lemma no_fresh_answers w : memory_answers w = [] → fresh_answers w.
Proof. intros E. unfold fresh_answers. rewrite E. split_and!; [constructor|apply not_elem_of_nil|by intros ? ?%elem_of_nil]. Qed.

(** What parsing the rest [s] of the line leaves, from argument [cur] on. *)
Record parsed (w w' : world) (b cur : Z) (x : argument) (s : list Z) (root : Z) : Prop := {
  pd_cur : argument_blocks w' !! cur = Some {| argument_text := argument_text x; argument_next := root |};
  pd_chain : chain (argument_blocks w') root (take (length (memory_answers w)) (words s));
  pd_other : ∀ a, a ≠ cur → a ∉ memory_answers w → argument_blocks w' !! a = argument_blocks w !! a;
  pd_buffers : delete b (buffers w') = delete b (buffers w);
  pd_sp : (length (words s) ≤ length (memory_answers w))%nat → sp w' = None;
  pd_memory : memory_answers w' = drop (length (words s)) (memory_answers w);
  pd_fresh : fresh_answers w';
  pd_untouched : untouched w w'
}.

Lemma parse_tokens_spec fuel w cur x b pre s r :
  scanning w b pre s r → (length s < fuel)%nat → sp w = Some (b, Z.of_nat (length pre)) → fresh_answers w →
  argument_blocks w !! cur = Some x → argument_next x = 0 →
  ∃ w' root, parse_tokens uninit fuel cur w = Done (tt, w') ∧ parsed w w' b cur x s root.
Proof.
  revert w cur x pre s. induction fuel as [|fuel IH]; intros w cur x pre s Hsc Hf Hsp (Hnd & H0 & Hfr) Hcur Hx; [lia|].
  cbn [parse_tokens].
  destruct (strtok_spec (S fuel) w b pre s r None Hsc Hf (or_introl Hsp)) as (token & w1 & E & Hn).
  rewrite (bind_done _ _ _ _ _ E). unfold next_token in Hn. destruct (words s) as [|y ys] eqn:Ews.
  { destruct Hn as [-> ->]. exists (set_sp None w), 0. split; [done|].
    split; try done; [by destruct x; cbn in Hx; subst|by rewrite Ews, take_nil|by rewrite Ews]. }
  destruct Hn as (off & buf & pre' & s' & -> & Hy & Hbuf & Hz & -> & Hys & Hlt).
  set (w1 := set_sp _ _). assert (buffers w1 !! b = Some buf) as Hb1 by (subst w1; cbn; apply lookup_insert_eq).
  destruct (memory_answers w) as [|a ps] eqn:Em.
  { rewrite (bind_done _ _ _ _ _ (new_argument_none w1 _ Em)). exists w1, 0. split; [done|].
    split; try done; [by destruct x; cbn in Hx; subst|by rewrite Em|subst w1; cbn; apply delete_insert_eq|
      rewrite Em, Ews; simpl; lia|by rewrite Em, drop_nil|by apply no_fresh_answers]. }
  apply not_elem_of_cons in H0 as [Ha H0]. apply NoDup_cons in Hnd as [Haps Hnd].
  destruct (new_argument_spec w1 b off buf y a ps Hb1 Hy Em ltac:(done)) as (t & Ht & En).
  rewrite (bind_done _ _ _ _ _ En), (proj2 (Z.eqb_neq a 0)) by done.
  set (w2 := set_argument_blocks _ _). assert (a ≠ cur) as Hac by (intros ->; rewrite Hfr in Hcur; [done|left]).
  set (w3 := set_argument_blocks (<[cur := {| argument_text := argument_text x; argument_next := a |}]> (argument_blocks w2)) w2).
  assert (link_argument cur a w2 = Done (tt, w3)) as El
    by (unfold link_argument; subst w2; cbn; by rewrite lookup_insert_ne, Hcur).
  rewrite (bind_done _ _ _ _ _ El).
  assert (fresh_answers w3) as Hfr3.
  { split_and!; [done..|]. intros c Hc. assert (c ≠ a) by (by intros ->). assert (c ≠ cur) by (intros ->; rewrite Hfr in Hcur; [done|by right]).
    subst w3 w2. cbn. rewrite !lookup_insert_ne by done. apply Hfr. by right. }
  destruct (IH w3 a {| argument_text := t; argument_next := 0 |} pre' s') as (w' & root & E' & [Hc Hch Ho Hbf Hs Hm Hfr' Hu]).
  - split; [|done]. rewrite <- Hbuf. exact Hb1.
  - lia.
  - done.
  - exact Hfr3.
  - subst w3 w2. cbn. rewrite lookup_insert_ne by done. apply lookup_insert_eq.
  - done.
  - exists w', a. split; [exact E'|]. change (memory_answers w3) with ps in *. rewrite Hys in *.
    assert (argument_blocks w' !! cur = Some {| argument_text := argument_text x; argument_next := a |}) as Hcur'.
    { rewrite Ho; [subst w3; cbn; apply lookup_insert_eq|done|]. intros ?. rewrite Hfr in Hcur; [done|by right]. }
    split; [exact Hcur'| | | | |by rewrite Em, Ews|exact Hfr'|exact Hu]; rewrite ?Em, ?Ews.
    + split; [done|]. by exists {| argument_text := t; argument_next := root |}.
    + intros c Hcc Hcn. apply not_elem_of_cons in Hcn as [? ?]. rewrite Ho by done. subst w3 w2. cbn. by rewrite !lookup_insert_ne.
    + rewrite Hbf. subst w3 w2 w1. cbn. apply delete_insert_eq.
    + simpl. intros. apply Hs. lia.
Qed.

(** What a call of [vana_parse_command] on the line [s] leaves. *)
Record command_parsed (w w' : world) (s : list Z) (root : Z) : Prop := {
  cp_chain : chain (argument_blocks w') root (take (length (memory_answers w)) (words s));
  cp_other : ∀ a, a ∉ memory_answers w → argument_blocks w' !! a = argument_blocks w !! a;
  cp_buffers : buffers w' = buffers w;
  cp_sp : (length (words s) ≤ length (memory_answers w))%nat → sp w' = None;
  cp_memory : memory_answers w' = drop (length (words s)) (memory_answers w);
  cp_fresh : fresh_answers w';
  cp_untouched : untouched w w'
}.

Lemma vana_parse_command_spec fuel w b command l max :
  let s := take (Z.to_nat 1024) l in
  cstr command = Some l → max < 1025 → (length s < fuel)%nat →
  sp w = None → buffers w !! b = None → fresh_answers w →
  ∃ w' root, vana_parse_command uninit fuel b command max w = Done (root, w') ∧ command_parsed w w' s root.
Proof.
  intros s Hs Hmax Hf Hsp Hb Hfr. unfold vana_parse_command. rewrite (proj2 (Z.leb_gt 1025 max)) by lia.
  destruct (strncpy_cstr (uninit 1025) command l 1025 Hs) as [E _]; [rewrite uninit_length; lia|].
  assert (take (Nat.min (Z.to_nat (1025 - 1)) (length l)) l = s) as Ets by (subst s; by rewrite <- take_take, firstn_all).
  rewrite Ets in E. rewrite (bind_liftO _ _ _ _ E), bind_modify.
  set (r := drop _ _) in *. set (w0 := set_buffers _ w).
  assert (scanning w0 b [] s r) as Hsc
    by (split; [subst w0; cbn; apply lookup_insert_eq|destruct (cstr_inv _ _ Hs) as (? & _ & ?); by apply Forall_take]).
  destruct (strtok_spec fuel w0 b [] s r (Some (b, 0)) Hsc Hf) as (token & w1 & Et & Hn); [by right|].
  rewrite (bind_done _ _ _ _ _ Et). unfold next_token in Hn. destruct (words s) as [|y ys] eqn:Ews.
  { destruct Hn as [-> ->]. eexists _, 0. split; [done|]. split; try done; [by rewrite Ews, take_nil|cbn; by apply delete_insert_id|by rewrite Ews]. }
  destruct Hn as (off & buf & pre' & s' & -> & Hy & Hbuf & Hz & -> & Hys & Hlt).
  set (w1 := set_sp _ _). assert (buffers w1 !! b = Some buf) as Hb1 by (subst w1; cbn; apply lookup_insert_eq).
  assert (delete b (buffers w1) = buffers w) as Hd by (subst w1 w0; cbn; by rewrite !delete_insert_eq, delete_id).
  destruct (memory_answers w) as [|a ps] eqn:Em.
  { rewrite (bind_done _ _ w1 0 w1) by (by rewrite (bind_done _ _ _ _ _ (new_argument_none w1 _ Em))).
    eexists _, 0. split; [done|]. split; try done; [by rewrite Em|rewrite Em, Ews; simpl; lia|by rewrite Em, drop_nil]. }
  destruct Hfr as (Hnd & H0 & Hfr). rewrite Em in *. apply not_elem_of_cons in H0 as [Ha H0]. apply NoDup_cons in Hnd as [Haps Hnd].
  destruct (new_argument_spec w1 b off buf y a ps Hb1 Hy Em ltac:(done)) as (t & Ht & En).
  set (w2 := set_argument_blocks _ _) in En.
  destruct (parse_tokens_spec fuel w2 a {| argument_text := t; argument_next := 0 |} b pre' s' r) as (w' & root & E' & [Hc Hch Ho Hbf Hs' Hm Hfr' Hu]).
  - split; [|done]. rewrite <- Hbuf. exact Hb1.
  - lia.
  - done.
  - split_and!; [done..|]. intros c Hc. subst w2. cbn. rewrite lookup_insert_ne by (by intros ->). apply Hfr. by right.
  - subst w2. cbn. apply lookup_insert_eq.
  - done.
  - rewrite (bind_done _ _ w1 a w')
      by (by rewrite (bind_done _ _ _ _ _ En), (proj2 (Z.eqb_neq a 0)), (bind_done _ _ _ _ _ E')).
    eexists _, a. split; [done|]. change (memory_answers w2) with ps in *. rewrite Hys in *.
    split; rewrite ?Em, ?Ews; [| | |simpl; intros; apply Hs'; lia|exact Hm|exact Hfr'|exact Hu].
    + split; [done|]. by exists {| argument_text := t; argument_next := root |}.
    + intros c Hcn. apply not_elem_of_cons in Hcn as [? ?]. cbn. rewrite Ho by done. subst w2. cbn. by rewrite lookup_insert_ne.
    + cbn. by rewrite Hbf.
Qed.

Lemma vana_system_run_spec fuel w b command s :
  cstr command = Some s → (length s ≤ 1023)%nat → (length s < fuel)%nat →
  sp w = None → buffers w !! b = None → fresh_answers w →
  ∃ w1 root, command_parsed w w1 s root ∧
    vana_system_run uninit fuel b command w = if root =? 0 then Done (-1, w1) else vana_system root w1.
Proof.
  intros Hs Hl Hf Hsp Hb Hfr.
  destruct (strncpy_cstr (uninit 1024) command s 1024 Hs) as [E E']; [rewrite uninit_length; lia|].
  rewrite Nat.min_r, firstn_all in E, E' by lia.
  destruct (vana_parse_command_spec fuel w b _ s 1024 E') as (w1 & root & Ep & Hp);
    [lia|rewrite length_take; lia|done..|].
  rewrite take_ge in Hp by lia.
  exists w1, root. split; [done|]. unfold vana_system_run.
  rewrite (bind_liftO _ _ _ _ E), (bind_done _ _ _ _ _ Ep). by destruct (root =? 0).
Qed.
End commands.

(** ** Line input: correctness *)

(** The line editor: a backspace takes back the last character, any other key is
    added (a backspace on an empty line too). *)
Definition edit_key (l : list Z) (key : Z) : list Z :=
  if (key =? 8) && (1 <=? Z.of_nat (length l)) then removelast l else l ++ [key].

(** The line when the return key is hit or [n] characters are there, and the
    keys that were shown; none when the keys end before. *)
Fixpoint edit_line (n : nat) (l ks : list Z) : option (list Z * list Z) :=
  if (length l <? n)%nat then
    match ks with
    | [] => None
    | k :: ks => if k =? 13 then Some (l, []) else '(l', e) ← edit_line n (edit_key l k) ks; Some (l', k :: e)
    end
  else Some (l, []).

(** The keys as the program sees them: polls that find no key do not count. *)
Definition pressed (ks : list Z) : list Z := u8 <$> filter (λ k, k ≠ 0) ks.

Definition is_char (k : Z) : Prop := - 2 ^ 7 <= k < 2 ^ 7.

Lemma is_char_nonzero k : is_char k → k ≠ 0 → u8 k ≠ 0.
Proof.
  unfold is_char, u8. intros Hk Hne H. apply Z.mod_divide in H as [q Hq]; [|done]. lia.
Qed.

Lemma pressed_nonzero ks : Forall is_char ks → nonzero (pressed ks).
Proof.
  unfold nonzero, pressed. intros H. apply Forall_fmap, Forall_forall. intros k Hk.
  apply list_elem_of_filter in Hk as [Hk Hin]. rewrite Forall_forall in H. exact (is_char_nonzero k (H k Hin) Hk).
Qed.

(** The keys of exactly one line: they edit to a line, no fewer of them do. *)
Definition one_line (n : nat) (l used : list Z) (r : list Z * list Z) : Prop :=
  edit_line n l (pressed used) = Some r ∧ ∀ u, u `prefix_of` used → u ≠ used → edit_line n l (pressed u) = None.

(** The next key: polls up to it, then the key. *)
Lemma pressed_cons ks k rest : pressed ks = k :: rest →
  ∃ z v ks', ks = replicate z 0 ++ v :: ks' ∧ v ≠ 0 ∧ k = u8 v ∧ rest = pressed ks'.
Proof.
  unfold pressed. induction ks as [|v ks IH]; intros H; [done|]. destruct (decide (v = 0)) as [->|Hv].
  - rewrite filter_cons_False in H by auto. destruct (IH H) as (z & v' & ks' & -> & ? & ? & ?). by exists (S z), v', ks'.
  - rewrite filter_cons_True in H by done. simplify_eq/=. by exists O, v, ks.
Qed.

Lemma pressed_polls z v ks : v ≠ 0 → pressed (replicate z 0 ++ v :: ks) = u8 v :: pressed ks.
Proof.
  intros Hv. unfold pressed. induction z as [|z IH]; cbn [replicate app].
  - by rewrite filter_cons_True.
  - by rewrite filter_cons_False by auto.
Qed.

(** A part of the keys that starts with polls and a key: polls only, or the key
    too. *)
Lemma prefix_polls u z v ks : u `prefix_of` replicate z 0 ++ v :: ks →
  pressed u = [] ∨ ∃ u', u = replicate z 0 ++ v :: u' ∧ u' `prefix_of` ks.
Proof.
  revert u. induction z as [|z IH]; intros [|x u] H; [by left| |by left|]; cbn [replicate app] in *.
  - right. pose proof (prefix_cons_inv_1 _ _ _ _ H) as ->. exists u. split; [done|]. by eapply prefix_cons_inv_2.
  - pose proof (prefix_cons_inv_1 _ _ _ _ H) as ->. destruct (IH u (prefix_cons_inv_2 _ _ _ _ H)) as [E|(u' & -> & ?)].
    + left. unfold pressed in *. by rewrite filter_cons_False by auto.
    + right. by exists u'.
Qed.

Lemma one_line_full n l : (n ≤ length l)%nat → one_line n l [] (l, []).
Proof.
  intros Hl. split; [change (pressed []) with (@nil Z); cbn [edit_line]; by rewrite (proj2 (Nat.ltb_ge _ _))|]. intros u Hu%prefix_nil_inv. by subst.
Qed.

Lemma edit_line_none n l : (length l < n)%nat → edit_line n l [] = None.
Proof. intros Hl. cbn [edit_line]. by rewrite (proj2 (Nat.ltb_lt _ _)). Qed.

Lemma one_line_return n l z v : (length l < n)%nat → v ≠ 0 → u8 v = 13 → one_line n l (replicate z 0 ++ [v]) (l, []).
Proof.
  intros Hl Hv E. split.
  - rewrite pressed_polls, E by done. cbn [edit_line]. by rewrite (proj2 (Nat.ltb_lt _ _)).
  - intros u [->|(u' & -> & Hu'%prefix_nil_inv)]%prefix_polls Hne; [by apply edit_line_none|by subst].
Qed.

Lemma one_line_key n l z v used l' e : (length l < n)%nat → v ≠ 0 → u8 v ≠ 13 →
  one_line n (edit_key l (u8 v)) used (l', e) → one_line n l (replicate z 0 ++ v :: used) (l', u8 v :: e).
Proof.
  intros Hl Hv Hr [E Hmin]. pose proof (proj2 (Nat.ltb_lt _ _) Hl) as Hb. split.
  - rewrite pressed_polls by done. cbn [edit_line]. by rewrite Hb, (proj2 (Z.eqb_neq _ _) Hr), E.
  - intros u [->|(u' & -> & Hu')]%prefix_polls Hne; [by apply edit_line_none|].
    rewrite pressed_polls by done. cbn [edit_line]. rewrite Hb, (proj2 (Z.eqb_neq _ _) Hr), Hmin; [done..|].
    by intros ->.
Qed.

Lemma vana_getkeyblock_spec fuel w z v ks : keys w = replicate z 0 ++ v :: ks → v ≠ 0 → (z < fuel)%nat →
  vana_getkeyblock fuel w = Done (v, set_keys ks w).
Proof.
  unfold vana_getkeyblock. revert fuel w. induction z as [|z IH]; intros [|fuel] w Hk Hv Hf; try lia;
    cbn [getkeyblock_loop replicate app] in *.
  - rewrite (bind_done _ _ w v (set_keys ks w)) by (unfold vana_getkey; by rewrite Hk).
    by rewrite (proj2 (Z.eqb_neq v 0)).
  - rewrite (bind_done _ _ w 0 (set_keys (replicate z 0 ++ v :: ks) w)) by (unfold vana_getkey; by rewrite Hk).
    cbn [Z.eqb]. rewrite IH by (done || lia). done.
Qed.

(** The world after reading: some keys are used up and some characters shown. *)
Definition typed (w : world) (ks e : list Z) : world := set_shown (shown w ++ e) (set_keys ks w).

Lemma typed_keys w ks : set_keys ks w = typed w ks [].
Proof. unfold typed. rewrite app_nil_r. done. Qed.

Lemma typed_typed w ks ks' e e' : typed (typed w ks e) ks' e' = typed w ks' (e ++ e').
Proof. unfold typed. cbn. by rewrite <- app_assoc. Qed.

(** One key of the loop: the buffer holds the line and then some bytes. *)
Lemma edit_step l rest key max : (length l < Z.to_nat (max - 1))%nat → max <= Z.of_nat (length (l ++ rest)) →
  let l' := edit_key l key in
  ∃ rest', length (l' ++ rest') = length (l ++ rest) ∧
    if (key =? 8) && (1 <=? Z.of_nat (length l))
    then (l ++ rest).[Z.of_nat (length l) - 1 <- 0] = Some (l' ++ rest') ∧ Z.of_nat (length l) - 2 + 1 = Z.of_nat (length l')
    else (l ++ rest).[Z.of_nat (length l) <- key] = Some (l' ++ rest') ∧ Z.of_nat (length l) + 1 = Z.of_nat (length l').
Proof.
  intros Hl Hm. unfold edit_key. destruct (_ && _) eqn:E; cbv zeta.
  - apply andb_true_iff in E as [_ E%Z.leb_le]. destruct l as [|x l _] using rev_ind; [simpl in E; lia|].
    rewrite removelast_last. exists (0 :: rest). rewrite !length_app, <- app_assoc. simpl.
    replace (Z.of_nat (length l + 1) - 1) with (Z.of_nat (length l)) by lia. rewrite upd_app. split_and!; (done || lia).
  - rewrite length_app in Hm. destruct rest as [|y rest]; [simpl in Hm; lia|]. exists rest.
    rewrite upd_app, <- app_assoc, !length_app. simpl. rewrite ?length_app. simpl. split_and!; (done || lia).
Qed.

Lemma edit_key_nonzero l key : nonzero l → key ≠ 0 → nonzero (edit_key l key).
Proof.
  intros Hl Hk. unfold edit_key. destruct (_ && _).
  - destruct l as [|x l _] using rev_ind; [done|]. rewrite removelast_last. by apply Forall_app in Hl as [? _].
  - apply Forall_app. split; [done|by apply Forall_singleton].
Qed.

Lemma edit_line_nonzero n l ks l' e : edit_line n l ks = Some (l', e) → nonzero l → nonzero ks → nonzero l'.
Proof.
  revert l l' e. induction ks as [|k ks IH]; intros l l' e H Hl Hks; cbn [edit_line] in H;
    destruct (length l <? n)%nat; simplify_eq; try done.
  inversion Hks; subst. destruct (k =? 13); simplify_eq; [done|].
  destruct (edit_line n (edit_key l k) ks) as [[l1 e1]|] eqn:E; simplify_eq/=.
  eapply IH; [exact E|by apply edit_key_nonzero|done].
Qed.

Lemma readline_loop_spec fuel w l rest max echo l' e :
  edit_line (Z.to_nat (max - 1)) l (pressed (keys w)) = Some (l', e) →
  (length (keys w) < fuel)%nat → (length l ≤ Z.to_nat (max - 1))%nat → 1 <= max <= Z.of_nat (length (l ++ rest)) →
  ∃ rest' used ks', keys w = used ++ ks' ∧ one_line (Z.to_nat (max - 1)) l used (l', e) ∧ length (l' ++ rest') = length (l ++ rest) ∧
    (length l' ≤ Z.to_nat (max - 1))%nat ∧
    readline_loop fuel (Z.of_nat (length l)) max echo (l ++ rest) w =
      Done ((Z.of_nat (length l'), l' ++ rest'), typed w ks' (if echo then e else [])).
Proof.
  revert w l rest e. induction fuel as [|fuel IH]; intros w l rest e He Hf Hl Hm; [lia|].
  cbn [readline_loop]. destruct (pressed (keys w)) as [|k ps] eqn:Ep; cbn [edit_line] in He;
    destruct (Nat.ltb_spec (length l) (Z.to_nat (max - 1))) as [Hlt|Hge]; simplify_eq.
  1, 3: rewrite (proj2 (Z.ltb_ge _ _)) by lia; exists rest, [], (keys w); split_and!; try (done || lia || by apply one_line_full);
    unfold typed; destruct echo; rewrite app_nil_r; by destruct w.
  rewrite (proj2 (Z.ltb_lt _ _)) by lia.
  destruct (pressed_cons _ _ _ Ep) as (z & v & ks & Hk & Hv & -> & ->).
  rewrite Hk, length_app, length_replicate in Hf. simpl in Hf.
  rewrite (bind_done _ _ _ _ _ (vana_getkeyblock_spec (S fuel) w z v ks Hk Hv ltac:(lia))), typed_keys.
  destruct (Z.eqb_spec (u8 v) 13) as [Hr|Hr].
  { simplify_eq. exists rest, (replicate z 0 ++ [v]), ks. rewrite <- app_assoc.
    split_and!; try (done || lia || by apply one_line_return). by destruct echo. }
  destruct (edit_line _ (edit_key l (u8 v)) (pressed ks)) as [[l1 e1]|] eqn:E1; simplify_eq/=.
  set (w1 := typed w ks (if echo then [u8 v] else [])).
  rewrite (bind_done _ _ _ tt w1).
  2:{ subst w1. destruct echo; [|done]. unfold vana_putchar, modify, typed. cbn. by rewrite app_nil_r, (u8_small (u8 v)) by apply u8_range. }
  destruct (edit_step l rest (u8 v) max Hlt ltac:(lia)) as (rest1 & Hlen & Hstep). cbv zeta in Hlen, Hstep.
  destruct (IH w1 (edit_key l (u8 v)) rest1 e1) as (rest' & used & ks' & Hks & Ho & Hlen' & Hn & E).
  - exact E1.
  - change (keys w1) with ks. lia.
  - destruct (_ && _) in Hstep; lia.
  - lia.
  - change (keys w1) with ks in Hks. exists rest', (replicate z 0 ++ v :: used), ks'. rewrite Hk, Hks, <- app_assoc.
    split_and!; [done|by apply one_line_key|lia|done|].
    replace (typed w ks' (if echo then u8 v :: e1 else [])) with (typed w1 ks' (if echo then e1 else []))
      by (subst w1; rewrite typed_typed; by destruct echo).
    rewrite <- E. destruct (_ && _); destruct Hstep as [Hs ->]; by rewrite (bind_liftO _ _ _ _ Hs).
Qed.

Lemma readline_spec fuel w out max echo l e :
  edit_line (Z.to_nat (max - 1)) [] (pressed (keys w)) = Some (l, e) → Forall is_char (keys w) →
  (length (keys w) < fuel)%nat → 1 <= max <= Z.of_nat (length out) →
  ∃ out' used ks', vana_terminal_readline fuel out max echo w = Done (out', typed w ks' (if echo then e else [])) ∧
    cstr out' = Some l ∧ (length l < Z.to_nat max)%nat ∧ length out' = length out ∧
    keys w = used ++ ks' ∧ one_line (Z.to_nat (max - 1)) [] used (l, e).
Proof.
  intros He Hc Hf Hm.
  destruct (readline_loop_spec fuel w [] out max echo l e He Hf) as (rest & used & ks' & Hk & Ho & Hlen & Hn & E); [simpl; lia|done|].
  unfold vana_terminal_readline. simpl length in E. cbn [app] in E, Hlen. rewrite (bind_done _ _ _ _ _ E). cbn [fst snd].
  rewrite length_app in Hlen. destruct rest as [|y rest]; [simpl in Hlen; lia|].
  exists (l ++ 0 :: rest), used, ks'. unfold liftO. rewrite upd_app. split_and!; [done| |lia|rewrite length_app; simpl in *; lia|done..].
  apply cstr_app. eapply edit_line_nonzero; [exact He|by apply Forall_nil|by apply pressed_nonzero].
Qed.

(** C14: line input is the line editor.  When the keys to come, each a [char],
    edit to a line and the buffer has room for [max] characters, at least one,
    [vana_terminal_readline] leaves in the buffer the line that the keys edit to,
    terminated and of fewer than [max] characters, and shows the keys as they are
    typed when asked to.  The keys it used edit to that line and no fewer of them
    end a line, so it reads no key beyond the end of the line. *)
Theorem readline_refines_editor fuel w out max echo l e :
  edit_line (Z.to_nat (max - 1)) [] (pressed (keys w)) = Some (l, e) → Forall is_char (keys w) →
  (length (keys w) < fuel)%nat → 1 <= max <= Z.of_nat (length out) →
  ∃ out' used ks', vana_terminal_readline fuel out max echo w = Done (out', typed w ks' (if echo then e else [])) ∧
    cstr out' = Some l ∧ (length l < Z.to_nat max)%nat ∧ length out' = length out ∧
    keys w = used ++ ks' ∧ one_line (Z.to_nat (max - 1)) [] used (l, e).
Proof. apply readline_spec. Qed.

(** C13: the command parser.  A line becomes a linked list of its words, each cut
    to the 511 characters of an argument.  Only the first 1024 characters of the
    line are looked at, the list is cut short when memory runs out, and for a
    [max] of 1025 or more the answer is null and nothing happens.  One block
    of memory is used for each word, nothing else of the program changes, and the
    scanner is at rest again when memory was sufficient.  The blocks that memory
    answers with are not in use, and the scanner must be at rest before: one left
    within the buffer of an earlier call goes on there. *)
Theorem vana_parse_command_correct uninit fuel w b command l max :
  let s := take (Z.to_nat 1024) l in
  (∀ n, length (uninit n) = Z.to_nat n) → cstr command = Some l → (length s < fuel)%nat →
  sp w = None → buffers w !! b = None → fresh_answers w →
  ∃ w' root, vana_parse_command uninit fuel b command max w = Done (root, w') ∧
    if decide (max < 1025) then command_parsed w w' s root else root = 0 ∧ w' = w.
Proof.
  intros s Hu Hs Hf Hsp Hb Hfr. case_decide; [by apply vana_parse_command_spec|].
  exists w, 0. unfold vana_parse_command. by rewrite (proj2 (Z.leb_le 1025 max)) by lia.
Qed.

(** ** The shell: correctness *)

Lemma print_done s str w : cstr s = Some str → (length str ≤ 1023)%nat →
  print s w = Done (tt, typed w (keys w) str).
Proof.
  intros Hs Hl. unfold print. rewrite (bind_liftO _ _ _ _ Hs). unfold modify, typed.
  rewrite take_ge by lia. by destruct w.
Qed.

(** The shell between two rounds: the scanner is at rest, the buffer of the
    parser is not in use, the kernel's memory is fresh and the keys are [char]s. *)
Definition shell_ready (b : Z) (w : world) : Prop :=
  sp w = None ∧ buffers w !! b = None ∧ fresh_answers w ∧ Forall is_char (keys w).

(** What a round that reads the line [l] leaves. *)
Record round_done (b : Z) (w w' : world) (l e : list Z) : Prop := {
  rd_shown : shown w' = shown w ++ codes "> " ++ e ++ [10; 10];
  rd_keys : ∃ used, keys w = used ++ keys w' ∧ one_line (Z.to_nat 1023) [] used (l, e);
  rd_memory : memory_answers w' = drop (length (words l)) (memory_answers w);
  rd_ready : shell_ready b w';
  rd_buffers : buffers w' = buffers w;
  rd_command :
    if decide (words l = []) then started w' = started w ∧ system_answers w' = system_answers w
    else ∃ root, started w' = started w ++ [root] ∧ system_answers w' = tail (system_answers w) ∧
      chain (argument_blocks w') root (words l)
}.

Lemma shell_round_spec uninit fuel w b l e :
  (∀ n, length (uninit n) = Z.to_nat n) →
  edit_line (Z.to_nat 1023) [] (pressed (keys w)) = Some (l, e) →
  (length (keys w) < fuel)%nat → (1023 < fuel)%nat →
  shell_ready b w → (length (words l) ≤ length (memory_answers w))%nat → (words l = [] ∨ system_answers w ≠ []) →
  ∃ w', shell_round uninit fuel b w = Done (tt, w') ∧ round_done b w w' l e.
Proof.
  intros Hu He Hf Hf' (Hsp & Hb & Hfr & Hc) Hmem Hsys. unfold shell_round.
  rewrite (bind_done _ _ _ _ _ (print_done (text "> ") (codes "> ") w eq_refl ltac:(cbn; lia))).
  set (w1 := typed w (keys w) _).
  destruct (readline_spec fuel w1 (uninit 1024) 1024 true l e He Hc Hf) as (out & used & ks & E & Hout & Hl & Hlen & Hk & Hone);
    [rewrite Hu; lia|].
  rewrite (bind_done _ _ _ _ _ E). set (w2 := typed w1 ks e).
  rewrite (bind_done _ _ _ _ _ (print_done [10; 0] [10] w2 eq_refl ltac:(cbn; lia))). set (w3 := typed w2 _ _).
  destruct (vana_system_run_spec uninit Hu fuel w3 b out l Hout) as (w4 & root & [Hch Ho Hbf Hs Hma Hfr4 Hun] & Es); [lia|lia|done..|].
  destruct Hun as (Hky & Hsa & Hsh & Hst & _ & _). change (memory_answers w3) with (memory_answers w) in *.
  change (keys w3) with ks in Hky. change (keys w1) with (keys w) in Hk.
  rewrite take_ge in Hch by lia. specialize (Hs Hmem).
  assert (shown w4 = shown w ++ codes "> " ++ e ++ [10]) as Hsh4 by (rewrite Hsh; subst w3 w2 w1; cbn; by rewrite <- !app_assoc).
  assert (∃ used, keys w = used ++ keys w4 ∧ one_line (Z.to_nat 1023) [] used (l, e)) as Hkeys by (exists used; by rewrite Hky).
  assert (shell_ready b w4) as Hready.
  { split_and!; [done|by rewrite Hbf|done|]. rewrite Hky. rewrite Hk in Hc. by apply Forall_app in Hc as [_ ?]. }
  destruct (words l) as [|x xs] eqn:Ew.
  - cbn in Hch. subst root. cbn [Z.eqb] in Es. rewrite (bind_done _ _ _ _ _ Es).
    rewrite (print_done [10; 0] [10] w4 eq_refl) by (cbn; lia). eexists. split; [done|].
    split; rewrite ?Ew; try done. cbn. by rewrite Hsh4, <- !app_assoc.
  - destruct Hsys as [|Hsys]; [done|]. destruct Hch as [Hr Hch]. rewrite (proj2 (Z.eqb_neq root 0)) in Es by done.
    destruct (system_answers w) as [|r rs] eqn:Er; [done|].
    unfold vana_system in Es. rewrite Hsa in Es. change (system_answers w3) with (system_answers w) in Es. rewrite Er in Es.
    rewrite (bind_done _ _ _ _ _ Es). set (w5 := set_system_answers _ _).
    rewrite (print_done [10; 0] [10] w5 eq_refl) by (cbn; lia). eexists. split; [done|].
    split; rewrite ?Ew; try done; [cbn; by rewrite Hsh4, <- !app_assoc|].
    rewrite decide_False by done. exists root. rewrite Er. split_and!; [cbn; by rewrite Hst|done|by split].
Qed.

(** C8: one round of the shell.  When the keys to come edit to a line, the round
    shows the prompt, the keys as they are typed and two line breaks, and hands
    the words of the line, each cut to the 511 characters of an argument, to the
    kernel as one command, or nothing when the line has no words.  It uses up the
    keys of exactly that line and one block of memory for each word, and the shell
    is ready for the next round.  The shell must be ready before; the kernel must
    have a block for each word, for when it has not the scanner is left within the
    line; and it must answer the command. *)
Theorem shell_round_runs_command uninit fuel w b l e :
  (∀ n, length (uninit n) = Z.to_nat n) →
  edit_line (Z.to_nat 1023) [] (pressed (keys w)) = Some (l, e) →
  (length (keys w) < fuel)%nat → (1023 < fuel)%nat →
  shell_ready b w → (length (words l) ≤ length (memory_answers w))%nat → (words l = [] ∨ system_answers w ≠ []) →
  ∃ w', shell_round uninit fuel b w = Done (tt, w') ∧ round_done b w w' l e.
Proof. apply shell_round_spec. Qed.

(** ** The stubs *)

(** The kernel's handler for each stub. *)
Definition handler_of (c : stub) : command :=
  match c with
  | StubPrint _ => isr80h_command1_print
  | StubSum _ _ => isr80h_command0_sum
  | StubGetkey => isr80h_command2_getkey
  | StubPutchar _ => isr80h_command3_putchar
  | StubMalloc _ => isr80h_command4_malloc
  | StubFree _ => isr80h_command5_free
  | StubProcessLoadStart _ => isr80h_command6_process_load_start
  | StubSystem _ => isr80h_command7_invoke_system_command
  | StubGetArguments _ => isr80h_command8_get_program_arguments
  | StubExit => isr80h_command9_exit
  end.

(** Every stub asks for the command its name says. *)
Lemma stubs_match_commands c : command_table.[(stub_call c).1] = Some (handler_of c).
Proof. by destruct c. Qed.

(** ** Examples *)

Definition demo_uninit (n : Z) : list Z := replicate (Z.to_nat n) 7.

(** The keys of "ls  xy", with a slip that is taken back, and polls between them. *)
Definition demo_keys : list Z := [0; 108; 0; 0; 115; 32; 32; 120; 122; 8; 121; 13; 65].

Definition demo_world : world :=
  {| keys := demo_keys; memory_answers := [4096; 8192]; system_answers := [-2]; shown := []; started := [];
     given_back := []; argument_blocks := ∅; buffers := ∅; sp := None; itoa_text := replicate 12 0 |}.

Lemma demo_uninit_length n : length (demo_uninit n) = Z.to_nat n.
Proof. apply length_replicate. Qed.

Lemma demo_fresh : fresh_answers demo_world.
Proof. split_and!; [apply (bool_decide_unpack _); by vm_compute..|done]. Qed.

Lemma demo_chars : Forall is_char demo_keys.
Proof. apply (bool_decide_unpack _); by vm_compute. Qed.

Lemma readline_refines_editor_witness :
  ∃ out' used ks', vana_terminal_readline 20 (demo_uninit 10) 10 true demo_world =
      Done (out', typed demo_world ks' [108; 115; 32; 32; 120; 122; 8; 121]) ∧
    cstr out' = Some [108; 115; 32; 32; 120; 121] ∧ (6 < 10)%nat ∧ length out' = 10%nat ∧ demo_keys = used ++ ks' ∧
    one_line 9 [] used ([108; 115; 32; 32; 120; 121], [108; 115; 32; 32; 120; 122; 8; 121]).
Proof.
  apply (readline_refines_editor 20 demo_world (demo_uninit 10) 10 true [108; 115; 32; 32; 120; 121] [108; 115; 32; 32; 120; 122; 8; 121]);
    [reflexivity|apply demo_chars|cbn; lia|rewrite demo_uninit_length; lia].
Defined.

Lemma vana_parse_command_correct_witness :
  ∃ w' root, vana_parse_command demo_uninit 20 1 [32; 108; 115; 32; 120; 0] 1024 demo_world = Done (root, w') ∧
    command_parsed demo_world w' [32; 108; 115; 32; 120] root.
Proof.
  apply (vana_parse_command_correct demo_uninit 20 demo_world 1 _ [32; 108; 115; 32; 120] 1024 demo_uninit_length);
    [reflexivity|change (5 < 20)%nat; lia|reflexivity|reflexivity|apply demo_fresh].
Defined.

Lemma shell_round_runs_command_witness :
  ∃ w', shell_round demo_uninit (Z.to_nat 2000) 1 demo_world = Done (tt, w') ∧
    round_done 1 demo_world w' [108; 115; 32; 32; 120; 121] [108; 115; 32; 32; 120; 122; 8; 121].
Proof.
  apply (shell_round_runs_command demo_uninit (Z.to_nat 2000) demo_world 1 [108; 115; 32; 32; 120; 121]
    [108; 115; 32; 32; 120; 122; 8; 121] demo_uninit_length);
    [reflexivity|cbn [length keys demo_world demo_keys]; lia|lia| |cbn; lia|by right].
  split_and!; [reflexivity|reflexivity|apply demo_fresh|apply demo_chars].
Defined.

(** When the second argument finds no memory the scanner keeps its place in the
    local buffer of the call that is over: the next command, although a new one,
    is parsed from there.  Here "ab cd" is followed by "uvwxyz": its first five
    characters are lost. *)
Definition stale_scan : M world (Z * Z * option (list Z)) :=
  modify (set_memory_answers [4096]);;
  r1 ← vana_parse_command demo_uninit 20 1 (text "ab cd") 1024;
  modify (set_memory_answers [8192]);;
  r2 ← vana_parse_command demo_uninit 20 1 (text "uvwxyz") 1024;
  gets (λ w, (r1, r2, a ← argument_blocks w !! r2; cstr (argument_text a))).

Lemma strtok_keeps_stale_place :
  match stale_scan demo_world with Done (r, _) => r = (4096, 8192, Some (codes "z")) | _ => False end.
Proof. vm_compute. reflexivity. Qed.
