(* ===== verification/Paging64.v ===== *)
(** * The 64-bit page tables: memory/paging/paging64.c

    Four levels of tables of 512 entries translate the low 48 bits of a virtual
    address.  Tables are taken, one page after the other, from physical memory
    above 2 MiB and are written through the direct map, a window at [hhdm_offset]
    that shows the first 4 GiB of physical memory; the loader provides it before
    [paging64_init] builds the kernel's own.  [words] is the memory as the
    kernel's pointers see it, by the address of the 64-bit word.

    The invariant [tables] says which page is which table; with it [map_page],
    [map_range] and [unmap] change the translation of the pages they are asked to
    change and of no other, and [paging64_init] builds the whole window within
    the memory it has for tables. *)

From S2P Require Import Prelude.

Local Open Scope Z_scope.

Definition PTE_P : Z := 1.
Definition PTE_RW : Z := 2.
Definition PTE_NX : Z := 2 ^ 63.
Definition PAGE_SIZE : Z := 0x1000.
Definition HHDM_BASE : Z := 0xffff800000000000.
Definition DIRECT_MAP_PAGES : Z := 1024 * 1024.
Definition ADDRESS_MASK : Z := 0x000ffffffffff000.

(** [cr3_64] and [efer] are the registers of the processor. *)
Record paging64 := {
  hhdm_offset : Z;
  next_free_phys : Z;
  pml4 : Z;
  words : Z → Z;
  cr3_64 : Z;
  efer : Z
}.

Definition set_hhdm_offset (x : Z) (s : paging64) : paging64 :=
  {| hhdm_offset := x; next_free_phys := next_free_phys s; pml4 := pml4 s; words := words s; cr3_64 := cr3_64 s; efer := efer s |}.
Definition set_next_free_phys (x : Z) (s : paging64) : paging64 :=
  {| hhdm_offset := hhdm_offset s; next_free_phys := x; pml4 := pml4 s; words := words s; cr3_64 := cr3_64 s; efer := efer s |}.
Definition set_pml4 (x : Z) (s : paging64) : paging64 :=
  {| hhdm_offset := hhdm_offset s; next_free_phys := next_free_phys s; pml4 := x; words := words s; cr3_64 := cr3_64 s; efer := efer s |}.
Definition set_words (x : Z → Z) (s : paging64) : paging64 :=
  {| hhdm_offset := hhdm_offset s; next_free_phys := next_free_phys s; pml4 := pml4 s; words := x; cr3_64 := cr3_64 s; efer := efer s |}.
Definition set_cr3_64 (x : Z) (s : paging64) : paging64 :=
  {| hhdm_offset := hhdm_offset s; next_free_phys := next_free_phys s; pml4 := pml4 s; words := words s; cr3_64 := x; efer := efer s |}.
Definition set_efer (x : Z) (s : paging64) : paging64 :=
  {| hhdm_offset := hhdm_offset s; next_free_phys := next_free_phys s; pml4 := pml4 s; words := words s; cr3_64 := cr3_64 s; efer := x |}.

(** Entry [i] of the table at pointer [t]. *)
Definition pte (t i : Z) (s : paging64) : Z := words s (t + 8 * i).
Definition set_pte (t i e : Z) : M paging64 unit :=
  modify (λ s, set_words (λ a, if a =? t + 8 * i then e else words s a) s).

Definition present (e : Z) : bool := negb (Z.land e PTE_P =? 0).

(** ** The direct map *)

Definition phys_to_virt (phys : Z) (s : paging64) : Z :=
  if negb (hhdm_offset s =? 0) && (phys <? DIRECT_MAP_PAGES * PAGE_SIZE)
  then u64 (phys + hhdm_offset s) else phys.

Definition pml4_index (virt : Z) : Z := Z.land (Z.shiftr virt 39) 0x1FF.
Definition pdpt_index (virt : Z) : Z := Z.land (Z.shiftr virt 30) 0x1FF.
Definition pd_index (virt : Z) : Z := Z.land (Z.shiftr virt 21) 0x1FF.
Definition pt_index (virt : Z) : Z := Z.land (Z.shiftr virt 12) 0x1FF.

Definition table_at (e : Z) (s : paging64) : Z := phys_to_virt (Z.land e ADDRESS_MASK) s.

Definition virt_to_phys (virt : Z) (s : paging64) : Z :=
  let hhdm_end := u64 (hhdm_offset s + DIRECT_MAP_PAGES * PAGE_SIZE) in
  if negb (hhdm_offset s =? 0) && (hhdm_offset s <=? virt) && (virt <? hhdm_end) then virt - hhdm_offset s
  else
    let e := pte (pml4 s) (pml4_index virt) s in
    if negb (present e) then 0
    else
      let pdpt := table_at e s in
      let e := pte pdpt (pdpt_index virt) s in
      if negb (present e) then 0
      else
        let pd := table_at e s in
        let e := pte pd (pd_index virt) s in
        if negb (present e) then 0
        else
          let pt := table_at e s in
          let entry := pte pt (pt_index virt) s in
          if negb (present entry) then 0
          else Z.lor (Z.land entry ADDRESS_MASK) (Z.land virt 0xFFF).

(** ** Tables *)

Fixpoint zero_words (n : nat) (ptr i : Z) : M paging64 unit :=
  match n with
  | O => mret tt
  | S n => set_pte ptr i 0;; zero_words n ptr (i + 1)
  end.

Definition alloc_page_phys : M paging64 Z :=
  phys ← gets next_free_phys;
  modify (set_next_free_phys (u64 (phys + PAGE_SIZE)));;
  ptr ← gets (phys_to_virt phys);
  zero_words 512 ptr 0;;
  mret phys.

Definition alloc_table : M paging64 Z :=
  phys ← alloc_page_phys; gets (phys_to_virt phys).

(** ** Mapping *)

(** The table below entry [i] of the table at [t], made when there is none: the
    step [map_page] takes at each of the three upper levels. *)
Definition table_below (t i : Z) : M paging64 Z :=
  e ← gets (pte t i);
  (if negb (present e) then
     new_table ← alloc_table;
     phys ← gets (virt_to_phys new_table);
     set_pte t i (Z.lor (Z.lor phys PTE_P) PTE_RW)
   else mret tt);;
  e ← gets (pte t i);
  gets (table_at e).

Definition map_page (virt phys flags : Z) : M paging64 Z :=
  t ← gets pml4;
  pdpt ← table_below t (pml4_index virt);
  pd ← table_below pdpt (pdpt_index virt);
  pt ← table_below pd (pd_index virt);
  set_pte pt (pt_index virt) (Z.lor (Z.lor (Z.land phys ADDRESS_MASK) (Z.land flags 0xFFF)) PTE_P);;
  mret 0.

Fixpoint map_range_loop (n : nat) (i virt phys flags : Z) : M paging64 Z :=
  match n with
  | O => mret 0
  | S n =>
      res ← map_page (u64 (virt + i * PAGE_SIZE)) (u64 (phys + i * PAGE_SIZE)) flags;
      if res <? 0 then mret res else map_range_loop n (i + 1) virt phys flags
  end.

Definition map_range (virt phys count flags : Z) : M paging64 Z :=
  map_range_loop (Z.to_nat count) 0 virt phys flags.

Definition unmap (virt : Z) : M paging64 Z :=
  t ← gets pml4;
  e ← gets (pte t (pml4_index virt));
  if negb (present e) then mret (-1)
  else
    pdpt ← gets (table_at e);
    e ← gets (pte pdpt (pdpt_index virt));
    if negb (present e) then mret (-1)
    else
      pd ← gets (table_at e);
      e ← gets (pte pd (pd_index virt));
      if negb (present e) then mret (-1)
      else
        pt ← gets (table_at e);
        set_pte pt (pt_index virt) 0;;
        mret 0.

Definition paging64_init (hhdm_base : Z) : M paging64 unit :=
  modify (set_hhdm_offset hhdm_base);;
  t ← alloc_table;
  modify (set_pml4 t);;
  let hhdm_i := Z.land (Z.shiftr hhdm_base 39) 0x1FF in
  hhdm_pdpt ← alloc_table;
  phys ← gets (virt_to_phys hhdm_pdpt);
  set_pte t hhdm_i (Z.lor (Z.lor phys PTE_P) PTE_RW);;
  map_range hhdm_base 0 DIRECT_MAP_PAGES (Z.lor PTE_RW PTE_NX);;
  cr3 ← gets (virt_to_phys t);
  modify (set_cr3_64 cr3);;
  modify (λ s, set_efer (Z.lor (efer s) (Z.shiftl 1 11)) s).

(** ** Page numbers and entries *)

(** The number of the page of a virtual address, of its low 48 bits. *)
Definition page_of (virt : Z) : Z := virt mod 2 ^ 48 / 2 ^ 12.

(** The index at a level (0 is the level of the pages) and what is above it. *)
Definition index (l : nat) (n : Z) : Z := n / 512 ^ Z.of_nat l mod 512.
Definition above (l : nat) (n : Z) : Z := n / 512 ^ (Z.of_nat l + 1).

Lemma index_range l n : 0 <= index l n < 512.
Proof. apply Z.mod_pos_bound. lia. Qed.

Lemma above_index l n : above l n * 512 + index l n = n / 512 ^ Z.of_nat l.
Proof.
  unfold above, index. rewrite Z.pow_add_r, <- Z.div_div by (simpl; lia).
  change (512 ^ 1) with 512. pose proof (Z.div_mod (n / 512 ^ Z.of_nat l) 512). lia.
Qed.

Lemma above_S l n : above (S l) n * 512 + index (S l) n = above l n.
Proof. rewrite above_index. unfold above. do 2 f_equal. lia. Qed.

Lemma above_page n : above 0 n * 512 + index 0 n = n.
Proof. rewrite above_index. apply Z.div_1_r. Qed.

Lemma land_511 x : Z.land x 0x1FF = x mod 512.
Proof. change 0x1FF with (Z.ones 9). by rewrite Z.land_ones. Qed.

(** The indices the code computes. *)
Lemma index_page l v : (l ≤ 3)%nat → Z.land (Z.shiftr v (12 + 9 * Z.of_nat l)) 0x1FF = index l (page_of v).
Proof.
  intros Hl. unfold index, page_of. rewrite land_511, Z.shiftr_div_pow2 by lia.
  destruct l as [|[|[|[|l]]]]; [..|lia]; cbn [Z.of_nat Pos.of_succ_nat Pos.succ];
    [change (512 ^ 0) with 1; change (2 ^ (12 + 9 * 0)) with (2 ^ 12)
    |change (512 ^ 1) with (2 ^ 9); change (2 ^ (12 + 9 * 1)) with (2 ^ 21)
    |change (512 ^ 2) with (2 ^ 18); change (2 ^ (12 + 9 * 2)) with (2 ^ 30)
    |change (512 ^ 3) with (2 ^ 27); change (2 ^ (12 + 9 * 3)) with (2 ^ 39)]; euclid.
Qed.

Lemma pml4_index_page v : pml4_index v = index 3 (page_of v).
Proof. rewrite <- (index_page 3) by lia. reflexivity. Qed.
Lemma pdpt_index_page v : pdpt_index v = index 2 (page_of v).
Proof. rewrite <- (index_page 2) by lia. reflexivity. Qed.
Lemma pd_index_page v : pd_index v = index 1 (page_of v).
Proof. rewrite <- (index_page 1) by lia. reflexivity. Qed.
Lemma pt_index_page v : pt_index v = index 0 (page_of v).
Proof. rewrite <- (index_page 0) by lia. reflexivity. Qed.

Lemma page_of_range v : 0 <= page_of v < 2 ^ 36.
Proof. unfold page_of. euclid. Qed.

Lemma land_mask x : 0 <= x → Z.land x ADDRESS_MASK = x / 4096 mod 2 ^ 40 * 4096.
Proof.
  intros Hx. unfold ADDRESS_MASK. change 0x000ffffffffff000 with (Z.shiftl (Z.ones 40) 12).
  replace (x / 4096 mod 2 ^ 40 * 4096) with (Z.shiftl (Z.land (Z.shiftr x 12) (Z.ones 40)) 12)
    by (by rewrite Z.shiftl_mul_pow2, Z.shiftr_div_pow2, Z.land_ones by lia).
  apply Z.bits_inj'. intros n Hn. rewrite Z.land_spec. destruct (Z.ltb_spec n 12).
  - by rewrite !Z.shiftl_spec_low, andb_false_r by lia.
  - rewrite !Z.shiftl_spec, Z.land_spec, Z.shiftr_spec by lia. by rewrite Z.sub_add.
Qed.

Lemma land_4095 x : Z.land x 0xFFF = x mod 4096.
Proof. change 0xFFF with (Z.ones 12). by rewrite Z.land_ones. Qed.

Lemma present_odd e : present e = Z.odd e.
Proof.
  unfold present, PTE_P. change 1 with (Z.ones 1). rewrite Z.land_ones by lia. change (2 ^ 1) with 2.
  rewrite Zmod_odd. by destruct (Z.odd e).
Qed.

(** The entry for a table. *)
Definition table_entry (p : Z) : Z := Z.lor (Z.lor p PTE_P) PTE_RW.

Lemma table_entry_eq p : p mod 4096 = 0 → table_entry p = p + 3.
Proof.
  intros Hp. unfold table_entry, PTE_P, PTE_RW. rewrite <- Z.lor_assoc. change (Z.lor 1 2) with 3.
  apply (lor_low 12); [lia|exact Hp|lia].
Qed.

Lemma table_entry_present p : p mod 4096 = 0 → present (table_entry p) = true.
Proof. intros Hp. rewrite table_entry_eq, present_odd, Zodd_mod by done. apply Z.eqb_eq. euclid. Qed.

Lemma table_entry_address p : 0 <= p < 2 ^ 52 → p mod 4096 = 0 → Z.land (table_entry p) ADDRESS_MASK = p.
Proof. intros Hp Hm. rewrite table_entry_eq, land_mask by lia. euclid. Qed.

(** The entry for a page. *)
Definition page_entry (phys flags : Z) : Z :=
  Z.lor (Z.lor (Z.land phys ADDRESS_MASK) (Z.land flags 0xFFF)) PTE_P.

Definition low_flags (flags : Z) : Z := Z.lor (Z.land flags 0xFFF) PTE_P.

Lemma low_flags_range flags : 0 <= low_flags flags < 2 ^ 12.
Proof. unfold low_flags, PTE_P. rewrite land_4095. apply lor_bound; [lia|euclid|lia]. Qed.

Lemma page_entry_eq phys flags : 0 <= phys → page_entry phys flags = phys / 4096 mod 2 ^ 40 * 4096 + low_flags flags.
Proof.
  intros Hp. unfold page_entry. rewrite <- Z.lor_assoc, land_mask by done. fold (low_flags flags).
  apply (lor_low 12); [lia|euclid|apply low_flags_range].
Qed.

Lemma page_entry_present phys flags : present (page_entry phys flags) = true.
Proof. rewrite present_odd, <- Z.bit0_odd. unfold page_entry. rewrite Z.lor_spec. apply orb_true_r. Qed.

(** What an entry says: the address of the page, and the low bits of the flags
    and no others. *)
Lemma page_entry_address phys flags : 0 <= phys < 2 ^ 52 → phys mod 4096 = 0 →
  Z.land (page_entry phys flags) ADDRESS_MASK = phys.
Proof.
  intros Hp Hm. pose proof (low_flags_range flags). rewrite page_entry_eq by lia. rewrite land_mask by euclid. euclid.
Qed.

Lemma page_entry_nx phys flags : 0 <= phys → Z.testbit (page_entry phys flags) 63 = false.
Proof.
  intros Hp. pose proof (low_flags_range flags). rewrite page_entry_eq by done.
  rewrite <- (Z.mod_small (_ + _) (2 ^ 63)) by euclid. apply Z.mod_pow2_bits_high. lia.
Qed.

(** ** The tables *)

(** Entry [i] of the table at physical address [t], as seen in the direct map. *)
Definition entry (s : paging64) (t i : Z) : Z := pte (t + hhdm_offset s) i s.

(** The translation: the tables from the table at [t] of level [l] down, along the
    indices of page [n], to the entry of the page. *)
Fixpoint walk (l : nat) (s : paging64) (t n : Z) : option Z :=
  let e := entry s t (index l n) in
  if present e then match l with O => Some e | S l => walk l s (Z.land e ADDRESS_MASK) n end
  else None.

(** The lowest table on the way. *)
Fixpoint page_table (l : nat) (s : paging64) (t n : Z) : option Z :=
  match l with
  | O => Some t
  | S l' => let e := entry s t (index l n) in
            if present e then page_table l' s (Z.land e ADDRESS_MASK) n else None
  end.

Definition first_table : Z := 0x200000.

(** The direct map covers the tables. *)
Record window (s : paging64) : Prop := {
  wi_offset : 0 < hhdm_offset s;
  wi_end : hhdm_offset s + 2 ^ 32 < 2 ^ 64;
  wi_next : first_table <= next_free_phys s <= 2 ^ 32;
  wi_aligned : next_free_phys s mod 4096 = 0
}.

(** [T] says which page is a table, at which level, and what the pages below it
    have in common: what is above their index at that level. *)
Record tables (s : paging64) (root : Z) (T : gmap Z (nat * Z)) : Prop := {
  tb_window : window s;
  tb_root : T !! root = Some (3%nat, 0);
  tb_pml4 : pml4 s = root + hhdm_offset s;
  tb_range : ∀ t x, T !! t = Some x → first_table <= t ∧ t + 4096 <= next_free_phys s ∧ t mod 4096 = 0;
  tb_link : ∀ t l k i, T !! t = Some (S l, k) → 0 <= i < 512 → present (entry s t i) = true →
    T !! Z.land (entry s t i) ADDRESS_MASK = Some (l, k * 512 + i)
}.

Lemma window_same s s' : window s → hhdm_offset s' = hhdm_offset s → next_free_phys s' = next_free_phys s → window s'.
Proof. intros [H1 H2 H3 H4] E1 E2. split; rewrite ?E1, ?E2; assumption. Qed.

(** The pointer to a table. *)
Lemma phys_to_virt_low s p : window s → 0 <= p < 2 ^ 32 → phys_to_virt p s = p + hhdm_offset s.
Proof.
  intros [] Hp. unfold phys_to_virt. rewrite (proj2 (Z.eqb_neq _ _)) by lia.
  rewrite (proj2 (Z.ltb_lt _ _)) by (unfold DIRECT_MAP_PAGES, PAGE_SIZE; lia). apply u64_small. range.
Qed.

Lemma virt_to_phys_window s p : window s → 0 <= p < 2 ^ 32 → virt_to_phys (p + hhdm_offset s) s = p.
Proof.
  intros [] Hp. unfold virt_to_phys. rewrite (proj2 (Z.eqb_neq _ _)) by lia.
  rewrite u64_small by (unfold DIRECT_MAP_PAGES, PAGE_SIZE; range).
  rewrite (proj2 (Z.leb_le _ _)), (proj2 (Z.ltb_lt _ _)) by (unfold DIRECT_MAP_PAGES, PAGE_SIZE; lia). simpl. lia.
Qed.

(** Words of different tables, and different words of a table, are apart. *)
Lemma entry_apart t t' i j : t mod 4096 = 0 → t' mod 4096 = 0 → 0 <= i < 512 → 0 <= j < 512 →
  t + 8 * i = t' + 8 * j → t = t' ∧ i = j.
Proof. intros. euclid. Qed.

(** *** A new table *)

Lemma zero_words_spec n ptr i s :
  ∃ W, zero_words n ptr i s = Done (tt, set_words W s) ∧
    (∀ j, i <= j < i + Z.of_nat n → W (ptr + 8 * j) = 0) ∧
    (∀ a, (∀ j, i <= j < i + Z.of_nat n → a ≠ ptr + 8 * j) → W a = words s a).
Proof.
  revert i s. induction n as [|n IH]; intros i s.
  - exists (words s). split_and!; [by destruct s|lia|done].
  - cbn [zero_words]. unfold set_pte. rewrite bind_modify.
    destruct (IH (i + 1) (set_words (λ a, if a =? ptr + 8 * i then 0 else words s a) s)) as (W & E & Hz & Ho).
    exists W. split_and!; [exact E| |].
    + intros j Hj. destruct (decide (j = i)) as [->|]; [|apply Hz; lia].
      rewrite Ho by lia. cbn [words set_words]. by rewrite Z.eqb_refl.
    + intros a Ha. rewrite Ho by (intros j Hj; apply Ha; lia). cbn [words set_words].
      by rewrite (proj2 (Z.eqb_neq _ _)) by (apply Ha; lia).
Qed.

(** The state after a table was taken: its words are zero, the others as before. *)
Record new_table (s s' : paging64) : Prop := {
  nt_next : next_free_phys s' = next_free_phys s + 4096;
  nt_offset : hhdm_offset s' = hhdm_offset s;
  nt_pml4 : pml4 s' = pml4 s;
  nt_cr3 : cr3_64 s' = cr3_64 s;
  nt_efer : efer s' = efer s;
  nt_zero : ∀ j, 0 <= j < 512 → entry s' (next_free_phys s) j = 0;
  nt_other : ∀ a, (∀ j, 0 <= j < 512 → a ≠ next_free_phys s + hhdm_offset s + 8 * j) → words s' a = words s a
}.

Lemma alloc_table_spec s : window s → next_free_phys s < 2 ^ 32 →
  ∃ s', alloc_table s = Done (next_free_phys s + hhdm_offset s, s') ∧ new_table s s' ∧ window s'.
Proof.
  intros Hw Hroom. pose proof Hw as [H1 H2 H3 H4]. unfold first_table in H3. unfold alloc_table, alloc_page_phys.
  set (s1 := set_next_free_phys (u64 (next_free_phys s + PAGE_SIZE)) s).
  assert (next_free_phys s1 = next_free_phys s + 4096) as Hn by (subst s1; cbn; apply u64_small; unfold PAGE_SIZE; range).
  assert (window s1) as Hw1 by (split; rewrite ?Hn; [done|done|unfold first_table; euclid|euclid]).
  destruct (zero_words_spec 512 (next_free_phys s + hhdm_offset s) 0 s1) as (W & E & Hz & Ho).
  exists (set_words W s1). split_and!.
  - rewrite (bind_done _ _ s (next_free_phys s) (set_words W s1)).
    + unfold gets. do 2 f_equal. apply (phys_to_virt_low (set_words W s1)); [by apply (window_same s1)|lia].
    + rewrite bind_gets, bind_modify. fold s1. rewrite bind_gets, (phys_to_virt_low s1 _ Hw1) by lia.
      by rewrite (bind_done _ _ _ _ _ E).
  - split; [exact Hn|done..|exact Hz|exact Ho].
  - by apply (window_same s1).
Qed.

(** *** Adding tables *)

(** [s'] has all the tables of [s] and perhaps new ones; every page is translated
    as before. *)
Record extends (root : Z) (s : paging64) (T : gmap Z (nat * Z)) (s' : paging64) (T' : gmap Z (nat * Z)) : Prop := {
  ex_tables : tables s' root T';
  ex_sub : T ⊆ T';
  ex_present : ∀ t x i, T !! t = Some x → 0 <= i < 512 → present (entry s t i) = true → entry s' t i = entry s t i;
  ex_walk : ∀ l t k n, T !! t = Some (l, k) → walk l s' t n = walk l s t n;
  ex_offset : hhdm_offset s' = hhdm_offset s;
  ex_cr3 : cr3_64 s' = cr3_64 s;
  ex_efer : efer s' = efer s;
  ex_next : next_free_phys s <= next_free_phys s';
  ex_outside : ∀ a, ¬ (first_table <= a - hhdm_offset s < next_free_phys s') → words s' a = words s a
}.

Lemma extends_refl root s T : tables s root T → extends root s T s T.
Proof. by split. Qed.

Lemma extends_trans root s T s1 T1 s2 T2 :
  extends root s T s1 T1 → extends root s1 T1 s2 T2 → extends root s T s2 T2.
Proof.
  intros [H1 H2 H3 H4 H5 H6 H7 H8 H9] [I1 I2 I3 I4 I5 I6 I7 I8 I9]. split; try congruence; try lia.
  - by etrans.
  - intros t x i Ht Hi Hp. pose proof (H3 t x i Ht Hi Hp) as E. rewrite <- E.
    apply (I3 t x i); [by eapply lookup_weaken|done|by rewrite E].
  - intros l t k n Ht. rewrite (I4 l t k) by (by eapply lookup_weaken). by apply (H4 l t k).
  - intros a Ha. rewrite I9 by (by rewrite H5). apply H9. lia.
Qed.

(** What links a new table from entry [i] of the table [t]. *)
Definition linked (s1 : paging64) (t i p : Z) : paging64 :=
  set_words (λ a, if a =? t + hhdm_offset s1 + 8 * i then table_entry p else words s1 a) s1.

Section link.
Context (s s1 : paging64) (root : Z) (T : gmap Z (nat * Z)) (t i : Z) (l : nat) (k : Z).
Context (Htb : tables s root T) (Ht : T !! t = Some (S l, k)) (Hi : 0 <= i < 512).
Context (Habs : present (entry s t i) = false) (Hroom : next_free_phys s < 2 ^ 32).
Context (Hnt : new_table s s1) (Hw1 : window s1).
Let p := next_free_phys s.
Let s2 := linked s1 t i p.
Let T2 : gmap Z (nat * Z) := <[p := (l, k * 512 + i)]> T.

Lemma link_entry t' x j : T !! t' = Some x → 0 <= j < 512 →
  entry s2 t' j = if decide (t' = t ∧ j = i) then table_entry p else entry s t' j.
Proof.
  intros Ht' Hj. destruct (tb_range _ _ _ Htb t' x Ht') as (_ & Hr & Ha'). destruct (tb_range _ _ _ Htb t _ Ht) as (_ & _ & Ha).
  destruct (tb_window _ _ _ Htb) as [_ _ _ Hal].
  unfold entry, pte. subst s2. unfold linked. cbn [words set_words hhdm_offset].
  destruct (decide (t' = t ∧ j = i)) as [[-> ->]|Hne].
  { by rewrite Z.eqb_refl. }
  rewrite (proj2 (Z.eqb_neq _ _)).
  2:{ intros E. apply Hne. apply entry_apart; (done || lia). }
  rewrite (nt_other _ _ Hnt), (nt_offset _ _ Hnt); [done|].
  intros j' Hj'. rewrite (nt_offset _ _ Hnt). lia.
Qed.

Lemma link_zero j : 0 <= j < 512 → entry s2 p j = 0.
Proof.
  intros Hj. destruct (tb_range _ _ _ Htb t _ Ht) as (_ & Hr & _).
  pose proof (nt_zero _ _ Hnt j Hj) as Hz. unfold entry, pte in *. subst s2. unfold linked. cbn [words set_words hhdm_offset].
  rewrite (proj2 (Z.eqb_neq _ _)); [exact Hz|]. subst p. lia.
Qed.

Lemma link_address : Z.land (table_entry p) ADDRESS_MASK = p.
Proof. destruct (tb_window _ _ _ Htb) as [_ _ H3 H4]. unfold first_table in H3. apply table_entry_address; [subst p; lia|exact H4]. Qed.

Lemma link_present : present (table_entry p) = true.
Proof. destruct (tb_window _ _ _ Htb) as [_ _ _ H4]. by apply table_entry_present. Qed.

Lemma link_fresh t' x : T !! t' = Some x → t' ≠ p.
Proof. intros Ht' ->. destruct (tb_range _ _ _ Htb _ _ Ht') as (_ & Hr & _). subst p. lia. Qed.

Lemma link_empty l' n : walk l' s2 p n = None.
Proof. destruct l'; cbn [walk]; by rewrite link_zero by apply index_range. Qed.

Lemma link_walk l' t' k' n : T !! t' = Some (l', k') → walk l' s2 t' n = walk l' s t' n.
Proof.
  revert t' k'. induction l' as [|l' IH]; intros t' k' Ht'; cbn [walk];
    rewrite (link_entry t' _ _ Ht') by apply index_range; destruct (decide _) as [[-> Hidx]|_]; try done.
  - congruence.
  - rewrite link_present, link_address, link_empty, Hidx, Habs. done.
  - destruct (present (entry s t' (index (S l') n))) eqn:Hp; [|done].
    eapply IH. apply (tb_link _ _ _ Htb t' l' k'); [done|apply index_range|done].
Qed.

Lemma link_tables : tables s2 root T2.
Proof.
  destruct Htb as [[H1 H2 H3 H4] Hroot Hpml Hrange Hlink]. split.
  - by apply (window_same s1).
  - subst T2. rewrite lookup_insert_ne; [done|]. symmetry. by eapply link_fresh.
  - subst s2. cbn. by rewrite (nt_pml4 _ _ Hnt), (nt_offset _ _ Hnt).
  - intros t' x. subst T2 s2. cbn. rewrite (nt_next _ _ Hnt). destruct (decide (t' = p)) as [->|Hne].
    + intros _. subst p. lia.
    + rewrite lookup_insert_ne by done. intros Hx. destruct (Hrange _ _ Hx) as (? & ? & ?). lia.
  - intros t' l' k' j Ht' Hj. destruct (decide (t' = p)) as [->|Hne].
    { by rewrite link_zero by done. }
    subst T2. rewrite lookup_insert_ne in Ht' by done. rewrite (link_entry t' _ _ Ht' Hj).
    destruct (decide _) as [[-> ->]|_].
    + intros _. rewrite link_address, lookup_insert_eq. congruence.
    + intros Hp. pose proof (Hlink _ _ _ _ Ht' Hj Hp) as Hx. rewrite lookup_insert_ne; [done|]. symmetry. by eapply link_fresh.
Qed.

Lemma link_extends : extends root s T s2 T2.
Proof.
  assert (T !! p = None) as Hp by (destruct (T !! p) eqn:E; [by apply link_fresh in E|done]).
  destruct (tb_range _ _ _ Htb t _ Ht) as (Hr1 & Hr2 & _).
  split; try apply Hnt.
  - apply link_tables.
  - by apply insert_subseteq.
  - intros t' x j Ht' Hj Hpr. rewrite (link_entry t' x) by done. destruct (decide _) as [[-> ->]|]; [congruence|done].
  - intros l' t' k' n Ht'. by eapply link_walk.
  - subst s2. cbn. rewrite (nt_next _ _ Hnt). lia.
  - destruct (tb_window _ _ _ Htb) as [_ _ H3 _].
    intros a Ha. subst s2. unfold linked in *. cbn in Ha |- *. rewrite (nt_next _ _ Hnt) in Ha. rewrite (nt_offset _ _ Hnt).
    rewrite (proj2 (Z.eqb_neq _ _)) by lia. apply (nt_other _ _ Hnt). intros j Hj. lia.
Qed.
End link.

(** A step of [map_page] from a table to the one below. *)
Lemma table_below_spec s root T t i l k :
  tables s root T → T !! t = Some (S l, k) → 0 <= i < 512 →
  (present (entry s t i) = true ∨ next_free_phys s < 2 ^ 32) →
  ∃ t' s' T', table_below (t + hhdm_offset s) i s = Done (t' + hhdm_offset s, s') ∧ extends root s T s' T' ∧
    T' !! t' = Some (l, k * 512 + i) ∧ present (entry s' t i) = true ∧ Z.land (entry s' t i) ADDRESS_MASK = t' ∧
    next_free_phys s' <= next_free_phys s + 4096 ∧ (present (entry s t i) = true → s' = s).
Proof.
  intros Htb Ht Hi Hroom. unfold table_below. rewrite bind_gets. change (pte (t + hhdm_offset s) i s) with (entry s t i).
  destruct (present (entry s t i)) eqn:Hp; cbn [negb].
  - pose proof (tb_link _ _ _ Htb _ _ _ _ Ht Hi Hp) as Hl. destruct (tb_range _ _ _ Htb _ _ Hl) as (H1 & H2 & _).
    pose proof (tb_window _ _ _ Htb) as [_ _ H3 _]. unfold first_table in *.
    exists (Z.land (entry s t i) ADDRESS_MASK), s, T. rewrite bind_mret, bind_gets. unfold gets, table_at.
    change (pte (t + hhdm_offset s) i s) with (entry s t i).
    rewrite phys_to_virt_low by (apply Htb || lia). split_and!; (done || lia || by apply extends_refl).
  - destruct Hroom as [|Hroom]; [done|].
    destruct (alloc_table_spec s (tb_window _ _ _ Htb) Hroom) as (s1 & E & Hnt & Hw1).
    set (p := next_free_phys s) in *. pose proof (tb_window _ _ _ Htb) as [_ _ H3 H4]. unfold first_table in H3.
    pose proof (link_extends s s1 root T t i l k Htb Ht Hi Hp Hroom Hnt Hw1) as Hex. fold p in Hex.
    pose proof (link_entry s s1 root T t i l k Htb Ht Hi Hnt t _ i Ht Hi) as He. fold p in He. rewrite decide_True in He by (split; reflexivity).
    pose proof (link_address s root T Htb Hroom) as Hadr. pose proof (link_present s root T Htb) as Hpr. fold p in Hadr, Hpr.
    set (s2 := linked s1 t i p) in *. exists p, s2, (<[p := (l, k * 512 + i)]> T).
    rewrite (bind_done _ _ s tt s2).
    2:{ rewrite (bind_done _ _ _ _ _ E), bind_gets, <- (nt_offset _ _ Hnt), (virt_to_phys_window s1 _ Hw1) by (subst p; lia). reflexivity. }
    rewrite bind_gets. replace (pte (t + hhdm_offset s) i s2) with (entry s2 t i) by (unfold entry; by rewrite (ex_offset _ _ _ _ _ Hex)).
    unfold gets, table_at. rewrite He, Hadr, (phys_to_virt_low s2), (ex_offset _ _ _ _ _ Hex) by (apply Hex || (subst p; lia)).
    split_and!; [reflexivity|exact Hex|apply lookup_insert_eq|exact Hpr|reflexivity| |done].
    subst s2. cbn. rewrite (nt_next _ _ Hnt). fold p. lia.
Qed.

(** The tables on the way to a page stay. *)
Lemma page_table_extends root s T s' T' l t k n pt :
  extends root s T s' T' → tables s root T → T !! t = Some (l, k) →
  page_table l s t n = Some pt → page_table l s' t n = Some pt.
Proof.
  intros Hex Htb. revert t k. induction l as [|l IH]; intros t k Ht; cbn [page_table]; [done|].
  destruct (present (entry s t (index (S l) n))) eqn:Hp; [|done].
  rewrite (ex_present _ _ _ _ _ Hex t _ _ Ht (index_range _ _) Hp), Hp.
  eapply IH. apply (tb_link _ _ _ Htb t l k); [done|apply index_range|done].
Qed.

Lemma page_table_level s root T l t k n pt :
  tables s root T → T !! t = Some (l, k) → above l n = k → page_table l s t n = Some pt →
  T !! pt = Some (O, above 0 n).
Proof.
  intros Htb. revert t k. induction l as [|l IH]; intros t k Ht Hk; cbn [page_table].
  { intros [= ->]. by subst. }
  destruct (present (entry s t (index (S l) n))) eqn:Hp; [|done].
  eapply IH; [apply (tb_link _ _ _ Htb t l k); [done|apply index_range|done]|]. subst k. symmetry. apply above_S.
Qed.

Lemma walk_page_table l s t n pt : page_table l s t n = Some pt →
  walk l s t n = if present (entry s pt (index 0 n)) then Some (entry s pt (index 0 n)) else None.
Proof.
  revert t. induction l as [|l IH]; intros t; cbn [page_table walk]; [by intros [= ->]|].
  destruct (present (entry s t (index (S l) n))); [apply IH|done].
Qed.

Lemma walk_no_table l s t n : page_table l s t n = None → walk l s t n = None.
Proof.
  revert t. induction l as [|l IH]; intros t; cbn [page_table walk]; [done|].
  destruct (present (entry s t (index (S l) n))); [apply IH|done].
Qed.

(** *** Writing the entry of a page *)

Definition written (s : paging64) (t i e : Z) : paging64 :=
  set_words (λ a, if a =? t + hhdm_offset s + 8 * i then e else words s a) s.

Section write.
Context (s : paging64) (root : Z) (T : gmap Z (nat * Z)) (t i e k : Z).
Context (Htb : tables s root T) (Ht : T !! t = Some (O, k)) (Hi : 0 <= i < 512).
Let s' := written s t i e.

Lemma write_entry t' x j : T !! t' = Some x → 0 <= j < 512 →
  entry s' t' j = if decide (t' = t ∧ j = i) then e else entry s t' j.
Proof.
  intros Ht' Hj. destruct (tb_range _ _ _ Htb t' x Ht') as (_ & _ & Ha'). destruct (tb_range _ _ _ Htb t _ Ht) as (_ & _ & Ha).
  unfold entry, pte. subst s'. unfold written. cbn [words set_words hhdm_offset].
  destruct (decide (t' = t ∧ j = i)) as [[-> ->]|Hne]; [by rewrite Z.eqb_refl|].
  rewrite (proj2 (Z.eqb_neq _ _)); [done|]. intros E. apply Hne. apply entry_apart; (done || lia).
Qed.

Lemma write_upper t' l k' j : T !! t' = Some (S l, k') → 0 <= j < 512 → entry s' t' j = entry s t' j.
Proof.
  intros Ht' Hj. rewrite (write_entry t' _ j Ht' Hj). destruct (decide _) as [[-> _]|]; [congruence|done].
Qed.

Lemma write_tables : tables s' root T.
Proof.
  destruct Htb as [Hw Hroot Hpml Hrange Hlink]. split; try done; [by apply (window_same s)|].
  intros t' l k' j Ht' Hj. rewrite (write_upper t' l k') by done. by apply Hlink.
Qed.

Lemma write_page_table l t' k' n : T !! t' = Some (l, k') → page_table l s' t' n = page_table l s t' n.
Proof.
  revert t' k'. induction l as [|l IH]; intros t' k' Ht'; cbn [page_table]; [done|].
  rewrite (write_upper t' l k') by (done || apply index_range).
  destruct (present (entry s t' (index (S l) n))) eqn:Hp; [|done].
  eapply IH. apply (tb_link _ _ _ Htb t' l k'); [done|apply index_range|done].
Qed.

Lemma write_walk l t' k' n : T !! t' = Some (l, k') → above l n = k' → n ≠ k * 512 + i →
  walk l s' t' n = walk l s t' n.
Proof.
  revert t' k'. induction l as [|l IH]; intros t' k' Ht' Hk Hn; cbn [walk].
  - rewrite (write_entry t' _ _ Ht') by apply index_range. destruct (decide _) as [[-> Hx]|]; [|done].
    pose proof (above_page n). rewrite Ht in Ht'. destruct Hn. simplify_eq. lia.
  - rewrite (write_upper t' l k') by (done || apply index_range).
    destruct (present (entry s t' (index (S l) n))) eqn:Hp; [|done].
    eapply IH; [apply (tb_link _ _ _ Htb t' l k'); [done|apply index_range|done]| |done]. subst k'. symmetry. apply above_S.
Qed.
End write.

(** ** Translation *)

(** The entry that translates page [n]. *)
Definition translation (root : Z) (s : paging64) (n : Z) : option Z := walk 3 s root n.

Lemma above_root n : 0 <= n < 2 ^ 36 → above 3 n = 0.
Proof. intros Hn. unfold above. change (512 ^ (Z.of_nat 3 + 1)) with (2 ^ 36). apply Z.div_small. lia. Qed.

(** There is room for the tables that page [n] may need, or they are there. *)
Definition has_room (root : Z) (s : paging64) (n : Z) : Prop :=
  is_Some (page_table 3 s root n) ∨ next_free_phys s + 3 * 4096 <= 2 ^ 32.

(** The steps of [map_page] through the upper levels. *)
Fixpoint descend (l : nat) (t n : Z) : M paging64 Z :=
  match l with
  | O => mret t
  | S l' => t' ← table_below t (index l n); descend l' t' n
  end.

Lemma descend_spec l s root T t k n :
  tables s root T → T !! t = Some (l, k) →
  (is_Some (page_table l s t n) ∨ next_free_phys s + Z.of_nat l * 4096 <= 2 ^ 32) →
  ∃ pt s' T', descend l (t + hhdm_offset s) n s = Done (pt + hhdm_offset s, s') ∧ extends root s T s' T' ∧
    page_table l s' t n = Some pt ∧ next_free_phys s' <= next_free_phys s + Z.of_nat l * 4096 ∧
    (is_Some (page_table l s t n) → s' = s).
Proof.
  revert s T t k. induction l as [|l IH]; intros s T t k Htb Ht Hroom.
  { exists t, s, T. split_and!; [done|by apply extends_refl|done|lia|done]. }
  assert (is_Some (page_table (S l) s t n) → present (entry s t (index (S l) n)) = true ∧
    is_Some (page_table l s (Z.land (entry s t (index (S l) n)) ADDRESS_MASK) n)) as Hdown.
  { cbn [page_table]. destruct (present _); [done|]. by intros [? ?]. }
  destruct (table_below_spec s root T t (index (S l) n) l k Htb Ht (index_range _ _)) as (t' & s1 & T1 & E & Hex & Ht' & Hp & Ha & Hn & Hs).
  { destruct Hroom as [H|H]; [left; by apply Hdown|right; lia]. }
  destruct (IH s1 T1 t' _ (ex_tables _ _ _ _ _ Hex) Ht') as (pt & s2 & T2 & E2 & Hex2 & Hpt & Hn2 & Hs2).
  { destruct Hroom as [H|H]; [left|right; lia]. destruct (Hdown H) as [Hp' H']. by rewrite (Hs Hp') in Ha |- *; rewrite Ha in H'. }
  exists pt, s2, T2. split_and!; [|by eapply extends_trans| |lia|].
  - cbn [descend]. rewrite (bind_done _ _ _ _ _ E), <- (ex_offset _ _ _ _ _ Hex). exact E2.
  - cbn [page_table]. rewrite (ex_present _ _ _ _ _ Hex2 t (S l, k)); [by rewrite Hp, Ha| |apply index_range|done].
    eapply lookup_weaken; [exact Ht|apply Hex].
  - intros H. destruct (Hdown H) as [Hp' H']. rewrite (Hs Hp') in *. apply Hs2. by rewrite Ha in H'.
Qed.

(** Tables are still tables, and nothing but tables was written. *)
Record kept (root : Z) (s s' : paging64) : Prop := {
  ke_tables : ∃ T, tables s' root T;
  ke_offset : hhdm_offset s' = hhdm_offset s;
  ke_cr3 : cr3_64 s' = cr3_64 s;
  ke_efer : efer s' = efer s;
  ke_next : next_free_phys s <= next_free_phys s';
  ke_outside : ∀ a, ¬ (first_table <= a - hhdm_offset s < next_free_phys s') → words s' a = words s a
}.

Lemma kept_refl root s T : tables s root T → kept root s s.
Proof. intros H. split; try done. by exists T. Qed.

Lemma kept_trans root s s1 s2 : kept root s s1 → kept root s1 s2 → kept root s s2.
Proof.
  intros [H1 H2 H3 H4 H5 H6] [I1 I2 I3 I4 I5 I6]. split; [done|congruence..|lia|].
  intros a Ha. rewrite I6 by (by rewrite H2). apply H6. lia.
Qed.

Lemma extends_kept root s T s' T' : extends root s T s' T' → kept root s s'.
Proof. intros [H1 H2 H3 H4 H5 H6 H7 H8 H9]. split; try assumption. by exists T'. Qed.

(** What giving page [n] the entry [e] leaves. *)
Record remapped (root : Z) (s s' : paging64) (n : Z) (e : option Z) : Prop := {
  rm_page : translation root s' n = e;
  rm_other : ∀ m, 0 <= m < 2 ^ 36 → m ≠ n → translation root s' m = translation root s m;
  rm_kept : kept root s s'
}.

Lemma write_remapped root s T pt n e :
  tables s root T → T !! pt = Some (O, above 0 n) → page_table 3 s root n = Some pt → 0 <= n < 2 ^ 36 →
  remapped root s (written s pt (index 0 n) e) n (if present e then Some e else None).
Proof.
  intros Htb Ht Hpt Hn. pose proof (write_tables s root T pt (index 0 n) e _ Htb Ht (index_range _ _)) as Htb'.
  set (s' := written _ _ _ _) in *. destruct (tb_range _ _ _ Htb _ _ Ht) as (H1 & H2 & _). pose proof (index_range 0 n).
  split; [| |split; [by exists T|reflexivity..| |]].
  - unfold translation. rewrite (walk_page_table _ _ _ _ pt).
    + subst s'. rewrite (write_entry s root T pt (index 0 n) e _ Htb Ht (index_range _ _) pt _ _ Ht (index_range _ _)).
      by rewrite decide_True.
    + subst s'. rewrite (write_page_table s root T pt (index 0 n) e _ Htb Ht (index_range _ _) 3 root 0); [done|apply Htb].
  - intros m Hm Hne. subst s'. apply (write_walk s root T pt (index 0 n) e _ Htb Ht (index_range _ _) 3 root 0);
      [apply Htb|by apply above_root|by rewrite above_page].
  - apply Z.le_refl.
  - intros a Ha. subst s'. unfold written in *. cbn in Ha |- *. by rewrite (proj2 (Z.eqb_neq _ _)) by lia.
Qed.

Lemma map_page_spec s root T virt phys flags :
  tables s root T → has_room root s (page_of virt) →
  ∃ s', map_page virt phys flags s = Done (0, s') ∧
    remapped root s s' (page_of virt) (Some (page_entry phys flags)) ∧
    is_Some (page_table 3 s' root (page_of virt)) ∧
    (∀ m, is_Some (page_table 3 s root m) → is_Some (page_table 3 s' root m)) ∧
    next_free_phys s' <= next_free_phys s + 3 * 4096 ∧
    (is_Some (page_table 3 s root (page_of virt)) → next_free_phys s' = next_free_phys s).
Proof.
  intros Htb Hroom. set (n := page_of virt) in *. pose proof (page_of_range virt) as Hn. fold n in Hn.
  destruct (descend_spec 3 s root T root 0 n Htb (tb_root _ _ _ Htb) Hroom) as (pt & s1 & T1 & E & Hex & Hpt & Hnx & Hsame).
  pose proof (ex_tables _ _ _ _ _ Hex) as Htb1.
  pose proof (page_table_level _ _ _ _ _ _ _ _ Htb1 (tb_root _ _ _ Htb1) (above_root _ Hn) Hpt) as Ht.
  set (e := page_entry phys flags). pose proof (write_remapped root s1 T1 pt n e Htb1 Ht Hpt Hn) as Hrm.
  unfold e in Hrm at 2. rewrite page_entry_present in Hrm. set (s2 := written _ _ _ _) in *.
  assert (∀ m, page_table 3 s2 root m = page_table 3 s1 root m) as Hpts.
  { intros m. subst s2. by apply (write_page_table s1 root T1 pt (index 0 n) e _ Htb1 Ht (index_range _ _) 3 root 0), Htb1. }
  exists s2. split_and!.
  - unfold map_page. rewrite bind_gets.
    rewrite pml4_index_page, pdpt_index_page, pd_index_page, pt_index_page. fold n.
    rewrite (tb_pml4 _ _ _ Htb). cbn [descend] in E.
    apply bind_done_inv in E as (pdpt & s0 & E1 & E). rewrite (bind_done _ _ _ _ _ E1).
    apply bind_done_inv in E as (pd & s0' & E2 & E). rewrite (bind_done _ _ _ _ _ E2).
    apply bind_done_inv in E as (pt' & s0'' & E3 & [= -> ->]). rewrite (bind_done _ _ _ _ _ E3).
    unfold set_pte. rewrite bind_modify, <- (ex_offset _ _ _ _ _ Hex). done.
  - destruct Hrm as [R1 R2 R3]. split; [done| |by eapply kept_trans; [eapply extends_kept|]].
    intros m Hm Hne. rewrite R2 by done. unfold translation. apply (ex_walk _ _ _ _ _ Hex 3 root 0), Htb.
  - rewrite Hpts. by eexists.
  - intros m [q Hq]. rewrite Hpts. exists q. by eapply page_table_extends, Hq; [exact Hex|exact Htb|apply Htb].
  - exact Hnx.
  - intros Hi. change (next_free_phys s1 = next_free_phys s). by rewrite (Hsame Hi).
Qed.

(** *** Ranges *)

Lemma index_up l n m : n / 512 = m / 512 → index (S l) n = index (S l) m.
Proof.
  intros H. unfold index. rewrite Nat2Z.inj_succ, Z.pow_succ_r, <- !Z.div_div by (lia || apply Z.pow_pos_nonneg; lia).
  by rewrite H.
Qed.

(** Pages of the same 2 MiB share their table. *)
Lemma page_table_same l s t n m : n / 512 = m / 512 → page_table l s t n = page_table l s t m.
Proof.
  intros H. revert t. induction l as [|l IH]; intros t; cbn [page_table]; [done|].
  rewrite (index_up l n m H). by destruct (present _).
Qed.

(** The memory that tables for [c] pages from page [n] on may take: three tables
    for each 2 MiB, without the first when it has its tables. *)
Definition needed (root : Z) (s : paging64) (n c : Z) : Z :=
  if c <=? 0 then 0
  else ((n + c - 1) / 512 - n / 512 + match page_table 3 s root n with Some _ => 0 | None => 1 end) * (3 * 4096).

Lemma map_range_loop_spec c s root T i virt phys flags :
  tables s root T → 0 <= i → 0 <= virt → virt mod 4096 = 0 → 0 <= phys →
  virt mod 2 ^ 48 + (i + Z.of_nat c) * 4096 <= 2 ^ 48 → virt + (i + Z.of_nat c) * 4096 <= 2 ^ 64 →
  phys + (i + Z.of_nat c) * 4096 <= 2 ^ 64 →
  let n := page_of virt in
  next_free_phys s + needed root s (n + i) (Z.of_nat c) <= 2 ^ 32 →
  ∃ s', map_range_loop c i virt phys flags s = Done (0, s') ∧ kept root s s' ∧
    next_free_phys s' <= next_free_phys s + needed root s (n + i) (Z.of_nat c) ∧
    ∀ m, 0 <= m < 2 ^ 36 → translation root s' m =
      if decide (n + i <= m < n + i + Z.of_nat c) then Some (page_entry (phys + (m - n) * 4096) flags)
      else translation root s m.
Proof.
  intros Htb Hi Hv Hal Hp H48 H64 Hp64 n. revert s T i Htb Hi H48 H64 Hp64.
  induction c as [|c IH]; intros s T i Htb Hi H48 H64 Hp64 Hroom.
  { exists s. split_and!; [done|by eapply kept_refl|change (needed root s (n + i) (Z.of_nat 0)) with 0; lia|]. intros m Hm. by rewrite decide_False by lia. }
  cbn [map_range_loop]. unfold PAGE_SIZE. change 0x1000 with 4096.
  rewrite (u64_small (virt + _)), (u64_small (phys + _)) by range.
  assert (page_of (virt + i * 4096) = n + i) as Hn by (subst n; unfold page_of; euclid).
  assert (0 <= n) by (subst n; apply page_of_range).
  pose proof Hroom as Hroom'. unfold needed in Hroom. rewrite (proj2 (Z.leb_gt _ _)) in Hroom by lia.
  destruct (map_page_spec s root T (virt + i * 4096) (phys + i * 4096) flags Htb) as (s1 & E & [Hpg Hoth Hke] & [q Hq] & _ & Hn1 & Hn1').
  { rewrite Hn. unfold has_room. destruct (page_table 3 s root (n + i)); [by left; eexists|right]. euclid. }
  rewrite Hn in *. destruct (ke_tables _ _ _ Hke) as [T1 Htb1].
  assert (next_free_phys s1 + needed root s1 (n + (i + 1)) (Z.of_nat c) <=
    next_free_phys s + needed root s (n + i) (Z.of_nat (S c))) as Hpot.
  { unfold needed. rewrite (proj2 (Z.leb_gt (Z.of_nat (S c)) 0)) by lia.
    assert (next_free_phys s1 <= next_free_phys s + match page_table 3 s root (n + i) with Some _ => 0 | None => 1 end * (3 * 4096)) as Hs1.
    { destruct (page_table 3 s root (n + i)); [rewrite Hn1' by (by eexists)|]; lia. }
    replace (n + i + Z.of_nat (S c) - 1) with (n + (i + 1) + Z.of_nat c - 1) by lia.
    destruct (Z.leb_spec (Z.of_nat c) 0); [euclid|].
    destruct (decide ((n + (i + 1)) / 512 = (n + i) / 512)) as [Hsame|Hdiff].
    - rewrite (page_table_same 3 s1 root _ _ Hsame), Hq, Hsame. lia.
    - destruct (page_table 3 s1 root (n + (i + 1))); euclid. }
  destruct (IH s1 T1 (i + 1) Htb1) as (s' & E' & Hke' & Hnx & Htr); [lia..|].
  exists s'. split_and!; [by rewrite (bind_done _ _ _ _ _ E)|by eapply kept_trans|lia|].
  intros m Hm. rewrite Htr by done. destruct (decide (m = n + i)) as [->|Hne].
  - rewrite decide_False, decide_True by lia. rewrite Hpg. do 3 f_equal. lia.
  - rewrite Hoth by done. destruct (decide (n + (i + 1) <= m < n + (i + 1) + Z.of_nat c)); [rewrite decide_True by lia|rewrite decide_False by lia]; done.
Qed.

Lemma needed_bound root s n c : 0 <= c → needed root s n c <= (c / 512 + 2) * (3 * 4096).
Proof.
  intros Hc. unfold needed. destruct (Z.leb_spec c 0); [euclid|]. destruct (page_table 3 s root n); euclid.
Qed.

(** A range of addresses [map_range] can map: whole pages that do not wrap around. *)
Record mappable (virt phys count : Z) : Prop := {
  mp_count : 0 <= count;
  mp_virt : 0 <= virt ∧ virt + count * 4096 <= 2 ^ 64;
  mp_low : virt mod 2 ^ 48 + count * 4096 <= 2 ^ 48;
  mp_aligned : virt mod 4096 = 0;
  mp_phys : 0 <= phys ∧ phys + count * 4096 <= 2 ^ 64
}.

(** The translation after a range was mapped over the translation [f]. *)
Definition over (virt phys count flags : Z) (f : Z → option Z) (m : Z) : option Z :=
  let n := page_of virt in
  if decide (n <= m < n + count) then Some (page_entry (phys + (m - n) * 4096) flags) else f m.

Lemma map_range_spec s root T virt phys count flags :
  tables s root T → mappable virt phys count → next_free_phys s + (count / 512 + 2) * (3 * 4096) <= 2 ^ 32 →
  ∃ s', map_range virt phys count flags s = Done (0, s') ∧ kept root s s' ∧
    next_free_phys s' <= next_free_phys s + (count / 512 + 2) * (3 * 4096) ∧
    ∀ m, 0 <= m < 2 ^ 36 → translation root s' m = over virt phys count flags (translation root s) m.
Proof.
  intros Htb [Hc Hv Hl Ha Hp] Hroom. unfold map_range, over.
  pose proof (needed_bound root s (page_of virt + 0) count Hc) as Hnb.
  remember (Z.to_nat count) as c eqn:Hc0. assert (Z.of_nat c = count) as <- by (subst c; apply Z2Nat.id; lia). clear Hc0.
  destruct (map_range_loop_spec c s root T 0 virt phys flags Htb) as (s' & E & Hk & Hn & Ht); [lia..|].
  exists s'. split_and!; [done|done|lia|]. intros m Hm. by rewrite Ht, Z.add_0_r.
Qed.

(** *** Looking up and unmapping *)

Lemma table_at_entry s root T t l k i : tables s root T → T !! t = Some (S l, k) → 0 <= i < 512 →
  present (entry s t i) = true →
  table_at (entry s t i) s = Z.land (entry s t i) ADDRESS_MASK + hhdm_offset s.
Proof.
  intros Htb Ht Hi Hp. pose proof (tb_link _ _ _ Htb _ _ _ _ Ht Hi Hp) as Hl.
  destruct (tb_range _ _ _ Htb _ _ Hl) as (H1 & H2 & _). pose proof (tb_window _ _ _ Htb) as Hw.
  pose proof (wi_next _ Hw). unfold first_table in *. apply (phys_to_virt_low _ _ Hw). lia.
Qed.

(** [upper] follows the three upper levels the way [virt_to_phys] and [unmap] do. *)
Lemma upper_levels {A} s root T n (none : A) (some : Z → A) :
  tables s root T → 0 <= n < 2 ^ 36 →
  (let e := pte (pml4 s) (index 3 n) s in
   if negb (present e) then none
   else let e := pte (table_at e s) (index 2 n) s in
        if negb (present e) then none
        else let e := pte (table_at e s) (index 1 n) s in
             if negb (present e) then none else some (table_at e s)) =
  match page_table 3 s root n with Some pt => some (pt + hhdm_offset s) | None => none end.
Proof.
  intros Htb Hn. cbv zeta. cbn [page_table]. rewrite (tb_pml4 _ _ _ Htb).
  change (pte (root + hhdm_offset s) (index 3 n) s) with (entry s root (index 3 n)).
  destruct (present (entry s root (index 3 n))) eqn:P3; cbn [negb]; [|done].
  pose proof (tb_link _ _ _ Htb _ _ _ _ (tb_root _ _ _ Htb) (index_range 3 n) P3) as H2.
  rewrite (table_at_entry s root T _ _ _ _ Htb (tb_root _ _ _ Htb) (index_range 3 n) P3).
  set (t2 := Z.land (entry s root (index 3 n)) ADDRESS_MASK) in *. change (pte (t2 + hhdm_offset s) (index 2 n) s) with (entry s t2 (index 2 n)).
  destruct (present (entry s t2 (index 2 n))) eqn:P2; cbn [negb]; [|done].
  pose proof (tb_link _ _ _ Htb _ _ _ _ H2 (index_range 2 n) P2) as H1.
  rewrite (table_at_entry s root T _ _ _ _ Htb H2 (index_range 2 n) P2).
  set (t1 := Z.land (entry s t2 (index 2 n)) ADDRESS_MASK) in *. change (pte (t1 + hhdm_offset s) (index 1 n) s) with (entry s t1 (index 1 n)).
  destruct (present (entry s t1 (index 1 n))) eqn:P1; cbn [negb]; [|done].
  by rewrite (table_at_entry s root T _ _ _ _ Htb H1 (index_range 1 n) P1).
Qed.

(** The window of the direct map. *)
Definition in_window (s : paging64) (virt : Z) : Prop := hhdm_offset s <= virt < hhdm_offset s + 2 ^ 32.

Lemma virt_to_phys_spec s root T virt : tables s root T → ¬ in_window s virt →
  virt_to_phys virt s =
    match translation root s (page_of virt) with
    | Some e => Z.lor (Z.land e ADDRESS_MASK) (virt mod 4096)
    | None => 0
    end.
Proof.
  intros Htb Hv. unfold in_window in Hv. pose proof (tb_window _ _ _ Htb) as Hw. pose proof (wi_offset _ Hw). pose proof (wi_end _ Hw).
  unfold virt_to_phys. rewrite u64_small by (unfold DIRECT_MAP_PAGES, PAGE_SIZE; range).
  assert ((negb (hhdm_offset s =? 0) && (hhdm_offset s <=? virt)) && (virt <? hhdm_offset s + DIRECT_MAP_PAGES * PAGE_SIZE) = false) as ->.
  { unfold DIRECT_MAP_PAGES, PAGE_SIZE. apply andb_false_iff. destruct (Z.leb_spec (hhdm_offset s) virt).
    - right. apply Z.ltb_ge. lia.
    - left. apply andb_false_r. }
  rewrite pml4_index_page, pdpt_index_page, pd_index_page, pt_index_page, land_4095.
  set (n := page_of virt). pose proof (page_of_range virt) as Hn. fold n in Hn.
  pose proof (upper_levels s root T n 0 (λ pt, let entry := pte pt (index 0 n) s in
    if negb (present entry) then 0 else Z.lor (Z.land entry ADDRESS_MASK) (virt mod 4096)) Htb Hn) as E.
  cbv beta zeta in E |- *. rewrite E. unfold translation.
  destruct (page_table 3 s root n) as [pt|] eqn:Hpt; [|by rewrite (walk_no_table _ _ _ _ Hpt)].
  rewrite (walk_page_table _ _ _ _ _ Hpt). change (pte (pt + hhdm_offset s) (index 0 n) s) with (entry s pt (index 0 n)).
  by destruct (present (entry s pt (index 0 n))).
Qed.

Lemma unmap_spec s root T virt : tables s root T →
  let n := page_of virt in
  match page_table 3 s root n with
  | None => unmap virt s = Done (-1, s) ∧ translation root s n = None
  | Some _ => ∃ s', unmap virt s = Done (0, s') ∧ remapped root s s' n None
  end.
Proof.
  intros Htb n. pose proof (page_of_range virt) as Hn. fold n in Hn.
  assert (unmap virt s = match page_table 3 s root n with
    | Some pt => Done (0, written s pt (index 0 n) 0) | None => Done (-1, s) end) as E.
  { pose proof (upper_levels s root T n (Done (-1, s))
      (λ pt, (set_pte pt (index 0 n) 0;; mret 0) s) Htb Hn) as E.
    unfold unmap. rewrite pml4_index_page, pdpt_index_page, pd_index_page, pt_index_page. fold n.
    transitivity (match page_table 3 s root n with
      | Some pt => (set_pte (pt + hhdm_offset s) (index 0 n) 0;; mret 0) s | None => Done (-1, s) end); [|by destruct (page_table 3 s root n)].
    rewrite <- E. cbv zeta. rewrite !bind_gets.
    destruct (negb _); [done|]. rewrite !bind_gets. destruct (negb _); [done|]. rewrite !bind_gets. by destruct (negb _). }
  destruct (page_table 3 s root n) as [pt|] eqn:Hpt; [|split; [done|by apply walk_no_table]].
  eexists. split; [exact E|].
  apply (write_remapped root s T pt n 0 Htb); [|done|done].
  eapply page_table_level; [exact Htb|apply Htb|by apply above_root|done].
Qed.

(** *** Building the tables *)

(** The first table, still empty, is the root. *)
Lemma root_tables s s' : next_free_phys s = first_table → new_table s s' → window s' →
  let s3 := set_pml4 (first_table + hhdm_offset s) s' in
  tables s3 first_table {[first_table := (3%nat, 0)]} ∧ (∀ i, 0 <= i < 512 → entry s3 first_table i = 0) ∧
  next_free_phys s3 = first_table + 4096 ∧ hhdm_offset s3 = hhdm_offset s.
Proof.
  intros Hnf Hnt Hw s3. assert (hhdm_offset s3 = hhdm_offset s) as Ho by apply (nt_offset _ _ Hnt).
  assert (next_free_phys s3 = first_table + 4096) as Hn by (change (next_free_phys s' = first_table + 4096); rewrite (nt_next _ _ Hnt), Hnf; reflexivity).
  assert (∀ i, 0 <= i < 512 → entry s3 first_table i = 0) as Hz.
  { intros i Hi. pose proof (nt_zero _ _ Hnt i Hi) as Hz. rewrite Hnf in Hz. exact Hz. }
  split_and!; [|done..]. split.
  - by apply (window_same s').
  - apply lookup_singleton_eq.
  - by rewrite Ho.
  - intros t x [<- _]%lookup_singleton_Some. rewrite Hn. split_and!; [lia|lia|reflexivity].
  - intros t l k i [<- _]%lookup_singleton_Some Hi. by rewrite Hz.
Qed.

Lemma paging64_init_spec s hh :
  next_free_phys s = first_table → 0 < hh → hh + 2 ^ 32 < 2 ^ 64 → hh mod 4096 = 0 → hh mod 2 ^ 48 + 2 ^ 32 <= 2 ^ 48 →
  let n := page_of hh in
  ∃ s', paging64_init hh s = Done (tt, s') ∧ (∃ T, tables s' first_table T) ∧ hhdm_offset s' = hh ∧
    cr3_64 s' = first_table ∧ Z.testbit (efer s') 11 = true ∧ next_free_phys s' <= first_table + 2 ^ 25 ∧
    ∀ m, 0 <= m < 2 ^ 36 → translation first_table s' m =
      if decide (n <= m < n + 2 ^ 20) then Some (page_entry ((m - n) * 4096) (Z.lor PTE_RW PTE_NX)) else None.
Proof.
  intros Hnf Hh H64 Hal H48 n. set (s1 := set_hhdm_offset hh s).
  assert (next_free_phys s1 = first_table) as Hnf1 by exact Hnf.
  assert (window s1) as Hw1 by (split; rewrite ?Hnf1; [exact Hh|exact H64|unfold first_table; lia|reflexivity]).
  destruct (alloc_table_spec s1 Hw1) as (s2 & E1 & Hnt1 & Hw2); [rewrite Hnf1; unfold first_table; lia|].
  destruct (root_tables s1 s2 Hnf1 Hnt1 Hw2) as (Htb3 & Hz & Hn3 & Ho3). rewrite Hnf1 in E1. change (hhdm_offset s1) with hh in *.
  set (s3 := set_pml4 (first_table + hh) s2) in *. set (T3 := {[first_table := (3%nat, 0)]} : gmap Z (nat * Z)) in *.
  destruct (alloc_table_spec s3 (tb_window _ _ _ Htb3)) as (s4 & E2 & Hnt2 & Hw4); [rewrite Hn3; unfold first_table; lia|].
  pose proof (link_extends s3 s4 first_table T3 first_table (index 3 n) 2 0 Htb3 (tb_root _ _ _ Htb3) (index_range _ _)
    ltac:(by rewrite Hz by apply index_range) ltac:(rewrite Hn3; unfold first_table; lia) Hnt2 Hw4) as Hex.
  pose proof (nt_offset _ _ Hnt2) as Ho4. rewrite Ho3 in E2, Ho4. rewrite Hn3 in E2, Hex.
  set (s5 := linked s4 first_table (index 3 n) (first_table + 4096)) in Hex.
  pose proof (ex_tables _ _ _ _ _ Hex) as Htb5.
  assert (next_free_phys s5 = first_table + 8192) as Hn5 by (change (next_free_phys s4 = first_table + 8192); rewrite (nt_next _ _ Hnt2), Hn3; lia).
  assert (∀ m, translation first_table s5 m = None) as Hnone.
  { intros m. unfold translation. rewrite (ex_walk _ _ _ _ _ Hex 3 first_table 0) by apply lookup_singleton_eq.
    cbn [walk]. by rewrite Hz by apply index_range. }
  pose proof (page_of_range hh) as Hpr. fold n in Hpr.
  assert (n + 2 ^ 20 <= 2 ^ 36) by (subst n; unfold page_of; euclid).
  remember (Z.to_nat DIRECT_MAP_PAGES) as c eqn:Hc0.
  assert (Z.of_nat c = 2 ^ 20) as Hc by (subst c; apply Z2Nat.id; unfold DIRECT_MAP_PAGES; lia).
  assert (needed first_table s5 (n + 0) (Z.of_nat c) <= 2 ^ 25 - 8192) as Hneed.
  { unfold needed. rewrite Hc. rewrite (proj2 (Z.leb_gt _ _)) by lia.
    destruct (page_table 3 s5 first_table (n + 0)); euclid. }
  destruct (map_range_loop_spec c s5 first_table _ 0 hh 0 (Z.lor PTE_RW PTE_NX) Htb5)
    as (s6 & E6 & Hke & Hn6 & Htr); [lia|lia|exact Hal|lia|lia|lia|lia|fold n; rewrite Hn5; assert (first_table = 0x200000) by reflexivity; lia|].
  fold n in Hn6, Htr. destruct (ke_tables _ _ _ Hke) as [T6 Htb6].
  assert (hhdm_offset s6 = hh) as Ho6 by (by rewrite (ke_offset _ _ _ Hke), (ex_offset _ _ _ _ _ Hex)).
  exists (set_efer (Z.lor (efer s6) (Z.shiftl 1 11)) (set_cr3_64 first_table s6)). split_and!.
  - unfold paging64_init. cbv zeta. pose proof (pml4_index_page hh) as Hidx. unfold pml4_index in Hidx. rewrite Hidx. fold n.
    rewrite bind_modify. fold s1. rewrite (bind_done _ _ _ _ _ E1), bind_modify. fold s3.
    assert (virt_to_phys (first_table + 4096 + hh) s4 = first_table + 4096) as Ev4
      by (rewrite <- Ho4; apply (virt_to_phys_window s4 _ Hw4); unfold first_table; lia).
    assert (virt_to_phys (first_table + hh) s6 = first_table) as Ev6
      by (rewrite <- Ho6; apply (virt_to_phys_window s6 _ (tb_window _ _ _ Htb6)); unfold first_table; lia).
    rewrite (bind_done _ _ _ _ _ E2), bind_gets, Ev4. unfold set_pte. rewrite bind_modify. unfold map_range. rewrite <- Hc0.
    replace (set_words _ s4) with s5 by (subst s5; unfold linked; by rewrite Ho4).
    by rewrite (bind_done _ _ _ _ _ E6), bind_gets, Ev6.
  - exists T6. destruct Htb6 as [A B C D E]. split; try assumption. by apply (window_same s6).
  - exact Ho6.
  - reflexivity.
  - cbn [efer set_efer]. rewrite Z.lor_spec. apply orb_true_r.
  - change (next_free_phys s6 <= first_table + 2 ^ 25). lia.
  - intros m Hm. change (translation first_table s6 m = if decide (n <= m < n + 2 ^ 20) then Some (page_entry ((m - n) * 4096) (Z.lor PTE_RW PTE_NX)) else None).
    rewrite Htr, Hnone, Hc by exact Hm.
    destruct (decide (n <= m < n + 2 ^ 20)); [rewrite decide_True by lia|rewrite decide_False by lia]; done.
Qed.

(** ** Theorems *)


(** C7: mapping a page.  Let [phys] be the address of a page below 2^52, and let the
    memory set aside for tables have room for three more.  After
    [map_page virt phys flags] every address of the page of [virt] is translated by
    the tables to its place in the page [phys]; [virt_to_phys] says the same outside
    the window of the direct map, and inside it the distance from the start of the
    window, whatever the tables say.  Every other page is translated as before, and
    no memory but that of the tables is written. *)
Theorem map_page_correct s root T virt phys flags :
  tables s root T → next_free_phys s + 3 * 4096 <= 2 ^ 32 → 0 <= phys < 2 ^ 52 → phys mod 4096 = 0 →
  ∃ s', map_page virt phys flags s = Done (0, s') ∧
    remapped root s s' (page_of virt) (Some (page_entry phys flags)) ∧
    ∀ v, 0 <= v → page_of v = page_of virt →
      virt_to_phys v s' = if decide (hhdm_offset s <= v < hhdm_offset s + 2 ^ 32) then v - hhdm_offset s else phys + v mod 4096.
Proof.
  intros Htb Hroom Hp Hal.
  destruct (map_page_spec s root T virt phys flags Htb) as (s' & E & Hrm & _); [by right|].
  exists s'. split_and!; [done..|]. intros v Hv Hpv. destruct (rm_kept _ _ _ _ _ Hrm) as [[T' Htb'] Ho _ _ _ _].
  case_decide as Hw; [rewrite <- (virt_to_phys_window s' (v - hhdm_offset s) (tb_window _ _ _ Htb')) by lia; f_equal; lia|].
  rewrite (virt_to_phys_spec s' root T' v Htb') by (unfold in_window in *; by rewrite Ho).
  rewrite Hpv, (rm_page _ _ _ _ _ Hrm), page_entry_address by done. apply (lor_low 12); [lia|exact Hal|euclid].
Qed.

(** Unmapping a page.  [unmap] takes the translation of the page of [virt]
    away and leaves every other one; it reports -1, and changes nothing, exactly
    when no table is there for the page. *)
Theorem unmap_correct s root T virt : tables s root T →
  let n := page_of virt in
  match page_table 3 s root n with
  | None => unmap virt s = Done (-1, s) ∧ translation root s n = None
  | Some _ => ∃ s', unmap virt s = Done (0, s') ∧ remapped root s s' n None
  end.
Proof. apply unmap_spec. Qed.

(** The no-execute flag is lost.  Whatever flags [map_page] is given, the entry
    it writes has bit 63 clear: only the twelve low bits of the flags are kept. *)
Theorem map_page_drops_no_execute s root T virt phys flags :
  tables s root T → next_free_phys s + 3 * 4096 <= 2 ^ 32 → 0 <= phys →
  ∃ s' e, map_page virt phys (Z.lor flags PTE_NX) s = Done (0, s') ∧
    translation root s' (page_of virt) = Some e ∧ Z.testbit e 63 = false.
Proof.
  intros Htb Hroom Hp. destruct (map_page_spec s root T virt phys (Z.lor flags PTE_NX) Htb) as (s' & E & Hrm & _); [by right|].
  eexists s', _. split_and!; [done|apply Hrm|]. by apply page_entry_nx.
Qed.

(** ** Examples *)

Definition demo_start : paging64 :=
  {| hhdm_offset := 0; next_free_phys := first_table; pml4 := 0; words := λ _, 7; cr3_64 := 0; efer := 0x500 |}.

Lemma demo_tables : ∃ s T, tables s first_table T ∧ next_free_phys s + 3 * 4096 <= 2 ^ 32 ∧ hhdm_offset s = HHDM_BASE.
Proof.
  destruct (paging64_init_spec demo_start HHDM_BASE) as (s & _ & [T Htb] & Ho & _ & _ & Hn & _); [reflexivity..| | |reflexivity| |];
    [unfold HHDM_BASE; lia|unfold HHDM_BASE; lia|unfold HHDM_BASE; euclid|].
  exists s, T. split_and!; [done|unfold first_table in *; lia|done].
Qed.


Lemma map_page_correct_witness :
  ∃ s T s', tables s first_table T ∧ map_page 0x400000 0x300000 PTE_RW s = Done (0, s') ∧
    remapped first_table s s' (page_of 0x400000) (Some (page_entry 0x300000 PTE_RW)) ∧
    virt_to_phys 0x400123 s' = 0x300123.
Proof.
  destruct demo_tables as (s & T & Htb & Hroom & Ho).
  destruct (map_page_correct s first_table T 0x400000 0x300000 PTE_RW Htb Hroom) as (s' & E & Hrm & Hv); [lia|reflexivity|].
  exists s, T, s'. split_and!; [done..|]. rewrite (Hv 0x400123) by (lia || reflexivity). rewrite Ho. reflexivity.
Defined.

Lemma unmap_correct_witness :
  ∃ s T, tables s first_table T ∧
    match page_table 3 s first_table (page_of 0x400000) with
    | None => unmap 0x400000 s = Done (-1, s) ∧ translation first_table s (page_of 0x400000) = None
    | Some _ => ∃ s', unmap 0x400000 s = Done (0, s') ∧ remapped first_table s s' (page_of 0x400000) None
    end.
Proof.
  destruct demo_tables as (s & T & Htb & _ & _). exists s, T. split; [done|]. apply (unmap_correct s first_table T 0x400000 Htb).
Defined.

Lemma map_page_drops_no_execute_witness :
  ∃ s T s' e, tables s first_table T ∧ map_page 0x400000 0x300000 (Z.lor PTE_RW PTE_NX) s = Done (0, s') ∧
    translation first_table s' (page_of 0x400000) = Some e ∧ Z.testbit e 63 = false.
Proof.
  destruct demo_tables as (s & T & Htb & Hroom & _).
  destruct (map_page_drops_no_execute s first_table T 0x400000 0x300000 PTE_RW Htb Hroom) as (s' & e & H); [lia|].
  by exists s, T, s', e.
Defined.
