(* ===== verification/Kernel64.v ===== *)
(** * The 64-bit kernel: kernel64.c, idt64.c, gdt64, tss64, syscall, page faults

    The start of the 64-bit configuration after its page tables (Paging64.v): the
    descriptor tables, the task state, the system call registers and the table of
    system calls, and [kernel_main], which puts them together.  Addresses that the
    linker fixes are arguments.  The heap of this configuration is not part of its
    link: the addresses that successive calls of [kzalloc] return are the field
    [stacks] of the state (none left: the allocation fails). *)

From S2P Require Import Prelude CString Terminal Paging64.

Local Open Scope Z_scope.

Definition GDT64_KERNEL_CODE_SELECTOR : Z := 0x08.
Definition GDT64_TSS_SELECTOR : Z := 0x18.
Definition GDT64_USER_CODE_SELECTOR : Z := 0x23.
Definition GDT64_USER_DATA_SELECTOR : Z := 0x2B.
Definition IDT64_TOTAL_DESCRIPTORS : Z := 256.

Record idt64_desc := {
  offset_low : Z;
  selector64 : Z;
  ist : Z;
  type_attr64 : Z;
  offset_mid : Z;
  offset_high : Z;
  zero64 : Z
}.

Record idtr64_desc := { limit64 : Z; base64 : Z }.

Record tss64 := {
  reserved0 : Z;
  reserved1 : Z;
  rsp0 : Z;
  rsp1 : Z;
  rsp2 : Z;
  reserved2 : Z;
  ist1 : Z;
  ist2 : Z;
  ist3 : Z;
  ist4 : Z;
  ist5 : Z;
  ist6 : Z;
  ist7 : Z;
  reserved3 : Z;
  reserved4 : Z;
  io_map_base : Z
}.

Definition set_rsp0 (x : Z) (t : tss64) : tss64 :=
  {| reserved0 := reserved0 t; reserved1 := reserved1 t; rsp0 := x; rsp1 := rsp1 t; rsp2 := rsp2 t;
     reserved2 := reserved2 t; ist1 := ist1 t; ist2 := ist2 t; ist3 := ist3 t; ist4 := ist4 t;
     ist5 := ist5 t; ist6 := ist6 t; ist7 := ist7 t; reserved3 := reserved3 t; reserved4 := reserved4 t;
     io_map_base := io_map_base t |}.
Definition set_ist1 (x : Z) (t : tss64) : tss64 :=
  {| reserved0 := reserved0 t; reserved1 := reserved1 t; rsp0 := rsp0 t; rsp1 := rsp1 t; rsp2 := rsp2 t;
     reserved2 := reserved2 t; ist1 := x; ist2 := ist2 t; ist3 := ist3 t; ist4 := ist4 t; ist5 := ist5 t;
     ist6 := ist6 t; ist7 := ist7 t; reserved3 := reserved3 t; reserved4 := reserved4 t;
     io_map_base := io_map_base t |}.
Definition set_ist2 (x : Z) (t : tss64) : tss64 :=
  {| reserved0 := reserved0 t; reserved1 := reserved1 t; rsp0 := rsp0 t; rsp1 := rsp1 t; rsp2 := rsp2 t;
     reserved2 := reserved2 t; ist1 := ist1 t; ist2 := x; ist3 := ist3 t; ist4 := ist4 t; ist5 := ist5 t;
     ist6 := ist6 t; ist7 := ist7 t; reserved3 := reserved3 t; reserved4 := reserved4 t;
     io_map_base := io_map_base t |}.
Definition set_ist3 (x : Z) (t : tss64) : tss64 :=
  {| reserved0 := reserved0 t; reserved1 := reserved1 t; rsp0 := rsp0 t; rsp1 := rsp1 t; rsp2 := rsp2 t;
     reserved2 := reserved2 t; ist1 := ist1 t; ist2 := ist2 t; ist3 := x; ist4 := ist4 t; ist5 := ist5 t;
     ist6 := ist6 t; ist7 := ist7 t; reserved3 := reserved3 t; reserved4 := reserved4 t;
     io_map_base := io_map_base t |}.

Record kernel64 := {
  k_paging : paging64;
  k_idt : list idt64_desc;
  k_idtr : idtr64_desc;
  loaded_idt : option idtr64_desc;
  loaded_gdt : option (Z * Z);
  k_tss : tss64;
  task_register : Z;
  msrs : list (Z * Z * Z);
  stacks : list Z
}.

Definition set_k_paging (x : paging64) (k : kernel64) : kernel64 :=
  {| k_paging := x; k_idt := k_idt k; k_idtr := k_idtr k; loaded_idt := loaded_idt k;
     loaded_gdt := loaded_gdt k; k_tss := k_tss k; task_register := task_register k; msrs := msrs k;
     stacks := stacks k |}.
Definition set_k_idt (x : list idt64_desc) (k : kernel64) : kernel64 :=
  {| k_paging := k_paging k; k_idt := x; k_idtr := k_idtr k; loaded_idt := loaded_idt k;
     loaded_gdt := loaded_gdt k; k_tss := k_tss k; task_register := task_register k; msrs := msrs k;
     stacks := stacks k |}.
Definition set_k_idtr (x : idtr64_desc) (k : kernel64) : kernel64 :=
  {| k_paging := k_paging k; k_idt := k_idt k; k_idtr := x; loaded_idt := loaded_idt k;
     loaded_gdt := loaded_gdt k; k_tss := k_tss k; task_register := task_register k; msrs := msrs k;
     stacks := stacks k |}.
Definition set_loaded_idt (x : option idtr64_desc) (k : kernel64) : kernel64 :=
  {| k_paging := k_paging k; k_idt := k_idt k; k_idtr := k_idtr k; loaded_idt := x;
     loaded_gdt := loaded_gdt k; k_tss := k_tss k; task_register := task_register k; msrs := msrs k;
     stacks := stacks k |}.
Definition set_loaded_gdt (x : option (Z * Z)) (k : kernel64) : kernel64 :=
  {| k_paging := k_paging k; k_idt := k_idt k; k_idtr := k_idtr k; loaded_idt := loaded_idt k;
     loaded_gdt := x; k_tss := k_tss k; task_register := task_register k; msrs := msrs k;
     stacks := stacks k |}.
Definition set_k_tss (x : tss64) (k : kernel64) : kernel64 :=
  {| k_paging := k_paging k; k_idt := k_idt k; k_idtr := k_idtr k; loaded_idt := loaded_idt k;
     loaded_gdt := loaded_gdt k; k_tss := x; task_register := task_register k; msrs := msrs k;
     stacks := stacks k |}.
Definition set_task_register (x : Z) (k : kernel64) : kernel64 :=
  {| k_paging := k_paging k; k_idt := k_idt k; k_idtr := k_idtr k; loaded_idt := loaded_idt k;
     loaded_gdt := loaded_gdt k; k_tss := k_tss k; task_register := x; msrs := msrs k; stacks := stacks k |}.
Definition set_msrs (x : list (Z * Z * Z)) (k : kernel64) : kernel64 :=
  {| k_paging := k_paging k; k_idt := k_idt k; k_idtr := k_idtr k; loaded_idt := loaded_idt k;
     loaded_gdt := loaded_gdt k; k_tss := k_tss k; task_register := task_register k; msrs := x;
     stacks := stacks k |}.
Definition set_stacks (x : list Z) (k : kernel64) : kernel64 :=
  {| k_paging := k_paging k; k_idt := k_idt k; k_idtr := k_idtr k; loaded_idt := loaded_idt k;
     loaded_gdt := loaded_gdt k; k_tss := k_tss k; task_register := task_register k; msrs := msrs k;
     stacks := x |}.

(** Running a routine of paging64.c. *)
Definition in_paging64 {A} (m : M paging64 A) : M kernel64 A := zoom k_paging set_k_paging m.

(** ** Interrupt gates *)

Definition idt64_set (interrupt_no address ist_index : Z) : M kernel64 unit :=
  t ← gets k_idt;
  t ← liftO t.[interrupt_no <-
    {| offset_low := Z.land address 0xFFFF; selector64 := GDT64_KERNEL_CODE_SELECTOR; ist := ist_index; type_attr64 := 0x8E;
       offset_mid := Z.land (Z.shiftr address 16) 0xFFFF; offset_high := u32 (Z.shiftr address 32); zero64 := 0 |}];
  modify (set_k_idt t).

Fixpoint idt64_loop (n : nat) (i : Z) (interrupt_pointer_table : list Z) : M kernel64 unit :=
  match n with
  | O => mret tt
  | S n =>
      a ← liftO interrupt_pointer_table.[i];
      idt64_set i a 0;;
      idt64_loop n (i + 1) interrupt_pointer_table
  end.

(** [table_address] is the address of [idt64_descriptors], whose entries have 16
    bytes. *)
Definition idt64_init (table_address page_fault_stub : Z) (interrupt_pointer_table : list Z) : M kernel64 unit :=
  modify (set_k_idtr {| limit64 := IDT64_TOTAL_DESCRIPTORS * 16 - 1; base64 := table_address |});;
  idt64_loop (Z.to_nat IDT64_TOTAL_DESCRIPTORS) 0 interrupt_pointer_table;;
  idt64_set 14 page_fault_stub 1;;
  idtr ← gets k_idtr;
  modify (set_loaded_idt (Some idtr)).

(** ** Segments *)

(** The table of gdt64.asm for a task state at [tss], by 64-bit words. *)
Definition gdt64 (tss : Z) : list Z :=
  [0; 0x00af9a000000ffff; 0x00af92000000ffff;
   0x0067 + Z.shiftl (Z.land tss 0xFFFF) 16 + Z.shiftl (Z.land (Z.shiftr tss 16) 0xFF) 32 + Z.shiftl 0x89 40
     + Z.shiftl (Z.land (Z.shiftr 0x0067 16) 0xF) 48 + Z.shiftl (Z.land (Z.shiftr tss 24) 0xFF) 56;
   Z.shiftr tss 32].

(** The size and the address in the descriptor. *)
Definition gdt64_init (gdt64_address : Z) : M kernel64 unit :=
  modify (set_loaded_gdt (Some (5 * 8 - 1, gdt64_address))).

(** ** The task state *)

Definition kzalloc64 (size : Z) : M kernel64 Z := λ k,
  match stacks k with p :: ps => Done (p, set_stacks ps k) | [] => Done (0, k) end.

(** The loop clears 13 64-bit words, all but the last two fields. *)
Definition tss64_clear (t : tss64) : tss64 :=
  {| reserved0 := 0; reserved1 := 0; rsp0 := 0; rsp1 := 0; rsp2 := 0; reserved2 := 0; ist1 := 0; ist2 := 0; ist3 := 0;
     ist4 := 0; ist5 := 0; ist6 := 0; ist7 := 0; reserved3 := 0; reserved4 := reserved4 t; io_map_base := io_map_base t |}.

Definition modify_tss (f : tss64 → tss64) : M kernel64 unit := modify (λ k, set_k_tss (f (k_tss k)) k).

Definition tss64_init (rsp : Z) : M kernel64 unit :=
  modify_tss tss64_clear;;
  modify_tss (set_rsp0 rsp);;
  s1 ← kzalloc64 4096;
  s2 ← kzalloc64 4096;
  s3 ← kzalloc64 4096;
  (if negb (s1 =? 0) then modify_tss (set_ist1 (u64 (s1 + 4096))) else mret tt);;
  (if negb (s2 =? 0) then modify_tss (set_ist2 (u64 (s2 + 4096))) else mret tt);;
  (if negb (s3 =? 0) then modify_tss (set_ist3 (u64 (s3 + 4096))) else mret tt);;
  modify (set_task_register GDT64_TSS_SELECTOR).

(** The packed structure by 32-bit words. *)
Definition dwords (x : Z) : list Z := [x mod 2 ^ 32; x / 2 ^ 32].
Definition tss64_image (t : tss64) : list Z :=
  [reserved0 t; reserved1 t] ++ dwords (rsp0 t) ++ dwords (rsp1 t) ++ dwords (rsp2 t) ++ dwords (reserved2 t)
  ++ dwords (ist1 t) ++ dwords (ist2 t) ++ dwords (ist3 t) ++ dwords (ist4 t) ++ dwords (ist5 t) ++ dwords (ist6 t)
  ++ dwords (ist7 t) ++ dwords (reserved3 t) ++ [reserved4 t + io_map_base t * 2 ^ 16].

(** ** System calls *)

(** A write of a model specific register: the number and the halves of the value. *)
Definition wrmsr (msr val : Z) : M kernel64 unit :=
  modify (λ k, set_msrs (msrs k ++ [(msr, u32 val, u32 (Z.shiftr val 32))]) k).

Definition syscall_init (syscall_entry : Z) : M kernel64 unit :=
  let star := Z.lor (Z.shiftl GDT64_KERNEL_CODE_SELECTOR 32) (Z.shiftl GDT64_USER_CODE_SELECTOR 48) in
  wrmsr 0xC0000081 star;;
  wrmsr 0xC0000082 syscall_entry;;
  wrmsr 0xC0000084 0x200.

Section syscalls.
Context {S : Type}.

(** A handler takes the six arguments. *)
Definition handler : Type := Z → Z → Z → Z → Z → Z → M S Z.

Definition syscall_register (num : Z) (h : option handler) (table : list (option handler)) : list (option handler) :=
  if (0 <=? num) && (num <? 256) then <[Z.to_nat num := h]> table else table.

(** [num] is an unsigned 64-bit value. *)
Definition syscall_dispatch (table : list (option handler)) (num a1 a2 a3 a4 a5 a6 : Z) : M S Z :=
  h ← (if num <? 256 then liftO table.[num] else mret None);
  match h with
  | None => mret (u64 (-1))
  | Some h => h a1 a2 a3 a4 a5 a6
  end.

(** The registers [syscall_entry] works with; [rsp] is a stack of words. *)
Record regs64 := { rax : Z; rdi : Z; rsi : Z; rdx : Z; rcx : Z; r8 : Z; r9 : Z; r10 : Z; r11 : Z; stack : list Z }.

(** What the moves before the call leave. *)
Definition syscall_entry_moves (r : regs64) : regs64 :=
  let st := [r9 r; r11 r; rcx r] in
  let r11a := rdi r in
  let rcxa := rdx r in
  let rdxa := rsi r in
  let rsia := r11a in
  let rdia := rax r in
  let r11b := r8 r in
  let r8a := r10 r in
  let r9a := r11b in
  {| rax := rax r; rdi := rdia; rsi := rsia; rdx := rdxa; rcx := rcxa; r8 := r8a; r9 := r9a; r10 := r10 r; r11 := r11b; stack := st |}.

(** The call with the arguments in the places of the calling convention, six in
    registers and the seventh on the stack, and the return: the result in [rax],
    the saved [r11] and [rcx] from the stack. *)
Definition syscall_entry (table : list (option handler)) (r : regs64) : M S (Z * Z * Z) :=
  let r' := syscall_entry_moves r in
  match stack r' with
  | arg6 :: flags :: rip :: _ =>
      v ← syscall_dispatch table (rdi r') (rsi r') (rdx r') (rcx r') (r8 r') (r9 r') arg6;
      mret (v, flags, rip)
  | _ => undef
  end.
End syscalls.

(** ** Page faults *)

Definition page_fault_handler (buf : list Z) (fault_addr error_code : Z) : M terminal unit :=
  print (text "Page fault at address ");;
  buf ← liftO (int_to_string (s32 fault_addr) buf);
  print buf;;
  print (text ", error code ");;
  buf ← liftO (int_to_string (s32 error_code) buf);
  print buf;;
  print [10; 0];;
  kernel_panic (line "Halting.").

(** ** The start *)

(** What the linker fixes. *)
Record symbols := {
  text_start : Z; text_end : Z; data_start : Z; data_end : Z; bss_start : Z; bss_end : Z;
  phys_to_virt_offset : Z;
  gdt64_address : Z; idt64_address : Z; page_fault_address : Z; syscall_address : Z; pointer_table : list Z
}.

Definition pages_count (start end_ : Z) : Z := u64 (end_ - start + PAGE_SIZE - 1) / PAGE_SIZE.

(** The mapping of the sections, the first part of [kernel_main]. *)
Definition map_sections (y : symbols) : M paging64 unit :=
  map_range (text_start y) (u64 (text_start y - phys_to_virt_offset y)) (pages_count (text_start y) (text_end y)) 0;;
  map_range (data_start y) (u64 (data_start y - phys_to_virt_offset y)) (pages_count (data_start y) (data_end y)) (Z.lor PTE_RW PTE_NX);;
  map_range (bss_start y) (u64 (bss_start y - phys_to_virt_offset y)) (pages_count (bss_start y) (bss_end y)) (Z.lor PTE_RW PTE_NX);;
  mret tt.

Definition kernel_main64 (y : symbols) : M kernel64 unit :=
  in_paging64 (paging64_init HHDM_BASE);;
  in_paging64 (map_sections y);;
  gdt64_init (gdt64_address y);;
  idt64_init (idt64_address y) (page_fault_address y) (pointer_table y);;
  tss64_init (HHDM_BASE + 0x200000);;
  syscall_init (syscall_address y).

(** ** Interrupt gates: correctness *)

(** The address a gate leads to. *)
Definition gate64_address (d : idt64_desc) : Z := offset_low d + offset_mid d * 2 ^ 16 + offset_high d * 2 ^ 32.

(** A present interrupt gate to [address] in the kernel's code segment. *)
Definition gate64 (address ist_index : Z) (d : idt64_desc) : Prop :=
  gate64_address d = address ∧ selector64 d = GDT64_KERNEL_CODE_SELECTOR ∧ type_attr64 d = 0x8E ∧ ist d = ist_index ∧ zero64 d = 0.

Lemma idt64_set_spec k i a n : 0 <= i < Z.of_nat (length (k_idt k)) → is_u64 a →
  ∃ d, gate64 a n d ∧ idt64_set i a n k = Done (tt, set_k_idt (<[Z.to_nat i := d]> (k_idt k)) k).
Proof.
  intros Hi Ha. unfold idt64_set. rewrite bind_gets, (bind_liftO _ _ _ _ (upd_Some _ _ _ Hi)).
  eexists. split; [|reflexivity]. unfold gate64, gate64_address. cbn [offset_low offset_mid offset_high selector64 type_attr64 ist zero64].
  split_and!; try reflexivity. change 0xFFFF with (Z.ones 16). rewrite !Z.land_ones, !Z.shiftr_div_pow2 by lia. unfold u32. euclid.
Qed.

Lemma idt64_loop_spec n i k table :
  length (k_idt k) = 256%nat → length table = 256%nat → Forall is_u64 table → 0 <= i → i + Z.of_nat n <= 256 →
  ∃ l, idt64_loop n i table k = Done (tt, set_k_idt l k) ∧ length l = 256%nat ∧
    (∀ j a, i <= j < i + Z.of_nat n → table.[j] = Some a → ∃ d, l.[j] = Some d ∧ gate64 a 0 d) ∧
    (∀ j, ¬ (i <= j < i + Z.of_nat n) → l.[j] = (k_idt k).[j]).
Proof.
  revert i k. induction n as [|n IH]; intros i k Hl Ht Hu Hi Hn.
  { exists (k_idt k). split_and!; [by destruct k|done|lia|done]. }
  cbn [idt64_loop]. destruct (idx_is_Some table i) as [a Ea]; [lia|]. rewrite (bind_liftO _ _ _ _ Ea).
  assert (is_u64 a) as Hua.
  { unfold idx in Ea. destruct (i <? 0); [done|]. rewrite Forall_lookup in Hu. by eapply Hu. }
  destruct (idt64_set_spec k i a 0 ltac:(lia) Hua) as (d & Hd & E). rewrite (bind_done _ _ _ _ _ E).
  set (k1 := set_k_idt _ k). destruct (IH (i + 1) k1) as (l & E' & Hl' & Hin & Hout);
    [by subst k1; cbn; rewrite length_insert|done|done|lia|lia|].
  pose proof (upd_Some (k_idt k) i d ltac:(lia)) as Eu.
  exists l. split_and!; [exact E'|done| |].
  - intros j b Hj Hb. destruct (decide (j = i)) as [->|]; [|apply Hin; [lia|done]].
    rewrite Ea in Hb. injection Hb as <-. exists d. split; [|done]. rewrite Hout by lia. by apply (upd_idx_eq (k_idt k)).
  - intros j Hj. rewrite Hout by lia. by apply (upd_idx_ne (k_idt k) _ i _ d); [lia|].
Qed.

Lemma idt64_init_spec k table_address stub table :
  length (k_idt k) = 256%nat → length table = 256%nat → Forall is_u64 table → is_u64 stub →
  let d := {| limit64 := 4095; base64 := table_address |} in
  ∃ l, idt64_init table_address stub table k = Done (tt, set_loaded_idt (Some d) (set_k_idt l (set_k_idtr d k))) ∧
    ∀ j a, table.[j] = Some a → ∃ g, l.[j] = Some g ∧ if decide (j = 14) then gate64 stub 1 g else gate64 a 0 g.
Proof.
  intros Hl Ht Hu Hs d. unfold idt64_init. rewrite bind_modify. set (k1 := set_k_idtr _ k).
  destruct (idt64_loop_spec 256 0 k1 table Hl Ht Hu) as (l & E & Hl1 & Hin & _); [lia|lia|].
  change (Z.to_nat IDT64_TOTAL_DESCRIPTORS) with 256%nat. rewrite (bind_done _ _ _ _ _ E).
  destruct (idt64_set_spec (set_k_idt l k1) 14 stub 1) as (g & Hg & E'); [cbn [k_idt set_k_idt]; lia|done|].
  rewrite (bind_done _ _ _ _ _ E'), bind_gets. eexists. split; [reflexivity|]. cbn [k_idt set_k_idt].
  intros j a Ha. pose proof (idx_Some_range _ _ _ Ha) as Hj. pose proof (upd_Some l 14 g ltac:(lia)) as Eu.
  destruct (decide (j = 14)) as [->|Hne].
  - exists g. split; [|done]. by apply (upd_idx_eq l).
  - destruct (Hin j a ltac:(lia) Ha) as (g' & Eg & Hg'). exists g'. split; [|done].
    rewrite (upd_idx_ne l _ 14 j g) by done. exact Eg.
Qed.

(** ** The task state: correctness *)

(** The end of a stack that was allocated, 0 when there is none. *)
Definition stack_end (s : Z) : Z := if s =? 0 then 0 else u64 (s + 4096).
(** The [i]-th answer of the allocator. *)
Definition stack_answer k (i : nat) : Z := default 0 (stacks k !! i).
Lemma tss64_init_spec k rsp :
  let t := set_ist3 (stack_end (stack_answer k 2)) (set_ist2 (stack_end (stack_answer k 1)) (set_ist1 (stack_end (stack_answer k 0)) (set_rsp0 rsp (tss64_clear (k_tss k))))) in
  tss64_init rsp k = Done (tt, set_task_register GDT64_TSS_SELECTOR (set_k_tss t (set_stacks (drop 3 (stacks k)) k))).
Proof.
  intros t. unfold t, stack_answer, stack_end, tss64_init, modify_tss, kzalloc64, mbind, M_bind, modify. cbn [k_tss set_k_tss stacks set_stacks].
  destruct k as [? ? ? ? ? ? ? ? st]. cbn [stacks k_tss set_k_tss set_stacks].
  destruct st as [|s1 [|s2 [|s3 rest]]]; cbn; repeat destruct (_ =? 0); reflexivity.
Qed.

(** The processor reads the stack pointer for ring 0 at byte 4 of the task state.
    The structure has it at byte 8: the processor sees its low half as the high
    half of the pointer. *)
Lemma tss64_stack_pointer_misplaced t :
  reserved1 t = 0 →
  (tss64_image t !! 1%nat, tss64_image t !! 2%nat) = (Some 0, Some (rsp0 t mod 2 ^ 32)).
Proof. intros <-. reflexivity. Qed.

(** The selectors for user segments: the one for code names the upper half of the
    descriptor of the task state, the one for data is outside the table. *)
Lemma gdt64_user_selectors tss :
  (gdt64 tss).[Z.shiftr GDT64_USER_CODE_SELECTOR 3] = Some (Z.shiftr tss 32) ∧
  (gdt64 tss).[Z.shiftr GDT64_USER_DATA_SELECTOR 3] = None.
Proof. by split. Qed.

(** ** System calls: correctness *)

Lemma syscall_dispatch_unknown {S} (table : list (option (@handler S))) num a1 a2 a3 a4 a5 a6 s :
  length table = 256%nat → 0 <= num → (256 <= num ∨ table.[num] = Some None) →
  syscall_dispatch table num a1 a2 a3 a4 a5 a6 s = Done (2 ^ 64 - 1, s).
Proof.
  intros Hl Hn H. unfold syscall_dispatch. destruct (Z.ltb_spec num 256).
  - destruct H as [|H]; [lia|]. by rewrite (bind_liftO _ _ _ _ H).
  - reflexivity.
Qed.

Lemma syscall_entry_spec {S} (table : list (option (@handler S))) num (h : handler) r s v s' :
  length table = 256%nat → 0 <= num < 256 → rax r = num →
  h (rdi r) (rsi r) (rdx r) (r10 r) (r8 r) (r9 r) s = Done (v, s') →
  syscall_entry (syscall_register num (Some h) table) r s = Done ((v, r11 r, rcx r), s').
Proof.
  intros Hl Hn Hr Hh. unfold syscall_entry, syscall_entry_moves, syscall_register.
  cbn [stack rdi rsi rdx rcx r8 r9]. rewrite (proj2 (Z.leb_le 0 num)), (proj2 (Z.ltb_lt num 256)) by lia. cbn [andb].
  rewrite (bind_done _ _ _ v s'); [reflexivity|]. unfold syscall_dispatch. rewrite Hr, (proj2 (Z.ltb_lt num 256)) by lia.
  rewrite (bind_liftO _ _ (Some h)); [exact Hh|].
  apply (upd_idx_eq table). apply upd_Some. lia.
Qed.

(** The system call instruction.  When a handler is registered under a number
    and a program executes the instruction with that number in [rax], the handler
    runs with the six arguments in the order of the calling convention, its result
    is the result of the call, and the program's address and flags are those at
    the instruction. *)
Theorem syscall_entry_correct {S} (table : list (option (@handler S))) num (h : handler) r s v s' :
  length table = 256%nat → 0 <= num < 256 → rax r = num →
  h (rdi r) (rsi r) (rdx r) (r10 r) (r8 r) (r9 r) s = Done (v, s') →
  syscall_entry (syscall_register num (Some h) table) r s = Done ((v, r11 r, rcx r), s').
Proof. apply syscall_entry_spec. Qed.

(** ** Page faults: correctness *)

(** A fault at an address whose bit 31 is set, as every address of the kernel's
    image is, is reported without its address. *)
Lemma page_fault_high_address b buf fault err :
  2 ^ 31 <= fault mod 2 ^ 32 →
  page_fault_handler (b :: buf) fault err =
    (print (text "Page fault at address ");;
     print (0 :: buf);;
     print (text ", error code ");;
     buf ← liftO (int_to_string (s32 err) (0 :: buf));
     print buf;; print [10; 0];; kernel_panic (line "Halting.")).
Proof.
  intros Hf. unfold page_fault_handler.
  rewrite (int_to_string_negative (s32 fault)) by (unfold s32; euclid). reflexivity.
Qed.

(** ** The start: correctness *)

(** The sections as ranges that can be mapped. *)
Record linked_well (y : symbols) : Prop := {
  lw_text : mappable (text_start y) (u64 (text_start y - phys_to_virt_offset y)) (pages_count (text_start y) (text_end y));
  lw_data : mappable (data_start y) (u64 (data_start y - phys_to_virt_offset y)) (pages_count (data_start y) (data_end y));
  lw_bss : mappable (bss_start y) (u64 (bss_start y - phys_to_virt_offset y)) (pages_count (bss_start y) (bss_end y));
  lw_size : pages_count (text_start y) (text_end y) <= 2 ^ 19 ∧ pages_count (data_start y) (data_end y) <= 2 ^ 19 ∧
    pages_count (bss_start y) (bss_end y) <= 2 ^ 19
}.

(** The translation of the running kernel: the sections over the direct map. *)
Definition kernel_map (y : symbols) : Z → option Z :=
  over (bss_start y) (u64 (bss_start y - phys_to_virt_offset y)) (pages_count (bss_start y) (bss_end y)) (Z.lor PTE_RW PTE_NX)
    (over (data_start y) (u64 (data_start y - phys_to_virt_offset y)) (pages_count (data_start y) (data_end y)) (Z.lor PTE_RW PTE_NX)
      (over (text_start y) (u64 (text_start y - phys_to_virt_offset y)) (pages_count (text_start y) (text_end y)) 0
        (over HHDM_BASE 0 DIRECT_MAP_PAGES (Z.lor PTE_RW PTE_NX) (λ _, None)))).

Lemma over_ext virt phys count flags f g m : f m = g m → over virt phys count flags f m = over virt phys count flags g m.
Proof. unfold over. by intros ->. Qed.

Lemma map_sections_spec y s T :
  linked_well y → tables s first_table T → next_free_phys s <= first_table + 2 ^ 25 →
  ∃ s', map_sections y s = Done (tt, s') ∧ kept first_table s s' ∧
    ∀ m, 0 <= m < 2 ^ 36 → translation first_table s' m =
      over (bss_start y) (u64 (bss_start y - phys_to_virt_offset y)) (pages_count (bss_start y) (bss_end y)) (Z.lor PTE_RW PTE_NX)
        (over (data_start y) (u64 (data_start y - phys_to_virt_offset y)) (pages_count (data_start y) (data_end y)) (Z.lor PTE_RW PTE_NX)
          (over (text_start y) (u64 (text_start y - phys_to_virt_offset y)) (pages_count (text_start y) (text_end y)) 0
            (translation first_table s))) m.
Proof.
  intros [Ht Hd Hb Hz] Htb Hn. unfold first_table in Hn.
  destruct (map_range_spec s first_table T _ _ _ 0 Htb Ht) as (s1 & E1 & K1 & N1 & R1); [euclid|].
  destruct (ke_tables _ _ _ K1) as [T1 Htb1].
  destruct (map_range_spec s1 first_table T1 _ _ _ (Z.lor PTE_RW PTE_NX) Htb1 Hd) as (s2 & E2 & K2 & N2 & R2); [euclid|].
  destruct (ke_tables _ _ _ K2) as [T2 Htb2].
  destruct (map_range_spec s2 first_table T2 _ _ _ (Z.lor PTE_RW PTE_NX) Htb2 Hb) as (s3 & E3 & K3 & N3 & R3); [euclid|].
  exists s3. split_and!.
  - unfold map_sections. by rewrite (bind_done _ _ _ _ _ E1), (bind_done _ _ _ _ _ E2), (bind_done _ _ _ _ _ E3).
  - eapply kept_trans; [exact K1|]. by eapply kept_trans.
  - intros m Hm. rewrite R3 by done. apply over_ext. rewrite R2 by done. apply over_ext. by apply R1.
Qed.

Lemma in_paging64_done {A} (m : M paging64 A) k a p : m (k_paging k) = Done (a, p) → in_paging64 m k = Done (a, set_k_paging p k).
Proof. apply zoom_done. Qed.


(** ** Examples *)

(** A handler that adds its first and last argument to the state. *)
Definition demo_handler : @handler Z := λ a1 _ _ _ _ a6 s, Done (a1 + a6, s + 1).

Definition demo_regs : regs64 :=
  {| rax := 3; rdi := 10; rsi := 11; rdx := 12; rcx := 0x401000; r8 := 14; r9 := 15; r10 := 13; r11 := 0x202; stack := [] |}.

Lemma syscall_entry_correct_witness :
  syscall_entry (syscall_register 3 (Some demo_handler) (replicate 256 None)) demo_regs 7 = Done ((25, 0x202, 0x401000), 8).
Proof. apply (syscall_entry_correct (replicate 256 None) 3 demo_handler demo_regs 7 25 8); [reflexivity|lia|reflexivity|reflexivity]. Defined.

(** An image of three sections at the addresses of linker64.ld. *)
Definition demo_symbols : symbols :=
  {| text_start := 0xffffffff80000000; text_end := 0xffffffff80003456; data_start := 0xffffffff80005000;
     data_end := 0xffffffff80005010; bss_start := 0xffffffff80006000; bss_end := 0xffffffff80009000;
     phys_to_virt_offset := 0xffffffff80000000 - 0x100000; gdt64_address := 0xffffffff80005000;
     idt64_address := 0xffffffff80006000; page_fault_address := 0xffffffff80001000; syscall_address := 0xffffffff80002000;
     pointer_table := replicate 256 0xffffffff80000800 |}.

Definition demo_kernel64 : kernel64 :=
  {| k_paging := demo_start;
     k_idt := replicate 256 {| offset_low := 0; selector64 := 0; ist := 0; type_attr64 := 0; offset_mid := 0; offset_high := 0; zero64 := 0 |};
     k_idtr := {| limit64 := 0; base64 := 0 |}; loaded_idt := None; loaded_gdt := None;
     k_tss := {| reserved0 := 0; reserved1 := 0; rsp0 := 0; rsp1 := 0; rsp2 := 0; reserved2 := 0; ist1 := 0; ist2 := 0; ist3 := 0;
                 ist4 := 0; ist5 := 0; ist6 := 0; ist7 := 0; reserved3 := 0; reserved4 := 0; io_map_base := 0 |};
     task_register := 0; msrs := []; stacks := [0x10000; 0x20000; 0x30000] |}.

Lemma demo_linked : linked_well demo_symbols.
Proof. split; [split; vm_compute; repeat split; congruence..|vm_compute; repeat split; congruence]. Qed.

