(* ===== verification/LibBase.v ===== *)
(** * The machine of the example library

    The example library (src/example_libc) is a C library for a 64-bit host.  Its
    [long], [size_t] and [time_t] have 64 bits and its [int] 32.  Arithmetic on
    signed types is written with a check: a result outside the type is undefined
    and yields [None].  A pointer into a string is the rest of the buffer from
    there on. *)

From S2P Require Import Prelude.

Local Open Scope Z_scope.

Definition LONG_MAX : Z := 2 ^ 63 - 1.
Definition LONG_MIN : Z := - 2 ^ 63.
Definition ULONG_MAX : Z := 2 ^ 64 - 1.

(** The value of a 64-bit word read as signed. *)
Definition s64 (z : Z) : Z := (z + 2 ^ 63) mod 2 ^ 64 - 2 ^ 63.
Definition is_s64 (z : Z) : Prop := - 2 ^ 63 <= z < 2 ^ 63.

Lemma s64_small z : is_s64 z → s64 z = z.
Proof. intros H. unfold s64, is_s64 in *. rewrite Z.mod_small; lia. Qed.

(** The result of signed arithmetic, when it fits. *)
Definition int32 (z : Z) : option Z := if (- 2 ^ 31 <=? z) && (z <? 2 ^ 31) then Some z else None.
Definition int64 (z : Z) : option Z := if (- 2 ^ 63 <=? z) && (z <? 2 ^ 63) then Some z else None.

Lemma int32_ok z : is_s32 z → int32 z = Some z.
Proof. intros H. unfold int32, is_s32 in *. rewrite (proj2 (Z.leb_le _ _)), (proj2 (Z.ltb_lt _ _)) by lia. done. Qed.

Lemma int64_ok z : is_s64 z → int64 z = Some z.
Proof. intros H. unfold int64, is_s64 in *. rewrite (proj2 (Z.leb_le _ _)), (proj2 (Z.ltb_lt _ _)) by lia. done. Qed.

(** [ints] discharges the checks whose argument is in range. *)
Ltac ints :=
  repeat match goal with
  | |- context [int32 ?x] => rewrite (int32_ok x) by (unfold is_s32; lia); cbn [mbind option_bind]
  | |- context [int64 ?x] => rewrite (int64_ok x) by (unfold is_s64; lia); cbn [mbind option_bind]
  end.

(** *** errno.h *)

Definition EINTR : Z := 4.
Definition EBADF : Z := 9.
Definition EAGAIN : Z := 11.
Definition ENOMEM : Z := 12.
Definition EBUSY : Z := 16.
Definition EINVAL : Z := 22.
Definition ENOSPC : Z := 28.
Definition EAFNOSUPPORT : Z := 97.

(** Writing a text at an offset of a buffer ([memcpy] into it). *)
Fixpoint blit (s : list Z) (pos : Z) (t : list Z) : option (list Z) :=
  match t with
  | [] => Some s
  | c :: t => s' ← s.[pos <- c]; blit s' (pos + 1) t
  end.

Lemma blit_app pre mid post t :
  length mid = length t → blit (pre ++ mid ++ post) (Z.of_nat (length pre)) t = Some (pre ++ t ++ post).
Proof.
  revert pre mid. induction t as [|c t IH]; intros pre mid Hl.
  - by destruct mid.
  - destruct mid as [|m mid]; [done|]. cbn [blit app]. rewrite upd_app. cbn [mbind option_bind].
    specialize (IH (pre ++ [c]) mid ltac:(simpl in Hl; lia)). rewrite length_app, Nat2Z.inj_add in IH. simpl length in IH.
    rewrite <- !app_assoc in IH. exact IH.
Qed.

(** A property of the numbers below a bound, by trying them. *)
Lemma below (P : Z → Prop) `{∀ v, Decision (P v)} (n : Z) :
  forallb (λ k, bool_decide (P k)) (seqZ 0 n) = true → ∀ v, 0 <= v < n → P v.
Proof.
  intros E v Hv. rewrite forallb_forall in E. apply (bool_decide_eq_true_1 (P v)), E.
  apply list_elem_of_In, elem_of_seqZ. lia.
Qed.

(** A field put below a shifted one. *)
Lemma lor_mul k x y : 0 <= k → 0 <= y < 2 ^ k → Z.lor (x * 2 ^ k) y = x * 2 ^ k + y.
Proof. intros Hk Hy. apply (lor_low k); [done| |done]. apply Z.mod_mul. lia. Qed.
