(* ===== verification/LibStrto.v ===== *)
(** * Numbers from text: example_libc/src/strto.c

    [strtol], [strtoul], [strtoll], [strtoull] and [atoi] of the example library,
    for a processor with 64-bit [long].  A pointer into a string is the rest of
    the buffer from there on; reading past the buffer yields [None], and so does
    an operation of the source whose effect the language leaves undefined. *)

From S2P Require Import Prelude CString LibBase.

Local Open Scope Z_scope.

Definition digit_val (c : Z) : Z :=
  if (48 <=? c) && (c <=? 57) then c - 48
  else if (97 <=? c) && (c <=? 122) then c - 97 + 10
  else if (65 <=? c) && (c <=? 90) then c - 65 + 10
  else -1.

(** The characters skipped before a number. *)
Definition blank (c : Z) : bool :=
  (c =? 32) || (c =? 9) || (c =? 10) || (c =? 13) || (c =? 12) || (c =? 11).

Fixpoint skip_blanks (s : list Z) : option (list Z) :=
  match s with
  | [] => None
  | c :: t => if blank c then skip_blanks t else Some s
  end.

Definition scan_sign (s : list Z) : option (bool * list Z) :=
  match s with
  | [] => None
  | c :: t => if (c =? 43) || (c =? 45) then Some (c =? 45, t) else Some (false, s)
  end.

(** The base and the rest after a prefix; [s[1]] is read only after a zero. *)
Definition scan_prefix (s : list Z) (base : Z) : option (Z * list Z) :=
  if base =? 0 then
    c ← head s;
    if c =? 48 then
      x ← s.[1];
      if (x =? 120) || (x =? 88) then Some (16, drop 2 s) else Some (8, drop 1 s)
    else Some (10, s)
  else if base =? 16 then
    c ← head s;
    if c =? 48 then
      x ← s.[1];
      if (x =? 120) || (x =? 88) then Some (16, drop 2 s) else Some (16, s)
    else Some (16, s)
  else Some (base, s).

(** The loop over the digits, with the flag that the value is out of range. *)
Fixpoint scan_digits (s : list Z) (base cutdiv cutlim val : Z) (overflow : bool) : option (Z * bool * list Z) :=
  match s with
  | [] => None
  | c :: t =>
      let d := digit_val c in
      if (0 <=? d) && (d <? base) then
        if overflow then scan_digits t base cutdiv cutlim val true
        else if (cutdiv <? val) || ((val =? cutdiv) && (cutlim <? d)) then scan_digits t base cutdiv cutlim val true
        else scan_digits t base cutdiv cutlim (u64 (val * u64 base + d)) false
      else Some (val, overflow, s)
  end.

(** The result, the number of characters up to [*endptr], and whether [errno] is
    set to ERANGE. *)
Record strto_result := { sr_value : Z; sr_end : Z; sr_range : bool }.

(** What the four conversions have in common: [limit neg] is the largest
    magnitude, [finish neg overflow val] the value returned. *)
Definition strto (limit : bool → Z) (finish : bool → bool → Z → option Z) (nptr : list Z) (base : Z) : option strto_result :=
  s ← skip_blanks nptr;
  sg ← scan_sign s;
  let '(neg, s) := (sg : bool * list Z) in
  p ← scan_prefix s base;
  let '(base, start) := (p : Z * list Z) in
  let cutoff := limit neg in
  let cutdiv := cutoff / u64 base in
  let cutlim := cutoff mod u64 base in
  r ← scan_digits start base cutdiv cutlim 0 false;
  let '(val, overflow, s) := (r : Z * bool * list Z) in
  if (length s =? length start)%nat then Some {| sr_value := 0; sr_end := 0; sr_range := false |}
  else
    v ← finish neg overflow val;
    Some {| sr_value := v; sr_end := Z.of_nat (length nptr) - Z.of_nat (length s); sr_range := overflow |}.

(** [-x] of a [long]: overflow is undefined. *)
Definition neg64 (x : Z) : option Z := if x =? LONG_MIN then None else Some (- x).

Definition signed_limit (neg : bool) : Z := if neg then LONG_MAX + 1 else LONG_MAX.
Definition signed_finish (neg overflow : bool) (val : Z) : option Z :=
  if overflow then Some (if neg then LONG_MIN else LONG_MAX)
  else if neg then neg64 (s64 val) else Some (s64 val).

Definition strtol (nptr : list Z) (base : Z) : option strto_result := strto signed_limit signed_finish nptr base.
Definition strtoll (nptr : list Z) (base : Z) : option strto_result := strto signed_limit signed_finish nptr base.
Definition strtoimax (nptr : list Z) (base : Z) : option strto_result := strtoll nptr base.

Definition unsigned_finish (neg overflow : bool) (val : Z) : option Z :=
  if overflow then Some ULONG_MAX
  else if neg then v ← neg64 (s64 val); Some (u64 v) else Some val.

Definition strtoul (nptr : list Z) (base : Z) : option strto_result := strto (λ _, ULONG_MAX) unsigned_finish nptr base.
Definition strtoull (nptr : list Z) (base : Z) : option strto_result := strto (λ _, ULONG_MAX) unsigned_finish nptr base.
Definition strtoumax (nptr : list Z) (base : Z) : option strto_result := strtoull nptr base.

Definition atoi (nptr : list Z) : option Z := r ← strtol nptr 10; Some (s32 (sr_value r)).

(** ** Numerals *)

(** The number a list of digit characters denotes in a base. *)
Definition numeral (base : Z) (ds : list Z) : Z := foldl (λ v c, v * base + digit_val c) 0 ds.

Definition digit_of (base c : Z) : Prop := 0 <= digit_val c < base.

(** Text after the digits: it begins with something that is no digit. *)
Definition stops (base : Z) (rest : list Z) : Prop := ∃ c t, rest = c :: t ∧ ¬ digit_of base c.

(** A zero in base 16 with an [x] after it is no number but a prefix. *)
Definition not_prefix (base : Z) (text rest : list Z) : Prop := base = 16 → text = [48] → hd 0 rest ≠ 120 ∧ hd 0 rest ≠ 88.

(** How a number is written for a base argument: the text, the base and the
    digits it stands for. *)
Inductive literal : Z → list Z → Z → list Z → Prop :=
  | literal_plain base ds : 2 <= base <= 36 → base ≠ 16 → literal base ds base ds
  | literal_hex base x ds : base = 0 ∨ base = 16 → x = 120 ∨ x = 88 → literal base (48 :: x :: ds) 16 ds
  | literal_hex_bare ds : (∀ t, ds ≠ 48 :: 120 :: t ∧ ds ≠ 48 :: 88 :: t) → literal 16 ds 16 ds
  | literal_octal ds : literal 0 (48 :: ds) 8 ds
  | literal_decimal c ds : c ≠ 48 → literal 0 (c :: ds) 10 (c :: ds).

(** A sign before the number. *)
Inductive sign_text : list Z → bool → Prop :=
  | sign_none : sign_text [] false
  | sign_plus : sign_text [43] false
  | sign_minus : sign_text [45] true.

Lemma digit_val_range c : -1 <= digit_val c <= 35.
Proof. unfold digit_val. repeat case_match; lia. Qed.

Lemma numeral_snoc base ds c : numeral base (ds ++ [c]) = numeral base ds * base + digit_val c.
Proof. unfold numeral. by rewrite foldl_app. Qed.

(** The value of digits read after a value [v]. *)
Definition continue (base v : Z) (ds : list Z) : Z := foldl (λ v c, v * base + digit_val c) v ds.

Lemma continue_mono base v ds : 0 < base → 0 <= v → Forall (digit_of base) ds → v <= continue base v ds.
Proof.
  intros Hb Hv Hd. revert v Hv. induction Hd as [|c ds Hc Hd IH]; intros v Hv; simpl; [lia|].
  etrans; [|apply IH]; unfold digit_of in Hc; nia.
Qed.

Lemma scan_digits_overflow base cutdiv cutlim val ds rest :
  Forall (digit_of base) ds → stops base rest →
  scan_digits (ds ++ rest) base cutdiv cutlim val true = Some (val, true, rest).
Proof.
  intros Hd (c & t & -> & Hc). induction Hd as [|d ds Hd1 Hd IH]; cbn [app scan_digits].
  - destruct ((0 <=? digit_val c) && (digit_val c <? base)) eqn:E; [|done].
    apply andb_true_iff in E as [?%Z.leb_le ?%Z.ltb_lt]. by destruct Hc.
  - destruct Hd1. rewrite (proj2 (Z.leb_le _ _)), (proj2 (Z.ltb_lt _ _)) by done. exact IH.
Qed.

(** The loop computes the value, or notices that it is above the limit. *)
Lemma scan_digits_spec base limit ds rest val :
  2 <= base <= 36 → 0 <= val <= limit → limit < 2 ^ 64 → Forall (digit_of base) ds → stops base rest →
  let v := continue base val ds in
  ∃ w, scan_digits (ds ++ rest) base (limit / base) (limit mod base) val false = Some (w, bool_decide (limit < v), rest) ∧
    (v <= limit → w = v).
Proof.
  intros Hb Hval Hl Hd Hr. revert val Hval. induction Hd as [|c ds Hc Hd IH]; intros val Hval v.
  - exists val. subst v. cbn [continue foldl]. rewrite bool_decide_eq_false_2 by (cbn; lia). split; [|done].
    destruct Hr as (c & t & -> & Hc). cbn [app scan_digits].
    destruct ((0 <=? digit_val c) && (digit_val c <? base)) eqn:E; [|done].
    apply andb_true_iff in E as [?%Z.leb_le ?%Z.ltb_lt]. by destruct Hc.
  - cbn [app scan_digits]. pose proof Hc as [Hc1 Hc2].
    rewrite (proj2 (Z.leb_le _ _) Hc1), (proj2 (Z.ltb_lt _ _) Hc2). cbn [andb].
    pose proof (Z.div_mod limit base ltac:(lia)) as Hdm. pose proof (Z.mod_pos_bound limit base ltac:(lia)) as Hm.
    assert ((limit / base <? val) || ((val =? limit / base) && (limit mod base <? digit_val c)) = bool_decide (limit < val * base + digit_val c)) as ->.
    { destruct (Z.ltb_spec (limit / base) val); simpl.
      - rewrite bool_decide_eq_true_2; [done|]. nia.
      - destruct (Z.eqb_spec val (limit / base)) as [->|]; simpl.
        + destruct (Z.ltb_spec (limit mod base) (digit_val c)); [rewrite bool_decide_eq_true_2|rewrite bool_decide_eq_false_2]; (done || nia).
        + rewrite bool_decide_eq_false_2; [done|]. nia. }
    destruct (decide (limit < val * base + digit_val c)) as [Hover|Hin].
    + rewrite bool_decide_eq_true_2 by done. exists val. rewrite scan_digits_overflow by done.
      assert (val * base + digit_val c <= v) by (apply (continue_mono base (val * base + digit_val c) ds); [lia|nia|done]).
      rewrite bool_decide_eq_true_2 by lia. split; [done|lia].
    + rewrite bool_decide_eq_false_2 by done. rewrite (u64_small base) by range. rewrite u64_small by (unfold is_u64; nia).
      apply (IH (val * base + digit_val c)). nia.
Qed.

Lemma skip_blanks_spec bs c t : Forall (λ b, blank b = true) bs → blank c = false → skip_blanks (bs ++ c :: t) = Some (c :: t).
Proof. intros Hb Hc. induction Hb as [|b bs Hb1 Hb IH]; cbn [app skip_blanks]; [by rewrite Hc|by rewrite Hb1]. Qed.

Lemma is_prefix_letter x : (x =? 120) || (x =? 88) = bool_decide (x = 120 ∨ x = 88).
Proof. destruct (Z.eqb_spec x 120), (Z.eqb_spec x 88); symmetry; (apply bool_decide_eq_true_2; lia) || (apply bool_decide_eq_false_2; lia). Qed.

Lemma scan_prefix_literal base text b ds rest :
  literal base text b ds → ds ≠ [] → Forall (digit_of b) ds → stops b rest → not_prefix base text rest →
  scan_prefix (text ++ rest) base = Some (b, ds ++ rest) ∧ 2 <= b <= 36.
Proof.
  intros Hl Hne Hd (r & t & -> & _) Hr. unfold scan_prefix. destruct Hl as [base ds Hb Hn|base x ds Hb Hx|ds Hn|ds|c ds Hc].
  - rewrite (proj2 (Z.eqb_neq base 0)), (proj2 (Z.eqb_neq base 16)) by lia. done.
  - split; [|lia]. destruct Hb as [-> | ->]; cbn [head app mbind option_bind Z.eqb Pos.eqb];
      change ((48 :: x :: ds ++ r :: t).[1]) with (Some x); cbn [mbind option_bind]; rewrite is_prefix_letter, bool_decide_eq_true_2 by done; done.
  - destruct ds as [|c ds]; [done|]. split; [|lia]. cbn [head app mbind option_bind Z.eqb Pos.eqb].
    destruct (Z.eqb_spec c 48) as [->|]; [|done].
    destruct ds as [|x ds]; cbn [app].
    + change ((48 :: r :: t).[1]) with (Some r). cbn [mbind option_bind]. destruct (Hr eq_refl eq_refl) as [? ?]. cbn in *.
      rewrite is_prefix_letter, bool_decide_eq_false_2 by lia. done.
    + change ((48 :: x :: ds ++ r :: t).[1]) with (Some x). cbn [mbind option_bind]. rewrite is_prefix_letter, bool_decide_eq_false_2; [done|].
      intros [-> | ->]; by destruct (Hn ds).
  - destruct ds as [|x ds]; [done|]. split; [|lia]. cbn [head app mbind option_bind Z.eqb Pos.eqb].
    change ((48 :: x :: ds ++ r :: t).[1]) with (Some x). cbn [mbind option_bind]. rewrite is_prefix_letter, bool_decide_eq_false_2; [done|].
    inversion Hd as [|? ? Hx _]; subst. intros [-> | ->]; by destruct Hx.
  - split; [|lia]. cbn [head app mbind option_bind Z.eqb Pos.eqb]. by rewrite (proj2 (Z.eqb_neq c 48)) by done.
Qed.

(** The first character of a literal is neither blank nor a sign. *)
Lemma literal_head base text b ds rest :
  literal base text b ds → ds ≠ [] → Forall (digit_of b) ds →
  ∃ c t, text ++ rest = c :: t ∧ blank c = false ∧ (c =? 43) || (c =? 45) = false.
Proof.
  assert (∀ b c, digit_of b c → blank c = false ∧ (c =? 43) || (c =? 45) = false) as Hdig.
  { intros b' c [Hc _]. unfold digit_val in Hc. unfold blank. split.
    - repeat match goal with |- context [c =? ?k] => destruct (Z.eqb_spec c k) as [->|]; [exfalso; revert Hc; vm_compute; congruence|] end. done.
    - repeat match goal with |- context [c =? ?k] => destruct (Z.eqb_spec c k) as [->|]; [exfalso; revert Hc; vm_compute; congruence|] end. done. }
  intros Hl Hne Hd.
  destruct Hl as [? ds|? ? ds|ds|ds|c ds]; try (exists 48; eexists; split; [reflexivity|done]).
  - destruct ds as [|c ds]; [done|]. inversion Hd; subst. exists c; eexists; split; [reflexivity|by eapply Hdig].
  - destruct ds as [|c ds]; [done|]. inversion Hd; subst. exists c; eexists; split; [reflexivity|by eapply Hdig].
  - inversion Hd; subst. exists c; eexists; split; [reflexivity|by eapply Hdig].
Qed.

Lemma scan_sign_spec sg neg c t :
  sign_text sg neg → blank c = false → (c =? 43) || (c =? 45) = false →
  scan_sign (sg ++ c :: t) = Some (neg, c :: t) ∧ ∃ c' t', sg ++ c :: t = c' :: t' ∧ blank c' = false.
Proof. intros [] Hb Hc; cbn; [rewrite Hc|..]; split; eauto. Qed.

(** Any conversion, on a number that is written out. *)
Lemma strto_spec limit finish bs sg neg base text b ds rest :
  Forall (λ c, blank c = true) bs → sign_text sg neg → literal base text b ds → ds ≠ [] →
  Forall (digit_of b) ds → stops b rest → not_prefix base text rest → 0 <= limit neg < 2 ^ 64 →
  ∃ w, strto limit finish (bs ++ sg ++ text ++ rest) base =
      (v ← finish neg (bool_decide (limit neg < numeral b ds)) w;
       Some {| sr_value := v; sr_end := Z.of_nat (length (bs ++ sg ++ text)); sr_range := bool_decide (limit neg < numeral b ds) |}) ∧
    (numeral b ds <= limit neg → w = numeral b ds).
Proof.
  intros Hbs Hsg Hlit Hne Hd Hr Hx Hlim.
  destruct (literal_head base text b ds rest Hlit Hne Hd) as (c & t & Et & Hc1 & Hc2).
  destruct (scan_sign_spec sg neg c t Hsg Hc1 Hc2) as [Es (c' & t' & Ec & Hc')].
  destruct (scan_prefix_literal base text b ds rest Hlit Hne Hd Hr Hx) as [Ep Hb].
  destruct (scan_digits_spec b (limit neg) ds rest 0 Hb ltac:(lia) ltac:(lia) Hd Hr) as (w & Ew & Hw).
  exists w. split; [|exact Hw]. unfold strto. rewrite Et, Ec, skip_blanks_spec by done. rewrite <- Ec. cbn [mbind option_bind].
  rewrite Es. cbn [mbind option_bind]. rewrite <- Et, Ep. cbn [mbind option_bind].
  rewrite (u64_small b) by range. rewrite Ew. cbn [mbind option_bind].
  destruct (Nat.eqb_spec (length rest) (length (ds ++ rest))) as [E|_].
  { rewrite length_app in E. destruct ds; [done|simpl in E; lia]. }
  unfold numeral. change (foldl _ 0 ds) with (continue b 0 ds). destruct (finish _ _ w); cbn [mbind option_bind]; [|done].
  do 2 f_equal. rewrite !length_app. lia.
Qed.

(** The value written, clamped to the range of [long]. *)
Definition clamp (lo hi v : Z) : Z := Z.max lo (Z.min hi v).
Definition signed (neg : bool) (v : Z) : Z := if neg then - v else v.

Lemma numeral_nonneg b ds : 0 < b → Forall (digit_of b) ds → 0 <= numeral b ds.
Proof. intros Hb Hd. apply (continue_mono b 0 ds); (lia || done). Qed.

Lemma literal_base base text b ds : literal base text b ds → 2 <= b <= 36.
Proof. intros []; lia. Qed.

Lemma strtol_spec bs sg neg base text b ds rest :
  Forall (λ c, blank c = true) bs → sign_text sg neg → literal base text b ds → ds ≠ [] →
  Forall (digit_of b) ds → stops b rest → not_prefix base text rest → signed neg (numeral b ds) ≠ LONG_MIN →
  strtol (bs ++ sg ++ text ++ rest) base = Some
    {| sr_value := clamp LONG_MIN LONG_MAX (signed neg (numeral b ds));
       sr_end := Z.of_nat (length (bs ++ sg ++ text));
       sr_range := bool_decide (¬ LONG_MIN <= signed neg (numeral b ds) <= LONG_MAX) |}.
Proof.
  intros Hbs Hsg Hlit Hne Hd Hr Hx Hmin.
  assert (0 <= numeral b ds) as Hpos by (apply numeral_nonneg; [pose proof (literal_base _ _ _ _ Hlit); lia|done]).
  destruct (strto_spec signed_limit signed_finish bs sg neg base text b ds rest Hbs Hsg Hlit Hne Hd Hr Hx) as (w & Ew & Hw).
  { destruct neg; unfold signed_limit, LONG_MAX; lia. }
  unfold strtol. rewrite Ew. clear Ew. remember (numeral b ds) as n eqn:En. clear En.
  assert (bool_decide (signed_limit neg < n) = bool_decide (¬ LONG_MIN <= signed neg n <= LONG_MAX)) as <-.
  { apply bool_decide_ext. destruct neg; unfold signed_limit, signed, LONG_MIN, LONG_MAX in *; lia. }
  case_bool_decide as Hover.
  - cbn [signed_finish mbind option_bind]. do 2 f_equal. destruct neg; unfold clamp, signed_limit, signed, LONG_MIN, LONG_MAX in *; lia.
  - rewrite Hw by lia. unfold signed_finish. destruct neg; unfold clamp, signed_limit, signed, neg64, LONG_MIN, LONG_MAX in *.
    + rewrite s64_small by (unfold is_s64; lia). rewrite (proj2 (Z.eqb_neq n _)) by lia. cbn [mbind option_bind]. do 2 f_equal. lia.
    + rewrite s64_small by (unfold is_s64; lia). cbn [mbind option_bind]. do 2 f_equal. lia.
Qed.

Lemma strtoul_spec bs sg neg base text b ds rest :
  Forall (λ c, blank c = true) bs → sign_text sg neg → literal base text b ds → ds ≠ [] →
  Forall (digit_of b) ds → stops b rest → not_prefix base text rest → signed neg (numeral b ds) ≠ LONG_MIN →
  strtoul (bs ++ sg ++ text ++ rest) base = Some
    {| sr_value := if decide (numeral b ds <= ULONG_MAX) then u64 (signed neg (numeral b ds)) else ULONG_MAX;
       sr_end := Z.of_nat (length (bs ++ sg ++ text));
       sr_range := bool_decide (ULONG_MAX < numeral b ds) |}.
Proof.
  intros Hbs Hsg Hlit Hne Hd Hr Hx Hmin.
  assert (0 <= numeral b ds) as Hpos by (apply numeral_nonneg; [pose proof (literal_base _ _ _ _ Hlit); lia|done]).
  destruct (strto_spec (λ _, ULONG_MAX) unsigned_finish bs sg neg base text b ds rest Hbs Hsg Hlit Hne Hd Hr Hx) as (w & Ew & Hw).
  { unfold ULONG_MAX; lia. }
  unfold strtoul. rewrite Ew. clear Ew. remember (numeral b ds) as n eqn:En. clear En. cbn beta in *.
  case_bool_decide as Hover; [rewrite decide_False by lia; done|].
  rewrite Hw, decide_True by lia. unfold unsigned_finish. destruct neg; [|by cbn [mbind option_bind signed]; rewrite u64_small by (unfold ULONG_MAX in *; range)].
  unfold neg64, signed, LONG_MIN, ULONG_MAX in *.
  assert (s64 n ≠ - 2 ^ 63 ∧ u64 (- s64 n) = u64 (- n)) as [E1 E2].
  { unfold s64, u64. split; [|]; euclid. }
  rewrite (proj2 (Z.eqb_neq _ _)) by done. cbn [mbind option_bind]. by rewrite E2.
Qed.

(** Text in which no digit follows the blanks, the sign and the prefix is no number. *)
Lemma strtol_no_digits bs sg neg base b text c rest :
  Forall (λ c, blank c = true) bs → sign_text sg neg → scan_prefix text base = Some (b, c :: rest) →
  hd 0 text ≠ 43 → hd 0 text ≠ 45 → blank (hd 0 text) = false → text ≠ [] →
  ¬ digit_of b c → strtol (bs ++ sg ++ text) base = Some {| sr_value := 0; sr_end := 0; sr_range := false |}.
Proof.
  intros Hbs Hsg Hp H1 H2 H3 Hne Hc. destruct text as [|x text]; [done|]. cbn in H1, H2, H3.
  assert ((x =? 43) || (x =? 45) = false) as Hx by (rewrite (proj2 (Z.eqb_neq x 43)), (proj2 (Z.eqb_neq x 45)) by done; done).
  destruct (scan_sign_spec sg neg x text Hsg H3 Hx) as [Es (c' & t' & Ec & Hc')].
  unfold strtol, strto. rewrite Ec, skip_blanks_spec by done. rewrite <- Ec. cbn [mbind option_bind].
  rewrite Es. cbn [mbind option_bind]. rewrite Hp. cbn [mbind option_bind scan_digits].
  destruct ((0 <=? digit_val c) && (digit_val c <? b)) eqn:E.
  { apply andb_true_iff in E as [?%Z.leb_le ?%Z.ltb_lt]. by destruct Hc. }
  cbn [mbind option_bind]. by rewrite Nat.eqb_refl.
Qed.

(** The smallest [long] cannot be read: its magnitude passes the limit, and
    negating it overflows. *)
Lemma strtol_smallest bs base text b ds rest :
  Forall (λ c, blank c = true) bs → literal base text b ds → ds ≠ [] →
  Forall (digit_of b) ds → stops b rest → not_prefix base text rest → numeral b ds = 2 ^ 63 →
  strtol (bs ++ [45] ++ text ++ rest) base = None.
Proof.
  intros Hbs Hlit Hne Hd Hr Hx Hn.
  destruct (strto_spec signed_limit signed_finish bs [45] true base text b ds rest Hbs sign_minus Hlit Hne Hd Hr Hx) as (w & Ew & Hw).
  { unfold signed_limit, LONG_MAX; lia. }
  unfold strtol. rewrite Ew, Hw; rewrite Hn; [|reflexivity]. reflexivity.
Qed.

(** A lone zero read with base 0 is taken for the prefix of an octal number
    without digits: [*endptr] is left at the start. *)
Lemma strtol_zero_base_zero c t : ¬ digit_of 8 c → c ≠ 120 → c ≠ 88 →
  strtol (48 :: c :: t) 0 = Some {| sr_value := 0; sr_end := 0; sr_range := false |}.
Proof.
  intros Hc Hx HX. apply (strtol_no_digits [] [] false 0 8 (48 :: c :: t) c t); [constructor|constructor| |done..].
  unfold scan_prefix. cbn [head mbind option_bind Z.eqb Pos.eqb]. change ((48 :: c :: t).[1]) with (Some c).
  cbn [mbind option_bind]. by rewrite is_prefix_letter, bool_decide_eq_false_2 by lia.
Qed.

(** So is a zero that is followed by an [x] without digits, read with base 0 or
    16: the number is the zero, and [*endptr] should be at the [x]. *)
Lemma strtol_prefix_alone base x c t : base = 0 ∨ base = 16 → x = 120 ∨ x = 88 → ¬ digit_of 16 c →
  strtol (48 :: x :: c :: t) base = Some {| sr_value := 0; sr_end := 0; sr_range := false |}.
Proof.
  intros Hb Hx Hc. apply (strtol_no_digits [] [] false base 16 (48 :: x :: c :: t) c t); [constructor|constructor| |done..].
  unfold scan_prefix. destruct Hb as [-> | ->]; cbn [head mbind option_bind Z.eqb Pos.eqb]; change ((48 :: x :: c :: t).[1]) with (Some x);
    cbn [mbind option_bind]; by rewrite is_prefix_letter, bool_decide_eq_true_2 by lia.
Qed.

(** Decimal notation is the numeral of base ten. *)
Lemma decimal_numeral v ds : decimal v ds → numeral 10 ds = v ∧ Forall (digit_of 10) ds ∧ ds ≠ [].
Proof.
  intros (Hv & Hd & Hne & _). split_and!; [|eapply Forall_impl; [exact Hd|]|done].
  - rewrite <- Hv. unfold numeral, dec_val. clear Hv Hne. generalize 0. induction Hd as [|c ds Hc Hd IH]; intros a; [done|].
    cbn [foldl]. rewrite IH. f_equal. unfold is_digit in Hc. unfold digit_val. btests.
  - intros c Hc. unfold is_digit in Hc. unfold digit_of, digit_val. btests.
Qed.

Lemma stops_decimal c t : ¬ is_digit c → c < 58 → stops 10 (c :: t).
Proof.
  intros Hc Hl. exists c, t. split; [done|]. unfold is_digit in Hc. unfold digit_of, digit_val. btests.
Qed.

(** C35: [strtol] reads blanks, a sign, and one or more digits of the base, after
    its prefix, up to the first character that is no digit: the value is the number
    written, clamped to the range of [long], ERANGE is reported exactly when it is
    outside, and [*endptr] is just past the digits.  Three kinds of text are
    excluded, and the code fails on them: that of the smallest [long]; a zero with
    no digit after it in base 0; and a zero in base 0 or 16 with an [x] after it
    that no digit follows. *)
Theorem strtol_correct bs sg neg base text b ds rest :
  Forall (λ c, blank c = true) bs → sign_text sg neg → literal base text b ds → ds ≠ [] →
  Forall (digit_of b) ds → stops b rest → not_prefix base text rest → signed neg (numeral b ds) ≠ LONG_MIN →
  strtol (bs ++ sg ++ text ++ rest) base = Some
    {| sr_value := clamp LONG_MIN LONG_MAX (signed neg (numeral b ds));
       sr_end := Z.of_nat (length (bs ++ sg ++ text));
       sr_range := bool_decide (¬ LONG_MIN <= signed neg (numeral b ds) <= LONG_MAX) |}.
Proof. apply strtol_spec. Qed.

(** [strtol] of a blank, a minus, [0xFf], then [g]. *)
Lemma strtol_correct_witness :
  strtol ([32] ++ [45] ++ [48; 120; 70; 102] ++ [103; 0]) 0 =
    Some {| sr_value := -255; sr_end := 6; sr_range := false |}.
Proof.
  rewrite (strtol_correct [32] [45] true 0 [48; 120; 70; 102] 16 [70; 102] [103; 0]).
  - reflexivity.
  - repeat constructor.
  - constructor.
  - constructor; lia.
  - discriminate.
  - repeat constructor; vm_compute; congruence.
  - exists 103, [0]. split; [reflexivity|]. intros [_ H]. vm_compute in H. discriminate.
  - discriminate.
  - vm_compute. discriminate.
Defined.

(** [strtoul] returns the number written, modulo 2^64 after a minus sign, and
    [ULONG_MAX] with ERANGE when its magnitude does not fit. *)
Theorem strtoul_correct bs sg neg base text b ds rest :
  Forall (λ c, blank c = true) bs → sign_text sg neg → literal base text b ds → ds ≠ [] →
  Forall (digit_of b) ds → stops b rest → not_prefix base text rest → signed neg (numeral b ds) ≠ LONG_MIN →
  strtoul (bs ++ sg ++ text ++ rest) base = Some
    {| sr_value := if decide (numeral b ds <= ULONG_MAX) then u64 (signed neg (numeral b ds)) else ULONG_MAX;
       sr_end := Z.of_nat (length (bs ++ sg ++ text));
       sr_range := bool_decide (ULONG_MAX < numeral b ds) |}.
Proof. apply strtoul_spec. Qed.

(** [atoi] reads back the decimal notation of an [int], with or without a
    sign. *)
Theorem atoi_decimal bs sg neg v ds c t :
  Forall (λ c, blank c = true) bs → sign_text sg neg → decimal v ds → is_s32 (signed neg v) →
  ¬ is_digit c → c < 58 → atoi (bs ++ sg ++ ds ++ c :: t) = Some (signed neg v).
Proof.
  intros Hbs Hsg Hdec Hv Hc Hc'. destruct (decimal_numeral v ds Hdec) as (Hn & Hd & Hne).
  unfold atoi. rewrite (strtol_spec bs sg neg 10 ds 10 ds (c :: t)); try done.
  - cbn [mbind option_bind sr_value]. rewrite Hn. unfold clamp, LONG_MIN, LONG_MAX. unfold is_s32 in Hv. f_equal.
    rewrite Z.min_r, Z.max_r by lia. by apply s32_small.
  - constructor; lia.
  - by apply stops_decimal.
  - rewrite Hn. unfold LONG_MIN, is_s32 in *. lia.
Qed.
