(* ===== verification/LibTime.v ===== *)
(** * Calendar time: example_libc/src/time_conv.c, time_r.c, strftime.c, strptime.c

    Seconds since the epoch and broken-down time, in both directions, the
    timezone offset, and broken-down time to and from text.  The loops that count
    years and months are run with a number of rounds that is proved to be
    enough; [None] is an undefined operation or the end of the rounds. *)

From S2P Require Import Prelude CString LibBase.

Local Open Scope Z_scope.

Record tm := mk_tm {
  tm_sec : Z; tm_min : Z; tm_hour : Z; tm_mday : Z; tm_mon : Z; tm_year : Z;
  tm_wday : Z; tm_yday : Z; tm_isdst : Z }.

Definition is_leap (year : Z) : bool :=
  if negb (Z.rem year 4 =? 0) then false
  else if negb (Z.rem year 100 =? 0) then true
  else Z.rem year 400 =? 0.

Definition days_per_month (leap : bool) : list Z :=
  if leap then [31; 29; 31; 30; 31; 30; 31; 31; 30; 31; 30; 31]
  else [31; 28; 31; 30; 31; 30; 31; 31; 30; 31; 30; 31].

Definition year_days (year : Z) : Z := if is_leap year then 366 else 365.

(** ** Seconds to broken-down time *)

(** [while (1)] over the years: the year and the days left in it. *)
Fixpoint year_loop (fuel : nat) (days year : Z) : option (Z * Z) :=
  match fuel with
  | O => None
  | S fuel =>
      if year_days year <=? days then year' ← int32 (year + 1); year_loop fuel (days - year_days year) year'
      else Some (days, year)
  end.

(** [while (days >= ml[mon])]: reading past the table is undefined. *)
Fixpoint month_loop (ml : list Z) (days mon : Z) : option (Z * Z) :=
  match ml with
  | [] => None
  | n :: ml => if n <=? days then month_loop ml (days - n) (mon + 1) else Some (days, mon)
  end.

Definition convert_tm (t : Z) : option tm :=
  let t := if t <? 0 then 0 else t in
  let sec := Z.rem t 60 in let t := Z.quot t 60 in
  let min := Z.rem t 60 in let t := Z.quot t 60 in
  let hour := Z.rem t 24 in let t := Z.quot t 24 in
  let days := s32 t in
  d4 ← int32 (days + 4);
  let wday := Z.rem d4 7 in
  y ← year_loop (S (Z.to_nat (days / 365))) days 1970;
  let '(days, year) := (y : Z * Z) in
  let yday := days in
  m ← month_loop (days_per_month (is_leap year)) days 0;
  let '(days, mon) := (m : Z * Z) in
  let mday := days + 1 in
  Some (mk_tm sec min hour mday mon (year - 1900) wday yday 0).

(** [gmtime_r]: [None] for [timep] is a null pointer, and the clock is read
    instead.  The outer [None] is undefined; the structure given is overwritten,
    or there is none and the result is null. *)
Definition gmtime_r (now : Z) (timep : option Z) (result : option tm) : option (option tm) :=
  match result with
  | None => Some None
  | Some _ => let t := match timep with Some t => t | None => now end in r ← convert_tm t; Some (Some r)
  end.

(** [localtime_r], with the offset [__vlibc_tzoff] in seconds. *)
Definition localtime_r (tzoff now : Z) (timep : option Z) (result : option tm) : option (option tm) :=
  match result with
  | None => Some None
  | Some _ =>
      let t := match timep with Some t => t | None => now end in
      t ← int64 (t + tzoff); r ← convert_tm t; Some (Some r)
  end.

(** [gmtime] and [localtime] use the buffer of the thread. *)
Definition gmtime (now : Z) (timep : option Z) (tm_buf : tm) : option (option tm) := gmtime_r now timep (Some tm_buf).
Definition localtime (tzoff now : Z) (timep : option Z) (tm_buf : tm) : option (option tm) := localtime_r tzoff now timep (Some tm_buf).

(** ** Broken-down time to seconds *)

(** [for (int y = 1970; y < year; y++)], [n] rounds from the year [y]. *)
Fixpoint years_sum (n : nat) (y days : Z) : Z :=
  match n with O => days | S n => years_sum n (y + 1) (days + year_days y) end.

(** [for (int m = 0; m < tm->tm_mon; m++)] with the table from [m] on. *)
Fixpoint months_sum (n : nat) (ml : list Z) (days : Z) : option Z :=
  match n, ml with
  | O, _ => Some days
  | S n, [] => None
  | S n, k :: ml => months_sum n ml (days + k)
  end.

(** What [mktime] and [timegm] share: the structure with its derived fields set,
    and the seconds. *)
Definition tm_seconds (t : tm) : option (tm * Z) :=
  year ← int32 (tm_year t + 1900);
  let days := years_sum (Z.to_nat (year - 1970)) 1970 0 in
  days ← months_sum (Z.to_nat (tm_mon t)) (days_per_month (is_leap year)) days;
  d ← int32 (tm_mday t - 1);
  let days := days + d in
  d4 ← int64 (days + 4);
  let t' := mk_tm (tm_sec t) (tm_min t) (tm_hour t) (tm_mday t) (tm_mon t) (tm_year t) (s32 (Z.rem d4 7)) (s32 days) 0 in
  a ← int64 (days * 86400);
  h ← int32 (tm_hour t * 3600);
  a ← int64 (a + h);
  m ← int32 (tm_min t * 60);
  a ← int64 (a + m);
  a ← int64 (a + tm_sec t);
  Some (t', a).

Definition mktime (tzoff : Z) (t : option tm) : option (option tm * Z) :=
  match t with
  | None => Some (None, -1)
  | Some t => r ← tm_seconds t; let '(t', a) := (r : tm * Z) in a ← int64 (a - tzoff); Some (Some t', a)
  end.

Definition timegm (t : option tm) : option (option tm * Z) :=
  match t with
  | None => Some (None, -1)
  | Some t => r ← tm_seconds t; let '(t', a) := (r : tm * Z) in Some (Some t', a)
  end.

(** ** The timezone offset *)

Definition is_digitb (c : Z) : bool := (48 <=? c) && (c <=? 57).

(** The loop to the first digit, sign or end of the text. *)
Fixpoint offset_skip (s : list Z) : option (list Z) :=
  match s with
  | [] => None
  | c :: t => if negb (c =? 0) && negb (is_digitb c || (c =? 43) || (c =? 45)) then offset_skip t else Some s
  end.

(** The digits of a number; [stop] is the test at the end of each round. *)
Fixpoint offset_digits (stop : Z → bool) (s : list Z) (v : Z) : option (Z * list Z) :=
  match s with
  | [] => None
  | c :: t =>
      if is_digitb c then v10 ← int32 (v * 10); v ← int32 (v10 + (c - 48)); if stop v then Some (v, t) else offset_digits stop t v
      else Some (v, s)
  end.

Definition parse_offset (s : option (list Z)) : option Z :=
  match s with
  | None => Some 0
  | Some s =>
      c ← head s;
      if c =? 0 then Some 0 else
      s ← offset_skip s;
      c ← head s;
      let '(sign, s) := if c =? 43 then (1, tail s) else if c =? 45 then (-1, tail s) else (1, s) in
      r ← offset_digits (λ _, false) s 0;
      let '(h, s) := (r : Z * list Z) in
      c ← head s;
      m ← (if c =? 58 then r ← offset_digits (λ m, 60 <=? m) (tail s) 0; Some (fst r)
           else if c =? 0 then Some 0
           else c1 ← s.[1];
             if negb (c1 =? 0) && is_digitb c then Some ((c - 48) * 10 + (c1 - 48)) else Some 0);
      h ← int32 (h * 3600);
      m ← int32 (m * 60);
      hm ← int32 (h + m);
      int32 (sign * hm)
  end.

(** [tzset], with the value of TZ and the first line of /etc/localtime when there
    is one; the result is [__vlibc_tzoff]. *)
Definition tzset (tz file : option (list Z)) : option Z :=
  unset ← (match tz with None => Some true | Some s => c ← head s; Some (c =? 0) end);
  let tz := if unset : bool then match file with Some line => Some line | None => tz end else tz in
  match tz with Some s => parse_offset (Some s) | None => Some 0 end.

(** ** The calendar *)

(** Days from the epoch to the start of a year, and of a month of a year. *)
Definition year_start (y : Z) : Z := years_sum (Z.to_nat (y - 1970)) 1970 0.
Definition month_start (y m : Z) : Z := foldr Z.add 0 (take (Z.to_nat m) (days_per_month (is_leap y))).

(** Fields that denote a moment at or after the epoch. *)
Record valid_tm (t : tm) : Prop := {
  valid_sec : 0 <= tm_sec t < 60;
  valid_min : 0 <= tm_min t < 60;
  valid_hour : 0 <= tm_hour t < 24;
  valid_mon : 0 <= tm_mon t < 12;
  valid_mday : ∃ n, (days_per_month (is_leap (tm_year t + 1900))).[tm_mon t] = Some n ∧ 1 <= tm_mday t <= n;
  valid_year : 70 <= tm_year t }.

(** The days before the day of the fields. *)
Definition tm_days (t : tm) : Z := year_start (tm_year t + 1900) + month_start (tm_year t + 1900) (tm_mon t) + (tm_mday t - 1).

Lemma year_days_range y : 365 <= year_days y <= 366.
Proof. unfold year_days. destruct (is_leap y); lia. Qed.

Lemma years_sum_acc n y d : years_sum n y d = d + years_sum n y 0.
Proof. revert y d. induction n as [|n IH]; intros y d; simpl; [lia|]. rewrite (IH _ (d + _)), (IH _ (0 + _)). lia. Qed.

Lemma years_sum_snoc n y : years_sum (S n) y 0 = years_sum n y 0 + year_days (y + Z.of_nat n).
Proof.
  revert y. induction n as [|n IH]; intros y.
  - simpl. rewrite Z.add_0_r. lia.
  - change (years_sum (S (S n)) y 0) with (years_sum (S n) (y + 1) (0 + year_days y)).
    rewrite years_sum_acc, IH. cbn [years_sum]. rewrite (years_sum_acc n (y + 1) (0 + _)).
    replace (y + Z.of_nat (S n)) with (y + 1 + Z.of_nat n) by lia. lia.
Qed.

Lemma year_start_next y : 1970 <= y → year_start (y + 1) = year_start y + year_days y.
Proof.
  intros Hy. unfold year_start. replace (Z.to_nat (y + 1 - 1970)) with (S (Z.to_nat (y - 1970))) by lia.
  rewrite years_sum_snoc. do 2 f_equal. lia.
Qed.

Lemma year_start_bounds y : 1970 <= y → 365 * (y - 1970) <= year_start y <= 366 * (y - 1970).
Proof.
  intros Hy. replace y with (1970 + Z.of_nat (Z.to_nat (y - 1970))) by lia. generalize (Z.to_nat (y - 1970)) as n. clear.
  induction n as [|n IH]; [done|]. replace (1970 + Z.of_nat (S n)) with (1970 + Z.of_nat n + 1) by lia.
  rewrite year_start_next by lia. pose proof (year_days_range (1970 + Z.of_nat n)). lia.
Qed.

(** The year loop finds the year of a day, in at most one round per 365 days. *)
Lemma year_loop_spec fuel days year :
  0 <= days → days < 365 * Z.of_nat fuel → 1970 <= year → year + days / 365 < 2 ^ 31 →
  ∃ d y, year_loop fuel days year = Some (d, y) ∧ year <= y <= year + days / 365 ∧ 0 <= d < year_days y ∧ year_start year + days = year_start y + d.
Proof.
  revert days year. induction fuel as [|fuel IH]; intros days year Hd Hf Hy Hmax; [lia|]. cbn [year_loop].
  pose proof (year_days_range year) as Hr. destruct (Z.leb_spec (year_days year) days).
  - assert (365 <= days) by lia. assert (days / 365 = (days - 365) / 365 + 1) as E.
    { replace days with (days - 365 + 1 * 365) at 1 by lia. rewrite Z.div_add; lia. }
    assert ((days - year_days year) / 365 <= (days - 365) / 365) by (apply Z.div_le_mono; lia).
    assert (0 <= (days - 365) / 365) by (apply Z.div_pos; lia).
    ints. destruct (IH (days - year_days year) (year + 1)) as (d & y & -> & Hy1 & Hd1 & He); [lia..|].
    exists d, y. split_and!; [reflexivity|lia..|]. rewrite year_start_next in He by lia. lia.
  - exists days, year. split_and!; try (done || lia). assert (0 <= days / 365) by (apply Z.div_pos; lia). lia.
Qed.

Lemma month_loop_spec ml days mon :
  Forall (λ n, 0 < n) ml → 0 <= days < foldr Z.add 0 ml →
  ∃ d k n, month_loop ml days mon = Some (d, mon + Z.of_nat k) ∧ ml !! k = Some n ∧ 0 <= d < n ∧ days = foldr Z.add 0 (take k ml) + d.
Proof.
  intros Hp. revert days mon. induction Hp as [|n ml Hn Hp IH]; intros days mon Hd; simpl in Hd; [lia|]. cbn [month_loop].
  destruct (Z.leb_spec n days).
  - destruct (IH (days - n) (mon + 1)) as (d & k & n' & -> & Hk & Hd' & He); [lia|].
    exists d, (S k), n'. split_and!; [do 2 f_equal; lia|done|lia|lia|simpl; lia].
  - exists days, 0%nat, n. split_and!; [do 2 f_equal; lia|done|lia|lia|simpl; lia].
Qed.

Lemma months_sum_take n ml days : (n <= length ml)%nat → months_sum n ml days = Some (days + foldr Z.add 0 (take n ml)).
Proof.
  revert ml days. induction n as [|n IH]; intros ml days Hl; [simpl; f_equal; lia|].
  destruct ml as [|k ml]; simpl in *; [lia|]. rewrite IH by lia. f_equal. lia.
Qed.

Lemma days_per_month_facts leap :
  Forall (λ n, 0 < n <= 31) (days_per_month leap) ∧ length (days_per_month leap) = 12%nat ∧
  foldr Z.add 0 (days_per_month leap) = if leap then 366 else 365.
Proof. by destruct leap; split_and!; repeat constructor. Qed.

(** The last day from the epoch on whose weekday [days + 4] fits an [int]. *)
Definition max_days : Z := 2 ^ 31 - 5.

(** The breakdown of a moment: the fields are valid and denote it. *)
Lemma convert_tm_spec t :
  0 <= t → t / 86400 <= max_days →
  ∃ r, convert_tm t = Some r ∧ valid_tm r ∧ tm_days r = t / 86400 ∧
    tm_sec r = t mod 60 ∧ tm_min r = t / 60 mod 60 ∧ tm_hour r = t / 3600 mod 24 ∧
    tm_wday r = (t / 86400 + 4) mod 7 ∧ tm_yday r = t / 86400 - year_start (tm_year r + 1900) ∧
    0 <= tm_yday r < year_days (tm_year r + 1900) ∧ tm_isdst r = 0 ∧ tm_year r < 2 ^ 31 - 1900.
Proof.
  intros Ht Hmax. unfold convert_tm, max_days in *. rewrite (proj2 (Z.ltb_ge t 0)) by done.
  assert (0 <= t / 60) by (apply Z.div_pos; lia). assert (0 <= t / 3600) by (apply Z.div_pos; lia).
  rewrite (Z.rem_mod_nonneg t 60), (Z.quot_div_nonneg t 60) by lia.
  rewrite (Z.rem_mod_nonneg (t / 60) 60), (Z.quot_div_nonneg (t / 60) 60), Z.div_div by lia. change (60 * 60) with 3600.
  rewrite (Z.rem_mod_nonneg (t / 3600) 24), (Z.quot_div_nonneg (t / 3600) 24), Z.div_div by lia. change (3600 * 24) with 86400.
  assert (0 <= t / 86400) as Hpos by (apply Z.div_pos; lia). remember (t / 86400) as days eqn:Edays.
  rewrite s32_small by range. ints. rewrite Z.rem_mod_nonneg by lia.
  destruct (year_loop_spec (S (Z.to_nat (days / 365))) days 1970) as (d & y & -> & Hy & Hd & He); [lia| |lia| |].
  { assert (0 <= days / 365) by (apply Z.div_pos; lia). rewrite Nat2Z.inj_succ, Z2Nat.id by lia.
    pose proof (Z.div_mod days 365 ltac:(lia)). pose proof (Z.mod_pos_bound days 365). lia. }
  { assert (days / 365 <= 2 ^ 31 / 365) by (apply Z.div_le_mono; lia). change (2 ^ 31 / 365) with 5883516 in *. lia. }
  cbn [mbind option_bind]. destruct (days_per_month_facts (is_leap y)) as (Hml & Hlen & Hsum).
  destruct (month_loop_spec (days_per_month (is_leap y)) d 0) as (md & k & n & -> & Hk & Hmd & Hdm).
  { eapply Forall_impl; [exact Hml|]. simpl. lia. }
  { rewrite Hsum. unfold year_days in Hd. destruct (is_leap y); lia. }
  cbn [mbind option_bind]. eexists. split; [reflexivity|]. cbn [tm_sec tm_min tm_hour tm_wday tm_yday tm_isdst tm_year].
  assert (k < 12)%nat by (rewrite <- Hlen; by eapply lookup_lt_Some).
  assert (days / 365 <= 2 ^ 31 / 365) as Hdy by (apply Z.div_le_mono; lia). change (2 ^ 31 / 365) with 5883516 in Hdy.
  change (year_start 1970) with 0 in He. replace (y - 1900 + 1900) with y by lia.
  split_and!; [|unfold tm_days, month_start|try (reflexivity || lia)..]; cbn [tm_year tm_mon tm_mday].
  - split; cbn [tm_sec tm_min tm_hour tm_mon tm_mday tm_year]; [apply Z.mod_pos_bound; lia..|lia| |lia].
    exists n. split; [|lia]. replace (y - 1900 + 1900) with y by lia. by rewrite Z.add_0_l, idx_nat.
  - replace (y - 1900 + 1900) with y by lia. rewrite Z.add_0_l, Nat2Z.id. lia.
Qed.

Lemma valid_mon_index t : valid_tm t → (Z.to_nat (tm_mon t) <= length (days_per_month (is_leap (tm_year t + 1900))))%nat.
Proof. intros [_ _ _ Hm _ _]. destruct (days_per_month_facts (is_leap (tm_year t + 1900))) as (_ & -> & _). lia. Qed.

(** The first days of the months of a year. *)
Lemma month_start_bounds y m n :
  0 <= m < 12 → (days_per_month (is_leap y)).[m] = Some n → 0 <= month_start y m ∧ month_start y m + n <= year_days y.
Proof.
  intros Hm. unfold month_start, year_days. rewrite <- (Z2Nat.id m) by lia. rewrite idx_nat, Nat2Z.id.
  assert (Z.to_nat m < 12)%nat as Hk by lia. revert Hk. generalize (Z.to_nat m) as k. clear Hm m. intros k Hk.
  destruct (is_leap y); do 12 (destruct k as [|k]; [cbn; intros [= <-]; lia|]); lia.
Qed.

Lemma valid_tm_days t : valid_tm t →
  year_start (tm_year t + 1900) <= tm_days t < year_start (tm_year t + 1900) + year_days (tm_year t + 1900) ∧ 0 <= tm_days t.
Proof.
  intros H. destruct (valid_mday t H) as (n & Hn & Hd). pose proof (valid_mon t H) as Hm. pose proof (valid_year t H) as Hy.
  destruct (month_start_bounds _ _ _ Hm Hn) as [H1 H2]. pose proof (year_start_bounds (tm_year t + 1900) ltac:(lia)).
  unfold tm_days. lia.
Qed.

(** The derived fields the code stores, and the seconds it returns. *)
Lemma tm_seconds_spec t :
  valid_tm t → tm_days t <= max_days →
  tm_seconds t = Some (mk_tm (tm_sec t) (tm_min t) (tm_hour t) (tm_mday t) (tm_mon t) (tm_year t) ((tm_days t + 4) mod 7) (tm_days t) 0,
    tm_days t * 86400 + tm_hour t * 3600 + tm_min t * 60 + tm_sec t).
Proof.
  intros H Hmax. pose proof (valid_tm_days t H) as [Hy Hpos]. pose proof (valid_year t H) as Hyear.
  pose proof (year_start_bounds (tm_year t + 1900) ltac:(lia)) as Hys. unfold max_days in Hmax.
  pose proof H as [Hs Hmi Hh Hmo (n & Hn & Hd) _].
  assert (n <= 31) as Hn31.
  { destruct (days_per_month_facts (is_leap (tm_year t + 1900))) as (Hf & _). unfold idx in Hn.
    destruct (tm_mon t <? 0); [done|]. eapply Forall_lookup_1 in Hf; [|exact Hn]. simpl in Hf. lia. }
  unfold tm_seconds. ints. rewrite months_sum_take by (by apply valid_mon_index). cbn [mbind option_bind]. ints.
  change (years_sum (Z.to_nat (tm_year t + 1900 - 1970)) 1970 0) with (year_start (tm_year t + 1900)).
  change (foldr Z.add 0 (take (Z.to_nat (tm_mon t)) _)) with (month_start (tm_year t + 1900) (tm_mon t)).
  change (year_start (tm_year t + 1900) + month_start (tm_year t + 1900) (tm_mon t) + (tm_mday t - 1)) with (tm_days t).
  ints. rewrite Z.rem_mod_nonneg by lia. pose proof (Z.mod_pos_bound (tm_days t + 4) 7 ltac:(lia)).
  rewrite (s32_small (_ mod 7)), (s32_small (tm_days t)) by range. reflexivity.
Qed.

(** The seconds of a day from its hour, minute and second. *)
Lemma seconds_split t : t = t / 86400 * 86400 + t / 3600 mod 24 * 3600 + t / 60 mod 60 * 60 + t mod 60.
Proof.
  assert (t / 3600 = t / 60 / 60) as E1 by (rewrite Z.div_div by lia; reflexivity).
  assert (t / 86400 = t / 60 / 60 / 24) as E2 by (rewrite !Z.div_div by lia; reflexivity). rewrite E1, E2.
  pose proof (Z.div_mod t 60 ltac:(lia)). pose proof (Z.div_mod (t / 60) 60 ltac:(lia)). pose proof (Z.div_mod (t / 60 / 60) 24 ltac:(lia)). lia.
Qed.

(** A day lies in one month of one year. *)
Lemma year_start_le a b : 1970 <= a → a <= b → year_start a <= year_start b.
Proof.
  intros Ha Hab. replace b with (a + Z.of_nat (Z.to_nat (b - a))) by lia. generalize (Z.to_nat (b - a)) as n. clear Hab b.
  induction n as [|n IH]; [rewrite Z.add_0_r; lia|]. replace (a + Z.of_nat (S n)) with (a + Z.of_nat n + 1) by lia.
  rewrite year_start_next by lia. pose proof (year_days_range (a + Z.of_nat n)). lia.
Qed.

Lemma month_start_next y m n :
  0 <= m < 12 → (days_per_month (is_leap y)).[m] = Some n → month_start y (m + 1) = month_start y m + n.
Proof.
  intros Hm. unfold month_start. rewrite <- (Z2Nat.id m) by lia. rewrite idx_nat.
  replace (Z.of_nat (Z.to_nat m) + 1) with (Z.of_nat (S (Z.to_nat m))) by lia. rewrite !Nat2Z.id.
  assert (Z.to_nat m < 12)%nat as Hk by lia. revert Hk. generalize (Z.to_nat m) as k. clear Hm m. intros k Hk.
  destruct (is_leap y); do 12 (destruct k as [|k]; [cbn; intros [= <-]; lia|]); lia.
Qed.

Lemma month_start_le y a b : 0 <= a → a <= b → month_start y a <= month_start y b.
Proof.
  intros Ha Hab. unfold month_start. assert (Z.to_nat a <= Z.to_nat b)%nat as H by lia. revert H.
  destruct (days_per_month_facts (is_leap y)) as (Hf & _). revert Hf. generalize (days_per_month (is_leap y)) as ml.
  generalize (Z.to_nat a) as i, (Z.to_nat b) as j. clear. intros i j ml Hf. revert i j.
  induction Hf as [|n ml Hn Hf IH]; intros i j H; [by rewrite !take_nil|].
  destruct i, j; simpl in *; try lia; [|specialize (IH i j); lia]. specialize (IH 0%nat j). simpl in IH. lia.
Qed.

Lemma tm_days_inj a b : valid_tm a → valid_tm b → tm_days a = tm_days b →
  tm_year a = tm_year b ∧ tm_mon a = tm_mon b ∧ tm_mday a = tm_mday b.
Proof.
  intros Ha Hb E. pose proof (valid_tm_days a Ha) as [Hya _]. pose proof (valid_tm_days b Hb) as [Hyb _].
  pose proof (valid_year a Ha) as Hay. pose proof (valid_year b Hb) as Hby.
  rewrite <- !year_start_next in * by lia.
  assert (tm_year a = tm_year b) as Ey.
  { destruct (Z.lt_trichotomy (tm_year a) (tm_year b)) as [H|[H|H]]; [|done|].
    - pose proof (year_start_le (tm_year a + 1900 + 1) (tm_year b + 1900)). lia.
    - pose proof (year_start_le (tm_year b + 1900 + 1) (tm_year a + 1900)). lia. }
  unfold tm_days in E. rewrite Ey in E. split; [done|].
  destruct (valid_mday a Ha) as (na & Hna & Hda). destruct (valid_mday b Hb) as (nb & Hnb & Hdb).
  pose proof (valid_mon a Ha) as Hma. pose proof (valid_mon b Hb) as Hmb. rewrite Ey in Hna.
  pose proof (month_start_next _ _ _ Hma Hna) as H1. pose proof (month_start_next _ _ _ Hmb Hnb) as H2.
  assert (tm_mon a = tm_mon b) as Em.
  { destruct (Z.lt_trichotomy (tm_mon a) (tm_mon b)) as [H|[H|H]]; [|done|].
    - pose proof (month_start_le (tm_year b + 1900) (tm_mon a + 1) (tm_mon b)). lia.
    - pose proof (month_start_le (tm_year b + 1900) (tm_mon b + 1) (tm_mon a)). lia. }
  rewrite Em in E. split; [done|lia].
Qed.

(** The seconds a valid structure denotes break down to the same fields. *)
Lemma convert_tm_seconds t :
  valid_tm t → tm_days t <= max_days →
  convert_tm (tm_days t * 86400 + tm_hour t * 3600 + tm_min t * 60 + tm_sec t) =
    Some (mk_tm (tm_sec t) (tm_min t) (tm_hour t) (tm_mday t) (tm_mon t) (tm_year t)
            ((tm_days t + 4) mod 7) (tm_days t - year_start (tm_year t + 1900)) 0).
Proof.
  intros H Hmax. pose proof (valid_tm_days t H) as [_ Hpos]. pose proof H as [Hs Hm Hh _ _ _].
  remember (tm_days t * 86400 + tm_hour t * 3600 + tm_min t * 60 + tm_sec t) as s eqn:Es.
  assert (s / 86400 = tm_days t) as E1 by (symmetry; apply Z.div_unique with (tm_hour t * 3600 + tm_min t * 60 + tm_sec t); lia).
  assert (s / 3600 = tm_days t * 24 + tm_hour t) as E2 by (symmetry; apply Z.div_unique with (tm_min t * 60 + tm_sec t); lia).
  assert (s / 60 = (tm_days t * 24 + tm_hour t) * 60 + tm_min t) as E3 by (symmetry; apply Z.div_unique with (tm_sec t); lia).
  destruct (convert_tm_spec s) as (r & Er & Hr & Hd & Hsec & Hmin & Hhour & Hw & Hyd & _ & Hdst & _); [lia|lia|].
  rewrite Er. rewrite E1 in *. destruct (tm_days_inj r t Hr H Hd) as (Ey & Emo & Emd). destruct r. cbn in *. subst.
  rewrite E2, E3 in *. do 2 f_equal.
  - symmetry. apply Z.mod_unique_pos with ((tm_days t * 24 + tm_hour t) * 60 + tm_min t); lia.
  - symmetry. apply Z.mod_unique_pos with (tm_days t * 24 + tm_hour t); lia.
  - symmetry. apply Z.mod_unique_pos with (tm_days t); lia.
Qed.

Lemma mktime_done tzoff t r a : tm_seconds t = Some (r, a) → is_s64 (a - tzoff) → mktime tzoff (Some t) = Some (Some r, a - tzoff).
Proof. intros E H. unfold mktime. rewrite E. cbn [mbind option_bind]. by rewrite int64_ok. Qed.

Lemma localtime_done tzoff now a r old :
  convert_tm a = Some r → is_s64 a → localtime_r tzoff now (Some (a - tzoff)) (Some old) = Some (Some r).
Proof.
  intros E H. unfold localtime_r. replace (a - tzoff + tzoff) with a by lia. rewrite int64_ok by done. cbn [mbind option_bind]. by rewrite E.
Qed.

(** C37: breaking a moment down and converting it back gives the moment: for every
    time from the epoch up to the day 2^31 - 5, the last one to which the code can
    add 4 in an [int] for the day of the week, [gmtime_r] returns, its fields denote
    a real date, and [timegm] of them is the time. *)
Theorem gmtime_timegm_roundtrip now t old :
  0 <= t → t / 86400 <= max_days →
  ∃ r r', gmtime_r now (Some t) (Some old) = Some (Some r) ∧ valid_tm r ∧
    tm_wday r = (t / 86400 + 4) mod 7 ∧ 0 <= tm_yday r < year_days (tm_year r + 1900) ∧
    timegm (Some r) = Some (Some r', t).
Proof.
  intros Ht Hmax. destruct (convert_tm_spec t Ht Hmax) as (r & Er & Hr & Hd & Hsec & Hmin & Hhour & Hw & Hyd & Hyr & _).
  pose proof (tm_seconds_spec r Hr ltac:(lia)) as Es. exists r. eexists. unfold gmtime_r, timegm. rewrite Er, Es.
  cbn [mbind option_bind]. split_and!; [reflexivity|exact Hr|exact Hw|lia..|].
  rewrite Hd, Hsec, Hmin, Hhour, <- seconds_split. reflexivity.
Qed.

(** The last second of 2024, a leap year. *)
(** On the four days after that the sum overflows, although the day fits. *)
Lemma convert_tm_overflow t : 2 ^ 31 - 4 <= t / 86400 < 2 ^ 31 → convert_tm t = None.
Proof.
  intros Ht. assert (0 <= t) by (pose proof (Z.mul_div_le t 86400 ltac:(lia)); lia).
  unfold convert_tm. rewrite (proj2 (Z.ltb_ge t 0)) by lia. cbv zeta.
  assert (Z.quot (Z.quot (Z.quot t 60) 60) 24 = t / 86400) as ->.
  { rewrite !Z.quot_quot by lia. rewrite Z.quot_div_nonneg by lia. done. }
  rewrite s32_small by (unfold is_s32; lia). unfold int32. by rewrite (proj2 (Z.leb_le _ _)), (proj2 (Z.ltb_ge _ _)) by lia.
Qed.

Lemma gmtime_timegm_roundtrip_witness :
  ∃ r r', gmtime_r 0 (Some 1735689599) (Some (mk_tm 0 0 0 0 0 0 0 0 0)) = Some (Some r) ∧ valid_tm r ∧
    tm_wday r = (1735689599 / 86400 + 4) mod 7 ∧ 0 <= tm_yday r < year_days (tm_year r + 1900) ∧
    timegm (Some r) = Some (Some r', 1735689599).
Proof.
  apply (gmtime_timegm_roundtrip 0 1735689599 (mk_tm 0 0 0 0 0 0 0 0 0)); [lia|].
  vm_compute. discriminate.
Defined.

(** Local time is the inverse in the other order: [mktime] of the fields of a
    real date, and [localtime_r] of the time it returns, give back the fields,
    with the weekday and the day of the year filled in. *)
Theorem mktime_localtime_roundtrip tzoff now t old :
  valid_tm t → tm_days t <= max_days → is_s32 tzoff →
  ∃ r a, mktime tzoff (Some t) = Some (Some r, a) ∧
    localtime_r tzoff now (Some a) (Some old) =
      Some (Some (mk_tm (tm_sec t) (tm_min t) (tm_hour t) (tm_mday t) (tm_mon t) (tm_year t)
                   ((tm_days t + 4) mod 7) (tm_days t - year_start (tm_year t + 1900)) 0)).
Proof.
  intros H Hmax Hz. pose proof (valid_tm_days t H) as [_ Hpos]. pose proof H as [Hs Hm Hh _ _ _].
  assert (max_days = 2 ^ 31 - 5) by reflexivity. unfold is_s32 in Hz.
  pose proof (tm_seconds_spec t H Hmax) as E1. pose proof (convert_tm_seconds t H Hmax) as E2.
  eexists; eexists; split; [apply (mktime_done _ _ _ _ E1)|apply (localtime_done _ _ _ _ _ E2)]; unfold is_s64; lia.
Qed.

(** Noon on 29 February 2000, one hour east. *)
Lemma mktime_localtime_roundtrip_witness :
  ∃ r a, mktime 3600 (Some (mk_tm 0 0 12 29 1 100 0 0 0)) = Some (Some r, a) ∧
    localtime_r 3600 0 (Some a) (Some (mk_tm 0 0 0 0 0 0 0 0 0)) =
      Some (Some (mk_tm 0 0 12 29 1 100 ((tm_days (mk_tm 0 0 12 29 1 100 0 0 0) + 4) mod 7)
                   (tm_days (mk_tm 0 0 12 29 1 100 0 0 0) - year_start (100 + 1900)) 0)).
Proof.
  apply (mktime_localtime_roundtrip 3600 0 (mk_tm 0 0 12 29 1 100 0 0 0) (mk_tm 0 0 0 0 0 0 0 0 0)).
  - split; cbn; [lia..| |lia]. exists 29. split; [reflexivity|lia].
  - vm_compute. discriminate.
  - range.
Defined.

(** [mktime] stores the days since the epoch in [tm_yday], not the day of the
    year: on 1 January 1971 it is 365. *)
Lemma timegm_yday_counts_from_epoch :
  timegm (Some (mk_tm 0 0 0 1 0 71 0 0 0)) = Some (Some (mk_tm 0 0 0 1 0 71 5 365 0), 31536000).
Proof. reflexivity. Qed.

(** An offset written without a colon is read as hours: "+0530". *)
Lemma parse_offset_without_colon :
  parse_offset (Some [43; 48; 53; 51; 48; 0]) = Some (530 * 3600) ∧
  parse_offset (Some [43; 48; 53; 58; 51; 48; 0]) = Some (5 * 3600 + 30 * 60).
Proof. split; reflexivity. Qed.
