(* ===== verification/LibTimeText.v ===== *)
(** * Broken-down time and text: example_libc/src/strftime.c, strptime.c

    [strftime] renders a structure into a bounded buffer and [strptime] reads one
    back.  [None] is an access outside a buffer or an undefined operation. *)

From S2P Require Import Prelude CString LibBase LibTime.

Local Open Scope Z_scope.

(** ** strftime *)

Definition wd_short : list (list Z) :=
  [[83; 117; 110]; [77; 111; 110]; [84; 117; 101]; [87; 101; 100]; [84; 104; 117]; [70; 114; 105]; [83; 97; 116]].
Definition mon_short : list (list Z) :=
  [[74; 97; 110]; [70; 101; 98]; [77; 97; 114]; [65; 112; 114]; [77; 97; 121]; [74; 117; 110];
   [74; 117; 108]; [65; 117; 103]; [83; 101; 112]; [79; 99; 116]; [78; 111; 118]; [68; 101; 99]].

(** The digits from the last one on, at most [n]; [do ... while (val && pos < n)]. *)
Fixpoint fmt_digits (n : nat) (val : Z) : list Z :=
  match n with
  | O => []
  | S n => (48 + val mod 10) :: (if val / 10 =? 0 then [] else fmt_digits n (val / 10))
  end.

(** The characters [fmt_int] stores in [buf]; there are [16] in [tmp]. *)
Definition fmt_int (size val width : Z) : option (list Z) :=
  val ← (if val <? 0 then int32 (- val) else Some val);
  let tmp := fmt_digits 16 val in
  let tmp := tmp ++ replicate (Z.to_nat (Z.min width 16) - length tmp) 48 in
  let pos := Z.min (Z.of_nat (length tmp)) size in
  Some (rev (take (Z.to_nat pos) tmp)).

(** A step of the rendering: [Full] is [return 0] with the buffer as it is,
    [Put] goes on at a position. *)
Inductive rendering :=
  | Full (s : list Z)
  | Put (s : list Z) (pos : Z).

(** [if (pos + len >= max) return 0; memcpy(s + pos, t, len); pos += len;] *)
Definition emit (max : Z) (t : list Z) (r : rendering) : option rendering :=
  match r with
  | Full s => Some (Full s)
  | Put s pos =>
      let len := Z.of_nat (length t) in
      if max <=? u64 (pos + len) then Some (Full s)
      else s ← blit s pos t; Some (Put s (pos + len))
  end.

Definition emit_int (max val width : Z) (r : rendering) : option rendering :=
  buf ← fmt_int 16 val width; emit max buf r.

(** The [switch] on the conversion character. *)
Definition convert (max c : Z) (t : tm) (r : rendering) : option rendering :=
  if c =? 37 then emit max [37] r
  else if c =? 97 then
    emit max (if (0 <=? tm_wday t) && (tm_wday t <? 7) then default [] (wd_short.[tm_wday t]) else []) r
  else if c =? 98 then
    emit max (if (0 <=? tm_mon t) && (tm_mon t <? 12) then default [] (mon_short.[tm_mon t]) else []) r
  else if c =? 89 then y ← int32 (tm_year t + 1900); emit_int max y 4 r
  else if c =? 109 then m ← int32 (tm_mon t + 1); emit_int max m 2 r
  else if c =? 100 then emit_int max (tm_mday t) 2 r
  else if c =? 72 then emit_int max (tm_hour t) 2 r
  else if c =? 77 then emit_int max (tm_min t) 2 r
  else if c =? 83 then emit_int max (tm_sec t) 2 r
  else if c =? 90 then emit max [85; 84; 67] r
  else if c =? 122 then emit max [43; 48; 48; 48; 48] r
  else if c =? 119 then emit_int max (tm_wday t) 1 r
  else if c =? 117 then emit_int max (if tm_wday t =? 0 then 7 else tm_wday t) 1 r
  else r ← emit max [37] r; emit max [c] r.

(** The loop over the format, which stops at the first [Full]. *)
Fixpoint strftime_loop (max : Z) (t : tm) (format : list Z) (r : rendering) : option rendering :=
  match r with
  | Full _ => Some r
  | Put _ _ =>
      match format with
      | [] => None
      | p :: format =>
          if p =? 0 then Some r
          else if negb (p =? 37) then r ← emit max [p] r; strftime_loop max t format r
          else
            match format with
            | [] => None
            | c :: format => if c =? 0 then Some r else r ← convert max c t r; strftime_loop max t format r
            end
      end
  end.

(** The buffer afterwards and the length returned; a null pointer is [None]. *)
Definition strftime (s : option (list Z)) (max : Z) (format : option (list Z)) (t : option tm) : option (option (list Z) * Z) :=
  match s, format, t with
  | Some s, Some format, Some t =>
      if max =? 0 then Some (Some s, 0) else
      r ← strftime_loop max t format (Put s 0);
      match r with
      | Full s => Some (Some s, 0)
      | Put s pos => if max <=? pos then Some (Some s, 0) else s ← s.[pos <- 0]; Some (Some s, pos)
      end
  | _, _, _ => Some (s, 0)
  end.

(** ** strptime *)

(** The digits read by [parse_num]: the value and the rest, or [-1]. *)
Fixpoint parse_digits (width : nat) (s : list Z) (val : Z) : option (Z * list Z) :=
  match width with
  | O => Some (val, s)
  | S width =>
      c ← head s;
      if c =? 0 then Some (-1, s)
      else if (c <? 48) || (57 <? c) then Some (-1, s)
      else v10 ← int32 (val * 10); v ← int32 (v10 + (c - 48)); parse_digits width (tail s) v
  end.

(** On failure the pointer is left where it was. *)
Definition parse_num (sp : list Z) (width : Z) : option (Z * list Z) :=
  r ← parse_digits (Z.to_nat width) sp 0;
  let '(v, s) := (r : Z * list Z) in
  if v =? -1 then Some (-1, sp) else Some (v, s).

(** A character of the text that has to be [c]. *)
Definition match_char (c : Z) (p : list Z) : option (option (list Z)) :=
  x ← head p;
  Some (if negb (x =? c) then None else Some (if negb (x =? 0) then tail p else p)).

Definition set_tm_year (v : Z) (t : tm) := mk_tm (tm_sec t) (tm_min t) (tm_hour t) (tm_mday t) (tm_mon t) v (tm_wday t) (tm_yday t) (tm_isdst t).
Definition set_tm_mon (v : Z) (t : tm) := mk_tm (tm_sec t) (tm_min t) (tm_hour t) (tm_mday t) v (tm_year t) (tm_wday t) (tm_yday t) (tm_isdst t).
Definition set_tm_mday (v : Z) (t : tm) := mk_tm (tm_sec t) (tm_min t) (tm_hour t) v (tm_mon t) (tm_year t) (tm_wday t) (tm_yday t) (tm_isdst t).
Definition set_tm_hour (v : Z) (t : tm) := mk_tm (tm_sec t) (tm_min t) v (tm_mday t) (tm_mon t) (tm_year t) (tm_wday t) (tm_yday t) (tm_isdst t).
Definition set_tm_min (v : Z) (t : tm) := mk_tm (tm_sec t) v (tm_hour t) (tm_mday t) (tm_mon t) (tm_year t) (tm_wday t) (tm_yday t) (tm_isdst t).
Definition set_tm_sec (v : Z) (t : tm) := mk_tm v (tm_min t) (tm_hour t) (tm_mday t) (tm_mon t) (tm_year t) (tm_wday t) (tm_yday t) (tm_isdst t).

(** A numeric conversion: the number, its range, and the field it sets. *)
Definition parse_field (width lo hi : Z) (set : Z → tm → tm) (p : list Z) (t : tm) : option (option (list Z) * tm) :=
  r ← parse_num p width;
  let '(v, p) := (r : Z * list Z) in
  Some (if (v <? lo) || (hi <? v) then (None, t) else (Some p, set v t)).

(** The [switch] on the conversion character: the rest of the text, or null.  A
    year has no upper limit. *)
Definition parse_conversion (c : Z) (p : list Z) (t : tm) : option (option (list Z) * tm) :=
  if c =? 37 then r ← match_char 37 p; Some (r, t)
  else if c =? 89 then parse_field 4 0 (2 ^ 31 - 1) (λ v, set_tm_year (v - 1900)) p t
  else if c =? 109 then parse_field 2 1 12 (λ v, set_tm_mon (v - 1)) p t
  else if c =? 100 then parse_field 2 1 31 set_tm_mday p t
  else if c =? 72 then parse_field 2 0 23 set_tm_hour p t
  else if c =? 77 then parse_field 2 0 59 set_tm_min p t
  else if c =? 83 then parse_field 2 0 60 set_tm_sec p t
  else Some (None, t).

Fixpoint strptime_loop (format p : list Z) (t : tm) : option (option (list Z) * tm) :=
  match format with
  | [] => None
  | f :: format =>
      if f =? 0 then Some (Some p, t)
      else if negb (f =? 37) then
        r ← match_char f p;
        match r with None => Some (None, t) | Some p => strptime_loop format p t end
      else
        match format with
        | [] => None
        | c :: format =>
            if c =? 0 then Some (None, t) else
            r ← parse_conversion c p t;
            match r with (None, t) => Some (None, t) | (Some p, t) => strptime_loop format p t end
        end
  end.

Definition strptime (s format : option (list Z)) (t : option tm) : option (option (list Z) * option tm) :=
  match s, format, t with
  | Some s, Some format, Some t => r ← strptime_loop format s t; Some (fst r, Some (snd r))
  | _, _, _ => Some (None, t)
  end.

(** ** What a format denotes *)

(** The parts of a format. *)
Inductive item :=
  | Literal (c : Z)
  | Percent | Weekday | MonthName | Year | Month | Day | Hour | Minute | Second
  | Zone | ZoneOffset | WeekdayNumber | WeekdayNumberIso.

Definition item_format (i : item) : list Z :=
  match i with
  | Literal c => [c]
  | Percent => [37; 37] | Weekday => [37; 97] | MonthName => [37; 98] | Year => [37; 89] | Month => [37; 109]
  | Day => [37; 100] | Hour => [37; 72] | Minute => [37; 77] | Second => [37; 83]
  | Zone => [37; 90] | ZoneOffset => [37; 122] | WeekdayNumber => [37; 119] | WeekdayNumberIso => [37; 117]
  end.

Definition two_digits (v : Z) : list Z := [48 + v / 10; 48 + v mod 10].
Definition four_digits (v : Z) : list Z := [48 + v / 1000; 48 + v / 100 mod 10; 48 + v / 10 mod 10; 48 + v mod 10].

Definition item_text (t : tm) (i : item) : list Z :=
  match i with
  | Literal c => [c]
  | Percent => codes "%"
  | Weekday => nth (Z.to_nat (tm_wday t)) (map codes ["Sun"; "Mon"; "Tue"; "Wed"; "Thu"; "Fri"; "Sat"]%string) []
  | MonthName => nth (Z.to_nat (tm_mon t)) (map codes ["Jan"; "Feb"; "Mar"; "Apr"; "May"; "Jun"; "Jul"; "Aug"; "Sep"; "Oct"; "Nov"; "Dec"]%string) []
  | Year => four_digits (tm_year t + 1900)
  | Month => two_digits (tm_mon t + 1)
  | Day => two_digits (tm_mday t)
  | Hour => two_digits (tm_hour t)
  | Minute => two_digits (tm_min t)
  | Second => two_digits (tm_sec t)
  | Zone => codes "UTC"
  | ZoneOffset => codes "+0000"
  | WeekdayNumber => [48 + tm_wday t]
  | WeekdayNumberIso => [48 + (if decide (tm_wday t = 0) then 7 else tm_wday t)]
  end.

Definition item_ok (i : item) : Prop := match i with Literal c => c ≠ 0 ∧ c ≠ 37 | _ => True end.

(** Fields that have the usual number of digits. *)
Record printable (t : tm) : Prop := {
  printable_year : 0 <= tm_year t + 1900 <= 9999;
  printable_mon : 0 <= tm_mon t < 12;
  printable_mday : 1 <= tm_mday t <= 31;
  printable_hour : 0 <= tm_hour t <= 23;
  printable_min : 0 <= tm_min t <= 59;
  printable_sec : 0 <= tm_sec t <= 60;
  printable_wday : 0 <= tm_wday t < 7 }.

Lemma fmt_int_two v : 0 <= v < 100 → fmt_int 16 v 2 = Some (two_digits v).
Proof. intros H. apply (below (λ v, fmt_int 16 v 2 = Some (two_digits v)) 100); [vm_compute; reflexivity|exact H]. Qed.

Lemma fmt_digits_S n val : fmt_digits (S n) val = (48 + val mod 10) :: (if val / 10 =? 0 then [] else fmt_digits n (val / 10)).
Proof. done. Qed.

Lemma fmt_int_four v : 0 <= v < 10000 → fmt_int 16 v 4 = Some (four_digits v).
Proof.
  intros H. unfold fmt_int, four_digits. rewrite (proj2 (Z.ltb_ge v 0)) by lia. cbn [mbind option_bind].
  replace (v / 1000) with (v / 10 / 10 / 10) by (rewrite !Z.div_div by lia; f_equal; lia).
  replace (v / 100) with (v / 10 / 10) by (rewrite !Z.div_div by lia; f_equal; lia).
  assert (v / 10 / 10 / 10 / 10 = 0) as E4 by (rewrite !Z.div_div by lia; apply Z.div_small; lia).
  do 4 rewrite fmt_digits_S. rewrite E4. change (0 =? 0) with true.
  assert (v / 10 / 10 / 10 mod 10 = v / 10 / 10 / 10) as -> by (apply Z.mod_small; Z.to_euclidean_division_equations; lia).
  destruct (Z.eqb_spec (v / 10) 0) as [E1|_]; [rewrite E1; reflexivity|].
  destruct (Z.eqb_spec (v / 10 / 10) 0) as [E2|_]; [rewrite E2; reflexivity|].
  destruct (Z.eqb_spec (v / 10 / 10 / 10) 0) as [E3|_]; [rewrite E3; reflexivity|]. reflexivity.
Qed.

Lemma fmt_int_one v : 0 <= v < 10 → fmt_int 16 v 1 = Some [48 + v].
Proof. intros H. apply (below (λ v, fmt_int 16 v 1 = Some [48 + v]) 10); [vm_compute; reflexivity|exact H]. Qed.

(** A conversion writes the text of its item. *)
Lemma convert_item max i c t r :
  item_format i = [37; c] → printable t → convert max c t r = emit max (item_text t i) r.
Proof.
  intros Hi [Hy Hmo Hd Hh Hmi Hs Hw]. unfold convert.
  destruct i; simplify_eq/=; unfold emit_int; ints;
    rewrite ?fmt_int_two, ?fmt_int_four, ?fmt_int_one by lia; try reflexivity.
  - rewrite (proj2 (Z.leb_le _ _)), (proj2 (Z.ltb_lt _ _)) by lia. cbn [andb]. f_equal. rewrite <- (Z2Nat.id (tm_wday t)) at 1 by lia.
    rewrite idx_nat. assert (Z.to_nat (tm_wday t) < 7)%nat as Hk by lia. revert Hk. generalize (Z.to_nat (tm_wday t)) as k. intros k Hk.
    do 7 (destruct k as [|k]; [reflexivity|]). lia.
  - rewrite (proj2 (Z.leb_le _ _)), (proj2 (Z.ltb_lt _ _)) by lia. cbn [andb]. f_equal. rewrite <- (Z2Nat.id (tm_mon t)) at 1 by lia.
    rewrite idx_nat. assert (Z.to_nat (tm_mon t) < 12)%nat as Hk by lia. revert Hk. generalize (Z.to_nat (tm_mon t)) as k. intros k Hk.
    do 12 (destruct k as [|k]; [reflexivity|]). lia.
  - destruct (Z.eqb_spec (tm_wday t) 0) as [E|E]; [rewrite decide_True by done|rewrite decide_False by done]; cbn [mbind option_bind];
      rewrite fmt_int_one by lia; reflexivity.
Qed.

(** ** Correctness of strftime *)

(** Writing a text after [pre] in a buffer of [max] characters. *)
Lemma emit_spec max pre rest t :
  Z.of_nat (length (pre ++ rest)) = max → max < 2 ^ 63 → Z.of_nat (length t) < 2 ^ 63 →
  emit max t (Put (pre ++ rest) (Z.of_nat (length pre))) = Some
    (if decide (Z.of_nat (length (pre ++ t)) < max) then Put ((pre ++ t) ++ drop (length t) rest) (Z.of_nat (length (pre ++ t)))
     else Full (pre ++ rest)).
Proof.
  intros Hmax Hm Ht. unfold emit. rewrite !length_app in *. rewrite u64_small by range. case_decide.
  - rewrite (proj2 (Z.leb_gt _ _)) by lia. rewrite <- (take_drop (length t) rest) at 1.
    rewrite blit_app by (rewrite length_take; lia). cbn [mbind option_bind]. rewrite <- app_assoc. do 2 f_equal. lia.
  - rewrite (proj2 (Z.leb_le _ _)) by lia. done.
Qed.

Definition items_text (t : tm) (its : list item) : list Z := concat (map (item_text t) its).
Definition items_format (its : list item) : list Z := concat (map item_format its) ++ [0].

Lemma item_text_length t i : printable t → (1 <= length (item_text t i) <= 5)%nat.
Proof.
  intros [_ Hmo _ _ _ _ Hw]. destruct i; try (simpl; lia); unfold item_text.
  - assert (Z.to_nat (tm_wday t) < 7)%nat as Hk by lia. revert Hk. generalize (Z.to_nat (tm_wday t)) as k. intros k Hk.
    do 7 (destruct k as [|k]; [simpl; lia|]). lia.
  - assert (Z.to_nat (tm_mon t) < 12)%nat as Hk by lia. revert Hk. generalize (Z.to_nat (tm_mon t)) as k. intros k Hk.
    do 12 (destruct k as [|k]; [simpl; lia|]). lia.
Qed.

(** One item of the format is one [emit]. *)
Lemma strftime_loop_item max t i format s pos :
  printable t → item_ok i →
  strftime_loop max t (item_format i ++ format) (Put s pos) = r ← emit max (item_text t i) (Put s pos); strftime_loop max t format r.
Proof.
  intros Ht Hi. destruct i as [c| | | | | | | | | | | | |];
    [|match goal with |- context [item_format ?i] => rewrite <- (convert_item max i _ t _ eq_refl Ht); reflexivity end..].
  destruct Hi as [Hc0 Hc]. cbn [item_format app strftime_loop item_text].
  by rewrite (proj2 (Z.eqb_neq c 0)), (proj2 (Z.eqb_neq c 37)) by done.
Qed.

Lemma strftime_loop_full max t format s : strftime_loop max t format (Full s) = Some (Full s).
Proof. by destruct format. Qed.

Lemma strftime_loop_spec max t its pre rest :
  printable t → Forall item_ok its → Z.of_nat (length (pre ++ rest)) = max → max < 2 ^ 63 → Z.of_nat (length pre) < max →
  let text := items_text t its in
  if decide (Z.of_nat (length (pre ++ text)) < max)
  then strftime_loop max t (items_format its) (Put (pre ++ rest) (Z.of_nat (length pre))) =
    Some (Put ((pre ++ text) ++ drop (length text) rest) (Z.of_nat (length (pre ++ text))))
  else ∃ s, strftime_loop max t (items_format its) (Put (pre ++ rest) (Z.of_nat (length pre))) = Some (Full s) ∧ Z.of_nat (length s) = max.
Proof.
  intros Ht His. revert pre rest. induction His as [|i its Hi His IH]; intros pre rest Hl Hmax Hpre text.
  - subst text. unfold items_text. simpl concat. rewrite app_nil_r, decide_True by done. reflexivity.
  - pose proof (item_text_length t i Ht) as Hlen.
    assert (text = item_text t i ++ items_text t its) as Etext by done. clearbody text. subst text.
    change (items_format (i :: its)) with ((item_format i ++ concat (map item_format its)) ++ [0]). rewrite <- app_assoc.
    change (concat (map item_format its) ++ [0]) with (items_format its).
    rewrite strftime_loop_item, emit_spec by (done || lia). cbn [mbind option_bind]. rewrite app_assoc.
    destruct (decide (Z.of_nat (length (pre ++ item_text t i)) < max)) as [Hfit|Hfit]; cycle 1.
    { rewrite decide_False by (rewrite !length_app in *; lia). rewrite strftime_loop_full. exists (pre ++ rest). done. }
    specialize (IH (pre ++ item_text t i) (drop (length (item_text t i)) rest)).
    assert (Z.of_nat (length ((pre ++ item_text t i) ++ drop (length (item_text t i)) rest)) = max) as Hl'
      by (rewrite !length_app, length_drop in *; lia).
    specialize (IH Hl' Hmax Hfit). cbn zeta in IH. rewrite (length_app (item_text t i)). rewrite drop_drop in IH. exact IH.
Qed.

(** The buffer after a text and its terminator. *)
Lemma strftime_spec buf t its :
  printable t → Forall item_ok its → 0 < Z.of_nat (length buf) < 2 ^ 63 →
  let max := Z.of_nat (length buf) in
  let text := items_text t its in
  if decide (Z.of_nat (length text) < max)
  then strftime (Some buf) max (Some (items_format its)) (Some t) = Some (Some (text ++ 0 :: drop (S (length text)) buf), Z.of_nat (length text))
  else ∃ buf', strftime (Some buf) max (Some (items_format its)) (Some t) = Some (Some buf', 0) ∧ length buf' = length buf.
Proof.
  intros Ht His Hbuf max text. unfold strftime. rewrite (proj2 (Z.eqb_neq max 0)) by lia.
  pose proof (strftime_loop_spec max t its [] buf Ht His eq_refl ltac:(lia) ltac:(simpl; lia)) as H. cbn [app length] in H.
  change (items_text t its) with text in H. change (Z.of_nat 0) with 0 in H. case_decide as Hfit.
  - rewrite H. cbn [mbind option_bind]. rewrite (proj2 (Z.leb_gt _ _)) by lia.
    destruct (drop (length text) buf) as [|x tl] eqn:Ed.
    { apply (f_equal length) in Ed. rewrite length_drop in Ed. simpl in Ed. lia. }
    rewrite upd_app. cbn [mbind option_bind]. do 4 f_equal.
    replace (S (length text)) with (length text + 1)%nat by lia. rewrite <- drop_drop, Ed. done.
  - destruct H as (s & -> & Hs). exists s. cbn [mbind option_bind]. split; [done|lia].
Qed.

(** ** Reading back *)

Definition parseable (i : item) : Prop :=
  match i with
  | Literal c => c ≠ 0 ∧ c ≠ 37
  | Percent | Year | Month | Day | Hour | Minute | Second => True
  | _ => False
  end.

(** The field an item sets, from the structure that was rendered. *)
Definition item_set (t : tm) (i : item) (a : tm) : tm :=
  match i with
  | Year => set_tm_year (tm_year t) a
  | Month => set_tm_mon (tm_mon t) a
  | Day => set_tm_mday (tm_mday t) a
  | Hour => set_tm_hour (tm_hour t) a
  | Minute => set_tm_min (tm_min t) a
  | Second => set_tm_sec (tm_sec t) a
  | _ => a
  end.

Lemma parse_digits_step n c s v :
  48 <= c <= 57 → 0 <= v < 10000 → parse_digits (S n) (c :: s) v = parse_digits n s (v * 10 + (c - 48)).
Proof.
  intros Hc Hv. cbn [parse_digits head tail mbind option_bind].
  rewrite (proj2 (Z.eqb_neq c 0)), (proj2 (Z.ltb_ge c 48)), (proj2 (Z.ltb_ge 57 c)) by lia. cbn [orb]. ints. reflexivity.
Qed.

Lemma parse_num_two v rest : 0 <= v < 100 → parse_num (two_digits v ++ rest) 2 = Some (v, rest).
Proof.
  intros Hv. pose proof (Z.div_mod v 10 ltac:(lia)). pose proof (Z.mod_pos_bound v 10 ltac:(lia)).
  unfold parse_num. change (Z.to_nat 2) with 2%nat. cbn [two_digits app].
  do 2 rewrite parse_digits_step by lia. cbn [parse_digits mbind option_bind].
  replace ((0 * 10 + (48 + v / 10 - 48)) * 10 + (48 + v mod 10 - 48)) with v by lia. by rewrite (proj2 (Z.eqb_neq v (-1))) by lia.
Qed.

Lemma parse_num_four v rest : 0 <= v < 10000 → parse_num (four_digits v ++ rest) 4 = Some (v, rest).
Proof.
  intros Hv. unfold parse_num. change (Z.to_nat 4) with 4%nat. cbn [four_digits app].
  assert (v / 1000 = v / 10 / 10 / 10 ∧ v / 100 = v / 10 / 10) as [E1 E2] by (rewrite !Z.div_div by lia; done). rewrite E1, E2.
  pose proof (Z.div_mod v 10 ltac:(lia)). pose proof (Z.mod_pos_bound v 10 ltac:(lia)).
  pose proof (Z.div_mod (v / 10) 10 ltac:(lia)). pose proof (Z.mod_pos_bound (v / 10) 10 ltac:(lia)).
  pose proof (Z.div_mod (v / 10 / 10) 10 ltac:(lia)). pose proof (Z.mod_pos_bound (v / 10 / 10) 10 ltac:(lia)).
  do 4 rewrite parse_digits_step by lia. cbn [parse_digits mbind option_bind].
  match goal with |- context [?e =? -1] => replace e with v by lia end. by rewrite (proj2 (Z.eqb_neq v (-1))) by lia.
Qed.

Lemma parse_field_two lo hi set v rest a :
  0 <= v < 100 → lo <= v <= hi → parse_field 2 lo hi set (two_digits v ++ rest) a = Some (Some rest, set v a).
Proof.
  intros Hv Hr. unfold parse_field. rewrite parse_num_two by done. cbn [mbind option_bind].
  by rewrite (proj2 (Z.ltb_ge v lo)), (proj2 (Z.ltb_ge hi v)) by lia.
Qed.

Lemma match_char_same c rest : c ≠ 0 → match_char c (c :: rest) = Some (Some rest).
Proof. intros Hc. unfold match_char. cbn [head mbind option_bind]. by rewrite Z.eqb_refl, (proj2 (Z.eqb_neq c 0)) by done. Qed.

Lemma strptime_loop_item t i format rest a :
  printable t → parseable i →
  strptime_loop (item_format i ++ format) (item_text t i ++ rest) a = strptime_loop format rest (item_set t i a).
Proof.
  intros [Hy Hmo Hd Hh Hmi Hs _] Hi. destruct i as [c| | | | | | | | | | | | |]; try done;
    cbn [item_format app strptime_loop item_text item_set Z.eqb Pos.eqb negb].
  - destruct Hi. rewrite (proj2 (Z.eqb_neq c 0)), (proj2 (Z.eqb_neq c 37)) by done. cbn [negb]. by rewrite match_char_same by done.
  - unfold parse_conversion. cbn [Z.eqb Pos.eqb]. unfold parse_field. rewrite parse_num_four by lia. cbn [mbind option_bind].
    rewrite (proj2 (Z.ltb_ge (tm_year t + 1900) 0)), (proj2 (Z.ltb_ge _ (tm_year t + 1900))) by lia. cbn [orb].
    by replace (tm_year t + 1900 - 1900) with (tm_year t) by lia.
  - unfold parse_conversion. cbn [Z.eqb Pos.eqb]. rewrite parse_field_two by lia. cbn [mbind option_bind].
    by replace (tm_mon t + 1 - 1) with (tm_mon t) by lia.
  - unfold parse_conversion. cbn [Z.eqb Pos.eqb]. by rewrite parse_field_two by lia.
  - unfold parse_conversion. cbn [Z.eqb Pos.eqb]. by rewrite parse_field_two by lia.
  - unfold parse_conversion. cbn [Z.eqb Pos.eqb]. by rewrite parse_field_two by lia.
  - unfold parse_conversion. cbn [Z.eqb Pos.eqb]. by rewrite parse_field_two by lia.
Qed.

Lemma strptime_loop_spec t its rest a :
  printable t → Forall parseable its →
  strptime_loop (items_format its) (items_text t its ++ rest) a = Some (Some rest, foldl (λ a i, item_set t i a) a its).
Proof.
  intros Ht His. revert a. induction His as [|i its Hi His IH]; intros a; [done|].
  change (items_format (i :: its)) with ((item_format i ++ concat (map item_format its)) ++ [0]). rewrite <- app_assoc.
  change (items_text t (i :: its)) with (item_text t i ++ items_text t its). rewrite <- app_assoc.
  rewrite strptime_loop_item by done. apply IH.
Qed.

(** [strftime] writes the text the format denotes and a terminator, and
    returns its length, when it fits the buffer; when it does not, it returns 0
    and stays inside the buffer. *)
Theorem strftime_correct buf t its :
  printable t → Forall item_ok its → 0 < Z.of_nat (length buf) < 2 ^ 63 →
  let max := Z.of_nat (length buf) in
  let text := items_text t its in
  if decide (Z.of_nat (length text) < max)
  then strftime (Some buf) max (Some (items_format its)) (Some t) = Some (Some (text ++ 0 :: drop (S (length text)) buf), Z.of_nat (length text))
  else ∃ buf', strftime (Some buf) max (Some (items_format its)) (Some t) = Some (Some buf', 0) ∧ length buf' = length buf.
Proof. apply strftime_spec. Qed.

(** [strptime] undoes [strftime]: reading the rendered buffer with the same
    format sets the fields named in the format to those of the structure that
    was rendered, and stops at the terminator. *)
Theorem strftime_strptime_roundtrip buf t a its :
  printable t → Forall parseable its → Z.of_nat (length (items_text t its)) < Z.of_nat (length buf) < 2 ^ 63 →
  ∃ buf' n, strftime (Some buf) (Z.of_nat (length buf)) (Some (items_format its)) (Some t) = Some (Some buf', n) ∧
    strptime (Some buf') (Some (items_format its)) (Some a) =
      Some (Some (drop (Z.to_nat n) buf'), Some (foldl (λ a i, item_set t i a) a its)) ∧
    buf'.[n] = Some 0.
Proof.
  intros Ht His Hl. assert (Forall item_ok its) as Hok by (eapply Forall_impl; [exact His|]; intros []; done).
  pose proof (strftime_spec buf t its Ht Hok ltac:(lia)) as H. cbn zeta in H. rewrite decide_True in H by lia.
  eexists; eexists; split; [exact H|]. unfold strptime. rewrite strptime_loop_spec by done. cbn [mbind option_bind fst snd].
  rewrite Nat2Z.id, drop_app_length, idx_app. done.
Qed.

(** ISO 8601 of noon on 29 February 2000. *)
Lemma strftime_strptime_roundtrip_witness :
  let t := mk_tm 0 0 12 29 1 100 2 59 0 in
  let its := [Year; Literal 45; Month; Literal 45; Day; Literal 84; Hour; Literal 58; Minute; Literal 58; Second] in
  ∃ buf' n, strftime (Some (replicate 32 170)) 32 (Some (items_format its)) (Some t) = Some (Some buf', n) ∧
    strptime (Some buf') (Some (items_format its)) (Some (mk_tm 1 1 1 1 1 1 2 59 0)) =
      Some (Some (drop (Z.to_nat n) buf'), Some t) ∧
    buf'.[n] = Some 0.
Proof.
  apply (strftime_strptime_roundtrip (replicate 32 170) (mk_tm 0 0 12 29 1 100 2 59 0) (mk_tm 1 1 1 1 1 1 2 59 0)
    [Year; Literal 45; Month; Literal 45; Day; Literal 84; Hour; Literal 58; Minute; Literal 58; Second]).
  - split; cbn; lia.
  - repeat constructor; cbn; lia.
  - split; [vm_compute; reflexivity|]. change (Z.of_nat (length (replicate 32 170))) with 32. lia.
Defined.
