(* ===== verification/LibSort.v ===== *)
(** * Sorting and searching arrays: example_libc/src/qsort.c

    [qsort], [qsort_r] and [bsearch] on an array of bytes, an element being [size]
    of them.  The comparison function is the caller's: a parameter, applied to
    the bytes of the two elements it is given pointers to.  [None] is an access
    outside the array, or the end of the rounds given to the search. *)

From S2P Require Import Prelude LibBase.
From Stdlib Require Import Permutation Sorting.Sorted.

Local Open Scope Z_scope.

(** The bytes a pointer to an element points to. *)
Definition element (m : list Z) (p size : Z) : option (list Z) :=
  if (0 <=? p) && (0 <=? size) && (p + size <=? Z.of_nat (length m)) then Some (take (Z.to_nat size) (drop (Z.to_nat p) m)) else None.

(** [swap]: [n] rounds of the loop over [size]. *)
Fixpoint swap (n : nat) (m : list Z) (a b : Z) : option (list Z) :=
  match n with
  | O => Some m
  | S n =>
      tmp ← m.[a];
      y ← m.[b];
      m ← m.[a <- y];
      m ← m.[b <- tmp];
      swap n m (a + 1) (b + 1)
  end.

Section qsort.
Context (compar : list Z → list Z → Z).

(** The inner loop, [n] rounds from [j]. *)
Fixpoint qsort_inner (n : nat) (m : list Z) (size i j : Z) : option (list Z) :=
  match n with
  | O => Some m
  | S n =>
      let pi := u64 (i * size) in
      let pj := u64 (j * size) in
      x ← element m pi size;
      y ← element m pj size;
      m ← (if 0 <? compar x y then swap (Z.to_nat size) m pi pj else Some m);
      qsort_inner n m size i (j + 1)
  end.

(** The outer loop, [n] rounds from [i]. *)
Fixpoint qsort_outer (n : nat) (m : list Z) (nmemb size i : Z) : option (list Z) :=
  match n with
  | O => Some m
  | S n =>
      m ← qsort_inner (Z.to_nat (nmemb - (i + 1))) m size i (i + 1);
      qsort_outer n m nmemb size (i + 1)
  end.

Definition qsort (base : list Z) (nmemb size : Z) : option (list Z) := qsort_outer (Z.to_nat nmemb) base nmemb size 0.
End qsort.

(** [qsort_r]: the comparison is also given a context. *)
Definition qsort_r {C} (compar : list Z → list Z → C → Z) (base : list Z) (nmemb size : Z) (ctx : C) : option (list Z) :=
  qsort (λ x y, compar x y ctx) base nmemb size.

(** [bsearch]: the offset of a matching element; [Some None] is a null pointer. *)
Fixpoint bsearch_loop (compar : list Z → list Z → Z) (fuel : nat) (key base : list Z) (size low high : Z) : option (option Z) :=
  match fuel with
  | O => None
  | S fuel =>
      if low <? high then
        let mid := u64 (low + high) / 2 in
        let elem := u64 (mid * size) in
        x ← element base elem size;
        let c := compar key x in
        if c <? 0 then bsearch_loop compar fuel key base size low mid
        else if 0 <? c then bsearch_loop compar fuel key base size (u64 (mid + 1)) high
        else Some (Some elem)
      else Some None
  end.

Definition bsearch (compar : list Z → list Z → Z) (key base : list Z) (nmemb size : Z) : option (option Z) :=
  bsearch_loop compar (S (Z.to_nat nmemb)) key base size 0 nmemb.

(** ** Arrays of elements *)

(** Elements of one size, laid out one after the other. *)
Definition sized (size : Z) (els : list (list Z)) : Prop := Forall (λ e, Z.of_nat (length e) = size) els.

Lemma concat_sized size els : sized size els → Z.of_nat (length (concat els)) = Z.of_nat (length els) * size.
Proof. induction 1 as [|e els He _ IH]; [done|]. cbn [concat]. rewrite length_app. simpl length. lia. Qed.

Lemma element_concat size pre x post :
  sized size (pre ++ x :: post) → element (concat (pre ++ x :: post)) (Z.of_nat (length pre) * size) size = Some x.
Proof.
  intros Hs. pose proof Hs as [Hp Hx]%Forall_app. inversion Hx as [|? ? Hx1 Hpost]; subst.
  unfold element. rewrite concat_app. cbn [concat]. rewrite !length_app.
  pose proof (concat_sized _ _ Hp) as Hl.
  rewrite (proj2 (Z.leb_le 0 _)), (proj2 (Z.leb_le 0 _)), (proj2 (Z.leb_le (_ + _) _)) by lia. cbn [andb].
  rewrite <- Hl, !Nat2Z.id, drop_app_length. by rewrite take_app_length.
Qed.

Lemma swap_spec pre x mid y post :
  length x = length y →
  swap (length x) (pre ++ x ++ mid ++ y ++ post) (Z.of_nat (length pre)) (Z.of_nat (length (pre ++ x ++ mid))) =
    Some (pre ++ y ++ mid ++ x ++ post).
Proof.
  revert pre mid y. induction x as [|a x IH]; intros pre mid y Hl; [by destruct y|].
  destruct y as [|b y]; [done|]. cbn [length swap app]. rewrite idx_app. cbn [mbind option_bind].
  replace (pre ++ a :: x ++ mid ++ b :: y ++ post) with ((pre ++ a :: x ++ mid) ++ b :: y ++ post) by (by rewrite <- app_assoc; simpl; rewrite <- app_assoc).
  rewrite idx_app. cbn [mbind option_bind]. rewrite <- (app_assoc pre). cbn [app]. rewrite upd_app. cbn [mbind option_bind].
  replace (pre ++ b :: (x ++ mid) ++ b :: y ++ post) with ((pre ++ b :: x ++ mid) ++ b :: y ++ post) by (by rewrite <- app_assoc).
  replace (length (pre ++ a :: x ++ mid)) with (length (pre ++ b :: x ++ mid)) by (by rewrite !length_app).
  rewrite upd_app. cbn [mbind option_bind].
  specialize (IH (pre ++ [b]) (mid ++ [a]) y ltac:(simpl in Hl; lia)).
  replace (Z.of_nat (length pre) + 1) with (Z.of_nat (length (pre ++ [b]))) by (rewrite length_app; simpl; lia).
  replace (Z.of_nat (length (pre ++ b :: x ++ mid)) + 1) with (Z.of_nat (length ((pre ++ [b]) ++ x ++ mid ++ [a])))
    by (rewrite !length_app; simpl; rewrite !length_app; simpl; lia).
  replace ((pre ++ b :: x ++ mid) ++ a :: y ++ post) with ((pre ++ [b]) ++ x ++ (mid ++ [a]) ++ y ++ post)
    by (rewrite <- !app_assoc; simpl; by rewrite <- !app_assoc).
  rewrite IH, <- !app_assoc. done.
Qed.

(** ** Exchange sort on lists of elements *)

Section order.
Context {A : Type} (le : A → A → bool).

(** One round of the outer loop: the least of [x] and the rest, and the others. *)
Fixpoint pass (x : A) (l : list A) : A * list A :=
  match l with
  | [] => (x, [])
  | y :: l => if le x y then let '(m, r) := pass x l in (m, y :: r) else let '(m, r) := pass y l in (m, x :: r)
  end.

Lemma pass_length x l : length (snd (pass x l)) = length l.
Proof.
  revert x. induction l as [|y l IH]; intros x; [done|]. simpl. destruct (le x y).
  - specialize (IH x). destruct (pass x l). simpl in *. lia.
  - specialize (IH y). destruct (pass y l). simpl in *. lia.
Qed.

Fixpoint exchange_sort (n : nat) (l : list A) : list A :=
  match n, l with
  | S n, x :: l => let '(m, r) := pass x l in m :: exchange_sort n r
  | _, _ => l
  end.

Lemma pass_permutation x l : Permutation (x :: l) (fst (pass x l) :: snd (pass x l)).
Proof.
  revert x. induction l as [|y l IH]; intros x; [done|]. simpl. destruct (le x y).
  - specialize (IH x). destruct (pass x l) as [m r]. simpl in *. rewrite perm_swap, IH. apply perm_swap.
  - specialize (IH y). destruct (pass y l) as [m r]. simpl in *. rewrite IH. apply perm_swap.
Qed.

Lemma exchange_sort_permutation n l : Permutation l (exchange_sort n l).
Proof.
  revert l. induction n as [|n IH]; intros [|x l]; try done. simpl. pose proof (pass_permutation x l) as H.
  destruct (pass x l) as [m r]. simpl in *. rewrite H. by rewrite <- IH.
Qed.

Context (le_total : ∀ x y, le x y = false → le y x = true) (le_trans : ∀ x y z, le x y = true → le y z = true → le x z = true).

Lemma le_refl x : le x x = true.
Proof. destruct (le x x) eqn:E; [done|]. pose proof (le_total x x E). congruence. Qed.

Lemma pass_least x l : le (fst (pass x l)) x = true ∧ Forall (λ y, le (fst (pass x l)) y = true) (snd (pass x l)).
Proof.
  revert x. induction l as [|y l IH]; intros x; simpl; [split; [apply le_refl|constructor]|]. destruct (le x y) eqn:E.
  - destruct (IH x) as [H1 H2]. destruct (pass x l) as [m r]. simpl in *. split; [done|]. constructor; [|done]. by eapply le_trans.
  - destruct (IH y) as [H1 H2]. destruct (pass y l) as [m r]. simpl in *. apply le_total in E.
    split; [by eapply le_trans|]. constructor; [|done]. by eapply le_trans.
Qed.

Lemma exchange_sort_sorted l : StronglySorted (λ x y, le x y = true) (exchange_sort (length l) l).
Proof.
  remember (length l) as n eqn:En. revert l En. induction n as [|n IH]; intros [|x l] En; try done; [constructor|]. simpl.
  pose proof (pass_length x l) as Hl. destruct (pass_least x l) as [_ Hm]. destruct (pass x l) as [m r]. simpl in *.
  constructor; [apply IH; lia|]. by rewrite <- (exchange_sort_permutation n r).
Qed.
End order.

(** ** The code sorts *)

Section correct.
Context (compar : list Z → list Z → Z) (size : Z).
Definition before (x y : list Z) : bool := negb (0 <? compar x y).

Lemma qsort_inner_spec pre x mid rest :
  sized size (pre ++ x :: mid ++ rest) → Z.of_nat (length (concat (pre ++ x :: mid ++ rest))) < 2 ^ 64 →
  qsort_inner compar (length rest) (concat (pre ++ x :: mid ++ rest)) size (Z.of_nat (length pre)) (Z.of_nat (length (pre ++ x :: mid))) =
    Some (concat (pre ++ fst (pass before x rest) :: mid ++ snd (pass before x rest))).
Proof.
  revert x mid. induction rest as [|y rest IH]; intros x mid Hs Hlt; [done|].
  pose proof Hs as [Hp (Hx & [Hm (Hy & Hr)%Forall_cons]%Forall_app)%Forall_cons]%Forall_app.
  rewrite (concat_sized size) in Hlt by done. rewrite length_app in Hlt. simpl length in Hlt. rewrite length_app in Hlt. simpl length in Hlt.
  cbn [length qsort_inner pass].
  rewrite (u64_small (Z.of_nat (length pre) * size)), (u64_small (Z.of_nat (length (pre ++ x :: mid)) * size))
    by (unfold is_u64; rewrite ?length_app; simpl length; nia).
  rewrite element_concat by done. cbn [mbind option_bind].
  replace (pre ++ x :: mid ++ y :: rest) with ((pre ++ x :: mid) ++ y :: rest) by (by rewrite <- app_assoc).
  rewrite element_concat by (by rewrite <- app_assoc). cbn [mbind option_bind].
  replace (Z.of_nat (length (pre ++ x :: mid)) + 1) with (Z.of_nat (length (pre ++ x :: mid ++ [y])))
    by (rewrite !length_app; simpl; rewrite length_app; simpl; lia).
  destruct (0 <? compar x y) eqn:E;
    [assert (before x y = false) as -> by (unfold before; by rewrite E)|assert (before x y = true) as -> by (unfold before; by rewrite E)].
  - replace (concat ((pre ++ x :: mid) ++ y :: rest)) with (concat pre ++ x ++ concat mid ++ y ++ concat rest)
      by (rewrite !concat_app; cbn [concat]; by rewrite <- !app_assoc).
    replace (Z.of_nat (length pre) * size) with (Z.of_nat (length (concat pre))) by (by apply concat_sized).
    replace (Z.of_nat (length (pre ++ x :: mid)) * size) with (Z.of_nat (length (concat pre ++ x ++ concat mid))).
    2: { rewrite !length_app. simpl length. rewrite !Nat2Z.inj_add, Nat2Z.inj_succ. rewrite (concat_sized size pre), (concat_sized size mid) by done. lia. }
    replace (Z.to_nat size) with (length x) by lia. rewrite swap_spec by lia. cbn [mbind option_bind].
    replace (concat pre ++ y ++ concat mid ++ x ++ concat rest) with (concat (pre ++ y :: (mid ++ [x]) ++ rest))
      by (rewrite !concat_app; cbn [concat]; rewrite !concat_app; cbn [concat]; by rewrite app_nil_r, <- !app_assoc).
    replace (length (pre ++ x :: mid ++ [y])) with (length (pre ++ y :: mid ++ [x])) by (by rewrite !length_app; simpl; rewrite !length_app).
    assert (sized size (pre ++ y :: (mid ++ [x]) ++ rest)) as Hs'.
    { unfold sized. rewrite Forall_app, Forall_cons, !Forall_app, Forall_cons. split_and!; try done. }
    rewrite IH; [|done|].
    + destruct (pass before y rest). cbn [fst snd]. by rewrite <- !app_assoc.
    + rewrite (concat_sized size) by done. rewrite !length_app. simpl length. rewrite !length_app. simpl length. lia.
  - cbn [mbind option_bind]. rewrite <- app_assoc. cbn [app].
    replace (mid ++ y :: rest) with ((mid ++ [y]) ++ rest) by (by rewrite <- app_assoc).
    assert (sized size (pre ++ x :: (mid ++ [y]) ++ rest)) as Hs' by (by rewrite <- app_assoc).
    rewrite IH; [|done|].
    + destruct (pass before x rest). cbn [fst snd]. by rewrite <- !app_assoc.
    + rewrite (concat_sized size) by done. rewrite !length_app. simpl length. rewrite !length_app. simpl length. lia.
Qed.

Lemma qsort_outer_spec pre l :
  sized size (pre ++ l) → Z.of_nat (length (concat (pre ++ l))) < 2 ^ 64 →
  qsort_outer compar (length l) (concat (pre ++ l)) (Z.of_nat (length (pre ++ l))) size (Z.of_nat (length pre)) =
    Some (concat (pre ++ exchange_sort before (length l) l)).
Proof.
  remember (length l) as n eqn:En. revert pre l En. induction n as [|n IH]; intros pre [|x l] En Hs Hlt; try done.
  cbn [qsort_outer exchange_sort]. simpl in En. injection En as En.
  pose proof (qsort_inner_spec pre x [] l Hs Hlt) as H. cbn [app] in H.
  replace (Z.to_nat (Z.of_nat (length (pre ++ x :: l)) - (Z.of_nat (length pre) + 1))) with (length l) by (rewrite length_app; simpl; lia).
  replace (Z.of_nat (length pre) + 1) with (Z.of_nat (length (pre ++ [x]))) by (rewrite length_app; simpl; lia).
  rewrite H. cbn [mbind option_bind]. clear H. pose proof (pass_permutation before x l) as Hperm. pose proof (pass_length before x l) as Hlen.
  destruct (pass before x l) as [m r]. cbn [fst snd] in *. specialize (IH (pre ++ [m]) r ltac:(lia)).
  rewrite <- !app_assoc in IH. cbn [app] in IH.
  replace (length (pre ++ x :: l)) with (length (pre ++ m :: r)) by (rewrite !length_app; simpl; lia).
  replace (length (pre ++ [x])) with (length (pre ++ [m])) by (by rewrite !length_app).
  assert (sized size (pre ++ m :: r)) as Hs'.
  { unfold sized in *. rewrite Forall_app in *. by rewrite <- Hperm. }
  apply IH; [done|]. rewrite (concat_sized size) in * by done. rewrite !length_app in *. simpl length in *. lia.
Qed.

Lemma qsort_spec els :
  sized size els → Z.of_nat (length (concat els)) < 2 ^ 64 →
  qsort compar (concat els) (Z.of_nat (length els)) size = Some (concat (exchange_sort before (length els) els)).
Proof. intros Hs Hlt. unfold qsort. rewrite Nat2Z.id. apply (qsort_outer_spec [] els Hs Hlt). Qed.
End correct.

(** ** Binary search *)

Section search.
Context (compar : list Z → list Z → Z) (key : list Z) (size : Z).

(** The elements below the key come first, then the equal ones, then those
    above it. *)
Definition partitioned (els : list (list Z)) : Prop :=
  StronglySorted (λ x y, (compar key x < 0 → compar key y < 0) ∧ (0 < compar key y → 0 < compar key x)) els.

Lemma partitioned_lookup els i j x y : partitioned els → els !! i = Some x → els !! j = Some y → (i < j)%nat →
  (compar key x < 0 → compar key y < 0) ∧ (0 < compar key y → 0 < compar key x).
Proof.
  intros H. revert i j. induction H as [|e els Hs IH He]; intros i j Hi Hj Hij; [done|].
  destruct j as [|j]; [lia|]. destruct i as [|i]; simpl in *.
  - injection Hi as ->. rewrite Forall_forall in He. apply He. by eapply list_elem_of_lookup_2.
  - eapply IH; [done..|lia].
Qed.

Lemma element_index els i x :
  sized size els → els !! i = Some x → element (concat els) (Z.of_nat i * size) size = Some x.
Proof.
  intros Hs Hi. pose proof (element_concat size (take i els) x (drop (S i) els)) as H.
  rewrite (take_drop_middle els i x Hi), length_take_le in H by (apply lookup_lt_Some in Hi; lia). by apply H.
Qed.

(** The window narrows on the matching elements, if there are any. *)
Lemma bsearch_loop_spec fuel els low high :
  sized size els → partitioned els → Z.of_nat (length (concat els)) < 2 ^ 63 → Z.of_nat (length els) < 2 ^ 63 →
  0 <= low <= high → high <= Z.of_nat (length els) → high - low < Z.of_nat fuel →
  (∀ i x, els !! i = Some x → compar key x = 0 → low <= Z.of_nat i < high) →
  ∃ r, bsearch_loop compar fuel key (concat els) size low high = Some r ∧
    match r with
    | Some p => ∃ i x, els !! i = Some x ∧ compar key x = 0 ∧ p = Z.of_nat i * size
    | None => Forall (λ x, compar key x ≠ 0) els
    end.
Proof.
  intros Hs Hp Hlt Hn. revert low high. induction fuel as [|fuel IH]; intros low high Hlh Hh Hf Hin; [lia|].
  cbn [bsearch_loop]. destruct (Z.ltb_spec low high) as [Hlt'|Hge]; cycle 1.
  { exists None. split; [done|]. rewrite Forall_lookup. intros i x Hi Hc. specialize (Hin i x Hi Hc). lia. }
  rewrite (u64_small (low + high)) by range.
  assert (low <= (low + high) / 2 < high) as Hmid by (pose proof (Z.div_mod (low + high) 2); pose proof (Z.mod_pos_bound (low + high) 2); lia).
  remember ((low + high) / 2) as mid eqn:Emid.
  destruct (lookup_lt_is_Some_2 els (Z.to_nat mid)) as [x Hx]; [lia|].
  assert (0 <= size) as Hsize.
  { eapply Forall_lookup_1 in Hs; [|exact Hx]. cbn beta in Hs. lia. }
  rewrite (concat_sized size) in Hlt by done.
  rewrite (u64_small (mid * size)) by (unfold is_u64; nia).
  pose proof (element_index els _ _ Hs Hx) as He. rewrite Z2Nat.id in He by lia. rewrite He. cbn [mbind option_bind].
  destruct (Z.ltb_spec (compar key x) 0); [|destruct (Z.ltb_spec 0 (compar key x))].
  - apply IH; [lia..|]. intros i y Hi Hc. specialize (Hin i y Hi Hc).
    destruct (decide (Z.to_nat mid < i)%nat) as [Hlt2|]; [|assert (i ≠ Z.to_nat mid) by (intros ->; simplify_eq; lia); lia].
    destruct (partitioned_lookup els _ _ x y Hp Hx Hi Hlt2). lia.
  - rewrite u64_small by range. apply IH; [lia..|]. intros i y Hi Hc. specialize (Hin i y Hi Hc).
    destruct (decide (i < Z.to_nat mid)%nat) as [Hlt2|]; [|assert (i ≠ Z.to_nat mid) by (intros ->; simplify_eq; lia); lia].
    destruct (partitioned_lookup els _ _ y x Hp Hi Hx Hlt2). lia.
  - exists (Some (mid * size)). split; [done|]. exists (Z.to_nat mid), x. split_and!; [done|lia|rewrite Z2Nat.id; lia].
Qed.

Lemma bsearch_spec els :
  sized size els → partitioned els → Z.of_nat (length (concat els)) < 2 ^ 63 → Z.of_nat (length els) < 2 ^ 63 →
  ∃ r, bsearch compar key (concat els) (Z.of_nat (length els)) size = Some r ∧
    match r with
    | Some p => ∃ i x, els !! i = Some x ∧ compar key x = 0 ∧ p = Z.of_nat i * size
    | None => Forall (λ x, compar key x ≠ 0) els
    end.
Proof.
  intros Hs Hp Hlt Hn. unfold bsearch. apply bsearch_loop_spec; try (done || lia).
  intros i x Hi _. apply lookup_lt_Some in Hi. lia.
Qed.
End search.

(** A comparison function as the standard asks for: the sign of a total preorder. *)
Class Comparison (compar : list Z → list Z → Z) : Prop := {
  comparison_flip x y : 0 < compar x y ↔ compar y x < 0;
  comparison_trans x y z : compar x y <= 0 → compar y z <= 0 → compar x z <= 0 }.

Section total.
Context (compar : list Z → list Z → Z) `{!Comparison compar}.

Lemma before_le x y : before compar x y = true ↔ compar x y <= 0.
Proof. unfold before. destruct (Z.ltb_spec 0 (compar x y)); simpl; split; (done || lia). Qed.

Lemma before_total x y : before compar x y = false → before compar y x = true.
Proof.
  intros H. apply before_le. unfold before in H. destruct (Z.ltb_spec 0 (compar x y)) as [Hlt|]; [|done].
  apply comparison_flip in Hlt. lia.
Qed.

Lemma before_trans x y z : before compar x y = true → before compar y z = true → before compar x z = true.
Proof. rewrite !before_le. apply comparison_trans. Qed.

(** In a sorted array every key partitions the elements. *)
Lemma sorted_partitioned key els : StronglySorted (λ x y, compar x y <= 0) els → partitioned compar key els.
Proof.
  intros H. unfold partitioned. induction H as [|e els Hs IH He]; constructor; [done|].
  eapply Forall_impl; [exact He|]. intros y Hy. cbn beta in *. split; intros Hk.
  - destruct (decide (compar key y < 0)) as [|Hn]; [done|]. exfalso.
    assert (compar y key <= 0) as H1 by (destruct (decide (0 < compar y key)) as [Hp|]; [apply comparison_flip in Hp; lia|lia]).
    assert (0 < compar e key) as H2 by (by apply comparison_flip). pose proof (comparison_trans e y key Hy H1). lia.
  - destruct (decide (0 < compar key e)) as [|Hn]; [done|]. exfalso.
    assert (compar key e <= 0) as H1 by lia. pose proof (comparison_trans key e y H1 Hy). lia.
Qed.
End total.

(** C30: [qsort] sorts: for every comparison function that is a total preorder, the
    array afterwards is a permutation of its elements in ascending order, and no
    byte outside is touched. *)
Theorem qsort_correct compar size els :
  Comparison compar → sized size els → Z.of_nat (length (concat els)) < 2 ^ 64 →
  ∃ els', qsort compar (concat els) (Z.of_nat (length els)) size = Some (concat els') ∧
    Permutation els els' ∧ StronglySorted (λ x y, compar x y <= 0) els'.
Proof.
  intros Hc Hs Hlt. exists (exchange_sort (before compar) (length els) els). split_and!.
  - by apply qsort_spec.
  - apply exchange_sort_permutation.
  - pose proof (exchange_sort_sorted (before compar) (before_total compar) (before_trans compar) els) as H.
    induction H as [|e l Hl IH He]; constructor; [done|]. eapply Forall_impl; [exact He|]. intros y Hy. by apply before_le.
Qed.

(** Sorting, then searching: in the array [qsort] leaves, [bsearch] finds an
    element equal to the key whenever the array had one, and returns null only
    when it had none. *)
Theorem qsort_bsearch_correct compar size els key :
  Comparison compar → sized size els → Z.of_nat (length (concat els)) < 2 ^ 63 → Z.of_nat (length els) < 2 ^ 63 →
  ∃ m r, qsort compar (concat els) (Z.of_nat (length els)) size = Some m ∧
    bsearch compar key m (Z.of_nat (length els)) size = Some r ∧
    match r with
    | Some p => ∃ x, x ∈ els ∧ compar key x = 0 ∧ element m p size = Some x
    | None => Forall (λ x, compar key x ≠ 0) els
    end.
Proof.
  intros Hc Hs Hlt Hn. pose proof (exchange_sort_permutation (before compar) (length els) els) as Hperm.
  pose proof (exchange_sort_sorted (before compar) (before_total compar) (before_trans compar) els) as Hsort.
  pose proof (qsort_spec compar size els Hs ltac:(lia)) as Hq. remember (exchange_sort _ _ els) as els' eqn:E. clear E.
  assert (sized size els') as Hs' by (unfold sized; by rewrite <- Hperm).
  assert (StronglySorted (λ x y, compar x y <= 0) els') as Hsort'.
  { clear - Hsort. induction Hsort as [|e l Hl IH He]; constructor; [done|]. eapply Forall_impl; [exact He|]. intros y Hy. by apply before_le. }
  pose proof (Permutation_length Hperm) as Hlen. rewrite (concat_sized size) in Hlt by done.
  destruct (bsearch_spec compar key size els' Hs' (sorted_partitioned compar key els' Hsort')) as (r & Hr & Hspec);
    [rewrite (concat_sized size) by done; lia|lia|].
  exists (concat els'), r. rewrite Hlen. split_and!; [by rewrite <- Hlen|done|]. destruct r as [p|].
  - destruct Hspec as (i & x & Hi & Hx & ->). exists x. split_and!; [|done|by apply element_index].
    rewrite Hperm. by eapply list_elem_of_lookup_2.
  - by rewrite Hperm.
Qed.

(** Three elements of two bytes, compared by their first byte. *)
Definition by_first (x y : list Z) : Z := hd 0 x - hd 0 y.

Lemma by_first_comparison : Comparison by_first.
Proof. split; unfold by_first; lia. Qed.

Lemma qsort_correct_witness :
  ∃ els', qsort by_first (concat [[3; 7]; [1; 8]; [2; 9]]) (Z.of_nat 3) 2 = Some (concat els') ∧
    Permutation [[3; 7]; [1; 8]; [2; 9]] els' ∧ StronglySorted (λ x y, by_first x y <= 0) els'.
Proof.
  apply (qsort_correct by_first 2 [[3; 7]; [1; 8]; [2; 9]] by_first_comparison).
  - repeat constructor.
  - vm_compute. reflexivity.
Defined.

Lemma qsort_bsearch_correct_witness :
  ∃ m r, qsort by_first (concat [[3; 7]; [1; 8]; [2; 9]]) (Z.of_nat 3) 2 = Some m ∧
    bsearch by_first [2; 0] m (Z.of_nat 3) 2 = Some r ∧
    match r with
    | Some p => ∃ x, x ∈ [[3; 7]; [1; 8]; [2; 9]] ∧ by_first [2; 0] x = 0 ∧ element m p 2 = Some x
    | None => Forall (λ x, by_first [2; 0] x ≠ 0) [[3; 7]; [1; 8]; [2; 9]]
    end.
Proof.
  apply (qsort_bsearch_correct by_first 2 [[3; 7]; [1; 8]; [2; 9]] [2; 0] by_first_comparison).
  - repeat constructor.
  - vm_compute. reflexivity.
  - vm_compute. reflexivity.
Defined.
