(* ===== verification/LibTree.v ===== *)
(** * Search trees: example_libc/src/search_tree.c

    [tsearch], [tfind], [tdelete] and [twalk] on a store of nodes.  A node is
    named by its address, which is also the address of its key; 0 is the null
    pointer.  The variables the code updates through a [struct node **] are the
    root of the caller and the two links of each node.  [None] is an access
    through a null or dangling pointer, or the end of the rounds, of which there
    is one more than there are nodes in the store. *)

From S2P Require Import Prelude LibBase.
From stdpp Require Import sorting.
From Stdlib Require Import Permutation Sorting.Sorted.

Local Open Scope Z_scope.

Record node := mk_node { n_key : Z; n_left : Z; n_right : Z }.
Record tree_state := mk_ts { ts_root : Z; ts_nodes : gmap Z node }.

(** The address of a link. *)
Inductive place := Root | LeftOf (n : Z) | RightOf (n : Z).

Definition read_link (s : tree_state) (p : place) : option Z :=
  match p with
  | Root => Some (ts_root s)
  | LeftOf n => n_left <$> ts_nodes s !! n
  | RightOf n => n_right <$> ts_nodes s !! n
  end.

Definition write_link (s : tree_state) (p : place) (v : Z) : option tree_state :=
  match p with
  | Root => Some (mk_ts v (ts_nodes s))
  | LeftOf n => x ← ts_nodes s !! n; Some (mk_ts (ts_root s) (<[n := mk_node (n_key x) v (n_right x)]> (ts_nodes s)))
  | RightOf n => x ← ts_nodes s !! n; Some (mk_ts (ts_root s) (<[n := mk_node (n_key x) (n_left x) v]> (ts_nodes s)))
  end.

Definition write_key (s : tree_state) (n k : Z) : option tree_state :=
  x ← ts_nodes s !! n; Some (mk_ts (ts_root s) (<[n := mk_node k (n_left x) (n_right x)]> (ts_nodes s))).

(** [free] of a node: it must be one that is allocated. *)
Definition free_node (s : tree_state) (n : Z) : option tree_state :=
  _ ← ts_nodes s !! n; Some (mk_ts (ts_root s) (delete n (ts_nodes s))).

Section operations.
Context (compar : Z → Z → Z).

(** [tsearch], where [fresh] is the answer of [malloc]. *)
Fixpoint tsearch_at (fuel : nat) (key fresh : Z) (p : place) (s : tree_state) : option (Z * tree_state) :=
  match fuel with
  | O => None
  | S fuel =>
      v ← read_link s p;
      if v =? 0 then
        s ← write_link s p fresh;
        if fresh =? 0 then Some (0, s)
        else Some (fresh, mk_ts (ts_root s) (<[fresh := mk_node key 0 0]> (ts_nodes s)))
      else
        n ← ts_nodes s !! v;
        let r := compar key (n_key n) in
        if r <? 0 then tsearch_at fuel key fresh (LeftOf v) s
        else if 0 <? r then tsearch_at fuel key fresh (RightOf v) s
        else Some (v, s)
  end.

Fixpoint tfind_at (fuel : nat) (key : Z) (p : place) (s : tree_state) : option Z :=
  match fuel with
  | O => None
  | S fuel =>
      v ← read_link s p;
      if v =? 0 then Some 0
      else
        n ← ts_nodes s !! v;
        let r := compar key (n_key n) in
        if r <? 0 then tfind_at fuel key (LeftOf v) s
        else if 0 <? r then tfind_at fuel key (RightOf v) s
        else Some v
  end.

(** [while ( *p)] of [tdelete]: the link of the node with the key, and its parent. *)
Fixpoint tdelete_loop (fuel : nat) (key : Z) (p : place) (parent : Z) (s : tree_state) : option (place * Z) :=
  match fuel with
  | O => None
  | S fuel =>
      v ← read_link s p;
      if v =? 0 then Some (p, parent)
      else
        n ← ts_nodes s !! v;
        let r := compar key (n_key n) in
        if r =? 0 then Some (p, parent)
        else tdelete_loop fuel key (if r <? 0 then LeftOf v else RightOf v) v s
  end.

(** [while (min->left)]: the leftmost node and the link to it. *)
Fixpoint min_loop (fuel : nat) (minp : place) (min : Z) (s : tree_state) : option (place * Z) :=
  match fuel with
  | O => None
  | S fuel =>
      n ← ts_nodes s !! min;
      if n_left n =? 0 then Some (minp, min) else min_loop fuel (LeftOf min) (n_left n) s
  end.

(** The part of [tdelete] after the search, at the link of a node. *)
Definition unlink (fuel : nat) (p : place) (s : tree_state) : option tree_state :=
  t ← read_link s p;
  n ← ts_nodes s !! t;
  if n_left n =? 0 then s ← write_link s p (n_right n); free_node s t
  else if n_right n =? 0 then s ← write_link s p (n_left n); free_node s t
  else
    m ← min_loop fuel (RightOf t) (n_right n) s;
    let '(minp, min) := (m : place * Z) in
    x ← ts_nodes s !! min;
    s ← write_key s t (n_key x);
    s ← free_node s min;
    write_link s minp (n_right x).

Definition fuel_of (s : tree_state) : nat := S (size (ts_nodes s)).

Definition tsearch (key fresh : Z) (s : tree_state) : option (Z * tree_state) := tsearch_at (fuel_of s) key fresh Root s.
Definition tfind (key : Z) (s : tree_state) : option Z := tfind_at (fuel_of s) key Root s.

Definition tdelete (key : Z) (s : tree_state) : option (Z * tree_state) :=
  if ts_root s =? 0 then Some (0, s) else
  f ← tdelete_loop (fuel_of s) key Root 0 s;
  let '(p, parent) := (f : place * Z) in
  t ← read_link s p;
  if t =? 0 then Some (0, s) else
  let ret := if parent =? 0 then t else parent in
  s ← unlink (fuel_of s) p s;
  Some (ret, s).
End operations.

Inductive VISIT := preorder | postorder | endorder | leaf.

(** [walk]: the calls of the action, in order: node, kind of visit, level. *)
Fixpoint walk (fuel : nat) (n level : Z) (s : tree_state) : option (list (Z * VISIT * Z)) :=
  match fuel with
  | O => None
  | S fuel =>
      if n =? 0 then Some [] else
      x ← ts_nodes s !! n;
      if (n_left x =? 0) && (n_right x =? 0) then Some [(n, leaf, level)] else
      l ← (if n_left x =? 0 then Some [] else walk fuel (n_left x) (level + 1) s);
      r ← (if n_right x =? 0 then Some [] else walk fuel (n_right x) (level + 1) s);
      Some ([(n, preorder, level)] ++ l ++ [(n, postorder, level)] ++ r ++ [(n, endorder, level)])
  end.

Definition twalk (root : Z) (s : tree_state) : option (list (Z * VISIT * Z)) := walk (S (size (ts_nodes s))) root 0 s.

(** ** Trees *)

Inductive tree := Leaf | Node (a k : Z) (l r : tree).

Definition ptr (t : tree) : Z := match t with Leaf => 0 | Node a _ _ _ => a end.

Fixpoint addresses (t : tree) : list Z :=
  match t with Leaf => [] | Node a _ l r => addresses l ++ a :: addresses r end.
Fixpoint inorder (t : tree) : list Z :=
  match t with Leaf => [] | Node _ k l r => inorder l ++ k :: inorder r end.
Fixpoint height (t : tree) : nat := match t with Leaf => 0 | Node _ _ l r => S (Nat.max (height l) (height r)) end.

(** The nodes of a store that make up a tree. *)
Fixpoint repr (ns : gmap Z node) (t : tree) : Prop :=
  match t with
  | Leaf => True
  | Node a k l r => a ≠ 0 ∧ ns !! a = Some (mk_node k (ptr l) (ptr r)) ∧ repr ns l ∧ repr ns r
  end.

Lemma in_node a k l r b : b ∈ addresses (Node a k l r) ↔ b ∈ addresses l ∨ b = a ∨ b ∈ addresses r.
Proof. cbn. rewrite elem_of_app, elem_of_cons. done. Qed.

Lemma repr_frame ns ns' t : repr ns t → (∀ a, a ∈ addresses t → ns' !! a = ns !! a) → repr ns' t.
Proof.
  induction t as [|a k l IHl r IHr]; [done|]. cbn [repr addresses]. intros (Ha & Hn & Hl & Hr) Hf. split_and!; [done| | |].
  - rewrite Hf; [done|set_solver].
  - apply IHl; [done|set_solver].
  - apply IHr; [done|set_solver].
Qed.

Lemma repr_dom ns t a : repr ns t → a ∈ addresses t → is_Some (ns !! a) ∧ a ≠ 0.
Proof.
  induction t as [|b k l IHl r IHr]; cbn; [set_solver|]. intros (Hb & Hn & Hl & Hr) [Hin|[->|Hin]%elem_of_cons]%elem_of_app; auto.
Qed.

Lemma repr_ptr_zero ns t : repr ns t → ptr t = 0 ↔ t = Leaf.
Proof. destruct t; cbn; [done|]. intros (? & _). naive_solver. Qed.

(** A tree whose nodes are distinct fits the rounds. *)
Lemma height_fuel ns t : repr ns t → NoDup (addresses t) → (height t <= size ns)%nat.
Proof.
  intros Hr Hnd. assert (height t <= length (addresses t))%nat as H1.
  { clear. induction t as [|a k l IHl r IHr]; cbn; [lia|]. rewrite length_app. cbn. lia. }
  assert (length (addresses t) <= size ns)%nat; [|lia].
  rewrite <- size_dom, <- (size_list_to_set (C := gset Z) (addresses t)) by done. apply subseteq_size.
  intros a Ha%elem_of_list_to_set. apply elem_of_dom. by eapply repr_dom.
Qed.

(** The tree after an insertion at the place of the key; [fresh] is the new node. *)
Section trees.
Context (compar : Z → Z → Z).

Fixpoint insert (key fresh : Z) (t : tree) : Z * tree :=
  match t with
  | Leaf => (fresh, Node fresh key Leaf Leaf)
  | Node a k l r =>
      if compar key k <? 0 then let '(x, l) := insert key fresh l in (x, Node a k l r)
      else if 0 <? compar key k then let '(x, r) := insert key fresh r in (x, Node a k l r)
      else (a, t)
  end.

Fixpoint find (key : Z) (t : tree) : Z :=
  match t with
  | Leaf => 0
  | Node a k l r => if compar key k <? 0 then find key l else if 0 <? compar key k then find key r else a
  end.

(** The least node taken out: its address, its key, the rest. *)
Fixpoint take_min (a k : Z) (l r : tree) : Z * Z * tree :=
  match l with
  | Leaf => (a, k, r)
  | Node a' k' l' r' => let '(m, km, l) := take_min a' k' l' r' in (m, km, Node a k l r)
  end.

Definition remove_root (a : Z) (l r : tree) : tree :=
  match l, r with
  | Leaf, _ => r
  | _, Leaf => l
  | _, Node a' k' l' r' => let '(_, km, r) := take_min a' k' l' r' in Node a km l r
  end.

(** The parent of the node with a key, [parent] for the root. *)
Fixpoint parent_of (key : Z) (t : tree) (parent : Z) : Z :=
  match t with
  | Leaf => parent
  | Node a k l r =>
      if compar key k =? 0 then parent
      else if compar key k <? 0 then parent_of key l a else parent_of key r a
  end.

Fixpoint remove (key : Z) (t : tree) : tree :=
  match t with
  | Leaf => Leaf
  | Node a k l r =>
      if compar key k =? 0 then remove_root a l r
      else if compar key k <? 0 then Node a k (remove key l) r else Node a k l (remove key r)
  end.
End trees.

(** ** The code on a subtree *)

(** The node that holds a link. *)
Definition owner (p : place) (a : Z) : Prop := match p with Root => False | LeftOf n | RightOf n => a = n end.

(** A state in which the link has a value, and nothing else changed outside [D]. *)
Definition cell_after (p : place) (v : Z) (s s' : tree_state) : Prop :=
  match p with
  | Root => ts_root s' = v
  | LeftOf n => ts_root s' = ts_root s ∧ ∃ x, ts_nodes s !! n = Some x ∧ ts_nodes s' !! n = Some (mk_node (n_key x) v (n_right x))
  | RightOf n => ts_root s' = ts_root s ∧ ∃ x, ts_nodes s !! n = Some x ∧ ts_nodes s' !! n = Some (mk_node (n_key x) (n_left x) v)
  end.
Definition updated (p : place) (v : Z) (D : list Z) (s s' : tree_state) : Prop :=
  cell_after p v s s' ∧ ∀ a, a ∉ D → ¬ owner p a → ts_nodes s' !! a = ts_nodes s !! a.

(** A link to a subtree, outside of it. *)
Definition link_to (s : tree_state) (p : place) (t : tree) : Prop :=
  read_link s p = Some (ptr t) ∧ ∀ a, owner p a → a ∉ addresses t.

Lemma updated_same p v D s s' :
  read_link s p = Some v → ts_root s' = ts_root s → (∀ a, a ∉ D → ts_nodes s' !! a = ts_nodes s !! a) → (∀ a, owner p a → a ∉ D) →
  updated p v D s s'.
Proof.
  intros Hv Hroot Hf Ho. split; [|by intros a Ha _; apply Hf]. destruct p as [|n|n]; cbn in *; [congruence|..].
  - split; [done|]. apply fmap_Some in Hv as (x & Hx & ->). exists x. rewrite Hf by (by apply Ho). rewrite Hx. by destruct x.
  - split; [done|]. apply fmap_Some in Hv as (x & Hx & ->). exists x. rewrite Hf by (by apply Ho). rewrite Hx. by destruct x.
Qed.

Lemma write_link_spec s p t v : link_to s p t →
  ∃ s', write_link s p v = Some s' ∧ updated p v [] s s'.
Proof.
  intros [Hl _]. destruct p as [|n|n]; cbn in *.
  - eexists. split; [done|]. by split.
  - apply fmap_Some in Hl as (x & Hx & _). rewrite Hx. cbn. eexists. split; [done|]. split; cbn.
    + split; [done|]. exists x. by rewrite lookup_insert_eq.
    + intros a _ Ha. by rewrite lookup_insert_ne.
  - apply fmap_Some in Hl as (x & Hx & _). rewrite Hx. cbn. eexists. split; [done|]. split; cbn.
    + split; [done|]. exists x. by rewrite lookup_insert_eq.
    + intros a _ Ha. by rewrite lookup_insert_ne.
Qed.

(** The links of a node to its subtrees. *)
Lemma link_left s a k l r :
  ts_nodes s !! a = Some (mk_node k (ptr l) (ptr r)) → NoDup (addresses (Node a k l r)) → link_to s (LeftOf a) l.
Proof. intros Hn Hnd%NoDup_app. split; [by cbn; rewrite Hn|]. cbn. intros ? -> Hin. destruct Hnd as (_ & Hd & _). apply (Hd a Hin). set_solver. Qed.

Lemma link_right s a k l r :
  ts_nodes s !! a = Some (mk_node k (ptr l) (ptr r)) → NoDup (addresses (Node a k l r)) → link_to s (RightOf a) r.
Proof.
  intros Hn (_ & _ & [Ha _]%NoDup_cons)%NoDup_app. split; [by cbn; rewrite Hn|]. by cbn; intros ? ->.
Qed.

Lemma nodup_node a k l r : NoDup (addresses (Node a k l r)) →
  NoDup (addresses l) ∧ NoDup (addresses r) ∧ (a ∉ addresses l) ∧ (a ∉ addresses r) ∧ (∀ b, b ∈ addresses l → b ∉ addresses r).
Proof. cbn. intros (Hl & Hd & [Ha Hr]%NoDup_cons)%NoDup_app. split_and!; try done; intros; set_solver. Qed.

(** A change of the left subtree, seen from the node. *)
Lemma updated_left s s' p a k l r l' D :
  repr (ts_nodes s) (Node a k l r) → NoDup (addresses (Node a k l r)) → link_to s p (Node a k l r) →
  (∀ b, b ∈ D → (b ∈ addresses l) ∨ ((b ∉ addresses (Node a k l r)) ∧ ¬ owner p b)) →
  updated (LeftOf a) (ptr l') D s s' → repr (ts_nodes s') l' →
  repr (ts_nodes s') (Node a k l' r) ∧ updated p a (a :: D) s s'.
Proof.
  intros (Ha & Hn & Hl & Hr) Hnd [Hp Ho] HD [(Hroot & x & Hx & Hx') Hf] Hl'. apply nodup_node in Hnd as (_ & _ & Hal & Har & Hlr).
  rewrite Hn in Hx. injection Hx as <-. split.
  - split_and!; [done..|]. apply (repr_frame (ts_nodes s)); [done|]. intros b Hb. apply Hf; [|cbn; intros ->; done].
    intros [?|[? _]]%HD; [by eapply Hlr|]. cbn in *. set_solver.
  - apply updated_same; [done..| |].
    + intros b [Hb1 Hb2]%not_elem_of_cons. by apply Hf.
    + intros b Hb. apply not_elem_of_cons. split; [intros ->; apply (Ho a Hb); cbn; set_solver|].
      intros [?|[_ ?]]%HD; [|done]. apply (Ho b Hb). cbn. set_solver.
Qed.

Lemma updated_right s s' p a k l r r' D :
  repr (ts_nodes s) (Node a k l r) → NoDup (addresses (Node a k l r)) → link_to s p (Node a k l r) →
  (∀ b, b ∈ D → (b ∈ addresses r) ∨ ((b ∉ addresses (Node a k l r)) ∧ ¬ owner p b)) →
  updated (RightOf a) (ptr r') D s s' → repr (ts_nodes s') r' →
  repr (ts_nodes s') (Node a k l r') ∧ updated p a (a :: D) s s'.
Proof.
  intros (Ha & Hn & Hl & Hr) Hnd [Hp Ho] HD [(Hroot & x & Hx & Hx') Hf] Hr'. apply nodup_node in Hnd as (_ & _ & Hal & Har & Hlr).
  rewrite Hn in Hx. injection Hx as <-. split.
  - split_and!; [done..| |done]. apply (repr_frame (ts_nodes s)); [done|]. intros b Hb. apply Hf; [|cbn; intros ->; done].
    intros [?|[? _]]%HD; [by eapply Hlr|]. cbn in *. set_solver.
  - apply updated_same; [done..| |].
    + intros b [Hb1 Hb2]%not_elem_of_cons. by apply Hf.
    + intros b Hb. apply not_elem_of_cons. split; [intros ->; apply (Ho a Hb); cbn; set_solver|].
      intros [?|[_ ?]]%HD; [|done]. apply (Ho b Hb). cbn. set_solver.
Qed.

Lemma updated_weaken p v D D' s s' : updated p v D s s' → (∀ a, a ∈ D → a ∈ D') → updated p v D' s s'.
Proof. intros [Hc Hf] HD. split; [done|]. intros a Ha. apply Hf. naive_solver. Qed.

Section code.
Context (compar : Z → Z → Z).

Lemma tfind_at_spec fuel key p s t :
  repr (ts_nodes s) t → read_link s p = Some (ptr t) → (height t < fuel)%nat → tfind_at compar fuel key p s = Some (find compar key t).
Proof.
  revert fuel p. induction t as [|a k l IHl r IHr]; intros [|fuel] p Hr Hp Hf; try (cbn in Hf; lia);
    cbn [tfind_at]; rewrite Hp; cbn [mbind option_bind ptr find]; [done|].
  destruct Hr as (Ha & Hn & Hl & Hr). rewrite (proj2 (Z.eqb_neq a 0)), Hn by done. cbn [mbind option_bind n_key]. cbn in Hf.
  destruct (compar key k <? 0); [apply IHl; [done|by cbn; rewrite Hn|lia]|].
  destruct (0 <? compar key k); [apply IHr; [done|by cbn; rewrite Hn|lia]|done].
Qed.

(** [tsearch] below a link is insertion into the subtree. *)
Lemma tsearch_at_spec fuel key fresh p s t :
  repr (ts_nodes s) t → NoDup (addresses t) → link_to s p t → (height t < fuel)%nat →
  fresh ≠ 0 → ts_nodes s !! fresh = None →
  ∃ s', tsearch_at compar fuel key fresh p s = Some (fst (insert compar key fresh t), s') ∧
    repr (ts_nodes s') (snd (insert compar key fresh t)) ∧
    updated p (ptr (snd (insert compar key fresh t))) (fresh :: addresses t) s s' ∧ (find compar key t ≠ 0 → s' = s).
Proof.
  revert fuel p. induction t as [|a k l IHl r IHr]; intros [|fuel] p Hr Hnd Hp Hf Hz Hfresh; try (cbn in Hf; lia);
    cbn [tsearch_at insert find]; rewrite (proj1 Hp); cbn [mbind option_bind ptr].
  - destruct (write_link_spec s p Leaf fresh Hp) as (s1 & Hs1 & Hc & Hf1). cbn [Z.eqb]. rewrite Hs1. cbn [mbind option_bind].
    rewrite (proj2 (Z.eqb_neq fresh 0)) by done. eexists. split; [done|]. cbn [fst snd repr ptr ts_nodes addresses].
    rewrite lookup_insert_eq. split_and!; try done. split.
    + destruct p as [|n|n]; cbn in *; [done|..]; destruct Hc as (Hroot & x & Hx & Hx'); (split; [done|]; exists x; split; [done|]);
        rewrite lookup_insert_ne; (done || congruence).
    + intros b [Hb _]%not_elem_of_cons Ho. cbn [ts_nodes]. rewrite lookup_insert_ne by done. apply Hf1; [apply not_elem_of_nil|done].
  - pose proof Hr as (Ha & Hn & Hl & Hr'). pose proof (nodup_node _ _ _ _ Hnd) as (Hndl & Hndr & Hal & Har & Hlr).
    rewrite (proj2 (Z.eqb_neq a 0)), Hn by done. cbn [mbind option_bind n_key]. cbn [height] in Hf.
    assert ((fresh ∉ addresses (Node a k l r)) ∧ ¬ owner p fresh) as Hfr.
    { split; [intros Hin; destruct (repr_dom _ _ _ Hr Hin) as [[? ?] _]; congruence|].
      destruct Hp as [Hp _]. destruct p as [|n|n]; cbn in *; [tauto|..]; intros <-; rewrite Hfresh in Hp; done. }
    destruct (compar key k <? 0); [|destruct (0 <? compar key k)].
    + destruct (IHl fuel (LeftOf a)) as (s' & -> & Hl' & Hu & Hsame); [done..|by eapply link_left|lia|done|done|].
      destruct (insert compar key fresh l) as [x l']. cbn [fst snd] in *. exists s'. split; [done|].
      destruct (updated_left s s' p a k l r l' (fresh :: addresses l)) as [H1 H2]; try done.
      { intros b [->|?]%elem_of_cons; [by right|by left]. }
      split_and!; [done| |done]. eapply updated_weaken; [done|]. intros b. rewrite ?elem_of_cons, ?in_node. tauto.
    + destruct (IHr fuel (RightOf a)) as (s' & -> & Hl' & Hu & Hsame); [done..|by eapply link_right|lia|done|done|].
      destruct (insert compar key fresh r) as [x r']. cbn [fst snd] in *. exists s'. split; [done|].
      destruct (updated_right s s' p a k l r r' (fresh :: addresses r)) as [H1 H2]; try done.
      { intros b [->|?]%elem_of_cons; [by right|by left]. }
      split_and!; [done| |done]. eapply updated_weaken; [done|]. intros b. rewrite ?elem_of_cons, ?in_node. tauto.
    + exists s. cbn [fst snd]. split_and!; try done. destruct Hp as [Hp Ho]. apply updated_same; try done.
      intros b Hb. apply not_elem_of_cons. split; [intros ->; by apply Hfr|by apply Ho].
Qed.

(** The search for the least node of a subtree; taking it out in a state where
    the subtree is as it was. *)
Lemma min_loop_spec fuel q a k l r s :
  repr (ts_nodes s) (Node a k l r) → NoDup (addresses (Node a k l r)) → (height (Node a k l r) <= fuel)%nat →
  let '(m, km, t') := take_min a k l r in
  ∃ minp x, min_loop fuel q a s = Some (minp, m) ∧ ts_nodes s !! m = Some x ∧ n_key x = km ∧
    m ∈ addresses (Node a k l r) ∧ addresses (Node a k l r) ≡ₚ m :: addresses t' ∧
    ∀ s1, (∀ b, b ∈ addresses (Node a k l r) → ts_nodes s1 !! b = ts_nodes s !! b) → link_to s1 q (Node a k l r) →
      ∃ s2 s3, free_node s1 m = Some s2 ∧ write_link s2 minp (n_right x) = Some s3 ∧
        repr (ts_nodes s3) t' ∧ updated q (ptr t') (addresses (Node a k l r)) s1 s3 ∧ ts_nodes s3 !! m = None.
Proof.
  revert fuel q a k r. induction l as [|a' k' l' IH r' _]; intros [|fuel] q a k r Hr Hnd Hf; try (cbn in Hf; lia);
    pose proof Hr as (Ha & Hn & Hl & Hr'); pose proof (nodup_node _ _ _ _ Hnd) as (Hndl & Hndr & Hal & Har & Hlr); cbn [take_min].
  - exists q, (mk_node k 0 (ptr r)). cbn [min_loop]. rewrite Hn. cbn [mbind option_bind n_left ptr Z.eqb].
    split_and!; [done..|apply in_node; tauto|done|]. intros s1 Hs1 Hq. unfold free_node. rewrite Hs1, Hn by (apply in_node; tauto).
    cbn [mbind option_bind n_right]. set (s2 := mk_ts (ts_root s1) (delete a (ts_nodes s1))).
    assert (∀ b, owner q b → b ≠ a) as Hqa by (intros b Hb ->; apply (proj2 Hq a Hb), in_node; tauto).
    assert (link_to s2 q (Node a k Leaf r)) as Hq2.
    { split; [|apply Hq]. destruct Hq as [Hq _]. destruct q as [|n|n]; cbn in *; [done|..];
        rewrite lookup_delete_ne by (symmetry; by apply Hqa); done. }
    destruct (write_link_spec s2 q _ (ptr r) Hq2) as (s3 & Hs3 & Hc & Hf3). exists s2, s3. split_and!; try done.
    + apply (repr_frame (ts_nodes s)); [done|]. intros b Hb.
      assert (b ≠ a) by (intros ->; done).
      rewrite Hf3; [|apply not_elem_of_nil|intros Ho; apply (proj2 Hq b Ho); apply in_node; tauto].
      cbn. rewrite lookup_delete_ne by done. apply Hs1, in_node. tauto.
    + split.
      * destruct q as [|n|n]; cbn in *; [done|..]; destruct Hc as (? & x & Hx & Hx'); (split; [done|]); exists x;
          rewrite lookup_delete_ne in Hx by (symmetry; by apply Hqa); done.
      * intros b Hb Ho. rewrite Hf3; [|apply not_elem_of_nil|done]. cbn. apply lookup_delete_ne. intros ->. apply Hb, in_node. tauto.
    + rewrite Hf3; [|apply not_elem_of_nil|intros Ho; by apply (Hqa a Ho)]. cbn. apply lookup_delete_eq.
  - specialize (IH fuel (LeftOf a) a' k' r' Hl Hndl ltac:(cbn in *; lia)).
    destruct (take_min a' k' l' r') as [[m km] t'].
    destruct IH as (minp & x & Hmin & Hx & Hkm & Hin & Hperm & Hout). exists minp, x. cbn [min_loop]. rewrite Hn.
    cbn [mbind option_bind n_left]. change (ptr (Node a' k' l' r')) with a'. rewrite (proj2 (Z.eqb_neq a' 0)) by apply Hl.
    split_and!; [done..| | |].
    + change (addresses (Node a k ?l r)) with (addresses l ++ a :: addresses r). apply elem_of_app. by left.
    + change (addresses (Node a k ?l r)) with (addresses l ++ a :: addresses r). by rewrite Hperm.
    + intros s1 Hs1 Hq. assert (repr (ts_nodes s1) (Node a k (Node a' k' l' r') r)) as Hr1 by (apply (repr_frame (ts_nodes s)); done).
      destruct (Hout s1) as (s2 & s3 & H2 & H3 & Ht' & Hu & Hm).
      { intros b Hb. apply Hs1. change (addresses (Node a k ?l r)) with (addresses l ++ a :: addresses r). apply elem_of_app. by left. }
      { eapply link_left; [apply Hr1|done]. }
      exists s2, s3. split_and!; try done; destruct (updated_left s1 s3 q a k (Node a' k' l' r') r t' (addresses (Node a' k' l' r'))) as [G1 G2]; try done;
        try (intros b Hb; by left).
      eapply updated_weaken; [exact G2|]. intros b. rewrite ?elem_of_cons, ?in_node. tauto.
Qed.

(** Taking out the node at a link; [f] is the node that is freed. *)
Lemma unlink_spec fuel p a k l r s :
  repr (ts_nodes s) (Node a k l r) → NoDup (addresses (Node a k l r)) → link_to s p (Node a k l r) → (height (Node a k l r) <= fuel)%nat →
  ∃ s' f, unlink fuel p s = Some s' ∧ repr (ts_nodes s') (remove_root a l r) ∧
    updated p (ptr (remove_root a l r)) (addresses (Node a k l r)) s s' ∧
    addresses (Node a k l r) ≡ₚ f :: addresses (remove_root a l r) ∧ ts_nodes s' !! f = None.
Proof.
  intros Hr Hnd Hp Hf. pose proof Hr as (Ha & Hn & Hl & Hr'). pose proof (nodup_node _ _ _ _ Hnd) as (Hndl & Hndr & Hal & Har & Hlr).
  unfold unlink. rewrite (proj1 Hp). cbn [mbind option_bind ptr]. rewrite Hn. cbn [mbind option_bind n_left n_right].
  assert (∀ t', repr (ts_nodes s) t' → (∀ b, b ∈ addresses t' → b ∈ addresses (Node a k l r)) → (a ∉ addresses t') →
    ∃ s', (s ← write_link s p (ptr t'); free_node s a) = Some s' ∧ repr (ts_nodes s') t' ∧
      updated p (ptr t') (addresses (Node a k l r)) s s' ∧ ts_nodes s' !! a = None) as Hsimple.
  { intros t' Ht' Hsub Hat. destruct (write_link_spec s p _ (ptr t') Hp) as (s1 & -> & Hc & Hf1). cbn [mbind option_bind].
    assert (∀ b, owner p b → b ≠ a) as Hpa by (intros b Hb ->; apply (proj2 Hp a Hb), in_node; tauto).
    unfold free_node. rewrite Hf1, Hn; [|apply not_elem_of_nil|intros Ho; by apply (Hpa a Ho)]. cbn [mbind option_bind]. eexists. split; [done|].
    cbn [ts_nodes]. split_and!.
    - apply (repr_frame (ts_nodes s)); [done|]. intros b Hb. rewrite lookup_delete_ne by (intros ->; done).
      apply Hf1; [apply not_elem_of_nil|]. intros Ho. by apply (proj2 Hp b Ho), Hsub.
    - split.
      + destruct p as [|n|n]; cbn in *; [done|..]; destruct Hc as (? & x & Hx & Hx'); (split; [done|]); exists x;
          rewrite lookup_delete_ne by (symmetry; by apply Hpa); done.
      + intros b Hb Ho. cbn. rewrite lookup_delete_ne by (intros ->; apply Hb, in_node; tauto). apply Hf1; [apply not_elem_of_nil|done].
    - apply lookup_delete_eq. }
  destruct l as [|al kl ll rl].
  { change (ptr Leaf) with 0. cbn [Z.eqb]. destruct (Hsimple r) as (s' & -> & H1 & H2 & H3); [done|intros b; rewrite in_node; tauto|done|].
    exists s', a. split_and!; try done. }
  change (ptr (Node al kl ll rl)) with al. rewrite (proj2 (Z.eqb_neq al 0)) by apply Hl.
  destruct r as [|ar kr lr rr].
  { change (ptr Leaf) with 0. cbn [Z.eqb]. destruct (Hsimple (Node al kl ll rl)) as (s' & E & H1 & H2 & H3);
      [done|intros b Hb; change (addresses (Node a k ?l Leaf)) with (addresses l ++ [a]); apply elem_of_app; by left|done|].
    change (ptr (Node al kl ll rl)) with al in E. rewrite E.
    exists s', a. split_and!; try done. change (addresses (Node a k ?l Leaf)) with (addresses l ++ [a]). cbn [remove_root].
    by rewrite Permutation_app_comm. }
  change (ptr (Node ar kr lr rr)) with ar. rewrite (proj2 (Z.eqb_neq ar 0)) by apply Hr'. cbn [remove_root].
  pose proof (min_loop_spec fuel (RightOf a) ar kr lr rr s Hr' Hndr ltac:(cbn in *; lia)) as Hmin.
  remember (Node al kl ll rl) as l eqn:El. remember (Node ar kr lr rr) as r eqn:Er.
  destruct (take_min ar kr lr rr) as [[m km] r'] eqn:Et. destruct Hmin as (minp & x & -> & Hx & Hkm & Hin & Hperm & Hout).
  cbn [mbind option_bind]. rewrite Hx. cbn [mbind option_bind]. unfold write_key. rewrite Hn. cbn [mbind option_bind n_left n_right].
  set (s1 := mk_ts (ts_root s) (<[a := mk_node (n_key x) (ptr l) (ptr r)]> (ts_nodes s))).
  assert (∀ b, b ≠ a → ts_nodes s1 !! b = ts_nodes s !! b) as Hs1 by (intros b Hb; cbn; by rewrite lookup_insert_ne).
  assert (repr (ts_nodes s1) (Node a km l r)) as Hr1.
  { split_and!; [done|cbn; rewrite lookup_insert_eq; by rewrite Hkm|..]; apply (repr_frame (ts_nodes s)); try done;
      intros b Hb; apply Hs1; intros ->; done. }
  assert (NoDup (addresses (Node a km l r))) as Hnd1 by exact Hnd.
  destruct (Hout s1) as (s2 & s3 & H2 & H3 & Hr3 & Hu & Hm).
  { intros b Hb. apply Hs1. intros ->. done. }
  { eapply link_right; [apply Hr1|exact Hnd1]. }
  exists s3, m. fold s1. rewrite H2. cbn [mbind option_bind]. rewrite H3.
  assert (link_to s1 p (Node a km l r)) as Hp1.
  { split; [|exact (proj2 Hp)]. destruct Hp as [Hp Ho]. destruct p as [|n|n]; cbn [read_link] in *; [done|..];
      (rewrite Hs1; [done|intros ->; apply (Ho a); [done|apply in_node; tauto]]). }
  destruct (updated_right s1 s3 p a km l r r' (addresses r)) as [H4 H5]; try done; [intros b Hb; by left|].
  split_and!; [done|done| |cbn [addresses]; rewrite Hperm, (perm_swap m a); symmetry; apply Permutation_middle|done].
  destruct H5 as [Hc Hf5]. split.
  - assert (∀ n, owner p n → ts_nodes s1 !! n = ts_nodes s !! n) as Hown.
    { intros n Hn'. apply Hs1. intros ->. apply (proj2 Hp a Hn'), in_node. tauto. }
    destruct p as [|n|n]; cbn [cell_after ptr] in *; [done|..]; by rewrite <- (Hown n).
  - intros b Hb Ho. rewrite Hf5, Hs1; [done|..].
    + intros ->. apply Hb, in_node. tauto.
    + rewrite elem_of_cons. intros Hin'. apply Hb, in_node. tauto.
    + done.
Qed.

Lemma find_nonzero key t ns : repr ns t → find compar key t ≠ 0 → find compar key t ∈ addresses t.
Proof.
  induction t as [|a k l IHl r IHr]; cbn [find repr]; [done|]. intros (Ha & _ & Hl & Hr). rewrite in_node.
  destruct (compar key k <? 0); [naive_solver|]. destruct (0 <? compar key k); naive_solver.
Qed.

Lemma tdelete_loop_spec fuel F key p parent s t :
  repr (ts_nodes s) t → NoDup (addresses t) → link_to s p t → (height t < fuel)%nat → (height t <= F)%nat →
  ∃ p', tdelete_loop compar fuel key p parent s = Some (p', parent_of compar key t parent) ∧ read_link s p' = Some (find compar key t) ∧
    (if decide (find compar key t = 0) then remove compar key t = t
     else ∃ s' f, unlink F p' s = Some s' ∧ repr (ts_nodes s') (remove compar key t) ∧
        updated p (ptr (remove compar key t)) (addresses t) s s' ∧
        addresses t ≡ₚ f :: addresses (remove compar key t) ∧ ts_nodes s' !! f = None).
Proof.
  revert fuel p parent. induction t as [|a k l IHl r IHr]; intros [|fuel] p parent Hr Hnd Hp Hf HF; try (cbn in Hf; lia);
    cbn [tdelete_loop find parent_of remove]; rewrite (proj1 Hp); cbn [mbind option_bind ptr].
  { exists p. rewrite decide_True by done. cbn. split_and!; [done|exact (proj1 Hp)|done]. }
  pose proof Hr as (Ha & Hn & Hl & Hr'). pose proof (nodup_node _ _ _ _ Hnd) as (Hndl & Hndr & Hal & Har & Hlr).
  rewrite (proj2 (Z.eqb_neq a 0)), Hn by done. cbn [mbind option_bind n_key]. cbn [height] in Hf, HF.
  destruct (Z.eqb_spec (compar key k) 0) as [E|E].
  { rewrite E. cbn [Z.ltb Z.compare]. exists p. split_and!; [done|exact (proj1 Hp)|].
    rewrite decide_False by done. by apply unlink_spec. }
  destruct (Z.ltb_spec (compar key k) 0).
  - destruct (IHl fuel (LeftOf a) a) as (p' & -> & Hp' & Hcase); [done|done|by eapply link_left|lia|lia|].
    exists p'. split_and!; [done..|]. destruct (decide (find compar key l = 0)); [by rewrite Hcase|].
    destruct Hcase as (s' & f & Hu & Hrep & Hupd & Hperm & Hfree). exists s', f.
    destruct (updated_left s s' p a k l r (remove compar key l) (addresses l)) as [H1 H2]; try done; [intros b Hb; by left|].
    split_and!; try done; [eapply updated_weaken; [exact H2|intros b; rewrite in_node, elem_of_cons; tauto]|].
    cbn [addresses]. by rewrite Hperm.
  - rewrite (proj2 (Z.ltb_lt 0 (compar key k))) by lia.
    destruct (IHr fuel (RightOf a) a) as (p' & -> & Hp' & Hcase); [done|done|by eapply link_right|lia|lia|].
    exists p'. split_and!; [done..|]. destruct (decide (find compar key r = 0)); [by rewrite Hcase|].
    destruct Hcase as (s' & f & Hu & Hrep & Hupd & Hperm & Hfree). exists s', f.
    destruct (updated_right s s' p a k l r (remove compar key r) (addresses r)) as [H1 H2]; try done; [intros b Hb; by left|].
    split_and!; try done; [eapply updated_weaken; [exact H2|intros b; rewrite in_node, elem_of_cons; tauto]|].
    cbn [addresses]. rewrite Hperm, (perm_swap f a). symmetry. apply Permutation_middle.
Qed.
End code.

(** A state that holds a tree and no other node. *)
Record holds (s : tree_state) (t : tree) : Prop := {
  holds_repr : repr (ts_nodes s) t;
  holds_root : ts_root s = ptr t;
  holds_nodup : NoDup (addresses t);
  holds_exact : ∀ a, is_Some (ts_nodes s !! a) → a ∈ addresses t }.

Section top.
Context (compar : Z → Z → Z).

Lemma holds_link s t : holds s t → link_to s Root t.
Proof. intros H. split; [cbn; f_equal; apply H|done]. Qed.

Lemma holds_fuel s t : holds s t → (height t < fuel_of s)%nat.
Proof. intros H. unfold fuel_of. pose proof (height_fuel _ _ (holds_repr s t H) (holds_nodup s t H)). lia. Qed.

Lemma tfind_spec key s t : holds s t → tfind compar key s = Some (find compar key t).
Proof. intros H. apply tfind_at_spec; [apply H|apply holds_link, H|by apply holds_fuel]. Qed.

Lemma insert_addresses key fresh t ns :
  repr ns t → ns !! fresh = None → addresses (snd (insert compar key fresh t)) ≡ₚ
    if decide (find compar key t = 0) then fresh :: addresses t else addresses t.
Proof.
  induction t as [|a k l IHl r IHr]; [done|]. intros (Ha & Hn & Hl & Hr) Hf. cbn [insert find].
  destruct (compar key k <? 0); [|destruct (0 <? compar key k)].
  - specialize (IHl Hl Hf). destruct (insert compar key fresh l) as [x l']. cbn [snd addresses] in *. rewrite IHl. destruct (decide (find compar key l = 0)); reflexivity.
  - specialize (IHr Hr Hf). destruct (insert compar key fresh r) as [x r']. cbn [snd addresses] in *. rewrite IHr. destruct (decide (find compar key r = 0)); [|reflexivity].
    rewrite (perm_swap fresh a). symmetry. apply Permutation_middle.
  - by rewrite decide_False.
Qed.

Lemma tsearch_spec key fresh s t : holds s t → fresh ≠ 0 → ts_nodes s !! fresh = None →
  ∃ s', tsearch compar key fresh s = Some (fst (insert compar key fresh t), s') ∧ holds s' (snd (insert compar key fresh t)).
Proof.
  intros H Hz Hf. destruct (tsearch_at_spec compar (fuel_of s) key fresh Root s t) as (s' & E & Hr & [Hc Hfr] & Hsame);
    [apply H|apply H|by apply holds_link|by apply holds_fuel|done|done|].
  exists s'. split; [done|]. pose proof (insert_addresses key fresh t _ (holds_repr s t H) Hf) as Hperm. split; [done..| |].
  - rewrite Hperm. case_decide; [|apply H]. apply NoDup_cons. split; [|apply H].
    intros Hin. destruct (repr_dom _ _ _ (holds_repr s t H) Hin) as [[? ?] _]. congruence.
  - intros a Ha. rewrite Hperm. case_decide as Ez; [|rewrite Hsame in Ha by done; by apply H].
    destruct (decide (a ∈ fresh :: addresses t)) as [Hin|Hin]; [done|].
    rewrite Hfr in Ha by (done || (intros []; done)). apply elem_of_cons. right. by apply H.
Qed.

(** [tdelete]: the tree without the key, one node freed, and the parent of the
    node (the node itself at the root) or null. *)
Lemma tdelete_spec key s t : holds s t →
  ∃ s', tdelete compar key s = Some (if decide (find compar key t = 0) then 0
      else if decide (parent_of compar key t 0 = 0) then find compar key t else parent_of compar key t 0, s') ∧
    holds s' (remove compar key t) ∧
    (if decide (find compar key t = 0) then s' = s else ∃ f, addresses t ≡ₚ f :: addresses (remove compar key t) ∧ ts_nodes s' !! f = None).
Proof.
  intros H. pose proof (holds_fuel s t H) as Hfuel.
  destruct (tdelete_loop_spec compar (fuel_of s) (fuel_of s) key Root 0 s t) as (p & E & Hp & Hcase);
    [apply H|apply H|by apply holds_link|lia|lia|].
  unfold tdelete. rewrite (holds_root s t H). destruct (Z.eqb_spec (ptr t) 0) as [Ez|Ez].
  { apply (repr_ptr_zero (ts_nodes s)) in Ez; [|apply H]. subst t. exists s. done. }
  rewrite E. cbn [mbind option_bind]. rewrite Hp. cbn [mbind option_bind].
  destruct (decide (find compar key t = 0)) as [Hz|Hz].
  { rewrite Hz. cbn [Z.eqb]. exists s. by rewrite Hcase. }
  rewrite (proj2 (Z.eqb_neq _ 0)) by done. destruct Hcase as (s' & f & -> & Hr & [Hc Hfr] & Hperm & Hfree).
  cbn [mbind option_bind]. exists s'. split_and!.
  - destruct (Z.eqb_spec (parent_of compar key t 0) 0); [by rewrite decide_True|by rewrite decide_False].
  - split; [done..| |].
    + pose proof (holds_nodup s t H) as Hnd. rewrite Hperm in Hnd. by apply NoDup_cons in Hnd as [_ ?].
    + intros a Ha. destruct (decide (a ∈ addresses t)) as [Hin|Hin].
      * rewrite Hperm in Hin. apply elem_of_cons in Hin as [->|?]; [|done]. rewrite Hfree in Ha. by destruct Ha.
      * rewrite Hfr in Ha by (done || (intros []; done)). destruct Hin. by apply H.
  - by exists f.
Qed.
End top.

(** ** Search trees *)

(** A comparison function on keys: the sign of a total preorder. *)
Class KeyOrder (compar : Z → Z → Z) : Prop := {
  key_flip x y : 0 < compar x y ↔ compar y x < 0;
  key_trans x y z : compar x y <= 0 → compar y z <= 0 → compar x z <= 0 }.

Section ordered.
Context (compar : Z → Z → Z) `{!KeyOrder compar}.

(** The keys in order, no two equal. *)
Definition ordered (t : tree) : Prop := StronglySorted (λ x y, compar x y < 0) (inorder t).

Lemma key_lt_trans x y z : compar x y < 0 → compar y z <= 0 → compar x z < 0.
Proof.
  intros H1 H2. destruct (decide (compar x z < 0)) as [|Hn]; [done|]. exfalso.
  assert (compar z x <= 0) as H3.
  { destruct (decide (0 < compar z x)) as [Hp|]; [apply key_flip in Hp; lia|lia]. }
  pose proof (key_trans y z x H2 H3). apply key_flip in H1. lia.
Qed.

Lemma key_le_lt_trans x y z : compar x y <= 0 → compar y z < 0 → compar x z < 0.
Proof.
  intros H1 H2. destruct (decide (compar x z < 0)) as [|Hn]; [done|]. exfalso.
  assert (compar z x <= 0) as H3.
  { destruct (decide (0 < compar z x)) as [Hp|]; [apply key_flip in Hp; lia|lia]. }
  pose proof (key_trans z x y H3 H1). apply key_flip in H2. lia.
Qed.

Lemma ordered_node a k l r : ordered (Node a k l r) →
  ordered l ∧ ordered r ∧ (∀ x, x ∈ inorder l → compar x k < 0) ∧ (∀ x, x ∈ inorder r → compar k x < 0).
Proof.
  unfold ordered. cbn. intros (Hlt & Hl & Hr)%StronglySorted_app. inversion Hr as [|? ? Hr' Hk]; subst.
  rewrite Forall_forall in Hk. split_and!; try done. intros x Hx. apply Hlt; [done|]. apply elem_of_cons. by left.
Qed.

(** Where the search goes, the other side has no equal key. *)
Lemma find_missing key t ns : repr ns t → ordered t → find compar key t = 0 → ∀ x, x ∈ inorder t → compar key x ≠ 0.
Proof.
  induction t as [|a k l IHl r IHr]; cbn [find]; [intros _ _ _ x Hx; by apply elem_of_nil in Hx|].
  intros (Ha & _ & Hl & Hr) (Ol & Or & Hlk & Hkr)%ordered_node Hz x [Hx|[->|Hx]%elem_of_cons]%elem_of_app Heq;
    destruct (Z.ltb_spec (compar key k) 0) as [H1|H1]; try destruct (Z.ltb_spec 0 (compar key k)) as [H2|H2]; try done; try lia.
  - by apply (IHl Hl Ol Hz x).
  - apply key_flip in H2. assert (compar key k < 0) by (apply key_le_lt_trans with x; [lia|by apply Hlk]). lia.
  - assert (compar key x < 0) by (apply key_lt_trans with k; [done|]; pose proof (Hkr x Hx); lia). lia.
  - by apply (IHr Hr Or Hz x).
Qed.

Lemma find_some key t ns : repr ns t → find compar key t ≠ 0 →
  ∃ n, ns !! find compar key t = Some n ∧ n_key n ∈ inorder t ∧ compar key (n_key n) = 0.
Proof.
  induction t as [|a k l IHl r IHr]; cbn [find]; [done|]. intros (Ha & Hn & Hl & Hr) Hz. cbn [inorder].
  destruct (Z.ltb_spec (compar key k) 0); [|destruct (Z.ltb_spec 0 (compar key k))].
  - destruct (IHl Hl Hz) as (n & ? & ? & ?). exists n. split_and!; try done. apply elem_of_app. by left.
  - destruct (IHr Hr Hz) as (n & ? & ? & ?). exists n. split_and!; try done. apply elem_of_app. right. apply elem_of_cons. by right.
  - exists (mk_node k (ptr l) (ptr r)). split_and!; [done| |cbn; lia]. cbn. apply elem_of_app. right. apply elem_of_cons. by left.
Qed.

(** Insertion puts a new key between the smaller and the larger ones. *)
Lemma insert_inorder key fresh t ns : repr ns t → ordered t →
  if decide (find compar key t = 0)
  then fst (insert compar key fresh t) = fresh ∧ ∃ l1 l2, inorder t = l1 ++ l2 ∧ inorder (snd (insert compar key fresh t)) = l1 ++ key :: l2 ∧
      (∀ x, x ∈ l1 → compar x key < 0) ∧ (∀ x, x ∈ l2 → compar key x < 0)
  else insert compar key fresh t = (find compar key t, t).
Proof.
  induction t as [|a k l IHl r IHr]; cbn [find insert].
  { intros _ _. rewrite decide_True by done. split; [done|]. exists [], []. split_and!; try done; intros x Hx; by apply elem_of_nil in Hx. }
  intros (Ha & _ & Hl & Hr) (Ol & Or & Hlk & Hkr)%ordered_node.
  destruct (Z.ltb_spec (compar key k) 0) as [H1|H1]; [|destruct (Z.ltb_spec 0 (compar key k)) as [H2|H2]].
  - specialize (IHl Hl Ol). destruct (decide (find compar key l = 0)); [|by rewrite IHl].
    destruct IHl as (Hf & l1 & l2 & E1 & E2 & B1 & B2). destruct (insert compar key fresh l) as [x l']. cbn in *. split; [done|].
    exists l1, (l2 ++ k :: inorder r). rewrite E1, E2, <- !app_assoc. split_and!; try done.
    intros y [?|[->|?]%elem_of_cons]%elem_of_app; [by apply B2|done|]. apply key_lt_trans with k; [done|]. pose proof (Hkr y). naive_solver lia.
  - specialize (IHr Hr Or). destruct (decide (find compar key r = 0)); [|by rewrite IHr].
    destruct IHr as (Hf & l1 & l2 & E1 & E2 & B1 & B2). destruct (insert compar key fresh r) as [x r']. cbn in *. split; [done|].
    exists (inorder l ++ k :: l1), l2. rewrite E1, E2, <- !app_assoc. split_and!; try done. apply key_flip in H2.
    intros y [?|[->|?]%elem_of_cons]%elem_of_app; [|done|by apply B1]. apply key_lt_trans with k; [by apply Hlk|lia].
  - rewrite decide_False by done. done.
Qed.

Lemma ordered_insert l1 l2 key : StronglySorted (λ x y, compar x y < 0) (l1 ++ l2) →
  (∀ x, x ∈ l1 → compar x key < 0) → (∀ x, x ∈ l2 → compar key x < 0) → StronglySorted (λ x y, compar x y < 0) (l1 ++ key :: l2).
Proof.
  intros (H & H1 & H2)%StronglySorted_app B1 B2. apply StronglySorted_app. split_and!; [|done|constructor; [done|by apply Forall_forall]].
  intros x y Hx [->|Hy]%elem_of_cons; auto.
Qed.

Lemma ordered_delete l1 l2 k : StronglySorted (λ x y, compar x y < 0) (l1 ++ k :: l2) → StronglySorted (λ x y, compar x y < 0) (l1 ++ l2).
Proof.
  intros (H & H1 & H2)%StronglySorted_app. inversion H2; subst. apply StronglySorted_app. split_and!; try done.
  intros x y Hx Hy. apply H; [done|]. apply elem_of_cons. by right.
Qed.
End ordered.

Lemma take_min_inorder a k l r : let '(_, km, t') := take_min a k l r in inorder (Node a k l r) = km :: inorder t'.
Proof.
  revert a k r. induction l as [|a' k' l' IH r' _]; intros a k r; cbn [take_min]; [done|].
  specialize (IH a' k' r'). destruct (take_min a' k' l' r') as [[m km] t']. cbn [inorder] in *. rewrite IH. done.
Qed.

Lemma remove_root_inorder a l r : inorder (remove_root a l r) = inorder l ++ inorder r.
Proof.
  destruct l as [|al kl ll rl], r as [|ar kr lr rr]; cbn [remove_root]; try done; [by rewrite app_nil_r|].
  pose proof (take_min_inorder ar kr lr rr) as H. destruct (take_min ar kr lr rr) as [[m km] t']. rewrite H. done.
Qed.

(** Deletion takes one key out of the sequence. *)
Lemma remove_inorder compar key t ns : repr ns t → find compar key t ≠ 0 →
  ∃ l1 k l2, inorder t = l1 ++ k :: l2 ∧ inorder (remove compar key t) = l1 ++ l2 ∧ compar key k = 0.
Proof.
  induction t as [|a k l IHl r IHr]; cbn [find remove]; [done|]. intros (Ha & _ & Hl & Hr).
  destruct (Z.eqb_spec (compar key k) 0) as [E|E].
  - intros _. exists (inorder l), k, (inorder r). by rewrite remove_root_inorder.
  - destruct (Z.ltb_spec (compar key k) 0); [|rewrite (proj2 (Z.ltb_lt 0 _)) by lia]; intros Hz.
    + destruct (IHl Hl Hz) as (l1 & k' & l2 & E1 & E2 & Hk). exists l1, k', (l2 ++ k :: inorder r). cbn [inorder].
      rewrite E1, E2, <- !app_assoc. done.
    + destruct (IHr Hr Hz) as (l1 & k' & l2 & E1 & E2 & Hk). exists (inorder l ++ k :: l1), k', l2. cbn [inorder].
      rewrite E1, E2, <- !app_assoc. done.
Qed.

(** The node an insertion returns is the one a search finds afterwards. *)
Lemma insert_find compar key fresh t : compar key key = 0 →
  find compar key (snd (insert compar key fresh t)) = fst (insert compar key fresh t).
Proof.
  intros Hrefl. induction t as [|a k l IHl r IHr]; cbn [insert]; [cbn [fst snd find]; by rewrite Hrefl|].
  destruct (compar key k <? 0) eqn:E1; [|destruct (0 <? compar key k) eqn:E2].
  - destruct (insert compar key fresh l) as [x l']. cbn [fst snd find] in *. by rewrite E1.
  - destruct (insert compar key fresh r) as [x r']. cbn [fst snd find] in *. by rewrite E1, E2.
  - cbn [fst snd find]. by rewrite E1, E2.
Qed.

(** [tsearch] returns a node with the key: the one that is there, and nothing
    changes, or the new one, and the keys in order are the old ones with the new
    key between the smaller and the larger ones. *)
Theorem tsearch_correct compar key fresh s t :
  KeyOrder compar → holds s t → ordered compar t → fresh ≠ 0 → ts_nodes s !! fresh = None →
  ∃ a s' t' n, tsearch compar key fresh s = Some (a, s') ∧ holds s' t' ∧ ordered compar t' ∧
    ts_nodes s' !! a = Some n ∧ compar key (n_key n) = 0 ∧
    if decide (Exists (λ x, compar key x = 0) (inorder t)) then t' = t
    else a = fresh ∧ ∃ l1 l2, inorder t = l1 ++ l2 ∧ inorder t' = l1 ++ key :: l2.
Proof.
  intros Hc H Ho Hz Hf. destruct (tsearch_spec compar key fresh s t H Hz Hf) as (s' & E & H').
  pose proof (insert_inorder compar key fresh t _ (holds_repr s t H) Ho) as Hi.
  assert (compar key key = 0) as Hrefl.
  { destruct (Z.lt_trichotomy (compar key key) 0) as [Hl|[?|Hl]]; [|done|]; pose proof (key_flip key key); lia. }
  pose proof (insert_find compar key fresh t Hrefl) as Hfind.
  assert (fst (insert compar key fresh t) ≠ 0) as Hnz by (destruct (decide (find compar key t = 0)); [by destruct Hi as [-> _]|by rewrite Hi]).
  destruct (find_some compar key _ _ (holds_repr s' _ H')) as (n & Hn & _ & Hk); [by rewrite Hfind|]. rewrite Hfind in Hn.
  exists (fst (insert compar key fresh t)), s', (snd (insert compar key fresh t)), n.
  destruct (decide (find compar key t = 0)) as [Hz'|Hz'].
  - pose proof (find_missing compar key t _ (holds_repr s t H) Ho Hz') as Hnone.
    destruct Hi as (Efst & l1 & l2 & E1 & E2 & B1 & B2).
    destruct (decide (Exists _ _)) as [(x & Hx & Hx')%Exists_exists|_]; [by destruct (Hnone x)|].
    split_and!; [done..| |done|done|done|by exists l1, l2].
    unfold ordered. rewrite E2. apply ordered_insert; [|done..]. by rewrite <- E1.
  - destruct (find_some compar key t _ (holds_repr s t H) Hz') as (n' & _ & Hin & Hk'). rewrite Hi in *. cbn [fst snd] in *.
    destruct (decide (Exists _ _)) as [_|Hx]; [done|]. destruct Hx. apply Exists_exists. by exists (n_key n').
Qed.

(** C25: [tdelete] takes the key out of the tree and keeps the others in order; it
    frees exactly one node, and returns null exactly when the key is not there. *)
Theorem tdelete_correct compar key s t :
  KeyOrder compar → holds s t → ordered compar t →
  ∃ a s' t', tdelete compar key s = Some (a, s') ∧ holds s' t' ∧ ordered compar t' ∧
    if decide (Exists (λ x, compar key x = 0) (inorder t))
    then a ≠ 0 ∧ (∃ l1 k l2, inorder t = l1 ++ k :: l2 ∧ inorder t' = l1 ++ l2 ∧ compar key k = 0) ∧
      ∃ f, addresses t ≡ₚ f :: addresses t' ∧ ts_nodes s' !! f = None
    else a = 0 ∧ s' = s ∧ t' = t.
Proof.
  intros Hc H Ho. destruct (tdelete_spec compar key s t H) as (s' & E & H' & Hcase). eexists; exists s', (remove compar key t). split; [exact E|].
  split; [done|]. destruct (decide (find compar key t = 0)) as [Hz|Hz].
  - pose proof (find_missing compar key t _ (holds_repr s t H) Ho Hz) as Hnone.
    destruct (tdelete_loop_spec compar (fuel_of s) (fuel_of s) key Root 0 s t) as (p & _ & _ & Hrem);
      [apply H|apply H|by apply holds_link|by apply holds_fuel|pose proof (holds_fuel s t H); lia|].
    rewrite decide_True in Hrem by done. rewrite Hrem.
    destruct (decide (Exists _ _)) as [(x & Hx & Hx')%Exists_exists|_]; [by destruct (Hnone x)|]. done.
  - destruct (remove_inorder compar key t _ (holds_repr s t H) Hz) as (l1 & k & l2 & E1 & E2 & Hk).
    destruct (find_some compar key t _ (holds_repr s t H) Hz) as (n' & _ & Hin & Hk').
    split; [unfold ordered; rewrite E2; apply ordered_delete with k; unfold ordered in Ho; by rewrite <- E1|].
    destruct (decide (Exists _ _)) as [_|Hx]; [|destruct Hx; apply Exists_exists; by exists (n_key n')].
    split_and!; [destruct (decide (parent_of compar key t 0 = 0)); done|by exists l1, k, l2|done].
Qed.

(** ** Walking *)

(** The visits of a tree, in order. *)
Fixpoint visits (t : tree) (level : Z) : list (Z * VISIT * Z) :=
  match t with
  | Leaf => []
  | Node a _ Leaf Leaf => [(a, leaf, level)]
  | Node a _ l r => [(a, preorder, level)] ++ visits l (level + 1) ++ [(a, postorder, level)] ++ visits r (level + 1) ++ [(a, endorder, level)]
  end.

Lemma walk_spec fuel t level s : repr (ts_nodes s) t → (height t < fuel)%nat → walk fuel (ptr t) level s = Some (visits t level).
Proof.
  revert fuel level. induction t as [|a k l IHl r IHr]; intros [|fuel] level Hr Hf; try (cbn in Hf; lia); [done|].
  destruct Hr as (Ha & Hn & Hl & Hr). cbn [height] in Hf. cbn [walk ptr]. rewrite (proj2 (Z.eqb_neq a 0)), Hn by done.
  cbn [mbind option_bind n_left n_right].
  specialize (IHl fuel (level + 1) Hl ltac:(lia)). specialize (IHr fuel (level + 1) Hr ltac:(lia)).
  assert (∀ t, repr (ts_nodes s) t → (ptr t =? 0) = match t with Leaf => true | _ => false end) as Hz.
  { intros [|b kb lb rb]; [done|]. intros (? & _). by apply Z.eqb_neq. }
  rewrite (Hz l Hl), (Hz r Hr). destruct l as [|al kl ll rl], r as [|ar kr lr rr]; cbn [andb]; try done;
    rewrite ?IHl; cbn [mbind option_bind]; rewrite ?IHr; reflexivity.
Qed.

(** The nodes in the order in which the action sees them last before their right
    subtree. *)
Definition in_order_visit (v : Z * VISIT * Z) : option Z :=
  match v with (a, postorder, _) | (a, leaf, _) => Some a | _ => None end.

Lemma visits_inorder t level : omap in_order_visit (visits t level) = addresses t.
Proof.
  revert level. induction t as [|a k l IHl r IHr]; intros level; [done|].
  assert (∀ vl vr, omap in_order_visit ([(a, preorder, level)] ++ vl ++ [(a, postorder, level)] ++ vr ++ [(a, endorder, level)]) =
    omap in_order_visit vl ++ a :: omap in_order_visit vr) as Hv.
  { intros vl vr. rewrite !omap_app. cbn. by rewrite app_nil_r. }
  destruct l as [|al kl ll rl]; [destruct r as [|ar kr lr rr]; [done|]|].
  - etransitivity; [apply (Hv [] (visits (Node ar kr lr rr) (level + 1)))|]. rewrite IHr. reflexivity.
  - etransitivity; [apply (Hv (visits (Node al kl ll rl) (level + 1)) (visits r (level + 1)))|]. rewrite IHl, IHr. reflexivity.
Qed.

(** [twalk] visits every node, and the [postorder] and [leaf] calls come in the
    order of the keys. *)
Lemma twalk_in_order s t : holds s t →
  ∃ vs, twalk (ts_root s) s = Some vs ∧ omap in_order_visit vs = addresses t.
Proof.
  intros H. exists (visits t 0). split; [|apply visits_inorder]. unfold twalk. rewrite (holds_root s t H).
  apply walk_spec; [apply H|by apply holds_fuel].
Qed.

(** Three nodes. *)
Definition demo_tree : tree := Node 16 5 (Node 32 3 Leaf Leaf) (Node 48 8 Leaf Leaf).
Definition demo_tree_state : tree_state :=
  mk_ts 16 (<[16 := mk_node 5 32 48]> (<[32 := mk_node 3 0 0]> (<[48 := mk_node 8 0 0]> ∅))).

Lemma demo_tree_holds : holds demo_tree_state demo_tree.
Proof.
  split; [split_and!; done|done|apply (bool_decide_unpack _); vm_compute; reflexivity|].
  intros a [n Hn]. cbn in Hn. rewrite !lookup_insert_Some in Hn. cbn. set_solver.
Qed.

Lemma sub_key_order : KeyOrder Z.sub.
Proof. split; lia. Qed.

Lemma demo_tree_ordered : ordered Z.sub demo_tree.
Proof. unfold ordered. cbn. repeat constructor; lia. Qed.

Lemma tsearch_correct_witness :
  ∃ a s' t' n, tsearch Z.sub 4 64 demo_tree_state = Some (a, s') ∧ holds s' t' ∧ ordered Z.sub t' ∧
    ts_nodes s' !! a = Some n ∧ 4 - n_key n = 0 ∧
    if decide (Exists (λ x, 4 - x = 0) (inorder demo_tree)) then t' = demo_tree
    else a = 64 ∧ ∃ l1 l2, inorder demo_tree = l1 ++ l2 ∧ inorder t' = l1 ++ 4 :: l2.
Proof.
  apply (tsearch_correct Z.sub 4 64 demo_tree_state demo_tree).
  - exact sub_key_order.
  - exact demo_tree_holds.
  - exact demo_tree_ordered.
  - lia.
  - reflexivity.
Defined.

Lemma tdelete_correct_witness :
  ∃ a s' t', tdelete Z.sub 5 demo_tree_state = Some (a, s') ∧ holds s' t' ∧ ordered Z.sub t' ∧
    if decide (Exists (λ x, 5 - x = 0) (inorder demo_tree))
    then a ≠ 0 ∧ (∃ l1 k l2, inorder demo_tree = l1 ++ k :: l2 ∧ inorder t' = l1 ++ l2 ∧ 5 - k = 0) ∧
      ∃ f, addresses demo_tree ≡ₚ f :: addresses t' ∧ ts_nodes s' !! f = None
    else a = 0 ∧ s' = demo_tree_state ∧ t' = demo_tree.
Proof.
  apply (tdelete_correct Z.sub 5 demo_tree_state demo_tree).
  - exact sub_key_order.
  - exact demo_tree_holds.
  - exact demo_tree_ordered.
Defined.
