(* ===== verification/LibCtype.v ===== *)
(** * Character classes: example_libc/src/ctype.c, example_libc/include/ctype.h

    The classification table and the macros that read it. *)

From S2P Require Import Prelude LibBase.

Local Open Scope Z_scope.

Definition CTYPE_UPPER : Z := 1.
Definition CTYPE_LOWER : Z := 2.
Definition CTYPE_DIGIT : Z := 4.
Definition CTYPE_SPACE : Z := 8.
Definition CTYPE_XDIGIT : Z := 16.
Definition CTYPE_CNTRL : Z := 32.
Definition CTYPE_PUNCT : Z := 64.
Definition CTYPE_BLANK : Z := 128.

Definition ctype_table : list Z :=
  [CTYPE_CNTRL; CTYPE_CNTRL; CTYPE_CNTRL; CTYPE_CNTRL; CTYPE_CNTRL; CTYPE_CNTRL; CTYPE_CNTRL; CTYPE_CNTRL;
   CTYPE_CNTRL; Z.lor (Z.lor CTYPE_CNTRL CTYPE_SPACE) CTYPE_BLANK; Z.lor CTYPE_CNTRL CTYPE_SPACE; Z.lor CTYPE_CNTRL CTYPE_SPACE; Z.lor CTYPE_CNTRL CTYPE_SPACE; Z.lor CTYPE_CNTRL CTYPE_SPACE; CTYPE_CNTRL; CTYPE_CNTRL;
   CTYPE_CNTRL; CTYPE_CNTRL; CTYPE_CNTRL; CTYPE_CNTRL; CTYPE_CNTRL; CTYPE_CNTRL; CTYPE_CNTRL; CTYPE_CNTRL;
   CTYPE_CNTRL; CTYPE_CNTRL; CTYPE_CNTRL; CTYPE_CNTRL; CTYPE_CNTRL; CTYPE_CNTRL; CTYPE_CNTRL; CTYPE_CNTRL;
   Z.lor CTYPE_SPACE CTYPE_BLANK; CTYPE_PUNCT; CTYPE_PUNCT; CTYPE_PUNCT; CTYPE_PUNCT; CTYPE_PUNCT; CTYPE_PUNCT; CTYPE_PUNCT;
   CTYPE_PUNCT; CTYPE_PUNCT; CTYPE_PUNCT; CTYPE_PUNCT; CTYPE_PUNCT; CTYPE_PUNCT; CTYPE_PUNCT; CTYPE_PUNCT;
   Z.lor CTYPE_DIGIT CTYPE_XDIGIT; Z.lor CTYPE_DIGIT CTYPE_XDIGIT; Z.lor CTYPE_DIGIT CTYPE_XDIGIT; Z.lor CTYPE_DIGIT CTYPE_XDIGIT; Z.lor CTYPE_DIGIT CTYPE_XDIGIT; Z.lor CTYPE_DIGIT CTYPE_XDIGIT; Z.lor CTYPE_DIGIT CTYPE_XDIGIT; Z.lor CTYPE_DIGIT CTYPE_XDIGIT;
   Z.lor CTYPE_DIGIT CTYPE_XDIGIT; Z.lor CTYPE_DIGIT CTYPE_XDIGIT; CTYPE_PUNCT; CTYPE_PUNCT; CTYPE_PUNCT; CTYPE_PUNCT; CTYPE_PUNCT; CTYPE_PUNCT;
   CTYPE_PUNCT; Z.lor CTYPE_UPPER CTYPE_XDIGIT; Z.lor CTYPE_UPPER CTYPE_XDIGIT; Z.lor CTYPE_UPPER CTYPE_XDIGIT; Z.lor CTYPE_UPPER CTYPE_XDIGIT; Z.lor CTYPE_UPPER CTYPE_XDIGIT; Z.lor CTYPE_UPPER CTYPE_XDIGIT; CTYPE_UPPER;
   CTYPE_UPPER; CTYPE_UPPER; CTYPE_UPPER; CTYPE_UPPER; CTYPE_UPPER; CTYPE_UPPER; CTYPE_UPPER; CTYPE_UPPER;
   CTYPE_UPPER; CTYPE_UPPER; CTYPE_UPPER; CTYPE_UPPER; CTYPE_UPPER; CTYPE_UPPER; CTYPE_UPPER; CTYPE_UPPER;
   CTYPE_UPPER; CTYPE_UPPER; CTYPE_UPPER; CTYPE_PUNCT; CTYPE_PUNCT; CTYPE_PUNCT; CTYPE_PUNCT; CTYPE_PUNCT;
   CTYPE_PUNCT; Z.lor CTYPE_LOWER CTYPE_XDIGIT; Z.lor CTYPE_LOWER CTYPE_XDIGIT; Z.lor CTYPE_LOWER CTYPE_XDIGIT; Z.lor CTYPE_LOWER CTYPE_XDIGIT; Z.lor CTYPE_LOWER CTYPE_XDIGIT; Z.lor CTYPE_LOWER CTYPE_XDIGIT; CTYPE_LOWER;
   CTYPE_LOWER; CTYPE_LOWER; CTYPE_LOWER; CTYPE_LOWER; CTYPE_LOWER; CTYPE_LOWER; CTYPE_LOWER; CTYPE_LOWER;
   CTYPE_LOWER; CTYPE_LOWER; CTYPE_LOWER; CTYPE_LOWER; CTYPE_LOWER; CTYPE_LOWER; CTYPE_LOWER; CTYPE_LOWER;
   CTYPE_LOWER; CTYPE_LOWER; CTYPE_LOWER; CTYPE_PUNCT; CTYPE_PUNCT; CTYPE_PUNCT; CTYPE_PUNCT; CTYPE_CNTRL].

(** The macro [__ctype_isflag]. *)
Definition ctype_isflag (c flag : Z) : bool :=
  (u8 c <? 128) && negb (Z.land (default 0 (ctype_table.[u8 c])) flag =? 0).

Definition isalpha (c : Z) : bool := ctype_isflag c (Z.lor CTYPE_UPPER CTYPE_LOWER).
Definition isdigit (c : Z) : bool := ctype_isflag c CTYPE_DIGIT.
Definition isalnum (c : Z) : bool := ctype_isflag c (Z.lor (Z.lor CTYPE_UPPER CTYPE_LOWER) CTYPE_DIGIT).
Definition isspace (c : Z) : bool := ctype_isflag c CTYPE_SPACE.
Definition isupper (c : Z) : bool := ctype_isflag c CTYPE_UPPER.
Definition islower (c : Z) : bool := ctype_isflag c CTYPE_LOWER.
Definition isxdigit (c : Z) : bool := ctype_isflag c CTYPE_XDIGIT.
Definition iscntrl (c : Z) : bool := ctype_isflag c CTYPE_CNTRL.
Definition ispunct (c : Z) : bool := ctype_isflag c CTYPE_PUNCT.
Definition isblank (c : Z) : bool := ctype_isflag c CTYPE_BLANK.
Definition isgraph (c : Z) : bool := ctype_isflag c (Z.lor (Z.lor (Z.lor CTYPE_UPPER CTYPE_LOWER) CTYPE_DIGIT) CTYPE_PUNCT).
Definition isprint (c : Z) : bool :=
  ctype_isflag c (Z.lor (Z.lor (Z.lor (Z.lor CTYPE_UPPER CTYPE_LOWER) CTYPE_DIGIT) CTYPE_PUNCT) CTYPE_SPACE).

Definition tolower (c : Z) : Z := if isupper c then c + (97 - 65) else c.
Definition toupper (c : Z) : Z := if islower c then c + (65 - 97) else c.

(** ** The classes *)

Definition between (a c b : Z) : bool := (a <=? c) && (c <=? b).

(** The table gives every unsigned character its ASCII class, except that
    [isprint] also accepts the five control characters that are blank space. *)
Lemma ctype_classes c : 0 <= c < 256 →
  isupper c = between 65 c 90 ∧ islower c = between 97 c 122 ∧ isdigit c = between 48 c 57 ∧
  isalpha c = between 65 c 90 || between 97 c 122 ∧ isalnum c = between 48 c 57 || between 65 c 90 || between 97 c 122 ∧
  isspace c = (c =? 32) || between 9 c 13 ∧ isblank c = (c =? 32) || (c =? 9) ∧
  isxdigit c = between 48 c 57 || between 65 c 70 || between 97 c 102 ∧
  iscntrl c = between 0 c 31 || (c =? 127) ∧ isgraph c = between 33 c 126 ∧
  ispunct c = between 33 c 47 || between 58 c 64 || between 91 c 96 || between 123 c 126 ∧
  isprint c = between 32 c 126 || between 9 c 13.
Proof.
  apply (below (λ c, isupper c = between 65 c 90 ∧ islower c = between 97 c 122 ∧ isdigit c = between 48 c 57 ∧
    isalpha c = between 65 c 90 || between 97 c 122 ∧ isalnum c = between 48 c 57 || between 65 c 90 || between 97 c 122 ∧
    isspace c = (c =? 32) || between 9 c 13 ∧ isblank c = (c =? 32) || (c =? 9) ∧
    isxdigit c = between 48 c 57 || between 65 c 70 || between 97 c 102 ∧
    iscntrl c = between 0 c 31 || (c =? 127) ∧ isgraph c = between 33 c 126 ∧
    ispunct c = between 33 c 47 || between 58 c 64 || between 91 c 96 || between 123 c 126 ∧
    isprint c = between 32 c 126 || between 9 c 13) 256).
  vm_compute. reflexivity.
Qed.

Lemma tolower_range c : 0 <= c < 256 → 0 <= tolower c < 256 ∧ (tolower c = 0 ↔ c = 0).
Proof. apply (below (λ c, 0 <= tolower c < 256 ∧ (tolower c = 0 ↔ c = 0)) 256). vm_compute. reflexivity. Qed.
