(* ===== verification/LibString.v ===== *)
(** * Strings and memory blocks: example_libc/src/string.c, memory_ops.c,
      string_extra.c, strndup.c

    A routine that only reads works on the rest of the buffer from its pointer on
    and returns an offset.  A routine that writes works on one memory, a list of
    bytes, so that its source and destination may overlap.  [None] is an access
    outside; a null pointer returned is [Some None]. *)

From S2P Require Import Prelude CString LibBase LibCtype.

Local Open Scope Z_scope.

(** ** Reading *)

Fixpoint vstrlen (s : list Z) : option Z :=
  match s with
  | [] => None
  | c :: s => if c =? 0 then Some 0 else n ← vstrlen s; Some (n + 1)
  end.

(** [while (maxlen-- && *p)]: the character is read only while [maxlen] is not 0. *)
Fixpoint strnlen (s : list Z) (maxlen : Z) : option Z :=
  if maxlen =? 0 then Some 0 else
  match s with
  | [] => None
  | c :: s => if c =? 0 then Some 0 else n ← strnlen s (maxlen - 1); Some (n + 1)
  end.

Fixpoint vstrncmp (s1 s2 : list Z) (n : Z) : option Z :=
  if n =? 0 then Some 0 else
  match s1, s2 with
  | c1 :: s1, c2 :: s2 =>
      if negb (c1 =? c2) then Some (c1 - c2)
      else if c1 =? 0 then Some 0
      else vstrncmp s1 s2 (n - 1)
  | _, _ => None
  end.

Definition strcmp (s1 s2 : list Z) : option Z := vstrncmp s1 s2 (2 ^ 64 - 1).

(** [strcoll] in the C locale. *)
Definition strcoll (s1 s2 : list Z) : option Z := strcmp s1 s2.

Fixpoint strchr_loop (s : list Z) (ch off : Z) : option (option Z) :=
  match s with
  | [] => None
  | c :: s =>
      if c =? 0 then Some (if ch =? 0 then Some off else None)
      else if c =? ch then Some (Some off)
      else strchr_loop s ch (off + 1)
  end.
Definition strchr (s : list Z) (c : Z) : option (option Z) := strchr_loop s (u8 c) 0.

(** [strrchr] compares the [char] with an [unsigned char]. *)
Fixpoint strrchr_loop (s : list Z) (ch off : Z) (ret : option Z) : option (option Z) :=
  match s with
  | [] => None
  | c :: s =>
      let ret := if s8 c =? ch then Some off else ret in
      if c =? 0 then Some ret else strrchr_loop s ch (off + 1) ret
  end.
Definition strrchr (s : list Z) (c : Z) : option (option Z) := strrchr_loop s (u8 c) 0 None.

Fixpoint vmemcmp (n : nat) (p1 p2 : list Z) : option Z :=
  match n with
  | O => Some 0
  | S n =>
      x ← head p1; y ← head p2;
      if negb (x =? y) then Some (x - y) else vmemcmp n (tail p1) (tail p2)
  end.
Definition memcmp (p1 p2 : list Z) (n : Z) : option Z := vmemcmp (Z.to_nat n) p1 p2.

Fixpoint memchr_loop (n : nat) (p : list Z) (ch off : Z) : option (option Z) :=
  match n with
  | O => Some None
  | S n => x ← head p; if x =? ch then Some (Some off) else memchr_loop n (tail p) ch (off + 1)
  end.
Definition memchr (s : list Z) (c n : Z) : option (option Z) := memchr_loop (Z.to_nat n) s (u8 c) 0.

(** [memrchr]: from the byte before [s + n] down. *)
Fixpoint memrchr_loop (n : nat) (s : list Z) (ch : Z) : option (option Z) :=
  match n with
  | O => Some None
  | S n => x ← s.[Z.of_nat n]; if x =? ch then Some (Some (Z.of_nat n)) else memrchr_loop n s ch
  end.
Definition memrchr (s : list Z) (c n : Z) : option (option Z) := memrchr_loop (Z.to_nat n) s (u8 c).

(** [for (i = 0; i < end; i++)], [rounds] from the offset [i]. *)
Fixpoint memmem_loop (rounds : nat) (h n : list Z) (i needlelen : Z) : option (option Z) :=
  match rounds with
  | O => Some None
  | S rounds =>
      x ← head h; y ← head n;
      hit ← (if x =? y then r ← memcmp h n needlelen; Some (r =? 0) else Some false);
      if hit : bool then Some (Some i) else memmem_loop rounds (tail h) n (i + 1) needlelen
  end.
Definition memmem (haystack : list Z) (haystacklen : Z) (needle : list Z) (needlelen : Z) : option (option Z) :=
  if needlelen =? 0 then Some (Some 0)
  else if haystacklen <? needlelen then Some None
  else memmem_loop (Z.to_nat (haystacklen - needlelen + 1)) haystack needle 0 needlelen.

Fixpoint strstr_loop (h needle : list Z) (nlen off : Z) : option (option Z) :=
  match h with
  | [] => None
  | c :: h' =>
      if c =? 0 then Some None else
      n0 ← head needle;
      hit ← (if c =? n0 then r ← vstrncmp h needle nlen; Some (r =? 0) else Some false);
      if hit : bool then Some (Some off) else strstr_loop h' needle nlen (off + 1)
  end.
Definition strstr (haystack needle : list Z) : option (option Z) :=
  n0 ← head needle;
  if n0 =? 0 then Some (Some 0) else
  nlen ← vstrlen needle;
  strstr_loop haystack needle nlen 0.

Fixpoint strncasecmp (s1 s2 : list Z) (n : Z) : option Z :=
  if n =? 0 then Some 0 else
  match s1, s2 with
  | c1 :: s1, c2 :: s2 =>
      let diff := tolower c1 - tolower c2 in
      if negb (diff =? 0) then Some diff
      else if c1 =? 0 then Some 0
      else strncasecmp s1 s2 (n - 1)
  | _, _ => None
  end.
Definition strcasecmp (s1 s2 : list Z) : option Z := strncasecmp s1 s2 (2 ^ 64 - 1).

Fixpoint strcasestr_loop (h needle : list Z) (nlen off : Z) : option (option Z) :=
  match h with
  | [] => None
  | c :: h' =>
      if c =? 0 then Some None else
      n0 ← head needle;
      hit ← (if tolower c =? tolower n0 then r ← strncasecmp h needle nlen; Some (r =? 0) else Some false);
      if hit : bool then Some (Some off) else strcasestr_loop h' needle nlen (off + 1)
  end.
Definition strcasestr (haystack needle : list Z) : option (option Z) :=
  n0 ← head needle;
  if n0 =? 0 then Some (Some 0) else
  nlen ← vstrlen needle;
  strcasestr_loop haystack needle nlen 0.

(** The inner loop of [strspn], [strcspn], [strpbrk] and [strsep]: whether a
    character is one of a set. *)
Fixpoint among (c : Z) (set : list Z) : option bool :=
  match set with
  | [] => None
  | a :: set => if a =? 0 then Some false else if c =? a then Some true else among c set
  end.

Fixpoint strspn (s accept : list Z) : option Z :=
  match s with
  | [] => None
  | c :: s => if c =? 0 then Some 0 else found ← among c accept; if found : bool then n ← strspn s accept; Some (n + 1) else Some 0
  end.

Fixpoint strcspn (s reject : list Z) : option Z :=
  match s with
  | [] => None
  | c :: s => if c =? 0 then Some 0 else stop ← among c reject; if stop : bool then Some 0 else n ← strcspn s reject; Some (n + 1)
  end.

Fixpoint strpbrk_loop (s accept : list Z) (off : Z) : option (option Z) :=
  match s with
  | [] => None
  | c :: s => if c =? 0 then Some None else found ← among c accept; if found : bool then Some (Some off) else strpbrk_loop s accept (off + 1)
  end.
Definition strpbrk (s accept : list Z) : option (option Z) := strpbrk_loop s accept 0.

(** ** Writing *)

(** The text a pointer into the memory points to. *)
Definition from (m : list Z) (p : Z) : option (list Z) :=
  if (0 <=? p) && (p <=? Z.of_nat (length m)) then Some (drop (Z.to_nat p) m) else None.

Fixpoint vmemset_loop (n : nat) (m : list Z) (p c : Z) : option (list Z) :=
  match n with O => Some m | S n => m ← m.[p <- u8 c]; vmemset_loop n m (p + 1) c end.
Definition vmemset (m : list Z) (s c n : Z) : option (list Z) := vmemset_loop (Z.to_nat n) m s c.
Definition memset := vmemset.

Fixpoint vmemcpy_loop (n : nat) (m : list Z) (d s : Z) : option (list Z) :=
  match n with O => Some m | S n => x ← m.[s]; m ← m.[d <- x]; vmemcpy_loop n m (d + 1) (s + 1) end.
Definition vmemcpy (m : list Z) (dest src n : Z) : option (list Z) := vmemcpy_loop (Z.to_nat n) m dest src.
Definition memcpy := vmemcpy.

(** [while (n--) *--d = *--s]: [d] and [s] are the ends. *)
Fixpoint vmemmove_down (n : nat) (m : list Z) (d s : Z) : option (list Z) :=
  match n with O => Some m | S n => x ← m.[s - 1]; m ← m.[d - 1 <- x]; vmemmove_down n m (d - 1) (s - 1) end.
Definition vmemmove (m : list Z) (dest src n : Z) : option (list Z) :=
  if (dest =? src) || (n =? 0) then Some m
  else if dest <? src then vmemcpy_loop (Z.to_nat n) m dest src
  else vmemmove_down (Z.to_nat n) m (dest + n) (src + n).
Definition memmove := vmemmove.

(** [while ( *src) *d++ = *src++]: the memory and the end of the copy. *)
Fixpoint copy_loop (fuel : nat) (m : list Z) (d s : Z) : option (list Z * Z) :=
  match fuel with
  | O => None
  | S fuel => c ← m.[s]; if c =? 0 then Some (m, d) else m ← m.[d <- c]; copy_loop fuel m (d + 1) (s + 1)
  end.
Definition vstrcpy (m : list Z) (dest src : Z) : option (list Z) :=
  r ← copy_loop (S (length m)) m dest src; (fst r).[snd r <- 0].

(** [while (n && *src)], [n] rounds at most: the memory, the end of the copy and
    what is left of [n]. *)
Fixpoint ncopy_loop (n : nat) (m : list Z) (d s : Z) : option (list Z * Z * nat) :=
  match n with
  | O => Some (m, d, O)
  | S n' => c ← m.[s]; if c =? 0 then Some (m, d, n) else m ← m.[d <- c]; ncopy_loop n' m (d + 1) (s + 1)
  end.
Definition strncpy (m : list Z) (dest src n : Z) : option (list Z) :=
  r ← ncopy_loop (Z.to_nat n) m dest src;
  let '(m, d, n) := (r : list Z * Z * nat) in vmemset_loop n m d 0.

Definition stpncpy (m : list Z) (dest src n : Z) : option (list Z * Z) :=
  r ← ncopy_loop (Z.to_nat n) m dest src;
  let '(m, d, n) := (r : list Z * Z * nat) in
  if (n =? 0)%nat then Some (m, d) else m ← vmemset m d 0 (Z.of_nat n); Some (m, d + Z.of_nat n).

(** The end of the string in the destination, then the copy. *)
Definition strcat (m : list Z) (dest src : Z) : option (list Z) :=
  t ← from m dest; n ← vstrlen t;
  r ← copy_loop (S (length m)) m (dest + n) src; (fst r).[snd r <- 0].
Definition strncat (m : list Z) (dest src n : Z) : option (list Z) :=
  t ← from m dest; k ← vstrlen t;
  r ← ncopy_loop (Z.to_nat n) m (dest + k) src;
  let '(m, d, _) := (r : list Z * Z * nat) in m.[d <- 0].

Definition strlcpy (m : list Z) (dst src size : Z) : option (list Z * Z) :=
  t ← from m src; len ← vstrlen t;
  if negb (size =? 0) then
    let copy := if size <=? len then size - 1 else len in
    m ← vmemcpy m dst src copy; m ← m.[dst + copy <- 0]; Some (m, len)
  else Some (m, len).

Definition strlcat (m : list Z) (dst src size : Z) : option (list Z * Z) :=
  t ← from m dst; dlen ← vstrlen t;
  t ← from m src; slen ← vstrlen t;
  if dlen <? size then
    let copy := if size - dlen <=? slen then size - dlen - 1 else slen in
    m ← vmemcpy m (dst + dlen) src copy; m ← m.[dst + dlen + copy <- 0]; Some (m, u64 (dlen + slen))
  else Some (m, u64 (dlen + slen)).

(** [strxfrm] in the C locale; a null destination is [None]. *)
Definition strxfrm (m : list Z) (dest : option Z) (src n : Z) : option (list Z * Z) :=
  t ← from m src; len ← vstrlen t;
  if negb (n =? 0) then
    let copy := if n <=? len then n - 1 else len in
    match dest with
    | Some dest => m ← vmemcpy m dest src copy; m ← m.[dest + copy <- 0]; Some (m, len)
    | None => Some (m, len)
    end
  else Some (m, len).

(** [while (( *d++ = *src++) != 0)]: the pointer returned is that of the terminator. *)
Fixpoint stpcpy_loop (fuel : nat) (m : list Z) (d s : Z) : option (list Z * Z) :=
  match fuel with
  | O => None
  | S fuel => c ← m.[s]; m ← m.[d <- c]; if c =? 0 then Some (m, d) else stpcpy_loop fuel m (d + 1) (s + 1)
  end.
Definition stpcpy (m : list Z) (dest src : Z) : option (list Z * Z) := stpcpy_loop (S (length m)) m dest src.

Fixpoint memccpy_loop (n : nat) (m : list Z) (d s ch : Z) : option (list Z * option Z) :=
  match n with
  | O => Some (m, None)
  | S n => x ← m.[s]; m ← m.[d <- x]; if x =? ch then Some (m, Some (d + 1)) else memccpy_loop n m (d + 1) (s + 1) ch
  end.
Definition memccpy (m : list Z) (dest src c n : Z) : option (list Z * option Z) := memccpy_loop (Z.to_nat n) m dest src (u8 c).

Definition mempcpy (m : list Z) (dest src n : Z) : option (list Z * Z) := m ← vmemcpy m dest src n; Some (m, dest + n).

(** [strdup] and [strndup]; [dup] is the answer of [malloc], null when [None]. *)
Definition strdup (m : list Z) (s : Z) (dup : option Z) : option (list Z * option Z) :=
  t ← from m s; _ ← vstrlen t;
  match dup with
  | None => Some (m, None)
  | Some dup => m ← vstrcpy m dup s; Some (m, Some dup)
  end.
Definition strndup (m : list Z) (s n : Z) (dup : option Z) : option (list Z * option Z) :=
  t ← from m s; len ← strnlen t n;
  match dup with
  | None => Some (m, None)
  | Some dup => m ← vmemcpy m dup s len; m ← m.[dup + len <- 0]; Some (m, Some dup)
  end.

(** ** Tokens *)

(** The loops of [strtok_r] over the characters: while they are, or are not, one
    of the delimiters; the pointer at the end. *)
Fixpoint token_scan (want : bool) (delim s : list Z) (p : Z) : option Z :=
  match s with
  | [] => None
  | c :: s =>
      if c =? 0 then Some p else
      r ← strchr delim c;
      if Bool.eqb (match r with Some _ => true | None => false end) want then token_scan want delim s (p + 1) else Some p
  end.

(** [saveptr] is the variable of the caller: [None] a null pointer to it, and the
    null pointer in it is [Some None].  The token, the memory, the variable. *)
Definition strtok_r (m : list Z) (str : option Z) (delim : list Z) (saveptr : option (option Z)) :
    option (option Z * list Z * option (option Z)) :=
  let save (v : option Z) := match saveptr with Some _ => Some v | None => None end in
  match match str with Some s => Some s | None => match saveptr with Some (Some s) => Some s | _ => None end end with
  | None => Some (None, m, saveptr)
  | Some s =>
      t ← from m s; s ← token_scan true delim t s;
      c ← m.[s];
      if c =? 0 then Some (None, m, save None)
      else
        let token := s in
        t ← from m s; s ← token_scan false delim t s;
        c ← m.[s];
        if negb (c =? 0) then m ← m.[s <- 0]; Some (Some token, m, save (Some (s + 1)))
        else Some (Some token, m, save None)
  end.

Definition strtok (m : list Z) (str : option Z) (delim : list Z) (strtok_static : option Z) : option (option Z * list Z * option Z) :=
  r ← strtok_r m str delim (Some strtok_static);
  let '(tok, m, save) := (r : option Z * list Z * option (option Z)) in
  Some (tok, m, match save with Some v => v | None => None end).

Fixpoint strsep_loop (s delim : list Z) (p : Z) : option (option Z) :=
  match s with
  | [] => None
  | c :: s => if c =? 0 then Some None else hit ← among c delim; if hit : bool then Some (Some p) else strsep_loop s delim (p + 1)
  end.
Definition strsep (m : list Z) (stringp : option (option Z)) (delim : list Z) : option (option Z * list Z * option (option Z)) :=
  match stringp with
  | None | Some None => Some (None, m, stringp)
  | Some (Some tok) =>
      t ← from m tok; r ← strsep_loop t delim tok;
      match r with
      | Some s => m ← m.[s <- 0]; Some (Some tok, m, Some (Some (s + 1)))
      | None => Some (Some tok, m, Some None)
      end
  end.

(** ** Lengths and comparison *)

Lemma vstrlen_spec s r : nonzero s → vstrlen (s ++ 0 :: r) = Some (Z.of_nat (length s)).
Proof.
  induction 1 as [|c s Hc _ IH]; [done|]. cbn [app vstrlen]. rewrite (proj2 (Z.eqb_neq c 0)), IH by done. cbn. f_equal. lia.
Qed.

Lemma strnlen_spec s r n : nonzero s → 0 <= n → strnlen (s ++ 0 :: r) n = Some (Z.min n (Z.of_nat (length s))).
Proof.
  intros Hs. revert n. induction Hs as [|c s Hc _ IH]; intros n Hn; cbn [app strnlen].
  - destruct (Z.eqb_spec n 0); [by subst|]. cbn. f_equal. lia.
  - destruct (Z.eqb_spec n 0); [subst; f_equal; lia|]. rewrite (proj2 (Z.eqb_neq c 0)), IH by (done || lia). cbn. f_equal. lia.
Qed.

(** The order of strings: by the first byte that differs, a prefix first. *)
Fixpoint lex (a b : list Z) : comparison :=
  match a, b with
  | [], [] => Eq
  | [], _ => Lt
  | _, [] => Gt
  | x :: a, y :: b => match x ?= y with Eq => lex a b | c => c end
  end.

Lemma lex_eq a b : lex a b = Eq ↔ a = b.
Proof.
  revert b. induction a as [|x a IH]; intros [|y b]; cbn; try done. destruct (Z.compare_spec x y) as [->|H|H].
  - rewrite IH. split; congruence.
  - split; [done|]. intros [= ->]. lia.
  - split; [done|]. intros [= ->]. lia.
Qed.

(** Bytes of a string: not the terminator. *)
Definition string_bytes (s : list Z) : Prop := Forall (λ c, 0 < c < 256) s.

Lemma string_bytes_nonzero s : string_bytes s → nonzero s.
Proof. intros H. eapply Forall_impl; [exact H|]. cbn. lia. Qed.

Lemma vstrncmp_spec s1 r1 s2 r2 n :
  string_bytes s1 → string_bytes s2 → 0 <= n →
  ∃ d, vstrncmp (s1 ++ 0 :: r1) (s2 ++ 0 :: r2) n = Some d ∧ (d ?= 0) = lex (take (Z.to_nat n) s1) (take (Z.to_nat n) s2).
Proof.
  intros H1. revert s2 n. induction H1 as [|x s1 Hx H1 IH]; intros s2 n H2 Hn; destruct H2 as [|y s2 Hy H2]; cbn [app vstrncmp];
    destruct (Z.eqb_spec n 0) as [->|Hn0]; try (by exists 0); destruct (Z.to_nat n) as [|k] eqn:Ek; try lia; cbn [take lex].
  - exists 0. done.
  - rewrite (proj2 (Z.eqb_neq 0 y)) by lia. exists (0 - y). split; [done|]. apply Z.compare_lt_iff. lia.
  - rewrite (proj2 (Z.eqb_neq x 0)) by lia. exists (x - 0). split; [done|]. apply Z.compare_gt_iff. lia.
  - destruct (Z.eqb_spec x y) as [->|Hxy].
    + rewrite (proj2 (Z.eqb_neq y 0)) by lia. cbn [negb]. rewrite Z.compare_refl.
      destruct (IH s2 (n - 1) H2 ltac:(lia)) as (d & E & Hd). exists d. split; [exact E|].
      rewrite Hd. replace (Z.to_nat (n - 1)) with k by lia. done.
    + cbn [negb]. exists (x - y). split; [done|]. destruct (Z.compare_spec x y); [done|..].
      * apply Z.compare_lt_iff. lia.
      * apply Z.compare_gt_iff. lia.
Qed.

Lemma strcmp_spec s1 r1 s2 r2 :
  string_bytes s1 → string_bytes s2 → Z.of_nat (length s1) < 2 ^ 64 - 1 → Z.of_nat (length s2) < 2 ^ 64 - 1 →
  ∃ d, strcmp (s1 ++ 0 :: r1) (s2 ++ 0 :: r2) = Some d ∧ (d ?= 0) = lex s1 s2.
Proof.
  intros H1 H2 L1 L2. destruct (vstrncmp_spec s1 r1 s2 r2 (2 ^ 64 - 1) H1 H2 ltac:(lia)) as (d & E & Hd).
  exists d. split; [exact E|]. rewrite Hd. rewrite !take_ge by lia. done.
Qed.

(** Comparing as many characters as a string has asks for a prefix. *)
Lemma lex_take_prefix h n : lex (take (length n) h) (take (length n) n) = Eq ↔ n `prefix_of` h.
Proof.
  rewrite lex_eq, (take_ge n) by lia. split.
  - intros E. exists (drop (length n) h). rewrite <- E at 1. by rewrite take_drop.
  - intros [k ->]. by rewrite take_app_length.
Qed.

(** ** Searching *)

(** The first offset at which a list has a prefix. *)
Fixpoint first_at (n h : list Z) : option nat :=
  if decide (n `prefix_of` h) then Some 0%nat else match h with [] => None | _ :: h => S <$> first_at n h end.

Lemma first_at_spec n h :
  match first_at n h with
  | Some i => n `prefix_of` drop i h ∧ ∀ j, (j < i)%nat → ¬ n `prefix_of` drop j h
  | None => ∀ j, (j <= length h)%nat → ¬ n `prefix_of` drop j h
  end.
Proof.
  induction h as [|c h IH]; cbn [first_at].
  - destruct (decide (n `prefix_of` [])); [split; [done|lia]|]. intros j _. by rewrite drop_nil.
  - destruct (decide (n `prefix_of` c :: h)); [split; [done|lia]|]. destruct (first_at n h) as [i|]; cbn.
    + destruct IH as [H1 H2]. split; [done|]. intros [|j] Hj; [done|]. cbn. apply H2. lia.
    + intros [|j] Hj; [done|]. cbn. apply IH. lia.
Qed.

Lemma strstr_loop_spec h r n rn off :
  string_bytes h → string_bytes n → n ≠ [] →
  strstr_loop (h ++ 0 :: r) (n ++ 0 :: rn) (Z.of_nat (length n)) off =
    Some ((λ i, off + Z.of_nat i) <$> first_at n h).
Proof.
  intros Hh Hn Hne. revert off. induction Hh as [|c h Hc Hh IH]; intros off; cbn [app strstr_loop first_at].
  - destruct (decide (n `prefix_of` [])) as [Hp|]; [|done]. by apply prefix_nil_inv in Hp.
  - rewrite (proj2 (Z.eqb_neq c 0)) by lia. destruct n as [|n0 n]; [done|]. cbn [app head mbind option_bind].
    destruct (vstrncmp_spec (c :: h) r (n0 :: n) rn (Z.of_nat (length (n0 :: n)))) as (d & E & Hd); [by constructor|done|lia|].
    rewrite Nat2Z.id in Hd. cbn [app] in E. specialize (IH (off + 1)).
    destruct (decide (n0 :: n `prefix_of` c :: h)) as [Hp|Hp].
    + assert (c = n0) as <- by (destruct Hp as [k Hk]; by injection Hk). rewrite Z.eqb_refl. rewrite E. cbn [mbind option_bind].
      apply lex_take_prefix in Hp. rewrite Hp in Hd. apply Z.compare_eq_iff in Hd as ->. cbn. do 2 f_equal. lia.
    + assert ((if c =? n0 then r ← vstrncmp (c :: h ++ 0 :: r) (n0 :: n ++ 0 :: rn) (Z.of_nat (length (n0 :: n))); Some (r =? 0) else Some false) = Some false) as ->.
      { destruct (c =? n0); [|done]. rewrite E. cbn [mbind option_bind]. f_equal. apply Z.eqb_neq. intros ->. apply Hp, lex_take_prefix. by rewrite <- Hd. }
      cbn [mbind option_bind]. cbn [app] in IH. rewrite IH. destruct (first_at (n0 :: n) h); cbn; [|done]. do 2 f_equal. lia.
Qed.

Lemma strstr_spec h r n rn :
  string_bytes h → string_bytes n → strstr (h ++ 0 :: r) (n ++ 0 :: rn) = Some (Z.of_nat <$> first_at n h).
Proof.
  intros Hh Hn. unfold strstr. destruct n as [|n0 n].
  - cbn. destruct h; cbn; rewrite decide_True by apply prefix_nil; done.
  - pose proof (proj1 (proj1 (Forall_cons _ _ _) Hn)) as H0. cbn beta in H0. cbn [app head mbind option_bind].
    rewrite (proj2 (Z.eqb_neq n0 0)) by lia. change (n0 :: n ++ 0 :: rn) with ((n0 :: n) ++ 0 :: rn).
    rewrite vstrlen_spec by (by apply string_bytes_nonzero). cbn [mbind option_bind]. rewrite strstr_loop_spec by done.
    destruct (first_at (n0 :: n) h); done.
Qed.

(** ** Copies *)

(** A memory in which [n] bytes at [d] are those that were at [s]. *)
Definition copied (m m' : list Z) (d s n : Z) : Prop :=
  length m' = length m ∧ ∀ i, m'.[i] = if decide (d <= i < d + n) then m.[i - d + s] else m.[i].

Lemma vmemcpy_loop_spec n m d s :
  0 <= d → 0 <= s → d + Z.of_nat n <= Z.of_nat (length m) → s + Z.of_nat n <= Z.of_nat (length m) →
  d <= s ∨ s + Z.of_nat n <= d →
  ∃ m', vmemcpy_loop n m d s = Some m' ∧ copied m m' d s (Z.of_nat n).
Proof.
  revert m d s. induction n as [|n IH]; intros m d s Hd Hs Hdm Hsm Hov.
  - exists m. split; [done|]. split; [done|]. intros i. by rewrite decide_False by lia.
  - cbn [vmemcpy_loop]. destruct (idx_is_Some m s) as [x Hx]; [lia|]. rewrite Hx. cbn [mbind option_bind].
    rewrite (upd_Some m d) by lia. cbn [mbind option_bind]. pose proof (upd_Some m d x ltac:(lia)) as Hu.
    remember (<[Z.to_nat d := x]> m) as m1 eqn:Em. clear Em. pose proof (upd_length _ _ _ _ Hu) as Hl.
    destruct (IH m1 (d + 1) (s + 1)) as (m' & -> & Hl' & Hm'); [lia..|]. exists m'. split; [done|]. split; [congruence|].
    intros i. rewrite Hm'. destruct (decide (i = d)) as [->|Hi].
    + rewrite decide_False, (decide_True (P := d <= d < _)) by lia. rewrite (upd_idx_eq _ _ _ _ Hu). by replace (d - d + s) with s by lia.
    + destruct (decide (d + 1 <= i < d + 1 + Z.of_nat n)).
      * rewrite (decide_True (P := d <= i < _)) by lia. replace (i - (d + 1) + (s + 1)) with (i - d + s) by lia.
        apply (upd_idx_ne _ _ d _ x); [lia|done].
      * rewrite (decide_False (P := d <= i < _)) by lia. apply (upd_idx_ne _ _ d _ x); [lia|done].
Qed.

Lemma vmemmove_down_spec n m d s :
  Z.of_nat n <= d → Z.of_nat n <= s → d <= Z.of_nat (length m) → s <= Z.of_nat (length m) → s <= d →
  ∃ m', vmemmove_down n m d s = Some m' ∧ copied m m' (d - Z.of_nat n) (s - Z.of_nat n) (Z.of_nat n).
Proof.
  revert m d s. induction n as [|n IH]; intros m d s Hd Hs Hdm Hsm Hov.
  - exists m. split; [done|]. split; [done|]. intros i. by rewrite decide_False by lia.
  - cbn [vmemmove_down]. destruct (idx_is_Some m (s - 1)) as [x Hx]; [lia|]. rewrite Hx. cbn [mbind option_bind].
    rewrite (upd_Some m (d - 1)) by lia. cbn [mbind option_bind]. pose proof (upd_Some m (d - 1) x ltac:(lia)) as Hu.
    remember (<[Z.to_nat (d - 1) := x]> m) as m1 eqn:Em. clear Em. pose proof (upd_length _ _ _ _ Hu) as Hl.
    destruct (IH m1 (d - 1) (s - 1)) as (m' & -> & Hl' & Hm'); [lia..|]. exists m'. split; [done|]. split; [congruence|].
    intros i. rewrite Hm'. destruct (decide (i = d - 1)) as [->|Hi].
    + rewrite decide_False, decide_True by lia. rewrite (upd_idx_eq _ _ _ _ Hu), <- Hx. f_equal. lia.
    + destruct (decide (d - 1 - Z.of_nat n <= i < d - 1 - Z.of_nat n + Z.of_nat n)).
      * rewrite decide_True by lia. rewrite (upd_idx_ne m m1 (d - 1) _ x); [f_equal; lia|lia|done].
      * rewrite decide_False by lia. apply (upd_idx_ne _ _ (d - 1) _ x); [lia|done].
Qed.

Lemma vmemmove_spec m dest src n :
  0 <= dest → 0 <= src → 0 <= n → dest + n <= Z.of_nat (length m) → src + n <= Z.of_nat (length m) →
  ∃ m', vmemmove m dest src n = Some m' ∧ copied m m' dest src n.
Proof.
  intros Hd Hs Hn Hdm Hsm. unfold vmemmove. rewrite <- (Z2Nat.id n Hn) in Hdm, Hsm.
  destruct (Z.eqb_spec dest src) as [->|Hne]; cbn [orb].
  { exists m. split; [done|]. split; [done|]. intros i. case_decide; [f_equal; lia|done]. }
  destruct (Z.eqb_spec n 0) as [->|Hn0].
  { exists m. split; [done|]. split; [done|]. intros i. by rewrite decide_False by lia. }
  destruct (Z.ltb_spec dest src).
  - destruct (vmemcpy_loop_spec (Z.to_nat n) m dest src) as (m' & E & H'); [lia..|]. rewrite Z2Nat.id in H' by lia. by exists m'.
  - destruct (vmemmove_down_spec (Z.to_nat n) m (dest + n) (src + n)) as (m' & E & H'); [lia..|]. rewrite Z2Nat.id in H' by lia.
    replace (dest + n - n) with dest in H' by lia. replace (src + n - n) with src in H' by lia. by exists m'.
Qed.

Lemma vmemset_loop_spec n m d c : 0 <= d → d + Z.of_nat n <= Z.of_nat (length m) →
  ∃ m', vmemset_loop n m d c = Some m' ∧ length m' = length m ∧
    ∀ i, m'.[i] = if decide (d <= i < d + Z.of_nat n) then Some (u8 c) else m.[i].
Proof.
  revert m d. induction n as [|n IH]; intros m d Hd Hdm.
  - exists m. split; [done|]. split; [done|]. intros i. by rewrite decide_False by lia.
  - cbn [vmemset_loop]. rewrite (upd_Some m d) by lia. cbn [mbind option_bind]. pose proof (upd_Some m d (u8 c) ltac:(lia)) as Hu.
    remember (<[Z.to_nat d := u8 c]> m) as m1 eqn:Em. clear Em. pose proof (upd_length _ _ _ _ Hu) as Hl.
    destruct (IH m1 (d + 1)) as (m' & -> & Hl' & Hm'); [lia..|]. exists m'. split; [done|]. split; [congruence|].
    intros i. rewrite Hm'. destruct (decide (i = d)) as [->|Hi].
    + rewrite decide_False, decide_True by lia. exact (upd_idx_eq _ _ _ _ Hu).
    + rewrite (upd_idx_ne _ _ d i (u8 c)) by (done || lia). repeat case_decide; (done || lia).
Qed.

Lemma vmemset_spec m d c n : 0 <= d → 0 <= n → d + n <= Z.of_nat (length m) →
  ∃ m', vmemset m d c n = Some m' ∧ length m' = length m ∧
    ∀ i, m'.[i] = if decide (d <= i < d + n) then Some (u8 c) else m.[i].
Proof.
  intros Hd Hn Hdm. destruct (vmemset_loop_spec (Z.to_nat n) m d c) as (m' & E & H'); [lia..|].
  rewrite Z2Nat.id in H' by lia. by exists m'.
Qed.

Lemma vmemcpy_spec m dest src n :
  0 <= dest → 0 <= src → 0 <= n → dest + n <= Z.of_nat (length m) → src + n <= Z.of_nat (length m) →
  dest <= src ∨ src + n <= dest → ∃ m', vmemcpy m dest src n = Some m' ∧ copied m m' dest src n.
Proof.
  intros Hd Hs Hn Hdm Hsm Hov. unfold vmemcpy. destruct (vmemcpy_loop_spec (Z.to_nat n) m dest src) as (m' & E & H'); [lia..|].
  rewrite Z2Nat.id in H' by lia. by exists m'.
Qed.

(** The bytes from a pointer on. *)
Lemma from_app pre t : from (pre ++ t) (Z.of_nat (length pre)) = Some t.
Proof.
  unfold from. rewrite length_app. rewrite (proj2 (Z.leb_le _ _)), (proj2 (Z.leb_le _ _)) by lia. cbn [andb].
  by rewrite Nat2Z.id, drop_app_length.
Qed.

Lemma from_Some m p t : from m p = Some t → 0 <= p ∧ p + Z.of_nat (length t) = Z.of_nat (length m) ∧ ∀ i, 0 <= i → t.[i] = m.[p + i].
Proof.
  unfold from. destruct (Z.leb_spec 0 p), (Z.leb_spec p (Z.of_nat (length m))); cbn; intros; simplify_eq. split; [done|]. split.
  - rewrite length_drop. lia.
  - intros i Hi. unfold idx. rewrite (proj2 (Z.ltb_ge i 0)), (proj2 (Z.ltb_ge (p + i) 0)) by lia. rewrite lookup_drop. f_equal. lia.
Qed.

(** [strlcpy] with a destination of [size] bytes apart from the source. *)
Lemma strlcpy_spec m dst src size s r :
  from m src = Some (s ++ 0 :: r) → nonzero s → 0 <= dst → 0 < size → dst + size <= Z.of_nat (length m) →
  dst + size <= src ∨ src + Z.of_nat (length s) < dst →
  let k := Z.min (size - 1) (Z.of_nat (length s)) in
  ∃ m', strlcpy m dst src size = Some (m', Z.of_nat (length s)) ∧ length m' = length m ∧
    ∀ i, m'.[i] = if decide (dst <= i < dst + k) then s.[i - dst] else if decide (i = dst + k) then Some 0 else m.[i].
Proof.
  intros Hsrc Hs Hd Hsz Hm Hov k. pose proof (from_Some _ _ _ Hsrc) as (Hp & Hlen & Hidx). rewrite length_app in Hlen. simpl length in Hlen.
  unfold strlcpy. rewrite Hsrc. cbn [mbind option_bind]. rewrite vstrlen_spec by done. cbn [mbind option_bind].
  rewrite (proj2 (Z.eqb_neq size 0)) by lia. cbn [negb].
  assert ((if size <=? Z.of_nat (length s) then size - 1 else Z.of_nat (length s)) = k) as Ek
    by (subst k; destruct (Z.leb_spec size (Z.of_nat (length s))); lia). cbv zeta. rewrite Ek. clear Ek.
  destruct (vmemcpy_spec m dst src k) as (m1 & -> & Hl1 & Hm1); [lia..|]. cbn [mbind option_bind].
  rewrite upd_Some by lia. cbn [mbind option_bind]. pose proof (upd_Some m1 (dst + k) 0 ltac:(lia)) as Hu.
  eexists. split; [reflexivity|]. split; [by rewrite length_insert|]. intros i.
  destruct (decide (i = dst + k)) as [->|Hi].
  - rewrite decide_False by lia. exact (upd_idx_eq _ _ _ _ Hu).
  - rewrite (upd_idx_ne _ _ (dst + k) i 0 ltac:(lia) Hu), Hm1. destruct (decide (dst <= i < dst + k)); [|done].
    replace (i - dst + src) with (src + (i - dst)) by lia. rewrite <- Hidx by lia. unfold idx.
    rewrite (proj2 (Z.ltb_ge _ 0)) by lia. apply lookup_app_l. lia.
Qed.

(** ** Tokens *)

Lemma strchr_loop_spec ds r ch off : string_bytes ds → 0 < ch →
  ∃ o, strchr_loop (ds ++ 0 :: r) ch off = Some o ∧ (is_Some o ↔ ch ∈ ds).
Proof.
  intros Hds Hch. revert off. induction Hds as [|d ds Hd _ IH]; intros off; cbn [app strchr_loop].
  - rewrite (proj2 (Z.eqb_neq ch 0)) by lia. exists None. split; [done|]. rewrite elem_of_nil, is_Some_alt. done.
  - rewrite (proj2 (Z.eqb_neq d 0)) by lia. destruct (Z.eqb_spec d ch) as [->|Hne].
    + exists (Some off). split; [done|]. split; [intros _; apply elem_of_cons; by left|by eexists].
    + destruct (IH (off + 1)) as (o & -> & Ho). exists o. split; [done|]. rewrite Ho, elem_of_cons. naive_solver.
Qed.

Lemma token_scan_spec want ds rd pre c t p :
  string_bytes ds → string_bytes pre → Forall (λ x, (x ∈ ds) ↔ want = true) pre →
  c = 0 ∨ (0 < c < 256 ∧ ¬ ((c ∈ ds) ↔ want = true)) →
  token_scan want (ds ++ 0 :: rd) (pre ++ c :: t) p = Some (p + Z.of_nat (length pre)).
Proof.
  intros Hds Hpre Hw Hc. revert p. induction Hpre as [|x pre Hx Hpre IH]; intros p; cbn [app token_scan].
  - destruct Hc as [->|[Hc Hn]]; [cbn; f_equal; lia|]. rewrite (proj2 (Z.eqb_neq c 0)) by lia. unfold strchr. rewrite u8_small by range.
    destruct (strchr_loop_spec ds rd c 0 Hds ltac:(lia)) as (o & -> & Ho). cbn [mbind option_bind].
    destruct o as [o|], want; cbn [Bool.eqb]; try (cbn; f_equal; lia); exfalso; apply Hn; rewrite <- Ho; split; try done; intros _; try by eexists.
  - apply Forall_cons in Hw as [Hx' Hw]. rewrite (proj2 (Z.eqb_neq x 0)) by lia. unfold strchr. rewrite u8_small by range.
    destruct (strchr_loop_spec ds rd x 0 Hds ltac:(lia)) as (o & -> & Ho). cbn [mbind option_bind].
    assert (Bool.eqb (match o with Some _ => true | None => false end) want = true) as ->.
    { destruct o as [o|], want; try done; exfalso.
      - discriminate (proj1 Hx' (proj1 Ho (ex_intro _ o eq_refl))).
      - destruct (proj2 Ho (proj2 Hx' eq_refl)); discriminate. }
    rewrite IH by done. f_equal. simpl length. lia.
Qed.

(** One call of [strtok_r] on the rest of a text: the word after the delimiters
    is terminated in place, and the next call starts after it. *)
Lemma strtok_r_word pre dels word d more r ds rd save :
  string_bytes ds → string_bytes dels → string_bytes word → word ≠ [] →
  Forall (λ x, x ∈ ds) dels → Forall (λ x, x ∉ ds) word → 0 < d < 256 → d ∈ ds →
  strtok_r (pre ++ dels ++ word ++ d :: more ++ 0 :: r) (Some (Z.of_nat (length pre))) (ds ++ 0 :: rd) (Some save) =
    Some (Some (Z.of_nat (length (pre ++ dels))), pre ++ dels ++ word ++ 0 :: more ++ 0 :: r,
          Some (Some (Z.of_nat (length (pre ++ dels ++ word)) + 1))).
Proof.
  intros Hds Hdels Hword Hne Hin Hout Hd Hdin. destruct word as [|w word]; [done|].
  unfold strtok_r. rewrite from_app. cbn [mbind option_bind].
  assert (0 < w < 256 ∧ w ∉ ds) as [Hw Hwn] by (split; [by apply Forall_cons in Hword as [? _]|by apply Forall_cons in Hout as [? _]]).
  change ((w :: word) ++ d :: more ++ 0 :: r) with (w :: word ++ d :: more ++ 0 :: r).
  rewrite (token_scan_spec true ds rd dels w); [|done|done|eapply Forall_impl; [exact Hin|]; naive_solver|right; naive_solver].
  cbn [mbind option_bind]. replace (Z.of_nat (length pre) + Z.of_nat (length dels)) with (Z.of_nat (length (pre ++ dels))) by (rewrite length_app; lia).
  rewrite (app_assoc pre dels), idx_app. cbn [mbind option_bind]. rewrite (proj2 (Z.eqb_neq w 0)) by lia.
  rewrite from_app. cbn [mbind option_bind]. change (w :: word ++ d :: more ++ 0 :: r) with ((w :: word) ++ d :: more ++ 0 :: r).
  rewrite (token_scan_spec false ds rd (w :: word) d); [|done|done|eapply Forall_impl; [exact Hout|]; naive_solver|right; naive_solver].
  cbn [mbind option_bind]. rewrite (app_assoc (pre ++ dels)).
  replace (Z.of_nat (length (pre ++ dels)) + Z.of_nat (length (w :: word))) with (Z.of_nat (length ((pre ++ dels) ++ w :: word))) by (rewrite !length_app; lia).
  rewrite idx_app. cbn [mbind option_bind]. rewrite (proj2 (Z.eqb_neq d 0)) by lia. cbn [negb]. rewrite upd_app. cbn [mbind option_bind].
  rewrite <- !app_assoc. done.
Qed.

(** A byte above 127 is never found by [strrchr]: the [char] it is compared with
    is negative. *)
Lemma strrchr_high_byte s r c : string_bytes s → 128 <= c < 256 → strrchr (s ++ 0 :: r) c = Some None.
Proof.
  intros Hs Hc. unfold strrchr. rewrite u8_small by range. generalize 0 at 2 as off.
  induction Hs as [|x s Hx _ IH]; intros off; cbn [app strrchr_loop].
  - change (s8 0) with 0. rewrite (proj2 (Z.eqb_neq 0 c)) by lia. done.
  - rewrite (proj2 (Z.eqb_neq (s8 x) c)), (proj2 (Z.eqb_neq x 0)) by (unfold s8; euclid || lia). apply IH.
Qed.

(** [stpncpy] returns the end of the destination, not its first terminator. *)
Lemma stpncpy_padded_end : stpncpy [65; 0; 9; 9; 9; 9] 2 0 4 = Some ([65; 0; 65; 0; 0; 0], 6).
Proof. reflexivity. Qed.

(** [memmove] copies whatever the overlap: afterwards the destination holds
    the bytes the source held before, and nothing else has changed. *)
Theorem memmove_correct m dest src n :
  0 <= dest → 0 <= src → 0 <= n → dest + n <= Z.of_nat (length m) → src + n <= Z.of_nat (length m) →
  ∃ m', memmove m dest src n = Some m' ∧ length m' = length m ∧
    ∀ i, m'.[i] = if decide (dest <= i < dest + n) then m.[i - dest + src] else m.[i].
Proof. apply vmemmove_spec. Qed.

(** Three bytes moved up by one. *)
Lemma memmove_correct_witness :
  ∃ m', memmove [1; 2; 3; 4; 5] 1 0 3 = Some m' ∧ length m' = 5%nat ∧
    ∀ i, m'.[i] = if decide (1 <= i < 1 + 3) then [1; 2; 3; 4; 5].[i - 1 + 0] else [1; 2; 3; 4; 5].[i].
Proof. apply (memmove_correct [1; 2; 3; 4; 5] 1 0 3); cbn; lia. Defined.

(** [strstr] finds the first occurrence: the offset it returns is the least
    at which the needle is a prefix of the rest, and null means there is none. *)
Theorem strstr_correct h r n rn :
  string_bytes h → string_bytes n →
  ∃ o, strstr (h ++ 0 :: r) (n ++ 0 :: rn) = Some o ∧
    match o with
    | Some i => ∃ k, i = Z.of_nat k ∧ (n `prefix_of` drop k h) ∧ ∀ j, (j < k)%nat → ¬ n `prefix_of` drop j h
    | None => ∀ j, (j <= length h)%nat → ¬ n `prefix_of` drop j h
    end.
Proof.
  intros Hh Hn. exists (Z.of_nat <$> first_at n h). split; [by apply strstr_spec|].
  pose proof (first_at_spec n h) as H. destruct (first_at n h) as [k|]; cbn; [|done]. by exists k.
Qed.

(** "aab" in "aaab". *)
Lemma strstr_correct_witness :
  ∃ o, strstr ([97; 97; 97; 98] ++ [0]) ([97; 97; 98] ++ [0]) = Some o ∧
    match o with
    | Some i => ∃ k, i = Z.of_nat k ∧ ([97; 97; 98] `prefix_of` drop k [97; 97; 97; 98]) ∧
        ∀ j, (j < k)%nat → ¬ [97; 97; 98] `prefix_of` drop j [97; 97; 97; 98]
    | None => ∀ j, (j <= 4)%nat → ¬ [97; 97; 98] `prefix_of` drop j [97; 97; 97; 98]
    end.
Proof. apply (strstr_correct [97; 97; 97; 98] [] [97; 97; 98] []); repeat constructor; lia. Defined.

(** [strlcpy] never writes past [size] bytes: it copies what fits, terminates
    it, leaves everything else as it was, and returns the length of the source. *)
Theorem strlcpy_bounded m dst src size s r :
  from m src = Some (s ++ 0 :: r) → nonzero s → 0 <= dst → 0 < size → dst + size <= Z.of_nat (length m) →
  dst + size <= src ∨ src + Z.of_nat (length s) < dst →
  let k := Z.min (size - 1) (Z.of_nat (length s)) in
  ∃ m', strlcpy m dst src size = Some (m', Z.of_nat (length s)) ∧ length m' = length m ∧
    ∀ i, m'.[i] = if decide (dst <= i < dst + k) then s.[i - dst] else if decide (i = dst + k) then Some 0 else m.[i].
Proof. apply strlcpy_spec. Qed.
