(* ===== verification/LibHash.v ===== *)
(** * Hash table: example_libc/src/search_hash.c

    [hcreate], [hdestroy] and [hsearch] on the one table of the program.  A key is
    the text its pointer leads to, from there to the end of its buffer, and
    [None] for a null pointer; an entry that is returned is given by its index. *)

From S2P Require Import Prelude CString LibBase LibString.

Local Open Scope Z_scope.

Record ENTRY := mk_entry { key : option (list Z); data : Z }.
Inductive ACTION := FIND | ENTER.

Record hstate := mk_hs {
  table : option (list ENTRY);
  used : option (list Z);
  table_size : Z;
  items : Z }.

Fixpoint hash_loop (s : list Z) (h : Z) : option Z :=
  match s with
  | [] => None
  | c :: s => if c =? 0 then Some h else hash_loop s (u64 (u64 (u64 (Z.shiftl h 5) + h) + c))
  end.
Definition hash_str (s : list Z) : option Z := hash_loop s 5381.

(** [hcreate]; [ok1] and [ok2] say whether the two calls of [calloc] succeed. *)
Definition hcreate (nel : Z) (ok1 ok2 : bool) (st : hstate) : Z * hstate :=
  match table st with
  | Some _ => (0, st)
  | None =>
      if negb ok1 then (0, mk_hs None (used st) (table_size st) (items st))
      else if negb ok2 then (0, mk_hs None None (table_size st) (items st))
      else (1, mk_hs (Some (replicate (Z.to_nat nel) (mk_entry None 0))) (Some (replicate (Z.to_nat nel) 0)) nel 0)
  end.

Definition hdestroy (st : hstate) : hstate := mk_hs None None 0 0.

(** The loop of [hsearch], [n] rounds from [i]: the entry and the state. *)
Fixpoint hsearch_loop (n : nat) (item : ENTRY) (text : list Z) (action : ACTION) (h i : Z) (st : hstate) : option (option Z * hstate) :=
  match n with
  | O => Some (None, st)
  | S n =>
      t ← table st; u ← used st;
      let idx := u64 (h + i) mod table_size st in
      x ← u.[idx];
      if x =? 0 then
        match action with
        | ENTER =>
            if table_size st <=? items st then Some (None, st)
            else
              t ← t.[idx <- item]; u ← u.[idx <- 1];
              Some (Some idx, mk_hs (Some t) (Some u) (table_size st) (items st + 1))
        | FIND => Some (None, st)
        end
      else
        e ← t.[idx]; k ← key e;
        r ← strcmp k text;
        if r =? 0 then Some (Some idx, st) else hsearch_loop n item text action h (i + 1) st
  end.

Definition hsearch (item : ENTRY) (action : ACTION) (st : hstate) : option (option Z * hstate) :=
  match table st, key item with
  | Some _, Some text => h ← hash_str text; hsearch_loop (Z.to_nat (table_size st)) item text action h 0 st
  | _, _ => Some (None, st)
  end.

(** ** The table as a finite map *)

(** The hash of a text and the slot of its [i]-th probe in a table of [n]. *)
Definition hash (k : list Z) : Z := foldl (λ h c, u64 (u64 (u64 (Z.shiftl h 5) + h) + c)) 5381 k.
Definition slot (n : Z) (k : list Z) (i : Z) : Z := u64 (hash k + i) mod n.

Lemma hash_str_spec k r : nonzero k → hash_str (k ++ 0 :: r) = Some (hash k).
Proof.
  unfold hash_str, hash. generalize 5381 as h. intros h Hk. revert h. induction Hk as [|c k Hc _ IH]; intros h; [done|].
  cbn [app hash_loop foldl]. rewrite (proj2 (Z.eqb_neq c 0)) by done. apply IH.
Qed.

(** A text that a key may be. *)
Definition text_ok (k : list Z) : Prop := string_bytes k ∧ Z.of_nat (length k) < 2 ^ 63.

(** A slot in use that holds a key and its data. *)
Definition occupied (t : list ENTRY) (u : list Z) (j : Z) (k : list Z) (d : Z) : Prop :=
  (∃ x, u.[j] = Some x ∧ x ≠ 0) ∧ ∃ r, t.[j] = Some (mk_entry (Some (k ++ 0 :: r)) d).

(** The table stores a map: each slot in use has a binding, and each binding is
    in the slot of one of its probes, after slots that hold other keys. *)
Record stores (t : list ENTRY) (u : list Z) (n c : Z) (m : gmap (list Z) Z) : Prop := {
  stores_table : Z.of_nat (length t) = n;
  stores_used : Z.of_nat (length u) = n;
  stores_small : n < 2 ^ 63;
  stores_items : c = Z.of_nat (length (filter (λ x, x ≠ 0) u));
  stores_slot : ∀ j x, u.[j] = Some x → x ≠ 0 → ∃ k d, occupied t u j k d ∧ m !! k = Some d;
  stores_text : ∀ k d, m !! k = Some d → text_ok k;
  stores_probe : ∀ k d, m !! k = Some d → ∃ i, 0 <= i < n ∧ occupied t u (slot n k i) k d ∧
    ∀ i', 0 <= i' < i → ∃ k' d', occupied t u (slot n k i') k' d' ∧ m !! k' = Some d' ∧ k' ≠ k }.

Definition represents (st : hstate) (m : gmap (list Z) Z) : Prop :=
  ∃ t u, table st = Some t ∧ used st = Some u ∧ stores t u (table_size st) (items st) m.

Lemma hash_nonneg k : 0 <= hash k.
Proof.
  unfold hash. assert (0 <= 5381) as H by lia. revert H. generalize 5381 as h. induction k as [|c k IH]; intros h Hh; [done|].
  cbn [foldl]. apply IH. apply u64_range.
Qed.

Lemma filter_all {A} (P : A → Prop) `{∀ x, Decision (P x)} (l : list A) : Forall P l → filter P l = l.
Proof. induction 1 as [|x l Hx _ IH]; [done|]. by rewrite filter_cons_True, IH. Qed.

Section probing.
Context (t : list ENTRY) (u : list Z) (n c : Z) (m : gmap (list Z) Z) (Hst : stores t u n c m).
Let st := mk_hs (Some t) (Some u) n c.

(** A probe of a slot that holds a key. *)
Lemma hsearch_loop_occupied a item k r action i k' d' :
  text_ok k → occupied t u (slot n k i) k' d' → m !! k' = Some d' →
  hsearch_loop (S a) item (k ++ 0 :: r) action (hash k) i st =
    if decide (k' = k) then Some (Some (slot n k i), st) else hsearch_loop a item (k ++ 0 :: r) action (hash k) (i + 1) st.
Proof.
  intros [Hk Hl] ((x & Hx & Hx0) & r' & Ht) Hm. destruct (stores_text _ _ _ _ _ Hst _ _ Hm) as [Hk' Hl'].
  cbn [hsearch_loop st table used table_size mbind option_bind]. fold (slot n k i). rewrite Hx. cbn [mbind option_bind].
  rewrite (proj2 (Z.eqb_neq x 0)), Ht by done. cbn [mbind option_bind key].
  destruct (strcmp_spec k' r' k r Hk' Hk ltac:(lia) ltac:(lia)) as (d & -> & Hd). cbn [mbind option_bind].
  destruct (decide (k' = k)) as [->|Hne].
  - rewrite (proj2 (lex_eq k k) eq_refl) in Hd. apply Z.compare_eq_iff in Hd as ->. done.
  - rewrite (proj2 (Z.eqb_neq d 0)); [done|]. intros ->. apply Hne, lex_eq. by rewrite <- Hd.
Qed.

(** Probes over slots that hold other keys. *)
Lemma hsearch_loop_skip b a item k r action i :
  text_ok k → (∀ i', i <= i' < i + Z.of_nat b → ∃ k' d', occupied t u (slot n k i') k' d' ∧ m !! k' = Some d' ∧ k' ≠ k) →
  hsearch_loop (b + a) item (k ++ 0 :: r) action (hash k) i st = hsearch_loop a item (k ++ 0 :: r) action (hash k) (i + Z.of_nat b) st.
Proof.
  intros Hk. revert i. induction b as [|b IH]; intros i Hocc; [by rewrite Z.add_0_r|].
  destruct (Hocc i ltac:(lia)) as (k' & d' & Ho & Hm & Hne). cbn [Nat.add].
  rewrite (hsearch_loop_occupied _ _ _ _ _ _ k' d' Hk Ho Hm), decide_False by done.
  rewrite IH; [f_equal; lia|]. intros i' Hi. apply Hocc. lia.
Qed.

(** A key of the map is found, whatever the action. *)
Lemma hsearch_present item k r action d :
  key item = Some (k ++ 0 :: r) → m !! k = Some d →
  ∃ j, hsearch item action st = Some (Some j, st) ∧ occupied t u j k d.
Proof.
  intros Hkey Hm. pose proof (stores_text _ _ _ _ _ Hst _ _ Hm) as Hk.
  destruct (stores_probe _ _ _ _ _ Hst k d Hm) as (i & Hi & Ho & Hbefore). exists (slot n k i). split; [|done].
  unfold hsearch. cbn [st table table_size]. rewrite Hkey, hash_str_spec by (apply string_bytes_nonzero, Hk). cbn [mbind option_bind].
  replace (Z.to_nat n) with (Z.to_nat i + S (Z.to_nat (n - i - 1)))%nat by lia.
  rewrite hsearch_loop_skip; [|done|].
  - rewrite Z2Nat.id, Z.add_0_l by lia. rewrite (hsearch_loop_occupied _ _ _ _ _ _ k d Hk Ho Hm). by rewrite decide_True.
  - intros i' Hi'. apply Hbefore. lia.
Qed.

(** The first free slot among the probes of a key, if there is one. *)
Lemma first_open k b : Z.of_nat b <= n →
  (∀ i, 0 <= i < Z.of_nat b → ∃ x, u.[slot n k i] = Some x ∧ x ≠ 0) ∨
  ∃ i, 0 <= i < Z.of_nat b ∧ u.[slot n k i] = Some 0 ∧ ∀ i', 0 <= i' < i → ∃ x, u.[slot n k i'] = Some x ∧ x ≠ 0.
Proof.
  induction b as [|b IH]; intros Hb; [left; lia|]. destruct (IH ltac:(lia)) as [Hall|(i & Hi & Hz & Hbefore)].
  - destruct (idx_is_Some u (slot n k (Z.of_nat b))) as [x Hx].
    { rewrite (stores_used _ _ _ _ _ Hst). apply Z.mod_pos_bound. lia. }
    destruct (decide (x = 0)) as [->|Hx0].
    + right. exists (Z.of_nat b). split_and!; [lia..|done|]. intros i' Hi'. apply Hall. lia.
    + left. intros i Hi. destruct (decide (i = Z.of_nat b)) as [->|]; [by exists x|]. apply Hall. lia.
  - right. exists i. split_and!; [lia..|done|done].
Qed.

Lemma used_other k i : m !! k = None → (∃ x, u.[slot n k i] = Some x ∧ x ≠ 0) →
  ∃ k' d', occupied t u (slot n k i) k' d' ∧ m !! k' = Some d' ∧ k' ≠ k.
Proof.
  intros Hm (x & Hx & Hx0). destruct (stores_slot _ _ _ _ _ Hst _ x Hx Hx0) as (k' & d' & Ho & Hk'). exists k', d'.
  split_and!; [done..|]. congruence.
Qed.

(** The number of slots in use when one is free. *)
Lemma free_slot_count j : u.[j] = Some 0 → c < n.
Proof.
  intros Hj. rewrite (stores_items _ _ _ _ _ Hst). pose proof (idx_Some_range _ _ _ Hj) as Hr.
  rewrite <- (stores_used _ _ _ _ _ Hst). unfold idx in Hj. rewrite (proj2 (Z.ltb_ge j 0)) in Hj by lia.
  rewrite <- (take_drop_middle u _ _ Hj), filter_app, filter_cons_False, !length_app by (by intros []). cbn [length].
  pose proof (length_filter (λ x, x ≠ 0) (take (Z.to_nat j) u)). pose proof (length_filter (λ x, x ≠ 0) (drop (S (Z.to_nat j)) u)). lia.
Qed.

(** A search for a key that is not in the map. *)
Lemma hsearch_absent item k r action :
  key item = Some (k ++ 0 :: r) → text_ok k → m !! k = None →
  (∀ i, 0 <= i < n → ∃ x, u.[slot n k i] = Some x ∧ x ≠ 0) ∧ hsearch item action st = Some (None, st) ∨
  ∃ i, 0 <= i < n ∧ u.[slot n k i] = Some 0 ∧ (∀ i', 0 <= i' < i → ∃ x, u.[slot n k i'] = Some x ∧ x ≠ 0) ∧
    hsearch item action st =
      match action with
      | FIND => Some (None, st)
      | ENTER => t' ← t.[slot n k i <- item]; u' ← u.[slot n k i <- 1]; Some (Some (slot n k i), mk_hs (Some t') (Some u') n (c + 1))
      end.
Proof.
  intros Hkey Hk Hm. assert (0 <= n) as Hn by (rewrite <- (stores_used _ _ _ _ _ Hst); lia).
  unfold hsearch. cbn [st table table_size]. rewrite Hkey, hash_str_spec by (apply string_bytes_nonzero, Hk). cbn [mbind option_bind].
  destruct (first_open k (Z.to_nat n)) as [Hall|(i & Hi & Hz & Hbefore)]; [lia|left|right].
  - rewrite Z2Nat.id in Hall by lia. split; [done|].
    rewrite <- (Nat.add_0_r (Z.to_nat n)), hsearch_loop_skip; [done|done|].
    intros i' Hi'. apply used_other; [done|]. apply Hall. lia.
  - exists i. split_and!; [lia..|done|done|].
    replace (Z.to_nat n) with (Z.to_nat i + S (Z.to_nat (n - i - 1)))%nat by lia.
    rewrite hsearch_loop_skip; [|done|intros i' Hi'; apply used_other; [done|]; apply Hbefore; lia].
    rewrite Z2Nat.id, Z.add_0_l by lia. cbn [hsearch_loop st table used table_size items mbind option_bind].
    fold (slot n k i). rewrite Hz. cbn [mbind option_bind Z.eqb]. destruct action; [done|].
    pose proof (free_slot_count _ Hz). by rewrite (proj2 (Z.leb_gt n c)) by lia.
Qed.

(** Entering a new key keeps the table a table of the larger map. *)
Lemma stores_enter k r d i t' u' :
  text_ok k → m !! k = None → 0 <= i < n → u.[slot n k i] = Some 0 →
  (∀ i', 0 <= i' < i → ∃ x, u.[slot n k i'] = Some x ∧ x ≠ 0) →
  t.[slot n k i <- mk_entry (Some (k ++ 0 :: r)) d] = Some t' → u.[slot n k i <- 1] = Some u' →
  stores t' u' n (c + 1) (<[k := d]> m).
Proof.
  intros Hk Hm Hi Hz Hbefore Ht Hu. assert (occupied t' u' (slot n k i) k d) as Hnew.
  { split; [exists 1; split; [by eapply upd_idx_eq|done]|]. exists r. by eapply upd_idx_eq. }
  assert (∀ j k' d', occupied t u j k' d' → occupied t' u' j k' d') as Hold.
  { intros j k' d' ((x & Hx & Hx0) & r' & Hr'). assert (slot n k i ≠ j) by (intros <-; congruence).
    split; [exists x|exists r']; [split; [|done]|]; [by rewrite (upd_idx_ne _ _ _ _ _ H Hu)|by rewrite (upd_idx_ne _ _ _ _ _ H Ht)]. }
  split.
  - by rewrite (upd_length _ _ _ _ Ht), (stores_table _ _ _ _ _ Hst).
  - by rewrite (upd_length _ _ _ _ Hu), (stores_used _ _ _ _ _ Hst).
  - apply (stores_small _ _ _ _ _ Hst).
  - rewrite (stores_items _ _ _ _ _ Hst). pose proof (idx_Some_range _ _ _ Hz) as Hr. rewrite upd_Some in Hu by done. injection Hu as <-.
    unfold idx in Hz. rewrite (proj2 (Z.ltb_ge _ 0)) in Hz by lia.
    rewrite <- (take_drop_middle u _ _ Hz) at 1. rewrite insert_take_drop by lia.
    rewrite !filter_app, filter_cons_False, filter_cons_True, !length_app by (done || (by intros [])). cbn [length]. lia.
  - intros j x Hx Hx0. destruct (decide (j = slot n k i)) as [->|Hj].
    + exists k, d. split; [done|]. by rewrite lookup_insert_eq.
    + rewrite (upd_idx_ne _ _ _ _ _ (not_eq_sym Hj) Hu) in Hx. destruct (stores_slot _ _ _ _ _ Hst j x Hx Hx0) as (k' & d' & Ho & Hk').
      exists k', d'. split; [by apply Hold|]. rewrite lookup_insert_ne; [done|congruence].
  - intros k' d' [[<- <-]|[_ Hk']]%lookup_insert_Some; [done|]. by eapply stores_text.
  - assert (∀ k1 i1, m !! k1 ≠ None ∨ k1 = k → (∃ k' d', occupied t u (slot n k1 i1) k' d' ∧ m !! k' = Some d' ∧ k' ≠ k1) →
      ∃ k' d', occupied t' u' (slot n k1 i1) k' d' ∧ <[k:=d]> m !! k' = Some d' ∧ k' ≠ k1) as Hlift.
    { intros k1 i1 _ (k' & d' & Ho & Hk' & Hne). exists k', d'. split_and!; [by apply Hold| |done]. rewrite lookup_insert_ne; [done|congruence]. }
    intros k1 d1 [[<- <-]|[Hne Hk1]]%lookup_insert_Some.
    + exists i. split_and!; [lia..|done|]. intros i' Hi'. apply Hlift; [by right|]. apply used_other; [done|]. by apply Hbefore.
    + destruct (stores_probe _ _ _ _ _ Hst k1 d1 Hk1) as (i1 & Hi1 & Ho1 & Hb1). exists i1. split_and!; [lia..|by apply Hold|].
      intros i' Hi'. apply Hlift; [left; congruence|]. by apply Hb1.
Qed.

(** Without wrap-around the probes of a key reach every slot. *)
Lemma probes_cover k j : hash k + n <= 2 ^ 64 → 0 <= hash k → 0 <= j < n → ∃ i, 0 <= i < n ∧ slot n k i = j.
Proof.
  intros Hw Hh Hj. exists ((j - hash k) mod n). pose proof (Z.mod_pos_bound (j - hash k) n ltac:(lia)) as Hb. split; [done|].
  unfold slot. rewrite u64_small by range. rewrite Zplus_mod_idemp_r. replace (hash k + (j - hash k)) with j by lia. by apply Z.mod_small.
Qed.

Lemma all_used_full k : hash k + n <= 2 ^ 64 → (∀ i, 0 <= i < n → ∃ x, u.[slot n k i] = Some x ∧ x ≠ 0) → c = n.
Proof.
  intros Hw Hall. rewrite (stores_items _ _ _ _ _ Hst). pose proof (stores_used _ _ _ _ _ Hst) as Hl.
  rewrite filter_all; [done|]. apply Forall_lookup. intros j x Hj.
  destruct (probes_cover k (Z.of_nat j)) as (i & Hi & Hs); [done|apply hash_nonneg|apply lookup_lt_Some in Hj; lia|].
  destruct (Hall i Hi) as (y & Hy & Hy0). rewrite Hs, idx_nat in Hy. congruence.
Qed.
End probing.

(** The number of bindings is the count the table keeps, so a table is full when
    the map has as many. *)
Lemma hcreate_represents nel st : table st = None → 0 <= nel < 2 ^ 63 →
  ∃ st', hcreate nel true true st = (1, st') ∧ represents st' ∅ ∧ table_size st' = nel.
Proof.
  intros Hst Hn. unfold hcreate. rewrite Hst. cbn. eexists. split; [done|]. split; [|done]. do 2 eexists. split_and!; [done..|]. cbn.
  split; try (rewrite length_replicate; lia); [lia|..].
  - induction (Z.to_nat nel) as [|k IH]; [done|]. cbn [replicate]. rewrite filter_cons_False by (by intros []). done.
  - intros j x Hj Hx. unfold idx in Hj. destruct (j <? 0); [done|]. apply lookup_replicate in Hj as [-> _]. done.
  - intros k d Hk. by rewrite lookup_empty in Hk.
  - intros k d Hk. by rewrite lookup_empty in Hk.
Qed.

Lemma hsearch_spec st m item action k r d :
  represents st m → item = mk_entry (Some (k ++ 0 :: r)) d → text_ok k → hash k + table_size st <= 2 ^ 64 →
  ∃ res st', hsearch item action st = Some (res, st') ∧
    match m !! k with
    | Some d' => st' = st ∧ ∃ j t u, res = Some j ∧ table st = Some t ∧ used st = Some u ∧ occupied t u j k d'
    | None =>
        match action with
        | FIND => res = None ∧ st' = st
        | ENTER =>
            if decide (items st < table_size st)
            then represents st' (<[k := d]> m) ∧ table_size st' = table_size st ∧
              ∃ j t' u', res = Some j ∧ table st' = Some t' ∧ used st' = Some u' ∧ occupied t' u' j k d
            else res = None ∧ st' = st
        end
    end.
Proof.
  intros (t & u & Ht & Hu & Hs) -> Hk Hw. destruct st as [tb ub n c]. cbn in *. subst tb ub.
  destruct (m !! k) as [d'|] eqn:Hm.
  { destruct (hsearch_present t u n c m Hs (mk_entry (Some (k ++ 0 :: r)) d) k r action d' eq_refl Hm) as (j & E & Ho).
    exists (Some j). eexists. split; [exact E|]. split; [done|]. exists j, t, u. done. }
  destruct (hsearch_absent t u n c m Hs (mk_entry (Some (k ++ 0 :: r)) d) k r action eq_refl Hk Hm) as [[Hall E]|(i & Hi & Hz & Hbefore & E)].
  - exists None. eexists. split; [exact E|]. destruct action; [done|]. rewrite decide_False; [done|].
    rewrite (all_used_full t u n c m Hs k Hw Hall). lia.
  - destruct action; [exists None; eexists; split; [exact E|done]|].
    pose proof (free_slot_count t u n c m Hs _ Hz). destruct (decide (c < n)) as [_|]; [|lia]. rewrite E. clear E.
    pose proof (idx_Some_range _ _ _ Hz) as Hr.
    assert (0 <= slot n k i < Z.of_nat (length t)) as Hrt by (pose proof (stores_table _ _ _ _ _ Hs); pose proof (stores_used _ _ _ _ _ Hs); lia).
    rewrite (upd_Some t), (upd_Some u) by lia. cbn [mbind option_bind].
    pose proof (upd_Some t _ (mk_entry (Some (k ++ 0 :: r)) d) Hrt) as Et. pose proof (upd_Some u _ 1 Hr) as Eu.
    do 2 eexists. split; [reflexivity|]. split_and!; [|done|].
    + do 2 eexists. split_and!; [done..|]. cbn. by eapply (stores_enter t u n c m Hs k r d i).
    + do 3 eexists. split_and!; [done..|]. split; [exists 1; split; [by eapply upd_idx_eq|done]|]. exists r. by eapply upd_idx_eq.
Qed.

(** C26: the table is a finite map from texts to data: [hsearch] returns the entry
    of a key the map has, adds the key with [ENTER] when it is new and there is
    room, and returns null, changing nothing, otherwise.  The hash of the key
    must not wrap around while it is probed. *)
Theorem hsearch_refines_map st m item action k r d :
  represents st m → item = mk_entry (Some (k ++ 0 :: r)) d → text_ok k → hash k + table_size st <= 2 ^ 64 →
  ∃ res st', hsearch item action st = Some (res, st') ∧
    match m !! k with
    | Some d' => st' = st ∧ ∃ j t u, res = Some j ∧ table st = Some t ∧ used st = Some u ∧ occupied t u j k d'
    | None =>
        match action with
        | FIND => res = None ∧ st' = st
        | ENTER =>
            if decide (items st < table_size st)
            then represents st' (<[k := d]> m) ∧ table_size st' = table_size st ∧
              ∃ j t' u', res = Some j ∧ table st' = Some t' ∧ used st' = Some u' ∧ occupied t' u' j k d
            else res = None ∧ st' = st
        end
    end.
Proof. apply hsearch_spec. Qed.

(** Entering a key in a new table. *)
Definition fresh_table : hstate := snd (hcreate 4 true true (mk_hs None None 0 0)).

Lemma fresh_table_empty : represents fresh_table ∅.
Proof. destruct (hcreate_represents 4 (mk_hs None None 0 0) eq_refl ltac:(lia)) as (st' & E & H & _). unfold fresh_table. by rewrite E. Qed.

Lemma hsearch_refines_map_witness :
  ∃ res st', hsearch (mk_entry (Some ([107] ++ [0])) 7) ENTER fresh_table = Some (res, st') ∧
    represents st' (<[[107] := 7]> ∅) ∧ table_size st' = 4 ∧
    ∃ j t' u', res = Some j ∧ table st' = Some t' ∧ used st' = Some u' ∧ occupied t' u' j [107] 7.
Proof.
  destruct (hsearch_refines_map fresh_table ∅ (mk_entry (Some ([107] ++ [0])) 7) ENTER [107] [] 7) as (res & st' & E & H).
  - exact fresh_table_empty.
  - reflexivity.
  - split; [repeat constructor; lia|cbn; lia].
  - vm_compute. discriminate.
  - exists res, st'. split; [exact E|]. rewrite lookup_empty in H. destruct (decide _) as [_|Hn]; [exact H|].
    exfalso. apply Hn. vm_compute. reflexivity.
Defined.
