(* ===== verification/LibAlloc.v ===== *)
(** * The allocator: example_libc/src/memory.c, the build with [sbrk]

    [malloc], [free], [calloc], [realloc], [reallocf], [posix_memalign],
    [aligned_alloc], [reallocarray] and [recallocarray].  Memory is a list of
    bytes indexed by address; the headers of the blocks are in it, as the code
    lays them out: a size and a link of eight bytes each before the data.

    [sbrk] belongs to the host.  As documented, it moves the break up and returns
    the old one; whether it grants a request is the parameter [grant].  The lock
    around the free list is not modelled: one thread runs.  A loop along the free
    list is given a number of rounds; [None] is the end of them, or an access
    outside the memory. *)

From S2P Require Import Prelude LibBase LibString.

Local Open Scope Z_scope.

(** ** Words in memory *)

(** A little-endian number of [n] bytes. *)
Fixpoint load (n : nat) (m : list Z) (a : Z) : option Z :=
  match n with
  | O => Some 0
  | S n => b ← m.[a]; r ← load n m (a + 1); Some (b + 256 * r)
  end.

Fixpoint store (n : nat) (m : list Z) (a v : Z) : option (list Z) :=
  match n with
  | O => Some m
  | S n => m ← m.[a <- v mod 256]; store n m (a + 1) (v / 256)
  end.

(** ** The allocator *)

Definition SIZE_MAX : Z := 2 ^ 64 - 1.
Definition POSIX_ALIGN_MAGIC : Z := 1346456647. (* 0x50414C47 *)

(** [sizeof(struct block_header)] and [sizeof(struct posix_align_hdr)]. *)
Definition HDR : Z := 16.

Record astate := mk_as {
  a_mem : list Z;
  a_brk : Z;
  a_free_list : Z;
  a_fail_after : Z;      (* vlibc_test_alloc_fail_after *)
  a_errno : Z }.

Definition set_mem (m : list Z) (s : astate) : astate := mk_as m (a_brk s) (a_free_list s) (a_fail_after s) (a_errno s).
Definition set_free_list (f : Z) (s : astate) : astate := mk_as (a_mem s) (a_brk s) f (a_fail_after s) (a_errno s).
Definition set_fail_after (f : Z) (s : astate) : astate := mk_as (a_mem s) (a_brk s) (a_free_list s) f (a_errno s).
Definition set_errno (e : Z) (s : astate) : astate := mk_as (a_mem s) (a_brk s) (a_free_list s) (a_fail_after s) e.

(** The fields of a header. *)
Definition get_size (s : astate) (h : Z) : option Z := load 8 (a_mem s) h.
Definition get_next (s : astate) (h : Z) : option Z := load 8 (a_mem s) (h + 8).
Definition put_size (s : astate) (h v : Z) : option astate := m ← store 8 (a_mem s) h v; Some (set_mem m s).
Definition put_next (s : astate) (h v : Z) : option astate := m ← store 8 (a_mem s) (h + 8) v; Some (set_mem m s).

Definition free_impl (ptr : Z) (s : astate) : option astate :=
  if ptr =? 0 then Some s else
  let hdr := ptr - HDR in
  s ← put_next s hdr (a_free_list s);
  Some (set_free_list hdr s).

Section allocator.
(** [grant brk n]: whether [sbrk(n)] succeeds at a break. *)
Context (grant : Z → Z → bool).

Definition sbrk (n : Z) (s : astate) : option (Z * astate) :=
  if grant (a_brk s) n then Some (a_brk s, mk_as (a_mem s) (a_brk s + n) (a_free_list s) (a_fail_after s) (a_errno s))
  else None.

(** The first-fit search: the block found, or [Some None] at the end of the list. *)
Fixpoint first_fit (fuel : nat) (size prev b : Z) (s : astate) : option (option (Z * astate)) :=
  match fuel with
  | O => None
  | S fuel =>
      if b =? 0 then Some None else
      sz ← get_size s b; next ← get_next s b;
      if size <=? sz then
        s ← (if negb (prev =? 0) then put_next s prev next else Some (set_free_list next s));
        s ← put_size s b size;
        Some (Some (b, s))
      else first_fit fuel size b next s
  end.

(** The test hook: [vlibc_test_alloc_fail_after >= 0 && vlibc_test_alloc_fail_after-- == 0]. *)
Definition fail_hook (s : astate) : bool * astate :=
  if 0 <=? a_fail_after s then
    if a_fail_after s =? 0 then (true, set_fail_after (-1) (set_errno ENOMEM s))
    else (false, set_fail_after (a_fail_after s - 1) s)
  else (false, s).

(** The pointer returned, 0 for null. *)
Definition malloc (fuel : nat) (size : Z) (s : astate) : option (Z * astate) :=
  let '(fails, s) := fail_hook s in
  if fails then Some (0, s)
  else if size =? 0 then Some (0, s)
  else
    match sbrk 0 s with
    | None => Some (0, set_errno ENOMEM s)
    | Some (_, s) =>
        if SIZE_MAX - HDR <? size then Some (0, set_errno ENOMEM s) else
        r ← first_fit fuel size 0 (a_free_list s) s;
        match r with
        | Some (b, s) => Some (b + HDR, s)
        | None =>
            match sbrk (HDR + size) s with
            | None => Some (0, set_errno ENOMEM s)
            | Some (hdr, s) => s ← put_size s hdr size; Some (hdr + HDR, s)
            end
        end
    end.

Definition free (ptr : Z) (s : astate) : option astate :=
  if ptr =? 0 then Some s else
  let ph := ptr - HDR in
  magic ← load 4 (a_mem s) ph;
  if magic =? POSIX_ALIGN_MAGIC then
    orig ← load 8 (a_mem s) (ph + 8);
    m ← store 4 (a_mem s) ph 0;
    free_impl orig (set_mem m s)
  else free_impl ptr s.

Definition calloc (fuel : nat) (nmemb size : Z) (s : astate) : option (Z * astate) :=
  if negb (size =? 0) && (SIZE_MAX / size <? nmemb) then Some (0, set_errno ENOMEM s) else
  let total := u64 (nmemb * size) in
  r ← malloc fuel total s;
  let '(ptr, s) := (r : Z * astate) in
  if negb (ptr =? 0) then m ← vmemset (a_mem s) ptr 0 total; Some (ptr, set_mem m s) else Some (ptr, s).

Definition realloc (fuel : nat) (ptr size : Z) (s : astate) : option (Z * astate) :=
  if ptr =? 0 then malloc fuel size s
  else if size =? 0 then s ← free ptr s; Some (0, s)
  else
    old ← get_size s (ptr - HDR);
    let copy := if old <? size then old else size in
    r ← malloc fuel size s;
    let '(new_ptr, s) := (r : Z * astate) in
    if new_ptr =? 0 then Some (0, s) else
    m ← vmemcpy (a_mem s) new_ptr ptr copy;
    s ← free ptr (set_mem m s);
    Some (new_ptr, s).

Definition reallocf (fuel : nat) (ptr size : Z) (s : astate) : option (Z * astate) :=
  r ← realloc fuel ptr size s;
  let '(new_ptr, s) := (r : Z * astate) in
  if (new_ptr =? 0) && negb (size =? 0) then s ← free ptr s; Some (new_ptr, s) else Some (new_ptr, s).

(** [posix_memalign]: the error code, and the pointer stored through [memptr],
    which is null when [memptr] says so. *)
Definition posix_memalign (fuel : nat) (memptr : bool) (alignment size : Z) (s : astate) : option (Z * option Z * astate) :=
  if negb memptr then Some (EINVAL, None, s)
  else if (alignment =? 0) || negb (Z.land alignment (alignment - 1) =? 0) || negb (alignment mod 8 =? 0) then Some (EINVAL, None, s)
  else
    let extra := alignment - 1 in
    if SIZE_MAX - HDR <? extra then Some (ENOMEM, None, s) else
    let extra := extra + HDR in
    if SIZE_MAX - extra <? size then Some (ENOMEM, None, s) else
    let total := size + extra in
    r ← malloc fuel total s;
    let '(orig, s) := (r : Z * astate) in
    if orig =? 0 then Some (ENOMEM, None, s) else
    let addr := u64 (orig + HDR) in
    let aligned := Z.land (u64 (addr + alignment - 1)) (u64 (Z.lnot (alignment - 1))) in
    let ph := aligned - HDR in
    m ← store 4 (a_mem s) ph POSIX_ALIGN_MAGIC;
    m ← store 8 m (ph + 8) orig;
    Some (0, Some aligned, set_mem m s).

(** [size % alignment] is undefined for 0. *)
Definition aligned_alloc (fuel : nat) (alignment size : Z) (s : astate) : option (Z * astate) :=
  if alignment =? 0 then None
  else if negb (size mod alignment =? 0) then Some (0, set_errno EINVAL s)
  else
    r ← posix_memalign fuel true alignment size s;
    let '(e, p, s) := (r : Z * option Z * astate) in
    if negb (e =? 0) then Some (0, s) else Some (default 0 p, s).

Definition reallocarray (fuel : nat) (ptr nmemb size : Z) (s : astate) : option (Z * astate) :=
  if negb (size =? 0) && (SIZE_MAX / size <? nmemb) then Some (0, set_errno ENOMEM s)
  else realloc fuel ptr (u64 (nmemb * size)) s.

Definition recallocarray (fuel : nat) (ptr nmemb size : Z) (s : astate) : option (Z * astate) :=
  if negb (size =? 0) && (SIZE_MAX / size <? nmemb) then Some (0, set_errno ENOMEM s) else
  let total := u64 (nmemb * size) in
  if ptr =? 0 then calloc fuel nmemb size s
  else if total =? 0 then s ← free ptr s; Some (0, s)
  else
    old_size ← get_size s (ptr - HDR);
    r ← realloc fuel ptr total s;
    let '(new_ptr, s) := (r : Z * astate) in
    if new_ptr =? 0 then Some (0, s)
    else if old_size <? total then m ← vmemset (a_mem s) (new_ptr + old_size) 0 (total - old_size); Some (new_ptr, set_mem m s)
    else Some (new_ptr, s).
End allocator.

(** ** Words *)

(** Two memories that agree on a range. *)
Definition same_on (m m' : list Z) (a n : Z) : Prop := ∀ i, a <= i < a + n → m'.[i] = m.[i].
Definition same_off (m m' : list Z) (a n : Z) : Prop := length m' = length m ∧ ∀ i, i < a ∨ a + n <= i → m'.[i] = m.[i].

Lemma load_same n m m' a : same_on m m' a (Z.of_nat n) → load n m' a = load n m a.
Proof.
  revert a. induction n as [|n IH]; intros a H; [done|]. cbn [load]. rewrite (H a) by lia.
  rewrite (IH (a + 1)); [done|]. intros i Hi. apply H. lia.
Qed.

Lemma load_Some n m a : 0 <= a → a + Z.of_nat n <= Z.of_nat (length m) → ∃ v, load n m a = Some v.
Proof.
  revert a. induction n as [|n IH]; intros a Ha Hl; [by exists 0|]. cbn [load].
  destruct (idx_is_Some m a) as [b ->]; [lia|]. destruct (IH (a + 1)) as [v ->]; [lia..|]. cbn. by eexists.
Qed.

Definition bytes (m : list Z) : Prop := Forall is_u8 m.

Lemma bytes_idx m i b : bytes m → m.[i] = Some b → 0 <= b < 256.
Proof.
  intros Hm Hi. unfold idx in Hi. destruct (i <? 0); [done|]. eapply Forall_lookup_1 in Hm; [|exact Hi]. unfold is_u8 in Hm. lia.
Qed.

Lemma load_range n m a v : bytes m → load n m a = Some v → 0 <= v < 256 ^ Z.of_nat n.
Proof.
  intros Hm. revert a v. induction n as [|n IH]; intros a v; cbn [load]; [intros [= <-]; cbn; lia|].
  destruct (m.[a]) as [b|] eqn:Hb; [|done]. destruct (load n m (a + 1)) as [r|] eqn:Hr; [|done]. cbn. intros [= <-].
  pose proof (bytes_idx _ _ _ Hm Hb). specialize (IH _ _ Hr). rewrite Nat2Z.inj_succ, Z.pow_succ_r by lia. lia.
Qed.

(** The low bytes of a word are the word modulo a power of 256. *)
Lemma load_low k n m a v : bytes m → (k <= n)%nat → load n m a = Some v → load k m a = Some (v mod 256 ^ Z.of_nat k).
Proof.
  intros Hm. revert n a v. induction k as [|k IH]; intros [|n] a v Hk; cbn [load]; try lia; [by rewrite Z.mod_1_r..|].
  destruct (m.[a]) as [b|] eqn:Hb; [|done]. destruct (load n m (a + 1)) as [r|] eqn:Hr; [|done]. cbn. intros [= <-].
  rewrite (IH n (a + 1) r ltac:(lia) Hr). cbn. f_equal. pose proof (bytes_idx _ _ _ Hm Hb). rewrite Nat2Z.inj_succ, Z.pow_succ_r by lia.
  rewrite Z.rem_mul_r by (try apply Z.pow_nonzero; lia). 
  replace ((b + 256 * r) mod 256) with b by (rewrite Z.mul_comm, Z.mod_add by lia; symmetry; apply Z.mod_small; lia).
  replace ((b + 256 * r) / 256) with r; [done|]. rewrite Z.mul_comm, Z.div_add by lia. rewrite Z.div_small; lia.
Qed.

Lemma store_spec n m a v : 0 <= a → a + Z.of_nat n <= Z.of_nat (length m) →
  ∃ m', store n m a v = Some m' ∧ same_off m m' a (Z.of_nat n) ∧ load n m' a = Some (v mod 256 ^ Z.of_nat n) ∧ (bytes m → bytes m').
Proof.
  revert m a v. induction n as [|n IH]; intros m a v Ha Hl.
  { exists m. split_and!; [done..|by cbn; rewrite Z.mod_1_r|done]. }
  cbn [store]. rewrite (upd_Some m a) by lia. cbn [mbind option_bind]. pose proof (upd_Some m a (v mod 256) ltac:(lia)) as Hu.
  assert (bytes m → bytes (<[Z.to_nat a := v mod 256]> m)) as Hb.
  { intros Hm. apply Forall_insert; [done|]. unfold is_u8. apply Z.mod_pos_bound. lia. }
  remember (<[Z.to_nat a := v mod 256]> m) as m1 eqn:Em. clear Em. pose proof (upd_length _ _ _ _ Hu) as Hl1.
  destruct (IH m1 (a + 1) (v / 256)) as (m' & -> & [Hl' Ho] & Hld & Hby); [lia..|]. exists m'. split_and!; [done| | |tauto].
  - split; [congruence|]. intros i Hi. rewrite Ho by lia. apply (upd_idx_ne _ _ a _ (v mod 256)); [lia|done].
  - cbn [load]. rewrite Ho by lia. rewrite (upd_idx_eq _ _ _ _ Hu). cbn [mbind option_bind]. rewrite Hld. cbn [mbind option_bind]. f_equal.
    rewrite Nat2Z.inj_succ, Z.pow_succ_r by lia. rewrite Z.rem_mul_r by (try apply Z.pow_nonzero; lia). done.
Qed.

(** ** The heap as a set of blocks *)

(** A block that was taken from the system: the bytes of data it has, and whether
    the caller holds it. *)
Record block := mk_block { cap : Z; live : bool }.

(** The free list as it is linked in memory. *)
Fixpoint chain (m : list Z) (p : Z) (l : list Z) : Prop :=
  match l with
  | [] => p = 0
  | h :: l => p = h ∧ h ≠ 0 ∧ ∃ next, load 8 m (h + 8) = Some next ∧ chain m next l
  end.

Record ainv (s : astate) (B : gmap Z block) (fl : list Z) : Prop := {
  ai_bytes : bytes (a_mem s);
  ai_memory : 0 < a_brk s <= Z.of_nat (length (a_mem s));
  ai_small : Z.of_nat (length (a_mem s)) < 2 ^ 64;
  ai_block : ∀ h b, B !! h = Some b → 0 < h ∧ 0 < cap b ∧ h + HDR + cap b <= a_brk s;
  ai_apart : ∀ h1 b1 h2 b2, B !! h1 = Some b1 → B !! h2 = Some b2 → h1 ≠ h2 → h1 + HDR + cap b1 <= h2 ∨ h2 + HDR + cap b2 <= h1;
  ai_size : ∀ h b, B !! h = Some b → ∃ v, get_size s h = Some v ∧ 0 < v <= cap b;
  ai_chain : chain (a_mem s) (a_free_list s) fl;
  ai_nodup : NoDup fl;
  ai_free : ∀ h, h ∈ fl ↔ ∃ b, B !! h = Some b ∧ live b = false }.

(** The data of the blocks the caller holds is as it was. *)
Definition kept (s s' : astate) (B : gmap Z block) : Prop :=
  ∀ h b, B !! h = Some b → live b = true → same_on (a_mem s) (a_mem s') (h + HDR) (cap b).

Lemma chain_same m m' p l : chain m p l → (∀ h, h ∈ l → same_on m m' (h + 8) 8) → chain m' p l.
Proof.
  revert p. induction l as [|h l IH]; intros p; [done|]. cbn. intros (-> & Hh & next & Hn & Hc) Hs. split_and!; [done..|].
  exists next. split; [|apply IH; [done|]; intros h' Hh'; apply Hs; by right].
  change (load 8 m' (h + 8) = Some next). rewrite (load_same 8 m m' (h + 8)); [done|]. apply Hs. by left.
Qed.

(** Taking the node after [p] out of the list. *)
Lemma chain_unlink m m' q d p h l next :
  chain m q (d ++ p :: h :: l) → NoDup (d ++ p :: h :: l) →
  (∀ x, x ∈ d ++ h :: l → same_on m m' (x + 8) 8) → load 8 m (h + 8) = Some next → load 8 m' (p + 8) = Some next →
  chain m' q (d ++ p :: l).
Proof.
  revert q. induction d as [|x d IH]; intros q.
  - cbn [app]. intros (-> & Hp & n1 & Hn1 & -> & Hh & n2 & Hn2 & Hc) Hnd Hs Hnext Hp'. split_and!; [done..|]. exists next. split; [done|].
    assert (next = n2) as -> by congruence. eapply chain_same; [exact Hc|]. intros y Hy. apply Hs. by right.
  - cbn [app chain]. intros (-> & Hx & n1 & Hn1 & Hc) [_ Hnd]%NoDup_cons Hs Hnext Hp'. split_and!; [done..|]. exists n1. split.
    + change (load 8 m' (x + 8) = Some n1). rewrite (load_same 8 m m' (x + 8)); [done|]. apply Hs. by left.
    + apply IH; [done..| |done|done]. intros y Hy. apply Hs. by right.
Qed.

Lemma put_size_spec s h v : 0 <= h → h + 8 <= Z.of_nat (length (a_mem s)) → 0 <= v < 2 ^ 64 →
  ∃ m', put_size s h v = Some (set_mem m' s) ∧ same_off (a_mem s) m' h 8 ∧ load 8 m' h = Some v ∧ (bytes (a_mem s) → bytes m').
Proof.
  intros Hh Hl Hv. unfold put_size. destruct (store_spec 8 (a_mem s) h v) as (m' & -> & Hs & Hld & Hb); [lia..|]. cbn [mbind option_bind].
  exists m'. split_and!; [done..| |done]. rewrite Hld. f_equal. apply Z.mod_small. exact Hv.
Qed.

Lemma put_next_spec s h v : 0 <= h → h + 16 <= Z.of_nat (length (a_mem s)) → 0 <= v < 2 ^ 64 →
  ∃ m', put_next s h v = Some (set_mem m' s) ∧ same_off (a_mem s) m' (h + 8) 8 ∧ load 8 m' (h + 8) = Some v ∧ (bytes (a_mem s) → bytes m').
Proof.
  intros Hh Hl Hv. unfold put_next. destruct (store_spec 8 (a_mem s) (h + 8) v) as (m' & -> & Hs & Hld & Hb); [lia..|]. cbn [mbind option_bind].
  exists m'. split_and!; [done..| |done]. rewrite Hld. f_equal. apply Z.mod_small. exact Hv.
Qed.

(** A memory in which only header fields of given blocks may differ. *)
Definition headers_only (m m' : list Z) (hs : list Z) : Prop :=
  length m' = length m ∧ ∀ i, (∀ h, h ∈ hs → i < h ∨ h + HDR <= i) → m'.[i] = m.[i].

Lemma headers_only_size m m' h : same_off m m' h 8 → headers_only m m' [h].
Proof. intros [Hl Ho]. split; [done|]. intros i Hi. apply Ho. specialize (Hi h ltac:(by left)). unfold HDR in Hi. lia. Qed.

Lemma headers_only_next m m' h : same_off m m' (h + 8) 8 → headers_only m m' [h].
Proof. intros [Hl Ho]. split; [done|]. intros i Hi. apply Ho. specialize (Hi h ltac:(by left)). unfold HDR in Hi. lia. Qed.

Lemma headers_only_trans m m1 m2 h1 h2 : headers_only m m1 h1 → headers_only m1 m2 h2 → headers_only m m2 (h1 ++ h2).
Proof.
  intros [L1 H1] [L2 H2]. split; [congruence|]. intros i Hi. rewrite H2, H1; [done|..]; intros h Hh; apply Hi, elem_of_app; auto.
Qed.

(** Headers of blocks lie outside the data and the headers of the others. *)
Lemma headers_only_kept s s' B fl hs :
  ainv s B fl → headers_only (a_mem s) (a_mem s') hs → (∀ h, h ∈ hs → is_Some (B !! h) ∨ a_brk s <= h) → kept s s' B.
Proof.
  intros H [_ Ho] Hhs h b Hb Hlive i Hi. apply Ho. intros h' Hh'. pose proof (ai_block _ _ _ H h b Hb) as (? & ? & ?). unfold HDR in *.
  destruct (Hhs h' Hh') as [[b' Hb']|Hbrk]; [|lia]. destruct (decide (h' = h)) as [->|Hne]; [lia|].
  pose proof (ai_apart _ _ _ H h' b' h b Hb' Hb Hne). pose proof (ai_block _ _ _ H h' b' Hb') as (? & ? & ?). unfold HDR in *. lia.
Qed.

Lemma headers_apart s B fl h1 b1 h2 b2 : ainv s B fl → B !! h1 = Some b1 → B !! h2 = Some b2 → h1 ≠ h2 → h1 + 16 <= h2 ∨ h2 + 16 <= h1.
Proof.
  intros H H1 H2 Hne. pose proof (ai_apart _ _ _ H h1 b1 h2 b2 H1 H2 Hne). pose proof (ai_block _ _ _ H h1 b1 H1) as (? & ? & ?).
  pose proof (ai_block _ _ _ H h2 b2 H2) as (? & ? & ?). unfold HDR in *. lia.
Qed.

(** The size a header records. *)
Definition size_of (s : astate) (h : Z) : Z := default 0 (get_size s h).

(** What taking a block off the free list does. *)
Record taken (s s' : astate) (B : gmap Z block) (fl fl' : list Z) (h size : Z) : Prop := {
  tk_brk : a_brk s' = a_brk s;
  tk_hook : a_fail_after s' = a_fail_after s;
  tk_bytes : bytes (a_mem s');
  tk_headers : ∃ hs, headers_only (a_mem s) (a_mem s') hs ∧ ∀ x, x ∈ hs → x ∈ fl;
  tk_size : get_size s' h = Some size;
  tk_sizes : ∀ x, x ≠ h → is_Some (B !! x) → get_size s' x = get_size s x;
  tk_chain : chain (a_mem s') (a_free_list s') fl' }.

Lemma take_block s B fl d h r size next :
  ainv s B fl → fl = d ++ h :: r → 0 < size < 2 ^ 64 → get_next s h = Some next →
  ∃ s', (s ← (if negb (default 0 (last d) =? 0) then put_next s (default 0 (last d)) next else Some (set_free_list next s)); put_size s h size) = Some s' ∧
    taken s s' B fl (d ++ r) h size.
Proof.
  intros H -> Hsize Hnext. pose proof (ai_nodup _ _ _ H) as Hnd. pose proof (ai_chain _ _ _ H) as Hc.
  assert (∀ x, x ∈ d ++ h :: r → ∃ b, B !! x = Some b) as Hin by (intros x Hx; apply (ai_free _ _ _ H) in Hx as (b & Hb & _); by exists b).
  destruct (Hin h) as [bh Hbh]; [apply elem_of_app; right; by left|].
  pose proof (ai_block _ _ _ H h bh Hbh) as (Hh0 & Hhc & Hhb). pose proof (ai_memory _ _ _ H) as Hmem. unfold HDR in *.
  assert (0 <= next < 2 ^ 64) as Hnr by (pose proof (load_range 8 _ _ _ (ai_bytes _ _ _ H) Hnext); change (256 ^ Z.of_nat 8) with (2 ^ 64) in *; lia).
  destruct (last d) as [p|] eqn:Hlast.
  - apply last_Some in Hlast as [d' ->]. rewrite <- app_assoc in *. cbn [app] in *.
    destruct (Hin p) as [bp Hbp]; [apply elem_of_app; right; by left|].
    pose proof (ai_block _ _ _ H p bp Hbp) as (Hp0 & Hpc & Hpb). unfold HDR in *.
    cbn [from_option id]. rewrite (proj2 (Z.eqb_neq p 0)) by lia. cbn [negb].
    destruct (put_next_spec s p next) as (m1 & -> & Ho1 & Hl1 & Hb1); [lia..|]. cbn [mbind option_bind].
    destruct (put_size_spec (set_mem m1 s) h size) as (m2 & -> & Ho2 & Hl2 & Hb2); [lia|cbn; rewrite (proj1 Ho1); lia|lia|]. cbn [a_mem set_mem] in *.
    assert (p ≠ h) as Hph.
    { apply NoDup_app in Hnd as (_ & _ & Hnd). apply NoDup_cons in Hnd as [Hnd _]. intros ->. apply Hnd. by left. }
    pose proof (headers_apart s B _ p bp h bh H Hbp Hbh Hph) as Hap.
    eexists. split; [reflexivity|]. split; cbn [a_mem a_brk a_free_list set_mem].
    + done.
    + done.
    + apply Hb2, Hb1, H.
    + exists ([p] ++ [h]). split; [eapply headers_only_trans; [by apply headers_only_next|by apply headers_only_size]|].
      intros x Hx. apply elem_of_app. right. set_solver.
    + done.
    + intros x Hx [bx Hbx]. apply (load_same 8). intros i Hi. change (Z.of_nat 8) with 8 in Hi.
      pose proof (headers_apart s B _ x bx h bh H Hbx Hbh Hx). rewrite (proj2 Ho2) by lia. apply (proj2 Ho1).
      destruct (decide (x = p)) as [->|Hxp]; [lia|]. pose proof (headers_apart s B _ x bx p bp H Hbx Hbp Hxp). lia.
    + rewrite <- app_assoc. cbn [app]. eapply chain_unlink; [exact Hc|exact Hnd| |exact Hnext|].
      * intros x Hx i Hi. destruct (Hin x) as [bx Hbx]; [apply elem_of_app in Hx as [?|?]; apply elem_of_app; [by left|right; by right]|].
        assert (x ≠ p) as Hxp.
        { intros ->. apply NoDup_app in Hnd as (_ & Hd & [Hp' _]%NoDup_cons). apply elem_of_app in Hx as [Hx|Hx]; [|done].
          apply (Hd p Hx). by left. }
        pose proof (headers_apart s B _ x bx p bp H Hbx Hbp Hxp).
        assert (i < h ∨ h + 8 <= i) by (destruct (decide (x = h)) as [->|Hxh]; [lia|]; pose proof (headers_apart s B _ x bx h bh H Hbx Hbh Hxh); lia).
        rewrite (proj2 Ho2), (proj2 Ho1) by lia. done.
      * rewrite <- Hl1. apply (load_same 8). intros i Hi. change (Z.of_nat 8) with 8 in Hi. apply (proj2 Ho2). lia.
  - apply last_None in Hlast as ->. cbn [app] in *. cbn [from_option Z.eqb negb mbind option_bind].
    destruct (put_size_spec (set_free_list next s) h size) as (m2 & -> & Ho2 & Hl2 & Hb2); [lia|cbn; lia|lia|]. cbn [a_mem set_free_list] in *.
    eexists. split; [reflexivity|]. split; cbn [a_mem a_brk a_free_list set_mem set_free_list].
    + done.
    + done.
    + apply Hb2, H.
    + exists [h]. split; [by apply headers_only_size|]. intros x Hx. set_solver.
    + done.
    + intros x Hx [bx Hbx]. apply (load_same 8). intros i Hi. change (Z.of_nat 8) with 8 in Hi.
      pose proof (headers_apart s B _ x bx h bh H Hbx Hbh Hx). apply (proj2 Ho2). lia.
    + destruct Hc as (_ & _ & n & Hn & Hc). assert (n = next) as -> by (unfold get_next in Hnext; congruence).
      eapply chain_same; [exact Hc|]. intros x Hx i Hi. destruct (Hin x) as [bx Hbx]; [by right|].
      assert (x ≠ h) as Hxh by (intros ->; by apply NoDup_cons in Hnd as [? _]).
      pose proof (headers_apart s B _ x bx h bh H Hbx Hbh Hxh). apply (proj2 Ho2). lia.
Qed.

(** The search takes the first block of the list that is large enough. *)
Lemma first_fit_spec s B fl size fuel d rest b :
  ainv s B fl → fl = d ++ rest → chain (a_mem s) b rest → (length rest < fuel)%nat → 0 < size < 2 ^ 64 →
  (first_fit fuel size (default 0 (last d)) b s = Some None ∧ Forall (λ h, size_of s h < size) rest) ∨
  ∃ r1 h r2 s', first_fit fuel size (default 0 (last d)) b s = Some (Some (h, s')) ∧
    rest = r1 ++ h :: r2 ∧ Forall (λ h, size_of s h < size) r1 ∧ size <= size_of s h ∧ taken s s' B fl (d ++ r1 ++ r2) h size.
Proof.
  intros H. revert fuel d b. induction rest as [|h rest IH]; intros [|fuel] d b Hfl Hc Hf Hsize; try (cbn in Hf; lia); cbn [first_fit].
  { cbn in Hc. subst b. left. done. }
  destruct Hc as (-> & Hh & next & Hnext & Hc). rewrite (proj2 (Z.eqb_neq h 0)) by done.
  destruct (ai_free _ _ _ H h) as [(bh & Hbh & _) _]; [subst fl; apply elem_of_app; right; by left|].
  destruct (ai_size _ _ _ H h bh Hbh) as (v & Hv & Hvc). rewrite Hv. cbn [mbind option_bind]. unfold get_next. rewrite Hnext. cbn [mbind option_bind].
  assert (size_of s h = v) as Esz by (unfold size_of; by rewrite Hv).
  destruct (Z.leb_spec size v) as [Hle|Hlt].
  - right. destruct (take_block s B fl d h rest size next H Hfl Hsize Hnext) as (s' & E & Ht).
    exists [], h, rest, s'. rewrite Esz. split_and!; [|done..|done|done].
    destruct (if negb (default 0 (last d) =? 0) then _ else _) as [s1|]; [|done]. cbn [mbind option_bind] in *. by rewrite E.
  - specialize (IH fuel (d ++ [h]) next ltac:(by rewrite <- app_assoc) Hc ltac:(cbn in Hf; lia) Hsize). rewrite last_snoc in IH. cbn [from_option id] in IH.
    destruct IH as [[E Hall]|(r1 & h' & r2 & s' & E & -> & Hr1 & Hh' & Ht)].
    + left. split; [exact E|]. constructor; [lia|done].
    + right. exists (h :: r1), h', r2, s'. split_and!; [exact E|done|constructor; [lia|done]|done|].
      by rewrite <- app_assoc in Ht.
Qed.

(** The invariant does not look at the error number and the test hook. *)
Lemma ainv_same s s' B fl :
  ainv s B fl → a_mem s' = a_mem s → a_brk s' = a_brk s → a_free_list s' = a_free_list s → ainv s' B fl.
Proof.
  intros [] Em Eb Ef. split; unfold get_size in *; rewrite ?Em, ?Eb, ?Ef; done.
Qed.

(** A block off the free list becomes one that the caller holds. *)
Lemma taken_inv s s' B d h r size b :
  ainv s B (d ++ h :: r) → taken s s' B (d ++ h :: r) (d ++ r) h size → B !! h = Some b → 0 < size <= cap b →
  ainv s' (<[h := mk_block (cap b) true]> B) (d ++ r) ∧ kept s s' B.
Proof.
  intros H T Hb Hsize. pose proof (ai_nodup _ _ _ H) as Hnd.
  assert (h ∉ d ++ r) as Hhn by (apply NoDup_app in Hnd as (_ & Hd & [Hh _]%NoDup_cons); intros [?|?]%elem_of_app; [apply (Hd h); [done|by left]|done]).
  destruct (tk_headers _ _ _ _ _ _ _ T) as (hs & Hho & Hhs).
  assert (length (a_mem s') = length (a_mem s)) as Hlen by apply Hho. split.
  - split; rewrite ?(tk_brk _ _ _ _ _ _ _ T), ?Hlen; try apply H.
    + apply (tk_bytes _ _ _ _ _ _ _ T).
    + intros x bx [[<- <-]|[_ Hx]]%lookup_insert_Some; [by apply (ai_block _ _ _ H h b)|by apply (ai_block _ _ _ H x bx)].
    + intros x bx y b2 [[<- <-]|[? Hx]]%lookup_insert_Some [[<- <-]|[? Hy]]%lookup_insert_Some Hne; [done|..].
      * by apply (ai_apart _ _ _ H h b y b2).
      * by apply (ai_apart _ _ _ H x bx h b).
      * by apply (ai_apart _ _ _ H x bx y b2).
    + intros x bx [[<- <-]|[Hne Hx]]%lookup_insert_Some; [exists size; split; [apply T|done]|].
      rewrite (tk_sizes _ _ _ _ _ _ _ T x); [by apply (ai_size _ _ _ H)|done|by eexists].
    + apply T.
    + apply NoDup_app in Hnd as (Hd & Hdr & [_ Hr]%NoDup_cons). apply NoDup_app. split_and!; try done.
      intros x Hx Hxr. apply (Hdr x Hx). by right.
    + intros x. transitivity (x ∈ d ++ h :: r ∧ x ≠ h).
      { rewrite !elem_of_app, elem_of_cons. split; [|tauto]. intros Hx. split; [tauto|]. intros ->. by apply Hhn, elem_of_app. }
      rewrite (ai_free _ _ _ H x). split.
      * intros [(bx & Hx & Hl) Hne]. exists bx. by rewrite lookup_insert_ne.
      * intros (bx & [[<- <-]|[Hne Hx]]%lookup_insert_Some & Hl); [done|]. split; [by exists bx|done].
  - eapply headers_only_kept; [exact H|exact Hho|]. intros x Hx. left. apply Hhs, (ai_free _ _ _ H) in Hx as (bx & Hbx & _). by eexists.
Qed.

(** A block from the system. *)
Lemma grown_inv s B fl size m' :
  ainv s B fl → 0 < size < 2 ^ 64 → a_brk s + (HDR + size) <= Z.of_nat (length (a_mem s)) →
  same_off (a_mem s) m' (a_brk s) 8 → load 8 m' (a_brk s) = Some size → bytes m' →
  let s' := mk_as m' (a_brk s + (HDR + size)) (a_free_list s) (a_fail_after s) (a_errno s) in
  ainv s' (<[a_brk s := mk_block size true]> B) fl ∧ kept s s' B ∧ B !! a_brk s = None.
Proof.
  intros H Hsize Hbrk Ho Hld Hby s'. pose proof (ai_memory _ _ _ H) as Hmem. unfold HDR in *.
  assert (B !! a_brk s = None) as Hnone.
  { destruct (B !! a_brk s) as [b|] eqn:E; [|done]. pose proof (ai_block _ _ _ H _ _ E) as (? & ? & ?). unfold HDR in *. lia. }
  assert (length m' = length (a_mem s)) as Hlen by apply Ho.
  assert (∀ x b, B !! x = Some b → x + 16 + cap b <= a_brk s) as Hbelow by (intros x b Hx; pose proof (ai_block _ _ _ H x b Hx) as (? & ? & ?); unfold HDR in *; lia).
  split_and!; [split|..]; cbn [a_mem a_brk a_free_list s']; rewrite ?Hlen; try done; try apply H; try lia.
  - intros x bx [[<- <-]|[_ Hx]]%lookup_insert_Some; unfold HDR; cbn [cap]; [lia|].
    pose proof (ai_block _ _ _ H x bx Hx) as (? & ? & ?). unfold HDR in *. lia.
  - unfold HDR. intros x bx y b2 [[<- <-]|[? Hx]]%lookup_insert_Some [[<- <-]|[? Hy]]%lookup_insert_Some Hne; cbn [cap]; [done|..].
    + specialize (Hbelow y b2 Hy). lia.
    + specialize (Hbelow x bx Hx). lia.
    + by apply (ai_apart _ _ _ H x bx y b2).
  - intros x bx [[<- <-]|[Hne Hx]]%lookup_insert_Some; [exists size; cbn [cap]; split; [done|lia]|].
    destruct (ai_size _ _ _ H x bx Hx) as (v & Hv & Hvc). exists v. split; [|done]. unfold get_size in *. cbn [a_mem].
    pose proof (ai_block _ _ _ H x bx Hx) as (? & ? & ?). specialize (Hbelow x bx Hx).
    change (load 8 m' x = Some v). rewrite (load_same 8 (a_mem s) m' x); [done|]. intros i Hi. change (Z.of_nat 8) with 8 in Hi. apply (proj2 Ho). lia.
  - eapply chain_same; [apply H|]. intros x Hx i Hi. apply (ai_free _ _ _ H) in Hx as (bx & Hbx & _).
    specialize (Hbelow x bx Hbx). pose proof (ai_block _ _ _ H x bx Hbx) as (? & ? & ?). apply (proj2 Ho). lia.
  - intros x. rewrite (ai_free _ _ _ H x). split.
    + intros (bx & Hx & Hl). exists bx. rewrite lookup_insert_ne; [done|congruence].
    + intros (bx & [[<- <-]|[Hne Hx]]%lookup_insert_Some & Hl); [done|]. by exists bx.
  - intros x bx Hx _ i Hi. cbn [a_mem]. specialize (Hbelow x bx Hx). unfold HDR in *. apply (proj2 Ho). lia.
Qed.

(** The outcomes of [malloc]: null with nothing changed, or a block that was not
    held, now held, with room for the request. *)
Definition allocated (s s' : astate) (B : gmap Z block) (fl : list Z) (r size : Z) : Prop :=
  length (a_mem s') = length (a_mem s) ∧
  ((r = 0 ∧ ainv s' B fl ∧ a_mem s' = a_mem s) ∨
  ∃ h c fl', r = h + HDR ∧ (B !! h = None ∨ B !! h = Some (mk_block c false)) ∧ size <= c ∧
    ainv s' (<[h := mk_block c true]> B) fl' ∧ (length fl' <= length fl)%nat ∧ kept s s' B ∧ get_size s' h = Some size ∧
    (∀ x, x ≠ h → is_Some (B !! x) → get_size s' x = get_size s x)).

Section safety.
Context (grant : Z → Z → bool).

(** What is granted exists: the memory reaches beyond the new break. *)
Definition grants_memory (s : astate) : Prop := ∀ n, 0 <= n → grant (a_brk s) n = true → a_brk s + n <= Z.of_nat (length (a_mem s)).

Lemma malloc_spec fuel size s B fl :
  ainv s B fl → grants_memory s → a_fail_after s < 0 → (length fl < fuel)%nat → 0 < size < 2 ^ 64 →
  ∃ r s', malloc grant fuel size s = Some (r, s') ∧ allocated s s' B fl r size ∧ a_fail_after s' = a_fail_after s.
Proof.
  intros H Hg Hhook Hfuel Hsize. unfold malloc, fail_hook. rewrite (proj2 (Z.leb_gt 0 _)) by lia. rewrite (proj2 (Z.eqb_neq size 0)) by lia.
  unfold sbrk at 1. destruct (grant (a_brk s) 0); cycle 1.
  { do 2 eexists. split; [reflexivity|]. split; [|done]. split; [done|]. left. split_and!; [done|by eapply ainv_same|done]. }
  cbn [a_brk a_free_list a_mem a_fail_after a_errno]. set (s0 := mk_as _ _ _ _ _).
  assert (s0 = s) as Es0 by (subst s0; destruct s; cbn; f_equal; lia). rewrite Es0. clear s0 Es0.
  destruct (Z.ltb_spec (SIZE_MAX - HDR) size) as [Hbig|Hfits].
  { do 2 eexists. split; [reflexivity|]. split; [|done]. split; [done|]. left. split_and!; [done|by eapply ainv_same|done]. }
  destruct (first_fit_spec s B fl size fuel [] fl (a_free_list s) H eq_refl (ai_chain _ _ _ H) Hfuel Hsize)
    as [[E Hall]|(r1 & h & r2 & s' & E & Hfl & Hr1 & Hh & T)]; cbn [from_option last] in E; rewrite E; cbn [mbind option_bind].
  - unfold sbrk. destruct (grant (a_brk s) (HDR + size)) eqn:Eg; cycle 1.
    { do 2 eexists. split; [reflexivity|]. split; [|done]. split; [done|]. left. split_and!; [done|by eapply ainv_same|done]. }
    pose proof (Hg (HDR + size) ltac:(unfold HDR; lia) Eg) as Hroom. pose proof (ai_memory _ _ _ H) as Hmem.
    set (s1 := mk_as (a_mem s) (a_brk s + (HDR + size)) (a_free_list s) (a_fail_after s) (a_errno s)).
    destruct (put_size_spec s1 (a_brk s) size) as (m' & -> & Ho & Hld & Hby); [lia|subst s1; cbn [a_mem]; unfold HDR in *; lia|lia|].
    cbn [mbind option_bind]. do 2 eexists. split; [reflexivity|]. split; [|done]. split; [apply Ho|]. right.
    destruct (grown_inv s B fl size m' H Hsize Hroom Ho Hld (Hby (ai_bytes _ _ _ H))) as (Hinv & Hkept & Hnone).
    exists (a_brk s), size, fl. split_and!; [done|by left|lia|exact Hinv|done|exact Hkept|exact Hld|].
    intros x Hx [bx Hbx]. pose proof (ai_block _ _ _ H x bx Hbx) as (? & ? & ?). unfold HDR in *.
    apply (load_same 8). intros i Hi. change (Z.of_nat 8) with 8 in Hi. apply (proj2 Ho). lia.
  - subst fl. destruct (ai_free _ _ _ H h) as [(b & Hb & Hlive) _]; [apply elem_of_app; right; by left|].
    destruct (ai_size _ _ _ H h b Hb) as (v & Hv & Hvc). unfold size_of in Hh. rewrite Hv in Hh. cbn [from_option id] in Hh.
    destruct (taken_inv s s' B r1 h r2 size b H T Hb ltac:(lia)) as [Hinv Hkept].
    do 2 eexists. split; [reflexivity|]. split.
    + split; [by destruct (tk_headers _ _ _ _ _ _ _ T) as (hs & Hho & _); apply Hho|].
      right. exists h, (cap b), (r1 ++ r2). split_and!; [done| |lia|exact Hinv| |exact Hkept|apply T|apply T].
      * right. destruct b as [c l]. cbn in *. by subst l.
      * rewrite !length_app. cbn. lia.
    + apply T.
Qed.
End safety.

(** The link of the free list is an address. *)
Lemma free_list_range s B fl : ainv s B fl → 0 <= a_free_list s < 2 ^ 64.
Proof.
  intros H. pose proof (ai_chain _ _ _ H) as Hc. destruct fl as [|h fl]; cbn in Hc; [lia|]. destruct Hc as (-> & _ & _).
  destruct (ai_free _ _ _ H h) as [(b & Hb & _) _]; [by left|]. pose proof (ai_block _ _ _ H h b Hb) as (? & ? & ?).
  pose proof (ai_memory _ _ _ H). pose proof (ai_small _ _ _ H). unfold HDR in *. lia.
Qed.

Lemma free_impl_spec s B fl h c :
  ainv s B fl → B !! h = Some (mk_block c true) →
  ∃ s', free_impl (h + HDR) s = Some s' ∧ ainv s' (<[h := mk_block c false]> B) (h :: fl) ∧
    headers_only (a_mem s) (a_mem s') [h] ∧ a_fail_after s' = a_fail_after s ∧ a_brk s' = a_brk s ∧
    (∀ x, is_Some (B !! x) → get_size s' x = get_size s x).
Proof.
  intros H Hb. pose proof (ai_block _ _ _ H _ _ Hb) as (Hh & Hc & Hbrk). pose proof (ai_memory _ _ _ H) as Hmem. cbn [cap] in *.
  unfold free_impl. rewrite (proj2 (Z.eqb_neq _ 0)) by (unfold HDR; lia). replace (h + HDR - HDR) with h by lia. unfold HDR in *.
  destruct (put_next_spec s h (a_free_list s)) as (m' & -> & Ho & Hld & Hby); [lia|lia|by eapply free_list_range|]. cbn [mbind option_bind].
  assert (length m' = length (a_mem s)) as Hlen by apply Ho.
  assert (∀ x bx, B !! x = Some bx → same_on (a_mem s) m' x 8 ∧ (x ≠ h → same_on (a_mem s) m' (x + 8) 8)) as Hsame.
  { intros x bx Hx. destruct (decide (x = h)) as [->|Hne].
    - split; [|done]. intros i Hi. apply (proj2 Ho). lia.
    - pose proof (headers_apart _ _ _ x bx h _ H Hx Hb Hne). split; [|intros _]; intros i Hi; apply (proj2 Ho); lia. }
  assert (h ∉ fl) as Hnot by (intros (b & Hb' & Hl)%(ai_free _ _ _ H); rewrite Hb in Hb'; by injection Hb' as <-).
  eexists. split; [reflexivity|]. split; [|split; [by apply headers_only_next|split_and!; [done..|]]].
  2: { intros x [bx Hx]. apply (load_same 8). by eapply (proj1 (Hsame x bx Hx)). }
  split; cbn [a_mem a_brk a_free_list set_mem set_free_list]; rewrite ?Hlen; try apply H.
  - apply Hby, H.
  - intros x bx [[<- <-]|[_ Hx]]%lookup_insert_Some; [by apply (ai_block _ _ _ H h _ Hb)|by apply (ai_block _ _ _ H x bx)].
  - intros x bx y b2 [[<- <-]|[? Hx]]%lookup_insert_Some [[<- <-]|[? Hy]]%lookup_insert_Some Hne; [done|..].
    + by apply (ai_apart _ _ _ H h _ y b2 Hb).
    + by apply (ai_apart _ _ _ H x bx h _ Hx Hb).
    + by apply (ai_apart _ _ _ H x bx y b2).
  - intros x bx Hx. assert (∃ b', B !! x = Some b' ∧ cap b' = cap bx) as (b' & Hb' & Ecap).
    { apply lookup_insert_Some in Hx as [[<- <-]|[_ Hx]]; [by exists (mk_block c true)|by exists bx]. }
    destruct (ai_size _ _ _ H x b' Hb') as (v & Hv & Hvc). exists v. rewrite <- Ecap. split; [|done].
    rewrite <- Hv. apply (load_same 8). by eapply (proj1 (Hsame x b' Hb')).
  - split_and!; [done|lia|]. exists (a_free_list s). split; [done|]. eapply chain_same; [apply H|]. intros x Hx.
    assert (x ≠ h) by (intros ->; done). apply (ai_free _ _ _ H) in Hx as (bx & Hbx & _). by apply (Hsame x bx Hbx).
  - apply NoDup_cons. split; [done|apply H].
  - intros x. rewrite elem_of_cons, (ai_free _ _ _ H x). split.
    + intros [->|(bx & Hx & Hl)]; [exists (mk_block c false); by rewrite lookup_insert_eq|].
      exists bx. rewrite lookup_insert_ne; [done|]. intros ->. rewrite Hb in Hx. by injection Hx as <-.
    + intros (bx & [[<- <-]|[Hne Hx]]%lookup_insert_Some & Hl); [by left|]. right. by exists bx.
Qed.

(** A size that [free] does not take for the mark of an aligned block. *)
Definition unmarked (size : Z) : Prop := size mod 2 ^ 32 ≠ POSIX_ALIGN_MAGIC.

Lemma block_free_spec s B fl h c v :
  ainv s B fl → B !! h = Some (mk_block c true) → get_size s h = Some v → unmarked v →
  ∃ s', free (h + HDR) s = Some s' ∧ ainv s' (<[h := mk_block c false]> B) (h :: fl) ∧
    headers_only (a_mem s) (a_mem s') [h] ∧ a_fail_after s' = a_fail_after s ∧ a_brk s' = a_brk s ∧
    (∀ x, is_Some (B !! x) → get_size s' x = get_size s x).
Proof.
  intros H Hb Hv Hm. pose proof (ai_block _ _ _ H _ _ Hb) as (Hh & _). unfold free.
  rewrite (proj2 (Z.eqb_neq _ 0)) by (unfold HDR; lia). replace (h + HDR - HDR) with h by lia.
  unfold get_size in Hv. rewrite (load_low 4 8 (a_mem s) h v (ai_bytes _ _ _ H) ltac:(lia) Hv). cbn [mbind option_bind].
  change (256 ^ Z.of_nat 4) with (2 ^ 32). rewrite (proj2 (Z.eqb_neq _ _)) by exact Hm. by eapply free_impl_spec.
Qed.

(** ** Programs that use the allocator *)

(** What a program does: ask for a block with [malloc] or with [calloc], give back
    the [k]-th of those it holds with [free] or resize it with [realloc], or write
    a byte into the [k]-th. *)
Inductive use :=
| Get (size : Z)
| GetZeros (nmemb size : Z)
| Put (k : nat)
| Resize (k : nat) (size : Z)
| Poke (k : nat) (off v : Z).

(** A block the program holds: its pointer, the size it asked for, and the bytes
    it knows: those it has written, and the zeros of [calloc]. *)
Record holding := mk_holding { h_ptr : Z; h_size : Z; h_written : gmap Z Z }.

Definition zeros (n : Z) : gmap Z Z := list_to_map ((λ i, (i, 0)) <$> seqZ 0 n).
Definition first_bytes (n : Z) (W : gmap Z Z) : gmap Z Z := filter (λ p, p.1 < n) W.

Definition run_use (grant : Z → Z → bool) (fuel : nat) (u : use) (s : astate) (held : list holding) : option (astate * list holding) :=
  match u with
  | Get size =>
      r ← malloc grant fuel size s;
      let '(p, s) := (r : Z * astate) in
      Some (s, if p =? 0 then held else mk_holding p size ∅ :: held)
  | GetZeros nmemb size =>
      r ← calloc grant fuel nmemb size s;
      let '(p, s) := (r : Z * astate) in
      Some (s, if p =? 0 then held else mk_holding p (nmemb * size) (zeros (nmemb * size)) :: held)
  | Resize k size =>
      match held !! k with
      | None => Some (s, held)
      | Some x =>
          r ← realloc grant fuel (h_ptr x) size s;
          let '(p, s) := (r : Z * astate) in
          Some (s, if size =? 0 then delete k held
                   else if p =? 0 then held
                   else mk_holding p size (first_bytes size (h_written x)) :: delete k held)
      end
  | Put k =>
      match held !! k with
      | None => Some (s, held)
      | Some x => s ← free (h_ptr x) s; Some (s, delete k held)
      end
  | Poke k off v =>
      match held !! k with
      | None => Some (s, held)
      | Some x =>
          if (0 <=? off) && (off <? h_size x) && (0 <=? v) && (v <? 256) then
            m ← (a_mem s).[h_ptr x + off <- v];
            Some (set_mem m s, <[k := mk_holding (h_ptr x) (h_size x) (<[off := v]> (h_written x))]> held)
          else Some (s, held)
      end
  end.

Fixpoint run_uses (grant : Z → Z → bool) (fuel : nat) (us : list use) (s : astate) (held : list holding) : option (astate * list holding) :=
  match us with
  | [] => Some (s, held)
  | u :: us => r ← run_use grant fuel u s held; run_uses grant fuel us (fst r) (snd r)
  end.

(** What a program may rely on for a block it holds. *)
Record held_ok (s : astate) (B : gmap Z block) (x : holding) : Prop := {
  ho_block : ∃ c, B !! (h_ptr x - HDR) = Some (mk_block c true) ∧ h_size x <= c;
  ho_size : get_size s (h_ptr x - HDR) = Some (h_size x) ∧ 0 < h_size x ∧ unmarked (h_size x);
  ho_data : ∀ off v, h_written x !! off = Some v → 0 <= off < h_size x ∧ (a_mem s).[h_ptr x + off] = Some v }.

Record run_inv (s : astate) (held : list holding) (B : gmap Z block) (fl : list Z) : Prop := {
  ri_inv : ainv s B fl;
  ri_hook : a_fail_after s < 0;
  ri_held : Forall (held_ok s B) held;
  ri_nodup : NoDup (h_ptr <$> held) }.

(** The arguments are of type [size_t], and no block gets a size that [free] takes
    for a mark. *)
Definition use_ok (u : use) : Prop :=
  match u with
  | Get size | Resize _ size => 0 <= size < 2 ^ 64 ∧ unmarked size
  | GetZeros nmemb size => 0 <= nmemb < 2 ^ 64 ∧ 0 <= size < 2 ^ 64 ∧ unmarked (nmemb * size)
  | Put _ | Poke _ _ _ => True
  end.

Lemma held_same s s' B B' x :
  held_ok s B x → (∀ c, B !! (h_ptr x - HDR) = Some (mk_block c true) → B' !! (h_ptr x - HDR) = Some (mk_block c true) ∧
    same_on (a_mem s) (a_mem s') (h_ptr x) c) → get_size s' (h_ptr x - HDR) = get_size s (h_ptr x - HDR) → held_ok s' B' x.
Proof.
  intros [(c & Hb & Hc) Hs Hd] Hsame Hsize. destruct (Hsame c Hb) as [Hb' Hm]. split; [by exists c|by rewrite Hsize|].
  intros off v Hv. destruct (Hd off v Hv) as [Hoff Hmem]. split; [done|]. rewrite Hm by lia. done.
Qed.

Lemma kept_data s s' B p c : kept s s' B → B !! (p - HDR) = Some (mk_block c true) → same_on (a_mem s) (a_mem s') p c.
Proof. intros Hk Hb. specialize (Hk _ _ Hb eq_refl). by replace (p - HDR + HDR) with p in Hk by lia. Qed.

(** Writes into the data of a held block. *)
Lemma data_inv s B fl h c m' :
  ainv s B fl → B !! h = Some (mk_block c true) → length m' = length (a_mem s) → bytes m' →
  (∀ i, i < h + HDR ∨ h + HDR + c <= i → m'.[i] = (a_mem s).[i]) →
  ainv (set_mem m' s) B fl ∧ (∀ x, is_Some (B !! x) → get_size (set_mem m' s) x = get_size s x).
Proof.
  intros H Hb Hlen Hby Hm.
  assert (∀ x bx j, B !! x = Some bx → x <= j < x + HDR → m'.[j] = (a_mem s).[j]) as Hhdr.
  { intros x bx j Hx Hj. apply Hm. destruct (decide (x = h)) as [->|Hne]; [lia|].
    pose proof (ai_apart _ _ _ H x bx h _ Hx Hb Hne). pose proof (ai_block _ _ _ H x bx Hx) as (? & ? & ?). cbn [cap] in *. unfold HDR in *. lia. }
  assert (∀ x, is_Some (B !! x) → get_size (set_mem m' s) x = get_size s x) as Hsize.
  { intros x [bx Hx]. apply (load_same 8). intros j Hj. change (Z.of_nat 8) with 8 in Hj. apply (Hhdr x bx j Hx). unfold HDR. lia. }
  split; [|done]. split; cbn [a_mem a_brk a_free_list set_mem]; rewrite ?Hlen; try apply H; [done|..].
  - intros x bx Hx. rewrite Hsize by (by eexists). by apply (ai_size _ _ _ H).
  - eapply chain_same; [apply H|]. intros x Hx j Hj. apply (ai_free _ _ _ H) in Hx as (bx & Hbx & _). apply (Hhdr x bx j Hbx). unfold HDR. lia.
Qed.

Lemma poke_inv s B fl h c i v m' :
  ainv s B fl → B !! h = Some (mk_block c true) → h + HDR <= i < h + HDR + c → 0 <= v < 256 → (a_mem s).[i <- v] = Some m' →
  ainv (set_mem m' s) B fl ∧ (∀ x, is_Some (B !! x) → get_size (set_mem m' s) x = get_size s x).
Proof.
  intros H Hb Hi Hv Hm. eapply data_inv; [done..|by eapply upd_length| |].
  - unfold upd in Hm. destruct (_ && _); [|done]. injection Hm as <-. apply Forall_insert; [apply H|]. unfold is_u8. lia.
  - intros j Hj. apply (upd_idx_ne _ _ i _ v); [lia|done].
Qed.

Section programs.
Context (grant : Z → Z → bool) (L : nat) (Hgrant : ∀ b n, 0 <= n → grant b n = true → b + n <= Z.of_nat L).

Lemma run_get fuel size s held B fl :
  run_inv s held B fl → length (a_mem s) = L → use_ok (Get size) → (length fl < fuel)%nat →
  ∃ s' held' B' fl', run_use grant fuel (Get size) s held = Some (s', held') ∧ run_inv s' held' B' fl' ∧
    (length fl' <= length fl)%nat ∧ length (a_mem s') = L.
Proof.
  intros H HL [Hsize Hun] Hf. pose proof (ri_inv _ _ _ _ H) as Hi. destruct (decide (size = 0)) as [->|Hsz].
  { exists s, held, B, fl. split; [|done]. unfold run_use, malloc, fail_hook.
    by rewrite (proj2 (Z.leb_gt 0 _)) by apply H. }
  destruct (malloc_spec grant fuel size s B fl Hi) as (r & s' & E & [Hlen Hcase] & Hhook);
    [intros n Hn Hg; rewrite HL; by apply Hgrant|apply H|done|lia|].
  unfold run_use. rewrite E. cbn [mbind option_bind].
  destruct Hcase as [(-> & Hi' & Hm)|(h & c & fl' & -> & Hnew & Hc & Hi' & Hfl & Hk & Hs & Hss)].
  - exists s', held, B, fl. cbn [Z.eqb]. split_and!; [done| |lia|congruence]. split; [done|by rewrite Hhook; apply H| |apply H].
    eapply Forall_impl; [apply (ri_held _ _ _ _ H)|]. intros x Hx. eapply held_same; [exact Hx| |unfold get_size; by rewrite Hm].
    intros c Hb. split; [done|]. intros i _. by rewrite Hm.
  - pose proof (ai_block _ _ _ Hi' h (mk_block c true) (lookup_insert_eq _ _ _)) as (Hh & _).
    rewrite (proj2 (Z.eqb_neq _ 0)) by (unfold HDR; lia).
    exists s', (mk_holding (h + HDR) size ∅ :: held), (<[h := mk_block c true]> B), fl'. split; [reflexivity|].
    assert (∀ x, held_ok s B x → h_ptr x - HDR ≠ h) as Hne.
    { intros x [(c' & Hb & _) _ _] <-. destruct Hnew as [Hn|Hn]; rewrite Hb in Hn; done. }
    split_and!; [|lia|congruence]. split; [exact Hi'|by rewrite Hhook; apply H|..].
    + constructor.
      * split; cbn [h_ptr h_size h_written]; replace (h + HDR - HDR) with h by lia; [exists c; by rewrite lookup_insert_eq|split_and!; [done|lia|done]|].
        intros off v Hv. by rewrite lookup_empty in Hv.
      * eapply Forall_impl; [apply (ri_held _ _ _ _ H)|]. intros x Hx. specialize (Hne x Hx).
        eapply held_same; [exact Hx| |apply Hss; [done|destruct Hx as [(c' & Hb & _) _ _]; by eexists]].
        intros c' Hb. split; [by rewrite lookup_insert_ne|]. by eapply kept_data.
    + rewrite fmap_cons. apply NoDup_cons. split; [|apply H]. cbn [h_ptr]. intros (x & Hx & Hin)%list_elem_of_fmap.
      pose proof (ri_held _ _ _ _ H) as Hf'. rewrite Forall_forall in Hf'. apply (Hne x (Hf' x Hin)). lia.
Qed.

Lemma run_put fuel k s held B fl :
  run_inv s held B fl → length (a_mem s) = L →
  ∃ s' held' B' fl', run_use grant fuel (Put k) s held = Some (s', held') ∧ run_inv s' held' B' fl' ∧
    (length fl' <= S (length fl))%nat ∧ length (a_mem s') = L.
Proof.
  intros H HL. pose proof (ri_inv _ _ _ _ H) as Hi. unfold run_use. destruct (held !! k) as [x|] eqn:Hk; cycle 1.
  { exists s, held, B, fl. split_and!; try done. lia. }
  pose proof (ri_held _ _ _ _ H) as Hheld. pose proof (Forall_lookup_1 _ _ _ _ Hheld Hk) as [(c & Hb & Hc) (Hs & Hpos & Hun) _].
  destruct (block_free_spec s B fl (h_ptr x - HDR) c (h_size x) Hi Hb Hs Hun) as (s' & E & Hi' & Hho & Hhook & Hbrk & Hss).
  replace (h_ptr x - HDR + HDR) with (h_ptr x) in E by lia. rewrite E. cbn [mbind option_bind].
  exists s', (delete k held), (<[h_ptr x - HDR := mk_block c false]> B), (h_ptr x - HDR :: fl). split; [reflexivity|].
  pose proof (ri_nodup _ _ _ _ H) as Hnd. pose proof (lookup_lt_Some _ _ _ Hk) as Hlt.
  rewrite <- (take_drop_middle held k x Hk) in Hnd, Hheld.
  rewrite delete_take_drop.
  rewrite fmap_app, fmap_cons in Hnd. apply NoDup_app in Hnd as (Hnd1 & Hnd2 & [Hnd3 Hnd4]%NoDup_cons).
  assert (∀ y, y ∈ take k held ++ drop (S k) held → h_ptr y ≠ h_ptr x ∧ held_ok s B y) as Hothers.
  { rewrite Forall_app, Forall_cons in Hheld. destruct Hheld as (Hh1 & _ & Hh2). rewrite Forall_forall in Hh1, Hh2.
    intros y [Hy|Hy]%elem_of_app; (split; [|auto]); intros Ep.
    - apply (Hnd2 (h_ptr y)); [apply list_elem_of_fmap; by exists y|]. rewrite Ep. by left.
    - apply Hnd3. rewrite <- Ep. apply list_elem_of_fmap. by exists y. }
  split_and!; [|done|rewrite (proj1 Hho); done]. split; [exact Hi'|by rewrite Hhook; apply H|..].
  - apply Forall_forall. intros y Hy. destruct (Hothers y Hy) as [Hne Hok].
    eapply held_same; [exact Hok| |apply Hss; destruct Hok as [(c' & Hb' & _) _ _]; by eexists].
    intros c' Hb'. split; [rewrite lookup_insert_ne; [done|lia]|]. eapply kept_data; [|exact Hb'].
    eapply headers_only_kept; [exact Hi|exact Hho|]. intros z ->%list_elem_of_singleton. left. by eexists.
  - rewrite fmap_app. apply NoDup_app. split_and!; try done. intros p Hp Hp'. apply (Hnd2 p Hp). by right.
Qed.

(** Writing into a held block. *)
Lemma run_write k x W m' s held B fl :
  run_inv s held B fl → held !! k = Some x → length m' = length (a_mem s) → bytes m' →
  (∀ i, i < h_ptr x ∨ h_ptr x + h_size x <= i → m'.[i] = (a_mem s).[i]) →
  (∀ off v, W !! off = Some v → 0 <= off < h_size x ∧ m'.[h_ptr x + off] = Some v) →
  run_inv (set_mem m' s) (<[k := mk_holding (h_ptr x) (h_size x) W]> held) B fl.
Proof.
  intros H Hk Hlen Hby Hm HW. pose proof (ri_inv _ _ _ _ H) as Hi. pose proof (ri_held _ _ _ _ H) as Hheld.
  pose proof (Forall_lookup_1 _ _ _ _ Hheld Hk) as [(c & Hb & Hc) (Hs & Hpos & Hun) Hd].
  destruct (data_inv s B fl (h_ptr x - HDR) c m' Hi Hb Hlen Hby) as [Hi' Hss]; [intros i Hii; apply Hm; unfold HDR in *; lia|].
  split; [exact Hi'|apply H|..].
  - apply Forall_lookup. intros j y Hj. destruct (decide (j = k)) as [->|Hjk].
    + rewrite list_lookup_insert_eq in Hj by (by eapply lookup_lt_Some). injection Hj as <-.
      split; cbn [h_ptr h_size h_written a_mem set_mem]; [by exists c|by rewrite Hss by (by eexists)|exact HW].
    + rewrite list_lookup_insert_ne in Hj by done. pose proof (Forall_lookup_1 _ _ _ _ Hheld Hj) as Hy.
      assert (h_ptr y ≠ h_ptr x) as Hpy.
      { intros Ep. apply Hjk. eapply (NoDup_lookup (h_ptr <$> held)); [apply H|rewrite list_lookup_fmap, Hj; cbn; by rewrite Ep|by rewrite list_lookup_fmap, Hk]. }
      eapply held_same; [exact Hy| |apply Hss; destruct Hy as [(c' & Hb' & _) _ _]; by eexists].
      intros c' Hb'. split; [done|]. intros i Hi2. apply Hm.
      pose proof (ai_apart _ _ _ Hi _ _ _ _ Hb' Hb ltac:(lia)) as Hap. unfold HDR in Hap. cbn [cap] in Hap. lia.
  - assert (h_ptr <$> <[k:=mk_holding (h_ptr x) (h_size x) W]> held = h_ptr <$> held) as ->; [|apply H].
    apply list_eq. intros j. rewrite !list_lookup_fmap. destruct (decide (j = k)) as [->|]; [|by rewrite list_lookup_insert_ne].
    rewrite list_lookup_insert_eq by (by eapply lookup_lt_Some). by rewrite Hk.
Qed.

(** A held block lies within the memory. *)
Lemma held_room s held B fl k x : run_inv s held B fl → held !! k = Some x →
  0 < h_ptr x ∧ 0 < h_size x ∧ h_ptr x + h_size x <= Z.of_nat (length (a_mem s)).
Proof.
  intros H Hk. pose proof (Forall_lookup_1 _ _ _ _ (ri_held _ _ _ _ H) Hk) as [(c & Hb & Hc) (_ & Hpos & _) _].
  pose proof (ai_block _ _ _ (ri_inv _ _ _ _ H) _ _ Hb) as (Hh & _ & Hbrk). pose proof (ai_memory _ _ _ (ri_inv _ _ _ _ H)).
  cbn [cap] in *. unfold HDR in *. lia.
Qed.

Lemma run_poke fuel k off v s held B fl :
  run_inv s held B fl → length (a_mem s) = L →
  ∃ s' held' B' fl', run_use grant fuel (Poke k off v) s held = Some (s', held') ∧ run_inv s' held' B' fl' ∧
    (length fl' <= S (length fl))%nat ∧ length (a_mem s') = L.
Proof.
  intros H HL. unfold run_use. destruct (held !! k) as [x|] eqn:Hk; cycle 1.
  { exists s, held, B, fl. split_and!; try done. lia. }
  destruct ((0 <=? off) && (off <? h_size x) && (0 <=? v) && (v <? 256)) eqn:Eg; cycle 1.
  { exists s, held, B, fl. split_and!; try done. lia. }
  apply andb_true_iff in Eg as [Eg Ev2%Z.ltb_lt]. apply andb_true_iff in Eg as [Eg Ev1%Z.leb_le]. apply andb_true_iff in Eg as [Eo1%Z.leb_le Eo2%Z.ltb_lt].
  pose proof (held_room _ _ _ _ _ _ H Hk) as (Hp & _ & Hroom).
  pose proof (upd_Some (a_mem s) (h_ptr x + off) v ltac:(lia)) as Hu. rewrite Hu. cbn [mbind option_bind].
  eexists; eexists; exists B, fl. split; [reflexivity|]. split_and!; [|lia|cbn; by rewrite (upd_length _ _ _ _ Hu)].
  apply run_write; [done|done|by eapply upd_length|apply Forall_insert; [apply (ri_inv _ _ _ _ H)|unfold is_u8; lia]|..].
  - intros j Hj. apply (upd_idx_ne _ _ (h_ptr x + off) _ v); [lia|done].
  - intros o w [[<- <-]|[Hne Hw]]%lookup_insert_Some; [split; [lia|]; by eapply upd_idx_eq|].
    pose proof (Forall_lookup_1 _ _ _ _ (ri_held _ _ _ _ H) Hk) as [_ _ Hd]. destruct (Hd o w Hw) as [Ho Hmw].
    split; [done|]. rewrite (upd_idx_ne _ _ (h_ptr x + off) (h_ptr x + o) v ltac:(lia) Hu). done.
Qed.

Lemma zeros_lookup n off v : zeros n !! off = Some v → 0 <= off < n ∧ v = 0.
Proof.
  unfold zeros. intros E%elem_of_list_to_map_2. apply list_elem_of_fmap in E as (i & [= -> ->] & Hi%elem_of_seqZ). lia.
Qed.

(** What the code of a program's request does is what [run_get] says of it. *)
Lemma malloc_step fuel size s held B fl :
  run_inv s held B fl → length (a_mem s) = L → use_ok (Get size) → (length fl < fuel)%nat →
  ∃ p s' B' fl', malloc grant fuel size s = Some (p, s') ∧
    run_inv s' (if p =? 0 then held else mk_holding p size ∅ :: held) B' fl' ∧
    (length fl' <= length fl)%nat ∧ length (a_mem s') = L.
Proof.
  intros H HL Hok Hf. destruct (run_get fuel size s held B fl H HL Hok Hf) as (s' & held' & B' & fl' & E & Hrest).
  unfold run_use in E. destruct (malloc grant fuel size s) as [[p s1]|]; [|done]. cbn [mbind option_bind] in E.
  injection E as <- <-. by exists p, s1, B', fl'.
Qed.

Lemma run_get_zeros fuel nmemb size s held B fl :
  run_inv s held B fl → length (a_mem s) = L → use_ok (GetZeros nmemb size) → (length fl < fuel)%nat →
  ∃ s' held' B' fl', run_use grant fuel (GetZeros nmemb size) s held = Some (s', held') ∧ run_inv s' held' B' fl' ∧
    (length fl' <= S (length fl))%nat ∧ length (a_mem s') = L.
Proof.
  intros H HL (Hn & Hsz & Hun) Hf. unfold run_use, calloc.
  destruct (negb (size =? 0) && (SIZE_MAX / size <? nmemb)) eqn:Eo.
  { cbn [mbind option_bind Z.eqb]. exists (set_errno ENOMEM s), held, B, fl. split_and!; [done| |lia|done].
    destruct H as [Hi Hh Hx Hnd]. split; [by eapply ainv_same|done| |done].
    eapply Forall_impl; [exact Hx|]. intros x []. by split. }
  assert (0 <= nmemb * size < 2 ^ 64) as Htot.
  { split; [lia|]. destruct (Z.eqb_spec size 0) as [->|]; [lia|]. cbn [negb andb] in Eo. apply Z.ltb_ge in Eo.
    unfold SIZE_MAX in Eo. pose proof (Z.mul_div_le (2 ^ 64 - 1) size ltac:(lia)). nia. }
  unfold u64. rewrite Z.mod_small by done. cbv zeta.
  destruct (malloc_step fuel (nmemb * size) s held B fl H HL (conj Htot Hun) Hf) as (p & s1 & B' & fl' & -> & H1 & Hfl & HL1).
  cbn [mbind option_bind]. destruct (Z.eqb_spec p 0) as [->|Hp]; cbn [negb].
  { exists s1, held, B', fl'. split_and!; [done|done|lia|done]. }
  destruct (held_room _ _ _ _ 0 _ H1 eq_refl) as (Hp0 & _ & Hroom). cbn [h_ptr h_size] in *.
  destruct (vmemset_spec (a_mem s1) p 0 (nmemb * size)) as (m' & -> & Hl & Hm); [lia..|]. cbn [mbind option_bind].
  rewrite (proj2 (Z.eqb_neq p 0)) by done.
  eexists (set_mem m' s1), _, B', fl'. split; [reflexivity|]. split_and!; [|lia|cbn; lia].
  apply (run_write 0 _ _ m' _ _ _ _ H1 eq_refl Hl); cbn [h_ptr h_size].
  - apply Forall_lookup. intros i v Hv. specialize (Hm (Z.of_nat i)). rewrite idx_nat, Hv in Hm.
    case_decide; [injection Hm as ->; apply u8_range|]. symmetry in Hm.
    pose proof (bytes_idx _ _ _ (ai_bytes _ _ _ (ri_inv _ _ _ _ H1)) Hm). unfold is_u8. lia.
  - intros i Hi. rewrite Hm. by rewrite decide_False by lia.
  - intros off v [Hoff ->]%zeros_lookup. split; [done|]. rewrite Hm. by rewrite decide_True by lia.
Qed.

Lemma copied_bytes m m' d s n : bytes m → copied m m' d s n → bytes m'.
Proof.
  intros Hm [Hl Hc]. apply Forall_lookup. intros i x Hi. specialize (Hc (Z.of_nat i)). rewrite idx_nat, Hi in Hc.
  destruct (decide (d <= Z.of_nat i < d + n)); symmetry in Hc; pose proof (bytes_idx _ _ _ Hm Hc); unfold is_u8; lia.
Qed.

(** The part of [realloc] that moves the data: the new block is the first that is
    held, the old one is further down. *)
Lemma move_step k x p size copy s held B fl :
  run_inv s (mk_holding p size ∅ :: held) B fl → held !! k = Some x → copy = Z.min (h_size x) size →
  ∃ m', vmemcpy (a_mem s) p (h_ptr x) copy = Some m' ∧ length m' = length (a_mem s) ∧
    run_inv (set_mem m' s) (mk_holding p size (first_bytes size (h_written x)) :: held) B fl.
Proof.
  intros H Hk ->. destruct (held_room _ _ _ _ 0 _ H eq_refl) as (Hp & Hsz & Hroom). cbn [h_ptr h_size] in *.
  destruct (held_room _ _ _ _ (S k) _ H Hk) as (Hp' & Hsz' & Hroom').
  pose proof (ri_inv _ _ _ _ H) as Hi. pose proof (ri_nodup _ _ _ _ H) as Hnd. rewrite fmap_cons in Hnd. apply NoDup_cons in Hnd as [Hnd _].
  pose proof (Forall_lookup_1 _ _ 0 _ (ri_held _ _ _ _ H) eq_refl) as [(c & Hb & Hc) _ _].
  pose proof (Forall_lookup_1 _ _ (S k) x (ri_held _ _ _ _ H) Hk) as [(c' & Hb' & Hc') _ Hd]. cbn [h_ptr h_size] in *.
  assert (p - HDR ≠ h_ptr x - HDR) as Hne.
  { intros E. apply Hnd. replace p with (h_ptr x) by lia. apply list_elem_of_fmap. exists x. split; [done|]. by eapply list_elem_of_lookup_2. }
  pose proof (ai_apart _ _ _ Hi _ _ _ _ Hb Hb' Hne) as Hap. cbn [cap] in Hap. unfold HDR in Hap.
  destruct (vmemcpy_spec (a_mem s) p (h_ptr x) (Z.min (h_size x) size)) as (m' & -> & Hcp); [lia..|].
  exists m'. split; [done|]. split; [apply Hcp|].
  apply (run_write 0 _ _ m' _ _ _ _ H eq_refl (proj1 Hcp)); cbn [h_ptr h_size].
  - by eapply copied_bytes; [apply Hi|].
  - intros i Hii. rewrite (proj2 Hcp). by rewrite decide_False by lia.
  - intros off v [Hv Hlt]%map_lookup_filter_Some. cbn in Hlt. destruct (Hd off v Hv) as [Hoff Hmv].
    split; [lia|]. rewrite (proj2 Hcp), decide_True by lia. by replace (p + off - p + h_ptr x) with (h_ptr x + off) by lia.
Qed.

(** Giving back a block, as [realloc] does it. *)
Lemma free_step k x s held B fl :
  run_inv s held B fl → length (a_mem s) = L → held !! k = Some x →
  ∃ s' B' fl', free (h_ptr x) s = Some s' ∧ run_inv s' (delete k held) B' fl' ∧
    (length fl' <= S (length fl))%nat ∧ length (a_mem s') = L.
Proof.
  intros H HL Hk. destruct (run_put 0 k s held B fl H HL) as (s' & held' & B' & fl' & E & Hrest).
  unfold run_use in E. rewrite Hk in E. destruct (free (h_ptr x) s) as [s1|]; [|done]. cbn [mbind option_bind] in E.
  injection E as <- <-. by exists s1, B', fl'.
Qed.

Lemma run_resize fuel k size s held B fl :
  run_inv s held B fl → length (a_mem s) = L → use_ok (Resize k size) → (length fl < fuel)%nat →
  ∃ s' held' B' fl', run_use grant fuel (Resize k size) s held = Some (s', held') ∧ run_inv s' held' B' fl' ∧
    (length fl' <= S (length fl))%nat ∧ length (a_mem s') = L.
Proof.
  intros H HL Hok Hf. unfold run_use. destruct (held !! k) as [x|] eqn:Hk; cycle 1.
  { exists s, held, B, fl. split_and!; try done. lia. }
  destruct (held_room _ _ _ _ _ _ H Hk) as (Hp & Hsx & _). unfold realloc. rewrite (proj2 (Z.eqb_neq (h_ptr x) 0)) by lia.
  destruct (Z.eqb_spec size 0) as [->|Hsz].
  { destruct (free_step k x s held B fl H HL Hk) as (s' & B' & fl' & -> & Hrest). cbn [mbind option_bind]. by exists s', (delete k held), B', fl'. }
  pose proof (Forall_lookup_1 _ _ _ _ (ri_held _ _ _ _ H) Hk) as [_ (-> & _) _]. cbn [mbind option_bind]. cbv zeta.
  destruct (malloc_step fuel size s held B fl H HL Hok Hf) as (p & s1 & B1 & fl1 & -> & H1 & Hfl & HL1). cbn [mbind option_bind].
  destruct (Z.eqb_spec p 0) as [->|Hp0].
  { cbn [mbind option_bind Z.eqb]. exists s1, held, B1, fl1. split_and!; [done|done|lia|done]. }
  destruct (move_step k x p size (if h_size x <? size then h_size x else size) s1 held B1 fl1 H1 Hk) as (m' & -> & Hl & H2);
    [destruct (Z.ltb_spec (h_size x) size); lia|]. cbn [mbind option_bind].
  destruct (free_step (S k) x _ _ _ _ H2) as (s3 & B3 & fl3 & -> & H3 & Hfl3 & HL3); [cbn; lia|done|]. cbn [mbind option_bind].
  rewrite (proj2 (Z.eqb_neq p 0)) by done. eexists s3, _, B3, fl3. split_and!; [reflexivity|exact H3|lia|done].
Qed.

Lemma run_uses_spec us fuel s held B fl :
  run_inv s held B fl → length (a_mem s) = L → Forall use_ok us → (length fl + length us < fuel)%nat →
  ∃ s' held' B' fl', run_uses grant fuel us s held = Some (s', held') ∧ run_inv s' held' B' fl' ∧ length (a_mem s') = L.
Proof.
  revert s held B fl. induction us as [|u us IH]; intros s held B fl H HL Hok Hf; [by exists s, held, B, fl|].
  apply Forall_cons in Hok as [Hu Hok]. cbn [length] in Hf.
  assert (∃ s' held' B' fl', run_use grant fuel u s held = Some (s', held') ∧ run_inv s' held' B' fl' ∧
    (length fl' <= S (length fl))%nat ∧ length (a_mem s') = L) as (s' & held' & B' & fl' & E & H' & Hl & HL').
  { destruct u as [size|nmemb size|k|k size|k off v].
    - destruct (run_get fuel size s held B fl H HL Hu ltac:(lia)) as (s' & held' & B' & fl' & ? & ? & ? & ?).
      exists s', held', B', fl'. split_and!; (done || lia).
    - eapply run_get_zeros; (done || lia).
    - by eapply run_put.
    - eapply run_resize; (done || lia).
    - by eapply run_poke. }
  destruct (IH s' held' B' fl' H' HL' Hok ltac:(lia)) as (s2 & held2 & B2 & fl2 & E2 & H2).
  exists s2, held2, B2, fl2. split; [|done]. cbn [run_uses]. rewrite E. exact E2.
Qed.
End programs.

(** ** Resizing *)

Lemma realloc_spec grant fuel s B fl h c v size :
  ainv s B fl → grants_memory grant s → a_fail_after s < 0 → (length fl < fuel)%nat → 0 < size < 2 ^ 64 →
  B !! h = Some (mk_block c true) → get_size s h = Some v → unmarked v →
  ∃ r s', realloc grant fuel (h + HDR) size s = Some (r, s') ∧
    ((r = 0 ∧ ainv s' B fl ∧ a_mem s' = a_mem s) ∨
     ∃ h' c' fl', r = h' + HDR ∧ h' ≠ h ∧ size <= c' ∧
       ainv s' (<[h := mk_block c false]> (<[h' := mk_block c' true]> B)) (h :: fl') ∧
       (∀ i, 0 <= i < Z.min v size → (a_mem s').[r + i] = (a_mem s).[h + HDR + i]) ∧
       (∀ x b, B !! x = Some b → live b = true → x ≠ h → same_on (a_mem s) (a_mem s') (x + HDR) (cap b))).
Proof.
  intros H Hg Hhook Hfuel Hsize Hb Hv Hun. pose proof (ai_block _ _ _ H _ _ Hb) as (Hh & Hc & Hbrk). cbn [cap] in *.
  destruct (ai_size _ _ _ H _ _ Hb) as (v' & Hv' & Hvc). assert (v' = v) as -> by congruence. cbn [cap] in Hvc.
  unfold realloc. rewrite (proj2 (Z.eqb_neq _ 0)) by (unfold HDR; lia). rewrite (proj2 (Z.eqb_neq size 0)) by lia.
  replace (h + HDR - HDR) with h by lia. rewrite Hv. cbn [mbind option_bind]. cbv zeta.
  destruct (malloc_spec grant fuel size s B fl H Hg Hhook Hfuel Hsize) as (r & s1 & -> & [Hlen Hcase] & Hhook1). cbn [mbind option_bind].
  destruct Hcase as [(-> & Hi & Hm)|(h' & c' & fl' & -> & Hnew & Hc' & Hi & Hfl & Hk & Hs' & Hss)].
  { cbn [Z.eqb]. exists 0, s1. split; [done|]. by left. }
  pose proof (ai_block _ _ _ Hi h' _ (lookup_insert_eq _ _ _)) as (Hh' & _ & Hbrk'). cbn [cap] in Hbrk'.
  rewrite (proj2 (Z.eqb_neq _ 0)) by (unfold HDR; lia).
  assert (h' ≠ h) as Hne by (intros ->; destruct Hnew as [Hn|Hn]; rewrite Hb in Hn; done).
  assert (<[h' := mk_block c' true]> B !! h = Some (mk_block c true)) as Hb1 by (by rewrite lookup_insert_ne).
  pose proof (ai_apart _ _ _ Hi h' _ h _ (lookup_insert_eq _ _ _) Hb1 Hne) as Hap. cbn [cap] in Hap.
  pose proof (ai_memory _ _ _ Hi) as Hmem.
  assert ((if v <? size then v else size) = Z.min v size) as -> by (destruct (Z.ltb_spec v size); lia).
  pose proof (ai_block _ _ _ Hi h _ Hb1) as (_ & _ & Hbrk1). cbn [cap] in Hbrk1. unfold HDR in *.
  destruct (vmemcpy_spec (a_mem s1) (h' + 16) (h + 16) (Z.min v size)) as (m2 & -> & Hcp); [lia..|]. cbn [mbind option_bind].
  destruct (data_inv s1 _ fl' h' c' m2 Hi (lookup_insert_eq _ _ _)) as [Hi2 Hss2];
    [apply Hcp|eapply copied_bytes; [apply Hi|exact Hcp]|intros i Hii; rewrite (proj2 Hcp); rewrite decide_False by (unfold HDR in *; lia); done|].
  assert (get_size (set_mem m2 s1) h = Some v) as Hv2 by (rewrite Hss2 by (by eexists); rewrite Hss by (done || by eexists); done).
  destruct (block_free_spec (set_mem m2 s1) _ fl' h c v Hi2 Hb1 Hv2 Hun) as (s3 & E & Hi3 & Hho & _). unfold HDR in E. rewrite E. cbn [mbind option_bind].
  do 2 eexists. split; [reflexivity|]. right. exists h', c', fl'. split_and!; [done|done|lia|exact Hi3| |].
  - intros i Hii. rewrite (proj2 Hho) by (intros z ->%list_elem_of_singleton; unfold HDR; lia). cbn [a_mem set_mem].
    rewrite (proj2 Hcp), decide_True by lia. replace (h' + 16 + i - (h' + 16) + (h + 16)) with (h + 16 + i) by lia.
    apply (Hk h _ Hb eq_refl). unfold HDR. cbn [cap]. lia.
  - intros x b Hx Hl Hxh i Hii. assert (x ≠ h') as Hxh' by (intros ->; destruct Hnew as [Hn|Hn]; rewrite Hx in Hn; [done|]; injection Hn as ->; done).
    assert (<[h' := mk_block c' true]> B !! x = Some b) as Hx1 by (by rewrite lookup_insert_ne).
    pose proof (ai_apart _ _ _ Hi x _ h _ Hx1 Hb1 Hxh) as Ha1. pose proof (ai_apart _ _ _ Hi x _ h' _ Hx1 (lookup_insert_eq _ _ _) Hxh') as Ha2.
    cbn [cap] in *. unfold HDR in *.
    rewrite (proj2 Hho) by (intros z ->%list_elem_of_singleton; unfold HDR; lia). cbn [a_mem set_mem].
    rewrite (proj2 Hcp), decide_False by lia. apply (Hk x b Hx Hl). unfold HDR. lia.
Qed.

(** ** Aligned blocks *)

Lemma align_up k x : 0 <= k < 64 → 0 <= x < 2 ^ 64 →
  Z.land x (u64 (Z.lnot (2 ^ k - 1))) = x / 2 ^ k * 2 ^ k.
Proof.
  intros Hk Hx. unfold u64. rewrite <- (Z.land_ones (Z.lnot _) 64) by lia. rewrite (Z.land_comm (Z.lnot _)), Z.land_assoc.
  rewrite (Z.land_ones x 64), (Z.mod_small x) by lia.
  replace (2 ^ k - 1) with (Z.ones k) by (rewrite Z.ones_equiv; lia). rewrite <- Z.ldiff_land, Z.ldiff_ones_r by lia.
  rewrite Z.shiftl_mul_pow2, Z.shiftr_div_pow2 by lia. done.
Qed.

(** A power of two passes the test of [posix_memalign]. *)
Lemma power_of_two_accepted k : 3 <= k < 64 →
  (2 ^ k =? 0) || negb (Z.land (2 ^ k) (2 ^ k - 1) =? 0) || negb (2 ^ k mod 8 =? 0) = false.
Proof.
  intros Hk. assert (0 < 2 ^ k) by (apply Z.pow_pos_nonneg; lia). rewrite (proj2 (Z.eqb_neq _ 0)) by lia.
  replace (2 ^ k - 1) with (Z.ones k) by (rewrite Z.ones_equiv; lia). rewrite Z.land_ones, Z.mod_same by lia.
  replace (2 ^ k) with (2 ^ (k - 3) * 8) by (replace 8 with (2 ^ 3) by done; rewrite <- Z.pow_add_r by lia; f_equal; lia).
  rewrite Z.mod_mul by lia. done.
Qed.

(** An aligned block: inside a held block, after the mark that leads back to it. *)
Record aligned_in (s : astate) (p h c size : Z) : Prop := {
  al_room : h + HDR + HDR <= p ∧ p + size <= h + HDR + c;
  al_mark : load 4 (a_mem s) (p - HDR) = Some POSIX_ALIGN_MAGIC;
  al_orig : load 8 (a_mem s) (p - HDR + 8) = Some (h + HDR) }.

Lemma posix_memalign_spec grant fuel s B fl k size :
  ainv s B fl → grants_memory grant s → a_fail_after s < 0 → (length fl < fuel)%nat → 3 <= k < 63 → 0 <= size < 2 ^ 62 →
  ∃ e p s', posix_memalign grant fuel true (2 ^ k) size s = Some (e, p, s') ∧
    ((e = ENOMEM ∧ p = None ∧ ainv s' B fl ∧ a_mem s' = a_mem s) ∨
     ∃ q h c fl', e = 0 ∧ p = Some q ∧ q mod 2 ^ k = 0 ∧ (B !! h = None ∨ B !! h = Some (mk_block c false)) ∧
       ainv s' (<[h := mk_block c true]> B) fl' ∧ kept s s' B ∧ aligned_in s' q h c size).
Proof.
  intros H Hg Hhook Hfuel Hk Hsize. unfold posix_memalign. cbn [negb]. rewrite power_of_two_accepted by lia.
  assert (0 < 2 ^ k) as Hpk by (apply Z.pow_pos_nonneg; lia). assert (2 ^ k <= 2 ^ 62) as Hpk2 by (apply Z.pow_le_mono_r; lia).
  unfold SIZE_MAX, HDR. rewrite (proj2 (Z.ltb_ge _ (2 ^ k - 1))), (proj2 (Z.ltb_ge _ size)) by lia.
  destruct (malloc_spec grant fuel (size + (2 ^ k - 1 + 16)) s B fl H Hg Hhook Hfuel ltac:(lia)) as (r & s1 & -> & [Hlen Hcase] & Hhook1).
  cbn [mbind option_bind]. destruct Hcase as [(-> & Hi & Hm)|(h & c & fl' & -> & Hnew & Hc & Hi & Hfl & Hkp & Hs & Hss)].
  { cbn [Z.eqb]. do 3 eexists. split; [reflexivity|]. by left. }
  pose proof (ai_block _ _ _ Hi h _ (lookup_insert_eq _ _ _)) as (Hh & _ & Hbrk). pose proof (ai_memory _ _ _ Hi) as Hmem.
  pose proof (ai_small _ _ _ Hi) as Hsmall. cbn [cap] in Hbrk. unfold HDR in *.
  rewrite (proj2 (Z.eqb_neq _ 0)) by lia. rewrite (u64_small (h + 16 + 16)), (u64_small (_ + _ - 1)) by range. rewrite align_up by lia.
  set (q := (h + 16 + 16 + 2 ^ k - 1) / 2 ^ k * 2 ^ k).
  assert (h + 32 <= q <= h + 31 + 2 ^ k) as Hq.
  { subst q. pose proof (Z.div_mod (h + 16 + 16 + 2 ^ k - 1) (2 ^ k) ltac:(lia)). pose proof (Z.mod_pos_bound (h + 16 + 16 + 2 ^ k - 1) (2 ^ k) ltac:(lia)). lia. }
  assert (q mod 2 ^ k = 0) as Hqm by (subst q; apply Z.mod_mul; lia). clearbody q.
  destruct (store_spec 4 (a_mem s1) (q - 16) POSIX_ALIGN_MAGIC) as (m1 & -> & Ho1 & Hl1 & Hb1); [lia|lia|]. cbn [mbind option_bind].
  destruct (store_spec 8 m1 (q - 16 + 8) (h + 16)) as (m2 & -> & Ho2 & Hl2 & Hb2); [lia|rewrite (proj1 Ho1); lia|]. cbn [mbind option_bind].
  change (Z.of_nat 4) with 4 in *. change (Z.of_nat 8) with 8 in *.
  assert (∀ i, i < q - 16 ∨ q <= i → m2.[i] = (a_mem s1).[i]) as Hout by (intros i Hii; rewrite (proj2 Ho2), (proj2 Ho1) by lia; done).
  destruct (data_inv s1 _ fl' h c m2 Hi (lookup_insert_eq _ _ _)) as [Hi2 Hss2];
    [rewrite (proj1 Ho2); apply Ho1|apply Hb2, Hb1, Hi|intros i Hii; apply Hout; unfold HDR in *; lia|].
  do 3 eexists. split; [reflexivity|]. right. exists q, h, c, fl'. split_and!; [done..|exact Hi2| |].
  - intros x b Hx Hl i Hii. cbn [a_mem set_mem].
    assert (x ≠ h) as Hxh by (intros ->; destruct Hnew as [Hn|Hn]; rewrite Hx in Hn; [done|]; injection Hn as ->; done).
    pose proof (ai_apart _ _ _ Hi x b h _ ltac:(by rewrite lookup_insert_ne) (lookup_insert_eq _ _ _) Hxh) as Ha. cbn [cap] in Ha. unfold HDR in *.
    rewrite Hout by lia. by apply (Hkp x b Hx Hl).
  - split; unfold HDR; cbn [a_mem set_mem]; [lia| |].
    + rewrite (load_same 4 m1 m2); [exact Hl1|]. intros i Hii. change (Z.of_nat 4) with 4 in Hii. apply (proj2 Ho2). lia.
    + rewrite Hl2. f_equal. apply Z.mod_small. change (256 ^ 8) with (2 ^ 64). lia.
Qed.

(** [free] of an aligned pointer gives back the block around it. *)
Lemma free_aligned_spec s B fl p h c size :
  ainv s B fl → B !! h = Some (mk_block c true) → aligned_in s p h c size → 0 <= size →
  ∃ s', free p s = Some s' ∧ ainv s' (<[h := mk_block c false]> B) (h :: fl) ∧
    ∀ x b, B !! x = Some b → live b = true → x ≠ h → same_on (a_mem s) (a_mem s') (x + HDR) (cap b).
Proof.
  intros H Hb [[Hr1 Hr2] Hmark Horig] Hsize. pose proof (ai_block _ _ _ H _ _ Hb) as (Hh & _ & Hbrk). pose proof (ai_memory _ _ _ H) as Hmem.
  cbn [cap] in Hbrk. unfold free. rewrite (proj2 (Z.eqb_neq p 0)) by (unfold HDR in *; lia). rewrite Hmark. cbn [mbind option_bind]. rewrite Z.eqb_refl.
  rewrite Horig. cbn [mbind option_bind]. destruct (store_spec 4 (a_mem s) (p - HDR) 0) as (m1 & -> & Ho1 & _ & Hb1); [unfold HDR in *; lia..|].
  cbn [mbind option_bind]. change (Z.of_nat 4) with 4 in *.
  destruct (data_inv s B fl h c m1 H Hb) as [Hi1 _]; [apply Ho1|apply Hb1, H|intros i Hi; apply (proj2 Ho1); unfold HDR in *; lia|].
  destruct (free_impl_spec (set_mem m1 s) B fl h c Hi1 Hb) as (s' & E & Hi' & Hho & _). exists s'. split_and!; [exact E|exact Hi'|].
  intros x b Hx Hl Hxh i Hi. pose proof (ai_apart _ _ _ H x b h _ Hx Hb Hxh) as Ha. cbn [cap] in Ha. unfold HDR in *.
  rewrite (proj2 Hho) by (intros z ->%list_elem_of_singleton; unfold HDR; lia). cbn [a_mem set_mem]. apply (proj2 Ho1). lia.
Qed.

(** The state before the first call. *)
Definition fresh_heap (L : nat) (brk : Z) : astate := mk_as (replicate L 0) brk 0 (-1) 0.

Lemma fresh_heap_inv L brk : 0 < brk <= Z.of_nat L → Z.of_nat L < 2 ^ 64 → ainv (fresh_heap L brk) ∅ [].
Proof.
  intros Hb HL. split; cbn [fresh_heap a_mem a_brk a_free_list]; rewrite ?length_replicate; try done; try lia;
    try (intros; by rewrite lookup_empty in *).
  - apply Forall_replicate. unfold is_u8. lia.
  - constructor.
  - intros h. split; [intros Hh; by apply elem_of_nil in Hh|]. intros (b & Hb' & _). by rewrite lookup_empty in Hb'.
Qed.


(** Two blocks, a write, a free and a smaller request in a memory of 4096 bytes. *)
Definition demo_uses : list use :=
  [Get 24; Get 8; Poke 0 3 77; GetZeros 2 6; Put 1; Resize 1 40; Get 16].


(** [realloc] of a held block: null with nothing changed, or another block
    with the old bytes, as many as both sizes have, the old block given back, and
    the data of all other blocks as it was. *)
Theorem realloc_correct grant fuel s B fl h c v size :
  ainv s B fl → grants_memory grant s → a_fail_after s < 0 → (length fl < fuel)%nat → 0 < size < 2 ^ 64 →
  B !! h = Some (mk_block c true) → get_size s h = Some v → unmarked v →
  ∃ r s', realloc grant fuel (h + HDR) size s = Some (r, s') ∧
    ((r = 0 ∧ ainv s' B fl ∧ a_mem s' = a_mem s) ∨
     ∃ h' c' fl', r = h' + HDR ∧ h' ≠ h ∧ size <= c' ∧
       ainv s' (<[h := mk_block c false]> (<[h' := mk_block c' true]> B)) (h :: fl') ∧
       (∀ i, 0 <= i < Z.min v size → (a_mem s').[r + i] = (a_mem s).[h + HDR + i]) ∧
       (∀ x b, B !! x = Some b → live b = true → x ≠ h → same_on (a_mem s) (a_mem s') (x + HDR) (cap b))).
Proof. apply realloc_spec. Qed.

(** [posix_memalign] and [free]: a block it returns is aligned and has the
    bytes asked for inside one block of the heap, no other data changes, and
    [free] of the aligned pointer gives exactly that block back. *)
Theorem memalign_free_roundtrip grant fuel s B fl k size :
  ainv s B fl → grants_memory grant s → a_fail_after s < 0 → (length fl < fuel)%nat → 3 <= k < 63 → 0 <= size < 2 ^ 62 →
  ∃ e p s', posix_memalign grant fuel true (2 ^ k) size s = Some (e, p, s') ∧
    ((e = ENOMEM ∧ p = None ∧ ainv s' B fl ∧ a_mem s' = a_mem s) ∨
     ∃ q h c fl' s2, e = 0 ∧ p = Some q ∧ q mod 2 ^ k = 0 ∧ h + HDR <= q ∧ q + size <= h + HDR + c ∧
       ainv s' (<[h := mk_block c true]> B) fl' ∧ kept s s' B ∧
       free q s' = Some s2 ∧ ainv s2 (<[h := mk_block c false]> B) (h :: fl')).
Proof.
  intros H Hg Hhook Hf Hk Hsize. destruct (posix_memalign_spec grant fuel s B fl k size H Hg Hhook Hf Hk Hsize) as (e & p & s' & E & Hcase).
  exists e, p, s'. split; [exact E|]. destruct Hcase as [Hl|(q & h & c & fl' & -> & -> & Hq & Hnew & Hi & Hkp & Hal)]; [by left|right].
  destruct (free_aligned_spec s' _ fl' q h c size Hi (lookup_insert_eq _ _ _) Hal ltac:(lia)) as (s2 & E2 & Hi2 & _).
  rewrite insert_insert_eq in Hi2. destruct (al_room _ _ _ _ _ Hal). exists q, h, c, fl', s2. split_and!; try done. unfold HDR in *. lia.
Qed.

(** 100 bytes at a multiple of 64. *)
Lemma memalign_free_roundtrip_witness :
  ∃ e p s', posix_memalign (λ b n, b + n <=? 4096) 1 true (2 ^ 6) 100 (fresh_heap 4096 64) = Some (e, p, s') ∧
    ((e = ENOMEM ∧ p = None ∧ ainv s' ∅ [] ∧ a_mem s' = a_mem (fresh_heap 4096 64)) ∨
     ∃ q h c fl' s2, e = 0 ∧ p = Some q ∧ q mod 2 ^ 6 = 0 ∧ h + HDR <= q ∧ q + 100 <= h + HDR + c ∧
       ainv s' (<[h := mk_block c true]> ∅) fl' ∧ kept (fresh_heap 4096 64) s' ∅ ∧
       free q s' = Some s2 ∧ ainv s2 (<[h := mk_block c false]> ∅) (h :: fl')).
Proof.
  apply (memalign_free_roundtrip (λ b n, b + n <=? 4096) 1 (fresh_heap 4096 64) ∅ [] 6 100).
  - apply fresh_heap_inv; [split; [lia|]; apply Z.leb_le; vm_compute; reflexivity|apply Z.ltb_lt; vm_compute; reflexivity].
  - intros n _ H. apply Z.leb_le in H. etransitivity; [exact H|]. apply Z.leb_le. vm_compute. reflexivity.
  - reflexivity.
  - cbn. lia.
  - lia.
  - lia.
Defined.

(** ** Where the code and its intention part *)

(** A block whose size ends in the bytes of the mark is taken for an aligned one:
    the link of its header, whatever it holds, is freed in its place. *)
Lemma free_marked_size s B fl h c v next :
  ainv s B fl → B !! h = Some (mk_block c true) → get_size s h = Some v → v mod 2 ^ 32 = POSIX_ALIGN_MAGIC → get_next s h = Some next →
  ∃ m, free (h + HDR) s = free_impl next (set_mem m s).
Proof.
  intros H Hb Hv Hm Hn. pose proof (ai_block _ _ _ H _ _ Hb) as (Hh & _ & Hbrk). pose proof (ai_memory _ _ _ H). cbn [cap] in Hbrk.
  pose proof (ai_block _ _ _ H _ _ Hb) as (_ & Hc & _). cbn [cap] in Hc. unfold HDR in *. unfold free, HDR.
  rewrite (proj2 (Z.eqb_neq _ 0)) by lia. replace (h + 16 - 16) with h by lia. unfold get_size, get_next in *.
  rewrite (load_low 4 8 (a_mem s) h v (ai_bytes _ _ _ H) ltac:(lia) Hv). cbn [mbind option_bind].
  change (256 ^ Z.of_nat 4) with (2 ^ 32). rewrite Hm, Z.eqb_refl, Hn. cbn [mbind option_bind].
  destruct (store_spec 4 (a_mem s) h 0) as (m1 & -> & _); [lia..|]. cbn [mbind option_bind]. by exists m1.
Qed.

(** Blocks follow each other without padding: after one byte, the next block is
    at an odd address. *)
Lemma malloc_unaligned :
  (r ← malloc (λ _ _, true) 1 1 (fresh_heap 256 64); p ← malloc (λ _ _, true) 1 8 (snd r); Some (fst r, fst p)) = Some (80, 97).
Proof. vm_compute. reflexivity. Qed.

(** [realloc] takes the mark of an aligned block for its size: a block of 8 bytes
    grown to 200 is copied as if it had more than a thousand million. *)
Lemma realloc_aligned_reads_mark s p h c size v :
  aligned_in s p h c size → bytes (a_mem s) → get_size s (p - HDR) = Some v → v mod 2 ^ 32 = POSIX_ALIGN_MAGIC.
Proof.
  intros [_ Hm _] Hb Hv. unfold get_size in Hv. rewrite (load_low 4 8 _ _ v Hb ltac:(lia) Hv) in Hm. by injection Hm.
Qed.
