(* ===== verification/LibPrintf.v ===== *)
(** * Formatted output: example_libc/src/printf.c

    [vsnprintf_impl] and the functions built on it.  The format is the rest of its
    buffer from the current character on, the argument list a list of values.
    [None] is an access outside a buffer, an argument of the wrong kind, or an
    overflow of the width or the precision. *)

From S2P Require Import Prelude CString LibBase LibStrto LibString.

Local Open Scope Z_scope.

Definition digit_char (upper : bool) (d : Z) : Z := if d <? 10 then 48 + d else (if upper then 65 else 97) + (d - 10).

(** The digits from the last one on, at most [n] of them. *)
Fixpoint base_digits (n : nat) (value base : Z) (upper : bool) : list Z :=
  match n with
  | O => []
  | S n => digit_char upper (value mod base) :: (if value / base =? 0 then [] else base_digits n (value / base) base upper)
  end.

(** The characters [uint_to_base] and [ull_to_base] store, for a [tmp] of [n]. *)
Definition to_base (n : nat) (value base : Z) (upper : bool) (size : Z) : list Z :=
  let tmp := base_digits n value base upper in
  let i := Z.min (Z.of_nat (length tmp)) size in
  rev (take (Z.to_nat i) tmp).
Definition uint_to_base (value base : Z) (upper : bool) (size : Z) : list Z := to_base 32 value base upper size.
Definition ull_to_base (value base : Z) (upper : bool) (size : Z) : list Z := to_base 64 value base upper size.

(** ** Output *)

Record out := mk_out { o_dst : list Z; o_pos : Z }.

Definition out_char (size c : Z) (o : out) : option out :=
  dst ← (if u64 (o_pos o + 1) <? size then (o_dst o).[o_pos o <- c] else Some (o_dst o));
  Some (mk_out dst (u64 (o_pos o + 1))).

Fixpoint out_str (size : Z) (s : list Z) (o : out) : option out :=
  match s with [] => Some o | c :: s => o ← out_char size c o; out_str size s o end.

(** [for (int i = 0; i < n; i++) out_char(c)] *)
Definition out_pad (size n c : Z) (o : out) : option out := out_str size (replicate (Z.to_nat n) c) o.

(** ** The arguments *)

Inductive arg := Int (v : Z) | Str (s : option (list Z)).

Definition va_int (ap : list arg) : option (Z * list arg) := match ap with Int v :: ap => Some (v, ap) | _ => None end.
Definition va_str (ap : list arg) : option (option (list Z) * list arg) := match ap with Str s :: ap => Some (s, ap) | _ => None end.

(** ** The directives *)

Definition digitb (c : Z) : bool := (48 <=? c) && (c <=? 57).

(** The digits of a width or a precision. *)
Fixpoint parse_number (p : list Z) (v : Z) : option (Z * list Z) :=
  match p with
  | [] => None
  | c :: p' => if digitb c then v10 ← int32 (v * 10); v ← int32 (v10 + (c - 48)); parse_number p' v else Some (v, p)
  end.

Record directive := mk_dir { d_width : Z; d_precision : Z; d_length : Z; d_spec : Z }.

Definition parse_precision (p : list Z) : option (Z * list Z) :=
  c ← head p; if c =? 46 then parse_number (tail p) 0 else Some (-1, p).

Definition parse_length (p : list Z) : option (Z * list Z) :=
  c ← head p;
  if c =? 108 then c2 ← head (tail p); Some (if c2 =? 108 then (2, drop 2 p) else (1, drop 1 p))
  else Some (if c =? 106 then (3, drop 1 p) else if c =? 122 then (4, drop 1 p) else (0, p)).

(** Width, precision, length and conversion after a percent sign; the rest starts
    at the conversion character. *)
Definition parse_directive (p : list Z) : option (directive * list Z) :=
  w ← parse_number p 0;
  pr ← parse_precision (snd w);
  l ← parse_length (snd pr);
  spec ← head (snd l);
  Some (mk_dir (fst w) (fst pr) (fst l) spec, snd l).

(** The value of an unsigned argument of a length, and its digits. *)
Definition unsigned_digits (length base : Z) (upper : bool) (v : Z) : list Z :=
  if (length =? 3) || (length =? 2) || (length =? 4) then ull_to_base (u64 v) base upper 64
  else if length =? 1 then uint_to_base (u64 v) base upper 64
  else uint_to_base (u32 v) base upper 64.

(** A signed argument: whether it is negative, and the digits of its magnitude. *)
Definition signed_digits (length v : Z) : bool * list Z :=
  if (length =? 3) || (length =? 2) || (length =? 4) then
    let v := s64 v in let sign := v <? 0 in (sign, ull_to_base (if sign then u64 (0 - u64 v) else u64 v) 10 false 64)
  else if length =? 1 then
    let v := s64 v in let sign := v <? 0 in (sign, uint_to_base (if sign then u64 (0 - u64 v) else u64 v) 10 false 64)
  else
    let v := s32 v in let sign := v <? 0 in (sign, uint_to_base (if sign then u32 (0 - u32 v) else u32 v) 10 false 64).

(** The [switch] for the conversions of numbers and characters: sign, prefix,
    characters, and the arguments left; [Some None] is the default case. *)
Definition convert (d : directive) (ap : list arg) : option (option (bool * list Z * list Z * list arg)) :=
  if d_spec d =? 100 then
    a ← va_int ap; let '(v, ap) := (a : Z * list arg) in
    let '(sign, buf) := signed_digits (d_length d) v in Some (Some (sign, [], buf, ap))
  else if d_spec d =? 117 then
    a ← va_int ap; let '(v, ap) := (a : Z * list arg) in Some (Some (false, [], unsigned_digits (d_length d) 10 false v, ap))
  else if (d_spec d =? 120) || (d_spec d =? 88) then
    a ← va_int ap; let '(v, ap) := (a : Z * list arg) in Some (Some (false, [], unsigned_digits (d_length d) 16 (d_spec d =? 88) v, ap))
  else if d_spec d =? 111 then
    a ← va_int ap; let '(v, ap) := (a : Z * list arg) in Some (Some (false, [], unsigned_digits (d_length d) 8 false v, ap))
  else if d_spec d =? 112 then
    a ← va_int ap; let '(v, ap) := (a : Z * list arg) in Some (Some (false, [48; 120], ull_to_base (u64 v) 16 false 64, ap))
  else if d_spec d =? 99 then
    a ← va_int ap; let '(v, ap) := (a : Z * list arg) in Some (Some (false, [], [u8 v], ap))
  else Some None.

(** "(null)" *)
Definition null_text : list Z := [40; 110; 117; 108; 108; 41; 0].

(** One directive, from the character after the percent sign: the output, the
    arguments left, and the format at the conversion character. *)
Definition do_directive (size : Z) (p : list Z) (ap : list arg) (o : out) : option (out * list arg * list Z) :=
  dp ← parse_directive p;
  let '(d, p) := (dp : directive * list Z) in
  if d_spec d =? 115 then
    a ← va_str ap; let '(s, ap) := (a : option (list Z) * list arg) in
    let s := match s with Some s => s | None => null_text end in
    slen ← vstrlen s;
    let slen := if (0 <=? d_precision d) && (d_precision d <? slen) then d_precision d else slen in
    o ← (if (0 <? d_width d) && (s32 slen <? d_width d) then out_pad size (d_width d - s32 slen) 32 o else Some o);
    o ← out_str size (take (Z.to_nat slen) s) o;
    Some (o, ap, p)
  else
    c ← convert d ap;
    match (c : option (bool * list Z * list Z * list arg)) with
    | None =>
        o ← out_char size 37 o;
        o ← (if negb (d_spec d =? 0) then out_char size (d_spec d) o else Some o);
        Some (o, ap, p)
    | Some (sign, prefix, buf, ap) =>
        let len := Z.of_nat (length buf) in
        let num_len := if len <? d_precision d then d_precision d else len in
        total ← int32 (Z.of_nat (length prefix) + (if sign : bool then 1 else 0) + num_len);
        o ← (if total <? d_width d then out_pad size (d_width d - total) 32 o else Some o);
        o ← (if sign then out_char size 45 o else Some o);
        o ← out_str size prefix o;
        o ← out_pad size (num_len - len) 48 o;
        o ← out_str size buf o;
        Some (o, ap, p)
    end.

(** The loop over the format.  Each round takes at least one character, so the
    length of the format bounds the rounds. *)
Fixpoint vsnprintf_loop (fuel : nat) (size : Z) (p : list Z) (ap : list arg) (o : out) : option out :=
  match fuel with
  | O => None
  | S fuel =>
      c ← head p;
      if c =? 0 then Some o
      else if negb (c =? 37) then o ← out_char size c o; vsnprintf_loop fuel size (tail p) ap o
      else
        c ← head (tail p);
        if c =? 37 then o ← out_char size 37 o; vsnprintf_loop fuel size (drop 2 p) ap o
        else
          r ← do_directive size (tail p) ap o;
          let '(o, ap, p) := (r : out * list arg * list Z) in
          vsnprintf_loop fuel size (tail p) ap o
  end.

Definition vsnprintf (str : list Z) (size : Z) (fmt : list Z) (ap : list arg) : option (list Z * Z) :=
  o ← vsnprintf_loop (S (length fmt)) size fmt ap (mk_out str 0);
  dst ← (if 0 <? size then if size <=? o_pos o then (o_dst o).[size - 1 <- 0] else (o_dst o).[o_pos o <- 0] else Some (o_dst o));
  Some (dst, s32 (o_pos o)).

Definition snprintf := vsnprintf.
Definition vsprintf (str fmt : list Z) (ap : list arg) : option (list Z * Z) := vsnprintf str (2 ^ 64 - 1) fmt ap.
Definition sprintf := vsprintf.

(** ** Writing the text out *)

(** What [write] may answer: a number of bytes taken, an interruption (EINTR or
    EAGAIN), or another error. *)
Inductive write_answer := Wrote (n : Z) | Again | Failed.

(** [while (off < len)]: the bytes that reach the descriptor, and whether the
    loop ended without an error. *)
Fixpoint write_loop (answers : list write_answer) (buf : list Z) (off len : Z) : option (list Z * bool) :=
  if len <=? off then Some ([], true) else
  match answers with
  | [] => None
  | Again :: answers => write_loop answers buf off len
  | Failed :: _ => Some ([], false)
  | Wrote n :: answers =>
      if (0 <=? n) && (off + n <=? Z.of_nat (length buf)) then
        r ← write_loop answers buf (off + n) len;
        Some (take (Z.to_nat n) (drop (Z.to_nat off) buf) ++ fst r, snd r)
      else None
  end.

(** [vfdprintf] formats into 1024 bytes, [uninit] before, and writes as many as
    the length it got. *)
Definition vfdprintf (answers : list write_answer) (uninit : list Z) (fd : Z) (fmt : list Z) (ap : list arg) : option (list Z * Z) :=
  r ← vsnprintf uninit 1024 fmt ap;
  let '(buf, len) := (r : list Z * Z) in
  if (0 <? len) && (0 <=? fd) then
    w ← write_loop answers buf 0 len;
    Some (fst w, if snd w : bool then len else -1)
  else Some ([], len).

Definition vdprintf := vfdprintf.
Definition dprintf := vfdprintf.
Definition vprintf (answers : list write_answer) (uninit fmt : list Z) (ap : list arg) : option (list Z * Z) := vfdprintf answers uninit 1 fmt ap.
Definition printf := vprintf.

(** [vasprintf]: [buf] is the answer of [malloc], a block of at least the size
    asked for; the block stored through [strp] and the length. *)
Definition vasprintf (malloc : Z → option (list Z)) (fmt : list Z) (ap : list arg) : option (option (list Z) * Z) :=
  r ← vsnprintf [] 0 fmt ap;
  let len := snd r in
  if len <? 0 then Some (None, -1) else
  match malloc (len + 1) with
  | None => Some (None, -1)
  | Some buf =>
      r ← vsnprintf buf (len + 1) fmt ap;
      if snd r <? 0 then Some (None, -1) else Some (Some (fst r), snd r)
  end.

(** ** Digits *)

Lemma digit_val_char upper d : 0 <= d < 16 → digit_val (digit_char upper d) = d.
Proof.
  destruct upper; [apply (below (λ d, digit_val (digit_char true d) = d) 16)|apply (below (λ d, digit_val (digit_char false d) = d) 16)];
    vm_compute; reflexivity.
Qed.

(** A number written in a base without leading zeros. *)
Definition numeral_of (base v : Z) (ds : list Z) : Prop :=
  numeral base ds = v ∧ Forall (digit_of base) ds ∧ ds ≠ [] ∧ (0 < v → ∃ c t, ds = c :: t ∧ digit_val c ≠ 0) ∧ (v = 0 → ds = [48]).

Lemma base_digits_spec n v base upper :
  2 <= base <= 16 → 0 <= v < base ^ Z.of_nat n → (0 < n)%nat → numeral_of base v (rev (base_digits n v base upper)).
Proof.
  intros Hb. revert v. induction n as [|n IH]; intros v Hv Hn; [lia|]. cbn [base_digits].
  pose proof (Z.mod_pos_bound v base ltac:(lia)) as Hm. pose proof (Z.div_mod v base ltac:(lia)) as Hdm.
  pose proof (Z.div_pos v base ltac:(lia) ltac:(lia)) as Hdp.
  pose proof (digit_val_char upper (v mod base) ltac:(lia)) as Hdv.
  destruct (Z.eqb_spec (v / base) 0) as [E|E].
  - cbn [rev app]. assert (v mod base = v) as Ev by lia. split_and!.
    + cbn. rewrite Hdv. lia.
    + constructor; [|constructor]. unfold digit_of. rewrite Hdv. lia.
    + done.
    + intros H. exists (digit_char upper (v mod base)), []. split; [done|]. rewrite Hdv. lia.
    + intros ->. reflexivity.
  - rewrite Nat2Z.inj_succ, Z.pow_succ_r in Hv by lia. assert (v / base < base ^ Z.of_nat n) by (apply Z.div_lt_upper_bound; lia).
    destruct n as [|n]; [cbn in *; lia|].
    destruct (IH (v / base) ltac:(lia) ltac:(lia)) as (Hnum & Hd & Hne & Hlead & _). cbn [rev]. split_and!.
    + rewrite numeral_snoc, Hnum, Hdv. lia.
    + apply Forall_app. split; [done|]. constructor; [|constructor]. unfold digit_of. rewrite Hdv. lia.
    + by destruct (rev _).
    + intros _. destruct (Hlead ltac:(lia)) as (c & t & -> & Hc). by eexists; eexists.
    + lia.
Qed.

Lemma base_digits_length n v base upper : (length (base_digits n v base upper) <= n)%nat.
Proof. revert v. induction n as [|n IH]; intros v; cbn [base_digits length]; [lia|]. destruct (_ =? 0); cbn [length]; [lia|]. specialize (IH (v / base)). lia. Qed.

Lemma to_base_spec n v base upper : 2 <= base <= 16 → (0 < n <= 64)%nat → 0 <= v < base ^ Z.of_nat n → numeral_of base v (to_base n v base upper 64).
Proof.
  intros Hb Hn Hv. unfold to_base. pose proof (base_digits_length n v base upper).
  rewrite Z.min_l, Nat2Z.id, take_ge by lia. apply base_digits_spec; [lia|done|lia].
Qed.

(** Enough digits for 64 bits. *)
Lemma base_room base n : 8 <= base → (22 <= n)%nat → 2 ^ 64 <= base ^ Z.of_nat n.
Proof.
  intros Hb Hn. transitivity (8 ^ 22); [vm_compute; discriminate|]. transitivity (base ^ 22); [apply Z.pow_le_mono_l; lia|].
  apply Z.pow_le_mono_r; lia.
Qed.

(** The digits of an argument: those of its value, of 64 or 32 bits. *)
Definition unsigned_value (length v : Z) : Z := if decide (length = 0) then u32 v else u64 v.
Definition signed_value (length v : Z) : Z := if decide (length = 0) then s32 v else s64 v.

Lemma unsigned_digits_spec length base upper v : 0 <= length <= 4 → base = 8 ∨ base = 10 ∨ base = 16 →
  numeral_of base (unsigned_value length v) (unsigned_digits length base upper v).
Proof.
  intros Hl Hb. unfold unsigned_value, unsigned_digits, ull_to_base, uint_to_base.
  assert (2 <= base <= 16 ∧ 8 <= base) as [Hb' Hb8] by lia. clear Hb.
  pose proof (base_room base 32 Hb8 ltac:(lia)) as H32. pose proof (base_room base 64 Hb8 ltac:(lia)) as H64.
  pose proof (u64_range v) as H1. pose proof (u32_range v) as H2. unfold is_u64, is_u32 in *.
  remember (base ^ Z.of_nat 32) as b32 eqn:E32. remember (base ^ Z.of_nat 64) as b64 eqn:E64.
  case_decide as E.
  - subst length. cbn [Z.eqb orb]. apply to_base_spec; [done|lia|]. rewrite <- E32. lia.
  - destruct (Z.eqb_spec length 3), (Z.eqb_spec length 2), (Z.eqb_spec length 4), (Z.eqb_spec length 1); cbn [orb]; try lia;
      (apply to_base_spec; [done|lia|rewrite <- ?E32, <- ?E64; lia]).
Qed.

Lemma signed_digits_spec length v : 0 <= length <= 4 →
  fst (signed_digits length v) = bool_decide (signed_value length v < 0) ∧
  numeral_of 10 (Z.abs (signed_value length v)) (snd (signed_digits length v)).
Proof.
  intros Hl. unfold signed_value, signed_digits, ull_to_base, uint_to_base.
  pose proof (s32_range v) as H1. assert (is_s64 (s64 v)) as H2 by (unfold is_s64, s64; pose proof (Z.mod_pos_bound (v + 2 ^ 63) (2 ^ 64)); lia).
  assert (∀ x, (x <? 0) = bool_decide (x < 0)) as Eb by (intros x; destruct (Z.ltb_spec x 0); [by rewrite bool_decide_eq_true_2|by rewrite bool_decide_eq_false_2 by lia]).
  assert (∀ n x, (32 <= n <= 64)%nat → is_s64 x → numeral_of 10 (Z.abs x) (to_base n (if bool_decide (x < 0) then u64 (0 - u64 x) else u64 x) 10 false 64)) as H64.
  { intros n x Hn Hx. unfold is_s64 in Hx. pose proof (base_room 10 n ltac:(lia) ltac:(lia)).
    assert ((if bool_decide (x < 0) then u64 (0 - u64 x) else u64 x) = Z.abs x) as ->.
    { case_bool_decide; unfold u64; [|rewrite Z.mod_small; lia]. rewrite Zminus_mod_idemp_r, Z.mod_small; lia. }
    apply to_base_spec; [lia|lia|]. remember (10 ^ Z.of_nat n). lia. }
  assert (numeral_of 10 (Z.abs (s32 v)) (to_base 32 (if bool_decide (s32 v < 0) then u32 (0 - u32 (s32 v)) else u32 (s32 v)) 10 false 64)) as H32.
  { unfold is_s32 in H1. assert ((if bool_decide (s32 v < 0) then u32 (0 - u32 (s32 v)) else u32 (s32 v)) = Z.abs (s32 v)) as ->.
    { case_bool_decide; unfold u32; [|rewrite Z.mod_small; lia]. rewrite Zminus_mod_idemp_r, Z.mod_small; lia. }
    apply to_base_spec; [lia|lia|]. pose proof (base_room 10 32 ltac:(lia) ltac:(lia)). remember (10 ^ Z.of_nat 32). lia. }
  rewrite <- !Eb in *. case_decide as E.
  - subst. cbn [Z.eqb orb]. cbv zeta. cbn [fst snd]. rewrite Eb in *. split; [done|exact H32].
  - destruct (Z.eqb_spec length 3), (Z.eqb_spec length 2), (Z.eqb_spec length 4), (Z.eqb_spec length 1); cbn [orb]; try lia;
      cbv zeta; cbn [fst snd]; rewrite Eb in *; (split; [done|apply H64; [lia|done]]).
Qed.

(** ** The buffer *)

(** The buffer after a text was sent to it: as much of the text as leaves room for
    the terminator. *)
Definition shown (dst : list Z) (size : Z) (t : list Z) : list Z :=
  let k := Z.to_nat (Z.min (Z.of_nat (length t)) (size - 1)) in take k t ++ drop k dst.

Definition sent (dst : list Z) (size : Z) (t : list Z) : out := mk_out (shown dst size t) (Z.of_nat (length t)).

Lemma out_char_spec dst size t c :
  0 <= size <= Z.of_nat (length dst) → size < 2 ^ 63 → Z.of_nat (length t) < 2 ^ 63 - 1 →
  out_char size c (sent dst size t) = Some (sent dst size (t ++ [c])).
Proof.
  intros Hs Hsz Ht. unfold out_char, sent. cbn [o_pos o_dst]. rewrite u64_small by range. rewrite length_app, Nat2Z.inj_add. change (Z.of_nat (length [c])) with 1.
  destruct (Z.ltb_spec (Z.of_nat (length t) + 1) size) as [Hlt|Hge].
  - unfold shown. rewrite length_app. cbn [length]. rewrite !Z.min_l, !Nat2Z.id by lia. rewrite !take_ge by (rewrite ?length_app; cbn [length]; lia).
    destruct (drop (length t) dst) as [|x rest] eqn:Ed; [apply (f_equal length) in Ed; rewrite length_drop in Ed; cbn in Ed; lia|].
    rewrite upd_app. cbn [mbind option_bind]. do 2 f_equal. rewrite <- app_assoc. f_equal. rewrite <- drop_drop, Ed. done.
  - cbn [mbind option_bind]. do 2 f_equal. unfold shown. rewrite length_app. cbn [length]. rewrite !Z.min_r by lia.
    f_equal. rewrite take_app_le by lia. done.
Qed.

Lemma out_str_spec dst size t s :
  0 <= size <= Z.of_nat (length dst) → size < 2 ^ 63 → Z.of_nat (length (t ++ s)) < 2 ^ 63 →
  out_str size s (sent dst size t) = Some (sent dst size (t ++ s)).
Proof.
  intros Hs Hsz. revert t. induction s as [|c s IH]; intros t Ht; [by rewrite app_nil_r|]. rewrite length_app in Ht. cbn [length] in Ht.
  cbn [out_str]. rewrite out_char_spec by (done || lia). cbn [mbind option_bind]. rewrite IH by (rewrite !length_app; cbn [length]; lia).
  by rewrite <- app_assoc.
Qed.

(** ** The text of a directive *)

Definition pad (width : Z) (t : list Z) : list Z := replicate (Z.to_nat (width - Z.of_nat (length t))) 32 ++ t.

Definition directive_text (d : directive) (ap : list arg) : option (list Z * list arg) :=
  if d_spec d =? 115 then
    a ← va_str ap; let '(s, ap) := (a : option (list Z) * list arg) in
    let s := match s with Some s => s | None => null_text end in
    slen ← vstrlen s;
    let slen := if (0 <=? d_precision d) && (d_precision d <? slen) then d_precision d else slen in
    Some (pad (d_width d) (take (Z.to_nat slen) s), ap)
  else
    c ← convert d ap;
    match (c : option (bool * list Z * list Z * list arg)) with
    | None => Some (37 :: (if d_spec d =? 0 then [] else [d_spec d]), ap)
    | Some (sign, prefix, buf, ap) =>
        Some (pad (d_width d) ((if sign then [45] else []) ++ prefix ++
          replicate (Z.to_nat (d_precision d - Z.of_nat (length buf))) 48 ++ buf), ap)
    end.

Lemma vstrlen_bound s n : vstrlen s = Some n → 0 <= n ∧ n <= Z.of_nat (length s).
Proof.
  revert n. induction s as [|c s IH]; intros n; [done|]. cbn [vstrlen]. destruct (c =? 0); [intros [= <-]; cbn; lia|].
  destruct (vstrlen s) as [k|]; [|done]. cbn. intros [= <-]. specialize (IH k eq_refl). cbn [length]. lia.
Qed.

Lemma do_directive_spec dst size t0 p d p' ap t ap' :
  0 <= size <= Z.of_nat (length dst) → size < 2 ^ 63 → parse_directive p = Some (d, p') → directive_text d ap = Some (t, ap') →
  Z.of_nat (length (t0 ++ t)) < 2 ^ 31 - 4 →
  do_directive size p ap (sent dst size t0) = Some (sent dst size (t0 ++ t), ap', p').
Proof.
  intros Hs Hsz Hp Ht Hlen. unfold do_directive, directive_text in *. rewrite Hp. cbn [mbind option_bind].
  destruct (d_spec d =? 115).
  - destruct (va_str ap) as [[s ap1]|]; [|done]. cbn [mbind option_bind] in *. remember (match s with Some s => s | None => null_text end) as s' eqn:Es. clear Es.
    destruct (vstrlen s') as [n|] eqn:En; [|done]. cbn [mbind option_bind] in *. injection Ht as <- <-. pose proof (vstrlen_bound _ _ En) as Hn.
    remember (if (0 <=? d_precision d) && (d_precision d <? n) then d_precision d else n) as k eqn:Ek.
    assert (0 <= k <= n) as Hk by (subst k; destruct (Z.leb_spec 0 (d_precision d)), (Z.ltb_spec (d_precision d) n); cbn; lia). clear Ek.
    unfold pad in *. rewrite !length_app, length_replicate, length_take in Hlen. rewrite length_take.
    replace (Z.of_nat (Z.to_nat k `min` length s')) with k in * by lia.
    rewrite (s32_small k) by range.
    assert ((if (0 <? d_width d) && (k <? d_width d) then out_pad size (d_width d - k) 32 (sent dst size t0) else Some (sent dst size t0)) =
      Some (sent dst size (t0 ++ replicate (Z.to_nat (d_width d - k)) 32))) as ->.
    { destruct (Z.ltb_spec 0 (d_width d)), (Z.ltb_spec k (d_width d)); cbn [andb]; try (replace (Z.to_nat (d_width d - k)) with 0%nat by lia; by rewrite app_nil_r).
      unfold out_pad. apply out_str_spec; [done..|]. rewrite length_app, length_replicate. lia. }
    cbn [mbind option_bind]. rewrite out_str_spec by (done || (rewrite !length_app, length_replicate, length_take; lia)). cbn [mbind option_bind].
    by rewrite <- app_assoc.
  - destruct (convert d ap) as [[[[[sign prefix] buf] ap1]|]|]; cbn [mbind option_bind] in *; [| |done].
    + injection Ht as <- <-. unfold pad in *. set (body := (if sign then [45] else []) ++ prefix ++ replicate (Z.to_nat (d_precision d - Z.of_nat (length buf))) 48 ++ buf) in *.
      rewrite !length_app, length_replicate in Hlen.
      set (num_len := if Z.of_nat (length buf) <? d_precision d then d_precision d else Z.of_nat (length buf)).
      assert (Z.of_nat (length prefix) + (if sign then 1 else 0) + num_len = Z.of_nat (length body)) as Etot.
      { subst body num_len. rewrite !length_app, length_replicate. destruct (Z.ltb_spec (Z.of_nat (length buf)) (d_precision d)), sign; cbn [length]; lia. }
      rewrite Etot, int32_ok by (unfold is_s32; lia). cbn [mbind option_bind].
      assert ((if Z.of_nat (length body) <? d_width d then out_pad size (d_width d - Z.of_nat (length body)) 32 (sent dst size t0) else Some (sent dst size t0)) =
        Some (sent dst size (t0 ++ replicate (Z.to_nat (d_width d - Z.of_nat (length body))) 32))) as ->.
      { destruct (Z.ltb_spec (Z.of_nat (length body)) (d_width d)); [|replace (Z.to_nat _) with 0%nat by lia; by rewrite app_nil_r].
        unfold out_pad. apply out_str_spec; [done..|]. rewrite length_app, length_replicate. lia. }
      cbn [mbind option_bind]. remember (t0 ++ replicate (Z.to_nat (d_width d - Z.of_nat (length body))) 32) as t1 eqn:E1.
      assert (Z.of_nat (length t1) + Z.of_nat (length body) < 2 ^ 31) as Hl1 by (subst t1; rewrite length_app, length_replicate; lia).
      assert ((if sign then out_char size 45 (sent dst size t1) else Some (sent dst size t1)) = Some (sent dst size (t1 ++ if sign then [45] else []))) as ->.
      { destruct sign; [apply out_char_spec; (done || lia)|by rewrite app_nil_r]. }
      subst body. rewrite !length_app, length_replicate in Hl1. cbn [mbind option_bind].
      rewrite out_str_spec by (done || (rewrite !length_app; lia)). cbn [mbind option_bind]. unfold out_pad.
      replace (Z.to_nat (num_len - Z.of_nat (length buf))) with (Z.to_nat (d_precision d - Z.of_nat (length buf)))
        by (subst num_len; destruct (Z.ltb_spec (Z.of_nat (length buf)) (d_precision d)); lia).
      rewrite out_str_spec by (done || (rewrite !length_app, length_replicate; lia)). cbn [mbind option_bind].
      rewrite out_str_spec by (done || (rewrite !length_app, length_replicate; lia)). cbn [mbind option_bind].
      rewrite E1, <- !app_assoc. done.
    + injection Ht as <- <-. rewrite length_app in Hlen. cbn [length] in Hlen. rewrite out_char_spec by (done || lia). cbn [mbind option_bind].
      destruct (d_spec d =? 0); cbn [negb mbind option_bind]; [done|].
      rewrite out_char_spec by (done || (rewrite length_app; cbn [length] in *; lia)). cbn [mbind option_bind]. by rewrite <- app_assoc.
Qed.

(** ** The text of a format *)

Fixpoint format_text (fuel : nat) (p : list Z) (ap : list arg) : option (list Z) :=
  match fuel with
  | O => None
  | S fuel =>
      c ← head p;
      if c =? 0 then Some []
      else if negb (c =? 37) then t ← format_text fuel (tail p) ap; Some (c :: t)
      else
        c ← head (tail p);
        if c =? 37 then t ← format_text fuel (drop 2 p) ap; Some (37 :: t)
        else
          dp ← parse_directive (tail p);
          x ← directive_text (fst dp) ap;
          t ← format_text fuel (tail (snd dp)) (snd x);
          Some (fst x ++ t)
  end.

Lemma vsnprintf_loop_spec fuel dst size t0 p ap t :
  0 <= size <= Z.of_nat (length dst) → size < 2 ^ 63 → format_text fuel p ap = Some t → Z.of_nat (length (t0 ++ t)) < 2 ^ 31 - 4 →
  vsnprintf_loop fuel size p ap (sent dst size t0) = Some (sent dst size (t0 ++ t)).
Proof.
  intros Hs Hsz. revert t0 p ap t. induction fuel as [|fuel IH]; intros t0 p ap t; [done|]. cbn [format_text vsnprintf_loop].
  destruct (head p) as [c|]; [|done]. cbn [mbind option_bind]. destruct (c =? 0); [intros [= <-] _; by rewrite app_nil_r|].
  destruct (c =? 37); cbn [negb].
  - destruct (head (tail p)) as [c'|]; [|done]. cbn [mbind option_bind]. destruct (c' =? 37).
    + destruct (format_text fuel (drop 2 p) ap) as [t'|] eqn:E; [|done]. cbn [mbind option_bind]. intros [= <-] Hlen.
      rewrite length_app in Hlen. cbn [length] in Hlen.
      rewrite out_char_spec by (done || lia). cbn [mbind option_bind]. rewrite (IH _ _ _ t') by (done || (rewrite !length_app; cbn [length]; lia)).
      by rewrite <- app_assoc.
    + destruct (parse_directive (tail p)) as [[d p']|] eqn:Ep; [|done]. cbn [mbind option_bind fst snd].
      destruct (directive_text d ap) as [[x ap']|] eqn:Ed; [|done]. cbn [mbind option_bind fst snd].
      destruct (format_text fuel (tail p') ap') as [t'|] eqn:E; [|done]. cbn [mbind option_bind]. intros [= <-] Hlen.
      rewrite app_assoc in Hlen. rewrite (do_directive_spec dst size t0 _ d p' ap x ap') by (done || (rewrite length_app in Hlen; lia)).
      cbn [mbind option_bind]. rewrite (IH _ _ _ t') by done. by rewrite <- app_assoc.
  - destruct (format_text fuel (tail p) ap) as [t'|] eqn:E; [|done]. cbn [mbind option_bind]. intros [= <-] Hlen.
    rewrite length_app in Hlen. cbn [length] in Hlen.
    rewrite out_char_spec by (done || lia). cbn [mbind option_bind]. rewrite (IH _ _ _ t') by (done || (rewrite !length_app; cbn [length]; lia)).
    by rewrite <- app_assoc.
Qed.

(** The buffer of [vsnprintf]: the text cut to fit, the terminator, the rest as
    it was; the length of the whole text is returned. *)
Lemma vsnprintf_spec dst size fmt ap t :
  0 < size <= Z.of_nat (length dst) → size < 2 ^ 63 → format_text (S (length fmt)) fmt ap = Some t → Z.of_nat (length t) < 2 ^ 31 - 4 →
  vsnprintf dst size fmt ap = Some
    (take (Z.to_nat (size - 1)) t ++ 0 :: drop (S (length (take (Z.to_nat (size - 1)) t))) dst, Z.of_nat (length t)).
Proof.
  intros Hs Hsz Ht Hlen. unfold vsnprintf. pose proof (vsnprintf_loop_spec (S (length fmt)) dst size [] fmt ap t ltac:(lia) Hsz Ht Hlen) as E.
  assert (sent dst size [] = mk_out dst 0) as E0 by (unfold sent, shown; cbn [length]; f_equal; rewrite Z.min_l by lia; done).
  rewrite E0 in E. rewrite E. cbn [mbind option_bind app sent o_pos o_dst]. rewrite (proj2 (Z.ltb_lt 0 size)) by lia.
  rewrite s32_small by range. unfold shown.
  set (k := Z.to_nat (Z.min (Z.of_nat (length t)) (size - 1))).
  assert (take k t = take (Z.to_nat (size - 1)) t) as Etk.
  { subst k. destruct (decide (Z.of_nat (length t) <= size - 1)); [rewrite Z.min_l, Nat2Z.id, !take_ge by lia; done|by rewrite Z.min_r by lia]. }
  assert (length (take k t) = k) as Elk by (rewrite length_take; lia). rewrite <- Etk, Elk.
  assert ((if size <=? Z.of_nat (length t) then (take k t ++ drop k dst).[size - 1 <- 0] else (take k t ++ drop k dst).[Z.of_nat (length t) <- 0]) =
    (take k t ++ drop k dst).[Z.of_nat (length (take k t)) <- 0]) as ->.
  { rewrite Elk. destruct (Z.leb_spec size (Z.of_nat (length t))); f_equal; lia. }
  destruct (drop k dst) as [|x rest] eqn:Ed; [apply (f_equal length) in Ed; rewrite length_drop in Ed; cbn in Ed; lia|].
  rewrite upd_app. cbn [mbind option_bind]. do 3 f_equal. replace (S k) with (k + 1)%nat by lia. rewrite <- drop_drop, Ed. done.
Qed.

(** ** What a format denotes *)

(** The conversions of numbers. *)
Inductive kind := Dec | Uns | Hex | HEX | Oct.
Definition kind_char (k : kind) : Z := match k with Dec => 100 | Uns => 117 | Hex => 120 | HEX => 88 | Oct => 111 end.
Definition kind_base (k : kind) : Z := match k with Dec | Uns => 10 | Hex | HEX => 16 | Oct => 8 end.
Definition length_text (l : Z) : list Z :=
  if decide (l = 1) then [108] else if decide (l = 2) then [108; 108] else if decide (l = 3) then [106] else if decide (l = 4) then [122] else [].

(** The parts of a format, with the argument each one takes. *)
Inductive piece :=
  | Plain (c : Z)
  | Percent
  | Number (width : Z) (precision : option Z) (l : Z) (k : kind) (v : Z)
  | Text (width : Z) (precision : option Z) (s : list Z).

(** A width or a precision as written. *)
Definition notation (n : Z) : list Z := uint_to_base n 10 false 64.
Definition width_text (w : Z) : list Z := if decide (w = 0) then [] else notation w.
Definition precision_text (p : option Z) : list Z := match p with None => [] | Some p => 46 :: notation p end.

Definition piece_format (x : piece) : list Z :=
  match x with
  | Plain c => [c]
  | Percent => [37; 37]
  | Number w p l k _ => 37 :: width_text w ++ precision_text p ++ length_text l ++ [kind_char k]
  | Text w p _ => 37 :: width_text w ++ precision_text p ++ [115]
  end.
Definition piece_arg (x : piece) : list arg :=
  match x with Plain _ | Percent => [] | Number _ _ _ _ v => [Int v] | Text _ _ s => [Str (Some (s ++ [0]))] end.

(** The number a conversion shows. *)
Definition kind_value (k : kind) (l v : Z) : Z := match k with Dec => signed_value l v | _ => unsigned_value l v end.

(** What a piece shows. *)
Definition piece_shows (x : piece) (t : list Z) : Prop :=
  match x with
  | Plain c => t = [c]
  | Percent => t = [37]
  | Number w p l k v => ∃ ds, numeral_of (kind_base k) (Z.abs (kind_value k l v)) ds ∧
      t = pad w ((if decide (kind_value k l v < 0) then [45] else []) ++ replicate (Z.to_nat (default (-1) p - Z.of_nat (length ds))) 48 ++ ds)
  | Text w p s => t = pad w (match p with Some p => take (Z.to_nat p) s | None => s end)
  end.

Definition piece_ok (x : piece) : Prop :=
  match x with
  | Plain c => c ≠ 0 ∧ c ≠ 37
  | Percent => True
  | Number w p l _ _ => 0 <= w < 2 ^ 30 ∧ 0 <= l <= 4 ∧ match p with Some p => 0 <= p < 2 ^ 30 | None => True end
  | Text w p s => 0 <= w < 2 ^ 30 ∧ nonzero s ∧ match p with Some p => 0 <= p < 2 ^ 30 | None => True end
  end.

Definition non_digit (c : Z) : Prop := digitb c = false.

Lemma digit_of_ten c : digit_of 10 c → digitb c = true ∧ digit_val c = c - 48.
Proof. unfold digit_of, digit_val, digitb. intros H. repeat case_match; split; try lia; done. Qed.

Lemma parse_number_spec ds c rest v :
  Forall (digit_of 10) ds → non_digit c → 0 <= v → continue 10 v ds < 2 ^ 31 → parse_number (ds ++ c :: rest) v = Some (continue 10 v ds, c :: rest).
Proof.
  intros Hd Hc. revert v. induction Hd as [|d ds Hd1 Hd IH]; intros v Hv Hlt; cbn [app parse_number]; [by rewrite Hc|].
  destruct (digit_of_ten d Hd1) as [-> Ed]. pose proof Hd1 as [H0 _]. cbn [continue foldl] in Hlt. fold (continue 10 (v * 10 + digit_val d) ds) in Hlt.
  pose proof (continue_mono 10 (v * 10 + digit_val d) ds ltac:(lia) ltac:(lia) Hd) as Hm. rewrite Ed in *.
  rewrite !int32_ok by (unfold is_s32; lia). cbn [mbind option_bind]. rewrite int32_ok by (unfold is_s32; lia). cbn [mbind option_bind].
  rewrite IH by lia. cbn [continue foldl]. by rewrite Ed.
Qed.

Lemma notation_spec n : 0 <= n < 2 ^ 30 → numeral_of 10 n (notation n).
Proof.
  intros H. apply to_base_spec; [lia|lia|]. pose proof (base_room 10 32 ltac:(lia) ltac:(lia)). remember (10 ^ Z.of_nat 32). lia.
Qed.

Lemma parse_width w c rest : 0 <= w < 2 ^ 30 → non_digit c → parse_number (width_text w ++ c :: rest) 0 = Some (w, c :: rest).
Proof.
  intros Hw Hc. unfold width_text. case_decide as E; [subst; cbn [app parse_number]; by rewrite Hc|].
  destruct (notation_spec w Hw) as (Hn & Hd & _). unfold numeral in Hn. fold (continue 10 0 (notation w)) in Hn.
  rewrite parse_number_spec; [by rewrite Hn|done|done|lia|lia].
Qed.

(** The parser reads the parts of a directive back. *)
Lemma parse_directive_spec w p l c rest :
  0 <= w < 2 ^ 30 → match p with Some p => 0 <= p < 2 ^ 30 | None => True end → 0 <= l <= 4 →
  non_digit c → c ≠ 46 → c ≠ 108 → c ≠ 106 → c ≠ 122 →
  parse_directive (width_text w ++ precision_text p ++ length_text l ++ c :: rest) = Some (mk_dir w (default (-1) p) l c, c :: rest).
Proof.
  intros Hw Hp Hl Hc H46 H108 H106 H122.
  assert (parse_length (length_text l ++ c :: rest) = Some (l, c :: rest)) as Hlen.
  { unfold length_text, parse_length. repeat case_decide; subst; cbn [app head tail mbind option_bind Z.eqb Pos.eqb drop];
      rewrite ?(proj2 (Z.eqb_neq c 108)), ?(proj2 (Z.eqb_neq c 106)), ?(proj2 (Z.eqb_neq c 122)) by done; try reflexivity. do 2 f_equal. lia. }
  assert (∃ c1 r1, length_text l ++ c :: rest = c1 :: r1 ∧ non_digit c1 ∧ c1 ≠ 46) as (c1 & r1 & E1 & Hc1 & Hd1).
  { unfold length_text. repeat case_decide; cbn [app]; eexists; eexists; (split; [reflexivity|done]). }
  assert (parse_precision (precision_text p ++ length_text l ++ c :: rest) = Some (default (-1) p, length_text l ++ c :: rest)) as Hprec.
  { unfold parse_precision. destruct p as [p|]; cbn [precision_text app head tail mbind option_bind from_option id].
    - destruct (notation_spec p Hp) as (Hn & Hd & _). unfold numeral in Hn. fold (continue 10 0 (notation p)) in Hn.
      rewrite E1. cbn [Z.eqb Pos.eqb]. rewrite parse_number_spec; [by rewrite Hn|done|done|lia|lia].
    - rewrite E1. cbn [head mbind option_bind]. by rewrite (proj2 (Z.eqb_neq c1 46)) by done. }
  assert (∃ c2 r2, precision_text p ++ length_text l ++ c :: rest = c2 :: r2 ∧ non_digit c2) as (c2 & r2 & E2 & Hc2).
  { destruct p as [p|]; cbn [precision_text app]; [by eexists; eexists|]. rewrite E1. by eexists; eexists. }
  unfold parse_directive. rewrite E2, parse_width by done. rewrite <- E2. cbn [mbind option_bind fst snd]. rewrite Hprec. cbn [mbind option_bind fst snd].
  rewrite Hlen. reflexivity.
Qed.

Lemma pad_zero_app w t : pad w ([] ++ t) = pad w t.
Proof. done. Qed.

(** A directive for a number shows its digits. *)
Lemma number_text w p l k v ap : 0 <= l <= 4 →
  ∃ t, directive_text (mk_dir w (default (-1) p) l (kind_char k)) (Int v :: ap) = Some (t, ap) ∧ piece_shows (Number w p l k v) t.
Proof.
  intros Hl. unfold directive_text. cbn [d_spec d_width d_precision]. destruct k; cbn [kind_char Z.eqb Pos.eqb];
    unfold convert; cbn [d_spec d_length kind_char Z.eqb Pos.eqb orb va_int mbind option_bind].
  - pose proof (signed_digits_spec l v Hl) as [E1 E2]. destruct (signed_digits l v) as [sign ds]. cbn [fst snd] in *. eexists. split; [reflexivity|].
    exists ds. split; [exact E2|]. cbn [kind_value app]. subst sign. f_equal. f_equal. case_bool_decide; [by rewrite decide_True|by rewrite decide_False].
  - eexists. split; [reflexivity|]. exists (unsigned_digits l 10 false v). pose proof (unsigned_digits_spec l 10 false v Hl ltac:(lia)) as H.
    assert (0 <= unsigned_value l v) by (unfold unsigned_value; case_decide; [apply u32_range|apply u64_range]).
    cbn [kind_value kind_base]. rewrite decide_False, Z.abs_eq by lia. done.
  - eexists. split; [reflexivity|]. exists (unsigned_digits l 16 false v). pose proof (unsigned_digits_spec l 16 false v Hl ltac:(lia)) as H.
    assert (0 <= unsigned_value l v) by (unfold unsigned_value; case_decide; [apply u32_range|apply u64_range]).
    cbn [kind_value kind_base]. rewrite decide_False, Z.abs_eq by lia. done.
  - eexists. split; [reflexivity|]. exists (unsigned_digits l 16 true v). pose proof (unsigned_digits_spec l 16 true v Hl ltac:(lia)) as H.
    assert (0 <= unsigned_value l v) by (unfold unsigned_value; case_decide; [apply u32_range|apply u64_range]).
    cbn [kind_value kind_base]. rewrite decide_False, Z.abs_eq by lia. done.
  - eexists. split; [reflexivity|]. exists (unsigned_digits l 8 false v). pose proof (unsigned_digits_spec l 8 false v Hl ltac:(lia)) as H.
    assert (0 <= unsigned_value l v) by (unfold unsigned_value; case_decide; [apply u32_range|apply u64_range]).
    cbn [kind_value kind_base]. rewrite decide_False, Z.abs_eq by lia. done.
Qed.

Lemma text_text w p s ap : nonzero s → match p with Some p => 0 <= p | None => True end →
  directive_text (mk_dir w (default (-1) p) 0 115) (Str (Some (s ++ [0])) :: ap) =
    Some (pad w (match p with Some p => take (Z.to_nat p) s | None => s end), ap).
Proof.
  intros Hs Hp. unfold directive_text. cbn [d_spec d_width d_precision Z.eqb Pos.eqb va_str mbind option_bind].
  rewrite vstrlen_spec by done. cbn [mbind option_bind]. do 3 f_equal. destruct p as [p|]; cbn [from_option id].
  - destruct (Z.leb_spec 0 p), (Z.ltb_spec p (Z.of_nat (length s))); cbn [andb]; try lia.
    + rewrite take_app_le by lia. done.
    + rewrite Nat2Z.id, take_app_length, take_ge by lia. done.
  - cbn [Z.leb Z.compare andb]. by rewrite Nat2Z.id, take_app_length.
Qed.

Definition pieces_format (xs : list piece) : list Z := concat (map piece_format xs) ++ [0].
Definition pieces_args (xs : list piece) : list arg := concat (map piece_arg xs).

Lemma kind_char_facts k : non_digit (kind_char k) ∧ kind_char k ≠ 46 ∧ kind_char k ≠ 108 ∧ kind_char k ≠ 106 ∧ kind_char k ≠ 122 ∧ kind_char k ≠ 37.
Proof. by destruct k. Qed.

(** A directive does not start with a percent sign. *)
Lemma directive_head w p l c rest : 0 <= w < 2 ^ 30 → c ≠ 37 →
  ∃ c1 r1, width_text w ++ precision_text p ++ length_text l ++ c :: rest = c1 :: r1 ∧ c1 ≠ 37.
Proof.
  intros Hw Hc. unfold width_text. case_decide as E.
  - destruct p as [p|]; cbn [precision_text app]; [eexists; eexists; split; [reflexivity|done]|].
    unfold length_text. repeat case_decide; cbn [app]; eexists; eexists; (split; [reflexivity|done]).
  - destruct (notation_spec w Hw) as (_ & Hd & Hne & _). destruct (notation w) as [|d ds]; [done|]. cbn [app]. eexists; eexists; split; [reflexivity|].
    intros ->. apply Forall_cons in Hd as [Hd _]. by apply digit_of_ten in Hd as [? _].
Qed.

Lemma format_text_pieces xs fuel : Forall piece_ok xs → (length (pieces_format xs) < fuel)%nat →
  ∃ ts, format_text fuel (pieces_format xs) (pieces_args xs) = Some (concat ts) ∧ Forall2 piece_shows xs ts.
Proof.
  intros Hok. revert fuel. induction Hok as [|x xs Hx Hok IH]; intros fuel Hf.
  { destruct fuel as [|fuel]; [cbn in Hf; lia|]. exists []. split; [done|constructor]. }
  assert (pieces_format (x :: xs) = piece_format x ++ pieces_format xs) as Ef by (unfold pieces_format; cbn; by rewrite <- app_assoc).
  assert (pieces_args (x :: xs) = piece_arg x ++ pieces_args xs) as Ea by done. rewrite Ef, Ea in *. rewrite length_app in Hf.
  destruct fuel as [|fuel]; [lia|].
  assert (∃ ts, format_text fuel (pieces_format xs) (pieces_args xs) = Some (concat ts) ∧ Forall2 piece_shows xs ts) as (ts & E & Hts).
  { apply IH. destruct x; cbn [piece_format length] in Hf; lia. }
  destruct x as [c| |w p l k v|w p s]; cbn [piece_format piece_arg app format_text head tail mbind option_bind].
  - destruct Hx as [Hc0 Hc]. rewrite (proj2 (Z.eqb_neq c 0)), (proj2 (Z.eqb_neq c 37)) by done. cbn [negb]. rewrite E. cbn [mbind option_bind].
    exists ([c] :: ts). split; [done|]. by constructor.
  - cbn [Z.eqb Pos.eqb negb drop]. rewrite drop_0. rewrite E. cbn [mbind option_bind]. exists ([37] :: ts). split; [done|]. by constructor.
  - destruct Hx as (Hw & Hl & Hp). destruct (kind_char_facts k) as (F1 & F2 & F3 & F4 & F5 & F6). cbn [Z.eqb Pos.eqb negb].
    replace ((width_text w ++ precision_text p ++ length_text l ++ [kind_char k]) ++ pieces_format xs)
      with (width_text w ++ precision_text p ++ length_text l ++ kind_char k :: pieces_format xs) by (by rewrite <- !app_assoc).
    pose proof (parse_directive_spec w p l (kind_char k) (pieces_format xs) Hw Hp Hl F1 F2 F3 F4 F5) as Ed.
    destruct (directive_head w p l (kind_char k) (pieces_format xs) Hw F6) as (c1 & r1 & E1 & Hc1). rewrite E1 in *. cbn [head mbind option_bind].
    rewrite (proj2 (Z.eqb_neq c1 37)) by done. rewrite Ed. cbn [mbind option_bind fst snd].
    destruct (number_text w p l k v (pieces_args xs) Hl) as (t & Et & Ht). rewrite Et. cbn [mbind option_bind fst snd tail]. rewrite E. cbn [mbind option_bind].
    exists (t :: ts). split; [done|]. by constructor.
  - destruct Hx as (Hw & Hs & Hp). cbn [Z.eqb Pos.eqb negb].
    replace ((width_text w ++ precision_text p ++ [115]) ++ pieces_format xs)
      with (width_text w ++ precision_text p ++ length_text 0 ++ 115 :: pieces_format xs) by (by rewrite <- !app_assoc).
    pose proof (parse_directive_spec w p 0 115 (pieces_format xs) Hw Hp ltac:(lia) eq_refl ltac:(lia) ltac:(lia) ltac:(lia) ltac:(lia)) as Ed.
    destruct (directive_head w p 0 115 (pieces_format xs) Hw ltac:(lia)) as (c1 & r1 & E1 & Hc1). rewrite E1 in *. cbn [head mbind option_bind].
    rewrite (proj2 (Z.eqb_neq c1 37)) by done. rewrite Ed. cbn [mbind option_bind fst snd].
    rewrite text_text by (done || (destruct p; lia)). cbn [mbind option_bind fst snd tail]. rewrite E. cbn [mbind option_bind].
    eexists (_ :: ts). split; [reflexivity|]. by constructor.
Qed.

(** C24: [vsnprintf] of a format made of plain characters and directives for
    numbers and strings: it shows each in turn, digits in the base of the
    conversion, zeros up to the precision, blanks up to the width; the buffer
    gets as much as fits before the terminator, nothing is written past [size],
    and the length of the whole text is returned. *)
Theorem vsnprintf_correct dst size xs :
  Forall piece_ok xs → 0 < size <= Z.of_nat (length dst) → size < 2 ^ 63 →
  ∃ ts, Forall2 piece_shows xs ts ∧
    (Z.of_nat (length (concat ts)) < 2 ^ 31 - 4 →
     vsnprintf dst size (pieces_format xs) (pieces_args xs) = Some
       (take (Z.to_nat (size - 1)) (concat ts) ++ 0 :: drop (S (length (take (Z.to_nat (size - 1)) (concat ts)))) dst,
        Z.of_nat (length (concat ts)))).
Proof.
  intros Hok Hs Hsz. destruct (format_text_pieces xs (S (length (pieces_format xs))) Hok ltac:(lia)) as (ts & E & Hts).
  exists ts. split; [done|]. intros Hlen. by apply vsnprintf_spec.
Qed.

(** "%5d|%.4x" with -42 and 255. *)
Lemma vsnprintf_correct_witness :
  ∃ ts, Forall2 piece_shows [Number 5 None 0 Dec (-42); Plain 124; Number 0 (Some 4) 0 Hex 255] ts ∧
    (Z.of_nat (length (concat ts)) < 2 ^ 31 - 4 →
     vsnprintf (replicate 16 170) 16 (pieces_format [Number 5 None 0 Dec (-42); Plain 124; Number 0 (Some 4) 0 Hex 255])
       (pieces_args [Number 5 None 0 Dec (-42); Plain 124; Number 0 (Some 4) 0 Hex 255]) = Some
       (take (Z.to_nat (16 - 1)) (concat ts) ++ 0 :: drop (S (length (take (Z.to_nat (16 - 1)) (concat ts)))) (replicate 16 170),
        Z.of_nat (length (concat ts)))).
Proof.
  apply (vsnprintf_correct (replicate 16 170) 16 [Number 5 None 0 Dec (-42); Plain 124; Number 0 (Some 4) 0 Hex 255]).
  - repeat constructor; lia.
  - rewrite length_replicate. lia.
  - lia.
Defined.

(** ** Printing and reading back *)

Definition FMT_LD : list Z := [37; 108; 100; 0].

Lemma to_base_length n v base upper : (length (to_base n v base upper 64) <= 64)%nat.
Proof. unfold to_base. rewrite length_rev, length_take. lia. Qed.

Lemma signed_digits_length l v : (length (snd (signed_digits l v)) <= 64)%nat.
Proof.
  unfold signed_digits. destruct ((l =? 3) || (l =? 2) || (l =? 4)); [apply (to_base_length 64)|].
  destruct (l =? 1); apply (to_base_length 32).
Qed.

Lemma format_text_ld v : is_s64 v →
  ∃ ds, format_text 5 FMT_LD [Int v] = Some ((if decide (v < 0) then [45] else []) ++ ds) ∧ numeral_of 10 (Z.abs v) ds ∧ (length ds <= 64)%nat.
Proof.
  intros Hv. pose proof (signed_digits_spec 1 v ltac:(lia)) as [E1 E2]. pose proof (signed_digits_length 1 v) as E3.
  assert (signed_value 1 v = v) as Ev by (unfold signed_value; rewrite decide_False by lia; by apply s64_small). rewrite Ev in *.
  exists (snd (signed_digits 1 v)). split_and!; [|done|done].
  unfold FMT_LD. cbn [format_text head tail mbind option_bind Z.eqb Pos.eqb negb parse_directive parse_number parse_precision parse_length digitb Z.leb Z.compare Pos.compare Pos.compare_cont andb fst snd drop].
  unfold directive_text. cbn [d_spec Z.eqb Pos.eqb]. unfold convert. cbn [d_spec d_length Z.eqb Pos.eqb va_int mbind option_bind].
  destruct (signed_digits 1 v) as [sign ds]. cbn [fst snd] in *. subst sign. cbn [mbind option_bind fst snd d_width d_precision].
  rewrite app_nil_r. f_equal. unfold pad. replace (Z.to_nat (-1 - Z.of_nat (length ds))) with 0%nat by lia. cbn [replicate app].
  replace (Z.to_nat _) with 0%nat by lia. cbn [replicate app]. case_bool_decide; [by rewrite decide_True|by rewrite decide_False].
Qed.

(** A [long] printed with "%ld" is read back by [strtol]: the text fits, and
    the value, the end and the range flag are right. *)
Theorem printf_strtol_roundtrip dst size v :
  is_s64 v → v ≠ LONG_MIN → 80 < size <= Z.of_nat (length dst) → size < 2 ^ 63 →
  ∃ buf n, snprintf dst size FMT_LD [Int v] = Some (buf, n) ∧ 0 < n < size ∧
    strtol buf 10 = Some {| sr_value := v; sr_end := n; sr_range := false |}.
Proof.
  intros Hv Hmin Hs Hsz. destruct (format_text_ld v Hv) as (ds & E & (Hn & Hd & Hne & _) & Hl).
  set (t := (if decide (v < 0) then [45] else []) ++ ds) in *.
  assert (0 < Z.of_nat (length t) <= 65) as Ht.
  { subst t. rewrite length_app. destruct ds as [|d ds]; [done|]. destruct (decide (v < 0)); cbn [length] in *; lia. }
  pose proof (vsnprintf_spec dst size FMT_LD [Int v] t ltac:(lia) Hsz E ltac:(lia)) as Ev. rewrite take_ge in Ev by lia.
  eexists; eexists; split; [exact Ev|]. split; [lia|]. subst t. rewrite <- app_assoc.
  assert (sign_text (if decide (v < 0) then [45] else []) (bool_decide (v < 0))) as Hsg by (case_bool_decide; [rewrite decide_True|rewrite decide_False]; (done || constructor)).
  assert (signed (bool_decide (v < 0)) (Z.abs v) = v) as Esv by (unfold signed; case_bool_decide; lia).
  pose proof (strtol_spec [] (if decide (v < 0) then [45] else []) (bool_decide (v < 0)) 10 ds 10 ds (0 :: drop (S (length ((if decide (v < 0) then [45] else []) ++ ds))) dst)) as Hst.
  rewrite Hn, Esv in Hst. cbn [app] in Hst. unfold is_s64, LONG_MIN in *. rewrite Hst; [|constructor|exact Hsg|apply literal_plain; lia|exact Hne|exact Hd| |done|exact Hmin].
  - f_equal. f_equal; [unfold clamp, LONG_MAX, LONG_MIN; lia|]. apply bool_decide_eq_false_2. unfold LONG_MAX, LONG_MIN. lia.
  - apply stops_decimal; [|lia]. unfold is_digit. lia.
Qed.

Lemma printf_strtol_roundtrip_witness :
  ∃ buf n, snprintf (replicate 100 170) 100 FMT_LD [Int (-9223372036854775807)] = Some (buf, n) ∧ 0 < n < 100 ∧
    strtol buf 10 = Some {| sr_value := -9223372036854775807; sr_end := n; sr_range := false |}.
Proof.
  apply (printf_strtol_roundtrip (replicate 100 170) 100 (-9223372036854775807)).
  - unfold is_s64. lia.
  - unfold LONG_MIN. lia.
  - rewrite length_replicate. lia.
  - lia.
Defined.

(** ** Where the code and its intention part *)

(** Output of more than 1024 bytes: the text was cut to the buffer, but its whole
    length is written from there, past the end of the buffer. *)
Lemma vfdprintf_reads_past_buffer answers uninit fd fmt ap t :
  length uninit = 1024%nat → 0 <= fd → format_text (S (length fmt)) fmt ap = Some t → 1024 < Z.of_nat (length t) < 2 ^ 31 - 4 →
  vfdprintf (Wrote (Z.of_nat (length t)) :: answers) uninit fd fmt ap = None.
Proof.
  intros Hu Hfd Ht Hlen. unfold vfdprintf. rewrite (vsnprintf_spec uninit 1024 fmt ap t) by (lia || done). cbn [mbind option_bind].
  rewrite (proj2 (Z.ltb_lt 0 _)), (proj2 (Z.leb_le 0 fd)) by lia. cbn [andb write_loop].
  rewrite (proj2 (Z.leb_gt _ 0)) by lia. rewrite (proj2 (Z.leb_le 0 _)) by lia. rewrite (proj2 (Z.leb_gt (0 + _) _)); [done|].
  rewrite length_app. cbn [length]. rewrite length_drop, length_take. lia.
Qed.

(** A format that ends in a percent sign: the terminator is taken for the
    conversion and the loop goes on after it. *)
Lemma format_ending_in_percent : vsnprintf (replicate 8 0) 8 [37; 0] [] = None.
Proof. reflexivity. Qed.
