(* ===== verification/LibInet.v ===== *)
(** * Internet addresses and text: example_libc/src/inet_pton.c, inet_ntop.c,
      inet_aton.c, inet_addr.c

    An IPv4 address is the 32-bit number with the first octet on top; stored in a
    structure its bytes are in that order, which on the little-endian host is
    [htonl] of the number.  An IPv6 address is 16 bytes. *)

From S2P Require Import Prelude CString LibBase LibStrto LibString LibPrintf.

Local Open Scope Z_scope.

Definition AF_INET : Z := 2.
Definition AF_INET6 : Z := 10.
Definition INET_ADDRSTRLEN : Z := 16.
Definition INET6_ADDRSTRLEN : Z := 46.

(** [htonl] and [ntohl] on the little-endian host. *)
Definition htonl (x : Z) : Z :=
  Z.lor (Z.lor (Z.lor (Z.shiftl (Z.land x 255) 24) (Z.shiftl (Z.land (Z.shiftr x 8) 255) 16)) (Z.shiftl (Z.land (Z.shiftr x 16) 255) 8)) (Z.land (Z.shiftr x 24) 255).
Definition ntohl (x : Z) : Z := htonl x.

(** [strtol(s, &end, base)]: the value and the text at [end]. *)
Definition strtol_end (s : list Z) (base : Z) : option (Z * list Z) :=
  r ← strtol s base; Some (sr_value r, drop (Z.to_nat (sr_end r)) s).

(** An octet that has to be followed by a dot: [Some None] is the error. *)
Definition octet_dot (s : list Z) : option (option (Z * list Z)) :=
  r ← strtol_end s 10;
  let '(a, t) := (r : Z * list Z) in
  if (a <? 0) || (255 <? a) then Some None else
  c ← head t;
  Some (if negb (c =? 46) then None else Some (a, tail t)).

(** The last octet, followed by the end or blank space. *)
Definition octet_last (s : list Z) : option (option Z) :=
  r ← strtol_end s 10;
  let '(d, t) := (r : Z * list Z) in
  if (d <? 0) || (255 <? d) then Some None else
  c ← head t;
  Some (if negb (c =? 0) && negb (c =? 32) && negb (c =? 9) then None else Some d).

(** [Some None] is the result -1. *)
Definition parse_ipv4 (s : list Z) : option (option Z) :=
  a ← octet_dot s;
  match a with None => Some None | Some (a, s) =>
  b ← octet_dot s;
  match b with None => Some None | Some (b, s) =>
  c ← octet_dot s;
  match c with None => Some None | Some (c, s) =>
  d ← octet_last s;
  match d with None => Some None | Some d =>
  Some (Some (Z.lor (Z.lor (Z.lor (Z.shiftl a 24) (Z.shiftl b 16)) (Z.shiftl c 8)) d)) end end end end.

(** ** Reading IPv6 *)

(** The loop over the groups, with the variables of the code: the text, [words],
    [cur] and [zpos]; [Some None] is the result -1. *)
Fixpoint ipv6_loop (fuel : nat) (s words : list Z) (cur zpos : Z) : option (option (list Z * list Z * Z * Z)) :=
  match fuel with
  | O => None
  | S fuel =>
      c ← head s;
      if (c =? 0) || (8 <=? cur) then Some (Some (s, words, cur, zpos))
      else if c =? 58 then
        if negb (zpos =? -1) then Some None else
        c1 ← head (tail s);
        if c1 =? 58 then Some None else ipv6_loop fuel (tail s) words cur cur
      else
        r ← strtol_end s 16;
        let '(val, t) := (r : Z * list Z) in
        if (val <? 0) || (65535 <? val) then Some None else
        words ← words.[cur <- u16 val];
        let cur := cur + 1 in
        e ← head t;
        if e =? 46 then
          if 6 <? cur then Some None else
          ip ← parse_ipv4 t;
          match ip with
          | None => Some None
          | Some ipv4 =>
              words ← words.[cur <- u16 (Z.land (Z.shiftr ipv4 16) 65535)];
              words ← words.[cur + 1 <- u16 (Z.land ipv4 65535)];
              n ← vstrlen t;
              Some (Some (drop (Z.to_nat n) t, words, cur + 2, zpos))
          end
        else if e =? 58 then ipv6_loop fuel (tail t) words cur zpos
        else if negb (e =? 0) then Some None
        else ipv6_loop fuel t words cur zpos
  end.

(** [for (i = cur - 1; i >= zpos; i--) words[i + fill] = words[i]], [n] rounds from [i]. *)
Fixpoint shift_words (n : nat) (words : list Z) (i fill : Z) : option (list Z) :=
  match n with O => Some words | S n => x ← words.[i]; words ← words.[i + fill <- x]; shift_words n words (i - 1) fill end.
(** [for (i = zpos; i < zpos + fill; i++) words[i] = 0] *)
Fixpoint clear_words (n : nat) (words : list Z) (i : Z) : option (list Z) :=
  match n with O => Some words | S n => words ← words.[i <- 0]; clear_words n words (i + 1) end.

(** The bytes of the words, high byte first. *)
Definition word_bytes (words : list Z) : list Z := concat (map (λ w, [Z.shiftr w 8; Z.land w 255]) words).

(** After the loop: the rest of the text has to be empty, and the words after
    "::" move to the end. *)
Definition ipv6_finish (s words : list Z) (cur zpos : Z) : option (option (list Z)) :=
  c ← head s;
  if negb (c =? 0) then Some None else
  let fill := 8 - cur in
  if (zpos =? -1) && negb (cur =? 8) then Some None else
  words ← (if negb (zpos =? -1) then
             words ← shift_words (Z.to_nat (cur - zpos)) words (cur - 1) fill;
             clear_words (Z.to_nat fill) words zpos
           else Some words);
  Some (Some (word_bytes words)).

Definition parse_ipv6 (s : list Z) : option (option (list Z)) :=
  c ← head s;
  st ← (if c =? 58 then c1 ← head (tail s); Some (if negb (c1 =? 58) then None else Some (drop 2 s, 0)) else Some (Some (s, -1)));
  match (st : option (list Z * Z)) with
  | None => Some None
  | Some (s, zpos) =>
      r ← ipv6_loop (S (length s)) s (replicate 8 0) 0 zpos;
      match r with
      | None => Some None
      | Some (s, words, cur, zpos) => ipv6_finish s words cur zpos
      end
  end.

(** The result, [errno] when it is set, and what is stored through [dst]: the
    value of [s_addr] or the 16 bytes. *)
Inductive address := V4 (s_addr : Z) | V6 (s6_addr : list Z).
Definition inet_pton (af : Z) (src : option (list Z)) (dst : bool) : option (Z * option Z * option address) :=
  match src with
  | None => Some (-1, Some 22, None)
  | Some src =>
      if negb dst then Some (-1, Some 22, None)
      else if af =? AF_INET then
        ip ← parse_ipv4 src; Some (match ip with None => (0, None, None) | Some ip => (1, None, Some (V4 (htonl ip))) end)
      else if af =? AF_INET6 then
        b ← parse_ipv6 src; Some (match b with None => (0, None, None) | Some b => (1, None, Some (V6 b)) end)
      else Some (-1, Some EAFNOSUPPORT, None)
  end.

Definition inet_aton (cp : option (list Z)) (inp : bool) : option (Z * option Z) :=
  match cp with
  | None => Some (0, None)
  | Some cp => if negb inp then Some (0, None) else ip ← parse_ipv4 cp; Some (match ip with None => (0, None) | Some ip => (1, Some (htonl ip)) end)
  end.

Definition inet_addr (cp : option (list Z)) : option Z :=
  r ← inet_aton cp true; Some (match r with (0, _) => 4294967295 | (_, Some a) => a | (_, None) => 4294967295 end).

(** ** Writing *)

(** [hex16]: the characters appended. *)
Fixpoint hex16_loop (shifts : list Z) (val : Z) (started : bool) : list Z :=
  match shifts with
  | [] => []
  | i :: shifts =>
      let d := Z.land (Z.shiftr val i) 15 in
      if negb (d =? 0) || started || (i =? 0) then (if d <? 10 then 48 + d else 97 + d - 10) :: hex16_loop shifts val true
      else hex16_loop shifts val started
  end.
Definition hex16 (val : Z) : list Z := hex16_loop [12; 8; 4; 0] val false.

(** The search for the longest run of zero words. *)
Record run := mk_run { best_base : Z; best_len : Z; cur_base : Z; cur_len : Z }.
Definition run_step (i w : Z) (r : run) : run :=
  if w =? 0 then
    if cur_base r =? -1 then mk_run (best_base r) (best_len r) i 1 else mk_run (best_base r) (best_len r) (cur_base r) (cur_len r + 1)
  else if negb (cur_base r =? -1) then
    if best_len r <? cur_len r then mk_run (cur_base r) (cur_len r) (-1) 0 else mk_run (best_base r) (best_len r) (-1) 0
  else r.
Fixpoint run_loop (words : list Z) (i : Z) (r : run) : run :=
  match words with [] => r | w :: words => run_loop words (i + 1) (run_step i w r) end.
Definition best_run (words : list Z) : Z * Z :=
  let r := run_loop words 0 (mk_run (-1) 0 (-1) 0) in
  let '(b, l) := if negb (cur_base r =? -1) && (best_len r <? cur_len r) then (cur_base r, cur_len r) else (best_base r, best_len r) in
  if l <? 2 then (-1, l) else (b, l).

(** The loop that writes the groups into [buf], from [i] on; [p] is what [buf]
    holds up to the pointer. *)
Fixpoint ntop_loop (fuel : nat) (words : list Z) (b l i : Z) (p : list Z) : option (list Z) :=
  match fuel with
  | O => None
  | S fuel =>
      if i <? 8 then
        if b =? i then ntop_loop fuel words b l (i + (l - 1) + 1) (p ++ [58; 58])
        else
          c ← (if 0 <? i then last p else Some 58);
          let p := if (0 <? i) && negb (c =? 58) then p ++ [58] else p in
          w ← words.[i];
          ntop_loop fuel words b l (i + 1) (p ++ hex16 w)
      else Some p
  end.

(** The text of an IPv6 address, up to the terminator. *)
Definition ipv6_text (words : list Z) : option (list Z) :=
  let '(b, l) := best_run words in
  p ← ntop_loop 9 words b l 0 [];
  Some (if negb (b =? -1) && (b + l =? 8) then p ++ [58] else p).

(** The words of the 16 bytes. *)
Fixpoint bytes_words (bs : list Z) : list Z :=
  match bs with a :: b :: bs => Z.lor (Z.shiftl a 8) b :: bytes_words bs | _ => [] end.

(** "%u.%u.%u.%u" and "%s" *)
Definition FMT_IPV4 : list Z := [37; 117; 46; 37; 117; 46; 37; 117; 46; 37; 117; 0].
Definition FMT_S : list Z := [37; 115; 0].
Definition octets (addr : Z) : list Z :=
  [Z.land (Z.shiftr addr 24) 255; Z.land (Z.shiftr addr 16) 255; Z.land (Z.shiftr addr 8) 255; Z.land addr 255].


(** The buffer [dst] afterwards, or the error number with a null result. *)
Definition inet_ntop (af : Z) (src : option address) (dst : option (list Z)) (size : Z) : option (list Z + Z) :=
  match src, dst with
  | Some src, Some dst =>
      if size =? 0 then Some (inr EINVAL)
      else if af =? AF_INET then
        if size <? INET_ADDRSTRLEN then Some (inr ENOSPC) else
        match src with
        | V4 s_addr => r ← snprintf dst size FMT_IPV4 (map Int (octets (ntohl s_addr))); Some (inl (fst r))
        | V6 _ => None
        end
      else if af =? AF_INET6 then
        if size <? INET6_ADDRSTRLEN then Some (inr ENOSPC) else
        match src with
        | V6 bs => t ← ipv6_text (bytes_words bs); r ← snprintf dst size FMT_S [Str (Some (t ++ [0]))]; Some (inl (fst r))
        | V4 _ => None
        end
      else Some (inr EAFNOSUPPORT)
  | _, _ => Some (inr EINVAL)
  end.

(** [inet_ntoa] writes to its own buffer of 16 bytes. *)
Definition inet_ntoa (buf : list Z) (s_addr : Z) : option (list Z) :=
  r ← snprintf buf INET_ADDRSTRLEN FMT_IPV4 (map Int (octets (ntohl s_addr))); Some (fst r).

(** ** IPv4 *)

(** A number without leading zeros is no longer than its bound. *)
Lemma continue_lower b v ds : 0 < b → 0 <= v → Forall (digit_of b) ds → v * b ^ Z.of_nat (length ds) <= continue b v ds.
Proof.
  intros Hb Hv Hd. revert v Hv. induction Hd as [|c ds Hc Hd IH]; intros v Hv; cbn [length continue foldl]; [rewrite Z.mul_1_r; lia|].
  fold (continue b (v * b + digit_val c) ds). destruct Hc as [Hc _]. specialize (IH (v * b + digit_val c) ltac:(nia)).
  rewrite Nat2Z.inj_succ, Z.pow_succ_r by lia. assert (0 < b ^ Z.of_nat (length ds)) by (apply Z.pow_pos_nonneg; lia). nia.
Qed.

Lemma numeral_of_length b v ds (k : nat) : 2 <= b → numeral_of b v ds → v < b ^ Z.of_nat k → (0 < k)%nat → (length ds <= k)%nat.
Proof.
  intros Hb (Hn & Hd & Hne & Hlead & Hz) Hv Hk. destruct (decide (v = 0)) as [E|E]; [rewrite (Hz E); cbn; lia|].
  assert (0 <= v) by (rewrite <- Hn; apply numeral_nonneg; [lia|done]). destruct (Hlead ltac:(lia)) as (c & t & -> & Hc).
  apply Forall_cons in Hd as [Hc' Hd]. destruct Hc' as [Hc0 _]. unfold numeral in Hn. cbn [foldl] in Hn. fold (continue b (0 * b + digit_val c) t) in Hn.
  pose proof (continue_lower b (0 * b + digit_val c) t ltac:(lia) ltac:(lia) Hd) as Hlow. rewrite Hn in Hlow.
  assert (b ^ Z.of_nat (length t) < b ^ Z.of_nat k) as Hlt.
  { assert (0 < b ^ Z.of_nat (length t)) by (apply Z.pow_pos_nonneg; lia). nia. }
  apply Z.pow_lt_mono_r_iff in Hlt; [cbn [length]; lia|lia|lia].
Qed.

(** [strtol] on a number without sign, up to a character that ends it. *)
Lemma strtol_end_spec base v ds c rest :
  numeral_of base v ds → base = 10 ∨ base = 16 → 0 <= v < 2 ^ 63 → ¬ digit_of base c → c ≠ 120 → c ≠ 88 →
  strtol_end (ds ++ c :: rest) base = Some (v, c :: rest).
Proof.
  intros (Hn & Hd & Hne & _) Hb Hv Hc H1 H2. unfold strtol_end.
  assert (literal base ds base ds) as Hlit.
  { destruct Hb as [-> | ->]; [apply literal_plain; lia|]. apply literal_hex_bare. intros t.
    split; intros ->; apply Forall_cons in Hd as [_ Hd]; apply Forall_cons in Hd as [[_ Hd] _]; vm_compute in Hd; discriminate. }
  pose proof (strtol_spec [] [] false base ds base ds (c :: rest)) as H. cbn [app signed] in H. rewrite Hn in H.
  rewrite H; [|constructor|constructor|done|done|done|by exists c, rest|done|unfold LONG_MIN; lia]. cbn [mbind option_bind sr_value sr_end].
  rewrite Nat2Z.id, drop_app_length. do 2 f_equal. unfold clamp, LONG_MIN, LONG_MAX. lia.
Qed.

Lemma octet_dot_spec v ds rest : numeral_of 10 v ds → 0 <= v < 256 → octet_dot (ds ++ 46 :: rest) = Some (Some (v, rest)).
Proof.
  intros Hn Hv. unfold octet_dot. rewrite (strtol_end_spec 10 v ds 46 rest Hn) by (lia || (intros [H _]; by vm_compute in H)). cbn [mbind option_bind].
  rewrite (proj2 (Z.ltb_ge v 0)), (proj2 (Z.ltb_ge 255 v)) by lia. done.
Qed.

Lemma octet_last_spec v ds rest : numeral_of 10 v ds → 0 <= v < 256 → octet_last (ds ++ 0 :: rest) = Some (Some v).
Proof.
  intros Hn Hv. unfold octet_last. rewrite (strtol_end_spec 10 v ds 0 rest Hn) by (lia || (intros [H _]; by vm_compute in H)). cbn [mbind option_bind].
  rewrite (proj2 (Z.ltb_ge v 0)), (proj2 (Z.ltb_ge 255 v)) by lia. done.
Qed.

Definition ipv4_of (a b c d : Z) : Z := a * 2 ^ 24 + b * 2 ^ 16 + c * 2 ^ 8 + d.

Lemma lor_octets a b c d :
  0 <= a < 256 → 0 <= b < 256 → 0 <= c < 256 → 0 <= d < 256 →
  Z.lor (Z.lor (Z.lor (Z.shiftl a 24) (Z.shiftl b 16)) (Z.shiftl c 8)) d = ipv4_of a b c d.
Proof.
  intros Ra Rb Rc Rd. rewrite !Z.shiftl_mul_pow2 by lia. unfold ipv4_of.
  rewrite (lor_mul 24) by lia. replace (a * 2 ^ 24 + b * 2 ^ 16) with ((a * 2 ^ 8 + b) * 2 ^ 16) by lia.
  rewrite (lor_mul 16) by lia. replace ((a * 2 ^ 8 + b) * 2 ^ 16 + c * 2 ^ 8) with ((a * 2 ^ 16 + b * 2 ^ 8 + c) * 2 ^ 8) by lia.
  rewrite (lor_mul 8) by lia. lia.
Qed.

Lemma parse_ipv4_spec a b c d da db dc dd rest :
  numeral_of 10 a da → numeral_of 10 b db → numeral_of 10 c dc → numeral_of 10 d dd →
  0 <= a < 256 → 0 <= b < 256 → 0 <= c < 256 → 0 <= d < 256 →
  parse_ipv4 (da ++ 46 :: db ++ 46 :: dc ++ 46 :: dd ++ 0 :: rest) = Some (Some (ipv4_of a b c d)).
Proof.
  intros Ha Hb Hc Hd Ra Rb Rc Rd. unfold parse_ipv4.
  rewrite (octet_dot_spec a) by done. cbn [mbind option_bind]. rewrite (octet_dot_spec b) by done. cbn [mbind option_bind].
  rewrite (octet_dot_spec c) by done. cbn [mbind option_bind]. rewrite (octet_last_spec d) by done. cbn [mbind option_bind]. do 2 f_equal.
  by apply lor_octets.
Qed.

Lemma octets_spec a b c d : 0 <= a < 256 → 0 <= b < 256 → 0 <= c < 256 → 0 <= d < 256 → octets (ipv4_of a b c d) = [a; b; c; d].
Proof.
  intros Ra Rb Rc Rd. unfold octets, ipv4_of. rewrite !Z.shiftr_div_pow2 by lia.
  assert (∀ x, Z.land x 255 = x mod 256) as El by (intros x; change 255 with (Z.ones 8); by rewrite Z.land_ones). rewrite !El.
  repeat f_equal; Z.to_euclidean_division_equations; lia.
Qed.

(** Network order twice is the number itself. *)
Lemma htonl_spec a b c d : 0 <= a < 256 → 0 <= b < 256 → 0 <= c < 256 → 0 <= d < 256 → htonl (ipv4_of a b c d) = ipv4_of d c b a.
Proof.
  intros Ra Rb Rc Rd. unfold htonl. pose proof (octets_spec a b c d Ra Rb Rc Rd) as E. unfold octets in E. injection E as E1 E2 E3 E4.
  rewrite E1, E2, E3, E4. by apply lor_octets.
Qed.

Lemma ipv4_split x : is_u32 x → ∃ a b c d, x = ipv4_of a b c d ∧ 0 <= a < 256 ∧ 0 <= b < 256 ∧ 0 <= c < 256 ∧ 0 <= d < 256.
Proof.
  intros Hx. exists (x / 2 ^ 24), (x / 2 ^ 16 mod 256), (x / 2 ^ 8 mod 256), (x mod 256). unfold ipv4_of, is_u32 in *. split_and!; Z.to_euclidean_division_equations; lia.
Qed.

Lemma ipv4_text_spec dst size a b c d :
  0 <= a < 256 → 0 <= b < 256 → 0 <= c < 256 → 0 <= d < 256 → 16 <= size <= Z.of_nat (length dst) → size < 2 ^ 63 →
  ∃ da db dc dd rest n, numeral_of 10 a da ∧ numeral_of 10 b db ∧ numeral_of 10 c dc ∧ numeral_of 10 d dd ∧
    snprintf dst size FMT_IPV4 (map Int [a; b; c; d]) = Some (da ++ 46 :: db ++ 46 :: dc ++ 46 :: dd ++ 0 :: rest, n).
Proof.
  intros Ra Rb Rc Rd Hs Hsz.
  set (xs := [Number 0 None 0 Uns a; Plain 46; Number 0 None 0 Uns b; Plain 46; Number 0 None 0 Uns c; Plain 46; Number 0 None 0 Uns d]).
  destruct (format_text_pieces xs (S (length (pieces_format xs)))) as (ts & E & Hts); [repeat constructor; lia|lia|].
  assert (∀ v t, 0 <= v < 256 → piece_shows (Number 0 None 0 Uns v) t → numeral_of 10 v t ∧ (length t <= 3)%nat) as Hshow.
  { intros v t Hv (ds & Hds & ->). assert (kind_value Uns 0 v = v) as E' by (apply u32_small; unfold is_u32; lia). rewrite E' in *. rewrite Z.abs_eq in Hds by lia.
    rewrite decide_False by lia. cbn [app from_option].
    replace (Z.to_nat (-1 - Z.of_nat (length ds))) with 0%nat by lia. cbn [replicate app]. unfold pad. replace (Z.to_nat _) with 0%nat by lia. cbn [replicate app].
    split; [done|]. apply (numeral_of_length 10 v ds 3); [lia|done|cbn; lia|lia]. }
  subst xs. repeat match goal with H : Forall2 _ (_ :: _) _ |- _ => inversion H; clear H; subst end.
  match goal with H : Forall2 _ [] _ |- _ => inversion H; clear H; subst end.
  repeat match goal with H : piece_shows (Plain _) _ |- _ => cbn in H; subst end.
  repeat match goal with H : piece_shows (Number 0 None 0 Uns ?v) _ |- _ => apply (Hshow v) in H as [? ?]; [|done] end.
  cbn [concat] in E. rewrite app_nil_r in E. cbn [app] in E.
  match type of E with _ = Some ?t => pose proof (vsnprintf_spec dst size FMT_IPV4 (map Int [a; b; c; d]) t ltac:(lia) Hsz) as Ev;
    assert (Z.of_nat (length t) <= 15) as Hlen by (repeat (rewrite length_app; cbn [length]); lia) end.
  rewrite take_ge in Ev by lia. unfold snprintf. do 6 eexists. split_and!; [eassumption..|]. rewrite Ev; [|exact E|lia].
  repeat (rewrite <- app_assoc; cbn [app]). reflexivity.
Qed.

(** An IPv4 address printed by [inet_ntop] is read back by [inet_pton]: every
    32-bit address survives the trip. *)
Theorem inet_ipv4_roundtrip dst size s_addr :
  is_u32 s_addr → 16 <= size <= Z.of_nat (length dst) → size < 2 ^ 63 →
  ∃ buf, inet_ntop AF_INET (Some (V4 s_addr)) (Some dst) size = Some (inl buf) ∧
    inet_pton AF_INET (Some buf) true = Some (1, None, Some (V4 s_addr)).
Proof.
  intros Hx Hs Hsz. destruct (ipv4_split s_addr Hx) as (d & c & b & a & -> & Rd & Rc & Rb & Ra).
  destruct (ipv4_text_spec dst size a b c d) as (da & db & dc & dd & rest & n & Ha & Hb & Hc & Hd & E); [done..|].
  exists (da ++ 46 :: db ++ 46 :: dc ++ 46 :: dd ++ 0 :: rest). unfold inet_ntop, ntohl. rewrite htonl_spec, octets_spec by done.
  rewrite (proj2 (Z.eqb_neq size 0)), (proj2 (Z.ltb_ge size INET_ADDRSTRLEN)) by (unfold INET_ADDRSTRLEN; lia).
  cbn [Z.eqb AF_INET Pos.eqb]. rewrite E. cbn [mbind option_bind fst]. split; [done|].
  unfold inet_pton. cbn [negb Z.eqb AF_INET Pos.eqb]. rewrite (parse_ipv4_spec a b c d) by done. cbn [mbind option_bind].
  by rewrite htonl_spec.
Qed.

(** 192.168.0.1 *)
Lemma inet_ipv4_roundtrip_witness :
  ∃ buf, inet_ntop AF_INET (Some (V4 16820416)) (Some (replicate 16 170)) 16 = Some (inl buf) ∧
    inet_pton AF_INET (Some buf) true = Some (1, None, Some (V4 16820416)).
Proof.
  apply (inet_ipv4_roundtrip (replicate 16 170) 16 16820416).
  - unfold is_u32. lia.
  - rewrite length_replicate. lia.
  - lia.
Defined.

(** ** IPv6 *)

(** What [hex16] writes, checked for every 16-bit value. *)
Definition hex16_check (w : Z) : bool :=
  let ds := hex16 w in
  (numeral 16 ds =? w) && forallb (λ c, (0 <=? digit_val c) && (digit_val c <? 16)) ds && (length ds <=? 4)%nat &&
  match ds with [] => false | c :: t => if w =? 0 then (c =? 48) && (length t =? 0)%nat else negb (digit_val c =? 0) end.

Lemma hex16_checked w : is_u16 w → hex16_check w = true.
Proof.
  intros Hw. assert (forallb (λ b, hex16_check (256 * (w / 256) + b)) (seqZ 0 256) = true) as H.
  { apply (below (λ a, forallb (λ b, hex16_check (256 * a + b)) (seqZ 0 256) = true) 256); [vm_compute; reflexivity|].
    unfold is_u16 in Hw. Z.to_euclidean_division_equations; lia. }
  rewrite forallb_forall in H. specialize (H (w mod 256)). rewrite <- list_elem_of_In, elem_of_seqZ in H. rewrite <- Z.div_mod in H by lia. apply H.
  pose proof (Z.mod_pos_bound w 256). lia.
Qed.

Lemma hex16_spec w : is_u16 w → numeral_of 16 w (hex16 w) ∧ (length (hex16 w) <= 4)%nat.
Proof.
  intros Hw. pose proof (hex16_checked w Hw) as H. unfold hex16_check in H. rewrite !andb_true_iff, forallb_forall in H. destruct H as [[[Hn Hd] Hl] Hs].
  apply Z.eqb_eq in Hn. apply Nat.leb_le in Hl. split; [|done]. destruct (hex16 w) as [|c t]; [done|]. split_and!; [done| |done|..].
  - apply Forall_forall. intros x Hx%list_elem_of_In%Hd. unfold digit_of. lia.
  - intros Hp. rewrite (proj2 (Z.eqb_neq w 0)) in Hs by lia. exists c, t. split; [done|lia].
  - intros ->. cbn [Z.eqb] in Hs. destruct t; [|cbn in Hs; lia]. f_equal. lia.
Qed.

Lemma hex16_not_colon w : is_u16 w → Forall (λ c, c ≠ 58 ∧ c ≠ 0) (hex16 w).
Proof.
  intros Hw. destruct (hex16_spec w Hw) as [(_ & Hd & _) _]. eapply Forall_impl; [exact Hd|]. intros c Hc. split; intros ->; by destruct Hc.
Qed.

Lemma hex16_last w : is_u16 w → ∃ c, last (hex16 w) = Some c ∧ c ≠ 58.
Proof.
  intros Hw. destruct (last (hex16 w)) as [c|] eqn:E; [|apply last_None in E; by destruct (hex16_spec w Hw) as [(_ & _ & ? & _) _]].
  exists c. split; [done|]. pose proof (hex16_not_colon w Hw) as Hc. rewrite Forall_forall in Hc.
  apply last_Some in E as [t E]. apply Hc. rewrite E. set_solver.
Qed.

#[local] Arguments hex16 : simpl never.

(** Groups each preceded by a colon, each followed by one, and separated by colons. *)
Definition led (ws : list Z) : list Z := concat (map (λ w, 58 :: hex16 w) ws).
Definition ended (ws : list Z) : list Z := concat (map (λ w, hex16 w ++ [58]) ws).
Definition joined (ws : list Z) : list Z := match ws with [] => [] | w :: ws => hex16 w ++ led ws end.

Lemma ended_app us vs : ended (us ++ vs) = ended us ++ ended vs.
Proof. unfold ended. by rewrite map_app, concat_app. Qed.

Lemma led_ended w ws : hex16 w ++ led ws ++ [58] = ended (w :: ws).
Proof.
  revert w. induction ws as [|x ws IH]; intros w; cbn [led map concat ended app]; [by rewrite app_nil_r|].
  rewrite <- !app_assoc. cbn [app]. do 2 f_equal. pose proof (IH x) as E. unfold led, ended in E. cbn [map concat] in E. rewrite <- app_assoc in E. exact E.
Qed.

Lemma joined_ended ws : ws ≠ [] → joined ws ++ [58] = ended ws.
Proof. destruct ws as [|w ws]; [done|]. intros _. cbn [joined]. rewrite <- app_assoc. apply led_ended. Qed.

Lemma joined_snoc ws w : joined (ws ++ [w]) = ended ws ++ hex16 w.
Proof.
  destruct ws as [|x ws]; cbn [joined app]; [by rewrite app_nil_r|]. unfold led. rewrite map_app, concat_app. cbn [map concat]. rewrite app_nil_r.
  rewrite <- led_ended. unfold led. rewrite <- !app_assoc. done.
Qed.

Lemma led_length ws : Forall is_u16 ws → (length (led ws) <= 5 * length ws)%nat.
Proof.
  induction 1 as [|w ws Hw _ IH]; cbn; [lia|]. destruct (hex16_spec w Hw) as [_ Hl]. rewrite length_app. unfold led in IH. lia.
Qed.

Lemma joined_length ws : Forall is_u16 ws → (length (joined ws) <= 5 * length ws)%nat.
Proof.
  destruct 1 as [|w ws Hw Hws]; cbn [joined]; [cbn; lia|]. destruct (hex16_spec w Hw) as [_ Hl]. pose proof (led_length ws Hws).
  rewrite length_app. cbn [length]. lia.
Qed.

(** *** What the printer writes *)

Lemma ntop_led ws fuel pre post b l p :
  Forall is_u16 ws → (length pre + length ws <= 8)%nat → (0 < length pre)%nat →
  b < Z.of_nat (length pre) ∨ Z.of_nat (length pre + length ws) <= b → (∃ c, last p = Some c ∧ c ≠ 58) →
  ntop_loop (length ws + fuel) (pre ++ ws ++ post) b l (Z.of_nat (length pre)) p =
  ntop_loop fuel (pre ++ ws ++ post) b l (Z.of_nat (length pre + length ws)) (p ++ led ws).
Proof.
  intros Hws. revert pre p. induction Hws as [|w ws Hw Hws IH]; intros pre p Hlen Hpos Hb (c & Hc & Hne).
  { cbn [length Nat.add led map concat]. by rewrite Nat.add_0_r, app_nil_r. }
  cbn [length] in *. cbn [Nat.add ntop_loop]. rewrite (proj2 (Z.ltb_lt _ 8)), (proj2 (Z.eqb_neq b _)) by lia.
  rewrite (proj2 (Z.ltb_lt 0 _)) by lia. rewrite Hc. cbn [mbind option_bind]. rewrite (proj2 (Z.eqb_neq c 58)) by done. cbn [negb andb].
  cbn [app]. rewrite idx_app. cbn [mbind option_bind].
  specialize (IH (pre ++ [w]) ((p ++ [58]) ++ hex16 w)). rewrite length_app in IH. cbn [length] in IH.
  assert ((pre ++ [w]) ++ ws ++ post = pre ++ w :: ws ++ post) as Ea by (by rewrite <- app_assoc). rewrite Ea in IH.
  replace (Z.of_nat (length pre) + 1) with (Z.of_nat (length pre + 1)) by lia. rewrite IH; [|lia..|].
  - replace (length pre + 1 + length ws)%nat with (length pre + S (length ws))%nat by lia. f_equal. cbn. by rewrite <- !app_assoc.
  - destruct (hex16_last w Hw) as (d & Hd & Hd'). exists d. split; [|done]. rewrite last_app, Hd. done.
Qed.

Lemma ntop_joined ws fuel pre post b l p :
  Forall is_u16 ws → (length pre + length ws <= 8)%nat →
  b < Z.of_nat (length pre) ∨ Z.of_nat (length pre + length ws) <= b → (pre = [] ∨ last p = Some 58) →
  ntop_loop (length ws + fuel) (pre ++ ws ++ post) b l (Z.of_nat (length pre)) p =
  ntop_loop fuel (pre ++ ws ++ post) b l (Z.of_nat (length pre + length ws)) (p ++ joined ws).
Proof.
  intros Hws Hlen Hb Hp. destruct Hws as [|w ws Hw Hws]; [cbn [length Nat.add joined]; by rewrite Nat.add_0_r, app_nil_r|].
  cbn [length] in *. cbn [Nat.add ntop_loop]. rewrite (proj2 (Z.ltb_lt _ 8)), (proj2 (Z.eqb_neq b _)) by lia.
  assert ((if 0 <? Z.of_nat (length pre) then last p else Some 58) = Some 58) as ->.
  { destruct Hp as [-> | ->]; [done|by destruct (0 <? _)]. }
  cbn [mbind option_bind Z.eqb Pos.eqb negb app]. rewrite andb_false_r, idx_app. cbn [mbind option_bind].
  pose proof (ntop_led ws fuel (pre ++ [w]) post b l (p ++ hex16 w) Hws) as E. rewrite length_app in E. cbn [length] in E.
  assert ((pre ++ [w]) ++ ws ++ post = pre ++ w :: ws ++ post) as Ea by (by rewrite <- app_assoc). rewrite Ea in E.
  replace (Z.of_nat (length pre) + 1) with (Z.of_nat (length pre + 1)) by lia. rewrite E; [|lia..|].
  - replace (length pre + 1 + length ws)%nat with (length pre + S (length ws))%nat by lia. f_equal. cbn [joined]. by rewrite <- !app_assoc.
  - destruct (hex16_last w Hw) as (d & Hd & Hd'). exists d. split; [|done]. rewrite last_app, Hd. done.
Qed.

(** The run the scan finds: none, or at least two zero words. *)
Definition zero_run (ws : list Z) (b l : Z) : Prop :=
  ∃ before after, ws = before ++ replicate (Z.to_nat l) 0 ++ after ∧ b = Z.of_nat (length before) ∧ 0 <= l.
Definition run_inv (ws : list Z) (r : run) : Prop :=
  (best_len r = 0 ∨ zero_run ws (best_base r) (best_len r)) ∧ 0 <= best_len r ∧
  (cur_base r = -1 ∨ ∃ before, ws = before ++ replicate (Z.to_nat (cur_len r)) 0 ∧ cur_base r = Z.of_nat (length before) ∧ 0 <= cur_len r).

Lemma zero_run_app ws vs b l : zero_run ws b l → zero_run (ws ++ vs) b l.
Proof. intros (x & y & -> & ? & ?). exists x, (y ++ vs). split; [by rewrite <- !app_assoc|done]. Qed.

Lemma run_step_inv ws w r : run_inv ws r → run_inv (ws ++ [w]) (run_step (Z.of_nat (length ws)) w r).
Proof.
  intros (Hb & H0 & Hc). assert (best_len r = 0 ∨ zero_run (ws ++ [w]) (best_base r) (best_len r)) as Hb' by (destruct Hb; [by left|right; by apply zero_run_app]).
  unfold run_step. destruct (Z.eqb_spec w 0) as [-> |Hw].
  - destruct (Z.eqb_spec (cur_base r) (-1)) as [E|E]; split; [done|split; [done|]|done|split; [done|]]; right; cbn [cur_len cur_base].
    + exists ws. split_and!; [done..|lia].
    + destruct Hc as [?|(x & -> & Hx & Hl)]; [done|]. exists x. split_and!; [|done|lia]. rewrite <- app_assoc. f_equal.
      replace (Z.to_nat (cur_len r + 1)) with (Z.to_nat (cur_len r) + 1)%nat by lia. by rewrite replicate_add.
  - destruct (Z.eqb_spec (cur_base r) (-1)) as [E|E]; cbn [negb]; [split; [done|]; split; [done|by left]|].
    destruct Hc as [?|(x & -> & Hx & Hl)]; [done|]. destruct (Z.ltb_spec (best_len r) (cur_len r)); (split; [|split; [cbn; lia|by left]]); [|done].
    right. cbn [best_base best_len]. exists x, [w]. split_and!; [by rewrite <- app_assoc|done..].
Qed.

Lemma run_loop_inv vs ws r : run_inv ws r → run_inv (ws ++ vs) (run_loop vs (Z.of_nat (length ws)) r).
Proof.
  revert ws r. induction vs as [|w vs IH]; intros ws r H; cbn [run_loop]; [by rewrite app_nil_r|].
  specialize (IH (ws ++ [w]) _ (run_step_inv ws w r H)). rewrite length_app, <- app_assoc in IH. cbn [length app] in IH.
  by replace (Z.of_nat (length ws) + 1) with (Z.of_nat (length ws + 1)) by lia.
Qed.

Lemma best_run_spec ws b l : best_run ws = (b, l) → b = -1 ∨ 2 <= l ∧ zero_run ws b l.
Proof.
  pose proof (run_loop_inv ws [] (mk_run (-1) 0 (-1) 0)) as H. cbn [app] in H. change (Z.of_nat (length (@nil Z))) with 0 in H. unfold best_run.
  destruct H as (Hb & H0 & Hc); [split; [by left|split; [done|by left]]|]. set (r := run_loop ws 0 _) in *. clearbody r.
  destruct (Z.eqb_spec (cur_base r) (-1)) as [E|E]; cbn [negb andb]; [|destruct (Z.ltb_spec (best_len r) (cur_len r))].
  - destruct (Z.ltb_spec (best_len r) 2); intros [= <- <-]; [by left|]. right. split; [done|]. destruct Hb; [lia|done].
  - destruct (Z.ltb_spec (cur_len r) 2); intros [= <- <-]; [by left|]. right. split; [done|]. destruct Hc as [?|(x & -> & ? & ?)]; [done|].
    exists x, []. by rewrite app_nil_r.
  - destruct (Z.ltb_spec (best_len r) 2); intros [= <- <-]; [by left|]. right. split; [done|]. destruct Hb; [lia|done].
Qed.

(** The text: all groups, or those before and after the run with "::" between. *)
Lemma ipv6_text_plain ws l : length ws = 8%nat → Forall is_u16 ws → best_run ws = (-1, l) → ipv6_text ws = Some (joined ws).
Proof.
  intros Hlen Hws E. unfold ipv6_text. rewrite E. pose proof (ntop_joined ws 1 [] [] (-1) l [] Hws) as H. rewrite Hlen in H. cbn [app length Nat.add] in H. change (Z.of_nat 0) with 0 in H.
  rewrite app_nil_r in H. rewrite H by (lia || by left). done.
Qed.

Lemma ipv6_text_run ws before after b l :
  ws = before ++ replicate (Z.to_nat l) 0 ++ after → length ws = 8%nat → Forall is_u16 ws → best_run ws = (b, l) → b = Z.of_nat (length before) → 2 <= l →
  ipv6_text ws = Some (joined before ++ 58 :: 58 :: joined after ++ if decide (after = []) then [58] else []).
Proof.
  intros Ews Hlen Hws E Hb Hl. unfold ipv6_text. rewrite E.
  assert (length before + Z.to_nat l + length after = 8)%nat as Hsum by (rewrite Ews in Hlen; rewrite !length_app, length_replicate in Hlen; lia).
  assert (Forall is_u16 before ∧ Forall is_u16 after) as [Hw1 Hw2] by (rewrite Ews in Hws; rewrite !Forall_app in Hws; naive_solver).
  assert (ntop_loop 9 ws b l 0 [] = Some (joined before ++ 58 :: 58 :: joined after)) as ->.
  { replace 9%nat with (length before + (S (length after + (Z.to_nat l))))%nat by lia.
    pose proof (ntop_joined before (S (length after + Z.to_nat l)) [] (replicate (Z.to_nat l) 0 ++ after) b l [] Hw1) as H1.
    cbn [app length Nat.add] in H1. change (Z.of_nat 0) with 0 in H1. rewrite <- Ews in H1. rewrite H1 by (lia || by left). clear H1. cbn [ntop_loop].
    rewrite (proj2 (Z.ltb_lt _ 8)), (proj2 (Z.eqb_eq b _)) by lia.
    pose proof (ntop_joined after (Z.to_nat l) (before ++ replicate (Z.to_nat l) 0) [] b l (joined before ++ [58; 58]) Hw2) as H2.
    rewrite length_app, length_replicate, app_nil_r, <- app_assoc, <- Ews in H2.
    replace (Z.of_nat (length before) + (l - 1) + 1) with (Z.of_nat (length before + Z.to_nat l)) by lia.
    rewrite H2; [|lia|lia|right; by rewrite last_app]. destruct (Z.to_nat l) as [|k] eqn:El; [lia|]. cbn [ntop_loop].
    rewrite (proj2 (Z.ltb_ge _ 8)) by lia. by rewrite <- app_assoc. }
  cbn [mbind option_bind]. rewrite (proj2 (Z.eqb_neq b (-1))) by lia. cbn [negb andb]. f_equal. destruct (decide (after = [])) as [-> |Ha].
  - rewrite (proj2 (Z.eqb_eq _ _)) by (cbn [length] in Hsum; lia). by rewrite <- app_assoc.
  - destruct after as [|w after]; [done|]. rewrite (proj2 (Z.eqb_neq _ _)) by (cbn [length] in Hsum; lia). by rewrite app_nil_r.
Qed.

(** *** What the reader makes of it *)

Definition zeros (n : nat) : list Z := replicate n 0.

(** One group and the character after it. *)
Lemma ipv6_group fuel w c rest done k cur zpos :
  is_u16 w → cur = Z.of_nat (length done) → cur < 8 → c = 58 ∨ c = 0 →
  ipv6_loop (S fuel) (hex16 w ++ c :: rest) (done ++ zeros (S k)) cur zpos =
  ipv6_loop fuel (if c =? 58 then rest else c :: rest) ((done ++ [w]) ++ zeros k) (cur + 1) zpos.
Proof.
  intros Hw Hcur H8 Hc. destruct (hex16_spec w Hw) as [Hn Hl]. pose proof (hex16_not_colon w Hw) as Hx.
  assert (strtol_end (hex16 w ++ c :: rest) 16 = Some (w, c :: rest)) as E.
  { unfold is_u16 in Hw. apply strtol_end_spec; [done|by right|lia| |lia|lia]. destruct Hc as [-> | ->]; intros [H _]; by vm_compute in H. }
  destruct (hex16 w) as [|x t] eqn:Ew; [by destruct Hn as (_ & _ & ? & _)|]. cbn [app] in E |- *. apply Forall_cons in Hx as [[Hx1 Hx2] _].
  cbn [ipv6_loop head mbind option_bind]. rewrite (proj2 (Z.eqb_neq x 0)), (proj2 (Z.leb_gt 8 cur)), (proj2 (Z.eqb_neq x 58)) by lia. cbn [orb].
  rewrite E. cbn [mbind option_bind]. rewrite (proj2 (Z.ltb_ge w 0)), (proj2 (Z.ltb_ge 65535 w)) by (unfold is_u16 in Hw; lia). cbn [orb].
  rewrite Hcur. cbn [zeros replicate]. rewrite upd_app. rewrite u16_small by done. cbn [mbind option_bind head tail].
  rewrite <- app_assoc. destruct Hc as [-> | ->]; done.
Qed.

Lemma ipv6_ended ws fuel rest done k cur zpos :
  Forall is_u16 ws → cur = Z.of_nat (length done) → cur + Z.of_nat (length ws) <= 8 →
  ipv6_loop (length ws + fuel) (ended ws ++ rest) (done ++ zeros (length ws + k)) cur zpos =
  ipv6_loop fuel rest ((done ++ ws) ++ zeros k) (cur + Z.of_nat (length ws)) zpos.
Proof.
  intros Hws. revert done cur. induction Hws as [|w ws Hw Hws IH]; intros done cur Hcur Hle.
  { cbn [length Nat.add ended map concat app]. by rewrite Z.add_0_r, app_nil_r. }
  cbn [length] in *. change (ended (w :: ws)) with ((hex16 w ++ [58]) ++ ended ws). rewrite <- !app_assoc. cbn [Nat.add app].
  rewrite ipv6_group by (done || lia || by left). cbn [Z.eqb Pos.eqb]. rewrite IH by (rewrite ?length_app; cbn [length]; lia).
  rewrite <- !app_assoc. cbn [app]. f_equal. lia.
Qed.

(** The last groups, up to the terminator. *)
Lemma ipv6_joined ws fuel rest done k cur zpos :
  Forall is_u16 ws → cur = Z.of_nat (length done) → cur + Z.of_nat (length ws) <= 8 → (length ws < fuel)%nat →
  ipv6_loop fuel (joined ws ++ 0 :: rest) (done ++ zeros (length ws + k)) cur zpos =
  Some (Some (0 :: rest, (done ++ ws) ++ zeros k, cur + Z.of_nat (length ws), zpos)).
Proof.
  intros Hws Hcur Hle Hf. destruct ws as [|w ws _] using rev_ind.
  { destruct fuel as [|fuel]; [lia|]. cbn. by rewrite Z.add_0_r, app_nil_r. }
  apply Forall_app in Hws as [Hws Hw]. rewrite Forall_singleton in Hw. rewrite length_app in *. cbn [length] in *. rewrite joined_snoc, <- app_assoc.
  destruct fuel as [|fuel]; [lia|]. destruct fuel as [|fuel]; [lia|]. replace (S (S fuel)) with (length ws + S (S (fuel - length ws)))%nat by lia.
  rewrite <- Nat.add_assoc, ipv6_ended by (done || lia). cbn [Nat.add].
  rewrite ipv6_group by (done || (rewrite ?length_app; lia) || by right). cbn [Z.eqb ipv6_loop head mbind option_bind orb].
  rewrite <- !app_assoc. replace (cur + Z.of_nat (length ws) + 1) with (cur + Z.of_nat (length ws + 1)) by lia. done.
Qed.

(** Moving the groups after "::" to the end. *)
Lemma shift_words_spec after us gap rest :
  gap ≠ [] → ∃ gap', length gap' = length gap ∧
  shift_words (length after) (us ++ after ++ gap ++ rest) (Z.of_nat (length us + length after) - 1) (Z.of_nat (length gap)) = Some (us ++ gap' ++ after ++ rest).
Proof.
  revert gap rest. induction after as [|x after IH] using rev_ind; intros gap rest Hg; [by exists gap|].
  destruct gap as [|y gap _] using rev_ind; [done|]. clear Hg. rewrite !length_app. cbn [length]. rewrite (Nat.add_1_r (length after)). cbn [shift_words].
  destruct (IH (x :: gap) (x :: rest) ltac:(done)) as (gap' & Hl & E). exists gap'. split; [cbn [length] in Hl; lia|].
  replace (Z.of_nat (length us + S (length after)) - 1) with (Z.of_nat (length (us ++ after))) by (rewrite length_app; lia).
  replace (us ++ (after ++ [x]) ++ (gap ++ [y]) ++ rest) with ((us ++ after) ++ x :: gap ++ y :: rest) by (by rewrite <- !app_assoc).
  rewrite idx_app. cbn [mbind option_bind].
  replace (Z.of_nat (length (us ++ after)) + Z.of_nat (length gap + 1)) with (Z.of_nat (length ((us ++ after) ++ x :: gap))) by (rewrite (length_app _ (x :: gap)); cbn [length]; lia).
  replace ((us ++ after) ++ x :: gap ++ y :: rest) with (((us ++ after) ++ x :: gap) ++ y :: rest) by (by rewrite <- !app_assoc).
  rewrite upd_app. cbn [mbind option_bind]. cbn [length] in E. rewrite length_app, Nat.add_1_r. rewrite <- !app_assoc in *. exact E.
Qed.

Lemma clear_words_spec gap us rest : clear_words (length gap) (us ++ gap ++ rest) (Z.of_nat (length us)) = Some (us ++ zeros (length gap) ++ rest).
Proof.
  revert us. induction gap as [|y gap IH]; intros us; [done|]. cbn [length clear_words app]. rewrite upd_app. cbn [mbind option_bind].
  specialize (IH (us ++ [0])). rewrite length_app in IH. cbn [length] in IH. replace (Z.of_nat (length us) + 1) with (Z.of_nat (length us + 1)) by lia.
  rewrite <- !app_assoc in IH. exact IH.
Qed.

Lemma expand_run before after l :
  (0 < l)%nat → (length before + length after + l = 8)%nat →
  (words ← shift_words (length after) ((before ++ after) ++ zeros l) (Z.of_nat (length before + length after) - 1) (Z.of_nat l);
   clear_words l words (Z.of_nat (length before))) = Some (before ++ zeros l ++ after).
Proof.
  intros Hl Hs. destruct (shift_words_spec after before (zeros l) []) as (gap & Hg & E); [destruct l; [lia|done]|].
  unfold zeros in Hg, E at 2. rewrite length_replicate in Hg, E. rewrite !app_nil_r in E. rewrite <- app_assoc, E. cbn [mbind option_bind].
  pose proof (clear_words_spec gap before after) as E'. by rewrite Hg in E'.
Qed.

Lemma ipv6_finish_run before after l rest :
  (0 < l)%nat → (length before + length after + l = 8)%nat →
  ipv6_finish (0 :: rest) ((before ++ after) ++ zeros l) (Z.of_nat (length before + length after)) (Z.of_nat (length before)) =
  Some (Some (word_bytes (before ++ zeros l ++ after))).
Proof.
  intros Hl Hs. pose proof (expand_run before after l Hl Hs) as E. unfold ipv6_finish. cbn [mbind option_bind head Z.eqb negb] in *.
  rewrite (proj2 (Z.eqb_neq (Z.of_nat (length before)) (-1))) by lia. cbn [andb negb].
  replace (Z.to_nat (Z.of_nat (length before + length after) - Z.of_nat (length before))) with (length after) by lia.
  replace (8 - Z.of_nat (length before + length after)) with (Z.of_nat l) by lia. rewrite Nat2Z.id, E. done.
Qed.

Lemma joined_head ws rest : Forall is_u16 ws → ws ≠ [] → ∃ c t, joined ws ++ rest = c :: t ∧ c ≠ 58 ∧ c ≠ 0.
Proof.
  intros [|w us Hw _] Hne; [done|]. pose proof (hex16_not_colon w Hw) as Hx. destruct (hex16_spec w Hw) as [(_ & _ & Hh & _) _].
  cbn [joined]. destruct (hex16 w) as [|c t]; [done|]. apply Forall_cons in Hx as [[? ?] _]. by exists c, ((t ++ led us) ++ rest).
Qed.

Lemma joined_long ws : Forall is_u16 ws → (length ws <= length (joined ws))%nat.
Proof.
  intros Hws. destruct Hws as [|w ws Hw Hws]; [cbn; lia|]. destruct (hex16_spec w Hw) as [(_ & _ & Hne & _) _]. cbn [joined length]. rewrite length_app.
  assert (length ws <= length (led ws))%nat by (clear; induction ws as [|u us IH]; cbn; [lia|]; rewrite length_app; unfold led in IH; lia).
  destruct (hex16 w); [done|]. cbn [length]. lia.
Qed.

(** Reading the text back. *)
Lemma parse_ipv6_plain ws rest : length ws = 8%nat → Forall is_u16 ws → parse_ipv6 (joined ws ++ 0 :: rest) = Some (Some (word_bytes ws)).
Proof.
  intros Hlen Hws. unfold parse_ipv6. pose proof (ipv6_joined ws (S (length (joined ws ++ 0 :: rest))) rest [] 0 0 (-1) Hws) as E.
  pose proof (joined_long ws Hws) as Hj. destruct (joined_head ws (0 :: rest) Hws) as (c & t & Et & Hc & _); [by destruct ws|].
  rewrite Hlen in E. cbn [app length Nat.add] in E. rewrite Et at 1. cbn [head mbind option_bind]. rewrite (proj2 (Z.eqb_neq c 58)) by done.
  cbn [mbind option_bind]. change (replicate 8 0) with (zeros 8). rewrite E; [|done|lia|rewrite length_app; cbn; lia].
  cbn [mbind option_bind head app zeros replicate]. rewrite app_nil_r. done.
Qed.

(** The groups before "::": the loop goes on behind the second colon. *)
Lemma parse_ipv6_before before X c rest k fuel :
  Forall is_u16 before → before ≠ [] → (length before < 8)%nat → X = c :: rest → (length before + k = 8)%nat →
  ipv6_loop (length before + S fuel) (joined before ++ 58 :: 58 :: X) (zeros 8) 0 (-1) =
  if c =? 58 then Some None else ipv6_loop fuel X (before ++ zeros k) (Z.of_nat (length before)) (Z.of_nat (length before)).
Proof.
  intros Hb Hne Hlen -> Hk. replace (joined before ++ 58 :: 58 :: c :: rest) with (ended before ++ 58 :: c :: rest)
    by (rewrite <- joined_ended by done; by rewrite <- app_assoc).
  pose proof (ipv6_ended before (S fuel) (58 :: c :: rest) [] k 0 (-1) Hb ltac:(done) ltac:(lia)) as E. rewrite Hk in E. cbn [app] in E. rewrite E.
  cbn [ipv6_loop head tail mbind option_bind Z.eqb orb Pos.eqb]. rewrite (proj2 (Z.leb_gt 8 _)) by lia. cbn [negb].
  destruct (c =? 58); [done|]. f_equal; lia.
Qed.

Lemma parse_ipv6_run before after l rest :
  Forall is_u16 before → Forall is_u16 after → after ≠ [] → (length before + length after + l = 8)%nat → (0 < l)%nat →
  parse_ipv6 (joined before ++ 58 :: 58 :: joined after ++ 0 :: rest) = Some (Some (word_bytes (before ++ zeros l ++ after))).
Proof.
  intros Hb Ha Hne Hs Hl. pose proof (joined_long after Ha) as Ja. pose proof (joined_long before Hb) as Jb.
  destruct (joined_head after (0 :: rest) Ha Hne) as (c & t & Et & Hc & _).
  assert (∀ fuel, (length after < fuel)%nat →
    ipv6_loop fuel (joined after ++ 0 :: rest) (before ++ zeros (length after + l)) (Z.of_nat (length before)) (Z.of_nat (length before)) =
    Some (Some (0 :: rest, (before ++ after) ++ zeros l, Z.of_nat (length before + length after), Z.of_nat (length before)))) as E.
  { intros fuel Hf. rewrite ipv6_joined by (done || lia). do 4 f_equal. lia. }
  unfold parse_ipv6. destruct before as [|w us].
  - cbn [joined app head tail mbind option_bind Z.eqb Pos.eqb negb drop]. rewrite drop_0. cbn [length Nat.add app] in *.
    change (replicate 8 0) with (zeros 8). replace 8%nat with (length after + l)%nat by lia. change 0 with (Z.of_nat 0) at 3 4.
    rewrite E by (rewrite length_app; cbn [length]; lia). cbn [mbind option_bind]. by rewrite (ipv6_finish_run [] after).
  - destruct (joined_head (w :: us) (58 :: 58 :: joined after ++ 0 :: rest) Hb) as (d & t' & Ed & Hd & _); [done|]. rewrite Ed at 1. cbn [head mbind option_bind].
    rewrite (proj2 (Z.eqb_neq d 58)) by done. cbn [mbind option_bind]. change (replicate 8 0) with (zeros 8).
    set (s := joined (w :: us) ++ _). assert (length s = length (joined (w :: us)) + 3 + length (joined after) + length rest)%nat as Hls.
    { subst s. rewrite length_app. cbn [length]. rewrite length_app. cbn [length]. lia. }
    replace (S (length s)) with (length (w :: us) + S (length s - length (w :: us)))%nat by lia. subst s.
    rewrite (parse_ipv6_before (w :: us) _ c t (length after + l) _ Hb) by (done || lia). rewrite (proj2 (Z.eqb_neq c 58)) by done.
    rewrite E by lia. cbn [mbind option_bind]. by rewrite ipv6_finish_run.
Qed.

(** Three colons are refused. *)
Lemma parse_ipv6_trailing before rest : Forall is_u16 before → (length before <= 6)%nat → parse_ipv6 (joined before ++ 58 :: 58 :: 58 :: 0 :: rest) = Some None.
Proof.
  intros Hb Hlen. unfold parse_ipv6. destruct before as [|w us]; [done|].
  destruct (joined_head (w :: us) (58 :: 58 :: 58 :: 0 :: rest) Hb) as (d & t' & Ed & Hd & _); [done|]. rewrite Ed at 1. cbn [head mbind option_bind].
  rewrite (proj2 (Z.eqb_neq d 58)) by done. cbn [mbind option_bind]. pose proof (joined_long (w :: us) Hb).
  set (s := joined (w :: us) ++ _). assert (length (w :: us) <= length s)%nat by (subst s; rewrite length_app; lia).
  replace (S (length s)) with (length (w :: us) + S (length s - length (w :: us)))%nat by lia. subst s.
  by rewrite (parse_ipv6_before (w :: us) _ 58 (0 :: rest) (8 - length (w :: us)) _ Hb) by (done || lia).
Qed.

(** *** Bytes and words *)

Lemma bytes_words_cons a b : is_u8 a → is_u8 b → is_u16 (Z.lor (Z.shiftl a 8) b) ∧ [Z.shiftr (Z.lor (Z.shiftl a 8) b) 8; Z.land (Z.lor (Z.shiftl a 8) b) 255] = [a; b].
Proof.
  unfold is_u8, is_u16. intros Ha Hb. rewrite Z.shiftl_mul_pow2, (lor_low 8) by (lia || (apply Z.mod_mul; lia)).
  rewrite Z.shiftr_div_pow2 by lia. change 255 with (Z.ones 8). rewrite Z.land_ones by lia. split; [lia|]. f_equal; [|f_equal]; Z.to_euclidean_division_equations; lia.
Qed.

Lemma bytes_words_spec n bs : length bs = (2 * n)%nat → Forall is_u8 bs →
  length (bytes_words bs) = n ∧ Forall is_u16 (bytes_words bs) ∧ word_bytes (bytes_words bs) = bs.
Proof.
  revert bs. induction n as [|n IH]; intros bs Hlen Hbs; [destruct bs; [by split_and!|cbn in Hlen; lia]|].
  destruct bs as [|a [|b bs]]; [cbn in Hlen; lia..|]. apply Forall_cons in Hbs as [Ha Hbs]. apply Forall_cons in Hbs as [Hb Hbs].
  destruct (IH bs ltac:(cbn in Hlen; lia) Hbs) as (H1 & H2 & H3). destruct (bytes_words_cons a b Ha Hb) as [Hw E].
  cbn [bytes_words length]. split_and!; [lia|by constructor|]. change (word_bytes (?w :: ?ws)) with ([Z.shiftr w 8; Z.land w 255] ++ word_bytes ws).
  by rewrite E, H3.
Qed.

(** The run written as "::" is at the end. *)
Definition ends_in_run (bs : list Z) : bool := let '(b, l) := best_run (bytes_words bs) in negb (b =? -1) && (b + l =? 8).

Lemma led_nonzero ws : Forall is_u16 ws → nonzero (led ws).
Proof.
  induction 1 as [|w ws Hw _ IH]; cbn [led map concat]; [constructor|]. constructor; [done|]. apply Forall_app. split; [|exact IH].
  eapply Forall_impl; [apply (hex16_not_colon w Hw)|]. naive_solver.
Qed.

Lemma joined_nonzero ws : Forall is_u16 ws → nonzero (joined ws).
Proof.
  destruct 1 as [|w ws Hw Hws]; cbn [joined]; [constructor|]. apply Forall_app. split; [|by apply led_nonzero].
  eapply Forall_impl; [apply (hex16_not_colon w Hw)|]. naive_solver.
Qed.

(** The text is at most 45 characters, so that it fits [buf] with its terminator,
    and what the reader makes of it. *)
Lemma ipv6_text_spec bs : length bs = 16%nat → Forall is_u8 bs →
  ∃ t, ipv6_text (bytes_words bs) = Some t ∧ nonzero t ∧ (length t <= 45)%nat ∧
    ∀ rest, parse_ipv6 (t ++ 0 :: rest) = Some (if ends_in_run bs then None else Some bs).
Proof.
  intros Hlen Hbs. destruct (bytes_words_spec 8 bs Hlen Hbs) as (Hl & Hws & Hrt). unfold ends_in_run. set (ws := bytes_words bs) in *. clearbody ws.
  destruct (best_run ws) as [b l] eqn:Er. destruct (best_run_spec ws b l Er) as [-> |(H2 & before & after & Ews & Eb & _)].
  { exists (joined ws). pose proof (joined_length ws Hws). split_and!; [by eapply ipv6_text_plain|by apply joined_nonzero|lia|].
    intros rest. rewrite parse_ipv6_plain by done. cbn [Z.eqb negb andb Pos.eqb]. by rewrite Hrt. }
  pose proof (ipv6_text_run ws before after b l Ews Hl Hws Er Eb H2) as E.
  assert (Forall is_u16 before ∧ Forall is_u16 after) as [Hw1 Hw2] by (rewrite Ews in Hws; rewrite !Forall_app in Hws; naive_solver).
  assert (length before + length after + Z.to_nat l = 8)%nat as Hsum by (rewrite Ews, !length_app, length_replicate in Hl; lia).
  pose proof (joined_length before Hw1) as L1. pose proof (joined_length after Hw2) as L2.
  pose proof (joined_nonzero before Hw1) as N1. pose proof (joined_nonzero after Hw2) as N2.
  rewrite (proj2 (Z.eqb_neq b (-1))) by lia. cbn [negb andb]. eexists. split; [exact E|]. split_and!.
  - apply Forall_app. split; [done|]. do 2 (constructor; [done|]). apply Forall_app. split; [done|]. destruct (decide (after = [])); repeat constructor; lia.
  - rewrite length_app. cbn [length]. rewrite length_app. destruct (decide (after = [])); cbn [length]; lia.
  - intros rest. destruct (decide (after = [])) as [-> |Hne].
    + rewrite (proj2 (Z.eqb_eq (b + l) 8)) by (cbn [length] in Hsum; lia). rewrite <- app_assoc. cbn [joined app]. apply parse_ipv6_trailing; [done|].
      cbn [length] in Hsum. lia.
    + rewrite (proj2 (Z.eqb_neq (b + l) 8)) by (destruct after; [done|]; cbn [length] in Hsum; lia).
      rewrite app_nil_r, <- app_assoc. cbn [app]. rewrite (parse_ipv6_run before after (Z.to_nat l) rest) by (done || lia). by rewrite <- Hrt, Ews.
Qed.

Lemma string_snprintf dst size t :
  nonzero t → Z.of_nat (length t) < size → size <= Z.of_nat (length dst) → size < 2 ^ 30 →
  ∃ rest n, snprintf dst size FMT_S [Str (Some (t ++ [0]))] = Some (t ++ 0 :: rest, n).
Proof.
  intros Ht Hs Hd Hsz. destruct (format_text_pieces [Text 0 None t] 4) as (ts & E & Hts); [apply Forall_singleton; unfold piece_ok; split_and!; (done || lia)|by apply Nat.ltb_lt|].
  inversion Hts as [|? u ? ? Hu Hts']; subst. inversion Hts'; subst. cbn in Hu. subst u. unfold pad in E. replace (Z.to_nat _) with 0%nat in E by lia.
  cbn [replicate app concat] in E. rewrite app_nil_r in E. unfold snprintf. rewrite (vsnprintf_spec dst size FMT_S [Str (Some (t ++ [0]))] t); [|lia..|exact E|lia].
  rewrite take_ge by lia. by eexists _, _.
Qed.

(** C34: an IPv6 address printed by [inet_ntop] is read back by [inet_pton], unless
    the run of zero words written as "::" ends the address: the printer then writes
    a third colon, and the reader refuses the text. *)
Theorem inet_ipv6_roundtrip dst size bs :
  length bs = 16%nat → Forall is_u8 bs → 46 <= size <= Z.of_nat (length dst) → size < 2 ^ 30 →
  ∃ buf, inet_ntop AF_INET6 (Some (V6 bs)) (Some dst) size = Some (inl buf) ∧
    inet_pton AF_INET6 (Some buf) true = Some (if ends_in_run bs then (0, None, None) else (1, None, Some (V6 bs))).
Proof.
  intros Hlen Hbs Hs Hsz. destruct (ipv6_text_spec bs Hlen Hbs) as (t & Et & Ht & Hl & Hp).
  destruct (string_snprintf dst size t Ht) as (rest & n & E); [lia..|]. exists (t ++ 0 :: rest). unfold inet_ntop.
  rewrite (proj2 (Z.eqb_neq size 0)), (proj2 (Z.ltb_ge size INET6_ADDRSTRLEN)) by (unfold INET6_ADDRSTRLEN; lia).
  cbn [Z.eqb AF_INET AF_INET6 Pos.eqb]. rewrite Et. cbn [mbind option_bind]. rewrite E. cbn [mbind option_bind fst]. split; [done|].
  unfold inet_pton. cbn [negb Z.eqb AF_INET AF_INET6 Pos.eqb]. rewrite Hp. cbn [mbind option_bind]. by destruct (ends_in_run bs).
Qed.

(** 2001:db8::1:0:0:1 *)
Lemma inet_ipv6_roundtrip_witness :
  ∃ buf, inet_ntop AF_INET6 (Some (V6 [32; 1; 13; 184; 0; 0; 0; 0; 0; 1; 0; 0; 0; 0; 0; 1])) (Some (replicate 46 170)) 46 = Some (inl buf) ∧
    inet_pton AF_INET6 (Some buf) true = Some (1, None, Some (V6 [32; 1; 13; 184; 0; 0; 0; 0; 0; 1; 0; 0; 0; 0; 0; 1])).
Proof.
  apply (inet_ipv6_roundtrip (replicate 46 170) 46 [32; 1; 13; 184; 0; 0; 0; 0; 0; 1; 0; 0; 0; 0; 0; 1]).
  - reflexivity.
  - repeat constructor; unfold is_u8; lia.
  - rewrite length_replicate. lia.
  - lia.
Defined.

(** ** Deviations *)

(** An IPv4 address at the end of an IPv6 one is read from the dot behind the
    first octet, which itself is taken for a group of hexadecimal digits:
    "::ffff:192.168.0.1" gives ::ffff:192:a8:1. *)
Lemma embedded_ipv4_misread :
  inet_pton AF_INET6 (Some (map (Z.of_nat ∘ Ascii.nat_of_ascii) (String.list_ascii_of_string "::ffff:192.168.0.1") ++ [0])) true =
  Some (1, None, Some (V6 [0; 0; 0; 0; 0; 0; 0; 0; 255; 255; 1; 146; 0; 168; 0; 1])).
Proof. reflexivity. Qed.

(** Missing octets count as zero: "1..2.3". *)
Lemma missing_octet_accepted : inet_pton AF_INET (Some [49; 46; 46; 50; 46; 51; 0]) true = Some (1, None, Some (V4 (htonl (ipv4_of 1 0 2 3)))).
Proof. reflexivity. Qed.
