(* ===== verification/LibRand.v ===== *)
(** * Random numbers: example_libc/src/rand.c, rand48.c, arc4random.c

    The generators are linear congruences modulo a power of two.  A [double] that
    [drand48] and [erand48] return is the 48-bit state divided by 2^48, which a
    double holds exactly; the model returns the numerator.  The words that
    [arc4random] takes from the system are a list of answers. *)

From S2P Require Import Prelude LibBase.
From Stdlib Require Import Znumtheory.

Local Open Scope Z_scope.

(** ** rand.c *)

(** [rand]: the new [rand_state] and the result. *)
Definition rand (rand_state : Z) : Z * Z :=
  let rand_state := u64 (u64 (rand_state * 1103515245) + 12345) in
  (rand_state, s32 (Z.land (Z.shiftr rand_state 16) 32767)).
Definition srand (seed : Z) : Z := u32 seed.
Definition rand_r (state : Z) : Z * Z :=
  let state := u32 (u32 (state * 1103515245) + 12345) in
  (state, s32 (Z.land (Z.shiftr state 16) 32767)).

(** ** rand48.c *)

Record rand48 := mk_rand48 { rand48_state : Z; rand48_mult : Z; rand48_add : Z }.
Definition rand48_start : rand48 := mk_rand48 0x1234abcd330e 0x5deece66d 0xb.
Definition RAND48_MASK : Z := Z.shiftl 1 48 - 1.

Definition lcg48 (g : rand48) (v : Z) : Z := Z.land (u64 (u64 (v * rand48_mult g) + rand48_add g)) RAND48_MASK.
Definition rand48_step (g : rand48) : rand48 * Z :=
  let v := lcg48 g (rand48_state g) in (mk_rand48 v (rand48_mult g) (rand48_add g), v).

Definition arr_to_u64 (x0 x1 x2 : Z) : Z := Z.lor (Z.lor (Z.shiftl x2 32) (Z.shiftl x1 16)) x0.
Definition u64_to_arr (v : Z) : Z * Z * Z := (u16 (Z.land v 0xffff), u16 (Z.land (Z.shiftr v 16) 0xffff), u16 (Z.land (Z.shiftr v 32) 0xffff)).

Definition drand48 (g : rand48) : rand48 * Z := rand48_step g.
Definition erand48 (g : rand48) (x : Z * Z * Z) : (Z * Z * Z) * Z :=
  let '(x0, x1, x2) := x in let v := lcg48 g (arr_to_u64 x0 x1 x2) in (u64_to_arr v, v).
Definition lrand48 (g : rand48) : rand48 * Z := let '(g, v) := rand48_step g in (g, s64 (Z.shiftr v 17)).
Definition nrand48 (g : rand48) (x : Z * Z * Z) : (Z * Z * Z) * Z :=
  let '(x0, x1, x2) := x in let v := lcg48 g (arr_to_u64 x0 x1 x2) in (u64_to_arr v, s64 (Z.shiftr v 17)).
Definition srand48 (seedval : Z) : rand48 := mk_rand48 (Z.lor (u64 (Z.shiftl (u64 seedval) 16)) 0x330e) 0x5deece66d 0xb.
(** [seed48]: the new generator and the old state. *)
Definition seed48 (g : rand48) (x : Z * Z * Z) : rand48 * (Z * Z * Z) :=
  let '(x0, x1, x2) := x in (mk_rand48 (arr_to_u64 x0 x1 x2) (rand48_mult g) (rand48_add g), u64_to_arr (rand48_state g)).
Definition lcong48 (param : list Z) : option rand48 :=
  match param with
  | x0 :: x1 :: x2 :: a0 :: a1 :: a2 :: c :: _ => Some (mk_rand48 (arr_to_u64 x0 x1 x2) (arr_to_u64 a0 a1 a2) c)
  | _ => None
  end.

(** ** arc4random.c *)

(** The loop of [arc4random_uniform] over the words drawn. *)
Fixpoint uniform_loop (min : Z) (draws : list Z) : option (Z * list Z) :=
  match draws with [] => None | r :: draws => if min <=? r then Some (r, draws) else uniform_loop min draws end.
Definition arc4random_uniform (upper_bound : Z) (draws : list Z) : option (Z * list Z) :=
  if upper_bound <? 2 then Some (0, draws) else
  let min := u32 (- upper_bound) mod upper_bound in
  r ← uniform_loop min draws; Some ((fst r) mod upper_bound, snd r).

(** ** The period of a linear congruence *)

Section congruence.
Variables a c : Z.
Definition lcg (x : Z) : Z := a * x + c.
Definition lcg_mod (m x : Z) : Z := lcg x mod m.

Lemma lcg_mod_iter m n x : 0 < m → 0 <= x < m → Nat.iter n (lcg_mod m) x = Nat.iter n lcg x mod m.
Proof.
  intros Hm Hx. induction n as [|n IH]; cbn [Nat.iter]; [by rewrite Z.mod_small|]. change (lcg_mod m (Nat.iter n (lcg_mod m) x) = lcg (Nat.iter n lcg x) mod m).
  rewrite IH. unfold lcg_mod, lcg. rewrite <- Z.add_mod_idemp_l, Z.mul_mod_idemp_r, Z.add_mod_idemp_l by lia. done.
Qed.

Hypothesis Ha : a mod 4 = 1.
Hypothesis Hc : c mod 2 = 1.

(** 2^k steps are an affine map that adds an odd multiple of 2^k. *)
Lemma lcg_power k : ∃ u v, ∀ x, Nat.iter (2 ^ k) lcg x = x + 2 ^ Z.of_nat k * (2 * (2 * u * x + v) + 1).
Proof.
  induction k as [|k (u & v & IH)].
  - exists (a / 4), (c / 2). intros x. cbn. unfold lcg. pose proof (Z.div_mod a 4 ltac:(lia)) as E1. pose proof (Z.div_mod c 2 ltac:(lia)) as E2.
    rewrite Ha in E1. rewrite Hc in E2. set (p := a / 4) in *. set (q := c / 2) in *. clearbody p q. subst a c.
    change (2 ^ Z.of_nat 0) with 1. ring.
  - exists (u * (1 + 2 * 2 ^ Z.of_nat k * u)), (u * 2 ^ Z.of_nat k * (2 * v + 1) + v). intros x.
    replace (2 ^ S k)%nat with (2 ^ k + 2 ^ k)%nat by (cbn; lia). rewrite Nat.iter_add, !IH. rewrite Nat2Z.inj_succ, Z.pow_succ_r by lia. ring.
Qed.

Lemma lcg_multiple k m x : ∃ q, Nat.iter (2 ^ k * m) lcg x = x + 2 ^ Z.of_nat k * (Z.of_nat m + 2 * q).
Proof.
  induction m as [|m (q & IH)].
  - exists 0. rewrite Nat.mul_0_r. cbn [Nat.iter]. change (Z.of_nat 0) with 0. ring_simplify. done.
  - destruct (lcg_power k) as (u & v & E). replace (2 ^ k * S m)%nat with (2 ^ k + 2 ^ k * m)%nat by lia. rewrite Nat.iter_add, IH, E.
    eexists. instantiate (1 := q + (2 * u * (x + 2 ^ Z.of_nat k * (Z.of_nat m + 2 * q)) + v)). rewrite Nat2Z.inj_succ. ring.
Qed.

Lemma period_divides k n x : (2 ^ Z.of_nat k | Nat.iter n lcg x - x) → (2 ^ Z.of_nat k | Z.of_nat n).
Proof.
  induction k as [|k IH]; intros Hd; [apply Z.divide_1_l|]. rewrite Nat2Z.inj_succ, Z.pow_succ_r in * by lia.
  destruct (IH ltac:(eapply Z.divide_trans; [|exact Hd]; by exists 2)) as [m Hm].
  assert (0 < 2 ^ Z.of_nat k) as Hpos by (apply Z.pow_pos_nonneg; lia). assert (0 <= m) as Hm0 by nia.
  assert (n = 2 ^ k * Z.to_nat m)%nat as ->.
  { apply Nat2Z.inj. rewrite Nat2Z.inj_mul, Nat2Z.inj_pow, Z2Nat.id by lia. change (Z.of_nat 2) with 2. lia. }
  destruct (lcg_multiple k (Z.to_nat m) x) as [q E]. rewrite E in Hd. rewrite Z2Nat.id in Hd by lia.
  replace (x + 2 ^ Z.of_nat k * (m + 2 * q) - x) with (2 ^ Z.of_nat k * (m + 2 * q)) in Hd by ring. rewrite Z.mul_comm in Hd.
  apply Z.mul_divide_cancel_l in Hd; [|lia]. destruct Hd as [t Ht]. exists (t - q). rewrite Hm. replace m with (2 * (t - q)) by lia. ring.
Qed.

Lemma divides_period k n x : (2 ^ Z.of_nat k | Z.of_nat n) → (2 ^ Z.of_nat k | Nat.iter n lcg x - x).
Proof.
  intros [m Hm]. assert (0 < 2 ^ Z.of_nat k) as Hpos by (apply Z.pow_pos_nonneg; lia). assert (0 <= m) as Hm0 by nia.
  assert (n = 2 ^ k * Z.to_nat m)%nat as ->.
  { apply Nat2Z.inj. rewrite Nat2Z.inj_mul, Nat2Z.inj_pow, Z2Nat.id by lia. change (Z.of_nat 2) with 2. lia. }
  destruct (lcg_multiple k (Z.to_nat m) x) as [q E]. rewrite E. eexists. instantiate (1 := Z.of_nat (Z.to_nat m) + 2 * q). ring.
Qed.

(** The state repeats exactly at the multiples of the modulus. *)
Lemma lcg_period k n x : 0 <= x < 2 ^ Z.of_nat k → Nat.iter n (lcg_mod (2 ^ Z.of_nat k)) x = x ↔ (2 ^ Z.of_nat k | Z.of_nat n).
Proof.
  intros Hx. assert (0 < 2 ^ Z.of_nat k) as Hpos by (apply Z.pow_pos_nonneg; lia). rewrite lcg_mod_iter by done. split.
  - intros E. apply (period_divides k n x). apply Z.mod_divide; [lia|]. rewrite Zminus_mod, E, (Z.mod_small x) by done. by rewrite Z.sub_diag.
  - intros [q Hq]%(divides_period k n x). replace (Nat.iter n lcg x) with (x + q * 2 ^ Z.of_nat k) by lia.
    rewrite Z.mod_add by lia. by apply Z.mod_small.
Qed.
End congruence.

(** ** The generators *)

Lemma lcg48_spec g v : lcg48 g v = (rand48_mult g * v + rand48_add g) mod 2 ^ 48.
Proof.
  unfold lcg48, RAND48_MASK. change (Z.shiftl 1 48 - 1) with (Z.ones 48). rewrite Z.land_ones by lia. unfold u64.
  rewrite Zplus_mod_idemp_l, <- Znumtheory.Zmod_div_mod by (lia || by exists (2 ^ 16)). f_equal. ring.
Qed.

(** The states of a generator after [n] steps. *)
Definition rand48_after (n : nat) (g : rand48) : rand48 := Nat.iter n (λ g, fst (rand48_step g)) g.

Lemma rand48_after_spec n g : rand48_mult (rand48_after n g) = rand48_mult g ∧ rand48_add (rand48_after n g) = rand48_add g ∧
  rand48_state (rand48_after n g) = Nat.iter n (lcg_mod (rand48_mult g) (rand48_add g) (2 ^ 48)) (rand48_state g).
Proof.
  induction n as [|n (H1 & H2 & H3)]; [done|]. change (rand48_after (S n) g) with (fst (rand48_step (rand48_after n g))).
  rewrite Nat.iter_succ, <- H3. cbn [rand48_step fst rand48_state rand48_mult rand48_add]. split_and!; [done..|].
  rewrite lcg48_spec, H1, H2. done.
Qed.

(** The 48-bit generator runs through all states: with a multiplier that is 1
    modulo 4 and an odd increment, as those of [srand48], the state returns after
    [n] steps exactly when 2^48 divides [n]; and every value of [lrand48] is a
    31-bit number. *)
Theorem rand48_full_period g n :
  rand48_mult g mod 4 = 1 → rand48_add g mod 2 = 1 → 0 <= rand48_state g < 2 ^ 48 →
  (rand48_state (rand48_after n g) = rand48_state g ↔ (2 ^ 48 | Z.of_nat n)) ∧ 0 <= snd (lrand48 (rand48_after n g)) < 2 ^ 31.
Proof.
  intros Ha Hc Hx. destruct (rand48_after_spec n g) as (_ & _ & ->). split; [exact (lcg_period _ _ Ha Hc 48 n (rand48_state g) Hx)|].
  unfold lrand48, rand48_step. cbn [snd]. rewrite lcg48_spec, Z.shiftr_div_pow2 by lia.
  set (v := _ mod 2 ^ 48). pose proof (Z.mod_pos_bound (rand48_mult (rand48_after n g) * rand48_state (rand48_after n g) + rand48_add (rand48_after n g)) (2 ^ 48) ltac:(lia)) as Hv.
  fold v in Hv. clearbody v. rewrite s64_small; [|unfold is_s64]; Z.to_euclidean_division_equations; lia.
Qed.

(** The generator as it starts, over one step. *)
Lemma rand48_full_period_witness :
  (rand48_state (rand48_after 1 rand48_start) = rand48_state rand48_start ↔ (2 ^ 48 | Z.of_nat 1)) ∧ 0 <= snd (lrand48 (rand48_after 1 rand48_start)) < 2 ^ 31.
Proof. apply (rand48_full_period rand48_start 1); [reflexivity|reflexivity|cbn; lia]. Defined.

(** The same holds for [rand] with its 64-bit state and [rand_r] with 32 bits. *)
Lemma rand_period n x : is_u64 x → Nat.iter n (λ s, fst (rand s)) x = x ↔ (2 ^ 64 | Z.of_nat n).
Proof.
  intros Hx. assert (∀ m y, Nat.iter m (λ s, fst (rand s)) y = Nat.iter m (lcg_mod 1103515245 12345 (2 ^ 64)) y) as E.
  { intros m y. induction m as [|m IH]; [done|]. rewrite !Nat.iter_succ, <- IH. unfold rand, lcg_mod, lcg, u64. cbn [fst].
    rewrite Zplus_mod_idemp_l. f_equal. ring. }
  rewrite E. exact (lcg_period 1103515245 12345 eq_refl eq_refl 64 n x Hx).
Qed.

Lemma rand_r_period n x : is_u32 x → Nat.iter n (λ s, fst (rand_r s)) x = x ↔ (2 ^ 32 | Z.of_nat n).
Proof.
  intros Hx. assert (∀ m y, Nat.iter m (λ s, fst (rand_r s)) y = Nat.iter m (lcg_mod 1103515245 12345 (2 ^ 32)) y) as E.
  { intros m y. induction m as [|m IH]; [done|]. rewrite !Nat.iter_succ, <- IH. unfold rand_r, lcg_mod, lcg, u32. cbn [fst].
    rewrite Zplus_mod_idemp_l. f_equal. ring. }
  rewrite E. exact (lcg_period 1103515245 12345 eq_refl eq_refl 32 n x Hx).
Qed.

(** The words of an array survive packing. *)
Lemma arr_roundtrip x0 x1 x2 : is_u16 x0 → is_u16 x1 → is_u16 x2 → u64_to_arr (arr_to_u64 x0 x1 x2) = (x0, x1, x2).
Proof.
  unfold is_u16. intros H0 H1 H2. unfold u64_to_arr, arr_to_u64. rewrite !Z.shiftl_mul_pow2 by lia.
  rewrite (lor_mul 32) by lia.
  replace (x2 * 2 ^ 32 + x1 * 2 ^ 16) with ((x2 * 2 ^ 16 + x1) * 2 ^ 16) by lia.
  rewrite (lor_mul 16) by lia. change 0xffff with (Z.ones 16). rewrite !Z.land_ones, !Z.shiftr_div_pow2 by lia.
  unfold u16. repeat f_equal; Z.to_euclidean_division_equations; lia.
Qed.

(** ** Unbiased bounded numbers *)

(** The draws that give [v]. *)
Definition draws_for (u v r : Z) : Prop := is_u32 r ∧ ∃ rest, arc4random_uniform u [r] = Some (v, rest).

Lemma uniform_accepts u r : 2 <= u < 2 ^ 32 → is_u32 r →
  arc4random_uniform u [r] = if (2 ^ 32 mod u) <=? r then Some (r mod u, []) else None.
Proof.
  intros Hu Hr. unfold arc4random_uniform. rewrite (proj2 (Z.ltb_ge u 2)) by lia. cbn [uniform_loop].
  assert (u32 (- u) mod u = 2 ^ 32 mod u) as ->.
  { unfold u32. replace (- u mod 2 ^ 32) with (2 ^ 32 + (-1) * u) by (rewrite <- (Z.mod_add (- u) 1), Z.mod_small by lia; lia).
    apply Z.mod_add. lia. }
  by destruct (_ <=? r).
Qed.

(** [arc4random_uniform] is unbiased: every result below the bound comes from
    the same number of 32-bit draws, 2^32 / u of them, one every [u] from the first;
    and the other draws are rejected. *)
Theorem arc4random_uniform_unbiased u v :
  2 <= u < 2 ^ 32 → 0 <= v < u →
  ∃ first, ∀ r, draws_for u v r ↔ ∃ k, 0 <= k < 2 ^ 32 / u ∧ r = first + k * u.
Proof.
  intros Hu Hv. pose proof (Z.mod_pos_bound (2 ^ 32) u ltac:(lia)) as Hm. pose proof (Z.div_mod (2 ^ 32) u ltac:(lia)) as Hdm.
  set (m := 2 ^ 32 mod u) in *. set (q := 2 ^ 32 / u) in *. exists (if v <? m then v + u else v). intros r. split.
  - intros [Hr (rest & E)]. rewrite uniform_accepts in E by done. fold m in E. destruct (Z.leb_spec m r) as [Hle|]; [|done].
    injection E as E1 E2. pose proof (Z.div_mod r u ltac:(lia)) as Hdr. rewrite E1 in Hdr. unfold is_u32 in Hr. assert (0 <= r / u) by (apply Z.div_pos; lia).
    destruct (Z.ltb_spec v m); [exists (r / u - 1)|exists (r / u)]; nia.
  - intros (k & Hk & ->). assert (is_u32 ((if v <? m then v + u else v) + k * u)) as Hr by (unfold is_u32; destruct (Z.ltb_spec v m); nia).
    split; [done|]. exists []. rewrite uniform_accepts by done. fold m. rewrite (proj2 (Z.leb_le m _)) by (destruct (Z.ltb_spec v m); nia).
    f_equal. f_equal. destruct (v <? m).
    + replace (v + u + k * u) with (v + (k + 1) * u) by ring. rewrite Z.mod_add by lia. by apply Z.mod_small.
    + rewrite Z.mod_add by lia. by apply Z.mod_small.
Qed.

(** A die. *)
Lemma arc4random_uniform_unbiased_witness : ∃ first, ∀ r, draws_for 6 4 r ↔ ∃ k, 0 <= k < 2 ^ 32 / 6 ∧ r = first + k * 6.
Proof. apply (arc4random_uniform_unbiased 6 4); lia. Defined.
