(* ===== verification/LibSync.v ===== *)
(** * Locks of example_libc: pthread_spin.c, semaphore.c, pthread_rwlock.c

    Threads run concurrently: a thread is the place it has reached in the code, an
    atomic operation is one step, and a run is any interleaving of the steps of the
    threads.  The operations of the C code name the memory orders acquire and
    release; the interleavings are those of a machine that keeps them in one order. *)

From S2P Require Import Prelude LibBase.
From stdpp Require Import relations.

Local Open Scope Z_scope.


(** ** Interleavings *)

Section interleaving.
Context {Sh Pc : Type}.
(** The steps of thread [i]: the shared state and the place afterwards. *)
Variable next : nat → Sh → Pc → list (Sh * Pc).

Inductive tstep : Sh * list Pc → Sh * list Pc → Prop :=
  | tstep_intro i sh sh' ts p p' : ts !! i = Some p → (sh', p') ∈ next i sh p → tstep (sh, ts) (sh', <[i:=p']> ts).
Definition reach : Sh * list Pc → Sh * list Pc → Prop := rtc tstep.

(** A schedule: which thread moves and which of its steps it takes. *)
Fixpoint run_schedule (sched : list (nat * nat)) (s : Sh * list Pc) : option (Sh * list Pc) :=
  match sched with
  | [] => Some s
  | (i, k) :: sched =>
      p ← snd s !! i; q ← next i (fst s) p !! k; run_schedule sched (fst q, <[i:=snd q]> (snd s))
  end.

Lemma run_reach sched s s' : run_schedule sched s = Some s' → reach s s'.
Proof.
  revert s. induction sched as [|[i k] sched IH]; intros [sh ts] H; cbn [run_schedule fst snd] in H; [injection H as <-; apply rtc_refl|].
  destruct (ts !! i) as [p|] eqn:E; [|done]. cbn [mbind option_bind] in H. destruct (next i sh p !! k) as [[sh' p']|] eqn:E'; [|done].
  eapply rtc_l; [|by apply IH]. econstructor; [done|]. by eapply list_elem_of_lookup_2.
Qed.

Lemma reach_inv (I : Sh * list Pc → Prop) s :
  I s → (∀ i sh ts p sh' p', I (sh, ts) → ts !! i = Some p → (sh', p') ∈ next i sh p → I (sh', <[i:=p']> ts)) → ∀ s', reach s s' → I s'.
Proof. intros H0 Hs s' H. induction H as [|x y z Hxy _ IH]; [done|]. apply IH. destruct Hxy. by eapply Hs. Qed.

(** Runs along which a condition holds, of every state but the last. *)
Definition reach_while (ok : Sh → Prop) : Sh * list Pc → Sh * list Pc → Prop := rtc (λ s s', ok (fst s) ∧ tstep s s').

Lemma reach_while_inv (ok : Sh → Prop) (I : Sh * list Pc → Prop) s :
  I s → (∀ i sh ts p sh' p', ok sh → I (sh, ts) → ts !! i = Some p → (sh', p') ∈ next i sh p → I (sh', <[i:=p']> ts)) → ∀ s', reach_while ok s s' → I s'.
Proof. intros H0 Hs s' H. induction H as [|x y z [Hok Hxy] _ IH]; [done|]. apply IH. destruct Hxy. by eapply Hs. Qed.

Fixpoint run_schedule_while (ok : Sh → bool) (sched : list (nat * nat)) (s : Sh * list Pc) : option (Sh * list Pc) :=
  match sched with
  | [] => Some s
  | (i, k) :: sched =>
      if ok (fst s) then p ← snd s !! i; q ← next i (fst s) p !! k; run_schedule_while ok sched (fst q, <[i:=snd q]> (snd s)) else None
  end.

Lemma run_reach_while (ok : Sh → bool) (okP : Sh → Prop) sched s s' : (∀ sh, ok sh = true → okP sh) →
  run_schedule_while ok sched s = Some s' → reach_while okP s s'.
Proof.
  intros Hok. revert s. induction sched as [|[i k] sched IH]; intros [sh ts] H; cbn [run_schedule_while fst snd] in H; [injection H as <-; apply rtc_refl|].
  destruct (ok sh) eqn:Eo; [|done]. destruct (ts !! i) as [p|] eqn:E; [|done]. cbn [mbind option_bind] in H. destruct (next i sh p !! k) as [[sh' p']|] eqn:E'; [|done].
  eapply rtc_l; [|by apply IH]. split; [by apply Hok|]. econstructor; [done|]. by eapply list_elem_of_lookup_2.
Qed.

(** Sums over the threads. *)
Definition total (f : Pc → Z) (ts : list Pc) : Z := foldr (λ p a, f p + a) 0 ts.

Lemma total_insert f ts i p q : ts !! i = Some p → total f (<[i:=q]> ts) = total f ts - f p + f q.
Proof.
  revert i. induction ts as [|r ts IH]; intros i H; [done|]. destruct i as [|i]; cbn in H; [injection H as ->; cbn; lia|].
  change (f r + total f (<[i:=q]> ts) = f r + total f ts - f p + f q). rewrite (IH i H). lia.
Qed.

Lemma total_nonneg f ts : (∀ p, 0 <= f p) → 0 <= total f ts.
Proof. intros Hf. induction ts as [|r ts IH]; cbn; [lia|]. specialize (Hf r). unfold total in IH. lia. Qed.

Lemma total_one f ts i p : (∀ p, 0 <= f p) → ts !! i = Some p → f p <= total f ts.
Proof.
  intros Hf. revert i. induction ts as [|r ts IH]; intros i H; [done|]. pose proof (total_nonneg f ts Hf) as Hn. unfold total in *. cbn.
  destruct i as [|i]; cbn in H; [injection H as ->; lia|]. specialize (IH i H). specialize (Hf r). lia.
Qed.

Lemma total_two f ts i j p q : (∀ p, 0 <= f p) → i ≠ j → ts !! i = Some p → ts !! j = Some q → f p + f q <= total f ts.
Proof.
  intros Hf. revert i j. induction ts as [|r ts IH]; intros i j Hij Hi Hj; [done|]. unfold total in *. cbn.
  destruct i as [|i], j as [|j]; cbn in Hi, Hj; [done|..].
  - injection Hi as ->. pose proof (total_one f ts j q Hf Hj). unfold total in *. lia.
  - injection Hj as ->. pose proof (total_one f ts i p Hf Hi). unfold total in *. lia.
  - specialize (IH i j ltac:(congruence) Hi Hj). specialize (Hf r). lia.
Qed.

Lemma total_replicate f n p : total f (replicate n p) = Z.of_nat n * f p.
Proof. induction n as [|n IH]; cbn; [lia|]. unfold total in IH. rewrite IH. lia. Qed.
End interleaving.

(** The step taken is one of a list: one goal for each. *)
Ltac each_step H :=
  match type of H with
  | _ ∈ [] => by apply not_elem_of_nil in H
  | (_, _) ∈ _ :: _ => apply elem_of_cons in H as [H|H]; [injection H as -> ->|each_step H]
  | _ ∈ (if ?b then _ else _) => let E := fresh "Eb" in destruct b eqn:E; each_step H
  end.

(** ** Spin locks *)

(** [atomic_flag_test_and_set]: the old value and the new one. *)
Definition test_and_set (locked : bool) : bool * bool := (locked, true).

(** The functions on a pointer to the lock: the result and the lock afterwards. *)
Definition pthread_spin_init (lock : option bool) : Z * option bool :=
  match lock with None => (22, None) | Some _ => (0, Some false) end.
Definition pthread_spin_trylock (lock : option bool) : Z * option bool :=
  match lock with
  | None => (22, None)
  | Some locked => let '(old, locked) := test_and_set locked in (if old then EBUSY else 0, Some locked)
  end.
Definition pthread_spin_unlock (lock : option bool) : Z * option bool :=
  match lock with None => (22, None) | Some _ => (0, Some false) end.
(** One round of the loop of [pthread_spin_lock]: no result while the lock is taken. *)
Definition pthread_spin_lock (lock : option bool) : option Z * option bool :=
  match lock with
  | None => (Some 22, None)
  | Some locked => let '(old, locked) := test_and_set locked in (if old then None else Some 0, Some locked)
  end.
Definition pthread_spin_destroy (lock : option bool) : Z := 0.

(** A thread that calls the functions: it unlocks what it has locked. *)
Inductive spin_pc := SpinIdle | SpinLock | SpinTry | SpinHold | SpinUnlock.
Definition spin_next (i : nat) (locked : bool) (p : spin_pc) : list (bool * spin_pc) :=
  match p with
  | SpinIdle => [(locked, SpinLock); (locked, SpinTry)]
  | SpinLock =>
      match pthread_spin_lock (Some locked) with
      | (Some _, Some locked) => [(locked, SpinHold)]
      | (None, Some locked) => [(locked, SpinLock)]
      | _ => []
      end
  | SpinTry =>
      match pthread_spin_trylock (Some locked) with
      | (0, Some locked) => [(locked, SpinHold)]
      | (_, Some locked) => [(locked, SpinIdle)]
      | _ => []
      end
  | SpinHold => [(locked, SpinUnlock)]
  | SpinUnlock => match pthread_spin_unlock (Some locked) with (_, Some locked) => [(locked, SpinIdle)] | _ => [] end
  end.

Definition spin_holds (p : spin_pc) : Z := match p with SpinHold | SpinUnlock => 1 | _ => 0 end.
Definition spin_inv (s : bool * list spin_pc) : Prop := total spin_holds (snd s) = if fst s then 1 else 0.

Lemma spin_holds_nonneg p : 0 <= spin_holds p. Proof. destruct p; cbn; lia. Qed.

Lemma spin_step_inv i locked ts p locked' p' :
  spin_inv (locked, ts) → ts !! i = Some p → (locked', p') ∈ spin_next i locked p → spin_inv (locked', <[i:=p']> ts).
Proof.
  unfold spin_inv. cbn [fst snd]. intros HI Hp H. rewrite (total_insert _ _ _ p) by done.
  pose proof (total_one spin_holds ts i p spin_holds_nonneg Hp) as Hle.
  destruct p, locked; cbn in H; each_step H; cbn in *; lia.
Qed.

(** A spin lock excludes: whatever the number of threads and the order of their
    steps, at most one thread is between a successful lock or trylock and the end of
    its unlock, and the flag tells whether there is one. *)
Theorem spin_lock_exclusion n s :
  reach spin_next (false, replicate n SpinIdle) s →
  ∀ i j p q, snd s !! i = Some p → snd s !! j = Some q → spin_holds p = 1 → (fst s = true) ∧ (spin_holds q = 1 → i = j).
Proof.
  intros H i j p q Hi Hj Hp.
  assert (spin_inv s) as HI.
  { eapply reach_inv; [|exact spin_step_inv|exact H]. unfold spin_inv. cbn [fst snd]. rewrite total_replicate. cbn. lia. }
  unfold spin_inv in HI. pose proof (total_one spin_holds (snd s) i p spin_holds_nonneg Hi) as H1. split; [destruct (fst s); [done|lia]|].
  intros Hq. destruct (decide (i = j)) as [|Hij]; [done|]. pose proof (total_two spin_holds (snd s) i j p q spin_holds_nonneg Hij Hi Hj). destruct (fst s); lia.
Qed.

Lemma spin_lock_exclusion_witness :
  reach spin_next (false, replicate 2 SpinIdle) (true, [SpinHold; SpinLock]) ∧
  (true = true) ∧ (spin_holds SpinHold = 1 → 0%nat = 0%nat).
Proof.
  assert (reach spin_next (false, replicate 2 SpinIdle) (true, [SpinHold; SpinLock])) as H.
  { apply (run_reach _ [(0, 0); (1, 0); (0, 0); (1, 0)]%nat). reflexivity. }
  split; [exact H|]. apply (spin_lock_exclusion 2 _ H 0%nat 0%nat SpinHold SpinHold); reflexivity.
Defined.

(** ** Semaphores *)

Definition INT_MAX : Z := 2 ^ 31 - 1.

Definition sem_init (sem : option Z) (pshared value : Z) : Z * option Z :=
  match sem with None => (22, None) | Some _ => (0, Some (s32 value)) end.
Definition sem_destroy (sem : option Z) : Z := 0.
Definition sem_post (sem : option Z) : Z * option Z :=
  match sem with None => (22, None) | Some count => (0, Some (s32 (count + 1))) end.

(** The places of [sem_wait], [sem_trywait] and [sem_post], the value last loaded
    with them; how many calls of a thread took a unit or gave one, and what its last
    call returned. *)
Inductive sem_pc := SemIdle | WaitLoad | WaitCas (val : Z) | TryLoad | TryCas (val : Z) | PostAdd.
Record sem_thread := mk_sem_thread { sem_at : sem_pc; got : Z; posted : Z; returned : Z }.

(** [atomic_compare_exchange_weak]: it can fail although the values agree. *)
Definition sem_next (i : nat) (count : Z) (t : sem_thread) : list (Z * sem_thread) :=
  let at_ p := mk_sem_thread p (got t) (posted t) (returned t) in
  match sem_at t with
  | SemIdle => [(count, at_ WaitLoad); (count, at_ TryLoad); (count, at_ PostAdd)]
  | WaitLoad => [(count, at_ (WaitCas count))]
  | WaitCas val =>
      if 0 <? val then
        if count =? val then [(val - 1, mk_sem_thread SemIdle (got t + 1) (posted t) 0); (count, at_ WaitLoad)]
        else [(count, at_ WaitLoad)]
      else [(count, at_ WaitLoad)]
  | TryLoad => [(count, at_ (TryCas count))]
  | TryCas val =>
      if 0 <? val then
        if count =? val then [(val - 1, mk_sem_thread SemIdle (got t + 1) (posted t) 0); (count, at_ (TryCas count))]
        else [(count, at_ (TryCas count))]
      else [(count, mk_sem_thread SemIdle (got t) (posted t) EAGAIN)]
  | PostAdd =>
      match sem_post (Some count) with
      | (r, Some count) => [(count, mk_sem_thread SemIdle (got t) (posted t + 1) r)]
      | _ => []
      end
  end.

(** The count is what was there at the start, and what was given, less what was
    taken; as long as the gifts fit an [int]. *)
Definition sem_inv (value : Z) (s : Z * list sem_thread) : Prop :=
  value + total posted (snd s) <= INT_MAX → fst s = value + total posted (snd s) - total got (snd s) ∧ 0 <= fst s ∧ 0 <= total got (snd s).

Lemma sem_step_inv value i count ts t count' t' : 0 <= value →
  sem_inv value (count, ts) → ts !! i = Some t → (count', t') ∈ sem_next i count t → sem_inv value (count', <[i:=t']> ts).
Proof.
  unfold sem_inv. cbn [fst snd]. intros Hv HI Ht H. rewrite !(total_insert _ _ _ t) by done.
  destruct t as [p g d e]. unfold sem_next in H. cbn [sem_at got posted returned] in H.
  destruct p; cbn [sem_post] in H; each_step H; cbn [got posted] in *; try (unfold INT_MAX in *; intros HB; specialize (HI ltac:(lia)); lia).
  unfold INT_MAX in *. intros HB. specialize (HI ltac:(lia)). rewrite s32_small by (unfold is_s32; lia). lia.
Qed.

Definition sem_start (value : Z) (n : nat) : Z * list sem_thread := (value, replicate n (mk_sem_thread SemIdle 0 0 0)).

(** A semaphore hands out no more than it has: in every interleaving the units
    taken by [sem_wait] and [sem_trywait] are at most the starting value and the
    units posted, and the count is the difference, while the units fit an [int]. *)
Theorem semaphore_counts value n s :
  0 <= value → reach sem_next (sem_start value n) s → value + total posted (snd s) <= INT_MAX →
  fst s = value + total posted (snd s) - total got (snd s) ∧ 0 <= fst s.
Proof.
  intros Hv H HB. assert (sem_inv value s) as HI.
  { eapply reach_inv; [|intros; by eapply sem_step_inv|exact H]. unfold sem_inv, sem_start. cbn [fst snd]. rewrite !total_replicate. cbn [got posted]. lia. }
  destruct (HI HB) as (H1 & H2 & _). done.
Qed.

(** Two threads race for one unit. *)
Lemma semaphore_counts_witness :
  fst (0, [mk_sem_thread SemIdle 1 0 0; mk_sem_thread WaitLoad 0 0 0]) = 0 ∧
  reach sem_next (sem_start 1 2) (0, [mk_sem_thread SemIdle 1 0 0; mk_sem_thread WaitLoad 0 0 0]) ∧
  (0 = 1 + 0 - 1 ∧ 0 <= 0).
Proof.
  assert (reach sem_next (sem_start 1 2) (0, [mk_sem_thread SemIdle 1 0 0; mk_sem_thread WaitLoad 0 0 0])) as H.
  { apply (run_reach _ [(0, 0); (1, 0); (0, 0); (1, 0); (0, 0); (1, 0)]%nat). reflexivity. }
  split; [reflexivity|]. split; [exact H|].
  apply (semaphore_counts 1 2 (0, [mk_sem_thread SemIdle 1 0 0; mk_sem_thread WaitLoad 0 0 0])); [lia|exact H|cbn; unfold INT_MAX; lia].
Defined.

(** A waiting thread that runs while the count is positive takes a unit. *)
Lemma sem_wait_progress i count ts g d e : 0 < count → ts !! i = Some (mk_sem_thread WaitLoad g d e) →
  ∃ ts', reach sem_next (count, ts) (count - 1, ts') ∧ ts' !! i = Some (mk_sem_thread SemIdle (g + 1) d 0).
Proof.
  intros Hc Hi. exists (<[i:=mk_sem_thread SemIdle (g + 1) d 0]> ts). split; [|by rewrite list_lookup_insert_eq by (by eapply lookup_lt_Some)].
  apply (run_reach _ [(i, 0%nat); (i, 0%nat)]). cbn [run_schedule fst snd]. rewrite Hi. cbn [mbind option_bind sem_next sem_at lookup list_lookup fst snd got posted returned].
  rewrite list_lookup_insert_eq by (by eapply lookup_lt_Some). cbn [mbind option_bind sem_next sem_at got posted returned].
  rewrite (proj2 (Z.ltb_lt 0 count)), Z.eqb_refl by done. cbn. by rewrite list_insert_insert_eq.
Qed.

(** ** Reader-writer locks *)

Record rwlock := mk_rwlock { readers : Z; writer : Z }.
Definition pthread_rwlock_init (l : rwlock) : rwlock := mk_rwlock 0 0.
Definition pthread_rwlock_destroy (l : rwlock) : Z := 0.

(** Which lock a thread holds when it unlocks; the code does not know. *)
Inductive role := Reader | Writer.

(** The places of [pthread_rwlock_rdlock] (the wait for the writer, the increment,
    the second look, the decrement), of [pthread_rwlock_wrlock] (the exchange, the
    wait for the readers) and of [pthread_rwlock_unlock] (the load, the store, the
    decrement). *)
Inductive rw_pc :=
  | RwIdle
  | RdSpin | RdAdd | RdCheck | RdSub | Reading
  | WrSpin | WrWait | Writing
  | UnLoad (r : role) | UnStore (r : role) | UnSub (r : role).
Definition rw_next (i : nat) (l : rwlock) (p : rw_pc) : list (rwlock * rw_pc) :=
  match p with
  | RwIdle => [(l, RdSpin); (l, WrSpin)]
  | RdSpin => if negb (writer l =? 0) then [(l, RdSpin)] else [(l, RdAdd)]
  | RdAdd => [(mk_rwlock (s32 (readers l + 1)) (writer l), RdCheck)]
  | RdCheck => if writer l =? 0 then [(l, Reading)] else [(l, RdSub)]
  | RdSub => [(mk_rwlock (s32 (readers l - 1)) (writer l), RdSpin)]
  | Reading => [(l, UnLoad Reader)]
  | WrSpin => [(mk_rwlock (readers l) 1, if negb (writer l =? 0) then WrSpin else WrWait)]
  | WrWait => if negb (readers l =? 0) then [(l, WrWait)] else [(l, Writing)]
  | Writing => [(l, UnLoad Writer)]
  | UnLoad r => if negb (writer l =? 0) then [(l, UnStore r)] else [(l, UnSub r)]
  | UnStore r => [(mk_rwlock (readers l) 0, RwIdle)]
  | UnSub r => [(mk_rwlock (s32 (readers l - 1)) (writer l), RwIdle)]
  end.

(** Threads counted in [readers]; inside as readers; in the writer's part; inside
    as writers; readers about to clear the writer's flag. *)
Definition counted (p : rw_pc) : Z := match p with RdCheck | RdSub | Reading | UnLoad Reader | UnStore Reader | UnSub Reader => 1 | _ => 0 end.
Definition reads (p : rw_pc) : Z := match p with Reading | UnLoad Reader | UnStore Reader | UnSub Reader => 1 | _ => 0 end.
Definition claims (p : rw_pc) : Z := match p with WrWait | Writing | UnLoad Writer | UnStore Writer | UnSub Writer => 1 | _ => 0 end.
Definition writes (p : rw_pc) : Z := match p with Writing | UnLoad Writer | UnStore Writer | UnSub Writer => 1 | _ => 0 end.
Definition clears (p : rw_pc) : Z := match p with UnStore Reader => 1 | _ => 0 end.
Definition subtracts (p : rw_pc) : Z := match p with UnSub Writer => 1 | _ => 0 end.

(** [leak] readers left without being taken off the count. *)
Definition rw_inv (leak : Z) (s : rwlock * list rw_pc) : Prop :=
  let '(l, ts) := s in
  readers l = total counted ts + leak ∧ 0 <= leak ∧ (writer l = 0 ∨ writer l = 1) ∧
  (leak = 0 → total clears ts = 0 → total claims ts = writer l) ∧
  (0 < total writes ts → leak = 0 ∧ total reads ts = 0 ∧ total clears ts = 0) ∧ total subtracts ts = 0.

Definition rw_start (n : nat) : rwlock * list rw_pc := (mk_rwlock 0 0, replicate n RwIdle).

Lemma rw_nonneg p : 0 <= counted p ∧ 0 <= reads p ∧ 0 <= claims p ∧ 0 <= writes p ∧ 0 <= clears p ∧ 0 <= subtracts p.
Proof. destruct p as [| | | | | | | | |[]|[]|[]]; cbn; lia. Qed.

(** The relations between the sums. *)
Lemma rw_sums ts : total clears ts <= total reads ts <= total counted ts ∧ total writes ts <= total claims ts ∧
  0 <= total clears ts ∧ 0 <= total writes ts ∧ total counted ts <= Z.of_nat (length ts).
Proof.
  unfold total. induction ts as [|p ts IH]; cbn [foldr length]; [lia|]. destruct p as [| | | | | | | | |[]|[]|[]]; cbn [counted reads claims writes clears]; lia.
Qed.

(** No overflow of the count of readers. *)
Definition rw_room (l : rwlock) : Prop := readers l < INT_MAX.

Lemma rw_step_inv leak i l ts p l' p' :
  rw_room l → rw_inv leak (l, ts) → ts !! i = Some p → (l', p') ∈ rw_next i l p → ∃ leak', rw_inv leak' (l', <[i:=p']> ts) ∧ leak <= leak'.
Proof.
  intros Hroom HI Hp H.
  destruct (rw_sums ts) as (S1 & S2 & S3 & S4 & S5).
  pose proof (total_one counted ts i p (λ p, proj1 (rw_nonneg p)) Hp) as T1.
  pose proof (total_one reads ts i p (λ p, proj1 (proj2 (rw_nonneg p))) Hp) as T2.
  pose proof (total_one claims ts i p (λ p, proj1 (proj2 (proj2 (rw_nonneg p)))) Hp) as T3.
  pose proof (total_one writes ts i p (λ p, proj1 (proj2 (proj2 (proj2 (rw_nonneg p))))) Hp) as T4.
  pose proof (total_one clears ts i p (λ p, proj1 (proj2 (proj2 (proj2 (proj2 (rw_nonneg p)))))) Hp) as T5.
  pose proof (total_one subtracts ts i p (λ p, proj2 (proj2 (proj2 (proj2 (proj2 (rw_nonneg p)))))) Hp) as T6.
  unfold rw_room, INT_MAX in Hroom.
  exists (leak + match p with UnStore Reader => 1 | _ => 0 end). unfold rw_inv in *. rewrite !(total_insert _ _ _ p) by done.
  destruct l as [rd wr]. cbn [readers writer] in *. clear Hp S5.
  revert HI S1 S2 S3 S4 T1 T2 T3 T4 T5 T6.
  generalize (total counted ts) as n, (total reads ts) as r, (total claims ts) as c, (total writes ts) as w, (total clears ts) as x, (total subtracts ts) as u.
  intros n r c w x u (Hr & Hl & Hw & Hc & Hx & Hs) S1 S2 S3 S4 T1 T2 T3 T4 T5 T6.
  assert (leak = 0 ∧ x = 0 ∧ c = wr ∨ w = 0 ∧ (leak ≠ 0 ∨ x ≠ 0)) as HC.
  { destruct (decide (leak = 0)), (decide (x = 0)); [left; auto|right; split; [|lia]..]; destruct (decide (0 < w)); [|lia..]; lia. }
  assert (w = 0 ∨ r = 0 ∧ leak = 0 ∧ x = 0) as HX by (destruct (decide (0 < w)); [right; naive_solver|left; lia]). clear Hc Hx.
  destruct Hw as [-> | ->]; destruct p as [| | | | | | | | |[]|[]|[]]; cbn [rw_next readers writer Z.eqb Pos.eqb negb] in H; each_step H;
    cbn [readers writer counted reads claims writes clears subtracts] in *;
    rewrite ?negb_true_iff, ?negb_false_iff in *;
    repeat match goal with H : (_ =? _) = true |- _ => apply Z.eqb_eq in H | H : (_ =? _) = false |- _ => apply Z.eqb_neq in H end;
    try rewrite s32_small by (unfold is_s32; lia);
    destruct HC as [(-> & -> & ->)|[-> [?|?]]]; destruct HX as [?|(? & ? & ?)]; split_and!; try intros; lia.
Qed.

Lemma rw_reach_inv l0 s s' : (∃ leak, l0 <= leak ∧ rw_inv leak s) → reach_while rw_next rw_room s s' → ∃ leak, l0 <= leak ∧ rw_inv leak s'.
Proof.
  intros H0 H. revert s' H. apply (reach_while_inv rw_next rw_room (λ s, ∃ leak, l0 <= leak ∧ rw_inv leak s)); [done|].
  intros i l ts p l' p' Hroom (leak & Hle & HI) Hp Hn. destruct (rw_step_inv leak i l ts p l' p' Hroom HI Hp Hn) as (leak' & HI' & ?). exists leak'. split; [lia|done].
Qed.

Lemma rw_start_inv n : ∃ leak, 0 <= leak ∧ rw_inv leak (rw_start n).
Proof. exists 0. split; [lia|]. unfold rw_inv, rw_start. rewrite !total_replicate. cbn. lia. Qed.

(** C28: a reader-writer lock excludes: in every interleaving in which the count of
    readers does not overflow, while a thread is inside as a writer no other thread
    is inside, as a reader or as a writer. *)
Theorem rwlock_exclusion n s :
  reach_while rw_next rw_room (rw_start n) s →
  ∀ i j p q, snd s !! i = Some p → snd s !! j = Some q → i ≠ j → writes p = 1 → reads q = 0 ∧ writes q = 0.
Proof.
  intros H i j p q Hi Hj Hij Hp. destruct (rw_reach_inv 0 _ _ (rw_start_inv n) H) as (leak & _ & HI). destruct s as [l ts]. cbn [snd] in *.
  destruct HI as (Hr & Hl & Hw & Hc & Hx & Hs). destruct (rw_sums ts) as (S1 & S2 & S3 & S4 & S5).
  pose proof (total_two writes ts i j p q (λ p, proj1 (proj2 (proj2 (proj2 (rw_nonneg p))))) Hij Hi Hj) as T4.
  pose proof (total_one reads ts j q (λ p, proj1 (proj2 (rw_nonneg p))) Hj) as T2. destruct (rw_nonneg q) as (_ & N2 & _ & N4 & _).
  destruct Hx as (-> & Hx1 & Hx2); [lia|]. specialize (Hc eq_refl Hx2). lia.
Qed.

(** A writer inside, a reader waiting. *)
Lemma rwlock_exclusion_witness :
  reach_while rw_next rw_room (rw_start 2) (mk_rwlock 0 1, [Writing; RdSpin]) ∧ reads RdSpin = 0 ∧ writes RdSpin = 0.
Proof.
  assert (reach_while rw_next rw_room (rw_start 2) (mk_rwlock 0 1, [Writing; RdSpin])) as H.
  { apply (run_reach_while _ (λ l, readers l <? INT_MAX) _ [(0, 1); (1, 0); (0, 0); (0, 0); (1, 0)]%nat); [|reflexivity].
    intros l Hl. unfold rw_room. lia. }
  split; [exact H|]. apply (rwlock_exclusion 2 _ H 0%nat 1%nat Writing RdSpin); reflexivity || lia.
Defined.

(** A reader that unlocks while a writer waits clears the flag of the writer and
    stays counted: once a thread has done so no thread ever gets in as a writer. *)
Theorem rwlock_reader_unlock_locks_out n l ts i s' :
  reach_while rw_next rw_room (rw_start n) (l, ts) → ts !! i = Some (UnStore Reader) → rw_room l →
  reach_while rw_next rw_room (mk_rwlock (readers l) 0, <[i:=RwIdle]> ts) s' → ∀ j q, snd s' !! j = Some q → writes q = 0.
Proof.
  intros H Hi Hroom H' j q Hj. destruct (rw_reach_inv 0 _ _ (rw_start_inv n) H) as (leak & Hle & HI).
  assert (∃ leak', 1 <= leak' ∧ rw_inv leak' (mk_rwlock (readers l) 0, <[i:=RwIdle]> ts)) as H1.
  { exists (leak + 1). split; [lia|]. destruct (rw_sums ts) as (S1 & S2 & S3 & S4 & S5). destruct HI as (Hr & Hl & Hw & Hc & Hx & Hs).
    pose proof (total_one clears ts i _ (λ p, proj1 (proj2 (proj2 (proj2 (proj2 (rw_nonneg p)))))) Hi) as T5. cbn [clears] in T5.
    unfold rw_inv. rewrite !(total_insert _ _ _ (UnStore Reader)) by done. cbn [readers writer counted reads claims writes clears subtracts].
    destruct (decide (0 < total writes ts)) as [Hlt|Hge]; [destruct (Hx Hlt); lia|]. split_and!; try intros; lia. }
  destruct (rw_reach_inv 1 _ _ H1 H') as (leak' & Hle' & HI'). destruct s' as [l' ts']. destruct HI' as (_ & _ & _ & _ & Hx & _).
  pose proof (total_one writes ts' j q (λ p, proj1 (proj2 (proj2 (proj2 (rw_nonneg p))))) Hj) as T4. destruct (rw_nonneg q) as (_ & _ & _ & N4 & _).
  destruct (decide (0 < total writes ts')) as [Hlt|Hge]; [destruct (Hx Hlt); lia|lia].
Qed.

(** A reader inside, a writer that comes to wait, the unlock: the second thread waits
    on. *)
Lemma rwlock_reader_unlock_locks_out_witness :
  reach_while rw_next rw_room (rw_start 2) (mk_rwlock 1 1, [UnStore Reader; WrWait]) ∧ writes WrWait = 0.
Proof.
  assert (reach_while rw_next rw_room (rw_start 2) (mk_rwlock 1 1, [UnStore Reader; WrWait])) as H.
  { apply (run_reach_while _ (λ l, readers l <? INT_MAX) _ [(0, 0); (0, 0); (0, 0); (0, 0); (1, 1); (1, 0); (0, 0); (0, 0)]%nat); [|reflexivity].
    intros l Hl. unfold rw_room. lia. }
  split; [exact H|].
  apply (rwlock_reader_unlock_locks_out 2 (mk_rwlock 1 1) [UnStore Reader; WrWait] 0 (mk_rwlock 1 0, [RwIdle; WrWait]) H) with (j := 1%nat);
    [reflexivity|unfold rw_room, INT_MAX; cbn; lia|apply rtc_refl|reflexivity].
Defined.
