(* ===== verification/LibDes.v ===== *)
(** * The DES password hash: example_libc/src/crypt.c

    The code computes DES with tables that merge its permutations and its S-boxes;
    [des_init] fills them.  A pair of arrays such as [ip_maskl] and [ip_maskr] is one
    array of pairs.  A pointer to eight bytes is their list.  The thread-local
    variables are a record.  [crypt_md5], [crypt_sha256] and [crypt_sha512] call
    OpenSSL and are not modelled. *)

From S2P Require Import Prelude LibBase.

Local Open Scope Z_scope.

(** ** Tables of the source *)

Definition IP : list Z :=
  [58; 50; 42; 34; 26; 18; 10;  2; 60; 52; 44; 36; 28; 20; 12;  4;
   62; 54; 46; 38; 30; 22; 14;  6; 64; 56; 48; 40; 32; 24; 16;  8;
   57; 49; 41; 33; 25; 17;  9;  1; 59; 51; 43; 35; 27; 19; 11;  3;
   61; 53; 45; 37; 29; 21; 13;  5; 63; 55; 47; 39; 31; 23; 15;  7].
Definition key_perm : list Z :=
  [57; 49; 41; 33; 25; 17;  9;  1; 58; 50; 42; 34; 26; 18;
   10;  2; 59; 51; 43; 35; 27; 19; 11;  3; 60; 52; 44; 36;
   63; 55; 47; 39; 31; 23; 15;  7; 62; 54; 46; 38; 30; 22;
   14;  6; 61; 53; 45; 37; 29; 21; 13;  5; 28; 20; 12;  4].
Definition key_shifts : list Z := [1; 1; 2; 2; 2; 2; 2; 2; 1; 2; 2; 2; 2; 2; 2; 1].
Definition comp_perm : list Z :=
  [14; 17; 11; 24;  1;  5;  3; 28; 15;  6; 21; 10;
   23; 19; 12;  4; 26;  8; 16;  7; 27; 20; 13;  2;
   41; 52; 31; 37; 47; 55; 30; 40; 51; 45; 33; 48;
   44; 49; 39; 56; 34; 53; 46; 42; 50; 36; 29; 32].
Definition sbox : list (list Z) :=
  [[14;  4; 13;  1;  2; 15; 11;  8;  3; 10;  6; 12;  5;  9;  0;  7;
     0; 15;  7;  4; 14;  2; 13;  1; 10;  6; 12; 11;  9;  5;  3;  8;
     4;  1; 14;  8; 13;  6;  2; 11; 15; 12;  9;  7;  3; 10;  5;  0;
    15; 12;  8;  2;  4;  9;  1;  7;  5; 11;  3; 14; 10;  0;  6; 13];
   [15;  1;  8; 14;  6; 11;  3;  4;  9;  7;  2; 13; 12;  0;  5; 10;
     3; 13;  4;  7; 15;  2;  8; 14; 12;  0;  1; 10;  6;  9; 11;  5;
     0; 14;  7; 11; 10;  4; 13;  1;  5;  8; 12;  6;  9;  3;  2; 15;
    13;  8; 10;  1;  3; 15;  4;  2; 11;  6;  7; 12;  0;  5; 14;  9];
   [10;  0;  9; 14;  6;  3; 15;  5;  1; 13; 12;  7; 11;  4;  2;  8;
    13;  7;  0;  9;  3;  4;  6; 10;  2;  8;  5; 14; 12; 11; 15;  1;
    13;  6;  4;  9;  8; 15;  3;  0; 11;  1;  2; 12;  5; 10; 14;  7;
     1; 10; 13;  0;  6;  9;  8;  7;  4; 15; 14;  3; 11;  5;  2; 12];
   [ 7; 13; 14;  3;  0;  6;  9; 10;  1;  2;  8;  5; 11; 12;  4; 15;
    13;  8; 11;  5;  6; 15;  0;  3;  4;  7;  2; 12;  1; 10; 14;  9;
    10;  6;  9;  0; 12; 11;  7; 13; 15;  1;  3; 14;  5;  2;  8;  4;
     3; 15;  0;  6; 10;  1; 13;  8;  9;  4;  5; 11; 12;  7;  2; 14];
   [ 2; 12;  4;  1;  7; 10; 11;  6;  8;  5;  3; 15; 13;  0; 14;  9;
    14; 11;  2; 12;  4;  7; 13;  1;  5;  0; 15; 10;  3;  9;  8;  6;
     4;  2;  1; 11; 10; 13;  7;  8; 15;  9; 12;  5;  6;  3;  0; 14;
    11;  8; 12;  7;  1; 14;  2; 13;  6; 15;  0;  9; 10;  4;  5;  3];
   [12;  1; 10; 15;  9;  2;  6;  8;  0; 13;  3;  4; 14;  7;  5; 11;
    10; 15;  4;  2;  7; 12;  9;  5;  6;  1; 13; 14;  0; 11;  3;  8;
     9; 14; 15;  5;  2;  8; 12;  3;  7;  0;  4; 10;  1; 13; 11;  6;
     4;  3;  2; 12;  9;  5; 15; 10; 11; 14;  1;  7;  6;  0;  8; 13];
   [ 4; 11;  2; 14; 15;  0;  8; 13;  3; 12;  9;  7;  5; 10;  6;  1;
    13;  0; 11;  7;  4;  9;  1; 10; 14;  3;  5; 12;  2; 15;  8;  6;
     1;  4; 11; 13; 12;  3;  7; 14; 10; 15;  6;  8;  0;  5;  9;  2;
     6; 11; 13;  8;  1;  4; 10;  7;  9;  5;  0; 15; 14;  2;  3; 12];
   [13;  2;  8;  4;  6; 15; 11;  1; 10;  9;  3; 14;  5;  0; 12;  7;
     1; 15; 13;  8; 10;  3;  7;  4; 12;  5;  6; 11;  0; 14;  9;  2;
     7; 11;  4;  1;  9; 12; 14;  2;  0;  6; 10; 13; 15;  3;  5;  8;
     2;  1; 14;  7;  4; 10;  8; 13; 15; 12;  9;  0;  3;  5;  6; 11]].
Definition pbox : list Z :=
  [16;  7; 20; 21; 29; 12; 28; 17;  1; 15; 23; 26;  5; 18; 31; 10;
    2;  8; 24; 14; 32; 27;  3;  9; 19; 13; 30;  6; 22; 11;  4; 25].
Definition bits32 : list Z :=
  [0x80000000; 0x40000000; 0x20000000; 0x10000000; 0x08000000; 0x04000000; 0x02000000; 0x01000000;
   0x00800000; 0x00400000; 0x00200000; 0x00100000; 0x00080000; 0x00040000; 0x00020000; 0x00010000;
   0x00008000; 0x00004000; 0x00002000; 0x00001000; 0x00000800; 0x00000400; 0x00000200; 0x00000100;
   0x00000080; 0x00000040; 0x00000020; 0x00000010; 0x00000008; 0x00000004; 0x00000002; 0x00000001].
Definition bits8 : list Z := [0x80; 0x40; 0x20; 0x10; 0x08; 0x04; 0x02; 0x01].
(** [bits24 = (bits28 = bits32 + 4) + 4] *)
Definition bits28 : list Z := drop 4 bits32.
Definition bits24 : list Z := drop 4 bits28.
(** "./0123456789ABCDEFGHIJKLMNOPQRSTUVWXYZabcdefghijklmnopqrstuvwxyz" *)
Definition ascii64 : list Z := seqZ 46 12 ++ seqZ 65 26 ++ seqZ 97 26.

(** ** Filling the tables *)

(** [for (i = 0; i < n; i++) a = body(i, a)] *)
Fixpoint loop {A} (n : nat) (i : Z) (body : Z → A → option A) (a : A) : option A :=
  match n with O => Some a | S n => a ← body i a; loop n (i + 1) body a end.
(** An array whose entries are computed one after the other. *)
Definition array {A} (n : Z) (entry : Z → option A) : option (list A) := mapM entry (seqZ 0 n).

Definition u_sbox : option (list (list Z)) :=
  array 8 (λ i, array 64 (λ j,
    let b := Z.lor (Z.lor (Z.land j 0x20) (Z.shiftl (Z.land j 1) 4)) (Z.land (Z.shiftr j 1) 0xf) in
    row ← sbox.[i]; row.[b])).
(** The index [(i << 6) | j] runs through the array in order. *)
Definition fill_m_sbox (u : list (list Z)) : option (list (list Z)) :=
  array 4 (λ b, array 4096 (λ x,
    let i := Z.shiftr x 6 in let j := Z.land x 63 in
    hi ← u.[Z.shiftl b 1]; hi ← hi.[i]; lo ← u.[Z.shiftl b 1 + 1]; lo ← lo.[j]; Some (u8 (Z.lor (Z.shiftl hi 4) lo)))).

(** [init_perm[final_perm[i] = IP[i] - 1] = i]: both arrays, zero at first. *)
Definition fill_perms : option (list Z * list Z) :=
  loop 64 0 (λ i '(init_perm, final_perm),
    p ← IP.[i]; final_perm ← final_perm.[i <- p - 1]; init_perm ← init_perm.[p - 1 <- i]; Some (init_perm, final_perm))
    (replicate 64 0, replicate 64 0).
(** [inv[perm[i] - 1] = i], the array filled with [fill] at first. *)
Definition invert (perm : list Z) (n : nat) (size : nat) (fill : Z) : option (list Z) :=
  loop n 0 (λ i inv, p ← perm.[i]; inv.[p - 1 <- i]) (replicate size fill).
Definition inv_key_perm : option (list Z) := invert key_perm 56 64 255.
Definition inv_comp_perm : option (list Z) := invert comp_perm 48 56 255.
Definition un_pbox : option (list Z) := invert pbox 32 32 0.

(** [if (obit < half) *il |= bits[obit]; else *ir |= bits[obit - half]] *)
Definition set_bit (half : Z) (bits : list Z) (obit : Z) (m : Z * Z) : option (Z * Z) :=
  if obit <? half then b ← bits.[obit]; Some (Z.lor (fst m) b, snd m)
  else b ← bits.[obit - half]; Some (fst m, Z.lor (snd m) b).
(** The entry [i] of row [k]: for each of the [n] bits of [i] that is set, the place
    where [perm] sends it; 255 marks a bit that goes nowhere (there is none in
    [init_perm], [final_perm] and [un_pbox]). *)
Definition mask_entry (perm : list Z) (n : nat) (stride half : Z) (bits : list Z) (k i : Z) : option (Z * Z) :=
  loop n 0 (λ j m,
    b ← bits8.[j + (8 - Z.of_nat n)];
    if negb (Z.land i b =? 0) then
      obit ← perm.[stride * k + j];
      if obit =? 255 then Some m else set_bit half bits obit m
    else Some m) (0, 0).
Definition masks (rows : Z) (perm : list Z) (n : nat) (stride half : Z) (bits : list Z) : option (list (list (Z * Z))) :=
  array rows (λ k, array (2 ^ Z.of_nat n) (mask_entry perm n stride half bits k)).

Record des_tables := mk_des_tables {
  m_sbox : list (list Z);
  psbox : list (list (Z * Z));
  ip_mask : list (list (Z * Z));
  fp_mask : list (list (Z * Z));
  key_perm_mask : list (list (Z * Z));
  comp_mask : list (list (Z * Z))
}.
Definition fill_tables : option des_tables :=
  u ← u_sbox; m ← fill_m_sbox u;
  perms ← fill_perms;
  ik ← inv_key_perm; ic ← inv_comp_perm;
  ip ← masks 8 (fst perms) 8 8 32 bits32;
  fp ← masks 8 (snd perms) 8 8 32 bits32;
  kp ← masks 8 ik 7 8 28 bits28;
  cp ← masks 8 ic 7 7 24 bits24;
  up ← un_pbox; ps ← masks 4 up 8 8 32 bits32;
  Some (mk_des_tables m ps ip fp kp cp).

(** ** The state of a thread *)

Record des := mk_des {
  des_initialised : option des_tables;
  saltbits : Z;
  old_salt : Z;
  en_keys : list (Z * Z);
  de_keys : list (Z * Z);
  old_rawkey : Z * Z
}.
Definition des_start : des := mk_des None 0 0 (replicate 16 (0, 0)) (replicate 16 (0, 0)) (0, 0).

(** [des_init], and the test before it. *)
Definition des_init (d : des) : option des :=
  t ← fill_tables; Some (mk_des (Some t) 0 0 (en_keys d) (de_keys d) (0, 0)).
Definition ensure_init (d : des) : option (des * des_tables) :=
  match des_initialised d with
  | Some t => Some (d, t)
  | None => d ← des_init d; t ← des_initialised d; Some (d, t)
  end.

(** The loop of [setup_salt]: [saltbit] and [obit] are shifted each time. *)
Fixpoint salt_loop (n : nat) (salt saltbit obit bits : Z) : Z :=
  match n with
  | O => bits
  | S n => salt_loop n salt (u32 (Z.shiftl saltbit 1)) (Z.shiftr obit 1) (if negb (Z.land salt saltbit =? 0) then Z.lor bits obit else bits)
  end.
Definition setup_salt (salt : Z) (d : des) : des :=
  if salt =? old_salt d then d
  else mk_des (des_initialised d) (salt_loop 24 salt 1 0x800000 0) salt (en_keys d) (de_keys d) (old_rawkey d).

(** [ntohl] of the four bytes at an address, and back. *)
Definition be32 (b : list Z) : option Z :=
  match b with
  | b0 :: b1 :: b2 :: b3 :: _ => Some (Z.lor (Z.lor (Z.lor (Z.shiftl b0 24) (Z.shiftl b1 16)) (Z.shiftl b2 8)) b3)
  | _ => None
  end.
Definition to_be32 (x : Z) : list Z := [Z.land (Z.shiftr x 24) 255; Z.land (Z.shiftr x 16) 255; Z.land (Z.shiftr x 8) 255; Z.land x 255].

(** The lookups [t[0][x0] | t[1][x1] | ...], of both arrays of a pair. *)
Fixpoint lookup_or (t : list (list (Z * Z))) (xs : list Z) (m : Z * Z) : option (Z * Z) :=
  match t, xs with
  | row :: t, x :: xs => e ← row.[x]; lookup_or t xs (Z.lor (fst m) (fst e), Z.lor (snd m) (snd e))
  | _, [] => Some m
  | [], _ => None
  end.

Definition bytes_of (x : Z) : list Z := [Z.shiftr x 24; Z.land (Z.shiftr x 16) 0xff; Z.land (Z.shiftr x 8) 0xff; Z.land x 0xff].
Definition key_bits (x : Z) : list Z := [Z.shiftr x 25; Z.land (Z.shiftr x 17) 0x7f; Z.land (Z.shiftr x 9) 0x7f; Z.land (Z.shiftr x 1) 0x7f].
Definition comp_bits (x : Z) : list Z :=
  [Z.land (Z.shiftr x 21) 0x7f; Z.land (Z.shiftr x 14) 0x7f; Z.land (Z.shiftr x 7) 0x7f; Z.land x 0x7f].

(** [(k << shifts) | (k >> (28 - shifts))] *)
Definition rotate (k shifts : Z) : Z := Z.lor (u32 (Z.shiftl k shifts)) (Z.shiftr k (28 - shifts)).
(** The round keys, from the round with [shifts] so far; the loop also stores them
    backwards in [de_keysl] and [de_keysr]. *)
Fixpoint key_loop (t : des_tables) (steps : list Z) (k0 k1 shifts : Z) : option (list (Z * Z)) :=
  match steps with
  | [] => Some []
  | s :: steps =>
      let shifts := shifts + s in
      let t0 := rotate k0 shifts in let t1 := rotate k1 shifts in
      e ← lookup_or (comp_mask t) (comp_bits t0 ++ comp_bits t1) (0, 0);
      es ← key_loop t steps k0 k1 shifts; Some (e :: es)
  end.
Definition des_setkey (key : list Z) (d : des) : option des :=
  it ← ensure_init d;
  let '(d, t) := (it : des * des_tables) in
  rawkey0 ← be32 key; rawkey1 ← be32 (drop 4 key);
  if negb (Z.lor rawkey0 rawkey1 =? 0) && (rawkey0 =? fst (old_rawkey d)) && (rawkey1 =? snd (old_rawkey d)) then Some d
  else
    k ← lookup_or (key_perm_mask t) (key_bits rawkey0 ++ key_bits rawkey1) (0, 0);
    ks ← key_loop t key_shifts (fst k) (snd k) 0;
    Some (mk_des (des_initialised d) (saltbits d) (old_salt d) ks (rev ks) (rawkey0, rawkey1)).

(** ** The engine *)

(** The E box: 32 bits to twice 24. *)
Definition expand_l (r : Z) : Z :=
  Z.lor (Z.lor (Z.lor (Z.lor (u32 (Z.shiftl (Z.land r 0x00000001) 23)) (Z.shiftr (Z.land r 0xf8000000) 9))
    (Z.shiftr (Z.land r 0x1f800000) 11)) (Z.shiftr (Z.land r 0x01f80000) 13)) (Z.shiftr (Z.land r 0x001f8000) 15).
Definition expand_r (r : Z) : Z :=
  Z.lor (Z.lor (Z.lor (Z.lor (u32 (Z.shiftl (Z.land r 0x0001f800) 7)) (u32 (Z.shiftl (Z.land r 0x00001f80) 5)))
    (u32 (Z.shiftl (Z.land r 0x000001f8) 3))) (u32 (Z.shiftl (Z.land r 0x0000001f) 1))) (Z.shiftr (Z.land r 0x80000000) 31).
(** [m_sbox[b][x]] for the four parts of the 48 bits, and [psbox] of the results. *)
Definition sbox_out (t : des_tables) (r48l r48r : Z) : option Z :=
  m0 ← (m_sbox t).[0]; y0 ← m0.[Z.shiftr r48l 12];
  m1 ← (m_sbox t).[1]; y1 ← m1.[Z.land r48l 0xfff];
  m2 ← (m_sbox t).[2]; y2 ← m2.[Z.shiftr r48r 12];
  m3 ← (m_sbox t).[3]; y3 ← m3.[Z.land r48r 0xfff];
  f ← lookup_or (psbox t) [y0; y1; y2; y3] (0, 0); Some (fst f).
(** The value of [f] before it is combined with [l]. *)
Definition des_f (t : des_tables) (saltbits r : Z) (k : Z * Z) : option Z :=
  let r48l := expand_l r in let r48r := expand_r r in
  let f := Z.land (Z.lxor r48l r48r) saltbits in
  sbox_out t (Z.lxor r48l (Z.lxor f (fst k))) (Z.lxor r48r (Z.lxor f (snd k))).
Fixpoint des_rounds (t : des_tables) (saltbits : Z) (ks : list (Z * Z)) (l r : Z) : option (Z * Z) :=
  match ks with
  | [] => Some (l, r)
  | k :: ks => f ← des_f t saltbits r k; des_rounds t saltbits ks r (Z.lxor f l)
  end.
(** [while (count--)]: the rounds, then the halves change places. *)
Fixpoint des_passes (count : nat) (t : des_tables) (saltbits : Z) (ks : list (Z * Z)) (l r : Z) : option (Z * Z) :=
  match count with
  | O => Some (l, r)
  | S count => lr ← des_rounds t saltbits ks l r; des_passes count t saltbits ks (snd lr) (fst lr)
  end.
(** [None] in the result is the return value 1, for a count of zero.  A negative
    count is negated as an [int]. *)
Definition do_des (t : des_tables) (d : des) (l_in r_in count : Z) : option (option (Z * Z)) :=
  if count =? 0 then Some None else
  let ks := if 0 <? count then en_keys d else de_keys d in
  count ← (if 0 <? count then Some count else int32 (- count));
  lr ← lookup_or (ip_mask t) (bytes_of l_in ++ bytes_of r_in) (0, 0);
  lr ← des_passes (Z.to_nat count) t (saltbits d) ks (fst lr) (snd lr);
  out ← lookup_or (fp_mask t) (bytes_of (fst lr) ++ bytes_of (snd lr)) (0, 0);
  Some (Some out).
(** The block stored through [out]; [None] for the return value 1, when the two
    words stored there were never set. *)
Definition des_cipher (input : list Z) (salt count : Z) (d : des) : option (des * option (list Z)) :=
  it ← ensure_init d;
  let '(d, t) := (it : des * des_tables) in
  let d := setup_salt (u32 salt) d in
  rawl ← be32 input; rawr ← be32 (drop 4 input);
  out ← do_des t d rawl rawr count;
  Some (d, match out with None => None | Some (l, r) => Some (to_be32 l ++ to_be32 r) end).

(** ** crypt_des *)

(** [_crypt_to64] and the same loop of [b64_from_24bit]: the characters written. *)
Fixpoint crypt_to64 (n : nat) (v : Z) : option (list Z) :=
  match n with O => Some [] | S n => c ← ascii64.[Z.land v 0x3f]; t ← crypt_to64 n (Z.shiftr v 6); Some (c :: t) end.
Definition b64_from_24bit (b2 b1 b0 : Z) (n : nat) : option (list Z) :=
  crypt_to64 n (Z.lor (Z.lor (u32 (Z.shiftl b2 16)) (u32 (Z.shiftl b1 8))) b0).

Definition ascii_to_bin (ch : Z) : Z :=
  let ch := s8 ch in
  if 122 <? ch then 0 else if 97 <=? ch then ch - 97 + 38
  else if 90 <? ch then 0 else if 65 <=? ch then ch - 65 + 12
  else if 57 <? ch then 0 else if 46 <=? ch then ch - 46 else 0.

(** The first eight characters, shifted; the terminator fills the rest.  Also the
    key from where the copy stopped. *)
Fixpoint key_copy (n : nat) (key : list Z) : option (list Z * list Z) :=
  match n with
  | O => Some ([], key)
  | S n => c ← head key; r ← key_copy n (if c =? 0 then key else tail key); Some (u8 (Z.shiftl c 1) :: fst r, snd r)
  end.
(** [for (i = a; i < a + n; i++) v |= ascii_to_bin(setting[i]) << ((i - a) * 6)] *)
Definition read64 (setting : list Z) (a : Z) (n : nat) : option Z :=
  loop n 0 (λ i v, c ← setting.[a + i]; Some (Z.lor v (u32 (Z.shiftl (ascii_to_bin c) (i * 6))))) 0.
(** [while (q - keybuf - 8 && *key) *q++ ^= *key++ << 1] *)
Fixpoint key_xor (q key : list Z) : option (list Z * list Z) :=
  match q with
  | [] => Some ([], key)
  | b :: q' => c ← head key; if c =? 0 then Some (q, key) else r ← key_xor q' (tail key); Some (u8 (Z.lxor b (Z.shiftl c 1)) :: fst r, snd r)
  end.
(** The loop over the rest of the key; [Some None] is the result -1. *)
Fixpoint fold_key (fuel : nat) (keybuf key : list Z) (d : des) : option (option (des * list Z)) :=
  match fuel with
  | O => None
  | S fuel =>
      c ← head key;
      if c =? 0 then Some (Some (d, keybuf)) else
      e ← des_cipher keybuf 0 1 d;
      match e with
      | (d, None) => Some None
      | (d, Some keybuf) =>
          r ← key_xor keybuf key;
          d ← des_setkey (fst r) d;
          fold_key fuel (fst r) (snd r) d
      end
  end.
(** [stpncpy(buffer, setting, n)]: the [n] bytes written. *)
Fixpoint stpncpy_text (n : nat) (setting : list Z) : option (list Z) :=
  match n with
  | O => Some []
  | S n' => c ← head setting; if c =? 0 then Some (replicate n 0) else t ← stpncpy_text n' (tail setting); Some (c :: t)
  end.
(** [ascii64[(l >> 18) & 0x3f]] and so on, for the given shifts. *)
Definition encode (l : Z) (shifts : list Z) : option (list Z) := mapM (λ s, ascii64.[Z.land (Z.shiftr l s) 0x3f]) shifts.
Definition encode_block (r0 r1 : Z) : option (list Z) :=
  a ← encode (Z.shiftr r0 8) [18; 12; 6; 0];
  b ← encode (Z.lor (u32 (Z.shiftl r0 16)) (Z.land (Z.shiftr r1 16) 0xffff)) [18; 12; 6; 0];
  c ← encode (u32 (Z.shiftl r1 2)) [12; 6; 0];
  Some (a ++ b ++ c).

(** The count, the salt and the characters copied from the setting, with the state
    after the key has been folded; [Some None] is the result -1. *)
Definition crypt_setting (d : des) (setting keybuf key : list Z) : option (option (des * Z * Z * list Z)) :=
  c ← head setting;
  if c =? 95 then
    count ← read64 setting 1 4;
    salt ← read64 setting 5 4;
    r ← fold_key (S (length key)) keybuf key d;
    match r with
    | None => Some None
    | Some (d, _) => pre ← stpncpy_text 9 setting; Some (Some (d, count, salt, pre))
    end
  else
    s1 ← setting.[1];
    let salt := Z.lor (u32 (Z.shiftl (ascii_to_bin s1) 6)) (ascii_to_bin c) in
    Some (Some (d, 25, salt, [c; if s1 =? 0 then c else s1])).
(** The text put into [buffer], or -1. *)
Definition crypt_des (key setting : list Z) (d : des) : option (des * option (list Z)) :=
  it ← ensure_init d;
  k ← key_copy 8 key;
  d ← des_setkey (fst k) (fst it);
  s ← crypt_setting d setting (fst k) (snd k);
  match s with
  | None => Some (d, None)
  | Some (d, count, salt, pre) =>
      let d := setup_salt salt d in
      t ← des_initialised d;
      out ← do_des t d 0 0 (s32 count);
      match out with
      | None => Some (d, None)
      | Some (r0, r1) => e ← encode_block r0 r1; Some (d, Some (pre ++ e))
      end
  end.
