(* ===== verification/LibDesSpec.v ===== *)
(** * DES as the standard defines it, and the tables of crypt.c against it

    The reference works on lists of bits, the first bit first, as FIPS 46 numbers
    them: permutations are lists of positions from 1.  The lemmas show that the
    merged tables and the shifts of LibDes.v compute the permutations, the S-boxes and
    the rounds of the reference. *)

From S2P Require Import Prelude LibBase LibDes.

Local Open Scope Z_scope.

(** ** The reference *)

(** The [n] low bits of a number. *)
Definition bits (n x : Z) : list bool := map (λ k, Z.testbit x (n - 1 - k)) (seqZ 0 n).
Definition permute (p : list Z) (b : list bool) : list bool := map (λ k, nth (Z.to_nat (k - 1)) b false) p.
Definition xor (a b : list bool) : list bool := zip_with xorb a b.
Definition rotl (n : nat) (b : list bool) : list bool := drop n b ++ take n b.
Definition number (b : list bool) : Z := foldl (λ a c, 2 * a + Z.b2z c) 0 b.

Definition E : list Z :=
  [32;  1;  2;  3;  4;  5;  4;  5;  6;  7;  8;  9;  8;  9; 10; 11; 12; 13; 12; 13; 14; 15; 16; 17;
   16; 17; 18; 19; 20; 21; 20; 21; 22; 23; 24; 25; 24; 25; 26; 27; 28; 29; 28; 29; 30; 31; 32;  1].
Definition FP : list Z :=
  [40;  8; 48; 16; 56; 24; 64; 32; 39;  7; 47; 15; 55; 23; 63; 31; 38;  6; 46; 14; 54; 22; 62; 30; 37;  5; 45; 13; 53; 21; 61; 29;
   36;  4; 44; 12; 52; 20; 60; 28; 35;  3; 43; 11; 51; 19; 59; 27; 34;  2; 42; 10; 50; 18; 58; 26; 33;  1; 41;  9; 49; 17; 57; 25].

(** Box [i] on six bits: the outer ones choose the row, the inner ones the column. *)
Definition S_box (i : nat) (b : list bool) : list bool :=
  match b with
  | [b0; b1; b2; b3; b4; b5] => bits 4 (nth (Z.to_nat (16 * number [b0; b5] + number [b1; b2; b3; b4])) (nth i sbox []) 0)
  | _ => []
  end.
Fixpoint S_boxes (i : nat) (n : nat) (b : list bool) : list bool :=
  match n with O => [] | S n => S_box i (take 6 b) ++ S_boxes (S i) n (drop 6 b) end.

(** crypt(3) exchanges bit [i] of the two halves of the expansion where the salt has
    bit [i]. *)
Definition salted (salt : Z) (e : list bool) : list bool :=
  map (λ k, if Z.testbit salt (k mod 24) then nth (Z.to_nat ((k + 24) mod 48)) e false else nth (Z.to_nat k) e false) (seqZ 0 48).
Definition ref_f (salt : Z) (r k : list bool) : list bool := permute pbox (S_boxes 0 8 (xor (salted salt (permute E r)) k)).
Fixpoint ref_rounds (salt : Z) (ks : list (list bool)) (l r : list bool) : list bool * list bool :=
  match ks with [] => (l, r) | k :: ks => ref_rounds salt ks r (xor l (ref_f salt r k)) end.
Fixpoint ref_passes (count : nat) (salt : Z) (ks : list (list bool)) (l r : list bool) : list bool * list bool :=
  match count with O => (l, r) | S count => let '(l, r) := ref_rounds salt ks l r in ref_passes count salt ks r l end.
Fixpoint ref_keys (steps : list Z) (c d : list bool) : list (list bool) :=
  match steps with
  | [] => []
  | s :: steps => let c := rotl (Z.to_nat s) c in let d := rotl (Z.to_nat s) d in permute comp_perm (c ++ d) :: ref_keys steps c d
  end.
Definition ref_schedule (key : list bool) : list (list bool) :=
  let cd := permute key_perm key in ref_keys key_shifts (take 28 cd) (drop 28 cd).
(** [count] passes over a block; with the schedule reversed it is the decryption. *)
Definition ref_des (salt : Z) (ks : list (list bool)) (count : nat) (block : list bool) : list bool :=
  let b := permute IP block in
  let '(l, r) := ref_passes count salt ks (take 32 b) (drop 32 b) in permute FP (l ++ r).

Definition bytes_bits (b : list Z) : list bool := concat (map (bits 8) b).

(** ** Bits *)

Lemma bits_length n x : 0 <= n → length (bits n x) = Z.to_nat n.
Proof. intros Hn. unfold bits. by rewrite length_map, length_seqZ. Qed.

Lemma nth_bits n x k : 0 <= k < n → nth (Z.to_nat k) (bits n x) false = Z.testbit x (n - 1 - k).
Proof.
  intros Hk. unfold bits. rewrite (nth_indep _ false (Z.testbit x (n - 1 - 0))) by (rewrite length_map, length_seqZ; lia).
  rewrite (map_nth (λ k, Z.testbit x (n - 1 - k))). f_equal. rewrite nth_lookup, lookup_seqZ_lt by lia. cbn. lia.
Qed.

(** Lists of bits that agree everywhere. *)
Lemma bits_ext (a b : list bool) n : length a = Z.to_nat n → length b = Z.to_nat n →
  (∀ k, 0 <= k < n → nth (Z.to_nat k) a false = nth (Z.to_nat k) b false) → a = b.
Proof.
  intros Ha Hb H. apply (nth_ext _ _ false false); [lia|]. intros k Hk. rewrite <- (Nat2Z.id k). apply H. lia.
Qed.

Lemma nth_map_seqZ (f : Z → bool) n k : 0 <= k < n → nth (Z.to_nat k) (map f (seqZ 0 n)) false = f k.
Proof.
  intros Hk. rewrite (nth_indep _ false (f 0)) by (rewrite length_map, length_seqZ; lia). rewrite (map_nth f). f_equal.
  rewrite nth_lookup, lookup_seqZ_lt by lia. cbn. lia.
Qed.

Lemma nth_bits_app n m x y k : 0 <= n → 0 <= k < n + m →
  nth (Z.to_nat k) (bits n x ++ bits m y) false = if decide (k < n) then Z.testbit x (n - 1 - k) else Z.testbit y (n + m - 1 - k).
Proof.
  intros Hn Hk. case_decide.
  - rewrite app_nth1 by (rewrite bits_length; lia). apply nth_bits. lia.
  - rewrite app_nth2 by (rewrite bits_length; lia). rewrite bits_length by lia. replace (Z.to_nat k - Z.to_nat n)%nat with (Z.to_nat (k - n)) by lia.
    rewrite nth_bits by lia. f_equal. lia.
Qed.

Lemma permute_length p b : length (permute p b) = length p.
Proof. apply length_map. Qed.

Lemma nth_permute p b k : (k < length p)%nat → nth k (permute p b) false = nth (Z.to_nat (nth k p 0 - 1)) b false.
Proof.
  intros Hk. unfold permute. rewrite (nth_indep _ false (nth (Z.to_nat (0 - 1)) b false)) by (by rewrite length_map).
  by rewrite (map_nth (λ k, nth (Z.to_nat (k - 1)) b false)).
Qed.

Lemma xor_length a b : length a = length b → length (xor a b) = length a.
Proof. intros H. unfold xor. rewrite length_zip_with. lia. Qed.

Lemma nth_xor a b k : length a = length b → nth k (xor a b) false = xorb (nth k a false) (nth k b false).
Proof.
  unfold xor. revert b k. induction a as [|x a IH]; intros [|y b] k H; try done; [by destruct k|]. destruct k as [|k]; cbn; [done|]. apply IH. by injection H.
Qed.

Lemma bits_xor n x y : bits n (Z.lxor x y) = xor (bits n x) (bits n y).
Proof.
  unfold bits, xor. induction (seqZ 0 n) as [|k l IH]; cbn [map zip_with]; [done|]. by rewrite Z.lxor_spec, IH.
Qed.

(** A number is its bits. *)
Lemma bits_inj n x y : 0 <= n → 0 <= x < 2 ^ n → 0 <= y < 2 ^ n → bits n x = bits n y → x = y.
Proof.
  intros Hn Hx Hy E. apply Z.bits_inj'. intros t Ht. destruct (decide (t < n)) as [Hlt|Hge].
  - pose proof (nth_bits n x (n - 1 - t) ltac:(lia)) as E1. pose proof (nth_bits n y (n - 1 - t) ltac:(lia)) as E2.
    rewrite E, E2 in E1. replace (n - 1 - (n - 1 - t)) with t in E1 by lia. done.
  - rewrite <- (Z.mod_small x (2 ^ n)), <- (Z.mod_small y (2 ^ n)) by lia. by rewrite !Z.mod_pow2_bits_high by lia.
Qed.

(** ** Loops and arrays *)

Lemma loop_snoc {A} n i (body : Z → A → option A) a : loop (S n) i body a = (a ← loop n i body a; body (i + Z.of_nat n) a).
Proof.
  revert i a. induction n as [|n IH]; intros i a; [cbn; rewrite Z.add_0_r; by destruct (body i a)|].
  change (loop (S (S n)) i body a) with (a ← body i a; loop (S n) (i + 1) body a). cbn [loop].
  destruct (body i a) as [b|]; cbn [mbind option_bind]; [|done]. fold (@loop A). specialize (IH (i + 1) b). cbn [loop] in IH. rewrite IH.
  replace (i + 1 + Z.of_nat n) with (i + Z.of_nat (S n)) by lia. done.
Qed.

Lemma array_lookup {A} n (f : Z → option A) a i : array n f = Some a → 0 <= i < n → a.[i] = f i.
Proof.
  intros Ha Hi. unfold array in Ha. apply mapM_Some_1 in Ha. destruct (Forall2_lookup_l _ _ _ (Z.to_nat i) i Ha) as (y & Hy & E).
  { rewrite lookup_seqZ_lt by lia. f_equal. lia. }
  rewrite <- (Z2Nat.id i) at 1 by lia. rewrite idx_nat, Hy, <- E. done.
Qed.

Lemma array_length {A} n (f : Z → option A) a : array n f = Some a → length a = Z.to_nat n.
Proof. intros Ha%mapM_Some_1%Forall2_length. rewrite length_seqZ in Ha. done. Qed.

Lemma array_total {A} n (f : Z → option A) : (∀ i, 0 <= i < n → is_Some (f i)) → ∃ a, array n f = Some a.
Proof.
  intros H. unfold array. destruct (mapM f (seqZ 0 n)) as [a|] eqn:E; [by exists a|]. exfalso. apply mapM_None_1 in E.
  apply Exists_exists in E as (i & Hi & E). apply elem_of_seqZ in Hi. destruct (H i ltac:(lia)) as [y Hy]. congruence.
Qed.

(** ** Permutations by masks *)

(** Bit [o] of a pair of halves. *)
Definition pbit (half : Z) (m : Z * Z) (o : Z) : bool := if decide (o < half) then Z.testbit (fst m) (half - 1 - o) else Z.testbit (snd m) (2 * half - 1 - o).
Definition pair_ok (half : Z) (m : Z * Z) : Prop := 0 <= fst m < 2 ^ half ∧ 0 <= snd m < 2 ^ half.

Lemma pair_bits half m : 0 <= half → bits half (fst m) ++ bits half (snd m) = map (pbit half m) (seqZ 0 (2 * half)).
Proof.
  intros Hh. apply (bits_ext _ _ (2 * half)); [rewrite length_app, !bits_length; lia|rewrite length_map, length_seqZ; lia|].
  intros k Hk. rewrite nth_map_seqZ, nth_bits_app by lia. unfold pbit. by replace (half + half - 1 - k) with (2 * half - 1 - k) by lia.
Qed.

Lemma lor_range h a b : 0 <= h → 0 <= a < 2 ^ h → 0 <= b < 2 ^ h → 0 <= Z.lor a b < 2 ^ h.
Proof.
  intros Hh Ha Hb. assert (0 <= Z.lor a b) as H0 by (apply Z.lor_nonneg; lia). split; [done|].
  destruct (decide (Z.lor a b = 0)) as [-> |Hne]; [apply Z.pow_pos_nonneg; lia|]. apply Z.log2_lt_pow2; [lia|]. rewrite Z.log2_lor by lia.
  assert (∀ c, 0 <= c < 2 ^ h → Z.log2 c < h ∨ c = 0) as Hc.
  { intros c Hc. destruct (decide (c = 0)) as [-> |]; [by right|left]. apply Z.log2_lt_pow2; lia. }
  pose proof (Z.log2_nonneg a). pose proof (Z.log2_nonneg b).
  destruct (Hc a Ha) as [?| ->], (Hc b Hb) as [?| ->]; change (Z.log2 0) with 0 in *; [lia..|]. by rewrite Z.lor_0_l in Hne.
Qed.

Lemma land_pow2 i t : 0 <= t → negb (Z.land i (2 ^ t) =? 0) = Z.testbit i t.
Proof.
  intros Ht. destruct (Z.testbit i t) eqn:E.
  - apply negb_true_iff, Z.eqb_neq. intros H. assert (Z.testbit (Z.land i (2 ^ t)) t = true) as H'; [|by rewrite H, Z.bits_0 in H'].
    by rewrite Z.land_spec, E, Z.pow2_bits_true by done.
  - apply negb_false_iff, Z.eqb_eq. apply Z.bits_inj'. intros s Hs. rewrite Z.land_spec, Z.pow2_bits_eqb, Z.bits_0 by done.
    destruct (Z.eqb_spec t s) as [<-|]; [by rewrite E|apply andb_false_r].
Qed.

Section masks.
Variables (perm bits_ : list Z) (n : nat) (stride half : Z).
Hypothesis Hn : (0 < n <= 8)%nat.
Hypothesis Hhalf : 0 < half <= 32.
Hypothesis Hbits : ∀ o, 0 <= o < half → bits_.[o] = Some (2 ^ (half - 1 - o)).

(** The entries of [perm] used by a row are places or 255. *)
Definition row_ok (k : Z) : Prop := ∀ j, 0 <= j < Z.of_nat n → ∃ p, perm.[stride * k + j] = Some p ∧ (0 <= p < 2 * half ∨ p = 255).

Lemma lor_pow2_range a t : 0 <= t < half → 0 <= a < 2 ^ half → 0 <= Z.lor a (2 ^ t) < 2 ^ half.
Proof.
  intros Ht Ha. assert (0 <= Z.lor a (2 ^ t)) as H0 by (apply Z.lor_nonneg; split; [lia|apply Z.pow_nonneg; lia]). split; [done|].
  destruct (decide (Z.lor a (2 ^ t) = 0)) as [-> |Hne]; [apply Z.pow_pos_nonneg; lia|]. apply Z.log2_lt_pow2; [lia|].
  rewrite Z.log2_lor by (try apply Z.pow_nonneg; lia). rewrite Z.log2_pow2 by lia.
  destruct (decide (a = 0)) as [-> |]; [cbn; lia|]. pose proof (proj1 (Z.log2_lt_pow2 a half ltac:(lia)) ltac:(lia)). lia.
Qed.

Lemma set_bit_spec p m : 0 <= p < 2 * half → pair_ok half m →
  ∃ m', set_bit half bits_ p m = Some m' ∧ pair_ok half m' ∧ ∀ o, 0 <= o < 2 * half → pbit half m' o = pbit half m o || (p =? o).
Proof.
  intros Hp [H1 H2]. unfold set_bit. destruct (Z.ltb_spec p half) as [Hlt|Hge].
  - rewrite Hbits by lia. eexists. split; [done|]. split; [split; [apply lor_pow2_range; lia|done]|]. intros o Ho. unfold pbit. cbn [fst snd].
    case_decide; [|rewrite (proj2 (Z.eqb_neq p o)), orb_false_r by lia; done]. rewrite Z.lor_spec. f_equal. rewrite Z.pow2_bits_eqb by lia.
    destruct (Z.eqb_spec p o); [apply Z.eqb_eq|apply Z.eqb_neq]; lia.
  - rewrite Hbits by lia. eexists. split; [done|]. split; [split; [done|apply lor_pow2_range; lia]|]. intros o Ho. unfold pbit. cbn [fst snd].
    case_decide; [rewrite (proj2 (Z.eqb_neq p o)), orb_false_r by lia; done|]. rewrite Z.lor_spec. f_equal. rewrite Z.pow2_bits_eqb by lia.
    destruct (Z.eqb_spec p o); [apply Z.eqb_eq|apply Z.eqb_neq]; lia.
Qed.

Lemma bits8_spec j : 0 <= j < 8 → bits8.[j] = Some (2 ^ (7 - j)).
Proof. intros Hj. apply (below (λ j, bits8.[j] = Some (2 ^ (7 - j))) 8); [vm_compute; reflexivity|done]. Qed.

(** The bits that one entry sets. *)
Definition row_bits (k i : Z) (c : nat) (o : Z) : bool :=
  existsb (λ j, Z.testbit i (Z.of_nat n - 1 - j) && bool_decide (perm.[stride * k + j] = Some o)) (seqZ 0 (Z.of_nat c)).

Lemma row_bits_S k i c o : row_bits k i (S c) o =
  row_bits k i c o || (Z.testbit i (Z.of_nat n - 1 - Z.of_nat c) && bool_decide (perm.[stride * k + Z.of_nat c] = Some o)).
Proof.
  unfold row_bits. replace (Z.of_nat (S c)) with (Z.of_nat c + 1) by lia. rewrite seqZ_app by lia. rewrite existsb_app. f_equal.
  rewrite seqZ_cons by lia. cbn. by rewrite orb_false_r.
Qed.

Lemma mask_entry_spec k i : row_ok k →
  ∃ m, mask_entry perm n stride half bits_ k i = Some m ∧ pair_ok half m ∧ ∀ o, 0 <= o < 2 * half → pbit half m o = row_bits k i n o.
Proof.
  intros Hrow. unfold mask_entry. assert (∀ c : nat, (c <= n)%nat → ∃ m,
    loop c 0 (λ j m,
      b ← bits8.[j + (8 - Z.of_nat n)];
      if negb (Z.land i b =? 0) then obit ← perm.[stride * k + j]; if obit =? 255 then Some m else set_bit half bits_ obit m else Some m) (0, 0) = Some m ∧
    pair_ok half m ∧ ∀ o, 0 <= o < 2 * half → pbit half m o = row_bits k i c o) as H; [|by apply H].
  induction c as [|c IH]; intros Hc.
  { exists (0, 0). split; [done|]. split; [split; cbn; (split; [done|apply Z.pow_pos_nonneg; lia])|]. intros o Ho. unfold pbit. cbn [fst snd].
    by case_decide; rewrite Z.bits_0. }
  destruct (IH ltac:(lia)) as (m & E & Hm & Hb). rewrite loop_snoc, E. cbn [mbind option_bind]. rewrite bits8_spec by lia. cbn [mbind option_bind].
  replace (7 - (0 + Z.of_nat c + (8 - Z.of_nat n))) with (Z.of_nat n - 1 - Z.of_nat c) by lia. rewrite land_pow2 by lia.
  destruct (Hrow (Z.of_nat c) ltac:(lia)) as (p & Ep & Hp). rewrite Z.add_0_l, Ep. cbn [mbind option_bind].
  destruct (Z.testbit i (Z.of_nat n - 1 - Z.of_nat c)) eqn:Et.
  - destruct (Z.eqb_spec p 255) as [-> |Hne].
    + exists m. split; [done|]. split; [done|]. intros o Ho. rewrite row_bits_S, Et, Ep, bool_decide_eq_false_2, orb_false_r by (intros [=]; lia). by apply Hb.
    + destruct (set_bit_spec p m ltac:(lia) Hm) as (m' & E' & Hm' & Hb'). exists m'. split; [done|]. split; [done|]. intros o Ho.
      rewrite Hb', Hb, row_bits_S, Et, Ep by done. f_equal. rewrite andb_true_l. destruct (Z.eqb_spec p o) as [-> |]; [by rewrite bool_decide_eq_true_2|].
      rewrite bool_decide_eq_false_2; [done|congruence].
  - exists m. split; [done|]. split; [done|]. intros o Ho. rewrite row_bits_S, Et, andb_false_l, orb_false_r. by apply Hb.
Qed.

(** A row of lookups. *)
Variable rows : Z.
Hypothesis Hrows : ∀ k, 0 <= k < rows → row_ok k.

Lemma masks_total : ∃ t, masks rows perm n stride half bits_ = Some t.
Proof.
  apply array_total. intros k Hk. destruct (array_total (2 ^ Z.of_nat n) (mask_entry perm n stride half bits_ k)) as [a Ha]; [|by exists a].
  intros i _. destruct (mask_entry_spec k i (Hrows k Hk)) as (m & E & _). by exists m.
Qed.

Lemma pbit_lor m e o : pbit half (Z.lor (fst m) (fst e), Z.lor (snd m) (snd e)) o = pbit half m o || pbit half e o.
Proof. unfold pbit. cbn [fst snd]. by case_decide; rewrite Z.lor_spec. Qed.

Lemma lookup_or_spec t xs k m : masks rows perm n stride half bits_ = Some t → 0 <= k → k + Z.of_nat (length xs) = rows →
  Forall (λ x, 0 <= x < 2 ^ Z.of_nat n) xs → pair_ok half m →
  ∃ m', lookup_or (drop (Z.to_nat k) t) xs m = Some m' ∧ pair_ok half m' ∧
    ∀ o, 0 <= o < 2 * half → pbit half m' o = pbit half m o || existsb (λ '(k, x), row_bits k x n o) (zip (seqZ k (Z.of_nat (length xs))) xs).
Proof.
  intros Ht Hk Hr Hxs. revert k m Hk Hr. induction Hxs as [|x xs Hx Hxs IH]; intros k m Hk Hr Hm.
  { exists m. split; [by destruct (drop _ t)|]. split; [done|]. intros o _. cbn. by rewrite orb_false_r. }
  cbn [length] in *. pose proof (array_length _ _ _ Ht) as Hlen.
  assert (∃ row, t !! Z.to_nat k = Some row) as [row Hrow] by (apply lookup_lt_is_Some; lia).
  pose proof (array_lookup _ _ _ k Ht ltac:(lia)) as Ea. rewrite <- (Z2Nat.id k) in Ea at 1 by lia. rewrite idx_nat, Hrow in Ea. symmetry in Ea.
  rewrite (drop_S _ _ _ Hrow). cbn [lookup_or]. rewrite (array_lookup _ _ _ x Ea) by lia.
  destruct (mask_entry_spec k x (Hrows k ltac:(lia))) as (e & Ee & He & Hb). rewrite Ee. cbn [mbind option_bind].
  assert (pair_ok half (Z.lor (fst m) (fst e), Z.lor (snd m) (snd e))) as Hm'.
  { destruct Hm, He. split; cbn [fst snd]; apply lor_range; lia. }
  destruct (IH (k + 1) _ ltac:(lia) ltac:(lia) Hm') as (m' & E' & Hok & Hb'). replace (Z.to_nat (k + 1)) with (S (Z.to_nat k)) in E' by lia.
  exists m'. split; [done|]. split; [done|]. intros o Ho. rewrite Hb', pbit_lor, Hb by done. rewrite <- orb_assoc. f_equal.
  replace (Z.of_nat (S (length xs))) with (1 + Z.of_nat (length xs)) by lia. rewrite (seqZ_app k) by lia. rewrite (seqZ_cons k 1) by lia. cbn [zip zip_with app existsb seqZ].
  done.
Qed.

End masks.

Lemma forallb_seqZ (f : Z → bool) n k : forallb f (seqZ 0 n) = true → 0 <= k < n → f k = true.
Proof. intros H Hk. rewrite forallb_forall in H. apply H. apply list_elem_of_In, elem_of_seqZ. lia. Qed.

(** [perm] sends input bit [P[o] - 1] to output bit [o], and the rest nowhere. *)
Definition inverts (perm : list Z) (n : nat) (stride half rows : Z) (P : list Z) : bool :=
  forallb (λ k, forallb (λ j,
    match perm.[stride * k + j] with
    | Some p => (p =? 255) || ((0 <=? p) && (p <? 2 * half) && (nth (Z.to_nat p) P 0 - 1 =? stride * k + j))
    | None => false
    end) (seqZ 0 (Z.of_nat n))) (seqZ 0 rows) &&
  forallb (λ o,
    let q := nth (Z.to_nat o) P 0 - 1 in
    (0 <=? q) && (q / stride <? rows) && (q mod stride <? Z.of_nat n) && match perm.[q] with Some p => p =? o | None => false end)
    (seqZ 0 (Z.of_nat (length P))).

Section permutation.
Variables (perm bits_ : list Z) (n : nat) (stride half rows : Z) (P : list Z).
Hypothesis Hn : (0 < n <= 8)%nat.
Hypothesis Hhalf : 0 < half <= 32.
Hypothesis Hbits : ∀ o, 0 <= o < half → bits_.[o] = Some (2 ^ (half - 1 - o)).
Hypothesis Hstride : 0 < stride.
Hypothesis HP : Z.of_nat (length P) <= 2 * half.
Hypothesis Hinv : inverts perm n stride half rows P = true.

Lemma inverts_rows k : 0 <= k < rows → row_ok perm n stride half k.
Proof.
  intros Hk j Hj. unfold inverts in Hinv. apply andb_true_iff in Hinv as [H _].
  apply (forallb_seqZ _ _ k) in H; [|done]. apply (forallb_seqZ _ _ j) in H; [cbn beta in H|done]. destruct (perm.[stride * k + j]) as [p|]; [|done]. exists p. split; [done|lia].
Qed.

Lemma inverts_places k j p : 0 <= k < rows → 0 <= j < Z.of_nat n → perm.[stride * k + j] = Some p → p < 2 * half → nth (Z.to_nat p) P 0 - 1 = stride * k + j.
Proof.
  intros Hk Hj E Hp. unfold inverts in Hinv. apply andb_true_iff in Hinv as [H _].
  apply (forallb_seqZ _ _ k) in H; [|done]. apply (forallb_seqZ _ _ j) in H; [cbn beta in H|done]. rewrite E in H. lia.
Qed.

Lemma inverts_source o : 0 <= o < Z.of_nat (length P) →
  ∃ k j, 0 <= k < rows ∧ 0 <= j < Z.of_nat n ∧ nth (Z.to_nat o) P 0 - 1 = stride * k + j ∧ perm.[stride * k + j] = Some o.
Proof.
  intros Ho. unfold inverts in Hinv. apply andb_true_iff in Hinv as [_ H].
  apply (forallb_seqZ _ _ o) in H; [cbn beta in H|done]. set (q := nth (Z.to_nat o) P 0 - 1) in *. cbn zeta in H.
  exists (q / stride), (q mod stride). pose proof (Z.div_mod q stride ltac:(lia)) as Hq. rewrite <- Hq.
  pose proof (Z.mod_pos_bound q stride Hstride). destruct (perm.[q]) as [p|]; [|by rewrite andb_false_r in H].
  rewrite !andb_true_iff in H. destruct H as [[[H1 H2] H3] H4]. split_and!; try lia; [apply Z.div_pos; lia|]. f_equal. lia.
Qed.

(** What the lookups compute, for inputs that carry the bits [b]. *)
Lemma lookup_permutes t xs b :
  masks rows perm n stride half bits_ = Some t → Z.of_nat (length xs) = rows → Forall (λ x, 0 <= x < 2 ^ Z.of_nat n) xs →
  (∀ k j, 0 <= k < rows → 0 <= j < Z.of_nat n → Z.testbit (nth (Z.to_nat k) xs 0) (Z.of_nat n - 1 - j) = nth (Z.to_nat (stride * k + j)) b false) →
  ∃ m, lookup_or t xs (0, 0) = Some m ∧ pair_ok half m ∧
    ∀ o, 0 <= o < Z.of_nat (length P) → pbit half m o = nth (Z.to_nat (nth (Z.to_nat o) P 0 - 1)) b false.
Proof.
  intros Ht Hlen Hxs Hsrc.
  destruct (lookup_or_spec perm bits_ n stride half Hn Hhalf Hbits rows inverts_rows t xs 0 (0, 0) Ht) as (m & E & Hok & Hb); [lia|lia|done| |].
  { split; cbn; (split; [done|apply Z.pow_pos_nonneg; lia]). }
  exists m. split; [exact E|]. split; [done|]. intros o Ho. rewrite Hb by lia. unfold pbit at 1. cbn [fst snd].
  assert ((if decide (o < half) then Z.testbit 0 (half - 1 - o) else Z.testbit 0 (2 * half - 1 - o)) = false) as -> by (case_decide; apply Z.bits_0).
  rewrite orb_false_l. destruct (inverts_source o Ho) as (k & j & Hk & Hj & Hq & Hpo). rewrite Hq. rewrite <- Hsrc by done.
  apply eq_true_iff_eq. rewrite existsb_exists. split.
  - intros ([k' x] & Hin & Hrow). apply list_elem_of_In, list_elem_of_lookup in Hin as [i Hi]. apply lookup_zip_with_Some in Hi as (? & ? & [= <- <-] & Hk' & Hx).
    apply lookup_seqZ in Hk' as [-> Hi]. unfold row_bits in Hrow. apply existsb_exists in Hrow as (j' & Hj' & Hand).
    apply list_elem_of_In, elem_of_seqZ in Hj'. apply andb_true_iff in Hand as [Hbit Hd]. apply bool_decide_eq_true in Hd.
    pose proof (inverts_places (0 + Z.of_nat i) j' o ltac:(lia) ltac:(lia) Hd ltac:(lia)) as Hq'.
    assert (nth (Z.to_nat (0 + Z.of_nat i)) xs 0 = x) as Ex by (rewrite nth_lookup; replace (Z.to_nat (0 + Z.of_nat i)) with i by lia; by rewrite Hx).
    rewrite Hsrc by done. rewrite <- Hq, Hq', <- Hsrc by lia. by rewrite Ex.
  - intros Hbit. assert (∃ x, xs !! Z.to_nat k = Some x) as [x Hx] by (apply lookup_lt_is_Some; lia). exists (k, x). split.
    + apply list_elem_of_In, list_elem_of_lookup. exists (Z.to_nat k). apply lookup_zip_with_Some. exists k, x. split; [done|]. split; [|done].
      rewrite lookup_seqZ_lt by lia. f_equal. lia.
    + unfold row_bits. apply existsb_exists. exists j. split; [apply list_elem_of_In, elem_of_seqZ; lia|].
      rewrite nth_lookup, Hx in Hbit. cbn in Hbit. rewrite Hbit, bool_decide_eq_true_2 by done. done.
Qed.
End permutation.

(** ** The tables *)

(** A table of masks computes the permutation [P] of the bits [b] its inputs carry. *)
Definition carries (n : nat) (stride : Z) (xs : list Z) (b : list bool) : Prop :=
  Forall (λ x, 0 <= x < 2 ^ Z.of_nat n) xs ∧
  ∀ k j, 0 <= k < Z.of_nat (length xs) → 0 <= j < Z.of_nat n → Z.testbit (nth (Z.to_nat k) xs 0) (Z.of_nat n - 1 - j) = nth (Z.to_nat (stride * k + j)) b false.
Definition computes (t : list (list (Z * Z))) (n : nat) (stride half rows : Z) (P : list Z) : Prop :=
  ∀ xs b, Z.of_nat (length xs) = rows → carries n stride xs b →
    ∃ m, lookup_or t xs (0, 0) = Some m ∧ pair_ok half m ∧
      ∀ o, 0 <= o < Z.of_nat (length P) → pbit half m o = nth (Z.to_nat (nth (Z.to_nat o) P 0 - 1)) b false.

Lemma masks_compute perm bits_ n stride half rows P :
  (0 < n <= 8)%nat → 0 < half <= 32 → (∀ o, 0 <= o < half → bits_.[o] = Some (2 ^ (half - 1 - o))) → 0 < stride → Z.of_nat (length P) <= 2 * half →
  inverts perm n stride half rows P = true → ∃ t, masks rows perm n stride half bits_ = Some t ∧ computes t n stride half rows P.
Proof.
  intros Hn Hh Hb Hs HP Hi. destruct (masks_total perm bits_ n stride half Hn Hh Hb rows) as [t Ht].
  { intros k Hk. by eapply inverts_rows. }
  exists t. split; [done|]. intros xs b Hlen [Hxs Hsrc]. rewrite <- Hlen in *. by eapply lookup_permutes.
Qed.

(** When the outputs fill both halves, the result is a list of bits. *)
Lemma pbit_permute half m P b : 0 <= half → Z.of_nat (length P) = 2 * half →
  (∀ o, 0 <= o < Z.of_nat (length P) → pbit half m o = nth (Z.to_nat (nth (Z.to_nat o) P 0 - 1)) b false) →
  bits half (fst m) ++ bits half (snd m) = permute P b.
Proof.
  intros Hh HP H. rewrite pair_bits by done. apply (bits_ext _ _ (2 * half)); [by rewrite length_map, length_seqZ|rewrite permute_length; lia|].
  intros k Hk. rewrite nth_map_seqZ, nth_permute by lia. apply H. lia.
Qed.

Lemma bits32_spec o : 0 <= o < 32 → bits32.[o] = Some (2 ^ (32 - 1 - o)).
Proof. intros Ho. apply (below (λ o, bits32.[o] = Some (2 ^ (32 - 1 - o))) 32); [vm_compute; reflexivity|done]. Qed.
Lemma bits28_spec o : 0 <= o < 28 → bits28.[o] = Some (2 ^ (28 - 1 - o)).
Proof. intros Ho. apply (below (λ o, bits28.[o] = Some (2 ^ (28 - 1 - o))) 28); [vm_compute; reflexivity|done]. Qed.
Lemma bits24_spec o : 0 <= o < 24 → bits24.[o] = Some (2 ^ (24 - 1 - o)).
Proof. intros Ho. apply (below (λ o, bits24.[o] = Some (2 ^ (24 - 1 - o))) 24); [vm_compute; reflexivity|done]. Qed.

(** The reordered S-boxes give the value of the reference. *)
Definition u_sbox_check (u : list (list Z)) : bool :=
  forallb (λ i, forallb (λ v,
    match (row ← u.[i]; row.[v]) with
    | Some s => (0 <=? s) && (s <? 16) && bool_decide (bits 4 s = S_box (Z.to_nat i) (bits 6 v))
    | None => false
    end) (seqZ 0 64)) (seqZ 0 8).

Lemma u_sbox_spec : ∃ u, u_sbox = Some u ∧
  ∀ i v, 0 <= i < 8 → 0 <= v < 64 → ∃ row s, u.[i] = Some row ∧ row.[v] = Some s ∧ 0 <= s < 16 ∧ bits 4 s = S_box (Z.to_nat i) (bits 6 v).
Proof.
  assert (match u_sbox with Some u => u_sbox_check u | None => false end = true) as H by (vm_compute; reflexivity).
  destruct u_sbox as [u|]; [|done]. exists u. split; [done|]. intros i v Hi Hv. unfold u_sbox_check in H.
  apply (forallb_seqZ _ _ i) in H; [cbn beta in H|done]. apply (forallb_seqZ _ _ v) in H; [cbn beta in H|done].
  destruct (u.[i]) as [row|]; [|done]. cbn [mbind option_bind] in H. destruct (row.[v]) as [s|] eqn:Es; [|done]. exists row, s.
  rewrite !andb_true_iff, bool_decide_eq_true, Z.leb_le, Z.ltb_lt in H. destruct H as [[? ?] ?]. split_and!; done.
Qed.

(** An entry of [m_sbox]: the values of two boxes. *)
Definition sbox_pair (m : list (list Z)) : Prop :=
  ∀ b x, 0 <= b < 4 → 0 <= x < 4096 → ∃ row hi lo, m.[b] = Some row ∧ row.[x] = Some (16 * hi + lo) ∧ 0 <= hi < 16 ∧ 0 <= lo < 16 ∧
    bits 4 hi = S_box (Z.to_nat (2 * b)) (bits 6 (x / 64)) ∧ bits 4 lo = S_box (Z.to_nat (2 * b + 1)) (bits 6 (x mod 64)).

Lemma fill_m_sbox_spec : ∃ u m, u_sbox = Some u ∧ fill_m_sbox u = Some m ∧ sbox_pair m.
Proof.
  destruct u_sbox_spec as (u & Eu & Hu). exists u.
  assert (∀ b x, 0 <= b < 4 → 0 <= x < 4096 → ∃ hi lo,
    (let i := Z.shiftr x 6 in let j := Z.land x 63 in
     hi ← u.[Z.shiftl b 1]; hi ← hi.[i]; lo ← u.[Z.shiftl b 1 + 1]; lo ← lo.[j]; Some (u8 (Z.lor (Z.shiftl hi 4) lo))) = Some (16 * hi + lo) ∧
    0 <= hi < 16 ∧ 0 <= lo < 16 ∧ bits 4 hi = S_box (Z.to_nat (2 * b)) (bits 6 (x / 64)) ∧ bits 4 lo = S_box (Z.to_nat (2 * b + 1)) (bits 6 (x mod 64))) as H.
  { intros b x Hb Hx. cbn zeta. rewrite Z.shiftr_div_pow2, Z.shiftl_mul_pow2 by lia. change 63 with (Z.ones 6). rewrite Z.land_ones by lia.
    change (2 ^ 6) with 64. change (2 ^ 1) with 2. rewrite (Z.mul_comm b 2).
    destruct (Hu (2 * b) (x / 64)) as (r1 & hi & E1 & E2 & Hh & B1); [lia|Z.to_euclidean_division_equations; lia|].
    destruct (Hu (2 * b + 1) (x mod 64)) as (r2 & lo & E3 & E4 & Hl & B2); [lia|apply Z.mod_pos_bound; lia|].
    exists hi, lo. rewrite E1. cbn [mbind option_bind]. rewrite E2. cbn [mbind option_bind]. rewrite E3. cbn [mbind option_bind]. rewrite E4. cbn [mbind option_bind].
    rewrite Z.shiftl_mul_pow2, lor_mul by lia. rewrite u8_small by (unfold is_u8; lia). split; [f_equal; lia|done]. }
  destruct (array_total 4 (λ b, array 4096 (λ x,
    let i := Z.shiftr x 6 in let j := Z.land x 63 in
    hi ← u.[Z.shiftl b 1]; hi ← hi.[i]; lo ← u.[Z.shiftl b 1 + 1]; lo ← lo.[j]; Some (u8 (Z.lor (Z.shiftl hi 4) lo))))) as [m Em].
  { intros b Hb. apply array_total. intros x Hx. destruct (H b x Hb Hx) as (hi & lo & E & _). rewrite E. by eexists. }
  exists m. split; [done|]. split; [exact Em|]. intros b x Hb Hx. destruct (H b x Hb Hx) as (hi & lo & E & Hr).
  pose proof (array_lookup _ _ _ b Em Hb) as Eb. cbn beta in Eb. destruct (m.[b]) as [row|] eqn:Erow.
  - exists row, hi, lo. split; [done|]. split; [|done]. symmetry in Eb. rewrite (array_lookup _ _ _ x Eb Hx). exact E.
  - exfalso. pose proof (array_length _ _ _ Em) as Hlen. unfold idx in Erow. rewrite (proj2 (Z.ltb_ge b 0)) in Erow by lia. apply lookup_ge_None in Erow. lia.
Qed.

Record tables_ok (t : des_tables) : Prop := {
  ok_sbox : sbox_pair (m_sbox t);
  ok_psbox : computes (psbox t) 8 8 32 4 pbox;
  ok_ip : computes (ip_mask t) 8 8 32 8 IP;
  ok_fp : computes (fp_mask t) 8 8 32 8 FP;
  ok_key : computes (key_perm_mask t) 7 8 28 8 key_perm;
  ok_comp : computes (comp_mask t) 7 7 24 8 comp_perm
}.

(** [des_init] makes tables that compute the permutations and boxes of the standard. *)
Lemma fill_tables_spec : ∃ t, fill_tables = Some t ∧ tables_ok t.
Proof.
  destruct fill_m_sbox_spec as (u & m & Eu & Em & Hm). unfold fill_tables. rewrite Eu. cbn [mbind option_bind]. rewrite Em. cbn [mbind option_bind].
  assert (match fill_perms with Some (i, f) => inverts i 8 8 32 8 IP && inverts f 8 8 32 8 FP | None => false end = true) as Hp by (vm_compute; reflexivity).
  destruct fill_perms as [[ip fp]|]; [|done]. apply andb_true_iff in Hp as [Hip Hfp]. cbn [mbind option_bind fst snd].
  assert (match inv_key_perm with Some p => inverts p 7 8 28 8 key_perm | None => false end = true) as Hk by (vm_compute; reflexivity).
  destruct inv_key_perm as [ik|]; [|done]. cbn [mbind option_bind].
  assert (match inv_comp_perm with Some p => inverts p 7 7 24 8 comp_perm | None => false end = true) as Hc by (vm_compute; reflexivity).
  destruct inv_comp_perm as [ic|]; [|done]. cbn [mbind option_bind].
  assert (match un_pbox with Some p => inverts p 8 8 32 4 pbox | None => false end = true) as Hu by (vm_compute; reflexivity).
  destruct un_pbox as [up|]; [|done].
  destruct (masks_compute ip bits32 8 8 32 8 IP) as (t1 & E1 & C1); [lia|lia|exact bits32_spec|lia|cbn; lia|done|].
  destruct (masks_compute fp bits32 8 8 32 8 FP) as (t2 & E2 & C2); [lia|lia|exact bits32_spec|lia|cbn; lia|done|].
  destruct (masks_compute ik bits28 7 8 28 8 key_perm) as (t3 & E3 & C3); [lia|lia|exact bits28_spec|lia|cbn; lia|done|].
  destruct (masks_compute ic bits24 7 7 24 8 comp_perm) as (t4 & E4 & C4); [lia|lia|exact bits24_spec|lia|cbn; lia|done|].
  destruct (masks_compute up bits32 8 8 32 4 pbox) as (t5 & E5 & C5); [lia|lia|exact bits32_spec|lia|cbn; lia|done|].
  rewrite E1, E2, E3, E4. cbn [mbind option_bind]. rewrite E5. cbn [mbind option_bind]. eexists. split; [done|]. by constructor.
Qed.

(** ** The E box *)

Lemma piece_right r c s n : 0 <= n → Z.testbit (Z.shiftr (Z.land r c) s) n = Z.testbit r (n + s) && Z.testbit c (n + s).
Proof. intros Hn. by rewrite Z.shiftr_spec, Z.land_spec. Qed.
Lemma piece_left r c s n : 0 <= n < 32 → Z.testbit (u32 (Z.shiftl (Z.land r c) s)) n = Z.testbit r (n - s) && Z.testbit c (n - s).
Proof. intros Hn. unfold u32. change 4294967296 with (2 ^ 32). by rewrite Z.mod_pow2_bits_low, Z.shiftl_spec, Z.land_spec by lia. Qed.

(** Evaluate the tests on constants that [piece_right] and [piece_left] leave. *)
Ltac pieces :=
  rewrite !Z.lor_spec, ?piece_right, ?piece_left by lia;
  repeat match goal with
  | |- context [Z.testbit (Zpos ?c) ?n] => let v := eval vm_compute in (Z.testbit (Zpos c) n) in change (Z.testbit (Zpos c) n) with v
  end;
  rewrite ?andb_true_r, ?andb_false_r, ?orb_false_r, ?orb_false_l; reflexivity.

Lemma seqZ_24 : seqZ 0 24 = [0; 1; 2; 3; 4; 5; 6; 7; 8; 9; 10; 11; 12; 13; 14; 15; 16; 17; 18; 19; 20; 21; 22; 23].
Proof. reflexivity. Qed.

Lemma expand_l_bits r k : 0 <= k < 24 → Z.testbit (expand_l r) (24 - 1 - k) = Z.testbit r (32 - nth (Z.to_nat k) E 0).
Proof.
  intros Hk. pose proof (proj2 (elem_of_seqZ 0 24 k) Hk) as Hin. rewrite seqZ_24 in Hin.
  unfold expand_l. repeat (apply elem_of_cons in Hin as [-> |Hin]; [pieces|]). by apply elem_of_nil in Hin.
Qed.
Lemma expand_r_bits r k : 0 <= k < 24 → Z.testbit (expand_r r) (24 - 1 - k) = Z.testbit r (32 - nth (Z.to_nat (24 + k)) E 0).
Proof.
  intros Hk. pose proof (proj2 (elem_of_seqZ 0 24 k) Hk) as Hin. rewrite seqZ_24 in Hin.
  unfold expand_r. repeat (apply elem_of_cons in Hin as [-> |Hin]; [pieces|]). by apply elem_of_nil in Hin.
Qed.

Lemma land_bound r c : 0 <= c → 0 <= Z.land r c <= c.
Proof.
  intros Hc. apply Z.ldiff_le; [done|]. apply Z.bits_inj'. intros n Hn. rewrite Z.ldiff_spec, Z.land_spec, Z.bits_0. by destruct (Z.testbit r n), (Z.testbit c n).
Qed.
Lemma piece_right_range r c s : 0 <= s → 0 <= c → 0 <= Z.shiftr (Z.land r c) s <= Z.shiftr c s.
Proof.
  intros Hs Hc. pose proof (land_bound r c Hc). rewrite !Z.shiftr_div_pow2 by done. pose proof (Z.pow_pos_nonneg 2 s).
  split; [apply Z.div_pos; lia|apply Z.div_le_mono; lia].
Qed.
Lemma piece_left_range r c s : 0 <= s → 0 <= c → Z.shiftl c s < 2 ^ 32 → 0 <= u32 (Z.shiftl (Z.land r c) s) <= Z.shiftl c s.
Proof.
  intros Hs Hc Hr. pose proof (land_bound r c Hc). rewrite !Z.shiftl_mul_pow2 in * by done. pose proof (Z.pow_pos_nonneg 2 s).
  unfold u32. rewrite Z.mod_small by nia. nia.
Qed.

Lemma expand_l_range r : 0 <= expand_l r < 2 ^ 24.
Proof.
  unfold expand_l. repeat (apply (lor_range 24); [lia|..]); change (2 ^ 24) with 16777216.
  - pose proof (piece_left_range r 1 23 ltac:(lia) ltac:(lia) ltac:(reflexivity)) as H. change (Z.shiftl 1 23) with 8388608 in H. lia.
  - pose proof (piece_right_range r 0xf8000000 9 ltac:(lia) ltac:(lia)) as H. change (Z.shiftr 0xf8000000 9) with 8126464 in H. lia.
  - pose proof (piece_right_range r 0x1f800000 11 ltac:(lia) ltac:(lia)) as H. change (Z.shiftr 0x1f800000 11) with 258048 in H. lia.
  - pose proof (piece_right_range r 0x01f80000 13 ltac:(lia) ltac:(lia)) as H. change (Z.shiftr 0x01f80000 13) with 4032 in H. lia.
  - pose proof (piece_right_range r 0x001f8000 15 ltac:(lia) ltac:(lia)) as H. change (Z.shiftr 0x001f8000 15) with 63 in H. lia.
Qed.
Lemma expand_r_range r : 0 <= expand_r r < 2 ^ 24.
Proof.
  unfold expand_r. repeat (apply (lor_range 24); [lia|..]); change (2 ^ 24) with 16777216.
  - pose proof (piece_left_range r 0x1f800 7 ltac:(lia) ltac:(lia) ltac:(reflexivity)) as H. change (Z.shiftl 0x1f800 7) with 16515072 in H. lia.
  - pose proof (piece_left_range r 0x1f80 5 ltac:(lia) ltac:(lia) ltac:(reflexivity)) as H. change (Z.shiftl 0x1f80 5) with 258048 in H. lia.
  - pose proof (piece_left_range r 0x1f8 3 ltac:(lia) ltac:(lia) ltac:(reflexivity)) as H. change (Z.shiftl 0x1f8 3) with 4032 in H. lia.
  - pose proof (piece_left_range r 0x1f 1 ltac:(lia) ltac:(lia) ltac:(reflexivity)) as H. change (Z.shiftl 0x1f 1) with 62 in H. lia.
  - pose proof (piece_right_range r 0x80000000 31 ltac:(lia) ltac:(lia)) as H. change (Z.shiftr 0x80000000 31) with 1 in H. lia.
Qed.

(** The E box of the code is that of the standard. *)
Lemma expand_spec r : bits 24 (expand_l r) ++ bits 24 (expand_r r) = permute E (bits 32 r).
Proof.
  apply (bits_ext _ _ 48); [by rewrite length_app, !bits_length|by rewrite permute_length|]. intros k Hk.
  rewrite nth_bits_app by lia. rewrite nth_permute by (change (length E) with 48%nat; lia).
  assert (0 <= nth (Z.to_nat k) E 0 - 1 < 32) as HE.
  { apply (below (λ k, 0 <= nth (Z.to_nat k) E 0 - 1 < 32) 48); [vm_compute; reflexivity|done]. }
  rewrite nth_bits by done. case_decide.
  - rewrite expand_l_bits by lia. f_equal. lia.
  - replace (24 + 24 - 1 - k) with (24 - 1 - (k - 24)) by lia. rewrite expand_r_bits by lia. replace (24 + (k - 24)) with k by lia. f_equal. lia.
Qed.

(** ** The function f *)

Lemma bits_split a b x : 0 <= a → 0 <= b → bits (a + b) x = bits a (Z.shiftr x b) ++ bits b (x mod 2 ^ b).
Proof.
  intros Ha Hb. apply (bits_ext _ _ (a + b)); [rewrite bits_length; lia|rewrite length_app, !bits_length; lia|]. intros k Hk.
  rewrite nth_bits, nth_bits_app by lia. case_decide; [rewrite Z.shiftr_spec by lia|rewrite Z.mod_pow2_bits_low by lia]; f_equal; lia.
Qed.

Lemma bits_mod n x m : 0 <= n <= m → bits n (x mod 2 ^ m) = bits n x.
Proof.
  intros H. apply (bits_ext _ _ n); [rewrite bits_length; lia..|]. intros k Hk. rewrite !nth_bits by lia. apply Z.mod_pow2_bits_low. lia.
Qed.

Lemma bits_hi_lo hi lo : 0 <= lo < 16 → bits 8 (16 * hi + lo) = bits 4 hi ++ bits 4 lo.
Proof.
  intros Hl. change 8 with (4 + 4). rewrite bits_split, Z.shiftr_div_pow2 by lia. change (2 ^ 4) with 16. f_equal; f_equal; Z.to_euclidean_division_equations; lia.
Qed.

(** Where the inputs are the parts of a list of bits, in order. *)
Lemma bytes_bits_length ys : length (bytes_bits ys) = (8 * length ys)%nat.
Proof. induction ys as [|y ys IH]; [done|]. cbn. rewrite length_app. fold (bytes_bits ys). rewrite IH, bits_length by lia. cbn. lia. Qed.

Lemma nth_bytes_bits ys k j : 0 <= k < Z.of_nat (length ys) → 0 <= j < 8 → nth (Z.to_nat (8 * k + j)) (bytes_bits ys) false = Z.testbit (nth (Z.to_nat k) ys 0) (8 - 1 - j).
Proof.
  revert k. induction ys as [|y ys IH]; intros k Hk Hj; [cbn in Hk; lia|]. change (bytes_bits (y :: ys)) with (bits 8 y ++ bytes_bits ys).
  destruct (decide (k = 0)) as [-> |Hne].
  - rewrite app_nth1 by (rewrite bits_length; lia). rewrite Z.add_0_l, nth_bits by lia. done.
  - cbn [length] in Hk. rewrite app_nth2, bits_length by (rewrite ?bits_length; lia). replace (Z.to_nat (8 * k + j) - Z.to_nat 8)%nat with (Z.to_nat (8 * (k - 1) + j)) by lia.
    rewrite IH by lia. replace (Z.to_nat k) with (S (Z.to_nat (k - 1))) by lia. done.
Qed.

Lemma carries_bytes ys : Forall (λ y, 0 <= y < 256) ys → carries 8 8 ys (bytes_bits ys).
Proof. intros H. split; [done|]. intros k j Hk Hj. symmetry. apply nth_bytes_bits; lia. Qed.

Lemma S_boxes_app i n b b' : length b = 6%nat → S_boxes i (S n) (b ++ b') = S_box i b ++ S_boxes (S i) n b'.
Proof. intros H. cbn [S_boxes]. by rewrite <- H, take_app_length, drop_app_length. Qed.

Lemma bits_24 x : bits 24 x = bits 6 (Z.shiftr x 12 / 64) ++ bits 6 (Z.shiftr x 12 mod 64) ++ bits 6 (Z.land x 0xfff / 64) ++ bits 6 (Z.land x 0xfff mod 64).
Proof.
  change 0xfff with (Z.ones 12). rewrite Z.land_ones by lia. change 24 with (12 + 12). rewrite bits_split by lia.
  assert (∀ z, bits 12 z = bits 6 (z / 64) ++ bits 6 (z mod 64)) as H.
  { intros z. change 12 with (6 + 6). by rewrite bits_split, Z.shiftr_div_pow2 by lia. }
  by rewrite !H, <- app_assoc.
Qed.

(** [saltbits] holds the 24 bits of the salt in the opposite order. *)
Definition salt_ok (sb salt : Z) : Prop := 0 <= sb < 2 ^ 24 ∧ ∀ i, 0 <= i < 24 → Z.testbit sb (24 - 1 - i) = Z.testbit salt i.
Definition key_rel (k : Z * Z) (b : list bool) : Prop := pair_ok 24 k ∧ b = bits 24 (fst k) ++ bits 24 (snd k).

Lemma lxor_range h a b : 0 <= h → 0 <= a < 2 ^ h → 0 <= b < 2 ^ h → 0 <= Z.lxor a b < 2 ^ h.
Proof.
  intros Hh Ha Hb. assert (0 <= Z.lxor a b) as H0 by (apply Z.lxor_nonneg; lia). split; [done|].
  destruct (decide (Z.lxor a b = 0)) as [-> |Hne]; [apply Z.pow_pos_nonneg; lia|]. apply Z.log2_lt_pow2; [lia|].
  pose proof (Z.log2_lxor a b ltac:(lia) ltac:(lia)) as Hl.
  assert (0 < h) as Hpos.
  { destruct (decide (h = 0)) as [-> |]; [|lia]. change (2 ^ 0) with 1 in *. replace a with 0 in Hne by lia. replace b with 0 in Hne by lia. done. }
  assert (∀ c, 0 <= c < 2 ^ h → Z.log2 c < h) as Hc.
  { intros c Hc. destruct (decide (c = 0)) as [-> |]; [done|]. apply Z.log2_lt_pow2; lia. }
  specialize (Hc a Ha) as Hla. specialize (Hc b Hb) as Hlb. lia.
Qed.

(** Both halves after the salt has exchanged bits of the expansion. *)
Lemma salted_spec sb salt l r : salt_ok sb salt →
  bits 24 (Z.lxor l (Z.land (Z.lxor l r) sb)) ++ bits 24 (Z.lxor r (Z.land (Z.lxor l r) sb)) = salted salt (bits 24 l ++ bits 24 r).
Proof.
  intros [_ Hs]. apply (bits_ext _ _ 48); [by rewrite length_app, !bits_length|unfold salted; by rewrite length_map, length_seqZ|].
  intros k Hk. unfold salted. rewrite nth_bits_app by lia. rewrite (nth_map_seqZ _ 48) by lia. rewrite !nth_bits_app by (first [lia|apply Z.mod_pos_bound; lia]).
  assert (Z.testbit salt (k mod 24) = Z.testbit sb (24 - 1 - k mod 24)) as -> by (rewrite Hs; [done|apply Z.mod_pos_bound; lia]).
  destruct (decide (k < 24)) as [Hlt|Hge].
  - rewrite (Z.mod_small k) by lia. rewrite (Z.mod_small (k + 24)) by lia. rewrite decide_False by lia. replace (24 + 24 - 1 - (k + 24)) with (24 - 1 - k) by lia.
    rewrite !Z.lxor_spec, Z.land_spec, Z.lxor_spec. by destruct (Z.testbit l _), (Z.testbit r _), (Z.testbit sb _).
  - replace (k mod 24) with (k - 24) by (Z.to_euclidean_division_equations; lia). replace ((k + 24) mod 48) with (k - 24) by (Z.to_euclidean_division_equations; lia).
    rewrite decide_True by lia. replace (24 + 24 - 1 - k) with (24 - 1 - (k - 24)) by lia.
    rewrite !Z.lxor_spec, Z.land_spec, Z.lxor_spec. by destruct (Z.testbit l _), (Z.testbit r _), (Z.testbit sb _).
Qed.

Lemma xor_app a b c d : length a = length c → xor (a ++ b) (c ++ d) = xor a c ++ xor b d.
Proof. intros H. unfold xor. by apply zip_with_app. Qed.
Lemma xor_comm a b : xor a b = xor b a.
Proof. unfold xor. revert b. induction a as [|x a IH]; intros [|y b]; cbn; try done. by rewrite IH, xorb_comm. Qed.

Section engine.
Variable t : des_tables.
Hypothesis Ht : tables_ok t.

Lemma sbox_out_spec x y : 0 <= x < 2 ^ 24 → 0 <= y < 2 ^ 24 →
  ∃ f, sbox_out t x y = Some f ∧ 0 <= f < 2 ^ 32 ∧ bits 32 f = permute pbox (S_boxes 0 8 (bits 24 x ++ bits 24 y)).
Proof.
  intros Hx Hy. change (2 ^ 24) with 16777216 in *. unfold sbox_out. pose proof (land_bound x 0xfff). pose proof (land_bound y 0xfff).
  assert (0 <= Z.shiftr x 12 < 4096) by (rewrite Z.shiftr_div_pow2 by lia; change (2 ^ 12) with 4096; Z.to_euclidean_division_equations; lia).
  assert (0 <= Z.shiftr y 12 < 4096) by (rewrite Z.shiftr_div_pow2 by lia; change (2 ^ 12) with 4096; Z.to_euclidean_division_equations; lia).
  destruct (ok_sbox t Ht 0 (Z.shiftr x 12)) as (r0 & h0 & l0 & E0 & F0 & Hh0 & Hl0 & B0 & C0); [lia|lia|].
  destruct (ok_sbox t Ht 1 (Z.land x 0xfff)) as (r1 & h1 & l1 & E1 & F1 & Hh1 & Hl1 & B1 & C1); [lia|lia|].
  destruct (ok_sbox t Ht 2 (Z.shiftr y 12)) as (r2 & h2 & l2 & E2 & F2 & Hh2 & Hl2 & B2 & C2); [lia|lia|].
  destruct (ok_sbox t Ht 3 (Z.land y 0xfff)) as (r3 & h3 & l3 & E3 & F3 & Hh3 & Hl3 & B3 & C3); [lia|lia|].
  rewrite E0; cbn [mbind option_bind]; rewrite F0; cbn [mbind option_bind]; rewrite E1; cbn [mbind option_bind]; rewrite F1; cbn [mbind option_bind].
  rewrite E2; cbn [mbind option_bind]; rewrite F2; cbn [mbind option_bind]; rewrite E3; cbn [mbind option_bind]; rewrite F3; cbn [mbind option_bind].
  set (ys := [16 * h0 + l0; 16 * h1 + l1; 16 * h2 + l2; 16 * h3 + l3]).
  destruct (ok_psbox t Ht ys (bytes_bits ys)) as (m & Em & [Hm _] & Hb); [done|apply carries_bytes; repeat constructor; lia|].
  rewrite Em. cbn [mbind option_bind]. exists (fst m). split; [done|]. split; [done|].
  assert (bytes_bits ys = S_boxes 0 8 (bits 24 x ++ bits 24 y)) as <-.
  { subst ys. rewrite (bits_24 x), (bits_24 y), <- !app_assoc. rewrite !S_boxes_app by (by rewrite bits_length). rewrite <- (app_nil_r (bits 6 (Z.land y 4095 mod 64))).
    rewrite S_boxes_app by (by rewrite bits_length). cbn [S_boxes]. 
    rewrite <- (B0 : _ = S_box 0 _), <- (B1 : _ = S_box 2 _), <- (B2 : _ = S_box 4 _), <- (B3 : _ = S_box 6 _).
    rewrite <- (C0 : _ = S_box 1 _), <- (C1 : _ = S_box 3 _), <- (C2 : _ = S_box 5 _), <- (C3 : _ = S_box 7 _).
    unfold bytes_bits. cbn [map concat]. rewrite !bits_hi_lo by done. by rewrite <- !app_assoc. }
  apply (bits_ext _ _ 32); [by rewrite bits_length|by rewrite permute_length|]. intros k Hk. rewrite nth_bits, nth_permute by (try (change (length pbox) with 32%nat); lia).
  rewrite <- (Hb k) by (change (length pbox) with 32%nat; lia). unfold pbit. by rewrite decide_True by lia.
Qed.

Variables sb salt : Z.
Hypothesis Hs : salt_ok sb salt.

Lemma des_f_spec r k kb : key_rel k kb → ∃ f, des_f t sb r k = Some f ∧ 0 <= f < 2 ^ 32 ∧ bits 32 f = ref_f salt (bits 32 r) kb.
Proof.
  intros [[Hk1 Hk2] ->]. unfold des_f. pose proof (expand_l_range r) as Hl. pose proof (expand_r_range r) as Hr.
  set (f := Z.land (Z.lxor (expand_l r) (expand_r r)) sb).
  assert (0 <= f < 2 ^ 24) as Hf by (subst f; destruct Hs; pose proof (land_bound (Z.lxor (expand_l r) (expand_r r)) sb); lia).
  destruct (sbox_out_spec (Z.lxor (expand_l r) (Z.lxor f (fst k))) (Z.lxor (expand_r r) (Z.lxor f (snd k)))) as (g & Eg & Hg & Bg);
    [repeat (apply lxor_range; [lia|try done..])..|].
  exists g. split; [done|]. split; [done|]. rewrite Bg. unfold ref_f. rewrite <- expand_spec, <- (salted_spec sb salt) by done. fold f.
  rewrite xor_app by (by rewrite !bits_length). by rewrite <- !bits_xor, !Z.lxor_assoc.
Qed.

Lemma des_rounds_spec ks kbs l r : Forall2 key_rel ks kbs → 0 <= l < 2 ^ 32 → 0 <= r < 2 ^ 32 →
  ∃ l' r', des_rounds t sb ks l r = Some (l', r') ∧ 0 <= l' < 2 ^ 32 ∧ 0 <= r' < 2 ^ 32 ∧
    ref_rounds salt kbs (bits 32 l) (bits 32 r) = (bits 32 l', bits 32 r').
Proof.
  intros Hks. revert l r. induction Hks as [|k kb ks kbs Hk Hks IH]; intros l r Hl Hr; [by exists l, r|]. cbn [des_rounds ref_rounds].
  destruct (des_f_spec r k kb Hk) as (f & Ef & Hf & Bf). rewrite Ef. cbn [mbind option_bind]. rewrite <- Bf, <- bits_xor, Z.lxor_comm.
  apply IH; [done|]. apply lxor_range; [lia|done|done].
Qed.

Lemma des_passes_spec count ks kbs l r : Forall2 key_rel ks kbs → 0 <= l < 2 ^ 32 → 0 <= r < 2 ^ 32 →
  ∃ l' r', des_passes count t sb ks l r = Some (l', r') ∧ 0 <= l' < 2 ^ 32 ∧ 0 <= r' < 2 ^ 32 ∧
    ref_passes count salt kbs (bits 32 l) (bits 32 r) = (bits 32 l', bits 32 r').
Proof.
  intros Hks. revert l r. induction count as [|count IH]; intros l r Hl Hr; [by exists l, r|]. cbn [des_passes ref_passes].
  destruct (des_rounds_spec ks kbs l r Hks Hl Hr) as (l1 & r1 & E1 & Hl1 & Hr1 & B1). rewrite E1, B1. by apply IH.
Qed.
End engine.

(** ** Splitting words for the lookups *)

Lemma window_bit x s n i : 0 <= i < n → Z.testbit (Z.land (Z.shiftr x s) (Z.ones n)) i = Z.testbit x (i + s).
Proof. intros Hi. rewrite Z.land_spec, Z.ones_spec_low, andb_true_r, Z.shiftr_spec by lia. done. Qed.
Lemma window_range x s n : 0 <= n → 0 <= Z.land (Z.shiftr x s) (Z.ones n) < 2 ^ n.
Proof. intros Hn. rewrite Z.land_ones by done. apply Z.mod_pos_bound. by apply Z.pow_pos_nonneg. Qed.
Lemma shiftr_window x s n : 0 <= s → 0 <= n → 0 <= x < 2 ^ (s + n) → Z.shiftr x s = Z.land (Z.shiftr x s) (Z.ones n).
Proof.
  intros Hs Hn Hx. rewrite Z.land_ones by done. rewrite Z.mod_small; [done|]. rewrite Z.shiftr_div_pow2 by done. rewrite Z.pow_add_r in Hx by done.
  pose proof (Z.pow_pos_nonneg 2 s). split; [apply Z.div_pos; lia|apply Z.div_lt_upper_bound; lia].
Qed.

(** Windows of [n] bits of two words of [w] bits, at the given shifts in each. *)
Definition windows (n : Z) (shifts : list Z) (x : Z) : list Z := map (λ s, Z.land (Z.shiftr x s) (Z.ones n)) shifts.

Lemma nth_windows n shifts x k : 0 <= k < Z.of_nat (length shifts) →
  nth (Z.to_nat k) (windows n shifts x) 0 = Z.land (Z.shiftr x (nth (Z.to_nat k) shifts 0)) (Z.ones n).
Proof.
  intros Hk. unfold windows. rewrite (nth_indep _ 0 (Z.land (Z.shiftr x 0) (Z.ones n))) by (rewrite length_map; lia).
  by rewrite (map_nth (λ s, Z.land (Z.shiftr x s) (Z.ones n))).
Qed.

Lemma carries_windows (n : nat) stride w shifts x y : 0 < stride → Z.of_nat n <= stride →
  w = stride * Z.of_nat (length shifts) → (∀ k, 0 <= k < Z.of_nat (length shifts) → nth (Z.to_nat k) shifts 0 = w - Z.of_nat n - stride * k) →
  carries n stride (windows (Z.of_nat n) shifts x ++ windows (Z.of_nat n) shifts y) (bits w x ++ bits w y).
Proof.
  intros Hst Hn Hw Hsh. split.
  { rewrite Forall_app. split; apply Forall_map, Forall_forall; intros s _; apply window_range; lia. }
  intros k j Hk Hj. unfold windows in Hk. rewrite length_app, !length_map in Hk. rewrite nth_bits_app by nia.
  destruct (decide (k < Z.of_nat (length shifts))) as [Hlt|Hge].
  - rewrite app_nth1 by (unfold windows; rewrite length_map; lia). rewrite nth_windows, window_bit, Hsh by lia. rewrite decide_True by nia. f_equal. lia.
  - rewrite app_nth2 by (unfold windows; rewrite length_map; lia). unfold windows at 1. rewrite length_map.
    replace (Z.to_nat k - length shifts)%nat with (Z.to_nat (k - Z.of_nat (length shifts))) by lia.
    rewrite nth_windows, window_bit, Hsh by lia. rewrite decide_False by nia. f_equal. nia.
Qed.

Lemma carries_bytes_of x y : 0 <= x < 2 ^ 32 → 0 <= y < 2 ^ 32 → carries 8 8 (bytes_of x ++ bytes_of y) (bits 32 x ++ bits 32 y).
Proof.
  assert (∀ z, 0 <= z < 2 ^ 32 → bytes_of z = windows 8 [24; 16; 8; 0] z) as H.
  { intros z Hz. unfold bytes_of. rewrite (shiftr_window z 24 8) by (try done; lia). reflexivity. }
  intros Hx Hy. rewrite !H by done. apply (carries_windows 8); [lia..|done|]. intros k Hk.
  apply (below (λ k, nth (Z.to_nat k) [24; 16; 8; 0] 0 = 32 - Z.of_nat 8 - 8 * k) 4); [vm_compute; reflexivity|done].
Qed.
Lemma carries_key_bits x y : 0 <= x < 2 ^ 32 → 0 <= y < 2 ^ 32 → carries 7 8 (key_bits x ++ key_bits y) (bits 32 x ++ bits 32 y).
Proof.
  assert (∀ z, 0 <= z < 2 ^ 32 → key_bits z = windows 7 [25; 17; 9; 1] z) as H.
  { intros z Hz. unfold key_bits. rewrite (shiftr_window z 25 7) by (try done; lia). reflexivity. }
  intros Hx Hy. rewrite !H by done. apply (carries_windows 7); [lia..|done|]. intros k Hk.
  apply (below (λ k, nth (Z.to_nat k) [25; 17; 9; 1] 0 = 32 - Z.of_nat 7 - 8 * k) 4); [vm_compute; reflexivity|done].
Qed.
Lemma carries_comp_bits x y : carries 7 7 (comp_bits x ++ comp_bits y) (bits 28 x ++ bits 28 y).
Proof.
  apply (carries_windows 7 7 28 [21; 14; 7; 0]); [lia..|done|]. intros k Hk.
  apply (below (λ k, nth (Z.to_nat k) [21; 14; 7; 0] 0 = 28 - Z.of_nat 7 - 7 * k) 4); [vm_compute; reflexivity|done].
Qed.
