(* ===== verification/LibCrypt.v ===== *)
(** * The key schedule, the cipher and crypt_des of crypt.c against the standard

    LibDesSpec.v shows that the tables and one round compute what FIPS 46 says; this
    file carries that to the functions callers use: [des_setkey], [des_cipher] and
    [crypt_des], with the thread's cached tables, salt and key as an invariant.  The
    cipher is the reference of LibDesSpec.v, decrypting undoes encrypting, and
    [crypt_des] gives the salt and the eleven characters of the enciphered block. *)

From S2P Require Import Prelude LibBase LibDes LibDesSpec.

Local Open Scope Z_scope.

(** ** The key schedule *)

Lemma rotl_length n b : length (rotl n b) = length b.
Proof. unfold rotl. rewrite length_app, length_drop, length_take. lia. Qed.

Lemma rotl_rotl n m b : (n + m <= length b)%nat → rotl m (rotl n b) = rotl (n + m) b.
Proof.
  intros H. unfold rotl. rewrite drop_app_le, take_app_le by (rewrite length_drop; lia). rewrite drop_drop, <- app_assoc, take_take_drop. done.
Qed.

Lemma nth_rotl n b k : (n <= length b)%nat → (k < length b)%nat →
  nth k (rotl n b) false = if decide (k + n < length b)%nat then nth (k + n) b false else nth (k + n - length b) b false.
Proof.
  intros Hn Hk. unfold rotl. rewrite !nth_lookup. case_decide.
  - rewrite lookup_app_l by (rewrite length_drop; lia). rewrite lookup_drop. by rewrite Nat.add_comm.
  - rewrite lookup_app_r by (rewrite length_drop; lia). rewrite length_drop, lookup_take_lt by lia. do 2 f_equal. lia.
Qed.

(** [rotate] keeps stray bits above the 28, which the lookups do not read. *)
Lemma rotate_bits k s : 0 <= k < 2 ^ 28 → 0 <= s <= 28 → bits 28 (rotate k s) = rotl (Z.to_nat s) (bits 28 k).
Proof.
  intros Hk Hs. apply (bits_ext _ _ 28); [by rewrite bits_length|by rewrite rotl_length, bits_length|]. intros p Hp.
  assert (∀ n, 28 <= n → Z.testbit k n = false) as Hhigh.
  { intros n Hn. rewrite <- (Z.mod_small k (2 ^ 28)) by done. apply Z.mod_pow2_bits_high. lia. }
  rewrite nth_bits, nth_rotl by (rewrite ?bits_length; lia). rewrite bits_length by lia. unfold rotate. rewrite Z.lor_spec, Z.shiftr_spec by lia.
  unfold u32. change 4294967296 with (2 ^ 32). rewrite Z.mod_pow2_bits_low, Z.shiftl_spec by lia. case_decide.
  - rewrite (Hhigh (28 - 1 - p + (28 - s))), orb_false_r by lia. replace (Z.to_nat p + Z.to_nat s)%nat with (Z.to_nat (p + s)) by lia.
    rewrite nth_bits by lia. f_equal. lia.
  - rewrite Z.testbit_neg_r, orb_false_l by lia. replace (Z.to_nat p + Z.to_nat s - Z.to_nat 28)%nat with (Z.to_nat (p + s - 28)) by lia.
    rewrite nth_bits by lia. f_equal. lia.
Qed.

Section schedule.
Variable t : des_tables.
Hypothesis Ht : tables_ok t.

Lemma key_loop_spec steps k0 k1 a : 0 <= k0 < 2 ^ 28 → 0 <= k1 < 2 ^ 28 → Forall (λ s, 0 <= s) steps → 0 <= a → a + foldr Z.add 0 steps <= 28 →
  ∃ ks, key_loop t steps k0 k1 a = Some ks ∧ Forall2 key_rel ks (ref_keys steps (rotl (Z.to_nat a) (bits 28 k0)) (rotl (Z.to_nat a) (bits 28 k1))).
Proof.
  intros H0 H1 Hst. revert a. induction Hst as [|s steps Hs Hst IH]; intros a Ha Hsum; [by exists []|]. cbn [foldr] in Hsum. cbn [key_loop ref_keys].
  assert (0 <= foldr Z.add 0 steps) as Hpos by (clear -Hst; induction Hst; cbn; lia).
  rewrite !rotl_rotl by (rewrite bits_length; lia). rewrite <- Z2Nat.inj_add by lia.
  destruct (ok_comp t Ht (comp_bits (rotate k0 (a + s)) ++ comp_bits (rotate k1 (a + s))) _ eq_refl (carries_comp_bits _ _)) as (m & Em & Hm & Hb).
  rewrite Em. cbn [mbind option_bind]. destruct (IH (a + s)) as (ks & Ek & Hks); [lia|lia|]. rewrite Ek. cbn [mbind option_bind].
  exists (m :: ks). split; [done|]. constructor; [|done]. split; [done|]. rewrite <- !rotate_bits by (done || lia).
  symmetry. by apply pbit_permute.
Qed.

Lemma key_schedule_spec rawkey0 rawkey1 : 0 <= rawkey0 < 2 ^ 32 → 0 <= rawkey1 < 2 ^ 32 →
  ∃ k ks, lookup_or (key_perm_mask t) (key_bits rawkey0 ++ key_bits rawkey1) (0, 0) = Some k ∧
    key_loop t key_shifts (fst k) (snd k) 0 = Some ks ∧ Forall2 key_rel ks (ref_schedule (bits 32 rawkey0 ++ bits 32 rawkey1)).
Proof.
  intros H0 H1. destruct (ok_key t Ht (key_bits rawkey0 ++ key_bits rawkey1) _ eq_refl (carries_key_bits _ _ H0 H1)) as (k & Ek & [Hk0 Hk1] & Hb).
  destruct (key_loop_spec key_shifts (fst k) (snd k) 0 Hk0 Hk1) as (ks & Eks & Hks); [repeat constructor; lia|lia|cbn; lia|].
  exists k, ks. split; [done|]. split; [done|]. unfold ref_schedule. rewrite <- (pbit_permute 28 k key_perm _) by (done || lia).
  rewrite take_app_length', drop_app_length' by (by rewrite bits_length).
  change (Z.to_nat 0) with 0%nat in Hks. unfold rotl in Hks. by rewrite !drop_0, !take_0, !app_nil_r in Hks.
Qed.
End schedule.

(** ** The salt and the words *)

Lemma salt_loop_spec n m salt acc : Z.of_nat n + m = 24 → 0 <= m → 0 <= acc < 2 ^ 24 →
  0 <= salt_loop n salt (2 ^ m) (2 ^ (23 - m)) acc < 2 ^ 24 ∧
  ∀ i, 0 <= i < 24 → Z.testbit (salt_loop n salt (2 ^ m) (2 ^ (23 - m)) acc) (24 - 1 - i) = Z.testbit acc (24 - 1 - i) || ((m <=? i) && Z.testbit salt i).
Proof.
  revert m acc. induction n as [|n IH]; intros m acc Hnm Hm Ha; cbn [salt_loop].
  - split; [done|]. intros i Hi. rewrite (proj2 (Z.leb_gt m i)) by lia. by rewrite andb_false_l, orb_false_r.
  - assert (u32 (Z.shiftl (2 ^ m) 1) = 2 ^ (m + 1)) as ->.
    { rewrite Z.shiftl_mul_pow2, <- Z.pow_add_r by lia. unfold u32. apply Z.mod_small. split; [apply Z.pow_nonneg; lia|].
      change 4294967296 with (2 ^ 32). apply Z.pow_lt_mono_r; lia. }
    assert (Z.shiftr (2 ^ (23 - m)) 1 = 2 ^ (23 - (m + 1))) as ->.
    { destruct (decide (m = 23)) as [-> |]; [done|]. rewrite Z.shiftr_div_pow2 by lia. change (2 ^ 1) with 2. replace (23 - m) with (Z.succ (23 - (m + 1))) by lia.
      rewrite Z.pow_succ_r, Z.mul_comm by lia. apply Z.div_mul. lia. }
    rewrite land_pow2 by done. set (acc' := if Z.testbit salt m then Z.lor acc (2 ^ (23 - m)) else acc).
    assert (0 <= acc' < 2 ^ 24) as Ha'.
    { subst acc'. destruct (Z.testbit salt m); [|done]. apply lor_range; [lia|done|]. split; [apply Z.pow_nonneg; lia|apply Z.pow_lt_mono_r; lia]. }
    destruct (IH (m + 1) acc' ltac:(lia) ltac:(lia) Ha') as [Hr Hb]. split; [done|]. intros i Hi. rewrite Hb by done.
    assert (Z.testbit acc' (24 - 1 - i) = Z.testbit acc (24 - 1 - i) || ((m =? i) && Z.testbit salt i)) as ->.
    { subst acc'. destruct (Z.eqb_spec m i) as [-> |Hne].
      - replace (24 - 1 - i) with (23 - i) by lia. destruct (Z.testbit salt i); [|by rewrite orb_false_r]. by rewrite Z.lor_spec, Z.pow2_bits_true by lia.
      - rewrite andb_false_l, orb_false_r. destruct (Z.testbit salt m); [|done]. by rewrite Z.lor_spec, Z.pow2_bits_false, orb_false_r by lia. }
    rewrite <- orb_assoc, <- andb_orb_distrib_l. do 2 f_equal. destruct (Z.eqb_spec m i), (Z.leb_spec (m + 1) i), (Z.leb_spec m i); try done; lia.
Qed.

Lemma salt_loop_ok salt : salt_ok (salt_loop 24 salt 1 0x800000 0) salt.
Proof.
  destruct (salt_loop_spec 24 0 salt 0) as [Hr Hb]; [lia..|]. change (2 ^ 0) with 1 in *. change (2 ^ (23 - 0)) with 0x800000 in *.
  split; [done|]. intros i Hi. rewrite Hb, Z.bits_0, (proj2 (Z.leb_le 0 i)) by lia. done.
Qed.

Definition is_bytes (b : list Z) : Prop := Forall (λ x, 0 <= x < 256) b.

Lemma bits_32 x : bits 32 x = bits 8 (Z.land (Z.shiftr x 24) 255) ++ bits 8 (Z.land (Z.shiftr x 16) 255) ++ bits 8 (Z.land (Z.shiftr x 8) 255) ++ bits 8 (Z.land x 255).
Proof.
  rewrite <- (Z.shiftr_0_r x) at 5. change 255 with (Z.ones 8).
  apply (bits_ext _ _ 32); [by rewrite bits_length|by rewrite !length_app, !bits_length|]. intros k Hk. rewrite nth_bits by done.
  assert (∀ s j, 0 <= j < 8 → nth (Z.to_nat j) (bits 8 (Z.land (Z.shiftr x s) (Z.ones 8))) false = Z.testbit x (8 - 1 - j + s)) as Hw.
  { intros s j Hj. by rewrite nth_bits, window_bit by lia. }
  destruct (decide (k < 8)); [rewrite app_nth1, Hw by (rewrite ?bits_length; lia); f_equal; lia|]. rewrite app_nth2, bits_length by (rewrite ?bits_length; lia).
  replace (Z.to_nat k - Z.to_nat 8)%nat with (Z.to_nat (k - 8)) by lia.
  destruct (decide (k < 16)); [rewrite app_nth1, Hw by (rewrite ?bits_length; lia); f_equal; lia|]. rewrite app_nth2, bits_length by (rewrite ?bits_length; lia).
  replace (Z.to_nat (k - 8) - Z.to_nat 8)%nat with (Z.to_nat (k - 16)) by lia.
  destruct (decide (k < 24)); [rewrite app_nth1, Hw by (rewrite ?bits_length; lia); f_equal; lia|]. rewrite app_nth2, bits_length by (rewrite ?bits_length; lia).
  replace (Z.to_nat (k - 16) - Z.to_nat 8)%nat with (Z.to_nat (k - 24)) by lia. rewrite Hw by lia. f_equal; lia.
Qed.

Lemma to_be32_spec x : length (to_be32 x) = 4%nat ∧ is_bytes (to_be32 x) ∧ bytes_bits (to_be32 x) = bits 32 x.
Proof.
  split; [done|]. split.
  - repeat constructor; match goal with |- context [Z.land ?y 255] => pose proof (land_bound y 255) end; lia.
  - unfold bytes_bits, to_be32. cbn [map concat]. by rewrite bits_32, app_nil_r.
Qed.

Lemma be32_spec b : (4 <= length b)%nat → is_bytes b → ∃ x, be32 b = Some x ∧ 0 <= x < 2 ^ 32 ∧ bits 32 x = bytes_bits (take 4 b).
Proof.
  destruct b as [|b0 [|b1 [|b2 [|b3 b]]]]; cbn [length]; try lia. intros _ Hb. unfold is_bytes in Hb. rewrite !Forall_cons in Hb. destruct Hb as (H0 & H1 & H2 & H3 & _).
  set (x := b0 * 16777216 + b1 * 65536 + b2 * 256 + b3). exists x. cbn [be32 take]. split; [|split; [subst x; lia|]].
  - f_equal. rewrite !Z.shiftl_mul_pow2 by lia. rewrite (lor_low 24 (b0 * 2 ^ 24)) by (try lia; apply Z.mod_mul; lia).
    rewrite (lor_low 16 (b0 * 2 ^ 24 + b1 * 2 ^ 16)), (lor_low 8) by (try lia; change (2 ^ 24) with 16777216; change (2 ^ 16) with 65536; change (2 ^ 8) with 256; Z.to_euclidean_division_equations; lia).
    subst x. lia.
  - rewrite bits_32. change 255 with (Z.ones 8). rewrite !Z.land_ones, !Z.shiftr_div_pow2 by lia. unfold bytes_bits. cbn [map concat]. rewrite app_nil_r.
    change (2 ^ 24) with 16777216. change (2 ^ 16) with 65536. change (2 ^ 8) with 256.
    assert ((x / 16777216) mod 256 = b0 ∧ (x / 65536) mod 256 = b1 ∧ (x / 256) mod 256 = b2 ∧ x mod 256 = b3) as (-> & -> & -> & ->); [|done].
    subst x. split_and!; Z.to_euclidean_division_equations; lia.
Qed.

(** ** The state of a thread *)

(** The round keys are those of a key, forwards and backwards. *)
Definition keyed (d : des) (key : list bool) : Prop := Forall2 key_rel (en_keys d) (ref_schedule key) ∧ de_keys d = rev (en_keys d).
(** Once the tables exist they are right, [saltbits] is that of [old_salt], and the
    round keys are those of [old_rawkey] unless that is zero. *)
Definition des_inv (d : des) : Prop :=
  match des_initialised d with
  | None => True
  | Some t => tables_ok t ∧ salt_ok (saltbits d) (old_salt d) ∧
      (Z.lor (fst (old_rawkey d)) (snd (old_rawkey d)) ≠ 0 → keyed d (bits 32 (fst (old_rawkey d)) ++ bits 32 (snd (old_rawkey d))))
  end.

Lemma des_inv_start : des_inv des_start.
Proof. done. Qed.

Lemma ensure_init_spec d : des_inv d → ∃ d' t, ensure_init d = Some (d', t) ∧ des_inv d' ∧ des_initialised d' = Some t ∧ tables_ok t ∧
  en_keys d' = en_keys d ∧ de_keys d' = de_keys d.
Proof.
  unfold des_inv, ensure_init. intros Hd. destruct (des_initialised d) as [t|] eqn:Et.
  - exists d, t. rewrite Et. by destruct Hd.
  - destruct fill_tables_spec as (t & Ef & Ht). unfold des_init. rewrite Ef. clear Ef. cbn [mbind option_bind des_initialised].
    eexists _, t. split; [done|]. cbn [des_initialised saltbits old_salt old_rawkey en_keys de_keys fst snd].
    split; [|done]. split; [done|]. split; [split; [lia|]; intros i Hi; by rewrite !Z.bits_0|]. by intros [].
Qed.

Lemma setup_salt_spec salt d : des_inv d → ∀ t, des_initialised d = Some t →
  let d' := setup_salt salt d in des_inv d' ∧ des_initialised d' = Some t ∧ salt_ok (saltbits d') salt ∧ en_keys d' = en_keys d ∧ de_keys d' = de_keys d.
Proof.
  unfold des_inv, setup_salt. intros Hd t Et. cbn zeta. rewrite Et in Hd. destruct Hd as (Ht & Hs & Hk). destruct (Z.eqb_spec salt (old_salt d)) as [-> |Hne].
  - rewrite Et. by split_and!.
  - cbn [des_initialised saltbits old_salt old_rawkey en_keys de_keys]. rewrite Et. pose proof (salt_loop_ok salt). by split_and!.
Qed.

Lemma bytes_bits_app a b : bytes_bits (a ++ b) = bytes_bits a ++ bytes_bits b.
Proof. unfold bytes_bits. by rewrite map_app, concat_app. Qed.

(** The two words of eight bytes. *)
Lemma be32_pair b : (8 <= length b)%nat → is_bytes b →
  ∃ x y, be32 b = Some x ∧ be32 (drop 4 b) = Some y ∧ 0 <= x < 2 ^ 32 ∧ 0 <= y < 2 ^ 32 ∧ bits 32 x ++ bits 32 y = bytes_bits (take 8 b).
Proof.
  intros Hl Hb. destruct (be32_spec b) as (x & Ex & Hx & Bx); [lia|done|]. destruct (be32_spec (drop 4 b)) as (y & Ey & Hy & By); [rewrite length_drop; lia|by apply Forall_drop|].
  exists x, y. rewrite Bx, By, <- bytes_bits_app. split_and!; try done; try lia. f_equal. change 8%nat with (4 + 4)%nat. by rewrite take_take_drop.
Qed.

(** [des_setkey] leaves the schedule of the key it is given, cached or not. *)
Lemma des_setkey_spec key d : des_inv d → (8 <= length key)%nat → is_bytes key →
  ∃ d' t, des_setkey key d = Some d' ∧ des_inv d' ∧ des_initialised d' = Some t ∧ keyed d' (bytes_bits (take 8 key)).
Proof.
  intros Hd Hl Hb. destruct (be32_pair key Hl Hb) as (k0 & k1 & E0 & E1 & H0 & H1 & Bk). unfold des_setkey.
  destruct (ensure_init_spec d Hd) as (d1 & t & Ei & Hd1 & Et & Ht & _). rewrite Ei. cbn [mbind option_bind]. rewrite E0. cbn [mbind option_bind]. rewrite E1. cbn [mbind option_bind].
  rewrite <- Bk. destruct (negb (Z.lor k0 k1 =? 0) && (k0 =? fst (old_rawkey d1)) && (k1 =? snd (old_rawkey d1))) eqn:Ec.
  - exists d1, t. split; [done|]. split; [done|]. split; [done|]. rewrite !andb_true_iff, negb_true_iff, Z.eqb_neq, !Z.eqb_eq in Ec.
    destruct Ec as [[Hz ->] ->]. unfold des_inv in Hd1. rewrite Et in Hd1. by apply Hd1.
  - destruct (key_schedule_spec t Ht k0 k1 H0 H1) as (k & ks & Ek & Eks & Hks). rewrite Ek. cbn [mbind option_bind]. rewrite Eks. cbn [mbind option_bind].
    eexists _, t. split; [done|]. assert (keyed (mk_des (des_initialised d1) (saltbits d1) (old_salt d1) ks (rev ks) (k0, k1)) (bits 32 k0 ++ bits 32 k1)) as Hkeyed by done.
    unfold des_inv in *. rewrite Et in *. cbn [des_initialised saltbits old_salt old_rawkey fst snd]. by destruct Hd1 as (_ & ? & _).
Qed.

Lemma keyed_rev ks kbs : Forall2 key_rel ks kbs → Forall2 key_rel (rev ks) (rev kbs).
Proof. induction 1 as [|k kb ks kbs Hk _ IH]; [done|]. cbn [rev]. apply Forall2_app; [done|]. by apply Forall2_cons. Qed.

(** The schedule a count chooses. *)
Definition direction (count : Z) (ks : list (list bool)) : list (list bool) := if 0 <? count then ks else rev ks.

(** A count that can be negated as an [int]. *)
Definition pass_count (count : Z) : Prop := - 2 ^ 31 < count < 2 ^ 31.

Lemma do_des_spec t d salt l r count kb : tables_ok t → salt_ok (saltbits d) salt → keyed d kb → count ≠ 0 → pass_count count → 0 <= l < 2 ^ 32 → 0 <= r < 2 ^ 32 →
  ∃ l' r', do_des t d l r count = Some (Some (l', r')) ∧ 0 <= l' < 2 ^ 32 ∧ 0 <= r' < 2 ^ 32 ∧
    bits 32 l' ++ bits 32 r' = ref_des salt (direction count (ref_schedule kb)) (Z.to_nat (Z.abs count)) (bits 32 l ++ bits 32 r).
Proof.
  intros Ht Hs [Hen Hde] Hc Hpc Hl Hr. unfold do_des. rewrite (proj2 (Z.eqb_neq count 0)) by done.
  assert ((if 0 <? count then Some count else int32 (- count)) = Some (Z.abs count)) as ->.
  { unfold pass_count in Hpc. destruct (Z.ltb_spec 0 count); [f_equal; lia|]. rewrite int32_ok by (unfold is_s32; lia). f_equal. lia. }
  cbn [mbind option_bind].
  destruct (ok_ip t Ht (bytes_of l ++ bytes_of r) _ eq_refl (carries_bytes_of _ _ Hl Hr)) as (m & Em & [Hm0 Hm1] & Hb).
  apply pbit_permute in Hb; [|lia|done]. rewrite Em. cbn [mbind option_bind]. set (ks := if 0 <? count then en_keys d else de_keys d).
  assert (Forall2 key_rel ks (direction count (ref_schedule kb))) as Hks.
  { subst ks. unfold direction. destruct (0 <? count); [done|]. rewrite Hde. by apply keyed_rev. }
  destruct (des_passes_spec t Ht (saltbits d) salt Hs (Z.to_nat (Z.abs count)) ks _ (fst m) (snd m) Hks Hm0 Hm1) as (l1 & r1 & E1 & Hl1 & Hr1 & B1).
  rewrite E1. cbn [mbind option_bind fst snd].
  destruct (ok_fp t Ht (bytes_of l1 ++ bytes_of r1) _ eq_refl (carries_bytes_of _ _ Hl1 Hr1)) as ([l2 r2] & E2 & [Hl2 Hr2] & Hb2).
  apply pbit_permute in Hb2; [|lia|done]. rewrite E2. cbn [mbind option_bind]. exists l2, r2. split_and!; try done; try apply Hl2; try apply Hr2.
  unfold ref_des. rewrite <- Hb. rewrite take_app_length', drop_app_length' by (by rewrite bits_length). rewrite B1. exact Hb2.
Qed.

Lemma salt_ok_u32 sb salt : salt_ok sb (u32 salt) → salt_ok sb salt.
Proof. intros [Hr Hb]. split; [done|]. intros i Hi. rewrite Hb by done. unfold u32. change 4294967296 with (2 ^ 32). apply Z.mod_pow2_bits_low. lia. Qed.

Lemma des_cipher_spec input salt count d kb : des_inv d → keyed d kb → count ≠ 0 → pass_count count → (8 <= length input)%nat → is_bytes input →
  ∃ d' out, des_cipher input salt count d = Some (d', Some out) ∧ des_inv d' ∧ keyed d' kb ∧ length out = 8%nat ∧ is_bytes out ∧
    bytes_bits out = ref_des salt (direction count (ref_schedule kb)) (Z.to_nat (Z.abs count)) (bytes_bits (take 8 input)).
Proof.
  intros Hd Hk Hc Hpc Hl Hb. unfold des_cipher. destruct (ensure_init_spec d Hd) as (d1 & t & Ei & Hd1 & Et & Ht & Een & Ede). rewrite Ei. cbn [mbind option_bind].
  destruct (be32_pair input Hl Hb) as (x & y & Ex & Ey & Hx & Hy & Bx). rewrite Ex. cbn [mbind option_bind]. rewrite Ey. cbn [mbind option_bind].
  destruct (setup_salt_spec (u32 salt) d1 Hd1 t Et) as (Hd2 & Et2 & Hs & Een2 & Ede2). set (d2 := setup_salt (u32 salt) d1) in *.
  assert (keyed d2 kb) as Hk2 by (unfold keyed in *; rewrite Een2, Ede2, Een, Ede; done). apply salt_ok_u32 in Hs.
  destruct (do_des_spec t d2 salt x y count kb Ht Hs Hk2 Hc Hpc Hx Hy) as (l & r & Eo & Hl' & Hr' & Bo). rewrite Eo. cbn [mbind option_bind].
  destruct (to_be32_spec l) as (Ll & Vl & Bl), (to_be32_spec r) as (Lr & Vr & Br).
  exists d2, (to_be32 l ++ to_be32 r). split; [done|]. split; [done|]. split; [done|]. split; [done|]. split; [by apply Forall_app|].
  by rewrite bytes_bits_app, Bl, Br, Bo, Bx.
Qed.

Lemma des_cipher_zero input salt d : des_inv d → (8 <= length input)%nat → is_bytes input →
  ∃ d', des_cipher input salt 0 d = Some (d', None) ∧ des_inv d'.
Proof.
  intros Hd Hl Hb. unfold des_cipher. destruct (ensure_init_spec d Hd) as (d1 & t & -> & Hd1 & Et & _). cbn [mbind option_bind].
  destruct (be32_pair input Hl Hb) as (x & y & -> & Ey & _). cbn [mbind option_bind]. rewrite Ey. cbn [mbind option_bind].
  destruct (setup_salt_spec (u32 salt) d1 Hd1 t Et) as (Hd2 & _). by exists (setup_salt (u32 salt) d1).
Qed.

(** ** Decryption *)

Lemma xor_cancel a b : length a = length b → xor (xor a b) b = a.
Proof.
  unfold xor. revert b. induction a as [|x a IH]; intros [|y b] H; try done. cbn. rewrite IH by (by injection H). by rewrite xorb_assoc, xorb_nilpotent, xorb_false_r.
Qed.
Lemma ref_f_length salt r k : length (ref_f salt r k) = 32%nat.
Proof. unfold ref_f. by rewrite permute_length. Qed.

Lemma ref_rounds_app salt ks ks' l r : ref_rounds salt (ks ++ ks') l r = let '(l, r) := ref_rounds salt ks l r in ref_rounds salt ks' l r.
Proof. revert l r. induction ks as [|k ks IH]; intros l r; cbn [app ref_rounds]; [done|]. apply IH. Qed.

Lemma ref_rounds_length salt ks l r : length l = 32%nat → length r = 32%nat →
  length (fst (ref_rounds salt ks l r)) = 32%nat ∧ length (snd (ref_rounds salt ks l r)) = 32%nat.
Proof.
  revert l r. induction ks as [|k ks IH]; intros l r Hl Hr; cbn [ref_rounds]; [done|]. apply IH; [done|]. by rewrite xor_length by (by rewrite ref_f_length).
Qed.

(** The rounds with the keys reversed, on the halves exchanged, go back. *)
Lemma ref_rounds_rev salt ks l r : length l = 32%nat → length r = 32%nat →
  let '(l', r') := ref_rounds salt ks l r in ref_rounds salt (rev ks) r' l' = (r, l).
Proof.
  revert l r. induction ks as [|k ks IH]; intros l r Hl Hr; cbn [ref_rounds rev]; [done|].
  assert (length (xor l (ref_f salt r k)) = 32%nat) as Hx by (by rewrite xor_length by (by rewrite ref_f_length)).
  specialize (IH r (xor l (ref_f salt r k)) Hr Hx). destruct (ref_rounds salt ks r (xor l (ref_f salt r k))) as [l' r'].
  rewrite ref_rounds_app, IH. cbn [ref_rounds]. by rewrite xor_cancel by (by rewrite ref_f_length).
Qed.

Definition ref_pass (salt : Z) (ks : list (list bool)) (lr : list bool * list bool) : list bool * list bool :=
  let '(l, r) := ref_rounds salt ks (fst lr) (snd lr) in (r, l).
Definition halves (lr : list bool * list bool) : Prop := length (fst lr) = 32%nat ∧ length (snd lr) = 32%nat.

Lemma ref_passes_iter n salt ks l r : ref_passes n salt ks l r = Nat.iter n (ref_pass salt ks) (l, r).
Proof.
  revert l r. induction n as [|n IH]; intros l r; [done|]. cbn [ref_passes]. rewrite Nat.iter_succ_r. unfold ref_pass at 2. cbn [fst snd].
  destruct (ref_rounds salt ks l r) as [l' r']. apply IH.
Qed.
Lemma ref_pass_halves salt ks lr : halves lr → halves (ref_pass salt ks lr).
Proof.
  intros [Hl Hr]. unfold ref_pass. pose proof (ref_rounds_length salt ks (fst lr) (snd lr) Hl Hr) as [? ?]. by destruct (ref_rounds salt ks (fst lr) (snd lr)).
Qed.
Lemma ref_pass_rev salt ks lr : halves lr → ref_pass salt (rev ks) (ref_pass salt ks lr) = lr.
Proof.
  destruct lr as [l r]. intros [Hl Hr]. pose proof (ref_rounds_rev salt ks l r Hl Hr) as H. unfold ref_pass. cbn [fst snd] in *. destruct (ref_rounds salt ks l r) as [l' r'].
  cbn [fst snd]. by rewrite H.
Qed.
Lemma ref_passes_rev n salt ks l r : length l = 32%nat → length r = 32%nat →
  let '(l', r') := ref_passes n salt ks l r in ref_passes n salt (rev ks) l' r' = (l, r) ∧ halves (l', r').
Proof.
  intros Hl Hr. rewrite ref_passes_iter. assert (halves (l, r)) as H by done. revert H. generalize (l, r). clear l r Hl Hr. intros lr H.
  assert (∀ n, halves (Nat.iter n (ref_pass salt ks) lr)) as Hn by (intros m; induction m as [|m IH]; [done|]; by apply ref_pass_halves).
  assert (Nat.iter n (ref_pass salt (rev ks)) (Nat.iter n (ref_pass salt ks) lr) = lr) as Hi.
  { induction n as [|n IH]; [done|]. rewrite Nat.iter_succ_r. change (Nat.iter (S n) (ref_pass salt ks) lr) with (ref_pass salt ks (Nat.iter n (ref_pass salt ks) lr)).
    by rewrite ref_pass_rev. }
  pose proof (Hn n) as Hh. destruct (Nat.iter n (ref_pass salt ks) lr) as [l' r']. rewrite ref_passes_iter. by split.
Qed.

(** [IP] and [FP] undo each other. *)
Lemma permute_permute p q b n : length b = n → length p = n → length q = n →
  forallb (λ k, bool_decide (0 <= nth (Z.to_nat k) p 0 - 1 < Z.of_nat n) && (nth (Z.to_nat (nth (Z.to_nat k) p 0 - 1)) q 0 - 1 =? k)) (seqZ 0 (Z.of_nat n)) = true →
  permute p (permute q b) = b.
Proof.
  intros Hb Hp Hq Hc. apply (bits_ext _ _ (Z.of_nat n)); [rewrite permute_length; lia|lia|]. intros k Hk. apply (forallb_seqZ _ _ k) in Hc; [cbn beta in Hc|done].
  rewrite andb_true_iff, bool_decide_eq_true, Z.eqb_eq in Hc. destruct Hc as [Hr He]. rewrite !nth_permute by lia. by rewrite He.
Qed.
Lemma IP_FP b : length b = 64%nat → permute IP (permute FP b) = b.
Proof. intros Hb. apply (permute_permute _ _ _ 64); [done..|]. vm_compute. reflexivity. Qed.
Lemma FP_IP b : length b = 64%nat → permute FP (permute IP b) = b.
Proof. intros Hb. apply (permute_permute _ _ _ 64); [done..|]. vm_compute. reflexivity. Qed.

Lemma ref_des_rev n salt ks b : length b = 64%nat → ref_des salt (rev ks) n (ref_des salt ks n b) = b.
Proof.
  intros Hb. unfold ref_des. pose proof (ref_passes_rev n salt ks (take 32 (permute IP b)) (drop 32 (permute IP b))) as H.
  destruct (ref_passes n salt ks (take 32 (permute IP b)) (drop 32 (permute IP b))) as [l r].
  destruct H as [H [Hl Hr]]; [by rewrite length_take, permute_length|by rewrite length_drop, permute_length|]. cbn [fst snd] in *.
  rewrite IP_FP by (rewrite length_app; lia). rewrite take_app_length', drop_app_length' by done. rewrite H, take_drop. by apply FP_IP.
Qed.

(** ** The text of a password *)

(** What [crypt_des] should compute: the key block of a text, and a block in the
    alphabet of crypt(3), six bits to a character, the last one filled with zeros. *)
Definition key_block (text : list Z) : list Z := take 8 (map (λ c, u8 (2 * c)) text ++ replicate 8 0).
Definition sextet (b : list bool) (i : nat) : list bool := take 6 (drop (6 * i) b).
Definition base64 (block : list bool) : list Z :=
  map (λ i, nth (Z.to_nat (number (sextet (block ++ [false; false]) i))) ascii64 0) (seq 0 11).

Lemma key_copy_spec n text rest : Forall (λ c, c ≠ 0) text →
  ∃ key, key_copy n (text ++ 0 :: rest) = Some (take n (map (λ c, u8 (2 * c)) text ++ replicate n 0), key) ∧ key = drop n text ++ 0 :: rest.
Proof.
  revert text. induction n as [|n IH]; intros text Ht; [by eexists|]. destruct text as [|c text]; cbn [app key_copy head mbind option_bind].
  - rewrite Z.eqb_refl. destruct (IH [] Ht) as (key & Ek & ->). cbn [app] in Ek. rewrite Ek. cbn [mbind option_bind fst snd map app]. eexists. split; [|done].
    by rewrite drop_nil.
  - apply Forall_cons in Ht as [Hc Ht]. rewrite (proj2 (Z.eqb_neq c 0)) by done. cbn [tail]. destruct (IH text Ht) as (key & Ek & ->). rewrite Ek. cbn [mbind option_bind fst snd map app take drop].
    eexists. split; [|done]. rewrite Z.shiftl_mul_pow2, Z.mul_comm by lia. change (2 ^ 1) with 2. do 3 f_equal. rewrite !take_app. f_equal.
    rewrite !take_replicate. f_equal. lia.
Qed.

Lemma key_block_bytes text : length (key_block text) = 8%nat ∧ is_bytes (key_block text).
Proof.
  unfold key_block. split; [rewrite length_take, length_app, length_map, length_replicate; lia|]. apply Forall_take, Forall_app. split.
  - apply Forall_map, Forall_forall. intros c _. unfold u8. cbn. apply Z.mod_pos_bound. lia.
  - by apply Forall_replicate.
Qed.

Lemma number_bits v : 0 <= v < 64 → number (bits 6 v) = v.
Proof. intros Hv. apply (below (λ v, number (bits 6 v) = v) 64); [vm_compute; reflexivity|done]. Qed.

(** A character of the output is a sextet of the block. *)
Lemma sextet_char l s b i : 0 <= s → (6 * i + 6 <= length b)%nat →
  (∀ j, 0 <= j < 6 → Z.testbit l (6 - 1 - j + s) = nth (6 * i + Z.to_nat j) b false) →
  ascii64.[Z.land (Z.shiftr l s) 0x3f] = Some (nth (Z.to_nat (number (sextet b i))) ascii64 0).
Proof.
  intros Hs Hi Hb. assert (sextet b i = bits 6 (Z.land (Z.shiftr l s) (Z.ones 6))) as ->.
  { apply (bits_ext _ _ 6); [unfold sextet; rewrite length_take, length_drop; lia|by rewrite bits_length|]. intros j Hj.
    rewrite nth_bits, window_bit, Hb by lia. unfold sextet. rewrite !nth_lookup, lookup_take_lt, lookup_drop by lia. done. }
  change 0x3f with (Z.ones 6). pose proof (window_range l s 6). change (2 ^ 6) with 64 in *. rewrite number_bits by lia.
  set (v := Z.land (Z.shiftr l s) (Z.ones 6)) in *. apply (below (λ v, ascii64.[v] = Some (nth (Z.to_nat v) ascii64 0)) 64); [vm_compute; reflexivity|lia].
Qed.

Lemma nth_block r0 r1 p : 0 <= p < 66 → nth (Z.to_nat p) ((bits 32 r0 ++ bits 32 r1) ++ [false; false]) false =
  if decide (p < 32) then Z.testbit r0 (31 - p) else Z.testbit r1 (63 - p).
Proof.
  intros Hp. assert (length (bits 32 r0 ++ bits 32 r1) = 64%nat) as Hl by (by rewrite length_app, !bits_length). destruct (decide (p < 64)).
  - rewrite app_nth1 by lia. rewrite nth_bits_app by lia. case_decide; f_equal; lia.
  - rewrite app_nth2, Hl by lia. rewrite decide_False by lia. rewrite Z.testbit_neg_r by lia.
    assert (p = 64 ∨ p = 65) as [-> | ->] by lia; done.
Qed.

Section block.
Variables r0 r1 : Z.
Let middle : Z := Z.lor (u32 (Z.shiftl r0 16)) (Z.land (Z.shiftr r1 16) 0xffff).

Lemma middle_bit n : 0 <= n < 32 → Z.testbit middle n = if decide (n < 16) then Z.testbit r1 (n + 16) else Z.testbit r0 (n - 16).
Proof.
  intros Hn. unfold middle. rewrite Z.lor_spec. unfold u32. change 4294967296 with (2 ^ 32). rewrite Z.mod_pow2_bits_low, Z.shiftl_spec by lia.
  change 0xffff with (Z.ones 16). case_decide.
  - rewrite window_bit by lia. by rewrite Z.testbit_neg_r by lia.
  - rewrite Z.land_spec, Z.ones_spec_high, andb_false_r, orb_false_r by lia. done.
Qed.
Lemma last_bit n : 0 <= n < 32 → Z.testbit (u32 (Z.shiftl r1 2)) n = Z.testbit r1 (n - 2).
Proof. intros Hn. unfold u32. change 4294967296 with (2 ^ 32). by rewrite Z.mod_pow2_bits_low, Z.shiftl_spec by lia. Qed.

Lemma encode_block_spec : encode_block r0 r1 = Some (base64 (bits 32 r0 ++ bits 32 r1)).
Proof.
  unfold encode_block, encode, base64. fold middle. set (b := (bits 32 r0 ++ bits 32 r1) ++ [false; false]).
  assert (length b = 66%nat) as Hl by (subst b; by rewrite !length_app, !bits_length).
  set (ch := λ i, nth (Z.to_nat (number (sextet b i))) ascii64 0).
  assert (∀ i s, (i < 4)%nat → s = 18 - 6 * Z.of_nat i → ascii64.[Z.land (Z.shiftr (Z.shiftr r0 8) s) 0x3f] = Some (ch i)) as H1.
  { intros i s Hi Hs. apply sextet_char; [lia|lia|]. intros j Hj. rewrite Z.shiftr_spec by lia. replace (6 * i + Z.to_nat j)%nat with (Z.to_nat (6 * Z.of_nat i + j)) by lia.
    subst b. rewrite nth_block, decide_True by lia. f_equal. lia. }
  assert (∀ i s, (4 <= i < 8)%nat → s = 42 - 6 * Z.of_nat i → ascii64.[Z.land (Z.shiftr middle s) 0x3f] = Some (ch i)) as H2.
  { intros i s Hi Hs. apply sextet_char; [lia|lia|]. intros j Hj. rewrite middle_bit by lia. replace (6 * i + Z.to_nat j)%nat with (Z.to_nat (6 * Z.of_nat i + j)) by lia.
    subst b. rewrite nth_block by lia. destruct (decide (6 * Z.of_nat i + j < 32)); [rewrite decide_False by lia|rewrite decide_True by lia]; f_equal; lia. }
  assert (∀ i s, (8 <= i < 11)%nat → s = 60 - 6 * Z.of_nat i → ascii64.[Z.land (Z.shiftr (u32 (Z.shiftl r1 2)) s) 0x3f] = Some (ch i)) as H3.
  { intros i s Hi Hs. apply sextet_char; [lia|lia|]. intros j Hj. rewrite last_bit by lia. replace (6 * i + Z.to_nat j)%nat with (Z.to_nat (6 * Z.of_nat i + j)) by lia.
    subst b. rewrite nth_block, decide_False by lia. f_equal. lia. }
  cbn [mapM].
  rewrite (H1 0%nat 18), (H1 1%nat 12), (H1 2%nat 6), (H1 3%nat 0) by lia.
  rewrite (H2 4%nat 18), (H2 5%nat 12), (H2 6%nat 6), (H2 7%nat 0) by lia. by rewrite (H3 8%nat 12), (H3 9%nat 6), (H3 10%nat 0) by lia.
Qed.
End block.

(** ** crypt_des *)

Lemma ascii_to_bin_range c : 0 <= ascii_to_bin c < 64.
Proof. unfold ascii_to_bin. generalize (s8 c). intros x. btests. Qed.

(** Digits in base 64, the first the lowest. *)
Definition value64 (cs : list Z) : Z := foldr (λ c v, ascii_to_bin c + 64 * v) 0 cs.

Lemma xor_bytes a b : length a = length b → xor (bytes_bits a) (bytes_bits b) = bytes_bits (zip_with Z.lxor a b).
Proof.
  revert b. induction a as [|x a IH]; intros [|y b] H; try done. cbn [zip_with].
  change (bytes_bits (x :: a)) with (bits 8 x ++ bytes_bits a). change (bytes_bits (y :: b)) with (bits 8 y ++ bytes_bits b).
  change (bytes_bits (Z.lxor x y :: zip_with Z.lxor a b)) with (bits 8 (Z.lxor x y) ++ bytes_bits (zip_with Z.lxor a b)).
  rewrite xor_app by (by rewrite !bits_length). by rewrite bits_xor, IH by (by injection H).
Qed.

(** [key_xor] combines the buffer with the next characters, as far as they go. *)
Lemma key_xor_spec q text rest : is_bytes q → Forall (λ c, c ≠ 0) text →
  ∃ q', key_xor q (text ++ 0 :: rest) = Some (q', drop (length q) text ++ 0 :: rest) ∧ length q' = length q ∧ is_bytes q' ∧
    bytes_bits q' = xor (bytes_bits q) (bytes_bits (take (length q) (map (λ c, u8 (2 * c)) text ++ replicate (length q) 0))).
Proof.
  intros Hq. revert text. induction Hq as [|b q Hb Hq IH]; intros text Ht; [exists []; cbn [length]; rewrite drop_0; split; [done|]; split; [done|]; split; [constructor|done]|]. destruct text as [|c text]; cbn [app key_xor head mbind option_bind].
  - rewrite Z.eqb_refl. exists (b :: q). rewrite drop_nil. split; [done|]. split; [done|]. split; [by constructor|]. cbn [map app].
    rewrite take_ge by (by rewrite length_replicate). rewrite xor_bytes by (by rewrite length_replicate). f_equal.
    assert (∀ l : list Z, zip_with Z.lxor l (replicate (length l) 0) = l) as Hz; [|done].
    intros l. induction l as [|x l IHl]; [done|]. cbn. by rewrite Z.lxor_0_r, IHl.
  - apply Forall_cons in Ht as [Hc Ht]. rewrite (proj2 (Z.eqb_neq c 0)) by done. cbn [tail]. destruct (IH text Ht) as (q' & Eq & Hl & Hb' & Bq). rewrite Eq.
    cbn [mbind option_bind fst snd length drop]. eexists. split; [done|]. split; [cbn; by rewrite Hl|]. split; [constructor; [unfold u8; apply Z.mod_pos_bound; lia|done]|].
    change (bytes_bits (?x :: ?l)) with (bits 8 x ++ bytes_bits l). rewrite Bq. cbn [map app take]. change (bytes_bits (?x :: ?l)) with (bits 8 x ++ bytes_bits l).
    rewrite xor_app by (by rewrite !bits_length). f_equal.
    + rewrite Z.shiftl_mul_pow2, Z.mul_comm by lia. change (2 ^ 1) with 2. unfold u8. change 256 with (2 ^ 8). by rewrite !bits_mod, bits_xor by lia.
    + do 2 f_equal. rewrite !take_app, !take_replicate. do 2 f_equal. lia.
Qed.

(** A key longer than eight characters in the extended format: the block is enciphered
    with itself as the key and combined with the next eight characters. *)
Fixpoint ref_fold (n : nat) (text : list Z) (block : list bool) : list bool :=
  match n, text with
  | S n, _ :: _ => ref_fold n (drop 8 text) (xor (ref_des 0 (ref_schedule block) 1 block) (bytes_bits (key_block text)))
  | _, _ => block
  end.

Lemma ref_fold_step n c text block : ref_fold (S n) (c :: text) block =
  ref_fold n (drop 8 (c :: text)) (xor (ref_des 0 (ref_schedule block) 1 block) (bytes_bits (key_block (c :: text)))).
Proof. cbn [ref_fold]. reflexivity. Qed.

(** Any bound that is not below the length of the text gives the same block. *)
Lemma ref_fold_enough n m text block : (length text <= n)%nat → (length text <= m)%nat → ref_fold n text block = ref_fold m text block.
Proof.
  revert m text block. induction n as [|n IH]; intros m text block Hn Hm; [destruct text; [by destruct m|cbn in Hn; lia]|].
  destruct text as [|c text]; [by destruct m|]. destruct m as [|m]; [cbn in Hm; lia|]. rewrite !ref_fold_step. apply IH; rewrite length_drop; lia.
Qed.

Lemma fold_key_step n keybuf c key d : c ≠ 0 →
  fold_key (S n) keybuf (c :: key) d =
    (e ← des_cipher keybuf 0 1 d;
     match e with
     | (d, None) => Some None
     | (d, Some keybuf) => r ← key_xor keybuf (c :: key); d ← des_setkey (fst r) d; fold_key n (fst r) (snd r) d
     end).
Proof. intros Hc. cbn [fold_key head mbind option_bind]. by rewrite (proj2 (Z.eqb_neq c 0)). Qed.

Lemma fold_key_spec n text rest keybuf d : (length text <= n)%nat → Forall (λ c, c ≠ 0) text → length keybuf = 8%nat → is_bytes keybuf →
  des_inv d → keyed d (bytes_bits keybuf) → is_Some (des_initialised d) →
  ∃ d' keybuf', fold_key (S n) keybuf (text ++ 0 :: rest) d = Some (Some (d', keybuf')) ∧ des_inv d' ∧ is_Some (des_initialised d') ∧
    keyed d' (ref_fold n text (bytes_bits keybuf)).
Proof.
  revert text keybuf d. induction n as [|n IH]; intros text keybuf d Hn Ht Hl Hb Hd Hk Hi.
  { destruct text; [|cbn in Hn; lia]. by exists d, keybuf. }
  destruct text as [|c text]; [by exists d, keybuf|]. set (cs := c :: text) in *.
  assert (c ≠ 0) as Hc by (by apply Forall_cons in Ht as [? _]).
  destruct (des_cipher_spec keybuf 0 1 d (bytes_bits keybuf) Hd Hk) as (d1 & out & Eo & Hd1 & Hk1 & Lo & Vo & Bo); [lia|unfold pass_count; lia|lia|done|].
  destruct (key_xor_spec out cs rest Vo Ht) as (q & Eq & Lq & Vq & Bq). rewrite Lo in Eq, Bq, Lq. change (take 8 (map _ cs ++ replicate 8 0)) with (key_block cs) in Bq.
  destruct (des_setkey_spec q d1 Hd1) as (d2 & t & E2 & Hd2 & Et & Hk2); [lia|done|]. rewrite take_ge in Hk2, Bo by lia.
  destruct (IH (drop 8 cs) q d2) as (d3 & q3 & E3 & H3); [rewrite length_drop; lia|by apply Forall_drop|done|done|done|done|by rewrite Et|].
  exists d3, q3. split.
  - change (cs ++ 0 :: rest) with (c :: (text ++ 0 :: rest)) in *. rewrite fold_key_step by done.
    rewrite Eo. cbn [mbind option_bind]. rewrite Eq. cbn [mbind option_bind fst snd]. rewrite E2. exact E3.
  - assert (ref_fold (S n) cs (bytes_bits keybuf) = ref_fold n (drop 8 cs) (bytes_bits q)) as ->; [|done].
    subst cs. rewrite ref_fold_step.
    rewrite Bq. f_equal. f_equal. symmetry. exact Bo.
Qed.

Lemma read64_spec setting a cs rest : 0 <= a → (length cs = 4)%nat → drop (Z.to_nat a) setting = cs ++ rest → read64 setting a 4 = Some (value64 cs).
Proof.
  intros Ha Hl Hd. destruct cs as [|c0 [|c1 [|c2 [|c3 [|]]]]]; try done. unfold read64, value64. cbn [loop foldr].
  assert (∀ i, 0 <= i < 4 → setting.[a + i] = [c0; c1; c2; c3] !! Z.to_nat i) as Hi.
  { intros i Hi. rewrite <- (Z2Nat.id (a + i)) by lia. rewrite idx_nat. replace (Z.to_nat (a + i)) with (Z.to_nat a + Z.to_nat i)%nat by lia.
    rewrite <- lookup_drop, Hd. apply lookup_app_l. cbn. lia. }
  pose proof (Hi 0 ltac:(lia) : _ = Some c0) as I0. pose proof (Hi 1 ltac:(lia) : _ = Some c1) as I1.
  pose proof (Hi 2 ltac:(lia) : _ = Some c2) as I2. pose proof (Hi 3 ltac:(lia) : _ = Some c3) as I3. clear Hi.
  change (0 + 1 + 1 + 1) with 3. change (0 + 1 + 1) with 2. change (0 + 1) with 1.
  rewrite I0, I1, I2, I3. cbn [mbind option_bind]. clear I0 I1 I2 I3.
  pose proof (ascii_to_bin_range c0). pose proof (ascii_to_bin_range c1). pose proof (ascii_to_bin_range c2). pose proof (ascii_to_bin_range c3).
  generalize dependent (ascii_to_bin c0). generalize dependent (ascii_to_bin c1). generalize dependent (ascii_to_bin c2). generalize dependent (ascii_to_bin c3).
  intros v3 H3 v2 H2 v1 H1 v0 H0. rewrite !Z.shiftl_mul_pow2 by lia.
  change (2 ^ (0 * 6)) with 1. change (2 ^ (1 * 6)) with 64. change (2 ^ (2 * 6)) with 4096. change (2 ^ (3 * 6)) with 262144.
  rewrite !u32_small by (unfold is_u32; lia). f_equal. rewrite Z.lor_0_l, Z.mul_1_r.
  assert (∀ y, 0 <= y < 64 → Z.lor (v1 * 64) y = v1 * 64 + y) as L1 by (intros y Hy; apply (lor_mul 6); lia).
  assert (∀ y, 0 <= y < 4096 → Z.lor (v2 * 4096) y = v2 * 4096 + y) as L2 by (intros y Hy; apply (lor_mul 12); lia).
  assert (∀ y, 0 <= y < 262144 → Z.lor (v3 * 262144) y = v3 * 262144 + y) as L3 by (intros y Hy; apply (lor_mul 18); lia).
  rewrite (Z.lor_comm v0), L1 by lia. rewrite (Z.lor_comm _ (v2 * 4096)), L2 by lia. rewrite (Z.lor_comm _ (v3 * 262144)), L3 by lia. lia.
Qed.

Lemma stpncpy_text_spec text rest : Forall (λ c, c ≠ 0) text → stpncpy_text (length text) (text ++ rest) = Some text.
Proof.
  induction 1 as [|c text Hc Ht IH]; [done|]. cbn [length app stpncpy_text head mbind option_bind]. rewrite (proj2 (Z.eqb_neq c 0)) by done. cbn [tail]. by rewrite IH.
Qed.

Lemma value64_range cs : 0 <= value64 cs < 2 ^ (6 * Z.of_nat (length cs)).
Proof.
  induction cs as [|c cs IH]; [cbn; lia|]. cbn [value64 foldr length]. fold (value64 cs). pose proof (ascii_to_bin_range c).
  replace (6 * Z.of_nat (S (length cs))) with (6 + 6 * Z.of_nat (length cs)) by lia. rewrite Z.pow_add_r by lia. change (2 ^ 6) with 64. lia.
Qed.

Definition zero_block : list bool := replicate 64 false.

(** The last part of [crypt_des], once the key is set. *)
Lemma crypt_output d kb t salt count pre : des_inv d → des_initialised d = Some t → keyed d kb → 0 < count < 2 ^ 31 →
  ∃ d', des_inv d' ∧
    (let d := setup_salt salt d in
     t ← des_initialised d; out ← do_des t d 0 0 (s32 count);
     match out with None => Some (d, None) | Some (r0, r1) => e ← encode_block r0 r1; Some (d, Some (pre ++ e)) end)
    = Some (d', Some (pre ++ base64 (ref_des salt (ref_schedule kb) (Z.to_nat count) zero_block))).
Proof.
  intros Hd Et Hk Hc. destruct (setup_salt_spec salt d Hd t Et) as (Hd1 & Et1 & Hs & Een & Ede). cbn zeta. set (d1 := setup_salt salt d) in *. exists d1. split; [done|].
  assert (s32 count = count) as -> by (apply s32_small; unfold is_s32; lia).
  rewrite Et1. cbn [mbind option_bind]. assert (keyed d1 kb) as Hk1 by (unfold keyed in *; rewrite Een, Ede; done).
  assert (tables_ok t) as Ht by (unfold des_inv in Hd; rewrite Et in Hd; apply Hd).
  destruct (do_des_spec t d1 salt 0 0 count kb Ht Hs Hk1) as (l & r & Eo & _ & _ & Bo); [lia|unfold pass_count; lia|lia|lia|]. rewrite Eo. cbn [mbind option_bind].
  rewrite encode_block_spec. cbn [mbind option_bind]. rewrite Bo. unfold direction. rewrite (proj2 (Z.ltb_lt 0 count)), Z.abs_eq by lia.
  replace (bits 32 0 ++ bits 32 0) with zero_block by reflexivity. done.
Qed.

Lemma crypt_des_start text rest d : des_inv d → Forall (λ c, c ≠ 0) text →
  ∃ d0 t0 d1 t1, ensure_init d = Some (d0, t0) ∧ key_copy 8 (text ++ 0 :: rest) = Some (key_block text, drop 8 text ++ 0 :: rest) ∧
    des_setkey (key_block text) d0 = Some d1 ∧ des_inv d1 ∧ des_initialised d1 = Some t1 ∧ keyed d1 (bytes_bits (key_block text)).
Proof.
  intros Hd Ht. destruct (ensure_init_spec d Hd) as (d0 & t0 & E0 & Hd0 & _). destruct (key_copy_spec 8 text rest Ht) as (key & Ek & ->).
  destruct (key_block_bytes text) as [Hl Hb]. destruct (des_setkey_spec (key_block text) d0 Hd0) as (d1 & t1 & E1 & Hd1 & Et1 & Hk1); [lia|done|].
  rewrite take_ge in Hk1 by lia. by exists d0, t0, d1, t1.
Qed.

Lemma bytes_bits_inj a b : length a = length b → is_bytes a → is_bytes b → bytes_bits a = bytes_bits b → a = b.
Proof.
  revert b. induction a as [|x a IH]; intros [|y b] Hl Ha Hb Eb; try done. apply Forall_cons in Ha as [Hx Ha], Hb as [Hy Hb].
  change (bits 8 x ++ bytes_bits a = bits 8 y ++ bytes_bits b) in Eb. apply app_inj_1 in Eb as [E1 E2]; [|by rewrite !bits_length].
  f_equal; [by apply (bits_inj 8)|]. apply IH; try done. by injection Hl.
Qed.

(** ** What callers get *)

(** C27: In any state the functions of crypt.c leave behind, setting a key and enciphering
    a block gives the block of the standard: [count] passes of DES with crypt(3)'s salt
    under the key's schedule, backwards for a negative count.  A count of zero fails, and no
    block is made.  The count is any [int] but the smallest, which cannot be negated. *)
Theorem des_cipher_correct d key input salt count : des_inv d → length key = 8%nat → is_bytes key → length input = 8%nat → is_bytes input → pass_count count →
  ∃ d1 d2 r, des_setkey key d = Some d1 ∧ des_cipher input salt count d1 = Some (d2, r) ∧ des_inv d1 ∧ des_inv d2 ∧
    if decide (count = 0) then r = None
    else ∃ out, r = Some out ∧ length out = 8%nat ∧ is_bytes out ∧
      bytes_bits out = ref_des salt (direction count (ref_schedule (bytes_bits key))) (Z.to_nat (Z.abs count)) (bytes_bits input).
Proof.
  intros Hd Hk Vk Hi Vi Hpc. destruct (des_setkey_spec key d Hd) as (d1 & t & E1 & Hd1 & _ & Hk1); [lia|done|]. case_decide as Hc.
  - subst count. destruct (des_cipher_zero input salt d1 Hd1) as (d2 & E2 & Hd2); [lia|done|]. by exists d1, d2, None.
  - destruct (des_cipher_spec input salt count d1 _ Hd1 Hk1 Hc Hpc) as (d2 & out & E2 & Hd2 & _ & Ho); [lia|done|].
    rewrite !take_ge in Ho by lia. exists d1, d2, (Some out). split_and!; [done..|]. by exists out.
Qed.

Lemma des_cipher_correct_witness :
  ∃ d1 d2 r, des_setkey [19; 52; 87; 121; 155; 188; 223; 241] des_start = Some d1 ∧ des_cipher [1; 35; 69; 103; 137; 171; 205; 239] 0 1 d1 = Some (d2, r) ∧
    des_inv d1 ∧ des_inv d2 ∧ ∃ out, r = Some out ∧ length out = 8%nat ∧ is_bytes out ∧
    bytes_bits out = ref_des 0 (direction 1 (ref_schedule (bytes_bits [19; 52; 87; 121; 155; 188; 223; 241]))) 1 (bytes_bits [1; 35; 69; 103; 137; 171; 205; 239]).
Proof. apply (des_cipher_correct des_start [19; 52; 87; 121; 155; 188; 223; 241] [1; 35; 69; 103; 137; 171; 205; 239] 0 1); [exact I|reflexivity|repeat constructor; lia|reflexivity|repeat constructor; lia|unfold pass_count; lia]. Defined.

(** C29: Decrypting undoes encrypting: enciphering the result again with the same salt and
    the count negated gives back the block, whatever the key, for every count that is an
    [int] other than zero and the smallest. *)
Theorem des_decrypts d key input salt count : des_inv d → length key = 8%nat → is_bytes key → length input = 8%nat → is_bytes input → count ≠ 0 → pass_count count →
  ∃ d1 d2 d3 out, des_setkey key d = Some d1 ∧ des_cipher input salt count d1 = Some (d2, Some out) ∧ des_cipher out salt (- count) d2 = Some (d3, Some input).
Proof.
  intros Hd Hk Vk Hi Vi Hc Hpc. destruct (des_setkey_spec key d Hd) as (d1 & t & E1 & Hd1 & _ & Hk1); [lia|done|].
  destruct (des_cipher_spec input salt count d1 _ Hd1 Hk1 Hc Hpc) as (d2 & out & E2 & Hd2 & Hk2 & Lo & Vo & Bo); [lia|done|].
  destruct (des_cipher_spec out salt (- count) d2 _ Hd2 Hk2) as (d3 & back & E3 & _ & _ & Lb & Vb & Bb); [lia|unfold pass_count in *; lia|lia|done|].
  exists d1, d2, d3, out. split; [done|]. split; [done|]. rewrite E3. do 3 f_equal. apply bytes_bits_inj; [lia|done|done|].
  rewrite Bb, !take_ge by lia. rewrite Bo, !take_ge by lia. rewrite Z.abs_opp. set (ks := ref_schedule (bytes_bits key)).
  assert (length (bytes_bits input) = 64%nat) as Hlen by (rewrite bytes_bits_length; lia). assert (direction (- count) ks = rev (direction count ks)) as ->.
  { unfold direction. destruct (Z.ltb_spec 0 count), (Z.ltb_spec 0 (- count)); try lia; [done|by rewrite rev_involutive]. }
  by apply ref_des_rev.
Qed.
Lemma des_decrypts_witness :
  ∃ d1 d2 d3 out, des_setkey [19; 52; 87; 121; 155; 188; 223; 241] des_start = Some d1 ∧ des_cipher [1; 35; 69; 103; 137; 171; 205; 239] 77 25 d1 = Some (d2, Some out) ∧
    des_cipher out 77 (-25) d2 = Some (d3, Some [1; 35; 69; 103; 137; 171; 205; 239]).
Proof. apply (des_decrypts des_start [19; 52; 87; 121; 155; 188; 223; 241] [1; 35; 69; 103; 137; 171; 205; 239] 77 25); [exact I|reflexivity|repeat constructor; lia|reflexivity|repeat constructor; lia|lia|unfold pass_count; lia]. Defined.

(** With a setting of two salt characters, [crypt_des] returns them (the first twice
    when the second is the terminator) and the zero block enciphered 25 times under the
    first eight characters of the key, in the alphabet of crypt(3). *)
Theorem crypt_des_traditional d text rest c s1 setting : des_inv d → Forall (λ c, c ≠ 0) text → c ≠ 95 →
  ∃ d', des_inv d' ∧ crypt_des (text ++ 0 :: rest) (c :: s1 :: setting) d =
    Some (d', Some ([c; if s1 =? 0 then c else s1] ++ base64 (ref_des (value64 [c; s1]) (ref_schedule (bytes_bits (key_block text))) 25 zero_block))).
Proof.
  intros Hd Ht Hc. destruct (crypt_des_start text rest d Hd Ht) as (d0 & t0 & d1 & t1 & E0 & Ek & E1 & Hd1 & Et1 & Hk1).
  unfold crypt_des. rewrite E0. cbn [mbind option_bind fst]. rewrite Ek. cbn [mbind option_bind fst snd]. rewrite E1. cbn [mbind option_bind].
  unfold crypt_setting. cbn [head mbind option_bind]. rewrite (proj2 (Z.eqb_neq c 95)) by done. change ((c :: s1 :: setting).[1]) with (Some s1). cbn [mbind option_bind].
  pose proof (ascii_to_bin_range c). pose proof (ascii_to_bin_range s1).
  assert (Z.lor (u32 (Z.shiftl (ascii_to_bin s1) 6)) (ascii_to_bin c) = value64 [c; s1]) as ->.
  { rewrite Z.shiftl_mul_pow2 by lia. rewrite u32_small by (unfold is_u32; lia). rewrite lor_mul by lia. cbn [value64 foldr]. lia. }
  destruct (crypt_output d1 _ t1 (value64 [c; s1]) 25 [c; if s1 =? 0 then c else s1] Hd1 Et1 Hk1) as (d' & Hd' & Eo); [lia|]. exists d'. split; [done|]. exact Eo.
Qed.
Lemma crypt_des_traditional_witness :
  ∃ d', des_inv d' ∧ crypt_des ([102; 111; 111; 98] ++ [0]) [97; 114; 0] des_start =
    Some (d', Some ([97; 114] ++ base64 (ref_des (value64 [97; 114]) (ref_schedule (bytes_bits (key_block [102; 111; 111; 98]))) 25 zero_block))).
Proof. apply (crypt_des_traditional des_start [102; 111; 111; 98] [] 97 114 [0]); [exact I|repeat constructor; lia|lia]. Defined.

(** C36: With an extended setting (an underscore, four digits of count, four of salt),
    [crypt_des] folds the whole key, eight characters at a time, and enciphers the zero
    block as often as the count says; a count of zero is the only failure. *)
Theorem crypt_des_extended d text rest cs ss setting : des_inv d → Forall (λ c, c ≠ 0) text → Forall (λ c, c ≠ 0) (cs ++ ss) → length cs = 4%nat → length ss = 4%nat →
  ∃ d', crypt_des (text ++ 0 :: rest) (95 :: cs ++ ss ++ setting) d =
    Some (d', if value64 cs =? 0 then None
      else Some (95 :: cs ++ ss ++ base64 (ref_des (value64 ss) (ref_schedule (ref_fold (length text) (drop 8 text) (bytes_bits (key_block text)))) (Z.to_nat (value64 cs)) zero_block))).
Proof.
  intros Hd Ht Hs Lc Ls. destruct (crypt_des_start text rest d Hd Ht) as (d0 & t0 & d1 & t1 & E0 & Ek & E1 & Hd1 & Et1 & Hk1).
  destruct (key_block_bytes text) as [Lk Vk].
  destruct (fold_key_spec (length (drop 8 text ++ 0 :: rest)) (drop 8 text) rest (key_block text) d1) as (d2 & kb & E2 & Hd2 & [t2 Et2] & Hk2);
    [rewrite length_app; lia|by apply Forall_drop|done|done|done|done|by rewrite Et1|].
  rewrite (ref_fold_enough _ (length text)) in Hk2 by (rewrite ?length_app, ?length_drop; lia).
  unfold crypt_des. rewrite E0. cbn [mbind option_bind fst]. rewrite Ek. cbn [mbind option_bind fst snd]. rewrite E1. cbn [mbind option_bind].
  unfold crypt_setting. cbn [head mbind option_bind]. change (95 =? 95) with true. cbn iota.
  rewrite (read64_spec _ 1 cs (ss ++ setting)) by (done || lia). cbn [mbind option_bind].
  rewrite (read64_spec _ 5 ss setting); [|lia|done|change (Z.to_nat 5) with (S 4); cbn [drop]; by rewrite drop_app_length' by done]. cbn [mbind option_bind].
  rewrite E2. cbn [mbind option_bind].
  assert (stpncpy_text 9 (95 :: cs ++ ss ++ setting) = Some (95 :: cs ++ ss)) as ->.
  { pose proof (stpncpy_text_spec (95 :: cs ++ ss) setting ltac:(by constructor)) as Hp. cbn [length app] in Hp. rewrite length_app, Lc, Ls, <- app_assoc in Hp. exact Hp. }
  cbn [mbind option_bind]. destruct (Z.eqb_spec (value64 cs) 0) as [-> |Hc].
  - destruct (setup_salt_spec (value64 ss) d2 Hd2 t2 Et2) as (_ & Et3 & _). exists (setup_salt (value64 ss) d2). rewrite Et3. done.
  - pose proof (value64_range cs) as Hr. rewrite Lc in Hr. change (2 ^ (6 * Z.of_nat 4)) with 16777216 in Hr.
    destruct (crypt_output d2 _ t2 (value64 ss) (value64 cs) (95 :: cs ++ ss) Hd2 Et2 Hk2) as (d' & _ & Eo); [lia|]. exists d'.
    cbn zeta in Eo. rewrite Eo. cbn [app]. by rewrite <- app_assoc.
Qed.
Lemma crypt_des_extended_witness :
  ∃ d', crypt_des ([85; 42; 85; 42; 85; 42; 85; 42; 85; 42] ++ [0]) (95 :: [74; 57; 46; 46] ++ [67; 67; 67; 67] ++ [0]) des_start =
    Some (d', Some (95 :: [74; 57; 46; 46] ++ [67; 67; 67; 67] ++ base64 (ref_des (value64 [67; 67; 67; 67])
      (ref_schedule (ref_fold 10 [85; 42] (bytes_bits (key_block [85; 42; 85; 42; 85; 42; 85; 42; 85; 42])))) 725 zero_block))).
Proof.
  apply (crypt_des_extended des_start [85; 42; 85; 42; 85; 42; 85; 42; 85; 42] [] [74; 57; 46; 46] [67; 67; 67; 67] [0]); [exact I|repeat constructor; lia|repeat constructor; lia|reflexivity|reflexivity].
Defined.
