(* ===== verification/LibStdio.v ===== *)
(** * Streams: stdio.c, memstream.c, getline.c and fopencookie.c

    A stream is an object with a buffer over a file descriptor, over memory that grows,
    or over functions of the caller.  The system below is a parameter: what its calls
    return and how its state changes.  Memory is blocks by address; an allocation
    answers with the next address of a list, 0 with [ENOMEM] when it fails, and fresh
    memory has any contents.  The address of a block that is freed is no longer a block.

    The loops that wait for the system take a number of rounds. *)

From S2P Require Import Prelude CString LibBase LibString.

Local Open Scope Z_scope.

(** ** Constants *)

Definition SEEK_SET : Z := 0.
Definition SEEK_CUR : Z := 1.
Definition SEEK_END : Z := 2.
Definition BUFSIZ : Z := 1024.
(** [sizeof(wchar_t)]. *)
Definition WCHAR : Z := 4.
Definition O_RDONLY : Z := 0.
Definition O_WRONLY : Z := 1.
Definition O_RDWR : Z := 2.
Definition O_CREAT : Z := 64.
Definition O_TRUNC : Z := 512.
Definition O_APPEND : Z := 1024.

(** [n] bytes of an array from [pos]. *)
Definition slice (l : list Z) (pos n : Z) : option (list Z) :=
  if (0 <=? pos) && (0 <=? n) && (pos + n <=? Z.of_nat (length l)) then Some (take (Z.to_nat n) (drop (Z.to_nat pos) l)) else None.

Section stdio.
Context {H : Type}.

(** ** The system *)

(** The calls, on a descriptor: the number they return, negative for an error; a read
    returns that number, or the bytes when it is not negative. *)
Record system := mk_system {
  sys_open : list Z → Z → Z → H → Z * H;
  sys_close : Z → H → Z * H;
  sys_read : Z → Z → H → (Z + list Z) * H;
  sys_write : Z → list Z → H → Z * H;
  sys_lseek : Z → Z → Z → H → Z * H;
  sys_fsync : Z → H → Z * H;
  sys_getfl : Z → H → Z * H
}.
Variable os : system.

(** The functions of a cookie; they may change [errno] as well. *)
Record cookie_io_functions_t := mk_cookie_io {
  io_read : option (Z → Z → H * Z → (Z + list Z) * (H * Z));
  io_write : option (Z → list Z → H * Z → Z * (H * Z));
  io_seek : option (Z → Z → Z → H * Z → (Z * Z) * (H * Z));
  io_close : option (Z → H * Z → Z * (H * Z))
}.

(** ** Streams *)

(** What is set when a stream is opened. *)
Record attributes := mk_attributes {
  is_mem : bool;
  is_wmem : bool;
  mem_bufp : Z;
  mem_sizep : Z;
  readable : bool;
  writable : bool;
  append : bool;
  is_cookie : bool;
  cookie : Z;
  functions : cookie_io_functions_t
}.

Record FILE := {
  fd : Z;
  buf : Z;
  bufsize : Z;
  bufpos : Z;
  buflen : Z;
  buf_owned : bool;
  error : bool;
  eof : bool;
  have_ungot : bool;
  ungot_char : Z;
  lock : bool;
  attrs : attributes
}.

Definition with_buf (x : Z) (s : FILE) : FILE :=
  {| fd := fd s; buf := x; bufsize := bufsize s; bufpos := bufpos s; buflen := buflen s;
     buf_owned := buf_owned s; error := error s; eof := eof s; have_ungot := have_ungot s;
     ungot_char := ungot_char s; lock := lock s; attrs := attrs s |}.
Definition with_bufsize (x : Z) (s : FILE) : FILE :=
  {| fd := fd s; buf := buf s; bufsize := x; bufpos := bufpos s; buflen := buflen s;
     buf_owned := buf_owned s; error := error s; eof := eof s; have_ungot := have_ungot s;
     ungot_char := ungot_char s; lock := lock s; attrs := attrs s |}.
Definition with_bufpos (x : Z) (s : FILE) : FILE :=
  {| fd := fd s; buf := buf s; bufsize := bufsize s; bufpos := x; buflen := buflen s;
     buf_owned := buf_owned s; error := error s; eof := eof s; have_ungot := have_ungot s;
     ungot_char := ungot_char s; lock := lock s; attrs := attrs s |}.
Definition with_buflen (x : Z) (s : FILE) : FILE :=
  {| fd := fd s; buf := buf s; bufsize := bufsize s; bufpos := bufpos s; buflen := x;
     buf_owned := buf_owned s; error := error s; eof := eof s; have_ungot := have_ungot s;
     ungot_char := ungot_char s; lock := lock s; attrs := attrs s |}.
Definition with_buf_owned (x : bool) (s : FILE) : FILE :=
  {| fd := fd s; buf := buf s; bufsize := bufsize s; bufpos := bufpos s; buflen := buflen s;
     buf_owned := x; error := error s; eof := eof s; have_ungot := have_ungot s;
     ungot_char := ungot_char s; lock := lock s; attrs := attrs s |}.
Definition with_error (x : bool) (s : FILE) : FILE :=
  {| fd := fd s; buf := buf s; bufsize := bufsize s; bufpos := bufpos s; buflen := buflen s;
     buf_owned := buf_owned s; error := x; eof := eof s; have_ungot := have_ungot s;
     ungot_char := ungot_char s; lock := lock s; attrs := attrs s |}.
Definition with_eof (x : bool) (s : FILE) : FILE :=
  {| fd := fd s; buf := buf s; bufsize := bufsize s; bufpos := bufpos s; buflen := buflen s;
     buf_owned := buf_owned s; error := error s; eof := x; have_ungot := have_ungot s;
     ungot_char := ungot_char s; lock := lock s; attrs := attrs s |}.
Definition with_lock (x : bool) (s : FILE) : FILE :=
  {| fd := fd s; buf := buf s; bufsize := bufsize s; bufpos := bufpos s; buflen := buflen s;
     buf_owned := buf_owned s; error := error s; eof := eof s; have_ungot := have_ungot s;
     ungot_char := ungot_char s; lock := x; attrs := attrs s |}.
Definition with_ungot (x : bool) (c : Z) (s : FILE) : FILE :=
  {| fd := fd s; buf := buf s; bufsize := bufsize s; bufpos := bufpos s; buflen := buflen s; buf_owned := buf_owned s; error := error s; eof := eof s;
     have_ungot := x; ungot_char := c; lock := lock s; attrs := attrs s |}.
(** [have_ungot = 0]. *)
Definition no_ungot (s : FILE) : FILE := with_ungot false (ungot_char s) s.

(** The state: the system, [errno], the blocks, the pointers and sizes a caller gave the
    address of, the streams, and the answers of the allocator. *)
Record io := {
  host : H;
  errno : Z;
  blocks : gmap Z (list Z);
  cells : gmap Z Z;
  files : gmap Z FILE;
  supply : list Z
}.

Definition with_host (x : H) (s : io) : io :=
  {| host := x; errno := errno s; blocks := blocks s; cells := cells s; files := files s;
     supply := supply s |}.
Definition with_errno (x : Z) (s : io) : io :=
  {| host := host s; errno := x; blocks := blocks s; cells := cells s; files := files s;
     supply := supply s |}.
Definition with_blocks (x : gmap Z (list Z)) (s : io) : io :=
  {| host := host s; errno := errno s; blocks := x; cells := cells s; files := files s;
     supply := supply s |}.
Definition with_cells (x : gmap Z Z) (s : io) : io :=
  {| host := host s; errno := errno s; blocks := blocks s; cells := x; files := files s;
     supply := supply s |}.
Definition with_files (x : gmap Z FILE) (s : io) : io :=
  {| host := host s; errno := errno s; blocks := blocks s; cells := cells s; files := x;
     supply := supply s |}.
Definition with_supply (x : list Z) (s : io) : io :=
  {| host := host s; errno := errno s; blocks := blocks s; cells := cells s; files := files s;
     supply := x |}.

(** What fresh memory of a size holds, and the rounds of the loops that wait. *)
Variable fresh : Z → list Z.
Variable rounds : nat.

Definition spin {A} : M io A := λ _, Spin.
Definition get_file (p : Z) : M io FILE := λ s, match files s !! p with Some f => Done (f, s) | None => Undef end.
Definition set_file (p : Z) (f : FILE) : M io unit := modify (λ s, with_files (<[p := f]> (files s)) s).
Definition set_errno (e : Z) : M io unit := modify (with_errno e).
Definition get_block (a : Z) : M io (list Z) := λ s, match blocks s !! a with Some b => Done (b, s) | None => Undef end.
Definition set_block (a : Z) (b : list Z) : M io unit := modify (λ s, with_blocks (<[a := b]> (blocks s)) s).
Definition set_cell (a x : Z) : M io unit := modify (λ s, with_cells (<[a := x]> (cells s)) s).
(** [memcpy] into a block. *)
Definition write_block (a pos : Z) (t : list Z) : M io unit :=
  b ← get_block a; b ← liftO (blit b pos t); set_block a b.

(** *** The allocator *)

Definition next_address : M io Z := λ s,
  match supply s with
  | [] => Done (0, with_errno ENOMEM s)
  | a :: l => Done (a, with_supply l (if a =? 0 then with_errno ENOMEM s else s))
  end.
Definition malloc (size : Z) : M io Z :=
  if size =? 0 then mret 0 else
  a ← next_address; if a =? 0 then mret 0 else set_block a (fresh size);; mret a.
Definition free (a : Z) : M io unit :=
  if a =? 0 then mret tt else _ ← get_block a; modify (λ s, with_blocks (delete a (blocks s)) s).
Definition realloc (a size : Z) : M io Z :=
  if a =? 0 then malloc size else
  if size =? 0 then free a;; mret 0 else
  b ← get_block a;
  a' ← next_address; if a' =? 0 then mret 0 else
  modify (λ s, with_blocks (delete a (blocks s)) s);;
  set_block a' (take (Z.to_nat size) b ++ drop (length b) (fresh size));; mret a'.

(** *** io.c, fd.c, fcntl.c: the system calls *)

Definition syscall (call : H → Z * H) : M io Z := λ s,
  let '(ret, h) := call (host s) in
  Done (if ret <? 0 then (-1, with_errno (- ret) (with_host h s)) else (ret, with_host h s)).
(** The mode is an argument only when a file may be made. *)
Definition open (path : list Z) (flags mode : Z) : M io Z :=
  ret ← syscall (sys_open os path flags (if Z.land flags O_CREAT =? 0 then 0 else mode)); mret (s32 ret).
Definition close (fd : Z) : M io Z := ret ← syscall (sys_close os fd); mret (s32 ret).
Definition write (fd : Z) (data : list Z) : M io Z := syscall (sys_write os fd data).
Definition lseek (fd offset whence : Z) : M io Z := syscall (sys_lseek os fd offset whence).
Definition getfl (fd : Z) : M io Z := ret ← syscall (sys_getfl os fd); mret (s32 ret).
(** The bytes, [None] for -1. *)
Definition read (fd count : Z) : M io (option (list Z)) := λ s,
  let '(r, h) := sys_read os fd count (host s) in
  Done (match r with inl e => (None, with_errno (- e) (with_host h s)) | inr data => (Some data, with_host h s) end).

(** A function of a cookie. *)
Definition callback {A} (f : H * Z → A * (H * Z)) : M io A := λ s,
  let '(r, (h, e)) := f (host s, errno s) in Done (r, with_errno e (with_host h s)).

(** ** stdio.c *)

(** [while (off < stream->buflen)] of [flush_buffer]; [put] is [write] or the function
    of the cookie. *)
Fixpoint flush_loop (n : nat) (put : list Z → M io Z) (data : list Z) (off : Z) : M io bool :=
  if Z.of_nat (length data) <=? off then mret true else
  match n with
  | O => spin
  | S n =>
      w ← put (drop (Z.to_nat off) data);
      if w <? 0 then
        e ← gets errno;
        if (e =? EINTR) || (e =? EAGAIN) then flush_loop n put data off else mret false
      else flush_loop n put data (off + w)
  end.
(** The end of both branches that write. *)
Definition flush_out (p : Z) (put : FILE → list Z → M io Z) : M io Z :=
  f ← get_file p;
  b ← get_block (buf f); data ← liftO (slice b 0 (buflen f));
  ok ← flush_loop rounds (put f) data 0;
  f ← get_file p;
  if ok : bool then set_file p (with_bufpos 0 (with_buflen 0 f));; mret 0
  else set_file p (with_error true f);; mret (-1).
Definition put_cookie (f : FILE) (data : list Z) : M io Z :=
  match io_write (functions (attrs f)) with None => mret 0 | Some w => callback (w (cookie (attrs f)) data) end.
(** Make room in the memory of a stream: [false] when there is none. *)
Definition resize (p need : Z) : M io bool :=
  f ← get_file p;
  tmp ← realloc (buf f) need;
  if tmp =? 0 then set_file p (with_error true f);; mret false
  else set_file p (with_bufsize need (with_buf tmp f));; mret true.
Definition flush_mem (p : Z) : M io Z :=
  f ← get_file p;
  let term := if is_wmem (attrs f) then WCHAR else 1 in
  let need := u64 (buflen f + term) in
  ok ← (if bufsize f <? need then resize p need else mret true);
  if negb ok then mret (-1) else
  f ← get_file p;
  write_block (buf f) (buflen f) (repeat 0 (Z.to_nat term));;
  (if mem_bufp (attrs f) =? 0 then mret tt else set_cell (mem_bufp (attrs f)) (buf f));;
  (if mem_sizep (attrs f) =? 0 then mret tt else set_cell (mem_sizep (attrs f)) (if is_wmem (attrs f) then buflen f / WCHAR else buflen f));;
  mret 0.
Definition flush_buffer (p : Z) : M io Z :=
  if p =? 0 then mret 0 else
  f ← get_file p;
  if (buf f =? 0) || (buflen f =? 0) then mret 0 else
  if is_mem (attrs f) then flush_mem p
  else if is_cookie (attrs f) then flush_out p put_cookie
  else flush_out p (λ f, write (fd f)).

(** *** Opening *)

Definition no_functions : cookie_io_functions_t := mk_cookie_io None None None None.
(** [memset(f, 0, sizeof(FILE))] and the fields that are set after it. *)
Definition new_file (fd : Z) (a : attributes) : FILE :=
  {| fd := fd; buf := 0; bufsize := 0; bufpos := 0; buflen := 0; buf_owned := false; error := false; eof := false;
     have_ungot := false; ungot_char := 0; lock := false; attrs := a |}.
(** [malloc(sizeof(FILE))]. *)
Definition malloc_file (f : FILE) : M io Z :=
  p ← next_address; if p =? 0 then mret 0 else set_file p f;; mret p.

Definition c_str (s : list Z) : list Z := s ++ [0].
(** The modes with their flags, in the order of the tests. *)
Definition open_modes : list (list Z * Z) :=
  [([114], O_RDONLY); ([114; 43], O_RDWR); ([119], Z.lor O_WRONLY (Z.lor O_CREAT O_TRUNC)); ([119; 43], Z.lor O_RDWR (Z.lor O_CREAT O_TRUNC));
   ([97], Z.lor O_WRONLY (Z.lor O_CREAT O_APPEND)); ([97; 43], Z.lor O_RDWR (Z.lor O_CREAT O_APPEND))].
Fixpoint mode_flags (mode : list Z) (l : list (list Z * Z)) : option (option Z) :=
  match l with
  | [] => Some None
  | (m, flags) :: l => c ← strcmp mode (c_str m); if c =? 0 then Some (Some flags) else mode_flags mode l
  end.
(** [mode[0] == c], and whether the mode has a plus sign. *)
Definition mode_is (mode : list Z) (c : Z) : option bool := m ← mode.[0]; Some (m =? c).
Definition has_plus (mode : list Z) : option bool := r ← strchr mode 43; Some (match r with Some _ => true | None => false end).

Definition fopen (path mode : list Z) : M io Z :=
  flags ← liftO (mode_flags mode open_modes);
  match flags with
  | None => set_errno EINVAL;; mret 0
  | Some flags =>
      fd ← open path flags 420;
      if fd <? 0 then mret 0 else
      r ← liftO (mode_is mode 114); w ← liftO (mode_is mode 119); a ← liftO (mode_is mode 97); plus ← liftO (has_plus mode);
      p ← malloc_file (new_file fd (mk_attributes false false 0 0 (r || plus) (w || a || plus) a false 0 no_functions));
      if p =? 0 then close fd;; set_errno ENOMEM;; mret 0 else mret p
  end.

(** [None] is a null mode. *)
Definition fdopen (fd : Z) (mode : option (list Z)) : M io Z :=
  match mode with
  | None => set_errno EINVAL;; mret 0
  | Some mode =>
      r ← liftO (mode_is mode 114); w ← liftO (mode_is mode 119); a ← liftO (mode_is mode 97);
      if negb (r || w || a) then set_errno EINVAL;; mret 0 else
      plus ← liftO (has_plus mode);
      let want_read := r || plus in
      let want_write := w || a || plus in
      fl ← getfl fd;
      if fl <? 0 then mret 0 else
      let acc := Z.land fl (Z.lor O_RDONLY (Z.lor O_WRONLY O_RDWR)) in
      let fd_read := (acc =? O_RDONLY) || (acc =? O_RDWR) in
      let fd_write := (acc =? O_WRONLY) || (acc =? O_RDWR) in
      if (want_read && negb fd_read) || (want_write && negb fd_write) then set_errno EBADF;; mret 0 else
      p ← malloc_file (new_file fd (mk_attributes false false 0 0 want_read want_write a false 0 no_functions));
      if p =? 0 then set_errno ENOMEM;; mret 0 else mret p
  end.

(** *** Reading *)

(** [eof] or [error] at the end of a loop. *)
Definition stop_reading (p : Z) (failed : bool) : M io unit :=
  f ← get_file p; set_file p (if failed then with_error true f else with_eof true f).

Fixpoint fread_cookie (n : nat) (p total : Z) (out : list Z) (copied : Z) : M io (list Z * Z) :=
  if total <=? copied then mret (out, copied) else
  match n with
  | O => spin
  | S n =>
      f ← get_file p;
      r ← (match io_read (functions (attrs f)) with None => mret (inr []) | Some g => callback (g (cookie (attrs f)) (total - copied)) end);
      match r with
      | inl _ => stop_reading p true;; mret (out, copied)
      | inr [] => stop_reading p false;; mret (out, copied)
      | inr data => out ← liftO (blit out copied data); fread_cookie n p total out (copied + Z.of_nat (length data))
      end
  end.

(** Copy from the buffer what it has, up to what is wanted. *)
Definition take_buffered (p total : Z) (out : list Z) (copied : Z) : M io (list Z * Z) :=
  f ← get_file p;
  let avail := buflen f - bufpos f in
  let n := if total - copied <? avail then total - copied else avail in
  b ← get_block (buf f); data ← liftO (slice b (bufpos f) n);
  out ← liftO (blit out copied data);
  set_file p (with_bufpos (bufpos f + n) f);;
  mret (out, copied + n).
(** Fill an empty buffer: [false] at the end or after an error. *)
Definition refill (p : Z) : M io bool :=
  f ← get_file p;
  r ← read (fd f) (bufsize f);
  match r with
  | None => stop_reading p true;; mret false
  | Some [] => stop_reading p false;; mret false
  | Some data =>
      write_block (buf f) 0 data;;
      set_file p (with_bufpos 0 (with_buflen (Z.of_nat (length data)) f));; mret true
  end.

Fixpoint fread_loop (n : nat) (p total : Z) (out : list Z) (copied : Z) : M io (list Z * Z) :=
  if total <=? copied then mret (out, copied) else
  match n with
  | O => spin
  | S n =>
      f ← get_file p;
      if is_mem (attrs f) then
        if buflen f <=? bufpos f then stop_reading p false;; mret (out, copied)
        else r ← take_buffered p total out copied; fread_loop n p total r.1 r.2
      else if negb (buf f =? 0) then
        ok ← (if buflen f <=? bufpos f then refill p else mret true);
        if negb ok then mret (out, copied)
        else r ← take_buffered p total out copied; fread_loop n p total r.1 r.2
      else
        r ← read (fd f) (total - copied);
        match r with
        | None => stop_reading p true;; mret (out, copied)
        | Some [] => stop_reading p false;; mret (out, copied)
        | Some data => out ← liftO (blit out copied data); fread_loop n p total out (copied + Z.of_nat (length data))
        end
  end.
(** [out] is the memory at [ptr]; the rounds are enough because each one copies. *)
Definition fread (out : list Z) (size nmemb p : Z) : M io (list Z * Z) :=
  if (p =? 0) || (size =? 0) || (nmemb =? 0) then mret (out, 0) else
  let total := u64 (size * nmemb) in
  f ← get_file p;
  r ← (if is_cookie (attrs f) then fread_cookie (S (Z.to_nat total)) p total out 0 else fread_loop (S (Z.to_nat total)) p total out 0);
  mret (r.1, r.2 / size).

Definition fgetc (p : Z) : M io Z :=
  if p =? 0 then mret (-1) else
  f ← get_file p;
  if have_ungot f then set_file p (no_ungot f);; mret (ungot_char f) else
  r ← fread [0] 1 1 p;
  if negb (r.2 =? 1) then mret (-1) else liftO (r.1.[0]).

Definition ungetc (c p : Z) : M io Z :=
  if p =? 0 then mret (-1) else
  f ← get_file p;
  if (c =? -1) || have_ungot f then mret (-1) else
  set_file p (with_eof false (with_ungot true (u8 c) f));; mret (Z.land c 255).

(** The loop of [fgets], with [n] characters left to store: [None] for a null result. *)
Fixpoint fgets_loop (n : nat) (s : list Z) (i p : Z) : M io (option Z * list Z) :=
  match n with
  | O => mret (Some i, s)
  | S n =>
      c ← fgetc p;
      if c =? -1 then mret (if i =? 0 then None else Some i, s) else
      s ← liftO (s.[i <- u8 c]);
      if c =? 10 then mret (Some (i + 1), s) else fgets_loop n s (i + 1) p
  end.
(** [None] is a null array; the result says whether a null pointer is returned. *)
Definition fgets (s : option (list Z)) (size p : Z) : M io (bool * option (list Z)) :=
  match s with
  | Some s =>
      if (p =? 0) || (size <=? 0) then mret (false, Some s) else
      r ← fgets_loop (Z.to_nat (size - 1)) s 0 p;
      match r with
      | (None, s) => mret (false, Some s)
      | (Some i, s) => s ← liftO (s.[i <- 0]); mret (true, Some s)
      end
  | None => mret (false, None)
  end.

(** *** Writing *)

Fixpoint fwrite_cookie (n : nat) (p total : Z) (data : list Z) (written : Z) : M io Z :=
  if total <=? written then mret written else
  match n with
  | O => spin
  | S n =>
      f ← get_file p;
      rest ← liftO (slice data written (total - written));
      w ← put_cookie f rest;
      if w <=? 0 then set_file p (with_error true f);; mret written else fwrite_cookie n p total data (written + w)
  end.

(** [while (newsize < needed) newsize *= 2;] *)
Fixpoint grow (n : nat) (newsize needed : Z) : option Z :=
  if needed <=? newsize then Some newsize else
  match n with O => None | S n => grow n (u64 (newsize * 2)) needed end.
(** One round on memory: whether to go on, and what is written. *)
Definition fwrite_mem (p total : Z) (data : list Z) (written : Z) : M io (bool * Z) :=
  f ← get_file p;
  let needed := u64 (bufpos f + (total - written)) in
  ok ← (if bufsize f <? needed then
          match grow 64 (if bufsize f =? 0 then 128 else u64 (bufsize f * 2)) needed with Some size => resize p size | None => spin end
        else mret true);
  if negb ok then mret (false, written) else
  f ← get_file p;
  let n := total - written in
  rest ← liftO (slice data written n);
  write_block (buf f) (bufpos f) rest;;
  let pos := bufpos f + n in
  set_file p (with_bufpos pos (if buflen f <? pos then with_buflen pos f else f));;
  mret (true, written + n).
(** One round on a buffer. *)
Definition fwrite_buffer (p total : Z) (data : list Z) (written : Z) : M io (bool * Z) :=
  f ← get_file p;
  r ← (if buflen f =? bufsize f then flush_buffer p else mret 0);
  if r <? 0 then mret (false, written) else
  f ← get_file p;
  let avail := bufsize f - buflen f in
  let n := if total - written <? avail then total - written else avail in
  rest ← liftO (slice data written n);
  write_block (buf f) (buflen f) rest;;
  let f := with_buflen (buflen f + n) f in
  set_file p f;;
  r ← (if buflen f =? bufsize f then flush_buffer p else mret 0);
  mret (negb (r <? 0), written + n).
Definition fwrite_direct (p total : Z) (data : list Z) (written : Z) : M io (bool * Z) :=
  f ← get_file p;
  rest ← liftO (slice data written (total - written));
  w ← write (fd f) rest;
  if w <=? 0 then set_file p (with_error true f);; mret (false, written) else mret (true, written + w).

Fixpoint fwrite_loop (n : nat) (p total : Z) (data : list Z) (written : Z) : M io Z :=
  if total <=? written then mret written else
  match n with
  | O => spin
  | S n =>
      f ← get_file p;
      r ← (if is_mem (attrs f) then fwrite_mem p total data written
           else if negb (buf f =? 0) then fwrite_buffer p total data written
           else fwrite_direct p total data written);
      if r.1 : bool then fwrite_loop n p total data r.2 else mret r.2
  end.
(** [data] is the memory at [ptr]. *)
Definition fwrite (data : list Z) (size nmemb p : Z) : M io Z :=
  if (p =? 0) || (size =? 0) || (nmemb =? 0) then mret 0 else
  let total := u64 (size * nmemb) in
  f ← get_file p;
  w ← (if is_cookie (attrs f) then fwrite_cookie (S (Z.to_nat total)) p total data 0 else fwrite_loop (S (Z.to_nat total)) p total data 0);
  mret (w / size).

Definition fputc (c p : Z) : M io Z :=
  if p =? 0 then mret (-1) else
  w ← fwrite [u8 c] 1 1 p;
  mret (if negb (w =? 1) then -1 else u8 c).
(** [None] is a null string. *)
Definition fputs (s : option (list Z)) (p : Z) : M io Z :=
  match s with
  | Some s =>
      if p =? 0 then mret (-1) else
      len ← liftO (vstrlen s);
      w ← fwrite s 1 len p;
      mret (if w =? len then s32 w else -1)
  | None => mret (-1)
  end.

(** *** Flushing, closing and positions *)

Definition fflush (p : Z) : M io Z :=
  if p =? 0 then mret 0 else
  r ← flush_buffer p;
  if r <? 0 then mret (-1) else
  f ← get_file p;
  if is_mem (attrs f) then mret 0 else
  ret ← syscall (sys_fsync os (fd f));
  mret (if ret <? 0 then -1 else 0).

(** Give the buffer back, unless the caller has it. *)
Definition release_buffer (p : Z) : M io unit :=
  f ← get_file p;
  let f := if is_mem (attrs f) && negb (mem_bufp (attrs f) =? 0) then with_buf_owned false f else f in
  set_file p f;;
  if negb (buf f =? 0) && buf_owned f then free (buf f) else mret tt.
Definition fclose (p : Z) : M io Z :=
  if p =? 0 then mret (-1) else
  flush_buffer p;;
  f ← get_file p;
  ret ← (if is_cookie (attrs f) then match io_close (functions (attrs f)) with Some g => callback (g (cookie (attrs f))) | None => mret 0 end
         else if is_mem (attrs f) then mret 0 else close (fd f));
  release_buffer p;;
  modify (λ s, with_files (delete p (files s)) s);;
  mret ret.

(** [cookie_seek(cookie, &pos, whence)]: the position afterwards, [None] when there is no
    such function or it fails. *)
Definition seek_cookie (f : FILE) (pos whence : Z) : M io (option Z) :=
  match io_seek (functions (attrs f)) with
  | None => mret None
  | Some g => r ← callback (g (cookie (attrs f)) pos whence); mret (if r.1 <? 0 then None else Some r.2)
  end.
Definition fseek (p offset whence : Z) : M io Z :=
  if p =? 0 then mret (-1) else
  r ← flush_buffer p;
  if r <? 0 then mret (-1) else
  f ← get_file p;
  if is_mem (attrs f) then
    let newpos := if whence =? SEEK_SET then Some (u64 offset) else if whence =? SEEK_CUR then Some (u64 (bufpos f + u64 offset))
                  else if whence =? SEEK_END then Some (u64 (buflen f + u64 offset)) else None in
    match newpos with
    | None => mret (-1)
    | Some newpos =>
        let newpos := if buflen f <? newpos then buflen f else newpos in
        set_file p (no_ungot (with_eof (buflen f <=? newpos) (with_bufpos newpos f)));; mret 0
    end
  else if is_cookie (attrs f) then
    r ← seek_cookie f offset whence;
    match r with
    | None => set_file p (with_error true f);; mret (-1)
    | Some _ => set_file p (no_ungot (with_eof false f));; mret 0
    end
  else
    r ← lseek (fd f) offset whence;
    if r =? -1 then set_file p (with_error true f);; mret (-1)
    else set_file p (no_ungot (with_eof false (with_buflen 0 (with_bufpos 0 f))));; mret 0.
Definition ftell (p : Z) : M io Z :=
  if p =? 0 then mret (-1) else
  r ← flush_buffer p;
  if r <? 0 then mret (-1) else
  f ← get_file p;
  if is_mem (attrs f) then mret (s64 (bufpos f))
  else if is_cookie (attrs f) then
    r ← seek_cookie f 0 SEEK_CUR;
    match r with None => set_file p (with_error true f);; mret (-1) | Some pos => mret pos end
  else
    r ← lseek (fd f) 0 SEEK_CUR;
    if r =? -1 then set_file p (with_error true f);; mret (-1) else mret r.
Definition fseeko := fseek.
Definition ftello := ftell.
(** [pos] is whether the pointer is not null; the result and what is stored there. *)
Definition fgetpos (p : Z) (pos : bool) : M io (Z * option Z) :=
  if (p =? 0) || negb pos then mret (-1, None) else
  off ← ftello p; mret (if off =? -1 then (-1, None) else (0, Some off)).
Definition fsetpos (p : Z) (pos : option Z) : M io Z :=
  match pos with Some pos => if p =? 0 then mret (-1) else fseeko p pos SEEK_SET | None => mret (-1) end.
Definition rewind (p : Z) : M io unit :=
  if p =? 0 then mret tt else
  flush_buffer p;;
  f ← get_file p;
  (if is_mem (attrs f) then mret tt
   else if is_cookie (attrs f) then seek_cookie f 0 SEEK_SET;; mret tt
   else lseek (fd f) 0 SEEK_SET;; mret tt);;
  set_file p (no_ungot (with_error false (with_eof false (with_buflen 0 (with_bufpos 0 f))))).

(** *** Buffers and flags *)

(** [buf] is the address of a block of the caller, or 0. *)
Definition setvbuf (p buf0 mode size : Z) : M io Z :=
  if p =? 0 then mret (-1) else
  f ← get_file p;
  (if negb (buf f =? 0) && buf_owned f then free (buf f) else mret tt);;
  if size =? 0 then set_file p (with_buf_owned false (with_buflen 0 (with_bufpos 0 (with_bufsize 0 (with_buf 0 f)))));; mret 0
  else if negb (buf0 =? 0) then
    set_file p (with_buflen 0 (with_bufpos 0 (with_bufsize size (with_buf_owned false (with_buf buf0 f)))));; mret 0
  else
    a ← malloc size;
    if a =? 0 then set_file p (with_buf 0 f);; set_errno ENOMEM;; mret (-1)
    else set_file p (with_buflen 0 (with_bufpos 0 (with_bufsize size (with_buf_owned true (with_buf a f)))));; mret 0.
Definition setbuf (p buf0 : Z) : M io unit := setvbuf p buf0 0 BUFSIZ;; mret tt.

Definition feof (p : Z) : M io bool := if p =? 0 then mret true else f ← get_file p; mret (eof f).
Definition ferror (p : Z) : M io bool := if p =? 0 then mret true else f ← get_file p; mret (error f).
Definition clearerr (p : Z) : M io unit :=
  if p =? 0 then mret tt else f ← get_file p; set_file p (no_ungot (with_eof false (with_error false f))).
Definition fileno (p : Z) : M io Z := if p =? 0 then mret (-1) else f ← get_file p; mret (fd f).

Definition freopen (path mode : option (list Z)) (p : Z) : M io Z :=
  match path, mode with
  | Some path, Some mode =>
      if p =? 0 then mret 0 else
      tmp ← fopen path mode;
      if tmp =? 0 then mret 0 else
      flush_buffer p;;
      f ← get_file p;
      (if is_mem (attrs f) then mret tt else close (fd f);; mret tt);;
      release_buffer p;;
      f ← get_file tmp;
      set_file p f;;
      modify (λ s, with_files (delete tmp (files s)) s);;
      mret p
  | _, _ => mret 0
  end.

(** The lock, for one thread: waiting for it never ends. *)
Definition flockfile (p : Z) : M io unit :=
  if p =? 0 then mret tt else f ← get_file p; if lock f then spin else set_file p (with_lock true f).
Definition ftrylockfile (p : Z) : M io Z :=
  if p =? 0 then mret EINVAL else f ← get_file p; set_file p (with_lock true f);; mret (if lock f then EBUSY else 0).
Definition funlockfile (p : Z) : M io unit :=
  if p =? 0 then mret tt else f ← get_file p; set_file p (with_lock false f).

(** ** memstream.c *)

Definition open_mem (wide : bool) (bufp sizep : Z) : M io Z :=
  if (bufp =? 0) || (sizep =? 0) then set_errno EINVAL;; mret 0 else
  p ← malloc_file (new_file (-1) (mk_attributes true wide bufp sizep false true false false 0 no_functions));
  if p =? 0 then mret 0 else
  f ← get_file p;
  let size := if wide then 128 * WCHAR else 128 in
  a ← malloc size;
  if a =? 0 then modify (λ s, with_files (delete p (files s)) s);; set_errno ENOMEM;; mret 0 else
  set_file p (with_buf_owned true (with_bufsize size (with_buf a f)));;
  set_cell bufp 0;; set_cell sizep 0;;
  mret p.
Definition open_memstream := open_mem false.
Definition open_wmemstream := open_mem true.

(** What each mode allows: reading, writing, appending. *)
Definition mem_modes : list (list Z * (bool * bool * bool)) :=
  [([114], (true, false, false)); ([114; 43], (true, true, false)); ([119], (false, true, false)); ([119; 43], (true, true, false));
   ([97], (false, true, true)); ([97; 43], (true, true, true))].
Fixpoint mem_mode (mode : list Z) (l : list (list Z * (bool * bool * bool))) : option (option (bool * bool * bool)) :=
  match l with
  | [] => Some None
  | (m, x) :: l => c ← strcmp mode (c_str m); if c =? 0 then Some (Some x) else mem_mode mode l
  end.
(** [buf0] is the address of a block of the caller, or 0; [None] is a null mode. *)
Definition fmemopen (buf0 size : Z) (mode : option (list Z)) : M io Z :=
  if size =? 0 then set_errno EINVAL;; mret 0 else
  let mode := default (c_str [114]) mode in
  p ← next_address;
  if p =? 0 then mret 0 else
  x ← liftO (mem_mode mode mem_modes);
  match x with
  | None => set_errno EINVAL;; mret 0
  | Some (r, w, a) =>
      b ← (if negb (buf0 =? 0) then mret buf0 else malloc size);
      if b =? 0 then set_errno ENOMEM;; mret 0 else
      m0 ← liftO (mode.[0]); m1 ← liftO (mode.[1]);
      let len := if (m0 =? 119) && ((m1 =? 0) || negb (m1 =? 43)) then 0 else size in
      set_file p (with_buf_owned (buf0 =? 0) (with_bufpos (if m0 =? 97 then len else 0) (with_buflen len (with_bufsize size (with_buf b
        (new_file (-1) (mk_attributes true false 0 0 r w a false 0 no_functions)))))));;
      mret p
  end.

(** ** fopencookie.c *)

Definition fopencookie (c : Z) (mode : list Z) (fns : cookie_io_functions_t) : M io Z :=
  malloc_file (new_file (-1) (mk_attributes false false 0 0 false false false true c fns)).

(** The functions given to [funopen].  The object that holds them is the closure here; only
    whether there is memory for it matters. *)
Record fun_bridge := mk_bridge {
  fun_cookie : Z;
  readfn : option (Z → Z → H * Z → (Z + list Z) * (H * Z));
  writefn : option (Z → list Z → Z → H * Z → Z * (H * Z));
  seekfn : option (Z → Z → Z → H * Z → Z * (H * Z));
  closefn : option (Z → H * Z → Z * (H * Z))
}.
Definition fun_read (b : fun_bridge) (_ n : Z) (e : H * Z) : (Z + list Z) * (H * Z) :=
  match readfn b with
  | None => (inr [], e)
  | Some g => let '(r, e) := g (fun_cookie b) (s32 n) e in (match r with inl _ => inl (-1) | inr data => inr data end, e)
  end.
Definition fun_write (b : fun_bridge) (_ : Z) (data : list Z) (e : H * Z) : Z * (H * Z) :=
  let n := Z.of_nat (length data) in
  match writefn b with
  | None => (n, e)
  | Some g => let '(r, e) := g (fun_cookie b) data (s32 n) e in (if r <? 0 then -1 else r, e)
  end.
Definition fun_seek (b : fun_bridge) (_ off whence : Z) (e : H * Z) : (Z * Z) * (H * Z) :=
  match seekfn b with
  | None => ((-1, off), e)
  | Some g => let '(r, e) := g (fun_cookie b) off whence e in (if r =? -1 then (-1, off) else (0, r), e)
  end.
Definition fun_close (b : fun_bridge) (_ : Z) (e : H * Z) : Z * (H * Z) :=
  match closefn b with None => (0, e) | Some g => g (fun_cookie b) e end.
Definition funopen (b : fun_bridge) : M io Z :=
  a ← next_address;
  if a =? 0 then mret 0 else
  fopencookie a [0] (mk_cookie_io (Some (fun_read b)) (Some (fun_write b)) (Some (fun_seek b)) (Some (fun_close b))).

(** ** getline.c *)

Definition getdelim_grow (line n pos : Z) : M io (option (Z * Z)) :=
  if n <=? pos + 1 then
    tmp ← realloc line (u64 (n * 2));
    if tmp =? 0 then set_errno ENOMEM;; mret None else mret (Some (tmp, u64 (n * 2)))
  else mret (Some (line, n)).
(** The loop: the last character, [*lineptr], [*n] and the position; [None] for the return
    inside it. *)
Fixpoint getdelim_loop (k : nat) (line n pos delim p : Z) : M io (Z * Z * option (Z * Z)) :=
  match k with
  | O => spin
  | S k =>
      c ← fgetc p;
      if c =? -1 then mret (line, n, Some (c, pos)) else
      g ← getdelim_grow line n pos;
      match g with
      | None => mret (line, n, None)
      | Some (line, n) =>
          write_block line pos [u8 c];;
          if c =? delim then mret (line, n, Some (c, pos + 1)) else getdelim_loop k line n (pos + 1) delim p
      end
  end.
(** [line] and [n] are [*lineptr] and [*n], and neither pointer is null; the result with both
    afterwards. *)
Definition getdelim (line n delim p : Z) : M io (Z * Z * Z) :=
  if p =? 0 then set_errno EINVAL;; mret (-1, line, n) else
  a ← (if (line =? 0) || (n =? 0) then let n := if n =? 0 then 128 else n in a ← malloc n; mret (a, n) else mret (line, n));
  let '(line, n) := (a : Z * Z) in
  if line =? 0 then set_errno ENOMEM;; mret (-1, line, n) else
  r ← getdelim_loop rounds line n 0 delim p;
  match r with
  | (line, n, None) => mret (-1, line, n)
  | (line, n, Some (c, pos)) =>
      if (c =? -1) && (pos =? 0) then mret (-1, line, n) else
      write_block line pos [0];; mret (pos, line, n)
  end.
Definition getline (line n p : Z) : M io (Z * Z * Z) := getdelim line n 10 p.

End stdio.
Arguments system H : clear implicits.
Arguments cookie_io_functions_t H : clear implicits.
Arguments attributes H : clear implicits.
Arguments FILE H : clear implicits.
Arguments io H : clear implicits.
Arguments fun_bridge H : clear implicits.
