(* ===== verification/LibStreams.v ===== *)
(** * What reaches the system and what is read back through a stream

    A stream that is written refines a list of bytes: as long as no error is flagged,
    what the descriptor has taken followed by what is in the buffer is what was
    written.  A stream that is read delivers the bytes of the file in order.  A memory
    stream leaves what was written in the block it hands to the caller.  The system is
    known by its contract: a write takes some bytes from the front, a read returns some
    bytes from the front, and interruptions end. *)

From S2P Require Import Prelude CString LibBase LibString LibStdio.

Local Open Scope Z_scope.

(** ** Routines that return *)

Definition ensures {S A} (m : M S A) (s : S) (Q : A → S → Prop) : Prop := ∃ a s', m s = Done (a, s') ∧ Q a s'.

Lemma ensures_bind {S A B} (m : M S A) (f : A → M S B) s R Q : ensures m s R → (∀ a s', R a s' → ensures (f a) s' Q) → ensures (m ≫= f) s Q.
Proof. intros (a & s' & E & Hr) Hf. destruct (Hf a s' Hr) as (b & s'' & E' & HQ). exists b, s''. by rewrite (bind_done _ _ _ _ _ E). Qed.
Lemma ensures_step {S A B} (m : M S A) (f : A → M S B) s a s' Q : m s = Done (a, s') → ensures (f a) s' Q → ensures (m ≫= f) s Q.
Proof. intros E (b & s'' & E' & HQ). exists b, s''. by rewrite (bind_done _ _ _ _ _ E). Qed.
Lemma ensures_ret {S A} (a : A) (s : S) (Q : A → S → Prop) : Q a s → ensures (mret a) s Q.
Proof. intros HQ. by exists a, s. Qed.
Lemma ensures_mono {S A} (m : M S A) s (Q R : A → S → Prop) : ensures m s Q → (∀ a s', Q a s' → R a s') → ensures m s R.
Proof. intros (a & s' & E & HQ) H. exists a, s'. split; [done|by apply H]. Qed.

Lemma slice_ok l pos n : 0 <= pos → 0 <= n → pos + n <= Z.of_nat (length l) → slice l pos n = Some (take (Z.to_nat n) (drop (Z.to_nat pos) l)).
Proof. intros. unfold slice. by rewrite (proj2 (Z.leb_le 0 pos)), (proj2 (Z.leb_le 0 n)), (proj2 (Z.leb_le (pos + n) _)) by lia. Qed.
(** A copy into a list replaces as many elements. *)
Lemma blit_ok l pos t : 0 <= pos → pos + Z.of_nat (length t) <= Z.of_nat (length l) →
  blit l pos t = Some (take (Z.to_nat pos) l ++ t ++ drop (Z.to_nat pos + length t) l).
Proof.
  intros Hp Hl. assert (l = take (Z.to_nat pos) l ++ take (length t) (drop (Z.to_nat pos) l) ++ drop (Z.to_nat pos + length t) l) as E.
  { rewrite <- drop_drop, take_drop, take_drop. done. }
  pose proof (blit_app (take (Z.to_nat pos) l) (take (length t) (drop (Z.to_nat pos) l)) (drop (Z.to_nat pos + length t) l) t) as B.
  replace (Z.of_nat (length (take (Z.to_nat pos) l))) with pos in B by (rewrite length_take; lia). rewrite <- E in B. apply B. rewrite length_take, length_drop. lia.
Qed.

(** A list with some of its elements replaced. *)
Definition store (out : list Z) (pos : Z) (t : list Z) : list Z := take (Z.to_nat pos) out ++ t ++ drop (Z.to_nat pos + length t) out.
Lemma store_nil out pos : store out pos [] = out.
Proof. unfold store. cbn [app length]. by rewrite Nat.add_0_r, take_drop. Qed.
Lemma store_length out pos t : 0 <= pos → pos + Z.of_nat (length t) <= Z.of_nat (length out) → length (store out pos t) = length out.
Proof. intros. unfold store. rewrite !length_app, length_take, length_drop. lia. Qed.
Lemma store_app out pos t u : 0 <= pos → pos + Z.of_nat (length t) <= Z.of_nat (length out) → store (store out pos t) (pos + Z.of_nat (length t)) u = store out pos (t ++ u).
Proof.
  intros Hp Hl. unfold store at 1. replace (Z.to_nat (pos + Z.of_nat (length t))) with (Z.to_nat pos + length t)%nat by lia. unfold store. rewrite !app_assoc. f_equal.
  - f_equal. rewrite take_app_le by (rewrite length_app, length_take; lia). apply take_ge. rewrite length_app, length_take. lia.
  - rewrite drop_app_ge by (rewrite length_app, length_take; lia). rewrite drop_drop, !length_app, length_take. f_equal. lia.
Qed.

Lemma upd_store s i c : 0 <= i < Z.of_nat (length s) → s.[i <- c] = Some (store s i [c]).
Proof.
  intros Hi. pose proof (blit_ok s i [c] ltac:(lia) ltac:(cbn; lia)) as B. cbn [blit] in B. destruct (s.[i <- c]) as [s'|]; [|done]. cbn in B. by injection B as ->.
Qed.

Section streams.
Context {H : Type} (os : system H) (fresh : Z → list Z) (rounds : nat).
Implicit Types w : io H.
Implicit Types f : FILE H.

(** Only the system and [errno] change. *)
Definition only_host w w' : Prop := ∃ h e, w' = with_errno e (with_host h w).
Lemma only_host_refl w : only_host w w.
Proof. exists (host w), (errno w). by destruct w. Qed.
Lemma only_host_trans w1 w2 w3 : only_host w1 w2 → only_host w2 w3 → only_host w1 w3.
Proof. intros (h & e & ->) (h' & e' & ->). by exists h', e'. Qed.

Lemma run_get_file p f w : files w !! p = Some f → get_file p w = Done (f, w).
Proof. intros E. unfold get_file. by rewrite E. Qed.
Lemma run_get_block a b w : blocks w !! a = Some b → get_block a w = Done (b, w).
Proof. intros E. unfold get_block. by rewrite E. Qed.
Lemma run_set_file p f w : set_file p f w = Done (tt, with_files (<[p := f]> (files w)) w).
Proof. done. Qed.
Lemma run_write_block a pos t b b' w : blocks w !! a = Some b → blit b pos t = Some b' → write_block a pos t w = Done (tt, with_blocks (<[a := b']> (blocks w)) w).
Proof. intros E Eb. unfold write_block. rewrite (bind_done _ _ _ _ _ (run_get_block a b w E)), (bind_liftO _ _ _ _ Eb). done. Qed.

(** ** Opening *)

Definition mode_w : list Z := c_str [119].
Definition mode_r : list Z := c_str [114].
(** [fopen] for writing or for reading. *)
Lemma run_fopen d (writes : bool) path w p l h1 : sys_open os path (if writes then Z.lor O_WRONLY (Z.lor O_CREAT O_TRUNC) else O_RDONLY) (if writes then 420 else 0) (host w) = (d, h1) → 0 <= d < 2 ^ 31 → supply w = p :: l → p ≠ 0 →
  ∃ f, fopen os path (if writes then mode_w else mode_r) w = Done (p, with_files (<[p := f]> (files w)) (with_supply l (with_host h1 w))) ∧ is_mem (attrs f) = false ∧ is_cookie (attrs f) = false ∧ f = new_file d (attrs f).
Proof.
  intros Eo Hd Es Hp. exists (new_file d (mk_attributes false false 0 0 (negb writes) writes false false 0 no_functions)). unfold fopen. split; [|done].
  set (mode := if writes then mode_w else mode_r). set (flags := if writes then Z.lor O_WRONLY (Z.lor O_CREAT O_TRUNC) else O_RDONLY) in *.
  assert (mode_flags mode open_modes = Some (Some flags)) as Em by (by destruct writes). rewrite (bind_liftO _ _ _ _ Em).
  assert (open os path flags 420 w = Done (d, with_host h1 w)) as Er.
  { assert ((if Z.land flags O_CREAT =? 0 then 0 else 420) = if writes then 420 else 0) as Eb by (by destruct writes). unfold open. rewrite Eb. unfold syscall, mbind, M_bind. rewrite Eo. rewrite (proj2 (Z.ltb_ge d 0)) by lia. unfold mret, M_ret. rewrite s32_small by (unfold is_s32; lia). done. }
  rewrite (bind_done _ _ _ _ _ Er). rewrite (proj2 (Z.ltb_ge d 0)) by lia.
  assert (mode_is mode 114 = Some (negb writes)) as E1 by (by destruct writes). assert (mode_is mode 119 = Some writes) as E2 by (by destruct writes). assert (mode_is mode 97 = Some false) as E3 by (by destruct writes).
  assert (has_plus mode = Some false) as E4 by (by destruct writes). rewrite (bind_liftO _ _ _ _ E1), (bind_liftO _ _ _ _ E2), (bind_liftO _ _ _ _ E3), (bind_liftO _ _ _ _ E4). rewrite !orb_false_r.
  assert (∀ f, malloc_file f (with_host h1 w) = Done (p, with_files (<[p := f]> (files w)) (with_supply l (with_host h1 w)))) as Ef.
  { intros f. unfold malloc_file, next_address, mbind, M_bind. cbn [supply with_host]. rewrite Es. rewrite (proj2 (Z.eqb_neq p 0)) by done. done. }
  rewrite (bind_done _ _ _ _ _ (Ef _)). rewrite (proj2 (Z.eqb_neq p 0)) by done. done.
Qed.

(** A buffer of [size] bytes for a stream that has none. *)
Lemma run_setvbuf w p a l size f : p ≠ 0 → files w !! p = Some f → buf f = 0 → supply w = a :: l → a ≠ 0 → 0 <= size →
  ∃ f' w', setvbuf fresh p 0 0 size w = Done (0, w') ∧ files w' = <[p := f']> (files w) ∧ cells w' = cells w ∧ host w' = host w ∧ supply w' = (if size =? 0 then a :: l else l) ∧
    attrs f' = attrs f ∧ fd f' = fd f ∧ error f' = error f ∧ eof f' = eof f ∧ have_ungot f' = have_ungot f ∧ bufsize f' = size ∧ bufpos f' = 0 ∧ buflen f' = 0 ∧
    ((size = 0 ∧ buf f' = 0 ∧ buf_owned f' = false ∧ blocks w' = blocks w) ∨ (0 < size ∧ buf f' = a ∧ buf_owned f' = true ∧ blocks w' = <[a := fresh size]> (blocks w))).
Proof.
  intros Hp Ef Hb Es Ha Hs. unfold setvbuf. rewrite (proj2 (Z.eqb_neq p 0)) by done. rewrite (bind_done _ _ _ _ _ (run_get_file p f w Ef)). rewrite Hb. cbn [Z.eqb negb andb].
  rewrite bind_mret. destruct (Z.eqb_spec size 0) as [-> |Hne].
  - eexists _, _. split; [reflexivity|]. cbn. split_and!; try done. by left.
  - assert (malloc fresh size w = Done (a, with_blocks (<[a := fresh size]> (blocks w)) (with_supply l w))) as E.
    { unfold malloc. rewrite (proj2 (Z.eqb_neq size 0)) by done. unfold next_address, mbind, M_bind. rewrite Es. rewrite (proj2 (Z.eqb_neq a 0)) by done. done. }
    rewrite (bind_done _ _ _ _ _ E). rewrite (proj2 (Z.eqb_neq a 0)) by done. eexists _, _. split; [reflexivity|]. cbn. split_and!; try done. right. split_and!; [lia|done..].
Qed.

(** ** Streams that are written *)

Inductive write_call := Fwrite (data : list Z) (size nmemb : Z) | Fputc (c : Z) | Fputs (s rest : list Z) | Fflush.
Definition do_write (p : Z) (c : write_call) : M (io H) Z :=
  match c with
  | Fwrite data size nmemb => fwrite os fresh rounds data size nmemb p
  | Fputc c => fputc os fresh rounds c p
  | Fputs s rest => fputs os fresh rounds (Some (s ++ 0 :: rest)) p
  | Fflush => fflush os fresh rounds p
  end.
Fixpoint do_writes (p : Z) (cs : list write_call) : M (io H) (list Z) :=
  match cs with [] => mret [] | c :: cs => r ← do_write p c; rs ← do_writes p cs; mret (r :: rs) end.
Definition write_ok (c : write_call) : Prop :=
  match c with
  | Fwrite data size nmemb => 0 < size ∧ 0 <= nmemb ∧ size * nmemb <= Z.of_nat (length data) < 2 ^ 63
  | Fputs s rest => Forall (λ c, c ≠ 0) s ∧ Z.of_nat (length (s ++ 0 :: rest)) < 2 ^ 31
  | _ => True
  end.
Definition write_bytes (c : write_call) : list Z :=
  match c with Fwrite data size nmemb => take (Z.to_nat (size * nmemb)) data | Fputc c => [u8 c] | Fputs s _ => s | Fflush => [] end.
(** What the call returns when it succeeds; [fflush] also reports on [fsync]. *)
Definition write_result (c : write_call) (r : Z) : Prop :=
  match c with Fwrite _ _ nmemb => r = nmemb | Fputc c => r = u8 c | Fputs s _ => r = Z.of_nat (length s) | Fflush => True end.


(** What [fwrite] and [fflush] promise for streams of a kind: [inv] says that a log has been
    written, as long as no error is flagged, and [ev] what a call leaves as it was.  No more
    than [limit] bytes are written. *)
Class Writer (inv : io H → Z → FILE H → list Z → Prop) (ev : Z → FILE H → io H → FILE H → io H → Prop) (limit : Z) : Prop := {
  writer_null w p f log : inv w p f log → p ≠ 0;
  writer_refl w p f log : inv w p f log → ev p f w f w;
  writer_trans p f1 w1 f2 w2 f3 w3 : ev p f1 w1 f2 w2 → ev p f2 w2 f3 w3 → ev p f1 w1 f3 w3;
  writer_error p f w f' w' : ev p f w f' w' → error f = true → error f' = true;
  writer_fwrite w p f log dat size nmemb : inv w p f log → 0 < size → 0 <= nmemb → size * nmemb <= Z.of_nat (length dat) → Z.of_nat (length dat) < 2 ^ 63 →
    Z.of_nat (length log) + size * nmemb <= limit →
    ensures (fwrite os fresh rounds dat size nmemb p) w (λ r w', ∃ f', inv w' p f' (log ++ take (Z.to_nat (size * nmemb)) dat) ∧ ev p f w f' w' ∧ (r = nmemb ∨ error f' = true));
  writer_fflush w p f log : inv w p f log → Z.of_nat (length log) <= limit → ensures (fflush os fresh rounds p) w (λ _ w', ∃ f', inv w' p f' log ∧ ev p f w f' w')
}.

Lemma vstrlen_text s rest : Forall (λ c, c ≠ 0) s → vstrlen (s ++ 0 :: rest) = Some (Z.of_nat (length s)).
Proof. induction 1 as [|c s Hc Hs IH]; [done|]. cbn [app vstrlen length]. rewrite (proj2 (Z.eqb_neq c 0)) by done. rewrite IH. cbn. f_equal. lia. Qed.

Section writer.
Context inv ev limit `{Writer inv ev limit}.

Lemma do_write_spec w p f log c : inv w p f log → write_ok c → Z.of_nat (length (log ++ write_bytes c)) <= limit →
  ensures (do_write p c) w (λ r w', ∃ f', inv w' p f' (log ++ write_bytes c) ∧ ev p f w f' w' ∧ (write_result c r ∨ error f' = true)).
Proof.
  intros Hw Hc Hlim. pose proof (writer_null _ _ _ _ Hw) as Hp. rewrite length_app in Hlim. destruct c as [data size nmemb|c|s rest|]; cbn [do_write write_ok write_bytes write_result] in *.
  - rewrite length_take in Hlim. apply writer_fwrite; [done|lia..].
  - unfold fputc. rewrite (proj2 (Z.eqb_neq p 0)) by done. cbn [length] in Hlim. eapply ensures_bind; [apply (writer_fwrite w p f log [u8 c] 1 1 Hw); cbn [length]; lia|]. cbn beta.
    intros r w' (f' & Hw' & Hev & Hr). apply ensures_ret. exists f'. split; [done|]. split; [done|]. destruct Hr as [-> |]; [by left|by right].
  - destruct Hc as [Hs Hl]. unfold fputs. rewrite (proj2 (Z.eqb_neq p 0)) by done.
    assert (liftO (vstrlen (s ++ 0 :: rest)) w = Done (Z.of_nat (length s), w)) as E by (by rewrite vstrlen_text). rewrite length_app in Hl. apply (ensures_step _ _ _ _ _ _ E).
    eapply ensures_bind; [apply (writer_fwrite w p f log (s ++ 0 :: rest) 1 (Z.of_nat (length s)) Hw); rewrite ?length_app; lia|]. cbn beta.
    intros r w' (f' & Hw' & Hev & Hr). apply ensures_ret. exists f'. rewrite Z.mul_1_l, Nat2Z.id, take_app_length in Hw'. split; [done|]. split; [done|].
    destruct Hr as [-> |]; [|by right]. left. rewrite Z.eqb_refl. apply s32_small. unfold is_s32. lia.
  - rewrite app_nil_r. eapply ensures_mono; [apply (writer_fflush w p f log Hw); lia|]. cbn beta. intros _ w' (f' & Hw' & Hev). exists f'. split; [done|]. split; [done|by left].
Qed.
Lemma do_writes_spec w p f log cs : inv w p f log → Forall write_ok cs → Z.of_nat (length (log ++ concat (map write_bytes cs))) <= limit →
  ensures (do_writes p cs) w (λ rs w', ∃ f', inv w' p f' (log ++ concat (map write_bytes cs)) ∧ ev p f w f' w' ∧ (error f' = false → Forall2 write_result cs rs)).
Proof.
  intros Hw Hcs. revert w f log Hw. induction Hcs as [|c cs Hc Hcs IH]; intros w f log Hw Hlim; cbn [do_writes map concat] in *.
  - apply ensures_ret. exists f. rewrite app_nil_r. split; [done|]. split; [by eapply writer_refl|by constructor].
  - rewrite app_assoc in *. eapply ensures_bind; [apply (do_write_spec w p f log c Hw Hc); rewrite length_app in Hlim; lia|]. cbn beta. intros r w1 (f1 & Hw1 & Hev1 & Hr).
    eapply ensures_bind; [by apply IH|]. cbn beta. intros rs w2 (f2 & Hw2 & Hev2 & Hrs).
    apply ensures_ret. exists f2. split; [done|]. split; [by eapply writer_trans|]. intros He. constructor; [|by apply Hrs].
    destruct Hr as [|He1]; [done|]. pose proof (writer_error _ _ _ _ _ Hev2 He1). congruence.
Qed.
End writer.

(** ** Writing to a descriptor *)

(** The contract of the system for a descriptor that is written: [sent] is what it has
    taken, and [patience] bounds how often it takes nothing or interrupts. *)
Class Sink (d : Z) (sent : H → list Z) (patience : H → nat) : Prop := {
  sink_write data h n h' : data ≠ [] → sys_write os d data h = (n, h') →
    n <= Z.of_nat (length data) ∧ sent h' = sent h ++ take (Z.to_nat n) data ∧ (patience h' <= patience h)%nat ∧
    (n = 0 ∨ n = - EINTR ∨ n = - EAGAIN → (patience h' < patience h)%nat);
  sink_fsync h n h' : sys_fsync os d h = (n, h') → sent h' = sent h ∧ (patience h' <= patience h)%nat;
  sink_close h n h' : sys_close os d h = (n, h') → sent h' = sent h
}.

Section sink.
Context (d : Z) (sent : H → list Z) (patience : H → nat) {sink : Sink d sent patience}.

(** The system only interrupts; it never fails. *)
Definition reliable : Prop := ∀ data h n h', data ≠ [] → sys_write os d data h = (n, h') → 0 <= n ∨ n = - EINTR ∨ n = - EAGAIN.

Lemma flush_loop_spec n w data off : 0 <= off <= Z.of_nat (length data) → Z.of_nat (length data) - off + Z.of_nat (patience (host w)) <= Z.of_nat n →
  ensures (flush_loop n (write os d) data off) w (λ ok w', only_host w w' ∧ (patience (host w') <= patience (host w))%nat ∧
    (ok = true → sent (host w') = sent (host w) ++ drop (Z.to_nat off) data) ∧ (reliable → ok = true)).
Proof.
  revert w off. induction n as [|n IH]; intros w off Hoff Hn; cbn [flush_loop]; destruct (Z.leb_spec (Z.of_nat (length data)) off) as [Hle|Hlt]; try lia.
  - apply ensures_ret. split; [apply only_host_refl|]. split; [lia|]. split; [|done]. intros _. rewrite drop_ge by lia. by rewrite app_nil_r.
  - apply ensures_ret. split; [apply only_host_refl|]. split; [lia|]. split; [|done]. intros _. rewrite drop_ge by lia. by rewrite app_nil_r.
  - destruct (sys_write os d (drop (Z.to_nat off) data) (host w)) as [r h'] eqn:Ew.
    assert (drop (Z.to_nat off) data ≠ []) as Hne by (intros E; apply (f_equal length) in E; rewrite length_drop in E; cbn in E; lia).
    destruct (sink_write _ _ _ _ Hne Ew) as (Hr & Hsent & Hp & Hwait). rewrite length_drop in Hr.
    set (w1 := if r <? 0 then with_errno (- r) (with_host h' w) else with_host h' w).
    assert (write os d (drop (Z.to_nat off) data) w = Done (if r <? 0 then -1 else r, w1)) as E by (unfold write, syscall, w1; rewrite Ew; by destruct (r <? 0)).
    assert (only_host w w1 ∧ host w1 = h') as [Ho Eh].
    { unfold w1. destruct (r <? 0); (split; [|done]); [by exists h', (- r)|by exists h', (errno w)]. }
    apply (ensures_step _ _ _ _ _ _ E). destruct (Z.ltb_spec r 0) as [Hneg|Hpos].
    + rewrite Z.ltb_irrefl || change (-1 <? 0) with true. unfold w1. apply (ensures_step _ _ _ (- r) w1); [done|]. fold w1.
      assert (take (Z.to_nat r) (drop (Z.to_nat off) data) = []) as Et by (by replace (Z.to_nat r) with O by lia). rewrite Et, app_nil_r in Hsent.
      destruct (Z.eqb_spec (- r) EINTR) as [E1|E1], (Z.eqb_spec (- r) EAGAIN) as [E2|E2]; cbn [orb].
      1-3: specialize (Hwait ltac:(lia)); eapply ensures_mono; [apply IH; [lia|rewrite Eh; lia]|]; intros ok w' (Ho' & Hp' & Hs' & Hrel);
        (split; [exact (only_host_trans _ _ _ Ho Ho')|]); (split; [rewrite Eh in Hp'; lia|]); (split; [|exact Hrel]); intros Hok; by rewrite Hs', Eh, Hsent.
      apply ensures_ret. split; [done|]. split; [rewrite Eh; lia|]. split; [done|]. intros Hrel. destruct (Hrel _ _ _ _ Hne Ew) as [?|[?|?]]; lia.
    + rewrite (proj2 (Z.ltb_ge r 0)) by lia. eapply ensures_mono.
      * apply IH; [lia|]. rewrite Eh. destruct (decide (r = 0)) as [-> |]; [specialize (Hwait ltac:(by left)); lia|lia].
      * intros ok w' (Ho' & Hp' & Hs' & Hrel). split; [exact (only_host_trans _ _ _ Ho Ho')|]. split; [rewrite Eh in Hp'; lia|]. split; [|exact Hrel]. intros Hok. rewrite Hs', Eh, Hsent, <- app_assoc by done. f_equal.
        rewrite Z2Nat.inj_add by lia. by rewrite <- drop_drop, take_drop.
Qed.

(** The buffer of a stream: none, or a block of its size. *)
Definition buffer_ok w f : Prop :=
  (buf f = 0 ∧ buflen f = 0) ∨
  (buf f ≠ 0 ∧ 0 < bufsize f < 2 ^ 63 ∧ 0 <= buflen f <= bufsize f ∧ ∃ b, blocks w !! buf f = Some b ∧ Z.of_nat (length b) = bufsize f).
Definition pending w f : list Z := match blocks w !! buf f with Some b => take (Z.to_nat (buflen f)) b | None => [] end.

(** The stream has been given [log]: unless an error is flagged, that is what was sent and
    what is pending. *)
Record writing w (p : Z) f (log : list Z) : Prop := {
  wr_null : p ≠ 0;
  wr_file : files w !! p = Some f;
  wr_mem : is_mem (attrs f) = false;
  wr_cookie : is_cookie (attrs f) = false;
  wr_fd : fd f = d;
  wr_buffer : buffer_ok w f;
  wr_rounds : bufsize f + Z.of_nat (patience (host w)) <= Z.of_nat rounds;
  wr_log : error f = false → sent (host w) ++ pending w f = log
}.

(** What a call leaves as it was: other streams and blocks, the buffer and the attributes
    of the stream, and an error that is flagged. *)
Record evolves (p : Z) f w f' w' : Prop := {
  ev_files : files w' = <[p := f']> (files w);
  ev_blocks a : buf f = 0 ∨ a ≠ buf f → blocks w' !! a = blocks w !! a;
  ev_cells : cells w' = cells w;
  ev_supply : supply w' = supply w;
  ev_buf : buf f' = buf f;
  ev_size : bufsize f' = bufsize f;
  ev_owned : buf_owned f' = buf_owned f;
  ev_attrs : attrs f' = attrs f;
  ev_error : error f = true → error f' = true;
  ev_reliable : reliable → buf f ≠ 0 → error f' = error f
}.
Lemma evolves_refl p f w : files w !! p = Some f → evolves p f w f w.
Proof. intros E. split; try done. by rewrite insert_id. Qed.
Lemma evolves_trans p f1 w1 f2 w2 f3 w3 : evolves p f1 w1 f2 w2 → evolves p f2 w2 f3 w3 → evolves p f1 w1 f3 w3.
Proof.
  intros [A1 A2 A3 A4 A5 A6 A7 A8 A9 A10] [B1 B2 B3 B4 B5 B6 B7 B8 B9 B10]. split; try congruence; [by rewrite B1, A1, insert_insert_eq| |auto|].
  - intros a Ha. rewrite B2, A2; [done|done|by rewrite A5].
  - intros Hr Hb. rewrite B10, A10 by (done || congruence). done.
Qed.

(** A step that changes the system, the buffer and the stream [p]. *)
Lemma writing_after w p f log h e bs f' log' : writing w p f log → attrs f' = attrs f → fd f' = fd f → (bufsize f' <= bufsize f) → (patience h <= patience (host w))%nat →
  buffer_ok (with_blocks bs w) f' → (error f' = false → sent h ++ match bs !! buf f' with Some b => take (Z.to_nat (buflen f')) b | None => [] end = log') →
  writing (with_files (<[p := f']> (files w)) (with_blocks bs (with_errno e (with_host h w)))) p f' log'.
Proof.
  intros [] Ha Hfd Hbs Hp Hb Hlog. split; cbn; rewrite ?Ha, ?Hfd; try done; [by rewrite lookup_insert_eq|lia].
Qed.

Lemma run_flush_none p f w : p ≠ 0 → files w !! p = Some f → buf f = 0 ∨ buflen f = 0 → flush_buffer os fresh rounds p w = Done (0, w).
Proof.
  intros Hp Ef Hz. unfold flush_buffer. rewrite (proj2 (Z.eqb_neq p 0)) by done. rewrite (bind_done _ _ _ _ _ (run_get_file p f w Ef)).
  assert ((buf f =? 0) || (buflen f =? 0) = true) as -> by (apply orb_true_iff; destruct Hz; [left|right]; lia). done.
Qed.

Lemma flush_buffer_spec w p f log : writing w p f log →
  ensures (flush_buffer os fresh rounds p) w (λ r w', ∃ f', writing w' p f' log ∧ evolves p f w f' w' ∧
    (r = 0 ∧ buflen f' = 0 ∧ error f' = error f ∨ r = -1 ∧ error f' = true)).
Proof.
  intros Hw. destruct (Hw) as [Hp Ef Hm Hc Hd Hb Hr Hlog]. destruct (decide (buf f = 0 ∨ buflen f = 0)) as [Hz|Hnz].
  - exists 0, w. split; [by apply (run_flush_none p f)|]. exists f. split; [done|]. split; [by apply evolves_refl|]. left. split_and!; try done. destruct Hb as [[_ ?]|(? & _)]; [done|tauto].
  - destruct Hb as [[? _]|(Hb0 & Hsz & Hlen & b & Eb & Hbl)]; [tauto|]. unfold flush_buffer. rewrite (proj2 (Z.eqb_neq p 0)) by done.
    apply (ensures_step _ _ _ _ _ _ (run_get_file p f w Ef)). rewrite (proj2 (Z.eqb_neq (buf f) 0)), (proj2 (Z.eqb_neq (buflen f) 0)) by tauto. cbn [orb]. rewrite Hm, Hc.
    unfold flush_out. apply (ensures_step _ _ _ _ _ _ (run_get_file p f w Ef)). apply (ensures_step _ _ _ _ _ _ (run_get_block _ _ _ Eb)).
    rewrite slice_ok by lia. cbn [Z.to_nat drop]. set (data := take (Z.to_nat (buflen f)) b).
    assert (length data = Z.to_nat (buflen f)) as Hdl by (unfold data; rewrite length_take; lia).
    assert (liftO (Some data) w = Done (data, w)) as El by done. apply (ensures_step _ _ _ _ _ _ El). rewrite Hd.
    eapply ensures_bind; [apply (flush_loop_spec rounds w data 0); lia|]. cbn beta. intros ok w' ((h & e & ->) & Hpat & Hok & Hrel). cbn [host with_errno with_host] in Hpat, Hok.
    assert (files (with_errno e (with_host h w)) !! p = Some f) as Ef' by done. apply (ensures_step _ _ _ _ _ _ (run_get_file p f _ Ef')).
    assert (∀ f', with_files (<[p := f']> (files w)) (with_blocks (blocks w) (with_errno e (with_host h w))) = with_files (<[p := f']> (files w)) (with_errno e (with_host h w))) as Ew by done.
    destruct ok; apply (ensures_step _ _ _ _ _ _ (run_set_file p _ _)); apply ensures_ret; cbn [files with_errno with_host]; rewrite <- Ew.
    + exists (with_bufpos 0 (with_buflen 0 f)). split.
      * apply (writing_after w p f log); try done; [right; cbn; split_and!; try done; try lia; by exists b|].
        cbn. rewrite Eb. intros He. rewrite app_nil_r, Hok by done. rewrite <- Hlog by done. unfold pending. by rewrite Eb.
      * split; [done|]. by left.
    + exists (with_error true f). split; [|split; [split; try done; intros Hre _; by specialize (Hrel Hre)|by right]]. apply (writing_after w p f log); try done. right. cbn. split_and!; try done; try lia. by exists b.
Qed.

Lemma flush_when w p f log (full : bool) : writing w p f log →
  ensures (if full then flush_buffer os fresh rounds p else mret 0) w (λ r w', ∃ f', writing w' p f' log ∧ evolves p f w f' w' ∧
    (r = 0 ∧ buflen f' = (if full then 0 else buflen f) ∨ r = -1 ∧ error f' = true)).
Proof.
  intros Hw. destruct full.
  - eapply ensures_mono; [by apply flush_buffer_spec|]. cbn beta. intros r w' (f' & Hw' & Hev & Hr). exists f'. split; [done|]. split; [done|]. destruct Hr as [(? & ? & _)|?]; [by left|by right].
  - apply ensures_ret. exists f. split; [done|]. split; [apply evolves_refl, Hw|]. by left.
Qed.

(** The bytes [t] go into the buffer. *)
Lemma writing_store w p f log b t : writing w p f log → buf f ≠ 0 → blocks w !! buf f = Some b → buflen f + Z.of_nat (length t) <= bufsize f →
  ∃ b', blit b (buflen f) t = Some b' ∧
    writing (with_files (<[p := with_buflen (buflen f + Z.of_nat (length t)) f]> (files w)) (with_blocks (<[buf f := b']> (blocks w)) w)) p (with_buflen (buflen f + Z.of_nat (length t)) f) (log ++ t).
Proof.
  intros [Hp Ef Hm Hc Hd Hb Hr Hlog] Hb0 Eb Hfit. destruct Hb as [[? _]|(_ & Hsz & Hlen & b1 & Eb1 & Hbl)]; [done|]. rewrite Eb in Eb1. injection Eb1 as <-.
  rewrite blit_ok by lia. eexists. split; [done|]. split; cbn; try done; [by rewrite lookup_insert_eq| |].
  - right. cbn. split_and!; try done; try lia. eexists. split; [by rewrite lookup_insert_eq|]. rewrite !length_app, length_take, length_drop. lia.
  - intros He. unfold pending. cbn. rewrite lookup_insert_eq. rewrite <- (Hlog He). unfold pending. rewrite Eb, <- app_assoc. f_equal.
    rewrite app_assoc, take_app_le by (rewrite length_app, length_take; lia). rewrite take_ge by (rewrite length_app, length_take; lia). done.
Qed.

Lemma take_slice (l : list Z) a n : 0 <= a → 0 <= n → take (Z.to_nat a) l ++ take (Z.to_nat n) (drop (Z.to_nat a) l) = take (Z.to_nat (a + n)) l.
Proof. intros. rewrite Z2Nat.inj_add by lia. apply take_take_drop. Qed.

(** What one round of [fwrite] has to achieve. *)
Definition written_more p f w log dat total written (r : bool * Z) w' : Prop :=
  ∃ f', writing w' p f' (log ++ take (Z.to_nat r.2) dat) ∧ evolves p f w f' w' ∧ written <= r.2 <= total ∧ if r.1 then written < r.2 else error f' = true.

Lemma fwrite_buffer_spec w p f log dat total written : writing w p f (log ++ take (Z.to_nat written) dat) → buf f ≠ 0 → 0 <= written < total → total <= Z.of_nat (length dat) →
  ensures (fwrite_buffer os fresh rounds p total dat written) w (written_more p f w log dat total written).
Proof.
  intros Hw Hb0 Hwr Htot. unfold fwrite_buffer. apply (ensures_step _ _ _ _ _ _ (run_get_file p f w (wr_file _ _ _ _ Hw))).
  eapply ensures_bind; [by apply flush_when|]. cbn beta. intros r w1 (f1 & Hw1 & Hev1 & Hr1). pose proof (ev_buf _ _ _ _ _ Hev1) as Eb1. pose proof (ev_size _ _ _ _ _ Hev1) as Es1.
  assert (0 < bufsize f ∧ 0 <= buflen f <= bufsize f) as [Hs Hl] by (destruct (wr_buffer _ _ _ _ Hw) as [[? _]|(_ & ? & ? & _)]; [done|lia]).
  destruct Hr1 as [[-> Hlen1]|[-> Herr]]; [|apply ensures_ret; exists f1; cbn; split_and!; try done; lia]. change (0 <? 0) with false. cbn iota.
  apply (ensures_step _ _ _ _ _ _ (run_get_file p f1 w1 (wr_file _ _ _ _ Hw1))). cbn zeta.
  assert (0 < bufsize f1 - buflen f1) as Hav by (rewrite Hlen1, Es1; destruct (Z.eqb_spec (buflen f) (bufsize f)); lia).
  set (n := if total - written <? bufsize f1 - buflen f1 then total - written else bufsize f1 - buflen f1).
  assert (0 < n ∧ written + n <= total ∧ buflen f1 + n <= bufsize f1) as (Hn0 & Hnt & Hnb) by (unfold n; destruct (Z.ltb_spec (total - written) (bufsize f1 - buflen f1)); lia).
  rewrite slice_ok by lia. set (t := take (Z.to_nat n) (drop (Z.to_nat written) dat)). assert (Z.of_nat (length t) = n) as Htl by (unfold t; rewrite length_take, length_drop; lia).
  assert (liftO (Some t) w1 = Done (t, w1)) as El by done. apply (ensures_step _ _ _ _ _ _ El).
  destruct (wr_buffer _ _ _ _ Hw1) as [[? _]|(Hbn & _ & _ & b & Eb & _)]; [congruence|].
  destruct (writing_store w1 p f1 _ b t Hw1 Hbn Eb ltac:(lia)) as (b' & Ebl & Hw2). apply (ensures_step _ _ _ _ _ _ (run_write_block _ _ _ _ _ _ Eb Ebl)).
  rewrite Htl in Hw2. rewrite <- app_assoc in Hw2. unfold t in Hw2. rewrite take_slice in Hw2 by lia. apply (ensures_step _ _ _ _ _ _ (run_set_file p _ _)).
  eapply ensures_bind; [by apply (flush_when _ p _ _ _ Hw2)|]. cbn beta. intros r w3 (f3 & Hw3 & Hev3 & Hr3). apply ensures_ret. exists f3. cbn [fst snd]. split; [done|]. split.
  { eapply evolves_trans; [exact Hev1|]. eapply evolves_trans; [|exact Hev3]. split; try done. intros a Ha. cbn. rewrite lookup_insert_ne; [done|]. destruct Ha; congruence. }
  destruct Hr3 as [[-> _]|[-> Herr]]; cbn; split_and!; try done; lia.
Qed.

Lemma fwrite_direct_spec w p f log dat total written : writing w p f (log ++ take (Z.to_nat written) dat) → buf f = 0 → 0 <= written < total → total <= Z.of_nat (length dat) →
  ensures (fwrite_direct os p total dat written) w (written_more p f w log dat total written).
Proof.
  intros Hw Hb0 Hwr Htot. destruct (Hw) as [Hp Ef Hm Hc Hd Hb Hr Hlog]. unfold fwrite_direct. apply (ensures_step _ _ _ _ _ _ (run_get_file p f w Ef)).
  rewrite slice_ok by lia. set (t := take (Z.to_nat (total - written)) (drop (Z.to_nat written) dat)). assert (liftO (Some t) w = Done (t, w)) as El by done. apply (ensures_step _ _ _ _ _ _ El).
  assert (Z.of_nat (length t) = total - written) as Htl by (unfold t; rewrite length_take, length_drop; lia).
  assert (t ≠ []) as Hne by (intros E; rewrite E in Htl; cbn in Htl; lia). destruct (sys_write os d t (host w)) as [n h'] eqn:Ew. destruct (sink_write _ _ _ _ Hne Ew) as (Hn & Hsent & Hpat & _).
  set (w1 := if n <? 0 then with_errno (- n) (with_host h' w) else with_host h' w).
  assert (write os (fd f) t w = Done (if n <? 0 then -1 else n, w1)) as E by (rewrite Hd; unfold write, syscall, w1; rewrite Ew; by destruct (n <? 0)).
  apply (ensures_step _ _ _ _ _ _ E). assert (pending w f = []) as Hpe. { unfold pending. destruct Hb as [[_ ->]|[? _]]; [by destruct (blocks w !! buf f)|done]. }
  assert (∃ e, w1 = with_blocks (blocks w) (with_errno e (with_host h' w))) as [e Ew1] by (unfold w1; destruct (n <? 0); [by exists (- n)|by exists (errno w)]).
  destruct (Z.leb_spec (if n <? 0 then -1 else n) 0) as [Hle|Hgt].
  - apply (ensures_step _ _ _ _ _ _ (run_set_file p _ _)). apply ensures_ret. exists (with_error true f). rewrite Ew1. cbn. split; [|split; [by split|split; [lia|done]]].
    apply (writing_after w p f (log ++ take (Z.to_nat written) dat)); try done.
  - assert (0 < n) as Hpos by (destruct (Z.ltb_spec n 0); lia). rewrite (proj2 (Z.ltb_ge n 0)) in * by lia. apply ensures_ret. exists f. cbn. split; [|split; [|lia]].
    2:{ unfold w1. rewrite (proj2 (Z.ltb_ge n 0)) by lia. split; try done. cbn. by rewrite insert_id. }
    split; cbn; try done; unfold w1; rewrite (proj2 (Z.ltb_ge n 0)) by lia; cbn; try done.
    + lia.
    + intros He. rewrite Hsent. specialize (Hlog He). rewrite Hpe, app_nil_r in Hlog. assert (pending (with_host h' w) f = []) as -> by exact Hpe. rewrite app_nil_r, Hlog, <- app_assoc. f_equal.
      unfold t. rewrite take_take, Nat.min_l by lia. by rewrite take_slice by lia.
Qed.

Lemma writing_failed w p f log log' : writing w p f log → error f = true → writing w p f log'.
Proof. intros [] He. split; try done. by rewrite He. Qed.

Lemma fwrite_loop_spec n w p f log dat total written : writing w p f (log ++ take (Z.to_nat written) dat) → 0 <= written <= total → total <= Z.of_nat (length dat) → total - written < Z.of_nat n →
  ensures (fwrite_loop os fresh rounds n p total dat written) w (λ r w', ∃ f', writing w' p f' (log ++ take (Z.to_nat total) dat) ∧ evolves p f w f' w' ∧
    written <= r <= total ∧ (r = total ∨ error f' = true)).
Proof.
  revert w f written. induction n as [|n IH]; intros w f written Hw Hwr Htot Hn; [lia|]. cbn [fwrite_loop]. destruct (Z.leb_spec total written) as [Hle|Hlt].
  - apply ensures_ret. exists f. replace total with written by lia. split; [done|]. split; [apply evolves_refl, Hw|]. split; [lia|by left].
  - apply (ensures_step _ _ _ _ _ _ (run_get_file p f w (wr_file _ _ _ _ Hw))). rewrite (wr_mem _ _ _ _ Hw).
    eapply (ensures_bind _ _ _ (written_more p f w log dat total written)).
    + destruct (Z.eqb_spec (buf f) 0); cbn [negb]; [apply fwrite_direct_spec; try done; lia|apply fwrite_buffer_spec; try done; lia].
    + intros [go r] w1 (f1 & Hw1 & Hev1 & Hr & Hgo). cbn [fst snd] in *. destruct go.
      * eapply ensures_mono; [apply (IH w1 f1 r Hw1); lia|]. cbn beta. intros r' w2 (f2 & Hw2 & Hev2 & Hr2 & Hor). exists f2. split; [done|]. split; [by eapply evolves_trans|]. split; [lia|done].
      * apply ensures_ret. exists f1. split; [by eapply writing_failed|]. split; [done|]. split; [lia|by right].
Qed.
Lemma fwrite_spec w p f log dat size nmemb : writing w p f log → 0 < size → 0 <= nmemb → size * nmemb <= Z.of_nat (length dat) → Z.of_nat (length dat) < 2 ^ 63 →
  ensures (fwrite os fresh rounds dat size nmemb p) w (λ r w', ∃ f', writing w' p f' (log ++ take (Z.to_nat (size * nmemb)) dat) ∧ evolves p f w f' w' ∧ (r = nmemb ∨ error f' = true)).
Proof.
  intros Hw Hs Hn Hl Hd. unfold fwrite. rewrite (proj2 (Z.eqb_neq p 0)) by apply Hw. rewrite (proj2 (Z.eqb_neq size 0)) by lia. cbn [orb].
  destruct (Z.eqb_spec nmemb 0) as [-> |Hne]; [apply ensures_ret; exists f; rewrite Z.mul_0_r, app_nil_r; split; [done|]; split; [apply evolves_refl, Hw|by left]|].
  rewrite (u64_small (size * nmemb)) by (unfold is_u64; nia). apply (ensures_step _ _ _ _ _ _ (run_get_file p f w (wr_file _ _ _ _ Hw))). rewrite (wr_cookie _ _ _ _ Hw).
  eapply ensures_bind; [apply (fwrite_loop_spec _ w p f log dat (size * nmemb) 0); [by rewrite app_nil_r|nia|lia|lia]|]. cbn beta. intros r w' (f' & Hw' & Hev & Hr & Hor). apply ensures_ret. exists f'.
  split; [done|]. split; [done|]. destruct Hor as [-> |]; [left; rewrite Z.mul_comm; by apply Z.div_mul; lia|by right].
Qed.

(** After a flush without an error nothing is pending. *)
Lemma fflush_spec w p f log : writing w p f log →
  ensures (fflush os fresh rounds p) w (λ _ w', ∃ f', writing w' p f' log ∧ evolves p f w f' w' ∧ (buflen f' = 0 ∨ error f' = true)).
Proof.
  intros Hw. unfold fflush. rewrite (proj2 (Z.eqb_neq p 0)) by apply Hw. eapply ensures_bind; [by apply flush_buffer_spec|]. cbn beta.
  intros r w1 (f1 & Hw1 & Hev1 & [(-> & Hl & He)|[-> He]]); [|apply ensures_ret; exists f1; split; [done|]; split; [done|by right]]. change (0 <? 0) with false. cbn iota.
  apply (ensures_step _ _ _ _ _ _ (run_get_file p f1 w1 (wr_file _ _ _ _ Hw1))). rewrite (wr_mem _ _ _ _ Hw1). rewrite (wr_fd _ _ _ _ Hw1).
  destruct (sys_fsync os d (host w1)) as [n h'] eqn:Es. destruct (sink_fsync _ _ _ Es) as [Hsent Hpat].
  set (w2 := if n <? 0 then with_errno (- n) (with_host h' w1) else with_host h' w1).
  assert (syscall (sys_fsync os d) w1 = Done (if n <? 0 then -1 else n, w2)) as E by (unfold syscall, w2; rewrite Es; by destruct (n <? 0)). apply (ensures_step _ _ _ _ _ _ E). apply ensures_ret.
  exists f1. split; [|split; [|by left]].
  - destruct Hw1 as [Hp Ef Hm Hc Hd Hb Hr Hlog]. assert (host w2 = h' ∧ files w2 = files w1 ∧ blocks w2 = blocks w1) as (Eh & Efs & Ebs) by (unfold w2; by destruct (n <? 0)).
    unfold buffer_ok, pending in *. split; unfold buffer_ok, pending; rewrite ?Eh, ?Efs, ?Ebs; try done; [lia|by rewrite Hsent].
  - eapply evolves_trans; [exact Hev1|]. assert (files w1 !! p = Some f1) as Ef by apply Hw1. unfold w2. destruct (n <? 0); split; try done; cbn; by rewrite insert_id.
Qed.

Lemma run_close w n h' : sys_close os d (host w) = (n, h') → ∃ e, close os d w = Done (s32 (if n <? 0 then -1 else n), with_errno e (with_host h' w)).
Proof.
  intros E. unfold close, syscall. cbn. unfold mbind, M_bind. rewrite E. destruct (n <? 0); [by exists (- n)|]. exists (errno w). by destruct w.
Qed.
Lemma fclose_spec w p f log : writing w p f log →
  ensures (fclose os fresh rounds p) w (λ _ w', files w' = delete p (files w) ∧ (∀ a, buf f = 0 ∨ a ≠ buf f → blocks w' !! a = blocks w !! a) ∧ cells w' = cells w ∧ supply w' = supply w ∧
    (buf f ≠ 0 → buf_owned f = true → blocks w' !! buf f = None) ∧ (buflen f = 0 → sent (host w') = sent (host w))).
Proof.
  intros Hw. unfold fclose. rewrite (proj2 (Z.eqb_neq p 0)) by apply Hw.
  eapply (ensures_bind _ _ _ (λ _ w', ∃ f', writing w' p f' log ∧ evolves p f w f' w' ∧ (buflen f = 0 → sent (host w') = sent (host w)))).
  { destruct (decide (buflen f = 0)) as [Hz|Hnz].
    - exists 0, w. split; [apply (run_flush_none p f); [apply Hw|apply Hw|by right]|]. exists f. split; [done|]. split; [apply evolves_refl, Hw|done].
    - eapply ensures_mono; [by apply flush_buffer_spec|]. cbn beta. intros r w' (f' & Hw' & Hev & _). exists f'. split; [done|]. split; [done|]. by intros ?. }
  intros _ w1 (f1 & Hw1 & Hev1 & Hsent1). apply (ensures_step _ _ _ _ _ _ (run_get_file p f1 w1 (wr_file _ _ _ _ Hw1))). rewrite (wr_cookie _ _ _ _ Hw1), (wr_mem _ _ _ _ Hw1), (wr_fd _ _ _ _ Hw1).
  destruct (sys_close os d (host w1)) as [n h'] eqn:Ecl. pose proof (sink_close _ _ _ Ecl) as Hs. destruct (run_close w1 n h' Ecl) as [e Er]. apply (ensures_step _ _ _ _ _ _ Er).
  set (w2 := with_errno e (with_host h' w1)). assert (files w2 !! p = Some f1) as Ef2 by apply Hw1. destruct Hev1 as [A1 A2 A3 A4 A5 A6 A7 A8 A9 _].
  unfold release_buffer. set (w3 := with_files (<[p := f1]> (files w2)) w2).
  assert (∃ w4, (if negb (buf f1 =? 0) && buf_owned f1 then free (buf f1) else mret tt) w3 = Done (tt, w4) ∧ files w4 = files w3 ∧ cells w4 = cells w3 ∧ supply w4 = supply w3 ∧ host w4 = host w3 ∧
    (∀ a, buf f = 0 ∨ a ≠ buf f → blocks w4 !! a = blocks w3 !! a) ∧ (buf f ≠ 0 → buf_owned f = true → blocks w4 !! buf f = None)) as (w4 & E4 & F1 & F2 & F3 & F4 & F5 & F6).
  { rewrite A5, A7. destruct (Z.eqb_spec (buf f) 0) as [Hz|Hz]; cbn [negb andb]; [by exists w3|]. destruct (buf_owned f); [|by exists w3].
    destruct (wr_buffer _ _ _ _ Hw1) as [[? _]|(_ & _ & _ & b & Eb & _)]; [congruence|]. rewrite A5 in Eb. eexists. unfold free. rewrite (proj2 (Z.eqb_neq (buf f) 0)) by done.
    assert (blocks w3 !! buf f = Some b) as Eb3 by exact Eb. rewrite (bind_done _ _ _ _ _ (run_get_block _ _ _ Eb3)). split; [reflexivity|]. cbn. split_and!; try done.
    - intros a Ha. rewrite lookup_delete_ne; [done|]. destruct Ha; congruence.
    - intros _ _. by rewrite lookup_delete_eq. }
  apply (ensures_step _ _ _ tt w4).
  { rewrite (bind_done _ _ _ _ _ (run_get_file p f1 w2 Ef2)). rewrite (wr_mem _ _ _ _ Hw1). cbn [andb]. rewrite (bind_done _ _ _ _ _ (run_set_file p f1 w2)). exact E4. }
  apply (ensures_step _ _ _ tt (with_files (delete p (files w4)) w4)); [done|]. apply ensures_ret. cbn. split_and!.
  - rewrite F1. cbn. rewrite A1. by rewrite !delete_insert_eq.
  - intros a Ha. rewrite F5 by done. cbn. by apply A2.
  - by rewrite F2.
  - by rewrite F3.
  - done.
  - intros Hz. rewrite F4. cbn. rewrite Hs. by apply Hsent1.
Qed.

#[local] Instance descriptor_writer limit : Writer writing evolves limit.
Proof.
  split.
  - by intros w p f log [].
  - intros w p f log Hw. apply evolves_refl, Hw.
  - apply evolves_trans.
  - intros p f w f' w' []. done.
  - intros w p f log dat size nmemb Hw. intros. by apply fwrite_spec.
  - intros w p f log Hw _. eapply ensures_mono; [by apply fflush_spec|]. cbn beta. intros _ w' (f' & ? & ? & _). by exists f'.
Qed.

(** A whole program: open, write, check and close. *)
Definition write_file (path : list Z) (size : Z) (cs : list write_call) : M (io H) (list Z * bool) :=
  p ← fopen os path mode_w;
  setvbuf fresh p 0 0 size;;
  rs ← do_writes p cs;
  fflush os fresh rounds p;;
  e ← ferror p;
  fclose os fresh rounds p;;
  mret (rs, e).

Lemma write_file_spec path size cs w p a l h1 : sys_open os path (Z.lor O_WRONLY (Z.lor O_CREAT O_TRUNC)) 420 (host w) = (d, h1) → 0 <= d < 2 ^ 31 →
  supply w = p :: a :: l → p ≠ 0 → a ≠ 0 → files w !! p = None → blocks w !! a = None → 0 <= size < 2 ^ 63 → Z.of_nat (length (fresh size)) = size →
  size + Z.of_nat (patience h1) <= Z.of_nat rounds → Forall write_ok cs →
  ensures (write_file path size cs) w (λ r w', files w' = files w ∧ blocks w' = blocks w ∧ cells w' = cells w ∧
    (r.2 = false → Forall2 write_result cs r.1 ∧ sent (host w') = sent h1 ++ concat (map write_bytes cs)) ∧ (reliable → 0 < size → r.2 = false)).
Proof.
  intros Eo Hd Es Hp Ha Ef Eb Hsz Hfr Hr Hcs. unfold write_file. destruct (run_fopen d true path w p (a :: l) h1 Eo Hd Es Hp) as (f0 & E0 & Hm & Hc & Hnew). apply (ensures_step _ _ _ _ _ _ E0).
  set (w0 := with_files (<[p := f0]> (files w)) (with_supply (a :: l) (with_host h1 w))).
  destruct (run_setvbuf w0 p a l size f0 Hp ltac:(by cbn; rewrite lookup_insert_eq) ltac:(by rewrite Hnew) eq_refl Ha ltac:(lia)) as (f & w1 & E1 & F1 & F2 & F3 & _ & F4 & F5 & F6 & _ & _ & F7 & F8 & F9 & F10).
  apply (ensures_step _ _ _ _ _ _ E1). cbn in F1, F2, F3. rewrite insert_insert_eq in F1.
  assert (writing w1 p f (sent h1)) as Hw.
  { split; rewrite ?F4, ?F5, ?F3, ?F7; try done; [by rewrite F1, lookup_insert_eq|by rewrite Hnew| |].
    - destruct F10 as [(? & ? & _)|(? & E & _ & Ebs)]; [by left|]. right. rewrite E, F7, F9. split_and!; try done; try lia. exists (fresh size). by rewrite Ebs, lookup_insert_eq.
    - intros _. unfold pending. rewrite F9. cbn. by destruct (blocks w1 !! buf f); rewrite app_nil_r. }
  assert (error f = false) as He0 by (by rewrite F6, Hnew).
  eapply ensures_bind; [by apply (do_writes_spec writing evolves (Z.of_nat (length (sent h1 ++ concat (map write_bytes cs)))) w1 p f (sent h1) cs)|]. cbn beta. intros rs w2 (f2 & Hw2 & Hev2 & Hrs).
  eapply ensures_bind; [by apply fflush_spec|]. cbn beta. intros _ w3 (f3 & Hw3 & Hev3 & Hempty). pose proof (evolves_trans _ _ _ _ _ _ _ Hev2 Hev3) as Hev.
  apply (ensures_step _ _ _ (error f3) w3).
  { unfold ferror. rewrite (proj2 (Z.eqb_neq p 0)) by done. by rewrite (bind_done _ _ _ _ _ (run_get_file p f3 w3 (wr_file _ _ _ _ Hw3))). }
  eapply ensures_bind; [by apply (fclose_spec w3 p f3 _ Hw3)|]. cbn beta. intros _ w4 (G1 & G2 & G3 & _ & G4 & G5). apply ensures_ret. cbn [fst snd]. destruct Hev as [B1 B2 B3 B4 B5 B6 B7 B8 B9 B10].
  split_and!.
  - rewrite G1, B1, F1, !delete_insert_eq. by apply delete_id.
  - apply map_eq. intros x. destruct F10 as [(_ & E & _ & Ebs)|(Hpos & E & Eow & Ebs)].
    + rewrite G2, B2, Ebs; [done|by left|left; congruence].
    + destruct (decide (x = a)) as [-> |Hx]; [|rewrite G2, B2, Ebs, lookup_insert_ne; [done|done|right; congruence|right; congruence]]. rewrite Eb, <- E, <- B5. rewrite G4; [done|congruence|congruence].
  - by rewrite G3, B3, F2.
  - intros He. destruct Hempty as [Hz|]; [|congruence]. split.
    + apply Hrs. destruct (error f2) eqn:E2; [|done]. pose proof (ev_error _ _ _ _ _ Hev3 E2). congruence.
    + rewrite G5 by done. rewrite <- (wr_log _ _ _ _ Hw3 He). unfold pending. rewrite Hz. cbn. by destruct (blocks w3 !! buf f3); rewrite app_nil_r.
  - intros Hrel Hpos. rewrite B10; [done|done|]. destruct F10 as [(? & _)|(_ & -> & _)]; [lia|done].
Qed.
End sink.

(** ** Reading from a descriptor *)

(** The contract for a descriptor that is read: [left] is what it has not delivered.  A read
    fails and changes nothing, or returns bytes from the front, none only at the end. *)
Class Source (d : Z) (left : H → list Z) : Prop := {
  source_read n h r h' : 0 < n → sys_read os d n h = (r, h') →
    match r with
    | inl _ => left h' = left h
    | inr data => Z.of_nat (length data) <= n ∧ left h = data ++ left h' ∧ (data = [] → left h = [])
    end
}.

Section source.
Context (d : Z) (left : H → list Z) {source : Source d left}.
(** Reads do not fail. *)
Definition steady_source : Prop := ∀ n h e h', 0 < n → sys_read os d n h ≠ (inl e, h').

(** The bytes in the buffer that were not consumed. *)
Definition unread w f : list Z :=
  if buf f =? 0 then [] else match blocks w !! buf f with Some b => take (Z.to_nat (buflen f - bufpos f)) (drop (Z.to_nat (bufpos f)) b) | None => [] end.
Record reading w (p : Z) f (rest : list Z) : Prop := {
  rd_null : p ≠ 0;
  rd_file : files w !! p = Some f;
  rd_mem : is_mem (attrs f) = false;
  rd_cookie : is_cookie (attrs f) = false;
  rd_fd : fd f = d;
  rd_buffer : buf f ≠ 0 → 0 < bufsize f < 2 ^ 63 ∧ 0 <= bufpos f <= buflen f ∧ buflen f <= bufsize f ∧ ∃ b, blocks w !! buf f = Some b ∧ Z.of_nat (length b) = bufsize f;
  rd_rest : unread w f ++ left (host w) = rest
}.
(** What a call leaves as it was. *)
Record advances (p : Z) f w f' w' : Prop := {
  ad_files : files w' = <[p := f']> (files w);
  ad_blocks a : a ≠ buf f → blocks w' !! a = blocks w !! a;
  ad_cells : cells w' = cells w;
  ad_supply : supply w' = supply w;
  ad_buf : buf f' = buf f;
  ad_owned : buf_owned f' = buf_owned f;
  ad_attrs : attrs f' = attrs f;
  ad_ungot : have_ungot f' = have_ungot f;
  ad_ungot_char : ungot_char f' = ungot_char f;
  ad_error : steady_source → error f' = error f
}.
Lemma advances_refl p f w : files w !! p = Some f → advances p f w f w.
Proof. intros E. split; try done. by rewrite insert_id. Qed.
Lemma advances_trans p f1 w1 f2 w2 f3 w3 : advances p f1 w1 f2 w2 → advances p f2 w2 f3 w3 → advances p f1 w1 f3 w3.
Proof.
  intros [A1 A2 A3 A4 A5 A6 A7 A8 A9 A10] [B1 B2 B3 B4 B5 B6 B7 B8 B9 B10]. split; try congruence; [by rewrite B1, A1, insert_insert_eq| |].
  - intros a Ha. rewrite B2, A2 by congruence. done.
  - intros Hs. rewrite B10, A10 by done. done.
Qed.

(** A call of the system: what it returns and the state after it. *)
Lemma run_read w n : 0 < n → ∃ r h' e, read os d n w = Done (r, with_errno e (with_host h' w)) ∧
  match r with None => left h' = left (host w) ∧ ¬ steady_source | Some data => Z.of_nat (length data) <= n ∧ left (host w) = data ++ left h' ∧ (data = [] → left (host w) = []) end.
Proof.
  intros Hn. unfold read. destruct (sys_read os d n (host w)) as [r h'] eqn:E. pose proof (source_read _ _ _ _ Hn E) as Hl. destruct r as [e|data].
  - exists None, h', (- e). split; [done|]. split; [done|]. intros Hs. by apply (Hs n (host w) e h' Hn).
  - exists (Some data), h', (errno w). split; [by destruct w|done].
Qed.

Lemma unread_take w f b n : buf f ≠ 0 → blocks w !! buf f = Some b → 0 <= bufpos f → 0 <= n <= buflen f - bufpos f →
  unread w f = take (Z.to_nat n) (drop (Z.to_nat (bufpos f)) b) ++ unread w (with_bufpos (bufpos f + n) f).
Proof.
  intros Hb Eb Hp Hn. unfold unread. cbn. rewrite (proj2 (Z.eqb_neq (buf f) 0)), Eb by done. rewrite Z2Nat.inj_add, <- drop_drop by lia.
  replace (Z.to_nat (buflen f - bufpos f)) with (Z.to_nat n + Z.to_nat (buflen f - (bufpos f + n)))%nat by lia. by rewrite <- take_take_drop.
Qed.

(** A round has read [data] into the array. *)
Definition read_more p f w rest out copied total (data : list Z) (r : list Z * Z) w' : Prop :=
  ∃ f' rest', rest = data ++ rest' ∧ reading w' p f' rest' ∧ advances p f w f' w' ∧ r = (store out copied data, copied + Z.of_nat (length data)) ∧ copied + Z.of_nat (length data) <= total.

Lemma take_buffered_spec w p f rest out copied total : reading w p f rest → buf f ≠ 0 → bufpos f < buflen f → 0 <= copied < total → total <= Z.of_nat (length out) →
  ensures (take_buffered p total out copied) w (λ r w', ∃ data, data ≠ [] ∧ read_more p f w rest out copied total data r w').
Proof.
  intros Hw Hb Hlt Hc Ht. destruct (Hw) as [Hp Ef Hm Hck Hd Hbuf Hrest]. destruct (Hbuf Hb) as (Hs & Hpos & Hlen & b & Eb & Hbl). unfold take_buffered.
  apply (ensures_step _ _ _ _ _ _ (run_get_file p f w Ef)). cbn zeta. set (n := if total - copied <? buflen f - bufpos f then total - copied else buflen f - bufpos f).
  assert (0 < n ∧ copied + n <= total ∧ n <= buflen f - bufpos f) as (Hn0 & Hnt & Hnb) by (unfold n; destruct (Z.ltb_spec (total - copied) (buflen f - bufpos f)); lia).
  apply (ensures_step _ _ _ _ _ _ (run_get_block _ _ _ Eb)). rewrite slice_ok by lia. set (data := take (Z.to_nat n) (drop (Z.to_nat (bufpos f)) b)).
  assert (Z.of_nat (length data) = n) as Hdl by (unfold data; rewrite length_take, length_drop; lia).
  assert (liftO (Some data) w = Done (data, w)) as El by done. apply (ensures_step _ _ _ _ _ _ El). rewrite blit_ok by lia. fold (store out copied data).
  assert (liftO (Some (store out copied data)) w = Done (store out copied data, w)) as El2 by done. apply (ensures_step _ _ _ _ _ _ El2). apply (ensures_step _ _ _ _ _ _ (run_set_file p _ _)).
  apply ensures_ret. exists data. split; [intros E; rewrite E in Hdl; cbn in Hdl; lia|]. exists (with_bufpos (bufpos f + n) f), (unread w (with_bufpos (bufpos f + n) f) ++ left (host w)).
  split; [unfold data; by rewrite app_assoc, <- (unread_take w f b n Hb Eb ltac:(lia) ltac:(lia)), Hrest|]. split_and!; [|by split|by rewrite Hdl|lia].
  split; cbn; try done; [by rewrite lookup_insert_eq|]. intros _. split_and!; try lia. by exists b.
Qed.

Lemma run_stop p failed f w : files w !! p = Some f →
  stop_reading p failed w = Done (tt, with_files (<[p := if failed : bool then with_error true f else with_eof true f]> (files w)) w).
Proof. intros E. unfold stop_reading. by rewrite (bind_done _ _ _ _ _ (run_get_file p f w E)). Qed.
(** The state after a call of the system that delivered nothing into the buffer. *)
Lemma reading_stopped w p f rest h' e failed : reading w p f rest → left h' = left (host w) → (failed = true → ¬ steady_source) →
  let f' := if failed : bool then with_error true f else with_eof true f in
  let w' := with_files (<[p := f']> (files w)) (with_errno e (with_host h' w)) in reading w' p f' rest ∧ advances p f w f' w'.
Proof.
  intros [Hp Ef Hm Hck Hd Hbuf Hrest] Hl Hf. cbn zeta. split.
  - destruct failed; (split; cbn; try done; [by rewrite lookup_insert_eq|by rewrite Hl]).
  - destruct failed; split; try done. intros Hs. by destruct (Hf eq_refl).
Qed.

Lemma refill_spec w p f rest : reading w p f rest → buf f ≠ 0 → buflen f <= bufpos f →
  ensures (refill os p) w (λ ok w', ∃ f', reading w' p f' rest ∧ advances p f w f' w' ∧ if ok : bool then bufpos f' < buflen f' else eof f' = true ∧ rest = [] ∨ error f' = true ∧ ¬ steady_source).
Proof.
  intros Hw Hb Hle. destruct (Hw) as [Hp Ef Hm Hck Hd Hbuf Hrest]. destruct (Hbuf Hb) as (Hs & Hpos & Hlen & b & Eb & Hbl). unfold refill.
  apply (ensures_step _ _ _ _ _ _ (run_get_file p f w Ef)). rewrite Hd. destruct (run_read w (bufsize f) ltac:(lia)) as (r & h' & e & Er & Hr). apply (ensures_step _ _ _ _ _ _ Er).
  set (w1 := with_errno e (with_host h' w)). assert (files w1 !! p = Some f) as Ef1 by done. assert (unread w f = []) as Hun.
  { unfold unread. rewrite (proj2 (Z.eqb_neq (buf f) 0)), Eb by done. by replace (Z.to_nat (buflen f - bufpos f)) with O by lia. }
  assert (∀ f1, unread w1 f1 = unread w f1) as Hun1 by done. rewrite Hun in Hrest. cbn [app] in Hrest.
  destruct r as [[|c data]|].
  - destruct Hr as (_ & Hl & He). apply (ensures_step _ _ _ _ _ _ (run_stop p false f w1 Ef1)). apply ensures_ret. exists (with_eof true f).
    destruct (reading_stopped w p f rest h' e false Hw ltac:(by rewrite Hl) ltac:(done)) as [Hr' Ha]. split; [exact Hr'|]. split; [exact Ha|]. left. split; [done|]. rewrite <- Hrest. by apply He.
  - destruct Hr as (Hn & Hl & _). assert (0 < Z.of_nat (length (c :: data))) as Hn0 by (cbn [length]; lia). set (dat := c :: data) in *. clearbody dat.
    assert (blit b 0 dat = Some (store b 0 dat)) as Ebl by (apply blit_ok; lia). apply (ensures_step _ _ _ _ _ _ (run_write_block (buf f) 0 dat b _ w1 Eb Ebl)).
    apply (ensures_step _ _ _ _ _ _ (run_set_file p _ _)). apply ensures_ret. exists (with_bufpos 0 (with_buflen (Z.of_nat (length dat)) f)). split; [|split; [|done]].
    + split; cbn; try done; [by rewrite lookup_insert_eq| |].
      * intros _. split_and!; try lia. exists (store b 0 dat). rewrite lookup_insert_eq, store_length by lia. done.
      * unfold unread. cbn. rewrite (proj2 (Z.eqb_neq (buf f) 0)), lookup_insert_eq by done. rewrite <- Hrest, Hl. f_equal.
        rewrite Z.sub_0_r, Nat2Z.id. unfold store. change (Z.to_nat 0) with O. rewrite take_0, drop_0. cbn [app]. by rewrite take_app_length.
    + split; try done. intros a Ha. cbn. by rewrite lookup_insert_ne.
  - destruct Hr as [Hl Hns]. apply (ensures_step _ _ _ _ _ _ (run_stop p true f w1 Ef1)). apply ensures_ret. exists (with_error true f).
    destruct (reading_stopped w p f rest h' e true Hw Hl ltac:(done)) as [Hr' Ha]. split; [exact Hr'|]. split; [exact Ha|]. by right.
Qed.

(** What a read of up to [total] bytes achieves: all of them, or all that is left, or an
    error. *)
Definition read_done p f w rest out copied total (r : list Z * Z) w' : Prop :=
  ∃ data f' rest', rest = data ++ rest' ∧ reading w' p f' rest' ∧ advances p f w f' w' ∧ r = (store out copied data, copied + Z.of_nat (length data)) ∧
    copied + Z.of_nat (length data) <= total ∧ (copied + Z.of_nat (length data) = total ∨ eof f' = true ∧ rest' = [] ∨ error f' = true ∧ ¬ steady_source).

(** A round followed by the others. *)
Lemma read_done_after p f w rest out copied total data r f1 w1 rest1 w2 : rest = data ++ rest1 → advances p f w f1 w1 → 0 <= copied → copied + Z.of_nat (length data) <= Z.of_nat (length out) →
  read_done p f1 w1 rest1 (store out copied data) (copied + Z.of_nat (length data)) total r w2 → read_done p f w rest out copied total r w2.
Proof.
  intros -> Ha Hc Hl (data2 & f2 & rest2 & -> & Hr2 & Ha2 & -> & Hle & Hend). exists (data ++ data2), f2, rest2. rewrite length_app, Nat2Z.inj_add, Z.add_assoc, store_app, app_assoc by lia.
  split; [done|]. split; [done|]. split; [by eapply advances_trans|]. done.
Qed.
Lemma read_done_stop p f w rest out copied total f1 w1 : reading w1 p f1 rest → advances p f w f1 w1 → copied <= total → eof f1 = true ∧ rest = [] ∨ error f1 = true ∧ ¬ steady_source →
  read_done p f w rest out copied total (out, copied) w1.
Proof.
  intros Hr Ha Hc Hor. exists [], f1, rest. cbn [length Z.of_nat]. rewrite store_nil, Z.add_0_r. split_and!; try done. by right.
Qed.

Lemma fread_loop_spec n w p f rest out copied total : reading w p f rest → 0 <= copied <= total → total <= Z.of_nat (length out) → total - copied < Z.of_nat n →
  ensures (fread_loop os n p total out copied) w (read_done p f w rest out copied total).
Proof.
  revert w f rest out copied. induction n as [|n IH]; intros w f rest out copied Hw Hc Ht Hn; [lia|]. cbn [fread_loop]. destruct (Z.leb_spec total copied) as [Hle|Hlt].
  { apply ensures_ret. exists [], f, rest. cbn [length Z.of_nat]. rewrite store_nil, Z.add_0_r. split_and!; try done; [apply advances_refl, Hw|lia|left; lia]. }
  assert (∀ data f1 w1 rest1, data ≠ [] → rest = data ++ rest1 → reading w1 p f1 rest1 → advances p f w f1 w1 → copied + Z.of_nat (length data) <= total →
    ensures (fread_loop os n p total (store out copied data) (copied + Z.of_nat (length data))) w1 (read_done p f w rest out copied total)) as Hgo.
  { intros data f1 w1 rest1 Hne Er Hw1 Ha Hle. assert (0 < Z.of_nat (length data)) by (destruct data; [done|cbn [length]; lia]). eapply ensures_mono.
    - apply (IH w1 f1 rest1); [done|lia|rewrite store_length by lia; lia|lia].
    - intros r w2 Hd. eapply read_done_after; [exact Er|exact Ha|lia|lia|exact Hd]. }
  apply (ensures_step _ _ _ _ _ _ (run_get_file p f w (rd_file _ _ _ _ Hw))). rewrite (rd_mem _ _ _ _ Hw). destruct (Z.eqb_spec (buf f) 0) as [Hz|Hb]; cbn [negb].
  - rewrite (rd_fd _ _ _ _ Hw). destruct (run_read w (total - copied) ltac:(lia)) as (r & h' & e & Er & Hr). apply (ensures_step _ _ _ _ _ _ Er). set (w1 := with_errno e (with_host h' w)).
    assert (files w1 !! p = Some f) as Ef1 by apply Hw. assert (unread w f = [] ∧ unread w1 f = []) as [Hu Hu1] by (unfold unread; by rewrite Hz).
    pose proof (rd_rest _ _ _ _ Hw) as Hrest. rewrite Hu in Hrest. cbn [app] in Hrest. destruct r as [[|c data]|].
    + destruct Hr as (_ & Hl & He). apply (ensures_step _ _ _ _ _ _ (run_stop p false f w1 Ef1)). apply ensures_ret. destruct (reading_stopped w p f rest h' e false Hw ltac:(by rewrite Hl) ltac:(done)) as [Hr' Ha].
      eapply read_done_stop; [exact Hr'|exact Ha|lia|]. left. split; [done|]. rewrite <- Hrest. by apply He.
    + destruct Hr as (Hlen & Hl & _). set (dat := c :: data) in *. assert (dat ≠ []) as Hne by done. clearbody dat. rewrite blit_ok by lia. fold (store out copied dat).
      assert (liftO (Some (store out copied dat)) w1 = Done (store out copied dat, w1)) as El by done. apply (ensures_step _ _ _ _ _ _ El).
      apply (Hgo dat f w1 (left h')); [done|by rewrite <- Hrest, Hl| | |lia].
      * destruct Hw. split; try done. by rewrite Hu1.
      * split; try done. cbn. rewrite insert_id; [done|apply Hw].
    + destruct Hr as [Hl Hns]. apply (ensures_step _ _ _ _ _ _ (run_stop p true f w1 Ef1)). apply ensures_ret. destruct (reading_stopped w p f rest h' e true Hw Hl ltac:(done)) as [Hr' Ha].
      eapply read_done_stop; [exact Hr'|exact Ha|lia|by right].
  - eapply (ensures_bind _ _ _ (λ ok w', ∃ f', reading w' p f' rest ∧ advances p f w f' w' ∧ if ok : bool then bufpos f' < buflen f' else eof f' = true ∧ rest = [] ∨ error f' = true ∧ ¬ steady_source)).
    { destruct (Z.leb_spec (buflen f) (bufpos f)); [by apply refill_spec|]. apply ensures_ret. exists f. split; [done|]. split; [apply advances_refl, Hw|done]. }
    intros ok w1 (f1 & Hw1 & Ha1 & Hok). destruct ok; cbn [negb]; [|apply ensures_ret; eapply read_done_stop; [exact Hw1|exact Ha1|lia|exact Hok]].
    eapply ensures_bind; [apply (take_buffered_spec w1 p f1 rest out copied total Hw1); [by rewrite (ad_buf _ _ _ _ _ Ha1)|done|lia|lia]|]. cbn beta.
    intros r w2 (data & Hne & f2 & rest2 & Er & Hw2 & Ha2 & -> & Hle). cbn [fst snd]. apply (Hgo data f2 w2 rest2); try done. by eapply advances_trans.
Qed.

Lemma stream_fread_spec w p f rest out size nmemb : reading w p f rest → 0 < size → 0 <= nmemb → size * nmemb <= Z.of_nat (length out) < 2 ^ 63 →
  ensures (fread os out size nmemb p) w (λ r w', ∃ r', read_done p f w rest out 0 (size * nmemb) r' w' ∧ r = (r'.1, r'.2 / size)).
Proof.
  intros Hw Hs Hn Hl. unfold fread. rewrite (proj2 (Z.eqb_neq p 0)) by apply Hw. rewrite (proj2 (Z.eqb_neq size 0)) by lia. cbn [orb]. destruct (Z.eqb_spec nmemb 0) as [-> |Hne].
  - apply ensures_ret. exists (out, 0). split; [|done]. exists [], f, rest. rewrite store_nil, Z.mul_0_r. split_and!; try done; [apply advances_refl, Hw|by left].
  - rewrite (u64_small (size * nmemb)) by (unfold is_u64; nia). apply (ensures_step _ _ _ _ _ _ (run_get_file p f w (rd_file _ _ _ _ Hw))). rewrite (rd_cookie _ _ _ _ Hw).
    eapply ensures_bind; [apply (fread_loop_spec _ w p f rest out 0 (size * nmemb) Hw); nia|]. intros r w' Hd. apply ensures_ret. by exists r.
Qed.

(** *** Character by character, from a system that does not fail *)

Hypothesis Hsteady : steady_source.

(** What a reader still gets: the character that was pushed back and the rest. *)
Definition holding w (p : Z) f (L : list Z) : Prop :=
  ∃ rest, reading w p f rest ∧ L = (if have_ungot f then [ungot_char f] else []) ++ rest.
(** What a call leaves as it was, but for the pushed-back character. *)
Record keeps (p : Z) f w f' w' : Prop := {
  ke_files : files w' = <[p := f']> (files w);
  ke_blocks a : a ≠ buf f → blocks w' !! a = blocks w !! a;
  ke_cells : cells w' = cells w;
  ke_supply : supply w' = supply w;
  ke_buf : buf f' = buf f;
  ke_error : error f' = error f
}.
Lemma keeps_refl p f w : files w !! p = Some f → keeps p f w f w.
Proof. intros E. split; try done. by rewrite insert_id. Qed.
Lemma keeps_trans p f1 w1 f2 w2 f3 w3 : keeps p f1 w1 f2 w2 → keeps p f2 w2 f3 w3 → keeps p f1 w1 f3 w3.
Proof.
  intros [A1 A2 A3 A4 A5 A6] [B1 B2 B3 B4 B5 B6]. split; try congruence; [by rewrite B1, A1, insert_insert_eq|]. intros a Ha. rewrite B2, A2 by congruence. done.
Qed.
Lemma advances_keeps p f w f' w' : advances p f w f' w' → keeps p f w f' w'.
Proof. intros []. split; auto. Qed.
(** The stream alone changes, in what does not concern its buffer. *)
Lemma reading_set w p f rest f' : reading w p f rest → attrs f' = attrs f → fd f' = fd f → buf f' = buf f → bufsize f' = bufsize f → bufpos f' = bufpos f → buflen f' = buflen f →
  reading (with_files (<[p := f']> (files w)) w) p f' rest.
Proof.
  intros [Hp Ef Hm Hc Hd Hb Hr] E1 E2 E3 E4 E5 E6. unfold unread in Hr. split; unfold unread; cbn; rewrite ?E1, ?E2, ?E3, ?E4, ?E5, ?E6; try done. by rewrite lookup_insert_eq.
Qed.

(** All that was asked for, or all there is. *)
Lemma read_done_steady p f w rest out total r w' : read_done p f w rest out 0 total r w' → 0 <= total →
  ∃ f', reading w' p f' (drop (Z.to_nat total) rest) ∧ advances p f w f' w' ∧ r = (store out 0 (take (Z.to_nat total) rest), Z.min total (Z.of_nat (length rest))).
Proof.
  intros (data & f' & rest' & -> & Hw & Ha & -> & Hle & Hend) Ht. exists f'. rewrite Z.add_0_l in *. assert (Z.of_nat (length data) = total ∨ rest' = []) as Hor by (destruct Hend as [?|[[_ ?]|[_ ?]]]; tauto).
  assert (take (Z.to_nat total) (data ++ rest') = data ∧ drop (Z.to_nat total) (data ++ rest') = rest' ∧ Z.min total (Z.of_nat (length (data ++ rest'))) = Z.of_nat (length data)) as (-> & -> & ->); [|done].
  destruct Hor as [E| ->].
  - replace (Z.to_nat total) with (length data) by lia. rewrite take_app_length, drop_app_length, length_app. split_and!; [done|done|lia].
  - rewrite app_nil_r. rewrite take_ge, drop_ge by lia. split_and!; [done|done|lia].
Qed.

Lemma fgetc_spec w p f L : holding w p f L →
  ensures (fgetc os p) w (λ c w', c = default (-1) (head L) ∧ ∃ f', holding w' p f' (tail L) ∧ keeps p f w f' w' ∧ have_ungot f' = false).
Proof.
  intros (rest & Hw & ->). unfold fgetc. rewrite (proj2 (Z.eqb_neq p 0)) by apply Hw. apply (ensures_step _ _ _ _ _ _ (run_get_file p f w (rd_file _ _ _ _ Hw))). destruct (have_ungot f) eqn:Eu.
  - apply (ensures_step _ _ _ _ _ _ (run_set_file p _ _)). apply ensures_ret. split; [done|]. exists (no_ungot f). split; [|by split]. exists rest. split; [|done]. by apply (reading_set w p f).
  - eapply ensures_bind; [apply (stream_fread_spec w p f rest [0] 1 1 Hw); cbn; lia|]. cbn beta. intros r w' (r' & Hd & ->). destruct (read_done_steady _ _ _ _ _ _ _ _ Hd ltac:(lia)) as (f' & Hw' & Ha & ->).
    assert (∃ f'0, holding w' p f'0 (tail rest) ∧ keeps p f w f'0 w' ∧ have_ungot f'0 = false) as Hpost.
    { exists f'. split; [|split; [by apply advances_keeps|by rewrite (ad_ungot _ _ _ _ _ Ha)]]. exists (tail rest). rewrite (ad_ungot _ _ _ _ _ Ha), Eu. split; [|done]. by destruct rest. }
    destruct rest as [|c rest]; [by apply ensures_ret|]. cbn [fst snd]. rewrite Z.div_1_r. replace (Z.min (1 * 1) (Z.of_nat (length (c :: rest)))) with 1 by (cbn [length]; lia). cbn [negb Z.eqb Pos.eqb].
    exists c, w'. split; [done|]. split; [done|exact Hpost].
Qed.
Lemma ungetc_spec w p f L c : holding w p f L → c ≠ -1 → have_ungot f = false →
  ensures (ungetc c p) w (λ r w', r = u8 c ∧ ∃ f', holding w' p f' (u8 c :: L) ∧ keeps p f w f' w' ∧ have_ungot f' = true).
Proof.
  intros (rest & Hw & ->) Hc Eu. unfold ungetc. rewrite (proj2 (Z.eqb_neq p 0)) by apply Hw. apply (ensures_step _ _ _ _ _ _ (run_get_file p f w (rd_file _ _ _ _ Hw))).
  rewrite (proj2 (Z.eqb_neq c (-1))), Eu by done. cbn [orb]. apply (ensures_step _ _ _ _ _ _ (run_set_file p _ _)). apply ensures_ret. split; [by change 255 with (Z.ones 8); rewrite Z.land_ones|].
  eexists. split; [|split; [by split|reflexivity]]. exists rest. split; [by apply (reading_set w p f)|]. done.
Qed.

(** A line: at most [n] characters, up to and with a newline. *)
Fixpoint line (n : nat) (L : list Z) : list Z * list Z :=
  match n, L with
  | O, _ | _, [] => ([], L)
  | S n, c :: L => if c =? 10 then ([c], L) else let '(t, L') := line n L in (c :: t, L')
  end.
Lemma line_length n L : (length (line n L).1 <= n)%nat.
Proof. revert L. induction n as [|n IH]; intros [|c L]; cbn; try lia. destruct (c =? 10); [cbn; lia|]. specialize (IH L). destruct (line n L) as [t L']. cbn in *. lia. Qed.

Lemma fgets_loop_spec n w p f L s i : holding w p f L → Forall is_u8 L → 0 <= i → i + Z.of_nat n <= Z.of_nat (length s) →
  ensures (fgets_loop os n s i p) w (λ r w', r = (if (i =? 0) && bool_decide (L = []) && negb (n =? 0)%nat then None else Some (i + Z.of_nat (length (line n L).1)), store s i (line n L).1) ∧
    ∃ f', holding w' p f' (line n L).2 ∧ keeps p f w f' w' ∧ (have_ungot f' = true → n = O ∧ have_ungot f = true)).
Proof.
  revert w f L s i. induction n as [|n IH]; intros w f L s i Hw HL Hi Hs; cbn [fgets_loop].
  - apply ensures_ret. split; [by destruct L; cbn; rewrite andb_false_r, store_nil, Z.add_0_r|]. exists f. split; [by destruct L|]. split; [|done]. apply keeps_refl. destruct Hw as (? & Hw & _). apply Hw.
  - eapply ensures_bind; [by apply fgetc_spec|]. cbn beta. intros c w1 (-> & f1 & Hw1 & Hk1 & Eu1). destruct HL as [|c L Hc HL].
    + change (default (-1) (head []) =? -1) with true. cbn iota. apply ensures_ret. cbn [line fst snd length]. rewrite store_nil, Z.add_0_r, andb_true_r. split; [by destruct (i =? 0)|].
      exists f1. split; [exact Hw1|]. split; [exact Hk1|]. congruence.
    + change (default (-1) (head (c :: L))) with c. cbn [tail] in *. unfold is_u8 in Hc. rewrite (proj2 (Z.eqb_neq c (-1))) by lia. rewrite (u8_small c) by done. unfold idx.
      assert (liftO (s.[i <- c]) w1 = Done (store s i [c], w1)) as El by (by rewrite upd_store by lia).
      apply (ensures_step _ _ _ _ _ _ El). rewrite (bool_decide_eq_false_2 (c :: L = [])) by done. rewrite andb_false_r. cbn [andb line]. destruct (Z.eqb_spec c 10).
      * apply ensures_ret. cbn [fst snd length]. split; [done|]. exists f1. split; [exact Hw1|]. split; [exact Hk1|]. congruence.
      * eapply ensures_mono; [apply (IH w1 f1 L (store s i [c]) (i + 1) Hw1 HL); [lia|rewrite store_length by (cbn; lia); lia]|]. cbn beta. intros r w2 (-> & f2 & Hw2 & Hk2 & Eu2).
        rewrite (proj2 (Z.eqb_neq (i + 1) 0)) by lia. cbn [andb]. destruct (line n L) as [t L'] eqn:El'. cbn [fst snd length] in *. split.
        -- f_equal; [f_equal; lia|]. pose proof (store_app s i [c] t Hi ltac:(cbn; lia)) as B. exact B.
        -- exists f2. split; [done|]. split; [by eapply keeps_trans|]. intros E. destruct (Eu2 E). congruence.
Qed.
Lemma fgets_spec w p f L s size : holding w p f L → Forall is_u8 L → 1 <= size <= Z.of_nat (length s) →
  ensures (fgets os (Some s) size p) w (λ r w', r = (if bool_decide (L = []) && (2 <=? size) then (false, Some s) else (true, Some (store s 0 ((line (Z.to_nat (size - 1)) L).1 ++ [0])))) ∧
    ∃ f', holding w' p f' (line (Z.to_nat (size - 1)) L).2 ∧ keeps p f w f' w' ∧ (have_ungot f' = true → size = 1 ∧ have_ungot f = true)).
Proof.
  intros Hw HL Hs. assert (p ≠ 0) as Hp by (destruct Hw as (? & Hw & _); apply Hw). unfold fgets. rewrite (proj2 (Z.eqb_neq p 0)), (proj2 (Z.leb_gt size 0)) by (done || lia). cbn [orb].
  set (n := Z.to_nat (size - 1)). eapply ensures_bind; [apply (fgets_loop_spec n w p f L s 0 Hw HL); lia|]. cbn beta. intros r w' (-> & f' & Hw' & Hk & Hu).
  assert (∃ f'0, holding w' p f'0 (line n L).2 ∧ keeps p f w f'0 w' ∧ (have_ungot f'0 = true → size = 1 ∧ have_ungot f = true)) as Hpost.
  { exists f'. split; [done|]. split; [done|]. intros E. destruct (Hu E) as [E0 ?]. split; [lia|done]. }
  assert (((0 =? 0) && bool_decide (L = []) && negb (n =? 0)%nat) = bool_decide (L = []) && (2 <=? size)) as ->.
  { change (0 =? 0) with true. cbn [andb]. f_equal. destruct (Nat.eqb_spec n 0), (Z.leb_spec 2 size); try done; lia. }
  destruct (bool_decide (L = []) && (2 <=? size)) eqn:E.
  - apply ensures_ret. split; [|exact Hpost]. apply andb_true_iff in E as [E _]. apply bool_decide_eq_true_1 in E as ->. destruct n; cbn; by rewrite store_nil.
  - pose proof (line_length n L) as Hl. set (t := (line n L).1) in *. rewrite Z.add_0_l.
    assert (liftO ((store s 0 t).[Z.of_nat (length t) <- 0]) w' = Done (store s 0 (t ++ [0]), w')) as El.
    { rewrite upd_store by (rewrite store_length by lia; lia). pose proof (store_app s 0 t [0] ltac:(lia) ltac:(lia)) as B. rewrite Z.add_0_l in B. by rewrite B. }
    apply (ensures_step _ _ _ _ _ _ El). apply ensures_ret. split; [done|exact Hpost].
Qed.

(** *** Sequences of calls *)

Inductive read_call := Fread (out : list Z) (size nmemb : Z) | Fgetc | Ungetc (c : Z) | Fgets (s : list Z) (size : Z).
(** What they return, with the array they fill. *)
Inductive read_value := Block (out : list Z) (n : Z) | Char (c : Z) | Line (ok : bool) (s : option (list Z)).
Definition do_read (p : Z) (c : read_call) : M (io H) read_value :=
  match c with
  | Fread out size nmemb => r ← fread os out size nmemb p; mret (Block r.1 r.2)
  | Fgetc => r ← fgetc os p; mret (Char r)
  | Ungetc c => r ← ungetc c p; mret (Char r)
  | Fgets s size => r ← fgets os (Some s) size p; mret (Line r.1 r.2)
  end.
Fixpoint do_reads (p : Z) (cs : list read_call) : M (io H) (list read_value) :=
  match cs with [] => mret [] | c :: cs => r ← do_read p c; rs ← do_reads p cs; mret (r :: rs) end.

(** The same calls on a list of bytes. *)
Definition read_spec (c : read_call) (L : list Z) : read_value * list Z :=
  match c with
  | Fread out size nmemb => (Block (store out 0 (take (Z.to_nat (size * nmemb)) L)) (Z.min (size * nmemb) (Z.of_nat (length L)) / size), drop (Z.to_nat (size * nmemb)) L)
  | Fgetc => (Char (default (-1) (head L)), tail L)
  | Ungetc c => (Char (u8 c), u8 c :: L)
  | Fgets s size =>
      let '(t, L') := line (Z.to_nat (size - 1)) L in
      (if bool_decide (L = []) && (2 <=? size) then Line false (Some s) else Line true (Some (store s 0 (t ++ [0]))), L')
  end.
Fixpoint reads_spec (cs : list read_call) (L : list Z) : list read_value :=
  match cs with [] => [] | c :: cs => let '(v, L') := read_spec c L in v :: reads_spec cs L' end.
(** The calls fit their arrays, at most one character is pushed back at a time, and [fread],
    which does not look at it, is called only when there is none. *)
Fixpoint reads_ok (pushed : bool) (cs : list read_call) : Prop :=
  match cs with
  | [] => True
  | Fread out size nmemb :: cs => pushed = false ∧ 0 < size ∧ 0 <= nmemb ∧ size * nmemb <= Z.of_nat (length out) < 2 ^ 63 ∧ reads_ok false cs
  | Fgetc :: cs => reads_ok false cs
  | Ungetc c :: cs => pushed = false ∧ c ≠ -1 ∧ reads_ok true cs
  | Fgets s size :: cs => 1 <= size <= Z.of_nat (length s) ∧ reads_ok (pushed && (size =? 1)) cs
  end.

Lemma line_rest n L : Forall is_u8 L → Forall is_u8 (line n L).2.
Proof. revert L. induction n as [|n IH]; intros L; [by destruct L|]. destruct 1 as [|c L Hc HL]; cbn; [done|]. destruct (c =? 10); [done|]. specialize (IH L HL). by destruct (line n L). Qed.

Lemma do_reads_spec cs w p f L pushed : holding w p f L → Forall is_u8 L → (have_ungot f = true → pushed = true) → reads_ok pushed cs →
  ensures (do_reads p cs) w (λ rs w', rs = reads_spec cs L ∧ ∃ f' L', holding w' p f' L' ∧ keeps p f w f' w').
Proof.
  revert w f L pushed. induction cs as [|c cs IH]; intros w f L pushed Hw HL Hu Hok; cbn [do_reads reads_spec].
  { apply ensures_ret. split; [done|]. exists f, L. split; [done|]. apply keeps_refl. destruct Hw as (? & Hw & _). apply Hw. }
  assert (∀ pushed', reads_ok pushed' cs → Forall is_u8 (read_spec c L).2 →
    ensures (do_read p c) w (λ v w1, v = (read_spec c L).1 ∧ ∃ f1, holding w1 p f1 (read_spec c L).2 ∧ keeps p f w f1 w1 ∧ (have_ungot f1 = true → pushed' = true)) →
    ensures (r ← do_read p c; rs ← do_reads p cs; mret (r :: rs)) w (λ rs w', rs = (let '(v, L') := read_spec c L in v :: reads_spec cs L') ∧ ∃ f' L', holding w' p f' L' ∧ keeps p f w f' w')) as Hstep.
  { intros pushed' Hok' HL' Hc. destruct (read_spec c L) as [v L1]. cbn [fst snd] in *. eapply ensures_bind; [exact Hc|]. cbn beta. intros v' w1 (-> & f1 & Hw1 & Hk1 & Hu1).
    eapply ensures_bind; [by apply (IH w1 f1 L1 pushed')|]. cbn beta. intros rs w2 (-> & f2 & L2 & Hw2 & Hk2). apply ensures_ret. split; [done|]. exists f2, L2. split; [done|]. by eapply keeps_trans. }
  destruct c as [out size nmemb| |c|s size]; cbn [reads_ok] in Hok.
  - destruct Hok as (-> & Hs & Hn & Hl & Hok). apply (Hstep false Hok); [by apply Forall_drop|]. cbn [do_read read_spec fst snd]. destruct Hw as (rest & Hw & ->).
    assert (have_ungot f = false) as Eu by (destruct (have_ungot f); [by specialize (Hu eq_refl)|done]). rewrite Eu. cbn [app].
    eapply ensures_bind; [apply (stream_fread_spec w p f rest out size nmemb Hw); lia|]. cbn beta. intros r w1 (r' & Hd & ->). destruct (read_done_steady _ _ _ _ _ _ _ _ Hd ltac:(nia)) as (f1 & Hw1 & Ha & ->).
    apply ensures_ret. split; [done|]. exists f1. pose proof (ad_ungot _ _ _ _ _ Ha) as Eu1. rewrite Eu in Eu1. split; [exists (drop (Z.to_nat (size * nmemb)) rest); by rewrite Eu1|]. split; [by apply advances_keeps|congruence].
  - apply (Hstep false Hok); [by destruct HL|]. cbn [do_read read_spec fst snd]. eapply ensures_bind; [by apply fgetc_spec|]. cbn beta. intros c w1 (-> & f1 & Hw1 & Hk1 & Eu1). apply ensures_ret.
    split; [done|]. exists f1. split; [done|]. split; [done|congruence].
  - destruct Hok as (-> & Hc & Hok). apply (Hstep true Hok); [constructor; [apply u8_range|done]|]. cbn [do_read read_spec fst snd].
    eapply ensures_bind; [apply (ungetc_spec w p f L c Hw Hc); destruct (have_ungot f); [by specialize (Hu eq_refl)|done]|]. cbn beta. intros r w1 (-> & f1 & Hw1 & Hk1 & Eu1). apply ensures_ret.
    split; [done|]. by exists f1.
  - destruct Hok as [Hs Hok]. pose proof (fgets_spec w p f L s size Hw HL Hs) as Hg. apply (Hstep _ Hok); cbn [do_read read_spec].
    + pose proof (line_rest (Z.to_nat (size - 1)) L HL) as Hr. by destruct (line (Z.to_nat (size - 1)) L).
    + destruct (line (Z.to_nat (size - 1)) L) as [t L1]. cbn [fst snd] in *. eapply ensures_bind; [exact Hg|]. cbn beta. intros r w1 (-> & f1 & Hw1 & Hk1 & Hu1). apply ensures_ret.
      split; [by destruct (bool_decide (L = []) && (2 <=? size))|]. exists f1. split; [done|]. split; [done|]. intros E. destruct (Hu1 E) as [-> E0]. by rewrite (Hu E0).
Qed.

(** A whole program: open with a buffer of [size] bytes, and read. *)
Definition read_file (path : list Z) (size : Z) (cs : list read_call) : M (io H) (list read_value) :=
  p ← fopen os path mode_r; setvbuf fresh p 0 0 size;; do_reads p cs.

Lemma run_open_reading path size w p a l h1 : sys_open os path O_RDONLY 0 (host w) = (d, h1) → 0 <= d < 2 ^ 31 → supply w = p :: a :: l → p ≠ 0 → a ≠ 0 →
  0 <= size < 2 ^ 63 → Z.of_nat (length (fresh size)) = size →
  ∃ w0 w1 f, fopen os path mode_r w = Done (p, w0) ∧ setvbuf fresh p 0 0 size w0 = Done (0, w1) ∧ holding w1 p f (left h1) ∧ have_ungot f = false ∧
    (buf f = 0 ∧ supply w1 = a :: l ∨ buf f = a ∧ supply w1 = l).
Proof.
  intros Eo Hd Es Hp Ha Hsz Hfr. destruct (run_fopen d false path w p (a :: l) h1 Eo Hd Es Hp) as (f0 & E0 & Hm & Hc & Hnew).
  set (w0 := with_files (<[p := f0]> (files w)) (with_supply (a :: l) (with_host h1 w))) in *.
  destruct (run_setvbuf w0 p a l size f0 Hp ltac:(by cbn; rewrite lookup_insert_eq) ltac:(by rewrite Hnew) eq_refl Ha ltac:(lia)) as (f & w1 & E1 & F1 & F2 & F3 & F13 & F4 & F5 & F6 & F11 & F12 & F7 & F8 & F9 & F10).
  cbn in F1, F2, F3. rewrite insert_insert_eq in F1. assert (have_ungot f = false) as Eu by (by rewrite F12, Hnew). exists w0, w1, f. split; [done|]. split; [done|]. split; [|split; [done|]].
  { exists (left h1). rewrite Eu. split; [|done]. split; rewrite ?F4, ?F5; try done; [by rewrite F1, lookup_insert_eq|by rewrite Hnew| |].
    - intros Hb. destruct F10 as [(_ & ? & _)|(? & E & _ & Ebs)]; [done|]. rewrite E, F7, F8, F9. split_and!; try done; try lia. exists (fresh size). by rewrite Ebs, lookup_insert_eq.
    - unfold unread. rewrite F8, F9, F3. destruct (buf f =? 0); [done|]. by destruct (blocks w1 !! buf f). }
  destruct F10 as [(-> & ? & _)|(? & ? & _)]; [by left|]. right. by rewrite (proj2 (Z.eqb_neq size 0)) in F13 by lia.
Qed.
Lemma read_file_spec path size cs w p a l h1 : sys_open os path O_RDONLY 0 (host w) = (d, h1) → 0 <= d < 2 ^ 31 → supply w = p :: a :: l → p ≠ 0 → a ≠ 0 →
  0 <= size < 2 ^ 63 → Z.of_nat (length (fresh size)) = size → Forall is_u8 (left h1) → reads_ok false cs →
  ∃ w', read_file path size cs w = Done (reads_spec cs (left h1), w').
Proof.
  intros Eo Hd Es Hp Ha Hsz Hfr HL Hok. destruct (run_open_reading path size w p a l h1) as (w0 & w1 & f & E0 & E1 & Hw & Eu & _); try done.
  destruct (do_reads_spec cs w1 p f (left h1) false Hw HL ltac:(congruence) Hok) as (rs & w2 & E2 & -> & _). exists w2. unfold read_file. by rewrite (bind_done _ _ _ _ _ E0), (bind_done _ _ _ _ _ E1).
Qed.
End source.

(** ** Memory streams *)

Section memory.
Hypothesis Hfresh : ∀ n, 0 <= n → Z.of_nat (length (fresh n)) = n.

Lemma mem_realloc_spec w a b size : a ≠ 0 → blocks w !! a = Some b → 0 < size → Z.of_nat (length b) <= size →
  ensures (realloc fresh a size) w (λ a' w', files w' = files w ∧ cells w' = cells w ∧ host w' = host w ∧ (∀ x, x ≠ a → x ≠ a' → blocks w' !! x = blocks w !! x) ∧
    (∃ used, supply w = used ++ supply w' ∧ (a' ≠ 0 → a' ∈ used) ∧ (a' = 0 → 0 ∈ used ∨ supply w' = [])) ∧
    (a' = 0 ∧ blocks w' = blocks w ∨ a' ≠ 0 ∧ ∃ b', blocks w' !! a' = Some b' ∧ Z.of_nat (length b') = size ∧ take (length b) b' = b)).
Proof.
  intros Ha Eb Hpos Hsz. unfold realloc. rewrite (proj2 (Z.eqb_neq a 0)), (proj2 (Z.eqb_neq size 0)) by lia. apply (ensures_step _ _ _ _ _ _ (run_get_block _ _ _ Eb)).
  assert (∃ a' w1, next_address w = Done (a', w1) ∧ files w1 = files w ∧ cells w1 = cells w ∧ blocks w1 = blocks w ∧ host w1 = host w ∧
    ∃ used, supply w = used ++ supply w1 ∧ (a' ≠ 0 → a' ∈ used) ∧ (a' = 0 → 0 ∈ used ∨ supply w1 = [])) as (a' & w1 & En & F1 & F2 & F3 & F5 & F4).
  { unfold next_address. destruct (supply w) as [|x l] eqn:E; [exists 0, (with_errno ENOMEM w); split_and!; try done; exists []; cbn; split_and!; [done|done|by right]|].
    eexists _, _. split; [reflexivity|]. destruct (x =? 0); (split_and!; [done..|]); exists [x]; (split_and!; [done|set_solver|intros ->; left; set_solver]). }
  apply (ensures_step _ _ _ _ _ _ En). destruct (Z.eqb_spec a' 0) as [-> |Hne]; [apply ensures_ret; split_and!; try done; [by rewrite F3|by left]|].
  apply (ensures_step _ _ _ tt (with_blocks (delete a (blocks w1)) w1)); [done|].
  apply (ensures_step _ _ _ tt (with_blocks (<[a' := take (Z.to_nat size) b ++ drop (length b) (fresh size)]> (delete a (blocks w1))) w1)); [done|]. apply ensures_ret. cbn.
  split_and!; try done; [intros x Hx Hx'; by rewrite lookup_insert_ne, lookup_delete_ne, F3 by done|]. right. split; [done|]. eexists. rewrite lookup_insert_eq. split; [done|]. rewrite take_ge by lia. specialize (Hfresh size ltac:(lia)).
  split; [rewrite length_app, length_drop; lia|]. by rewrite take_app_length.
Qed.

Lemma grow_spec n ns needed : 0 < ns → needed <= ns * 2 ^ Z.of_nat n → needed <= 2 ^ 62 → ∃ size, grow n ns needed = Some size ∧ needed <= size ∧ (size = ns ∨ size < 2 * needed).
Proof.
  revert ns. induction n as [|n IH]; intros ns Hns Hpow Hmax; cbn [grow]; destruct (Z.leb_spec needed ns) as [Hle|Hlt]; try (exists ns; split_and!; [done|lia|by left]).
  - rewrite Z.pow_0_r in Hpow. lia.
  - rewrite (u64_small (ns * 2)) by (unfold is_u64; lia). destruct (IH (ns * 2)) as (size & -> & Hge & Hor); [lia| |done|exists size; split_and!; [done|done|right; lia]].
    rewrite Nat2Z.inj_succ, Z.pow_succ_r in Hpow by lia. lia.
Qed.

(** At most [MEM_LIMIT] bytes are written to a memory stream. *)
Definition MEM_LIMIT : Z := 2 ^ 60.
Record mem_writing w (p : Z) f (log : list Z) : Prop := {
  mw_null : p ≠ 0;
  mw_file : files w !! p = Some f;
  mw_mem : is_mem (attrs f) = true;
  mw_wide : is_wmem (attrs f) = false;
  mw_cookie : is_cookie (attrs f) = false;
  mw_cells : mem_bufp (attrs f) ≠ 0 ∧ mem_sizep (attrs f) ≠ 0 ∧ mem_bufp (attrs f) ≠ mem_sizep (attrs f);
  mw_buf : buf f ≠ 0;
  mw_size : 0 < bufsize f <= 2 ^ 61;
  mw_pos : bufpos f = buflen f ∧ 0 <= buflen f <= bufsize f ∧ buflen f <= Z.of_nat (length log);
  mw_block : ∃ b, blocks w !! buf f = Some b ∧ Z.of_nat (length b) = bufsize f ∧ (error f = false → take (Z.to_nat (buflen f)) b = log)
}.
Definition mem_evolves (p : Z) f w f' w' : Prop :=
  files w' = <[p := f']> (files w) ∧ attrs f' = attrs f ∧ (error f = true → error f' = true) ∧
  ∃ used, supply w = used ++ supply w' ∧ (error f' = true → error f = true ∨ 0 ∈ used ∨ supply w' = []).
Lemma mem_evolves_refl w p f log : mem_writing w p f log → mem_evolves p f w f w.
Proof. intros Hw. split; [by rewrite insert_id by apply Hw|]. split; [done|]. split; [done|]. exists []. split; [done|by left]. Qed.

(** The stream gets a larger block, or an error. *)
Lemma resize_spec w p f log size : mem_writing w p f log → bufsize f <= size <= 2 ^ 61 →
  ensures (resize fresh p size) w (λ ok w', ∃ f', mem_writing w' p f' log ∧ mem_evolves p f w f' w' ∧ cells w' = cells w ∧
    (ok = true ∧ buflen f' = buflen f ∧ bufsize f' = size ∧ error f' = error f ∨ ok = false ∧ error f' = true)).
Proof.
  intros [Hp Ef Hm Hwd Hck Hcl Hb Hs Hpos (b & Eb & Hbl & Hlog)] Hsz. unfold resize. apply (ensures_step _ _ _ _ _ _ (run_get_file p f w Ef)).
  eapply ensures_bind; [apply (mem_realloc_spec w (buf f) b size Hb Eb); lia|]. cbn beta. intros a' w1 (F1 & F2 & _ & _ & (used & Hus & _ & Hz) & [[-> F3]|[Ha' (b' & Eb' & Hl' & Ht)]]).
  - cbn [Z.eqb]. apply (ensures_step _ _ _ _ _ _ (run_set_file p _ _)). apply ensures_ret. exists (with_error true f). split_and!; try done; [| |by right].
    2: { split; [cbn; by rewrite F1|]. split; [done|]. split; [done|]. exists used. split; [done|]. intros _. right. by apply Hz. }
    split; cbn; try done; [by rewrite lookup_insert_eq|]. exists b. by rewrite F3.
  - rewrite (proj2 (Z.eqb_neq a' 0)) by done. apply (ensures_step _ _ _ _ _ _ (run_set_file p _ _)). apply ensures_ret. exists (with_bufsize size (with_buf a' f)). split_and!; try done; [| |by left].
    2: { split; [cbn; by rewrite F1|]. split; [done|]. split; [done|]. exists used. split; [done|by left]. }
    split; cbn; try done; [by rewrite lookup_insert_eq|lia|lia|]. exists b'. split; [done|]. split; [done|]. intros He. rewrite <- (Hlog He), <- Ht at 1. rewrite take_take. f_equal. lia.
Qed.
Lemma mem_evolves_trans p f1 w1 f2 w2 f3 w3 : mem_evolves p f1 w1 f2 w2 → mem_evolves p f2 w2 f3 w3 → mem_evolves p f1 w1 f3 w3.
Proof.
  intros (A0 & A1 & A2 & u & A3 & A4) (B0 & B1 & B2 & v & B3 & B4). split; [by rewrite B0, A0, insert_insert_eq|]. split; [congruence|]. split; [auto|].
  exists (u ++ v). split; [by rewrite A3, B3, app_assoc|]. intros He. destruct (B4 He) as [He2|[?|?]]; [|right; left; set_solver|by do 2 right].
  destruct (A4 He2) as [?|[?|E]]; [by left|right; left; set_solver|]. do 2 right. rewrite E in B3. by destruct v, (supply w3).
Qed.
(** Room for [need] bytes, or an error. *)
Definition roomy p f w log need (ok : bool) w' : Prop :=
  ∃ f', mem_writing w' p f' log ∧ mem_evolves p f w f' w' ∧ cells w' = cells w ∧
    (ok = true ∧ buflen f' = buflen f ∧ error f' = error f ∧ need <= bufsize f' ∨ ok = false ∧ error f' = true ∧ bufsize f < need).
Lemma make_room w p f log need m : mem_writing w p f log → (bufsize f < need → ensures m w (roomy p f w log need)) →
  ensures (if bufsize f <? need then m else mret true) w (roomy p f w log need).
Proof.
  intros Hw Hm. destruct (Z.ltb_spec (bufsize f) need); [by apply Hm|]. apply ensures_ret. exists f. split; [done|]. split; [by eapply mem_evolves_refl|]. split; [done|]. by left.
Qed.
Lemma resize_roomy w p f log size need : mem_writing w p f log → bufsize f < need <= size → bufsize f <= size <= 2 ^ 61 → ensures (resize fresh p size) w (roomy p f w log need).
Proof.
  intros Hw Hn Hs. eapply ensures_mono; [by apply (resize_spec w p f log size Hw)|]. cbn beta. intros ok w' (f' & Hw' & Hev & Hc & Hok). exists f'. split_and!; try done.
  destruct Hok as [(? & ? & E & ?)|[? ?]]; [left; split_and!; try done; rewrite E; lia|right; split_and!; try done; lia].
Qed.
Lemma mem_failed w p f log t : mem_writing w p f log → error f = true → mem_writing w p f (log ++ t).
Proof.
  intros [A1 A2 A3 A4 A5 A6 A7 A8 (A9 & A10 & A11) (b & B1 & B2 & _)] He. split; try done; [split_and!; try done; rewrite ?length_app; lia|]. exists b. split_and!; try done. congruence.
Qed.

Lemma mem_store w p f log t b : mem_writing w p f log → blocks w !! buf f = Some b → buflen f + Z.of_nat (length t) <= bufsize f →
  ∃ b', blit b (bufpos f) t = Some b' ∧
    let f' := with_bufpos (bufpos f + Z.of_nat (length t)) (with_buflen (bufpos f + Z.of_nat (length t)) f) in
    mem_writing (with_files (<[p := f']> (files w)) (with_blocks (<[buf f := b']> (blocks w)) w)) p f' (log ++ t).
Proof.
  intros [Hp Ef Hm Hwd Hck Hcl Hb Hs (Hpos & Hl & Hll) (b0 & Eb & Hbl & Hlog)] Eb' Hfit. rewrite Eb in Eb'. injection Eb' as ->. rewrite Hpos. rewrite blit_ok by lia. eexists. split; [done|]. cbn zeta.
  split; cbn; try done; [by rewrite lookup_insert_eq|rewrite length_app; lia|]. eexists. rewrite lookup_insert_eq. split; [done|]. split; [rewrite !length_app, length_take, length_drop; lia|].
  intros He. rewrite <- (Hlog He). rewrite app_assoc, take_app_le by (rewrite length_app, length_take; lia). apply take_ge. rewrite length_app, length_take. lia.
Qed.

Lemma fwrite_mem_spec w p f log dat total : mem_writing w p f log → 0 < total → total <= Z.of_nat (length dat) → Z.of_nat (length log) + total <= MEM_LIMIT →
  ensures (fwrite_mem fresh p total dat 0) w (λ r w', ∃ f', mem_writing w' p f' (log ++ take (Z.to_nat total) dat) ∧ mem_evolves p f w f' w' ∧ (r = (true, total) ∨ r = (false, 0) ∧ error f' = true)).
Proof.
  intros Hw Ht Htd Hlim. unfold MEM_LIMIT in Hlim. unfold fwrite_mem. apply (ensures_step _ _ _ _ _ _ (run_get_file p f w (mw_file _ _ _ _ Hw))). cbn zeta.
  destruct (mw_pos _ _ _ _ Hw) as (Hpos & Hl & Hll). pose proof (mw_size _ _ _ _ Hw) as Hs. rewrite Z.sub_0_r. rewrite (u64_small (bufpos f + total)) by (unfold is_u64; lia).
  eapply ensures_bind.
  { apply (make_room w p f log (bufpos f + total) _ Hw). intros E. rewrite (proj2 (Z.eqb_neq (bufsize f) 0)) by lia. rewrite (u64_small (bufsize f * 2)) by (unfold is_u64; lia).
    destruct (grow_spec 64 (bufsize f * 2) (bufpos f + total)) as (size & -> & Hge & Hor); [lia|change (2 ^ Z.of_nat 64) with 18446744073709551616; lia|lia|]. apply (resize_roomy w p f log); [done|lia|lia]. }
  intros ok w1 (f1 & Hw1 & Hev1 & _ & [(-> & Hl1 & He1 & Hroom)|(-> & He1 & _)]); cbn [negb]; [|apply ensures_ret; exists f1; split; [by apply mem_failed|split; [done|by right]]].
  apply (ensures_step _ _ _ _ _ _ (run_get_file p f1 w1 (mw_file _ _ _ _ Hw1))). rewrite slice_ok by lia. change (Z.to_nat 0) with O. rewrite drop_0. set (t := take (Z.to_nat total) dat).
  assert (Z.of_nat (length t) = total) as Htl by (unfold t; rewrite length_take; lia). assert (liftO (Some t) w1 = Done (t, w1)) as El by done. apply (ensures_step _ _ _ _ _ _ El).
  destruct (mw_block _ _ _ _ Hw1) as (b & Eb & _). destruct (mw_pos _ _ _ _ Hw1) as (Hpos1 & Hl1' & _). destruct (mem_store w1 p f1 log t b Hw1 Eb ltac:(lia)) as (b' & Ebl & Hw2). cbn zeta in Hw2.
  apply (ensures_step _ _ _ _ _ _ (run_write_block _ _ _ _ _ _ Eb Ebl)). rewrite (proj2 (Z.ltb_lt (buflen f1) (bufpos f1 + total))) by lia. apply (ensures_step _ _ _ _ _ _ (run_set_file p _ _)).
  apply ensures_ret. rewrite Htl in Hw2. eexists. split; [exact Hw2|]. split; [|by left]. destruct Hev1 as (E1 & E2). split; [|exact E2]. cbn. by rewrite E1, insert_insert_eq.
Qed.
Lemma mem_fwrite_spec w p f log dat size nmemb : mem_writing w p f log → 0 < size → 0 <= nmemb → size * nmemb <= Z.of_nat (length dat) → Z.of_nat (length dat) < 2 ^ 63 →
  Z.of_nat (length log) + size * nmemb <= MEM_LIMIT →
  ensures (fwrite os fresh rounds dat size nmemb p) w (λ r w', ∃ f', mem_writing w' p f' (log ++ take (Z.to_nat (size * nmemb)) dat) ∧ mem_evolves p f w f' w' ∧ (r = nmemb ∨ error f' = true)).
Proof.
  intros Hw Hs Hn Hl Hd Hlim. unfold fwrite. rewrite (proj2 (Z.eqb_neq p 0)) by apply Hw. rewrite (proj2 (Z.eqb_neq size 0)) by lia. cbn [orb].
  destruct (Z.eqb_spec nmemb 0) as [-> |Hne]; [apply ensures_ret; exists f; rewrite Z.mul_0_r, app_nil_r; split; [done|]; split; [by eapply mem_evolves_refl|by left]|].
  rewrite (u64_small (size * nmemb)) by (unfold is_u64; nia). apply (ensures_step _ _ _ _ _ _ (run_get_file p f w (mw_file _ _ _ _ Hw))). rewrite (mw_cookie _ _ _ _ Hw).
  set (total := size * nmemb) in *. assert (0 < total) as Ht by (unfold total; nia). cbn [fwrite_loop]. rewrite (proj2 (Z.leb_gt total 0)) by lia.
  eapply (ensures_bind _ _ _ (λ r w', ∃ f', mem_writing w' p f' (log ++ take (Z.to_nat total) dat) ∧ mem_evolves p f w f' w' ∧ (r = total ∨ error f' = true))).
  - apply (ensures_step _ _ _ _ _ _ (run_get_file p f w (mw_file _ _ _ _ Hw))). rewrite (mw_mem _ _ _ _ Hw). eapply ensures_bind; [by apply (fwrite_mem_spec w p f log dat total)|]. cbn beta.
    intros r w1 (f1 & Hw1 & Hev & [-> |[-> He]]); cbn [fst snd]; [|apply ensures_ret; exists f1; split_and!; try done; by right].
    destruct (Z.to_nat total); cbn [fwrite_loop]; rewrite Z.leb_refl; apply ensures_ret; exists f1; split_and!; try done; by left.
  - cbn beta. intros r w1 (f1 & Hw1 & Hev & Hor). apply ensures_ret. exists f1. split; [done|]. split; [done|]. destruct Hor as [-> |]; [left; unfold total; rewrite Z.mul_comm; by apply Z.div_mul; lia|by right].
Qed.

(** The caller's pointer and size, after a flush. *)
Definition published w f : Prop :=
  buflen f < bufsize f ∧ cells w !! mem_bufp (attrs f) = Some (buf f) ∧ cells w !! mem_sizep (attrs f) = Some (buflen f) ∧
  ∃ b, blocks w !! buf f = Some b ∧ b !! Z.to_nat (buflen f) = Some 0.

Lemma mem_flush_spec w p f log : mem_writing w p f log → Z.of_nat (length log) <= MEM_LIMIT →
  ensures (flush_buffer os fresh rounds p) w (λ r w', ∃ f', mem_writing w' p f' log ∧ mem_evolves p f w f' w' ∧
    (r = 0 ∧ buflen f' = buflen f ∧ error f' = error f ∧ (if buflen f =? 0 then cells w' = cells w else published w' f') ∨ r = -1 ∧ error f' = true ∧ bufsize f <= buflen f)).
Proof.
  intros Hw Hlim. unfold MEM_LIMIT in Hlim. destruct (mw_pos _ _ _ _ Hw) as (Hpos & Hl & Hll). pose proof (mw_size _ _ _ _ Hw) as Hs. unfold flush_buffer. rewrite (proj2 (Z.eqb_neq p 0)) by apply Hw.
  apply (ensures_step _ _ _ _ _ _ (run_get_file p f w (mw_file _ _ _ _ Hw))). rewrite (proj2 (Z.eqb_neq (buf f) 0)) by apply Hw. cbn [orb]. destruct (Z.eqb_spec (buflen f) 0) as [Hz|Hnz].
  { apply ensures_ret. exists f. split; [done|]. split; [by eapply mem_evolves_refl|]. by left. }
  rewrite (mw_mem _ _ _ _ Hw). unfold flush_mem. apply (ensures_step _ _ _ _ _ _ (run_get_file p f w (mw_file _ _ _ _ Hw))). rewrite (mw_wide _ _ _ _ Hw). cbn zeta. rewrite (u64_small (buflen f + 1)) by (unfold is_u64; lia).
  eapply ensures_bind; [apply (make_room w p f log (buflen f + 1) _ Hw); intros E; apply (resize_roomy w p f log); [done|lia|lia]|].
  intros ok w1 (f1 & Hw1 & Hev1 & Hc1 & [(-> & Hl1 & He1 & Hroom)|(-> & He1 & Hfull)]); cbn [negb]; [|apply ensures_ret; exists f1; split; [done|]; split; [done|right; split_and!; try done; lia]].
  apply (ensures_step _ _ _ _ _ _ (run_get_file p f1 w1 (mw_file _ _ _ _ Hw1))). destruct (Hw1) as [A1 A2 A3 A4 A5 (A6 & A6' & A6'') A7 A8 (A9 & A10 & A11) (b & B1 & B2 & B3)].
  rewrite A4. change (repeat 0 (Z.to_nat 1)) with [0]. pose proof (blit_ok b (buflen f1) [0] ltac:(lia) ltac:(cbn; lia)) as Ebl. fold (store b (buflen f1) [0]) in Ebl.
  apply (ensures_step _ _ _ _ _ _ (run_write_block _ _ _ _ _ _ B1 Ebl)). rewrite (proj2 (Z.eqb_neq (mem_bufp (attrs f1)) 0)), (proj2 (Z.eqb_neq (mem_sizep (attrs f1)) 0)) by done.
  set (w2 := with_blocks (<[buf f1 := store b (buflen f1) [0]]> (blocks w1)) w1). apply (ensures_step _ _ _ tt (with_cells (<[mem_bufp (attrs f1) := buf f1]> (cells w2)) w2)); [done|].
  set (w3 := with_cells (<[mem_bufp (attrs f1) := buf f1]> (cells w2)) w2). apply (ensures_step _ _ _ tt (with_cells (<[mem_sizep (attrs f1) := buflen f1]> (cells w3)) w3)); [done|]. apply ensures_ret.
  assert (length (store b (buflen f1) [0]) = length b) as Hsl by (apply store_length; cbn; lia).
  exists f1. split; [|split; [done|left]].
  - split; try done. exists (store b (buflen f1) [0]). cbn. rewrite lookup_insert_eq, Hsl. split_and!; try done. intros He. rewrite <- (B3 He). unfold store. rewrite take_app_le by (rewrite length_take; lia).
    rewrite take_take. f_equal. lia.
  - split_and!; try done. split; [lia|]. cbn. rewrite lookup_insert_ne, lookup_insert_eq, lookup_insert_eq by done. split_and!; try done. exists (store b (buflen f1) [0]). rewrite lookup_insert_eq. split; [done|].
    unfold store. rewrite lookup_app_r by (rewrite length_take; lia). rewrite length_take. replace (Z.to_nat (buflen f1) - _)%nat with O by lia. done.
Qed.

Lemma mem_fflush_spec w p f log : mem_writing w p f log → Z.of_nat (length log) <= MEM_LIMIT →
  ensures (fflush os fresh rounds p) w (λ _ w', ∃ f', mem_writing w' p f' log ∧ mem_evolves p f w f' w' ∧
    (buflen f' = buflen f ∧ (if buflen f =? 0 then cells w' = cells w else published w' f') ∨ error f' = true)).
Proof.
  intros Hw Hlim. unfold fflush. rewrite (proj2 (Z.eqb_neq p 0)) by apply Hw. eapply ensures_bind; [by apply mem_flush_spec|]. cbn beta.
  intros r w1 (f1 & Hw1 & Hev1 & [(-> & Hl & He & Hpub)|(-> & He & _)]); [|apply ensures_ret; exists f1; split; [done|]; split; [done|by right]].
  change (0 <? 0) with false. cbn iota. apply (ensures_step _ _ _ _ _ _ (run_get_file p f1 w1 (mw_file _ _ _ _ Hw1))). rewrite (mw_mem _ _ _ _ Hw1). apply ensures_ret. exists f1.
  split; [done|]. split; [done|]. by left.
Qed.
#[local] Instance memory_writer : Writer mem_writing mem_evolves MEM_LIMIT.
Proof.
  split.
  - by intros w p f log [].
  - intros w p f log. apply mem_evolves_refl.
  - apply mem_evolves_trans.
  - by intros p f w f' w' (_ & _ & ? & _).
  - apply mem_fwrite_spec.
  - intros w p f log Hw Hl. eapply ensures_mono; [by apply mem_fflush_spec|]. cbn beta. intros _ w' (f' & ? & ? & _). by exists f'.
Qed.

(** Closing leaves the block to the caller. *)
Lemma mem_fclose_spec w p f log : mem_writing w p f log → Z.of_nat (length log) <= MEM_LIMIT →
  ensures (fclose os fresh rounds p) w (λ _ w', files w' = delete p (files w) ∧ (∃ used, supply w = used ++ supply w') ∧
    (error f = false → (if buflen f =? 0 then True else published w f) →
     if buflen f =? 0 then cells w' = cells w
     else ∃ a b, cells w' !! mem_bufp (attrs f) = Some a ∧ blocks w' !! a = Some b ∧ take (S (length log)) b = log ++ [0] ∧ cells w' !! mem_sizep (attrs f) = Some (Z.of_nat (length log)))).
Proof.
  intros Hw Hlim. unfold fclose. rewrite (proj2 (Z.eqb_neq p 0)) by apply Hw. destruct (mw_pos _ _ _ _ Hw) as (_ & Hl & _).
  eapply ensures_bind; [by apply mem_flush_spec|]. cbn beta. intros r w1 (f1 & Hw1 & (Ef & Ea & _ & u & Eu & _) & Hr).
  apply (ensures_step _ _ _ _ _ _ (run_get_file p f1 w1 (mw_file _ _ _ _ Hw1))). rewrite (mw_cookie _ _ _ _ Hw1), (mw_mem _ _ _ _ Hw1). apply (ensures_step _ _ _ 0 w1); [done|].
  destruct (mw_cells _ _ _ _ Hw1) as (Hc & _). apply (ensures_step _ _ _ tt (with_files (<[p := with_buf_owned false f1]> (files w1)) w1)).
  { unfold release_buffer. rewrite (bind_done _ _ _ _ _ (run_get_file p f1 w1 (mw_file _ _ _ _ Hw1))). rewrite (mw_mem _ _ _ _ Hw1), (proj2 (Z.eqb_neq _ 0) Hc). cbn [andb negb].
    rewrite (bind_done _ _ _ _ _ (run_set_file p _ _)). cbn [buf buf_owned with_buf_owned]. by rewrite andb_false_r. }
  set (w2 := with_files (<[p := with_buf_owned false f1]> (files w1)) w1). apply (ensures_step _ _ _ tt (with_files (delete p (files w2)) w2)); [done|]. apply ensures_ret.
  split; [cbn; by rewrite Ef, insert_insert_eq, delete_insert_eq|]. split; [by exists u|]. intros He0 Hpub.
  assert (buflen f1 = buflen f ∧ error f1 = false ∧ if buflen f =? 0 then cells w1 = cells w else published w1 f1) as (El & He1 & Hp1).
  { destruct Hr as [(_ & ? & ? & ?)|(_ & _ & Hfull)]; [split_and!; congruence || done|]. pose proof (mw_size _ _ _ _ Hw). destruct (Z.eqb_spec (buflen f) 0); [lia|]. destruct Hpub as [? _]. lia. }
  destruct (buflen f =? 0); [exact Hp1|]. destruct Hp1 as (Hroom & C1 & C2 & b & Eb & E0). rewrite Ea in C1, C2.
  destruct (mw_block _ _ _ _ Hw1) as (b' & Eb' & Hbl & Hlog). rewrite Eb in Eb'. injection Eb' as <-. specialize (Hlog He1). destruct (mw_pos _ _ _ _ Hw1) as (_ & Hl1 & _).
  assert (Z.of_nat (length log) = buflen f1) as Hll by (rewrite <- Hlog, length_take; lia). exists (buf f1), b. cbn. split_and!; try done; [|by rewrite Hll].
  rewrite (take_S_r _ _ 0) by (rewrite <- E0; f_equal; lia). f_equal. rewrite <- Hlog at 2. f_equal. lia.
Qed.

(** A whole program: the bytes written to a stream that grows. *)
Definition mem_file (bufp sizep : Z) (cs : list write_call) : M (io H) (list Z * bool) :=
  p ← open_memstream fresh bufp sizep;
  rs ← do_writes p cs;
  fflush os fresh rounds p;;
  e ← ferror p;
  fclose os fresh rounds p;;
  mret (rs, e).

Lemma run_open_memstream w bufp sizep p a l : bufp ≠ 0 → sizep ≠ 0 → bufp ≠ sizep → supply w = p :: a :: l → p ≠ 0 → a ≠ 0 →
  ∃ f w', open_memstream fresh bufp sizep w = Done (p, w') ∧ mem_writing w' p f [] ∧ error f = false ∧ buflen f = 0 ∧ mem_bufp (attrs f) = bufp ∧ mem_sizep (attrs f) = sizep ∧
    files w' = <[p := f]> (files w) ∧ supply w' = l ∧ cells w' !! bufp = Some 0 ∧ cells w' !! sizep = Some 0.
Proof.
  intros Hb Hs Hne Es Hp Ha. unfold open_memstream, open_mem. rewrite (proj2 (Z.eqb_neq bufp 0)), (proj2 (Z.eqb_neq sizep 0)) by done. cbn [orb].
  set (at_ := mk_attributes true false bufp sizep false true false false 0 no_functions). set (f0 := new_file (-1) at_). set (w1 := with_files (<[p := f0]> (files w)) (with_supply (a :: l) w)).
  assert (malloc_file f0 w = Done (p, w1)) as E1 by (unfold malloc_file, next_address, mbind, M_bind; rewrite Es; by rewrite (proj2 (Z.eqb_neq p 0))).
  rewrite (bind_done _ _ _ _ _ E1). rewrite (proj2 (Z.eqb_neq p 0)) by done. assert (files w1 !! p = Some f0) as Ef by (cbn; by rewrite lookup_insert_eq).
  rewrite (bind_done _ _ _ _ _ (run_get_file p f0 w1 Ef)). cbn zeta. set (w2 := with_blocks (<[a := fresh 128]> (blocks w1)) (with_supply l w1)).
  assert (malloc fresh 128 w1 = Done (a, w2)) as E2 by (unfold malloc; change (128 =? 0) with false; unfold next_address, mbind, M_bind; cbn [supply w1 with_files with_supply]; by rewrite (proj2 (Z.eqb_neq a 0))).
  rewrite (bind_done _ _ _ _ _ E2). rewrite (proj2 (Z.eqb_neq a 0)) by done. exists (with_buf_owned true (with_bufsize 128 (with_buf a f0))). eexists. split; [reflexivity|]. split.
  - split; cbn; try done; [by rewrite lookup_insert_eq|]. exists (fresh 128). rewrite lookup_insert_eq. split; [done|]. split; [by apply Hfresh|done].
  - cbn. split_and!; try done; [by rewrite insert_insert_eq|by rewrite lookup_insert_ne, lookup_insert_eq by done|by rewrite lookup_insert_eq].
Qed.
Lemma mem_length w p f log : mem_writing w p f log → error f = false → Z.of_nat (length log) = buflen f.
Proof. intros [_ _ _ _ _ _ _ _ (_ & ? & _) (b & _ & ? & Hlog)] He. rewrite <- (Hlog He), length_take. lia. Qed.
Lemma mem_file_spec w bufp sizep cs p a l : bufp ≠ 0 → sizep ≠ 0 → bufp ≠ sizep → supply w = p :: a :: l → p ≠ 0 → a ≠ 0 → Forall write_ok cs →
  let data := concat (map write_bytes cs) in Z.of_nat (length data) <= MEM_LIMIT →
  ensures (mem_file bufp sizep cs) w (λ r w', files w' = delete p (files w) ∧ (∃ used, l = used ++ supply w' ∧ (r.2 = true → 0 ∈ used ∨ supply w' = [])) ∧ (r.2 = false → Forall2 write_result cs r.1 ∧
    (data ≠ [] → ∃ a' b, cells w' !! bufp = Some a' ∧ blocks w' !! a' = Some b ∧ take (S (length data)) b = data ++ [0] ∧ cells w' !! sizep = Some (Z.of_nat (length data))))).
Proof.
  intros Hb Hs Hne Es Hp Ha Hcs data Hlim. unfold mem_file. destruct (run_open_memstream w bufp sizep p a l Hb Hs Hne Es Hp Ha) as (f & w1 & E1 & Hw & He & _ & Eb & Ez & Ef & Esup & _ & _).
  apply (ensures_step _ _ _ _ _ _ E1). eapply ensures_bind; [by apply (do_writes_spec mem_writing mem_evolves MEM_LIMIT w1 p f [] cs)|]. cbn beta. fold data. cbn [app]. intros rs w2 (f2 & Hw2 & Hev2 & Hrs).
  eapply ensures_bind; [by apply (mem_fflush_spec w2 p f2 data)|]. cbn beta. intros _ w3 (f3 & Hw3 & Hev3 & Hpub). pose proof (mem_evolves_trans _ _ _ _ _ _ _ Hev2 Hev3) as (F1 & F2 & _ & u & F3 & F4).
  apply (ensures_step _ _ _ (error f3) w3).
  { unfold ferror. rewrite (proj2 (Z.eqb_neq p 0)) by done. by rewrite (bind_done _ _ _ _ _ (run_get_file p f3 w3 (mw_file _ _ _ _ Hw3))). }
  eapply ensures_bind; [by apply (mem_fclose_spec w3 p f3 data)|]. cbn beta. intros _ w4 (G1 & (v & G3) & G2). apply ensures_ret. cbn [fst snd]. split; [by rewrite G1, F1, Ef, insert_insert_eq, delete_insert_eq|].
  split; [exists (u ++ v); split; [by rewrite <- Esup, F3, G3, app_assoc|]; intros He3; destruct (F4 He3) as [?|[?|E]]; [congruence|left; set_solver|]; right; rewrite E in G3; by destruct v, (supply w4)|].
  intros He3. destruct Hpub as [[El Hpub]|]; [|congruence]. rewrite <- El in Hpub. split; [apply Hrs; destruct (error f2) eqn:E2; [|done]; destruct Hev3 as (_ & _ & Hx & _); rewrite Hx in He3; done|].
  intros Hd. pose proof (mem_length _ _ _ _ Hw3 He3) as Hl. destruct (Z.eqb_spec (buflen f3) 0) as [Hz|Hnz]; [by destruct data; cbn in Hl; [|lia]|].
  specialize (G2 He3 Hpub). by rewrite F2, Eb, Ez in G2.
Qed.
End memory.
End streams.

(** ** The theorems *)

(** A system to run the programs on: a file that is read and written one or two bytes at a
    time, and that interrupts a number of writes. *)
Definition trickle : system (list Z * nat) := {|
  sys_open _ _ _ h := (3, h);
  sys_close _ h := (0, h);
  sys_read _ n h := (inr (take (Z.to_nat (Z.min n 2)) h.1), (drop (Z.to_nat (Z.min n 2)) h.1, h.2));
  sys_write _ data h := match h.2 with S k => (- EINTR, (h.1, k)) | O => (1, (h.1 ++ take 1 data, O)) end;
  sys_lseek _ _ _ h := (0, h);
  sys_fsync _ h := (0, h);
  sys_getfl _ h := (0, h)
|}.
Definition zeros (n : Z) : list Z := replicate (Z.to_nat n) 0.
Definition start (file : list Z) (interruptions : nat) : io (list Z * nat) :=
  {| host := (file, interruptions); errno := 0; blocks := ∅; cells := ∅; files := ∅; supply := [4096; 8192; 12288; 16384] |}.

#[export] Instance trickle_sink : Sink trickle 3 fst snd.
Proof.
  split; [|by intros h n h' [= <- <-]..]. intros data [l k] n h' Hd. cbn. destruct k as [|k]; intros [= <- <-]; cbn.
  - split; [destruct data; [done|cbn; lia]|]. split_and!; try done. by intros [?|[?|?]].
  - rewrite app_nil_r. split; [unfold EINTR; lia|]. split; [done|]. split; [lia|]. intros _. lia.
Qed.
#[export] Instance trickle_source : Source trickle 3 fst.
Proof.
  split. intros n [L k] r h' Hn [= <- <-]. cbn. rewrite take_drop, length_take. split; [lia|]. split; [done|]. intros E. destruct L as [|c L]; [done|].
  by destruct (Z.to_nat (Z.min n 2)) eqn:Ez; [lia|].
Qed.

(** C22: A program that opens a file for writing, sets a buffer of any size, writes with
    [fwrite], [fputc], [fputs] and [fflush] in any order, then flushes with [fflush], checks
    [ferror] and closes, returns and leaves no stream and no block behind.  When no error is
    flagged after that flush every call returned what it should and the descriptor has taken
    exactly the bytes that were written, in order, however the system cut or interrupted the
    writes.  With a buffer and a system that only interrupts no error is flagged.  The file is
    opened and the two blocks are there; a write takes no more than it is given and is
    interrupted finitely often; the data of [fwrite] has items of at least one byte and the
    text of [fputs] is shorter than 2^31. *)
Theorem stream_write_correct {H} (os : system H) (fresh : Z → list Z) (rounds : nat) d sent patience path size cs w p a l h1 :
  Sink os d sent patience → sys_open os path (Z.lor O_WRONLY (Z.lor O_CREAT O_TRUNC)) 420 (host w) = (d, h1) → 0 <= d < 2 ^ 31 →
  supply w = p :: a :: l → p ≠ 0 → a ≠ 0 → files w !! p = None → blocks w !! a = None → 0 <= size < 2 ^ 63 → Z.of_nat (length (fresh size)) = size →
  size + Z.of_nat (patience h1) <= Z.of_nat rounds → Forall write_ok cs →
  ∃ rs e w', write_file os fresh rounds path size cs w = Done ((rs, e), w') ∧ files w' = files w ∧ blocks w' = blocks w ∧ cells w' = cells w ∧
    (e = false → Forall2 write_result cs rs ∧ sent (host w') = sent h1 ++ concat (map write_bytes cs)) ∧ (reliable os d → 0 < size → e = false).
Proof.
  intros Hs Eo Hd Es Hp Ha Ef Eb Hsz Hfr Hr Hcs. destruct (write_file_spec os fresh rounds d sent patience path size cs w p a l h1) as ([rs e] & w' & E & Hq); try done. by exists rs, e, w'.
Qed.
Lemma stream_write_correct_witness : ∃ rs e w',
  write_file trickle zeros 20 (c_str [102]) 4 [Fwrite [1; 2; 3; 4; 5; 6] 2 3; Fputc 7; Fputs [65; 66] []; Fflush] (start [] 3) = Done ((rs, e), w') ∧
  files w' = ∅ ∧ blocks w' = ∅ ∧ e = false ∧ fst (host w') = [1; 2; 3; 4; 5; 6; 7; 65; 66].
Proof.
  destruct (stream_write_correct trickle zeros 20 3 fst snd (c_str [102]) 4 [Fwrite [1; 2; 3; 4; 5; 6] 2 3; Fputc 7; Fputs [65; 66] []; Fflush] (start [] 3) 4096 8192 [12288; 16384] ([], 3%nat))
    as (rs & e & w' & E & Ef & Eb & _ & Hq & He); [apply trickle_sink|reflexivity|lia|reflexivity|done|done|reflexivity|reflexivity|lia|reflexivity|cbn; lia|repeat constructor; cbn; lia|].
  assert (e = false) as Ee by (apply He; [|done]; intros data [x k] n h' _; cbn; destruct k; intros [= <- <-]; unfold EINTR; lia).
  exists rs, e, w'. split; [exact E|]. split; [exact Ef|]. split; [exact Eb|]. split; [exact Ee|]. exact (proj2 (Hq Ee)).
Defined.

(** C23: A program that opens a file for reading, sets a buffer of any size and calls [fread],
    [fgetc], [ungetc] and [fgets] gets what the same calls give on the list of the file's
    bytes, however the system cuts the reads: each byte once and in order, lines up to their
    end or the size, a pushed-back character first and the end of the file at the end.  The
    file is opened, the two blocks are there, reads do not fail, and the calls fit their
    arrays.  They come in any order, except that at most one character is pushed back at a
    time and [fread], which passes over it, is called only when there is none. *)
Theorem stream_read_correct {H} (os : system H) (fresh : Z → list Z) d left path size cs w p a l h1 :
  Source os d left → steady_source os d → sys_open os path O_RDONLY 0 (host w) = (d, h1) → 0 <= d < 2 ^ 31 → supply w = p :: a :: l → p ≠ 0 → a ≠ 0 →
  0 <= size < 2 ^ 63 → Z.of_nat (length (fresh size)) = size → Forall is_u8 (left h1) → reads_ok false cs →
  ∃ w', read_file os fresh path size cs w = Done (reads_spec cs (left h1), w').
Proof. intros Hs Hst. by apply read_file_spec. Qed.
Lemma stream_read_correct_witness : ∃ w',
  read_file trickle zeros (c_str [102]) 4 [Fgetc; Ungetc 90; Fgets [0; 0; 0; 0; 0; 0] 6; Fread [0; 0; 0; 0] 2 2; Fgetc] (start [65; 66; 67; 10; 68; 69; 70] 0) =
    Done ([Char 65; Char 90; Line true (Some [90; 66; 67; 10; 0; 0]); Block [68; 69; 70; 0] 1; Char (-1)], w').
Proof.
  apply (stream_read_correct trickle zeros 3 fst (c_str [102]) 4 [Fgetc; Ungetc 90; Fgets [0; 0; 0; 0; 0; 0] 6; Fread [0; 0; 0; 0] 2 2; Fgetc] (start [65; 66; 67; 10; 68; 69; 70] 0) 4096 8192 [12288; 16384] ([65; 66; 67; 10; 68; 69; 70], 0%nat));
    [apply trickle_source|intros n h e h' _; cbn; congruence|reflexivity|lia|reflexivity|done|done|lia|reflexivity|repeat constructor; cbn; lia|cbn; lia].
Defined.

(** C32: A program that opens a stream with [open_memstream], writes to it with [fwrite],
    [fputc], [fputs] and [fflush] in any order, flushes, checks [ferror] and closes, returns
    whatever the allocator answers, and flags an error only when the allocator refused
    memory or has no answer left.  When no error is flagged every call returned what it
    should and, if a byte was written, the caller's pointer holds a block that starts with
    exactly the bytes written and a terminator, and the caller's size is their number. *)
Theorem memstream_correct {H} (os : system H) (fresh : Z → list Z) (rounds : nat) bufp sizep cs w p a l :
  (∀ n, 0 <= n → Z.of_nat (length (fresh n)) = n) → bufp ≠ 0 → sizep ≠ 0 → bufp ≠ sizep → supply w = p :: a :: l → p ≠ 0 → a ≠ 0 → Forall write_ok cs →
  Z.of_nat (length (concat (map write_bytes cs))) <= MEM_LIMIT →
  ∃ rs e w', mem_file os fresh rounds bufp sizep cs w = Done ((rs, e), w') ∧ files w' = delete p (files w) ∧
    (∃ used, l = used ++ supply w' ∧ (e = true → 0 ∈ used ∨ supply w' = [])) ∧ (e = false → Forall2 write_result cs rs ∧
    let data := concat (map write_bytes cs) in
    (data ≠ [] → ∃ a' b, cells w' !! bufp = Some a' ∧ blocks w' !! a' = Some b ∧ take (S (length data)) b = data ++ [0] ∧ cells w' !! sizep = Some (Z.of_nat (length data)))).
Proof.
  intros Hfr Hb Hs Hne Es Hp Ha Hcs Hl. destruct (mem_file_spec os fresh rounds Hfr w bufp sizep cs p a l) as ([rs e] & w' & E & Hq); try done. by exists rs, e, w'.
Qed.
Lemma memstream_correct_witness : ∃ rs e w', mem_file trickle zeros 0 64 72 [Fwrite (zeros 130) 1 130; Fputc 7; Fputs [65; 66] []] (start [] 0) = Done ((rs, e), w') ∧ e = false ∧
  ∃ a b, cells w' !! 64 = Some a ∧ blocks w' !! a = Some b ∧ take 134 b = zeros 130 ++ [7; 65; 66; 0] ∧ cells w' !! 72 = Some 133.
Proof.
  destruct (memstream_correct trickle zeros 0 64 72 [Fwrite (zeros 130) 1 130; Fputc 7; Fputs [65; 66] []] (start [] 0) 4096 8192 [12288; 16384]) as (rs & e & w' & E & _ & (used & Eu & Hu) & Hq);
    [intros n Hn; unfold zeros; rewrite length_replicate; lia|done|done|done|reflexivity|done|done| |vm_compute; discriminate|].
  { constructor; [cbn [write_ok]; unfold zeros; rewrite length_replicate; lia|]. constructor; [done|]. constructor; [|done]. split; [by repeat constructor|cbn; lia]. }
  exists rs, e, w'. split; [exact E|]. assert (e = false) as Ee by (destruct e; [|done]; vm_compute in E; congruence). split; [exact Ee|]. apply (proj2 (Hq Ee)). done.
Defined.

(** ** What the routines also do *)

(** Closing a stream that was read writes what was read ahead to the descriptor. *)
Definition mode_update : list Z := c_str [114; 43].
Lemma read_ahead_written_back : ∃ w',
  (p ← fopen trickle (c_str [102]) mode_update; setvbuf zeros p 0 0 4;; c ← fgetc trickle p; fclose trickle zeros 20 p;; mret c) (start [1; 2; 3; 4] 0) = Done (1, w') ∧
  fst (host w') = [3; 4; 1; 2].
Proof. eexists. split; vm_compute; reflexivity. Qed.
(** [fread] does not see a character that was pushed back. *)
Lemma pushed_back_passed_over : ∃ w',
  (p ← fopen trickle (c_str [102]) mode_r; ungetc 90 p;; r ← fread trickle [0; 0] 1 2 p; mret r.1) (start [1; 2; 3; 4] 0) = Done ([1; 2], w').
Proof. eexists. vm_compute. reflexivity. Qed.
(** A device that is full. *)
Definition full : system (list Z * nat) := {|
  sys_open _ _ _ h := (3, h);
  sys_close _ h := (0, h);
  sys_read _ _ h := (inr [], h);
  sys_write _ _ h := (- ENOSPC, h);
  sys_lseek _ _ _ h := (0, h);
  sys_fsync _ h := (0, h);
  sys_getfl _ h := (0, h)
|}.
(** [fclose] reports success although what was written is lost. *)
Lemma failed_flush_closed : ∃ w',
  (p ← fopen full (c_str [102]) mode_w; setvbuf zeros p 0 0 4;; c ← fputc full zeros 20 65 p; r ← fclose full zeros 20 p; mret (c, r)) (start [] 0) = Done ((65, 0), w') ∧ fst (host w') = [].
Proof. eexists. split; vm_compute; reflexivity. Qed.
(** [rewind] on a memory stream loses what was written. *)
Lemma rewind_loses : ∃ w',
  (p ← open_memstream zeros 64 72; fputc trickle zeros 20 65 p;; fputc trickle zeros 20 66 p;; rewind trickle zeros 20 p;; fputc trickle zeros 20 67 p;; fclose trickle zeros 20 p) (start [] 0) = Done (0, w') ∧
  cells w' !! 72 = Some 1.
Proof. eexists. split; vm_compute; reflexivity. Qed.
(** A memory stream that is closed without data leaves the pointer null. *)
Lemma empty_stays_null : ∃ w',
  (p ← open_memstream zeros 64 72; fclose trickle zeros 20 p) (start [] 0) = Done (0, w') ∧ cells w' !! 64 = Some 0 ∧ is_Some (blocks w' !! 8192).
Proof. eexists. split; [vm_compute; reflexivity|]. split; [vm_compute; reflexivity|]. eexists. vm_compute. reflexivity. Qed.
(** A device that takes one byte, fails once and then takes everything. *)
Definition hiccup : system (list Z * nat) := {|
  sys_open _ _ _ h := (3, h);
  sys_close _ h := (0, h);
  sys_read _ _ h := (inr [], h);
  sys_write _ data h := match h.2 with O => (1, (h.1 ++ take 1 data, 1%nat)) | 1%nat => (- ENOSPC, (h.1, 2%nat)) | _ => (Z.of_nat (length data), (h.1 ++ data, h.2)) end;
  sys_lseek _ _ _ h := (0, h);
  sys_fsync _ h := (0, h);
  sys_getfl _ h := (0, h)
|}.
(** A flush that fails halfway keeps the whole buffer: the next one sends its start again. *)
Lemma sent_again : ∃ w',
  (p ← fopen hiccup (c_str [102]) mode_w; setvbuf zeros p 0 0 4;; fputs hiccup zeros 20 (Some (c_str [65; 66])) p;; e ← fflush hiccup zeros 20 p; r ← fclose hiccup zeros 20 p; mret (e, r)) (start [] 0) = Done ((-1, 0), w') ∧
  fst (host w') = [65; 65; 66].
Proof. eexists. split; vm_compute; reflexivity. Qed.
