(* ===== verification/LibLines.v ===== *)
(** * Lines of a file: getline.c

    [getdelim] on a stream over a descriptor: the line goes to a block that grows, and
    the next call uses it again.  A program that calls [getline] until it fails gets the
    lines of the file. *)

From S2P Require Import Prelude CString LibBase LibString LibStdio LibStreams.

Local Open Scope Z_scope.

(** A text up to and with a delimiter, and what follows. *)
Fixpoint until (delim : Z) (L : list Z) : list Z * list Z :=
  match L with
  | [] => ([], [])
  | c :: L => if c =? delim then ([c], L) else let '(s, L') := until delim L in (c :: s, L')
  end.
(** The lines of a text, each with its newline; the last one may have none. *)
Fixpoint text_lines (L : list Z) : list (list Z) :=
  match L with
  | [] => []
  | c :: L => if c =? 10 then [c] :: text_lines L else match text_lines L with [] => [[c]] | s :: ss => (c :: s) :: ss end
  end.

Lemma until_app delim L : (until delim L).1 ++ (until delim L).2 = L.
Proof. induction L as [|c L IH]; [done|]. cbn. destruct (c =? delim); [done|]. destruct (until delim L) as [s L']. cbn in *. by rewrite IH. Qed.
Lemma text_lines_until L : text_lines L = if bool_decide (L = []) then [] else (until 10 L).1 :: text_lines (until 10 L).2.
Proof.
  induction L as [|c L IH]; [done|]. cbn. destruct (c =? 10); [done|]. rewrite IH. destruct L as [|c' L]; [done|]. rewrite bool_decide_false by done. by destruct (until 10 (c' :: L)).
Qed.
Lemma text_lines_concat L : concat (text_lines L) = L.
Proof. induction L as [|c L IH]; [done|]. cbn. destruct (c =? 10); cbn; [by rewrite IH|]. destruct (text_lines L); cbn in *; by rewrite IH. Qed.

Section lines.
Context {H : Type} (os : system H) (fresh : Z → list Z) (rounds : nat) (d : Z) (left : H → list Z) {source : Source os d left}.
Hypothesis Hsteady : steady_source os d.
Hypothesis Hfresh : ∀ n, 0 <= n → Z.of_nat (length (fresh n)) = n.
Implicit Types w : io H.
Implicit Types f : FILE H.

(** The answers of the allocator from one state to another, and why it failed. *)
Definition answers w w' (failed : Prop) : Prop := ∃ used, supply w = used ++ supply w' ∧ (failed → 0 ∈ used ∨ supply w' = []).
Lemma answers_same w w' : supply w' = supply w → answers w w' False.
Proof. intros E. exists []. by rewrite E. Qed.
Lemma answers_trans w1 w2 w3 F : answers w1 w2 False → answers w2 w3 F → answers w1 w3 F.
Proof. intros (u & E1 & _) (v & E2 & Hv). exists (u ++ v). split; [by rewrite E1, E2, app_assoc|]. intros HF. destruct (Hv HF); [left; set_solver|by right]. Qed.
Lemma answers_after w1 w2 w3 F : answers w1 w2 F → answers w2 w3 False → answers w1 w3 F.
Proof.
  intros (u & E1 & Hu) (v & E2 & _). exists (u ++ v). split; [by rewrite E1, E2, app_assoc|]. intros HF. destruct (Hu HF) as [?|E]; [left; set_solver|]. right. rewrite E in E2. by destruct v, (supply w3).
Qed.
(** The allocator never answers with the buffer of the stream. *)
Definition apart w f : Prop := Forall (λ x, x = 0 ∨ x ≠ buf f) (supply w).
Lemma apart_answers w w' f f' F : apart w f → answers w w' F → buf f' = buf f → apart w' f'.
Proof. unfold apart. intros Ha (u & E & _) ->. rewrite E in Ha. by apply Forall_app in Ha as [_ ?]. Qed.

(** The block of the caller, with [t] stored. *)
Record line_buffer w f (a n : Z) (t : list Z) : Prop := {
  lb_null : a ≠ 0;
  lb_apart : a ≠ buf f;
  lb_size : n <= 2 ^ 61;
  lb_room : Z.of_nat (length t) < n;
  lb_block : ∃ b, blocks w !! a = Some b ∧ Z.of_nat (length b) = n ∧ take (length t) b = t
}.
Lemma line_buffer_same w w' f f' a n t : line_buffer w f a n t → buf f' = buf f → blocks w' !! a = blocks w !! a → line_buffer w' f' a n t.
Proof. intros [H1 H2 H3 H4 H5] E Eb. split; try done; [by rewrite E|by rewrite Eb]. Qed.

Lemma holding_same w w' p f L : holding d left w p f L → files w' = files w → host w' = host w → blocks w' !! buf f = blocks w !! buf f → holding d left w' p f L.
Proof.
  intros (rest & [Hp Ef Hm Hc Hd Hb Hr] & ->) E1 E2 E3. exists rest. split; [|done]. unfold unread in Hr. split; unfold unread; rewrite ?E1, ?E2, ?E3; done.
Qed.

(** Room for one more character and the terminator. *)
Lemma getdelim_grow_spec w p f L a n t : holding d left w p f L → line_buffer w f a n t → apart w f → Z.of_nat (length t) < 2 ^ 59 →
  ensures (getdelim_grow fresh a n (Z.of_nat (length t))) w (λ g w', holding d left w' p f L ∧
    match g with
    | None => answers w w' True
    | Some (a', n') => answers w w' False ∧ line_buffer w' f a' n' t ∧ Z.of_nat (length t) + 1 < n'
    end).
Proof.
  intros Hh Hb Ha Ht. unfold getdelim_grow. destruct (Z.leb_spec n (Z.of_nat (length t) + 1)) as [Hle|Hgt].
  2: { apply ensures_ret. split; [done|]. split; [by apply answers_same|]. by split. }
  destruct Hb as [H1 H2 H3 H4 (b & Eb & Hbl & Hbt)]. rewrite (u64_small (n * 2)) by (unfold is_u64; lia). eapply ensures_bind; [apply (mem_realloc_spec fresh Hfresh w a b (n * 2) H1 Eb); lia|]. cbn beta.
  intros a' w1 (F1 & F2 & F3 & F4 & (used & Eu & Hin & Hz) & Hor). assert (buf f ≠ a) as Hne by done.
  destruct Hor as [[-> F5]|[Ha' (b' & Eb' & Hl' & Ht')]].
  - cbn [Z.eqb]. apply (ensures_step _ _ _ tt (with_errno ENOMEM w1)); [done|]. apply ensures_ret. split; [apply (holding_same w); try done; cbn; by rewrite F5|]. exists used. split; [done|]. intros _. by apply Hz.
  - rewrite (proj2 (Z.eqb_neq a' 0)) by done. apply ensures_ret. assert (a' ≠ buf f) as Hab.
    { unfold apart in Ha. rewrite Forall_forall in Ha. destruct (Ha a') as [?|?]; [rewrite Eu; specialize (Hin Ha'); set_solver|done|done]. }
    split; [apply (holding_same w); try done; by apply F4|]. split; [by exists used|]. split; [|lia]. split; try done; try lia. exists b'. split; [done|]. split; [done|].
    rewrite <- Hbt at 2. rewrite <- Ht', take_take. f_equal. lia.
Qed.

(** One character is stored. *)
Lemma store_char w p f L a n t c : holding d left w p f L → line_buffer w f a n t → Z.of_nat (length t) + 1 < n →
  ensures (write_block a (Z.of_nat (length t)) [c]) w (λ _ w', holding d left w' p f L ∧ line_buffer w' f a n (t ++ [c]) ∧ supply w' = supply w).
Proof.
  intros Hh [H1 H2 H3 H4 (b & Eb & Hbl & Hbt)] Hn. pose proof (blit_ok b (Z.of_nat (length t)) [c] ltac:(lia) ltac:(cbn; lia)) as Ebl.
  eexists _, _. split; [exact (run_write_block _ _ _ _ _ _ Eb Ebl)|]. split; [apply (holding_same w); try done; cbn; by rewrite lookup_insert_ne|]. split; [|done].
  split; try done; [rewrite length_app; cbn; lia|]. eexists. cbn. rewrite lookup_insert_eq. split; [done|]. rewrite Nat2Z.id, Hbt. split.
  - apply (f_equal length) in Hbt. rewrite length_take in Hbt. rewrite length_app. cbn. rewrite length_drop. lia.
  - rewrite (cons_middle c t (drop _ b)), app_assoc. apply take_app_length.
Qed.

Lemma getdelim_loop_spec k delim p L : ∀ w f a n t, (length L < k)%nat → Forall is_u8 L → Z.of_nat (length t + length L) < 2 ^ 59 → holding d left w p f L → line_buffer w f a n t → apart w f →
  ensures (getdelim_loop os fresh k a n (Z.of_nat (length t)) delim p) w (λ r w', ∃ f' L', holding d left w' p f' L' ∧ buf f' = buf f ∧
    match r.2 with
    | None => answers w w' True
    | Some (c, pos) => answers w w' False ∧ L' = (until delim L).2 ∧ line_buffer w' f' r.1.1 r.1.2 (t ++ (until delim L).1) ∧ pos = Z.of_nat (length (t ++ (until delim L).1)) ∧ (L = [] → c = -1)
    end).
Proof.
  revert L. induction k as [|k IH]; intros L w f a n t Hk HL Hlen Hh Hb Ha; [lia|]. cbn [getdelim_loop].
  eapply ensures_bind; [by apply (fgetc_spec os fresh d left Hsteady w p f L)|]. cbn beta. intros c w1 (-> & f1 & Hh1 & [K1 K2 K3 K4 K5 K6] & _).
  assert (line_buffer w1 f1 a n t) as Hb1 by (apply (line_buffer_same w _ f); [done|done|]; apply K2, Hb). pose proof (answers_same w w1 K4) as An1. pose proof (apart_answers _ _ _ _ _ Ha An1 K5) as Ha1.
  destruct L as [|c L]; cbn [head default tail until] in *.
  { apply ensures_ret. exists f1, []. cbn. rewrite app_nil_r. done. }
  inversion HL as [|? ? Hc HL']; subst. cbn [length] in *. unfold is_u8 in Hc. cbn [from_option id]. rewrite (proj2 (Z.eqb_neq c (-1))) by lia.
  eapply ensures_bind; [apply (getdelim_grow_spec w1 p f1 L a n t Hh1 Hb1 Ha1); lia|]. cbn beta. intros [[a2 n2]|] w2 [Hh2 Hg].
  2: { apply ensures_ret. exists f1, L. split; [done|]. split; [done|]. by eapply answers_trans. }
  destruct Hg as (An2 & Hb2 & Hroom). rewrite u8_small by (unfold is_u8; lia). eapply ensures_bind; [by apply (store_char w2 p f1 L a2 n2 t c)|]. cbn beta. intros _ w3 (Hh3 & Hb3 & Es3).
  pose proof (answers_trans _ _ _ _ An1 (answers_trans _ _ _ _ An2 (answers_same w2 w3 Es3))) as An. destruct (c =? delim).
  - apply ensures_ret. exists f1, L. cbn. split_and!; try done. rewrite length_app. cbn. lia.
  - replace (Z.of_nat (length t) + 1) with (Z.of_nat (length (t ++ [c]))) by (rewrite length_app; cbn; lia).
    eapply ensures_mono; [apply (IH L w3 f1 a2 n2 (t ++ [c])); try done; [lia|rewrite length_app; cbn; lia|exact (apart_answers _ _ _ _ _ Ha An K5)]|]. cbn beta.
    intros [[a4 n4] o] w4 (f4 & L4 & Hh4 & E4 & Ho). exists f4, L4. split; [done|]. split; [congruence|]. cbn [fst snd] in *. destruct o as [[c' pos]|]; [|by eapply answers_trans].
    destruct Ho as (An4 & -> & Hb4 & -> & _). destruct (until delim L) as [s L'] eqn:Eu. cbn [fst snd] in *. rewrite <- app_assoc in *. cbn [app] in *. split_and!; try done. by eapply answers_trans.
Qed.

(** What the caller passes: nothing yet, or the block of an earlier call. *)
Definition line_ready w f (a n : Z) : Prop := a = 0 ∧ n = 0 ∨ line_buffer w f a n [].

Lemma first_block_spec w p f L a n : holding d left w p f L → line_ready w f a n → apart w f →
  ensures (if (a =? 0) || (n =? 0) then let n := if n =? 0 then 128 else n in a ← malloc fresh n; mret (a, n) else mret (a, n)) w (λ r w', holding d left w' p f L ∧
    if r.1 =? 0 then answers w w' True else answers w w' False ∧ line_buffer w' f r.1 r.2 []).
Proof.
  intros Hh [[-> ->]|Hb] Ha; cbn [Z.eqb orb].
  - cbn zeta. eapply (ensures_bind _ _ _ (λ x w', holding d left w' p f L ∧ if x =? 0 then answers w w' True else answers w w' False ∧ line_buffer w' f x 128 [])).
    2: { cbn beta. intros x w' Hx. by apply ensures_ret. }
    unfold malloc. change (128 =? 0) with false. cbn iota. destruct (supply w) as [|x l] eqn:Es.
    + apply (ensures_step _ _ _ 0 (with_errno ENOMEM w)); [unfold next_address; by rewrite Es|]. apply ensures_ret. split; [by apply (holding_same w)|]. cbn. exists []. split; [done|by right].
    + apply (ensures_step _ _ _ x (with_supply l (if x =? 0 then with_errno ENOMEM w else w))); [unfold next_address; by rewrite Es|]. destruct (Z.eqb_spec x 0) as [-> |Hx].
      * apply ensures_ret. split; [by apply (holding_same w)|]. cbn. exists [0]. split; [done|]. intros _. left. set_solver.
      * unfold apart in Ha. rewrite Es in Ha. inversion Ha as [|? ? [?|Hxb] _]; [done|]. subst. eexists _, _. split; [reflexivity|]. rewrite (proj2 (Z.eqb_neq x 0)) by done. split; [apply (holding_same w); try done; cbn; by rewrite lookup_insert_ne|]. split; [by exists [x]|].
        split; try done. exists (fresh 128). cbn. rewrite lookup_insert_eq. split; [done|]. split; [by apply Hfresh|done].
  - destruct (Hb) as [H1 _ _ H4 _]. cbn in H4. rewrite (proj2 (Z.eqb_neq a 0)), (proj2 (Z.eqb_neq n 0)) by lia. cbn [orb]. apply ensures_ret. cbn [fst snd]. rewrite (proj2 (Z.eqb_neq a 0)) by done.
    split; [done|]. split; [by apply answers_same|done].
Qed.
(** The terminator. *)
Lemma store_end w p f L a n t : holding d left w p f L → line_buffer w f a n t →
  ensures (write_block a (Z.of_nat (length t)) [0]) w (λ _ w', holding d left w' p f L ∧ line_buffer w' f a n [] ∧ supply w' = supply w ∧ ∃ b, blocks w' !! a = Some b ∧ take (S (length t)) b = t ++ [0]).
Proof.
  intros Hh [H1 H2 H3 H4 (b & Eb & Hbl & Hbt)]. pose proof (blit_ok b (Z.of_nat (length t)) [0] ltac:(lia) ltac:(cbn; lia)) as Ebl. fold (store b (Z.of_nat (length t)) [0]) in Ebl.
  eexists _, _. split; [exact (run_write_block _ _ _ _ _ _ Eb Ebl)|]. split; [apply (holding_same w); try done; cbn; by rewrite lookup_insert_ne|]. cbn. rewrite lookup_insert_eq. split; [|split; [done|]].
  - split; try done; [cbn; lia|]. eexists. cbn. rewrite lookup_insert_eq. split; [done|]. split; [|done]. rewrite store_length; [done|lia|cbn; lia].
  - eexists. split; [done|]. unfold store. rewrite Nat2Z.id, Hbt, app_assoc. replace (S (length t)) with (length (t ++ [0])) by (rewrite length_app; cbn; lia). apply take_app_length.
Qed.

Lemma getdelim_spec w p f L a n delim : holding d left w p f L → line_ready w f a n → apart w f → Forall is_u8 L → (length L < rounds)%nat → Z.of_nat (length L) < 2 ^ 59 →
  ensures (getdelim os fresh rounds a n delim p) w (λ r w', ∃ f' L', holding d left w' p f' L' ∧ buf f' = buf f ∧
    (r.1.1 = -1 ∧ answers w w' True ∨
     answers w w' False ∧ L' = (until delim L).2 ∧
     if bool_decide (L = []) then r.1.1 = -1
     else let s := (until delim L).1 in r.1.1 = Z.of_nat (length s) ∧ line_buffer w' f' r.1.2 r.2 [] ∧ ∃ b, blocks w' !! r.1.2 = Some b ∧ take (S (length s)) b = s ++ [0])).
Proof.
  intros Hh Hr Ha HL Hk Hlen. unfold getdelim. destruct Hh as (rest & Hrd & E) eqn:Eh. pose proof (rd_null _ _ _ _ _ _ Hrd) as Hp. clear Eh. assert (holding d left w p f L) as Hh' by (by exists rest).
  rewrite (proj2 (Z.eqb_neq p 0)) by done. eapply ensures_bind; [by apply (first_block_spec w p f L a n)|]. cbn beta. intros [a1 n1] w1 [Hh1 Hr1]. cbn [fst snd] in *. destruct (a1 =? 0).
  { apply (ensures_step _ _ _ tt (with_errno ENOMEM w1)); [done|]. apply ensures_ret. exists f, L. split; [by apply (holding_same w1)|]. split; [done|]. by left. }
  destruct Hr1 as [An1 Hb1].
  eapply ensures_bind; [apply (getdelim_loop_spec rounds delim p L w1 f a1 n1 []); try done; exact (apart_answers _ _ _ _ _ Ha An1 eq_refl)|]. cbn beta.
  intros [[a2 n2] o] w2 (f2 & L2 & Hh2 & E2 & Ho). cbn [fst snd] in *. destruct o as [[c pos]|].
  2: { apply ensures_ret. exists f2, L2. split; [done|]. split; [done|]. left. split; [done|]. by eapply answers_trans. }
  destruct Ho as (An2 & -> & Hb2 & -> & Hc). pose proof (answers_trans _ _ _ _ An1 An2) as An. cbn [app] in *. pose proof (until_app delim L) as Hu. destruct L as [|x L].
  { rewrite Hc by done. cbn. apply ensures_ret. exists f2, []. split; [done|]. split; [done|]. by right. }
  assert ((until delim (x :: L)).1 ≠ []) as Hne by (cbn; destruct (x =? delim); [done|by destruct (until delim L)]). set (s := (until delim (x :: L)).1) in *.
  assert ((Z.of_nat (length s) =? 0) = false) as Hz by (apply Z.eqb_neq; destruct s; [done|cbn; lia]). rewrite Hz, andb_false_r.
  eapply ensures_bind; [by apply (store_end w2 p f2 (until delim (x :: L)).2 a2 n2 s)|]. cbn beta. intros _ w3 (Hh3 & Hb3 & Es3 & Hb). apply ensures_ret. exists f2, (until delim (x :: L)).2. split; [done|]. split; [done|]. right.
  split; [by eapply answers_trans; [|apply answers_same]|]. split; [done|]. rewrite bool_decide_false by done. by split.
Qed.

(** A program: the lines of a stream, until [getline] fails. *)
Fixpoint read_lines (k : nat) (a n p : Z) : M (io H) (list (list Z)) :=
  match k with
  | O => mret []
  | S k =>
      r ← getline os fresh rounds a n p;
      if r.1.1 =? -1 then mret [] else
      b ← get_block r.1.2; s ← liftO (slice b 0 r.1.1);
      ss ← read_lines k r.1.2 r.2 p; mret (s :: ss)
  end.
Definition lines_file (path : list Z) (size : Z) (k : nat) : M (io H) (list (list Z)) :=
  p ← fopen os path mode_r; setvbuf fresh p 0 0 size;; read_lines k 0 0 p.

Lemma read_lines_spec k : ∀ w p f L a n, (length (text_lines L) < k)%nat → holding d left w p f L → line_ready w f a n → apart w f → Forall is_u8 L → (length L < rounds)%nat → Z.of_nat (length L) < 2 ^ 59 →
  ensures (read_lines k a n p) w (λ ss w', ss = text_lines L ∧ answers w w' False ∨ answers w w' True).
Proof.
  induction k as [|k IH]; intros w p f L a n Hk Hh Hr Ha HL Hro Hlen; [lia|]. cbn [read_lines]. unfold getline. eapply ensures_bind; [by apply (getdelim_spec w p f L a n 10)|]. cbn beta.
  intros [[r a1] n1] w1 (f1 & L1 & Hh1 & E1 & Hor). cbn [fst snd] in *. destruct Hor as [[-> An]|(An & -> & Hcase)]; [apply ensures_ret; by right|]. rewrite text_lines_until in *.
  destruct (bool_decide_reflect (L = [])) as [-> |Hne]; [rewrite Hcase; apply ensures_ret; by left|]. cbn zeta in Hcase. destruct Hcase as (-> & Hb1 & b & Eb & Et). pose proof (until_app 10 L) as Hu.
  destruct (until 10 L) as [s L'] eqn:Eu. cbn [fst snd] in *. rewrite (proj2 (Z.eqb_neq (Z.of_nat (length s)) (-1))) by lia. apply (ensures_step _ _ _ _ _ _ (run_get_block _ _ _ Eb)).
  assert (length s < length b)%nat as Hsb by (apply (f_equal length) in Et; rewrite length_take, length_app in Et; cbn [length] in Et; lia).
  assert (take (length s) b = s) as Ets by (apply (f_equal (take (length s))) in Et; rewrite take_take, take_app_length in Et; rewrite Nat.min_l in Et by lia; exact Et).
  rewrite slice_ok by lia. change (Z.to_nat 0) with O. rewrite drop_0, Nat2Z.id, Ets. apply (ensures_step _ _ _ s w1); [done|].
  assert (length L' <= length L)%nat as Hl by (rewrite <- Hu, length_app; lia). eapply ensures_bind.
  { apply (IH w1 p f1 L' a1 n1); [cbn in Hk; lia|done|by right|exact (apart_answers _ _ _ _ _ Ha An E1)| |lia|lia]. rewrite <- Hu in HL. by apply Forall_app in HL as [_ ?]. }
  cbn beta. intros ss w2 [[-> An2]|An2]; apply ensures_ret; [left; split; [done|]|right]; by eapply answers_trans.
Qed.

Lemma lines_file_spec path size k w p a l h1 : sys_open os path O_RDONLY 0 (host w) = (d, h1) → 0 <= d < 2 ^ 31 → supply w = p :: a :: l → p ≠ 0 → a ≠ 0 → a ∉ l →
  0 <= size < 2 ^ 63 → Forall is_u8 (left h1) → (length (text_lines (left h1)) < k)%nat → (length (left h1) < rounds)%nat → Z.of_nat (length (left h1)) < 2 ^ 59 →
  ensures (lines_file path size k) w (λ ss w', ss = text_lines (left h1) ∨ 0 ∈ l ∨ supply w' = []).
Proof.
  intros Eo Hd Es Hp Ha Hal Hsz HL Hk Hro Hlen. destruct (run_open_reading os fresh d left path size w p a l h1) as (w0 & w1 & f & E0 & E1 & Hh & _ & Hb); try done; [apply Hfresh; lia|].
  unfold lines_file. apply (ensures_step _ _ _ _ _ _ E0), (ensures_step _ _ _ _ _ _ E1). assert (apart w1 f) as Hap.
  { unfold apart. apply Forall_forall. intros x Hx. destruct Hb as [[-> _]|[-> E]]; [lia|]. right. rewrite E in Hx. by intros ->. }
  eapply ensures_mono; [apply (read_lines_spec k w1 p f (left h1) 0 0); try done; by left|]. cbn beta. intros ss w2 [[-> _]|(used & Eu & Hf)]; [by left|]. right.
  destruct (Hf I) as [Hin|]; [left|by right]. destruct Hb as [[_ E]|[_ E]]; rewrite E in Eu; [|rewrite Eu; set_solver]. assert (0 ∈ a :: l) as H0 by (rewrite Eu; set_solver). set_solver.
Qed.
End lines.

(** C33: A program that opens a file, sets a buffer of any size and calls [getline] with the
    same pointer and size until it fails gets the lines of the file, each with its newline,
    however long they are and however the system cuts the reads, and nothing is lost between
    them; unless the allocator refused memory or has no answer left. *)
Theorem getline_correct {H} (os : system H) (fresh : Z → list Z) (rounds : nat) d left path size k w p a l h1 :
  Source os d left → steady_source os d → (∀ n, 0 <= n → Z.of_nat (length (fresh n)) = n) →
  sys_open os path O_RDONLY 0 (host w) = (d, h1) → 0 <= d < 2 ^ 31 → supply w = p :: a :: l → p ≠ 0 → a ≠ 0 → a ∉ l →
  0 <= size < 2 ^ 63 → Forall is_u8 (left h1) → (length (text_lines (left h1)) < k)%nat → (length (left h1) < rounds)%nat → Z.of_nat (length (left h1)) < 2 ^ 59 →
  ∃ ss w', lines_file os fresh rounds path size k w = Done (ss, w') ∧ (ss = text_lines (left h1) ∧ concat ss = left h1 ∨ 0 ∈ l ∨ supply w' = []).
Proof.
  intros Hs Hst Hfr Eo Hd Es Hp Ha Hal Hsz HL Hk Hro Hlen. destruct (lines_file_spec os fresh rounds d left Hst Hfr path size k w p a l h1) as (ss & w' & E & Hor); try done.
  exists ss, w'. split; [done|]. destruct Hor as [-> |?]; [left; split; [done|apply text_lines_concat]|by right].
Qed.
Lemma getline_correct_witness : ∃ ss w', lines_file trickle zeros 20 (c_str [102]) 4 10 (start [65; 66; 10; 10; 67; 68; 69] 0) = Done (ss, w') ∧ ss = [[65; 66; 10]; [10]; [67; 68; 69]].
Proof.
  destruct (getline_correct trickle zeros 20 3 fst (c_str [102]) 4 10 (start [65; 66; 10; 10; 67; 68; 69] 0) 4096 8192 [12288; 16384] ([65; 66; 10; 10; 67; 68; 69], 0%nat)) as (ss & w' & E & Hor);
    [apply trickle_source|intros n h e h' _; cbn; congruence|intros n Hn; unfold zeros; rewrite length_replicate; lia|reflexivity|lia|reflexivity|done|done|exact (bool_decide_unpack (8192 ∉ [12288; 16384]) I)|lia|repeat constructor; cbn; lia|cbn; lia|cbn; lia|cbn; lia|].
  exists ss, w'. split; [exact E|]. destruct Hor as [[-> _]|[Hin|Hsup]]; [reflexivity|by apply list_elem_of_lookup in Hin as ([|[|i]] & Hi)|]. vm_compute in E. injection E as <- <-. discriminate.
Defined.
