(* ===== verification/LibRegex.v ===== *)
(** * Regular expressions: example_libc/src/regex.c

    A pattern is rewritten twice as text (repetition ranges, then alternation into
    a list of patterns without it), compiled to tokens and matched by backtracking.
    A text is the list of its characters before the terminator where the code works
    with its length, and the rest of the buffer with the terminator where it looks
    for one.  The answers of the allocator are the state: a list, [false] for a
    refusal, everything being granted after its end.  What was allocated is not
    tracked further.  [None] and [Undef] are accesses outside a text or an array,
    of memory that was never written, or through a null pointer.  A [char] is kept
    as a byte; [s8] orders it. *)

From S2P Require Import Prelude LibBase LibCtype LibString.

Local Open Scope Z_scope.

(** ** Tokens *)

(** A class points into the [ccl] array of its alternative.  [UNSET] is an entry of
    the array of tokens whose type was never written. *)
Inductive token : Type :=
| UNUSED | DOT | BEGIN | END | QUESTION | STAR | PLUS | CHAR (ch : Z) | CHAR_CLASS (ccl : Z) | INV_CHAR_CLASS (ccl : Z)
| DIGIT | NOT_DIGIT | ALPHA | NOT_ALPHA | SPACE | NOT_SPACE
| CAP_OPEN (group : Z) | CAP_CLOSE (group : Z) | BACKREF (group : Z)
| UNSET.

#[export] Instance token_eq_dec : EqDecision token.
Proof. solve_decision. Defined.

(** [alt_ccl] is the array from index 1 on: the first byte is never written. *)
Record regex_alt := mk_alt { alt_pat : list token; alt_ccl : list Z }.
Record regex_t := mk_regex { impl : option (list regex_alt); re_nsub : Z }.

(** [malloc], [calloc], [realloc] and [strndup]: whether there is memory. *)
Definition alloc : M (list bool) bool := λ s, Done (match s with [] => (true, []) | b :: s => (b, s) end).

(** ** Compiling one alternative *)

Record compile_state := mk_cs { toks : list token; ccl : list Z; stack : list Z; groups : Z }.

(** [alt->ccl[ccl_idx++] = c], in an array of [len * 2 + 1]. *)
Definition push (len : Z) (ccl : list Z) (c : Z) : option (list Z) :=
  if 1 + Z.of_nat (length ccl) <? len * 2 + 1 then Some (ccl ++ [c]) else None.

(** The inner loop of a class name: up to ":]" or the end. *)
Fixpoint copy_name (len : Z) (r ccl : list Z) : option (list Z * list Z) :=
  match r with
  | [] => None
  | c :: r' =>
      if c =? 0 then Some (r, ccl) else
      stop ← (if c =? 58 then n ← head r'; Some (n =? 93) else Some false);
      if stop : bool then Some (r, ccl) else ccl ← push len ccl c; copy_name len r' ccl
  end.

(** [while (pattern[++i])], [r] being [pattern + i]. *)
Fixpoint scan_class (fuel : nat) (len : Z) (r ccl : list Z) : option (list Z * list Z) :=
  match fuel with
  | O => None
  | S fuel =>
      let r := tail r in
      c ← head r;
      if c =? 0 then Some (r, ccl) else
      n ← (if (c =? 92) || (c =? 91) then r.[1] else Some 0);
      if (c =? 92) && negb (n =? 0) then ccl ← push len ccl c; ccl ← push len ccl n; scan_class fuel len (tail r) ccl
      else if (c =? 91) && (n =? 58) then
        ccl ← push len ccl c;
        rc ← copy_name len (tail r) ccl;
        let '(r, ccl) := (rc : list Z * list Z) in
        c ← head r;
        if c =? 0 then scan_class fuel len r ccl
        else ccl ← push len ccl c; n ← r.[1]; ccl ← push len ccl n; scan_class fuel len (tail r) ccl
      else if c =? 93 then Some (r, ccl)
      else ccl ← push len ccl c; scan_class fuel len r ccl
  end.

(** The escape [\c]. *)
Definition escape (c : Z) : token :=
  if (49 <=? c) && (c <=? 57) then BACKREF (c - 48)
  else if c =? 100 then DIGIT else if c =? 68 then NOT_DIGIT
  else if c =? 119 then ALPHA else if c =? 87 then NOT_ALPHA
  else if c =? 115 then SPACE else if c =? 83 then NOT_SPACE
  else CHAR c.

Definition add (t : token) (s : compile_state) : compile_state := mk_cs (toks s ++ [t]) (ccl s) (stack s) (groups s).

(** The [switch] on [pattern[i]], with the place [i] is left at. *)
Definition compile_token (len : Z) (r : list Z) (s : compile_state) : option (list Z * compile_state) :=
  c ← head r;
  if c =? 94 then Some (r, add BEGIN s)
  else if c =? 36 then Some (r, add END s)
  else if c =? 46 then Some (r, add DOT s)
  else if c =? 42 then Some (r, add STAR s)
  else if c =? 43 then Some (r, add PLUS s)
  else if c =? 63 then Some (r, add QUESTION s)
  else if c =? 92 then
    n ← r.[1];
    if n =? 0 then Some (r, add UNSET s) else Some (tail r, add (escape n) s)
  else if c =? 40 then
    if groups s <? 9 then
      let g := groups s + 1 in Some (r, mk_cs (toks s ++ [CAP_OPEN g]) (ccl s) (g :: stack s) g)
    else Some (r, add (CHAR c) s)
  else if c =? 41 then
    match stack s with
    | id :: st => Some (r, mk_cs (toks s ++ [CAP_CLOSE id]) (ccl s) st (groups s))
    | [] => Some (r, add (CHAR c) s)
    end
  else if c =? 91 then
    n ← r.[1];
    let start := 1 + Z.of_nat (length (ccl s)) in
    rc ← scan_class (length r) len (if n =? 94 then tail r else r) (ccl s);
    let '(r, cc) := (rc : list Z * list Z) in
    cc ← push len cc 0;
    Some (r, mk_cs (toks s ++ [if n =? 94 then INV_CHAR_CLASS start else CHAR_CLASS start]) cc (stack s) (groups s))
  else Some (r, add (CHAR c) s).

Fixpoint compile_loop (fuel : nat) (len : Z) (r : list Z) (s : compile_state) : option compile_state :=
  match fuel with
  | O => None
  | S fuel =>
      c ← head r;
      if (c =? 0) || negb (Z.of_nat (length (toks s)) + 1 <? len * 8 + 1 - 1) then Some s else
      rs ← compile_token len r s;
      let '(r, s) := (rs : list Z * compile_state) in
      let r := tail r in
      if len * 2 <=? 1 + Z.of_nat (length (ccl s)) + 1 then Some s else compile_loop fuel len r s
  end.

(** [None] in the result is -1. *)
Definition compile_single (pattern : list Z) : M (list bool) (option (regex_alt * Z)) :=
  let len := Z.of_nat (length pattern) in
  ok ← alloc; if negb ok then mret None else
  ok ← alloc; if negb ok then mret None else
  s ← liftO (compile_loop (S (length pattern)) len (pattern ++ [0]) (mk_cs [] [] [] 0));
  mret (Some (mk_alt (toks s ++ [UNUSED]) (ccl s), groups s)).

(** ** Lists of patterns *)

Record strlist := mk_list { items : list (list Z); cap : Z }.
Definition empty_list : strlist := mk_list [] 0.

Definition list_add (l : strlist) (s : list Z) : M (list bool) (option strlist) :=
  if cap l <=? Z.of_nat (length (items l)) then
    let nc := if cap l =? 0 then 4 else cap l * 2 in
    ok ← alloc; if negb ok then mret None else mret (Some (mk_list (items l ++ [s]) nc))
  else mret (Some (mk_list (items l ++ [s]) (cap l))).

(** ** Repetition ranges *)

(** Length of the rest of a class from inside it. *)
Fixpoint class_span (r : list Z) : nat :=
  match r with
  | [] => 0
  | c :: r' =>
      if c =? 93 then 1
      else if c =? 92 then match r' with _ :: r'' => 2 + class_span r'' | [] => 1 end
      else 1 + class_span r'
  end.
(** Length of the rest of a group from inside it. *)
Fixpoint group_span (depth : nat) (r : list Z) : nat :=
  match depth, r with
  | O, _ | _, [] => 0
  | _, c :: r' =>
      if c =? 92 then match r' with _ :: r'' => 2 + group_span depth r'' | [] => 1 end
      else if c =? 40 then 1 + group_span (S depth) r'
      else if c =? 41 then 1 + group_span (pred depth) r'
      else 1 + group_span depth r'
  end.
Definition item_len (r : list Z) : nat :=
  match r with
  | [] => 0
  | c :: r' =>
      if (c =? 92) && negb (bool_decide (r' = [])) then 2
      else if c =? 91 then 1 + class_span r'
      else if c =? 40 then 1 + group_span 1 r'
      else 1
  end.

Fixpoint read_int (r : list Z) (m : Z) : option (Z * list Z) :=
  match r with
  | c :: r' => if isdigit c then m ← int32 (m * 10); m ← int32 (m + (c - 48)); read_int r' m else Some (m, r)
  | [] => Some (m, r)
  end.
(** [m], [n] and the place after the range; [m] is -1 where there is none. *)
Definition range_of (r : list Z) : option (Z * Z * list Z) :=
  match r with
  | 123 :: r1 =>
      if isdigit (default 0 (head r1)) then
        mr ← read_int r1 0;
        let '(m, r2) := (mr : Z * list Z) in
        match r2 with
        | 44 :: r3 =>
            nr ← read_int r3 0;
            let '(n, r4) := (nr : Z * list Z) in
            match r4 with 125 :: r5 => Some (m, n, r5) | _ => Some (-1, n, r) end
        | _ => Some (-1, -1, r)
        end
      else Some (-1, -1, r)
  | _ => Some (-1, -1, r)
  end.

(** [memcpy(out + o, ...)] into [cap] bytes. *)
Definition emit (cap : Z) (out t : list Z) : option (list Z) :=
  if Z.of_nat (length out) + Z.of_nat (length t) <=? cap then Some (out ++ t) else None.

Fixpoint range_loop (fuel : nat) (r out : list Z) (cap : Z) : M (list bool) (option (list Z)) :=
  match fuel with
  | O => undef
  | S fuel =>
      match r with
      | [] => out ← liftO (emit cap out [0]); mret (Some (take (pred (length out)) out))
      | _ =>
          let ilen := item_len r in
          let item := take ilen r in
          mn ← liftO (range_of (drop ilen r));
          let '(m, n, r) := (mn : Z * Z * list Z) in
          let ranged := (0 <=? m) && (m <=? n) in
          let need := if ranged then u64 (Z.of_nat ilen * n + (n - m)) else Z.of_nat ilen in
          let full := cap <=? u64 (Z.of_nat (length out) + need + 1) in
          ok ← (if full then alloc else mret true);
          if negb ok then mret None else
          let cap := if full then u64 ((cap + need + 1) * 2) else cap in
          let text := if ranged then concat (replicate (Z.to_nat m) item) ++ concat (replicate (Z.to_nat (n - m)) (item ++ [63])) else item in
          out ← liftO (emit cap out text);
          range_loop fuel r out cap
      end
  end.
Definition expand_ranges (pat : list Z) : M (list bool) (option (list Z)) :=
  ok ← alloc; if negb ok then mret None else
  range_loop (S (length pat)) pat [] (Z.of_nat (length pat) * 4 + 1).

(** ** Alternation *)

(** The first loop of [expand_alts]: the segments between the bars outside groups and
    classes; [cur] is the text from [start] on.  [strndup] and [list_add] allocate. *)
Definition add_segment (seg : strlist) (s : list Z) : M (list bool) (option strlist) :=
  ok ← alloc; if negb ok then mret None else list_add seg s.
Fixpoint split_loop (r cur : list Z) (level : nat) (cls : bool) (seg : strlist) : M (list bool) (option (strlist * list Z)) :=
  match r with
  | [] => mret (Some (seg, cur))
  | c :: r' =>
      let other :=
        if cls then split_loop r' (cur ++ [c]) level (negb (c =? 93)) seg
        else if c =? 91 then split_loop r' (cur ++ [c]) level true seg
        else if c =? 40 then split_loop r' (cur ++ [c]) (S level) cls seg
        else if (c =? 41) && (0 <? level)%nat then split_loop r' (cur ++ [c]) (pred level) cls seg
        else if (c =? 124) && (level =? 0)%nat then
          seg ← add_segment seg cur;
          match seg with None => mret None | Some seg => split_loop r' [] level cls seg end
        else split_loop r' (cur ++ [c]) level cls seg in
      match r' with
      | n :: r'' => if c =? 92 then split_loop r'' (cur ++ [c; n]) level cls seg else other
      | [] => other
      end
  end.

(** Append a text to every pattern of the list; the result of [realloc] is not tested. *)
Fixpoint append_all (l : list (list Z)) (t : list Z) : M (list bool) (list (list Z)) :=
  match l with
  | [] => mret []
  | x :: l => ok ← alloc; if negb ok then undef else l ← append_all l t; mret ((x ++ t) :: l)
  end.
(** The combinations [x(y)]; the result of [malloc] is not tested. *)
Fixpoint combine_one (x : list Z) (sub : list (list Z)) (newl : strlist) : M (list bool) (option strlist) :=
  match sub with
  | [] => mret (Some newl)
  | y :: sub =>
      ok ← alloc; if negb ok then undef else
      newl ← list_add newl (x ++ [40] ++ y ++ [41]);
      match newl with None => mret None | Some newl => combine_one x sub newl end
  end.
Fixpoint combine (cur sub : list (list Z)) (newl : strlist) : M (list bool) (option strlist) :=
  match cur with
  | [] => mret (Some newl)
  | x :: cur =>
      newl ← combine_one x sub newl;
      match newl with None => mret None | Some newl => combine cur sub newl end
  end.
Fixpoint add_all (l : list (list Z)) (out : strlist) : M (list bool) (option strlist) :=
  match l with
  | [] => mret (Some out)
  | x :: l => out ← list_add out x; match out with None => mret None | Some out => add_all l out end
  end.

(** [strndup(pat + i + 1, j - i - 2)]: the inside of the group whose rest, after the
    parenthesis, has [n] characters; a group that is only its parenthesis gives a
    length of -1, that is no limit. *)
Definition group_inside (r : list Z) (n : nat) : list Z := match n with O => r | S n => take n r end.

Section expand.
Variable expand : list Z → strlist → M (list bool) (option strlist).
Fixpoint each_segment (segs : list (list Z)) (out : strlist) : M (list bool) (option strlist) :=
  match segs with
  | [] => mret (Some out)
  | s :: segs => out ← expand s out; match out with None => mret None | Some out => each_segment segs out end
  end.
(** The second loop of [expand_alts], over a pattern without a bar at its top. *)
Fixpoint group_loop (fuel : nat) (r : list Z) (cur : strlist) : M (list bool) (option strlist) :=
  match fuel with
  | O => undef
  | S fuel =>
      match r with
      | [] => mret (Some cur)
      | c :: r' =>
          if (c =? 92) && negb (bool_decide (r' = [])) then
            l ← append_all (items cur) (take 2 r); group_loop fuel (drop 2 r) (mk_list l (cap cur))
          else if c =? 91 then
            let n := S (class_span r') in
            l ← append_all (items cur) (take n r); group_loop fuel (drop n r) (mk_list l (cap cur))
          else if c =? 40 then
            let n := group_span 1 r' in
            ok ← alloc; if negb ok then mret None else
            sub ← expand (group_inside r' n) empty_list;
            match sub with
            | None => mret None
            | Some sub =>
                newl ← combine (items cur) (items sub) empty_list;
                match newl with None => mret None | Some newl => group_loop fuel (drop n r') newl end
            end
          else l ← append_all (items cur) [c]; group_loop fuel r' (mk_list l (cap cur))
      end
  end.
End expand.

(** The list [strdup("")] is put into may also refuse it; when [strdup] itself fails a
    null pointer is put there and read later. *)
Fixpoint expand_alts (fuel : nat) (pat : list Z) (out : strlist) : M (list bool) (option strlist) :=
  match fuel with
  | O => undef
  | S fuel =>
      sc ← split_loop pat [] 0 false empty_list;
      match (sc : option (strlist * list Z)) with
      | None => mret None
      | Some (seg, cur) =>
          seg ← add_segment seg cur;
          match seg with
          | None => mret None
          | Some seg =>
              if (1 <? length (items seg))%nat then each_segment (expand_alts fuel) (items seg) out
              else
                ok ← alloc; if negb ok then undef else
                cur ← list_add empty_list [];
                match cur with
                | None => mret None
                | Some cur =>
                    cur ← group_loop (expand_alts fuel) (S (length pat)) pat cur;
                    match cur with None => mret None | Some cur => add_all (items cur) out end
                end
          end
      end
  end.

(** ** Characters *)

Definition matchdigit (c : Z) : bool := isdigit c.
Definition matchalpha (c : Z) : bool := isalnum c || (c =? 95).
Definition matchspace (c : Z) : bool := isspace c.
Definition matchdot (c : Z) : bool := negb (c =? 10) && negb (c =? 13).
Definition ismeta (c : Z) : bool := (c =? 115) || (c =? 83) || (c =? 119) || (c =? 87) || (c =? 100) || (c =? 68).

Definition posix_classes : list (list Z * (Z → bool)) :=
  [([97; 108; 110; 117; 109], isalnum); ([97; 108; 112; 104; 97], isalpha); ([100; 105; 103; 105; 116], isdigit);
   ([108; 111; 119; 101; 114], islower); ([117; 112; 112; 101; 114], isupper); ([115; 112; 97; 99; 101], isspace);
   ([120; 100; 105; 103; 105; 116], isxdigit); ([112; 114; 105; 110; 116], isprint); ([103; 114; 97; 112; 104], isgraph);
   ([99; 110; 116; 114; 108], iscntrl); ([112; 117; 110; 99; 116], ispunct); ([98; 108; 97; 110; 107], λ c, (c =? 32) || (c =? 9))].
Definition match_posix_class (c : Z) (name : list Z) : bool :=
  match list_find (λ p, p.1 = name) posix_classes with Some (_, p) => p.2 c | None => false end.

Definition matchrange (c : Z) (str : list Z) : option bool :=
  if c =? 45 then Some false else
  s0 ← str.[0]; if s0 =? 0 then Some false else
  s1 ← str.[1]; if negb (s1 =? 45) then Some false else
  s2 ← str.[2]; if s2 =? 0 then Some false else
  Some ((s8 s0 <=? s8 c) && (s8 c <=? s8 s2)).
Definition matchmeta (c s0 : Z) : bool :=
  if s0 =? 100 then matchdigit c else if s0 =? 68 then negb (matchdigit c)
  else if s0 =? 119 then matchalpha c else if s0 =? 87 then negb (matchalpha c)
  else if s0 =? 115 then matchspace c else if s0 =? 83 then negb (matchspace c)
  else c =? s0.

(** [prev] is [str[-1]], [None] when that byte was never written.  [continue] in the
    loop of the code goes to its condition, which steps over a character. *)
Fixpoint matchclass (fuel : nat) (c : Z) (prev : option Z) (str : list Z) : option bool :=
  match fuel with
  | O => None
  | S fuel =>
      let step str := s0 ← head str; if s0 =? 0 then Some false else matchclass fuel c (Some s0) (tail str) in
      s0 ← str.[0];
      name ← (if s0 =? 91 then s1 ← str.[1]; if s1 =? 58 then strstr (drop 2 str) [58; 93; 0] else Some None else Some None);
      match name with
      | Some n =>
          if match_posix_class c (take (Z.to_nat n) (drop 2 str)) then Some true
          else step (drop (4 + Z.to_nat n) str)
      | None =>
          r ← matchrange c str;
          if r : bool then Some true
          else if s0 =? 92 then
            s1 ← str.[1];
            if matchmeta c s1 || ((c =? s1) && negb (ismeta c)) then Some true else step (tail str)
          else if c =? s0 then
            if c =? 45 then p ← prev; if p =? 0 then Some true else s1 ← str.[1]; Some (s1 =? 0)
            else Some true
          else step str
      end
  end.

(** The class at index [k] of the array. *)
Definition match_ccl (cc : list Z) (c k : Z) : option bool :=
  matchclass (S (length cc)) c (if k =? 1 then None else cc.[k - 2]) (drop (Z.to_nat (k - 1)) cc).

(** [matchone]: [u.ch] of the other tokens was never written. *)
Definition matchone (cc : list Z) (t : token) (c : Z) : option bool :=
  match t with
  | DOT => Some (matchdot c)
  | CHAR_CLASS k => match_ccl cc c k
  | INV_CHAR_CLASS k => negb <$> match_ccl cc c k
  | DIGIT => Some (matchdigit c)
  | NOT_DIGIT => Some (negb (matchdigit c))
  | ALPHA => Some (matchalpha c)
  | NOT_ALPHA => Some (negb (matchalpha c))
  | SPACE => Some (matchspace c)
  | NOT_SPACE => Some (negb (matchspace c))
  | CHAR ch => Some (ch =? c)
  | _ => None
  end.

(** ** The matcher *)

(** The number of characters from [r] on that the token matches: the first loop of
    [matchstar] and [matchplus]. *)
Fixpoint run (cc : list Z) (t : token) (r : list Z) : option nat :=
  match r with
  | [] => None
  | c :: r => if c =? 0 then Some O else m ← matchone cc t c; if m : bool then n ← run cc t r; Some (S n) else Some O
  end.

Definition captures : Type := option (list (Z * Z)).
Definition set_so (caps : captures) (g i : Z) : option captures :=
  match caps with None => Some None | Some l => e ← l.[g]; l ← l.[g <- (i, snd e)]; Some (Some l) end.
Definition set_eo (caps : captures) (g i : Z) : option captures :=
  match caps with None => Some None | Some l => e ← l.[g]; l ← l.[g <- (fst e, i)]; Some (Some l) end.

Section matcher.
Variable cc : list Z.
Variable string : list Z.

(** The result, [*matchlen] and the captures. *)
Definition result : Type := (bool * Z * captures)%type.

(** The second loops of [matchstar] and [matchplus], from [text] down over [k]
    characters, and [matchquestion]; [cont] is [matchpattern] on the rest. *)
Fixpoint star_loop (cont : Z → Z → captures → option result) (k : nat) (text ml : Z) (caps : captures) : option result :=
  r ← cont text ml caps;
  match r with
  | (true, _, _) => Some r
  | (false, ml, caps) =>
      match k with O => Some (false, ml - 1, caps) | S k => star_loop cont k (text - 1) (ml - 1) caps end
  end.
Fixpoint plus_loop (cont : Z → Z → captures → option result) (k : nat) (text ml : Z) (caps : captures) : option result :=
  match k with
  | O => Some (false, ml, caps)
  | S k =>
      r ← cont text ml caps;
      match r with
      | (true, _, _) => Some r
      | (false, ml, caps) => plus_loop cont k (text - 1) (ml - 1) caps
      end
  end.
Definition matchstar (cont : Z → Z → captures → option result) (p : token) (text ml : Z) (caps : captures) : option result :=
  n ← run cc p (drop (Z.to_nat text) string);
  r ← star_loop cont n (text + Z.of_nat n) (ml + Z.of_nat n) caps;
  match r with (true, _, _) => Some r | (false, _, caps) => Some (false, ml, caps) end.
Definition matchplus (cont : Z → Z → captures → option result) (p : token) (text ml : Z) (caps : captures) : option result :=
  n ← run cc p (drop (Z.to_nat text) string);
  plus_loop cont n (text + Z.of_nat n) (ml + Z.of_nat n) caps.
Definition matchquestion (cont : Z → Z → captures → option result) (p : token) (text ml : Z) (caps : captures) : option result :=
  match p with
  | UNUSED => Some (true, ml, caps)
  | _ =>
      r ← cont text ml caps;
      match r with
      | (true, _, _) => Some r
      | (false, ml, caps) =>
          c ← string.[text];
          m ← (if c =? 0 then Some false else matchone cc p c);
          if m : bool then
            r ← cont (text + 1) ml caps;
            match r with (true, ml, caps) => Some (true, ml + 1, caps) | _ => Some r end
          else Some (false, ml, caps)
      end
  end.

(** The loop of [matchpattern], [pre] being [*matchlen] when it was called. *)
Fixpoint matchloop (pat : list token) (pre text ml : Z) (caps : captures) : option result :=
  match pat with
  | [] => None
  | p :: pat1 =>
      let one :=
        c ← string.[text];
        m ← (if c =? 0 then Some false else matchone cc p c);
        if m : bool then matchloop pat1 pre (text + 1) (ml + 1) caps else Some (false, pre, caps) in
      let other :=
        match pat1 with
        | [] => None
        | p1 :: pat2 =>
            match p1 with
            | UNSET => None
            | UNUSED => if bool_decide (p = END) then c ← string.[text]; Some (c =? 0, ml, caps) else one
            | QUESTION => matchquestion (λ t m, matchloop pat2 m t m) p text ml caps
            | STAR => matchstar (λ t m, matchloop pat2 m t m) p text ml caps
            | PLUS => matchplus (λ t m, matchloop pat2 m t m) p text ml caps
            | _ => one
            end
        end in
      match p with
      | UNSET => None
      | CAP_OPEN g => caps ← set_so caps g text; matchloop pat1 pre text ml caps
      | CAP_CLOSE g => caps ← set_eo caps g text; matchloop pat1 pre text ml caps
      | BACKREF id =>
          match caps with
          | None => Some (false, pre, caps)
          | Some l =>
              e ← l.[id];
              let '(so, eo) := (e : Z * Z) in
              if (so <? 0) || (eo <? 0) then Some (false, pre, caps) else
              let blen := eo - so in
              d ← vstrncmp (drop (Z.to_nat so) string) (drop (Z.to_nat text) string) (u64 blen);
              if negb (d =? 0) then Some (false, pre, caps) else matchloop pat1 pre (text + blen) (ml + blen) caps
          end
      | UNUSED => Some (true, ml, caps)
      | _ => other
      end
  end.
Definition matchpattern (pat : list token) (text ml : Z) (caps : captures) : option result := matchloop pat ml text ml caps.

(** [memset(caps, -1, ...)] *)
Definition clear_caps (nsub : Z) (caps : captures) : captures :=
  match caps with None => None | Some _ => Some (replicate (Z.to_nat (nsub + 1)) (-1, -1)) end.
(** The loop over the starts: the position and the length. *)
Fixpoint search (r : list Z) (pat : list token) (nsub idx : Z) (caps : captures) : option (option (Z * Z) * captures) :=
  m ← matchpattern pat idx 0 (clear_caps nsub caps);
  match m with
  | (true, l, caps) => Some (Some (idx, l), caps)
  | (false, _, caps) =>
      match r with
      | [] => None
      | c :: r => if c =? 0 then Some (None, caps) else search r pat nsub (idx + 1) caps
      end
  end.
End matcher.

Fixpoint alts_loop (alts : list regex_alt) (string : list Z) (nsub len : Z) (caps : captures) : option (option (Z * Z) * captures) :=
  match alts with
  | [] => Some (None, caps)
  | a :: alts =>
      match alt_pat a with
      | [] | UNSET :: _ => None
      | BEGIN :: pat =>
          m ← matchpattern (alt_ccl a) string pat 0 len caps;
          match m with
          | (true, len, caps) => Some (Some (0, len), caps)
          | (false, len, caps) => alts_loop alts string nsub len caps
          end
      | pat =>
          m ← search (alt_ccl a) string string pat nsub 0 caps;
          match m with
          | (Some pl, caps) => Some (Some pl, caps)
          | (None, caps) => alts_loop alts string nsub len caps
          end
      end
  end.

(** ** The interface *)

Fixpoint compile_alts (alts : list (list Z)) (groups : Z) : M (list bool) (option (list regex_alt * Z)) :=
  match alts with
  | [] => mret (Some ([], groups))
  | a :: alts =>
      r ← compile_single a;
      match r with
      | None => mret None
      | Some (alt, groups) =>
          rest ← compile_alts alts groups;
          match rest with None => mret None | Some (l, groups) => mret (Some (alt :: l, groups)) end
      end
  end.

Definition regcomp (preg : regex_t) (pattern : list Z) : M (list bool) (Z * regex_t) :=
  expanded ← expand_ranges pattern;
  match expanded with
  | None => mret (-1, preg)
  | Some expanded =>
      alts ← expand_alts (S (length expanded)) expanded empty_list;
      match alts with
      | None => mret (-1, preg)
      | Some alts =>
          if (length (items alts) =? 0)%nat then mret (-1, preg) else
          ok ← alloc; if negb ok then mret (-1, preg) else
          ok ← alloc; if negb ok then mret (-1, preg) else
          r ← compile_alts (items alts) 0;
          match r with
          | None => mret (-1, preg)
          | Some (l, groups) => mret (0, mk_regex (Some l) groups)
          end
      end
  end.

Definition REG_NOMATCH : Z := 1.

(** [pmatch[i] = caps[i]] for [1 <= i <= re_nsub] and [i < nmatch]. *)
Fixpoint copy_caps (n : nat) (i : Z) (caps : captures) (pmatch : list (Z * Z)) : option (list (Z * Z)) :=
  match n with
  | O => Some pmatch
  | S n => l ← caps; e ← l.[i]; pmatch ← pmatch.[i <- e]; copy_caps n (i + 1) caps pmatch
  end.
(** [pmatch] has [nmatch] entries. *)
Definition regexec (preg : regex_t) (string : list Z) (pmatch : list (Z * Z)) : M (list bool) (Z * list (Z * Z)) :=
  match impl preg with
  | None => mret (REG_NOMATCH, pmatch)
  | Some alts =>
      ok ← (if re_nsub preg =? 0 then mret false else alloc);
      let caps := if ok : bool then Some (replicate (Z.to_nat (re_nsub preg + 1)) (-1, -1)) else None in
      r ← liftO (alts_loop alts string (re_nsub preg) 0 caps);
      match (r : option (Z * Z) * captures) with
      | (None, _) => mret (REG_NOMATCH, pmatch)
      | (Some (pos, len), caps) =>
          match pmatch with
          | [] => mret (0, pmatch)
          | _ =>
              pmatch ← liftO (pmatch.[0 <- (pos, pos + len)]);
              pmatch ← liftO (copy_caps (Z.to_nat (Z.min (re_nsub preg) (Z.of_nat (length pmatch) - 1))) 1 caps pmatch);
              mret (0, pmatch)
          end
      end
  end.

Definition regfree (preg : regex_t) : regex_t := match impl preg with None => preg | Some _ => mk_regex None (re_nsub preg) end.
