(* ===== verification/LibRegexMatch.v ===== *)
(** * What the matcher of regex.c finds

    A pattern of tokens is a sequence of items (a token for one character, with a
    quantifier) and of marks that open and close groups.  [accepts] says which part of
    a text such a sequence matches, with the places of the marks.  [matchpattern]
    finds a match if and only if there is one, and records the groups of the match it
    finds; the length it reports is right for patterns with at most one quantifier.
    [regexec] takes the first alternative that matches anywhere, at the first place. *)

From S2P Require Import Prelude LibBase LibCtype LibString LibRegex.

Local Open Scope Z_scope.

(** ** Sequences *)

Inductive quant : Type := Once | Maybe | Many | Again.
#[export] Instance quant_eq_dec : EqDecision quant.
Proof. solve_decision. Defined.
Inductive elem : Type := Item (t : token) (q : quant) | Open (g : Z) | Close (g : Z).

Definition quant_tokens (q : quant) : list token :=
  match q with Once => [] | Maybe => [QUESTION] | Many => [STAR] | Again => [PLUS] end.
Definition elem_tokens (e : elem) : list token :=
  match e with Item t q => t :: quant_tokens q | Open g => [CAP_OPEN g] | Close g => [CAP_CLOSE g] end.
Definition seq_tokens (es : list elem) : list token := concat (map elem_tokens es).
(** The end of the array: an anchor or not. *)
Definition ending (eol : bool) : list token := if eol then [END; UNUSED] else [UNUSED].

(** A token for one character. *)
Definition single (t : token) : bool :=
  match t with
  | DOT | CHAR _ | CHAR_CLASS _ | INV_CHAR_CLASS _ | DIGIT | NOT_DIGIT | ALPHA | NOT_ALPHA | SPACE | NOT_SPACE => true
  | _ => false
  end.
Definition allowed (q : quant) (n : Z) : Prop :=
  match q with Once => n = 1 | Maybe => 0 <= n <= 1 | Many => 0 <= n | Again => 1 <= n end.

(** A mark that was passed: the group, whether it opens, the place. *)
Definition event : Type := (Z * bool * Z)%type.
Definition play1 (e : event) (l : list (Z * Z)) : list (Z * Z) :=
  let '(g, open, i) := e in
  match l !! Z.to_nat g with Some (so, eo) => <[Z.to_nat g := if open : bool then (i, eo) else (so, i)]> l | None => l end.
Definition play (ev : list event) (caps : captures) : captures :=
  match caps with None => None | Some l => Some (foldl (λ l e, play1 e l) l ev) end.

Section matching.
Variable s : list Z.
Variable sat : token → Z → bool.

Inductive accepts : list elem → Z → Z → list event → Prop :=
| acc_nil i : accepts [] i i []
| acc_item t q n es i j ev :
    allowed q n → (∀ k, i <= k < i + n → ∃ c, s.[k] = Some c ∧ sat t c = true) → accepts es (i + n) j ev → accepts (Item t q :: es) i j ev
| acc_open g es i j ev : accepts es i j ev → accepts (Open g :: es) i j ((g, true, i) :: ev)
| acc_close g es i j ev : accepts es i j ev → accepts (Close g :: es) i j ((g, false, i) :: ev).

(** The sequence matches from [i], up to the end when it is anchored there. *)
Definition found (es : list elem) (eol : bool) (i : Z) (ev : list event) : Prop :=
  ∃ j, accepts es i j ev ∧ (eol = true → j = Z.of_nat (length s)).

End matching.

(** ** Captures *)

(** Both are absent, or both have the same number of entries. *)
Definition same_shape (a b : captures) : Prop :=
  match a, b with None, None => True | Some l, Some l' => length l = length l' | _, _ => False end.
#[export] Instance same_shape_equiv : Equivalence same_shape.
Proof.
  split.
  - intros [l|]; done.
  - intros [l|] [l'|]; cbn; done.
  - intros [l|] [l'|] [l''|]; cbn; try done. congruence.
Qed.

(** They differ at most in the starts and ends that the marks of a sequence set. *)
Definition agree (es : list elem) (a b : captures) : Prop :=
  match a, b with
  | None, None => True
  | Some l, Some l' => length l = length l' ∧ ∀ k,
      (Open (Z.of_nat k) ∉ es → fst <$> l !! k = fst <$> l' !! k) ∧ (Close (Z.of_nat k) ∉ es → snd <$> l !! k = snd <$> l' !! k)
  | _, _ => False
  end.
#[export] Instance agree_equiv es : Equivalence (agree es).
Proof.
  split.
  - intros [l|]; done.
  - intros [l|] [l'|]; cbn; try done. intros [-> H]. split; [done|]. intros k. destruct (H k) as [H1 H2]. split; intros ?; symmetry; auto.
  - intros [l|] [l'|] [l''|]; cbn; try done. intros [-> H] [-> H']. split; [done|]. intros k. destruct (H k) as [H1 H2], (H' k) as [H3 H4].
    split; intros Hk; [by rewrite H1, H3|by rewrite H2, H4].
Qed.
Lemma agree_shape es a b : agree es a b → same_shape a b.
Proof. destruct a as [l|], b as [l'|]; cbn; try done. by intros [? _]. Qed.
Lemma agree_cons e es a b : agree es a b → agree (e :: es) a b.
Proof.
  destruct a as [l|], b as [l'|]; cbn; try done. intros [? H]. split; [done|]. intros k. destruct (H k) as [H1 H2].
  split; intros Hk; [apply H1|apply H2]; intros Hin; apply Hk; by constructor.
Qed.

(** Every group of the sequence has an entry. *)
Definition room (es : list elem) (caps : captures) : Prop :=
  Forall (λ e, match e, caps with Open g, Some l | Close g, Some l => 0 <= g < Z.of_nat (length l) | _, _ => True end) es.

Lemma room_shape es a b : same_shape a b → room es a → room es b.
Proof.
  unfold room. intros H Hr. eapply Forall_impl; [exact Hr|]. intros [t q|g|g]; [done|..]; destruct a as [l|], b as [l'|]; cbn in *; try done; lia.
Qed.

Lemma play1_length e l : length (play1 e l) = length l.
Proof. destruct e as [[g o] i]. unfold play1. destruct (l !! Z.to_nat g) as [[so eo]|]; [apply length_insert|done]. Qed.
Lemma play_shape ev caps : same_shape caps (play ev caps).
Proof.
  destruct caps as [l|]; [|done]. cbn. revert l. induction ev as [|e ev IH]; intros l; [done|]. cbn. rewrite <- IH. symmetry. apply play1_length.
Qed.

Lemma upd_in {A} (l : list A) g x : 0 <= g < Z.of_nat (length l) → l.[g <- x] = Some (<[Z.to_nat g := x]> l).
Proof. intros Hg. unfold upd. by rewrite (proj2 (Z.leb_le 0 g)), (proj2 (Z.ltb_lt g (Z.of_nat (length l)))) by lia. Qed.
Lemma idx_in {A} (l : list A) g : 0 <= g < Z.of_nat (length l) → ∃ x, l.[g] = Some x ∧ l !! Z.to_nat g = Some x.
Proof.
  intros Hg. unfold idx. rewrite (proj2 (Z.ltb_ge g 0)) by lia. destruct (l !! Z.to_nat g) as [x|] eqn:E; [by exists x|].
  apply lookup_ge_None in E. lia.
Qed.

Lemma set_so_play g es i caps : room (Open g :: es) caps → set_so caps g i = Some (play [(g, true, i)] caps).
Proof.
  intros H. apply Forall_cons in H as [Hg _]. destruct caps as [l|]; [|done]. cbn in *. destruct (idx_in l g Hg) as ([so eo] & E1 & E2).
  rewrite E1, E2. cbn [mbind option_bind snd]. by rewrite upd_in.
Qed.
Lemma set_eo_play g es i caps : room (Close g :: es) caps → set_eo caps g i = Some (play [(g, false, i)] caps).
Proof.
  intros H. apply Forall_cons in H as [Hg _]. destruct caps as [l|]; [|done]. cbn in *. destruct (idx_in l g Hg) as ([so eo] & E1 & E2).
  rewrite E1, E2. cbn [mbind option_bind fst]. by rewrite upd_in.
Qed.
Lemma play_cons e ev caps : play (e :: ev) caps = play ev (play [e] caps).
Proof. by destruct caps. Qed.

(** The mark of an event. *)
Definition mark (g : Z) (open : bool) : elem := if open then Open g else Close g.

Lemma lookup_play1 g open i l k : 0 <= g → fst <$> play1 (g, open, i) l !! k = (if decide (open = true ∧ k = Z.to_nat g ∧ (k < length l)%nat) then Some i else fst <$> l !! k) ∧
  snd <$> play1 (g, open, i) l !! k = (if decide (open = false ∧ k = Z.to_nat g ∧ (k < length l)%nat) then Some i else snd <$> l !! k).
Proof.
  intros Hg. unfold play1. destruct (l !! Z.to_nat g) as [[so eo]|] eqn:E.
  - apply lookup_lt_Some in E as Hlt. destruct (decide (k = Z.to_nat g)) as [-> |Hne].
    + rewrite list_lookup_insert_eq by done. destruct open; cbn; split; try (rewrite decide_True by done); try (rewrite decide_False by naive_solver); rewrite ?E; done.
    + rewrite list_lookup_insert_ne by done. split; rewrite decide_False by naive_solver; done.
  - apply lookup_ge_None in E. split; rewrite decide_False by (intros (_ & -> & ?); lia); done.
Qed.

Lemma agree_play g open i es caps : 0 <= g → agree (mark g open :: es) caps (play [(g, open, i)] caps).
Proof.
  intros Hg. destruct caps as [l|]; [|done]. cbn [play foldl]. split; [by rewrite play1_length|]. intros k. destruct (lookup_play1 g open i l k Hg) as [-> ->].
  split; intros Hk; (rewrite decide_False; [done|]); intros (-> & -> & _); apply Hk; cbn; rewrite Z2Nat.id by done; constructor.
Qed.

(** A mark that the rest of the sequence does not set again stays as it was set. *)
Lemma play_idem g open i es caps st : 0 <= g → mark g open ∉ es → agree es (play [(g, open, i)] caps) st → play [(g, open, i)] st = st.
Proof.
  intros Hg Hm Hag. destruct caps as [l|], st as [l'|]; try done. cbn [play foldl] in *. f_equal. destruct Hag as [Hlen Hag]. rewrite play1_length in Hlen.
  unfold play1 at 1. destruct (l' !! Z.to_nat g) as [[so eo]|] eqn:E; [|done]. apply list_insert_id. rewrite E. apply lookup_lt_Some in E as Hlt.
  destruct (Hag (Z.to_nat g)) as [H1 H2]. destruct (lookup_play1 g open i l (Z.to_nat g) Hg) as [E1 E2]. rewrite Z2Nat.id in H1, H2 by done.
  destruct open; cbn [mark] in Hm.
  - rewrite decide_True in E1 by (split_and!; [done..|lia]). rewrite E1, E in H1. specialize (H1 Hm). by injection H1 as ->.
  - rewrite decide_True in E2 by (split_and!; [done..|lia]). rewrite E2, E in H2. specialize (H2 Hm). by injection H2 as ->.
Qed.

Definition is_mark (e : elem) : bool := match e with Item _ _ => false | _ => true end.
Fixpoint distinct (es : list elem) : Prop :=
  match es with [] => True | e :: es => (is_mark e = true → e ∉ es) ∧ distinct es end.

(** ** The matcher *)

Section matcher.
Variables s rest cc : list Z.
Variable sat : token → Z → bool.
Let str : list Z := s ++ 0 :: rest.
Let len : Z := Z.of_nat (length s).
Hypothesis Hs : Forall (λ c, c ≠ 0) s.

(** The items of the sequence are tokens for one character, decided by [sat]. *)
Definition decided (es : list elem) : Prop :=
  Forall (λ e, match e with Item t _ => single t = true ∧ ∀ c, c ∈ s → matchone cc t c = Some (sat t c) | _ => True end) es.

(** A call of the matcher is right: it succeeds when there is a match, records the
    marks of one, and changes the captures otherwise only where the marks of [es] do. *)
Definition right (es : list elem) (P : list event → Prop) (caps : captures) (r : option result) : Prop :=
  match r with
  | Some (true, _, caps') => ∃ ev stale, P ev ∧ agree es caps stale ∧ caps' = play ev stale
  | Some (false, _, caps') => (∀ ev, ¬ P ev) ∧ agree es caps caps'
  | None => False
  end.

Lemma right_agree es P caps stale r : agree es caps stale → right es P stale r → right es P caps r.
Proof.
  intros H. destruct r as [[[[] ml] c]|]; [|intros [? ?]; split; [done|by etrans]|done].
  intros (ev & st & ? & ? & ?). exists ev, st. split; [done|]. split; [by etrans|done].
Qed.

Lemma right_iff es P Q caps r : (∀ ev, P ev ↔ Q ev) → right es P caps r → right es Q caps r.
Proof.
  intros H. destruct r as [[[[] ml] c]|]; [|intros [Hn ?]; split; [by intros ev ?%H%Hn|done]|done].
  intros (ev & st & ?%H & ? & ?). by exists ev, st.
Qed.

Lemma right_cons e es P caps r : right es P caps r → right (e :: es) P caps r.
Proof.
  destruct r as [[[[] ml] c]|]; [|intros [? ?]; split; [done|by apply agree_cons]|done].
  intros (ev & st & ? & ? & ?). exists ev, st. split; [done|]. split; [by apply agree_cons|done].
Qed.

(** The character at a place of the text. *)
Lemma str_char i : 0 <= i <= len → ∃ c, str.[i] = Some c ∧ (i < len → s.[i] = Some c ∧ c ≠ 0 ∧ c ∈ s) ∧ (i = len → c = 0).
Proof.
  intros Hi. unfold str, len in *. destruct (decide (i < Z.of_nat (length s))) as [Hlt|Hge].
  - destruct (idx_in s i ltac:(lia)) as (c & E1 & E2). exists c. split; [|split; [|lia]].
    + unfold idx in *. rewrite (proj2 (Z.ltb_ge i 0)) by lia. by apply lookup_app_l_Some.
    + intros _. split; [done|]. split; [by eapply (Forall_lookup_1 (λ c, c ≠ 0))|by eapply list_elem_of_lookup_2].
  - replace i with (Z.of_nat (length s)) by lia. exists 0. split; [by rewrite idx_app|]. split; [lia|done].
Qed.

Lemma drop_str i : 0 <= i <= len → ∃ c, str.[i] = Some c ∧ drop (Z.to_nat i) str = c :: drop (Z.to_nat (i + 1)) str.
Proof.
  intros Hi. destruct (str_char i Hi) as (c & E & _). exists c. split; [done|]. unfold idx in E. rewrite (proj2 (Z.ltb_ge i 0)) in E by lia.
  rewrite (drop_S _ _ _ E). do 2 f_equal. lia.
Qed.

Section item.
Variable t : token.
Hypothesis Ht : ∀ c, c ∈ s → matchone cc t c = Some (sat t c).
(** The token matches the character at [k]. *)
Definition sat_at (k : Z) : Prop := ∃ c, s.[k] = Some c ∧ sat t c = true.

Lemma run_spec i : 0 <= i <= len → ∃ n, run cc t (drop (Z.to_nat i) str) = Some n ∧ i + Z.of_nat n <= len ∧
  ∀ m, 0 <= m → (∀ k, i <= k < i + m → sat_at k) ↔ m <= Z.of_nat n.
Proof.
  remember (Z.to_nat (len - i)) as d eqn:Hd. revert i Hd. induction d as [|d IH]; intros i Hd Hi.
  - destruct (drop_str i Hi) as (c & Ec & ->). destruct (str_char i Hi) as (c' & Ec' & _ & Hz). simplify_eq. rewrite Hz by lia. cbn [run].
    rewrite Z.eqb_refl. exists O. split; [done|]. split; [lia|]. intros m Hm. split; [|lia]. intros H. destruct (decide (m = 0)) as [|Hne]; [lia|].
    destruct (H i ltac:(lia)) as (c0 & E0 & _). rewrite idx_None in E0 by (unfold len in *; lia). done.
  - destruct (drop_str i Hi) as (c & Ec & ->). destruct (str_char i Hi) as (c' & Ec' & Hc & _). simplify_eq. destruct (Hc ltac:(lia)) as (Es & Hnz & Hin).
    cbn [run]. rewrite (proj2 (Z.eqb_neq c 0)), Ht by done. cbn [mbind option_bind]. destruct (sat t c) eqn:Esat.
    + destruct (IH (i + 1)) as (n & En & Hn & Hmax); [lia|lia|]. rewrite En. cbn [mbind option_bind]. exists (S n). split; [done|]. split; [lia|].
      intros m Hm. destruct (decide (m = 0)) as [-> |Hne]; [split; intros; [lia|lia]|]. rewrite <- (Z.sub_add 1 m), Nat2Z.inj_succ. specialize (Hmax (m - 1) ltac:(lia)).
      split; [intros H; apply Zplus_le_compat_r, Hmax; intros k Hk; apply H; lia|]. intros Hle k Hk. destruct (decide (k = i)) as [-> |]; [by exists c|].
      apply Hmax; lia.
    + exists O. split; [done|]. split; [lia|]. intros m Hm. split; [|lia]. intros H. destruct (decide (m = 0)) as [|Hne]; [lia|].
      destruct (H i ltac:(lia)) as (c0 & E0 & E1). congruence.
Qed.

(** The test of one character. *)
Definition test (i : Z) : option bool := c ← str.[i]; if c =? 0 then Some false else matchone cc t c.
Lemma matchquestion_eq cont i ml caps : single t = true →
  matchquestion cc str cont t i ml caps =
    (r ← cont i ml caps;
     match r with
     | (true, _, _) => Some r
     | (false, ml, caps) =>
         m ← test i;
         if m : bool then r ← cont (i + 1) ml caps; match r with (true, ml, caps) => Some (true, ml + 1, caps) | _ => Some r end
         else Some (false, ml, caps)
     end).
Proof.
  intros Ht'. unfold matchquestion, test. destruct t; try done; destruct (cont i ml caps) as [[[[] ?] ?]|]; try done; cbn [mbind option_bind]; by destruct (str.[i]).
Qed.
Lemma test_spec i : 0 <= i <= len → ∃ b, test i = Some b ∧ (b = true ↔ sat_at i).
Proof.
  intros Hi. unfold test, sat_at. destruct (str_char i Hi) as (c & Ec & Hc & Hz). rewrite Ec. cbn [mbind option_bind]. destruct (Z.eqb_spec c 0) as [-> |Hnz].
  - exists false. split; [done|]. split; [done|]. intros (c & E & _). destruct (decide (i < len)) as [Hlt|]; [by destruct (Hc Hlt) as (_ & ? & _)|].
    rewrite idx_None in E by (unfold len in *; lia). done.
  - destruct (Hc ltac:(destruct (decide (i = len)); [by apply Hz in e|lia])) as (Es & _ & Hin). rewrite Ht by done. exists (sat t c). split; [done|].
    rewrite Es. split; [by exists c|]. intros (c' & [= <-] & ?). done.
Qed.

Section continuation.
Variable es : list elem.
Variable Q : Z → list event → Prop.
Variable cont : Z → Z → captures → option result.
Variable caps0 : captures.
Hypothesis Hcont : ∀ i ml caps, 0 <= i <= len → same_shape caps0 caps → right es (Q i) caps (cont i ml caps).

Lemma star_loop_spec k i ml caps : Z.of_nat k <= i <= len → same_shape caps0 caps →
  right es (λ ev, ∃ d, 0 <= d <= Z.of_nat k ∧ Q (i - d) ev) caps (star_loop cont k i ml caps).
Proof.
  revert i ml caps. induction k as [|k IH]; intros i ml caps Hi Hcaps; cbn [star_loop]; pose proof (Hcont i ml caps ltac:(lia) Hcaps) as Hr;
    destruct (cont i ml caps) as [[[[] ml1] caps1]|]; try done; cbn [mbind option_bind].
  - destruct Hr as (ev & st & HQ & ? & ?). exists ev, st. split; [|done]. exists 0. split; [lia|]. by rewrite Z.sub_0_r.
  - destruct Hr as [Hn Hsh]. split; [|done]. intros ev (d & Hd & HQ). apply (Hn ev). replace d with 0 in HQ by lia. by rewrite Z.sub_0_r in HQ.
  - destruct Hr as (ev & st & HQ & ? & ?). exists ev, st. split; [|done]. exists 0. split; [lia|]. by rewrite Z.sub_0_r.
  - destruct Hr as [Hn Hsh]. apply (right_agree _ _ _ caps1); [done|]. eapply right_iff; [|apply IH; [lia|etrans; [done|by eapply agree_shape]]]. intros ev. split.
    + intros (d & Hd & HQ). exists (d + 1). split; [lia|]. by replace (i - (d + 1)) with (i - 1 - d) by lia.
    + intros (d & Hd & HQ). destruct (decide (d = 0)) as [-> |]; [rewrite Z.sub_0_r in HQ; by apply Hn in HQ|].
      exists (d - 1). split; [lia|]. by replace (i - 1 - (d - 1)) with (i - d) by lia.
Qed.

Lemma plus_loop_spec k i ml caps : Z.of_nat k <= i <= len → same_shape caps0 caps →
  right es (λ ev, ∃ d, 0 <= d < Z.of_nat k ∧ Q (i - d) ev) caps (plus_loop cont k i ml caps).
Proof.
  revert i ml caps. induction k as [|k IH]; intros i ml caps Hi Hcaps; cbn [plus_loop].
  { split; [intros ev (d & Hd & _); lia|done]. }
  pose proof (Hcont i ml caps ltac:(lia) Hcaps) as Hr. destruct (cont i ml caps) as [[[[] ml1] caps1]|]; try done; cbn [mbind option_bind].
  - destruct Hr as (ev & st & HQ & ? & ?). exists ev, st. split; [|done]. exists 0. split; [lia|]. by rewrite Z.sub_0_r.
  - destruct Hr as [Hn Hsh]. apply (right_agree _ _ _ caps1); [done|]. eapply right_iff; [|apply IH; [lia|etrans; [done|by eapply agree_shape]]]. intros ev. split.
    + intros (d & Hd & HQ). exists (d + 1). split; [lia|]. by replace (i - (d + 1)) with (i - 1 - d) by lia.
    + intros (d & Hd & HQ). destruct (decide (d = 0)) as [-> |]; [rewrite Z.sub_0_r in HQ; by apply Hn in HQ|].
      exists (d - 1). split; [lia|]. by replace (i - 1 - (d - 1)) with (i - d) by lia.
Qed.

(** What an item with a quantifier and the rest accept. *)
Definition item_then (q : quant) (i : Z) (ev : list event) : Prop := ∃ n, allowed q n ∧ (∀ k, i <= k < i + n → sat_at k) ∧ Q (i + n) ev.

Lemma matchstar_spec i ml caps : 0 <= i <= len → same_shape caps0 caps → right es (item_then Many i) caps (matchstar cc str cont t i ml caps).
Proof.
  intros Hi Hcaps. unfold matchstar. destruct (run_spec i Hi) as (n & En & Hn & Hmax). rewrite En. cbn [mbind option_bind].
  pose proof (star_loop_spec n (i + Z.of_nat n) (ml + Z.of_nat n) caps ltac:(lia) Hcaps) as Hr.
  destruct (star_loop cont n (i + Z.of_nat n) (ml + Z.of_nat n) caps) as [[[[] ml1] caps1]|]; try done; cbn [mbind option_bind].
  - destruct Hr as (ev & st & (d & Hd & HQ) & ? & ?). exists ev, st. split; [|done]. exists (Z.of_nat n - d). split; [cbn; lia|]. split; [apply Hmax; lia|].
    by replace (i + (Z.of_nat n - d)) with (i + Z.of_nat n - d) by lia.
  - destruct Hr as [Hno Hsh]. split; [|done]. intros ev (m & Hm & Hall & HQ). cbn in Hm. apply Hmax in Hall; [|done]. apply (Hno ev).
    exists (Z.of_nat n - m). split; [lia|]. by replace (i + Z.of_nat n - (Z.of_nat n - m)) with (i + m) by lia.
Qed.
Lemma matchplus_spec i ml caps : 0 <= i <= len → same_shape caps0 caps → right es (item_then Again i) caps (matchplus cc str cont t i ml caps).
Proof.
  intros Hi Hcaps. unfold matchplus. destruct (run_spec i Hi) as (n & En & Hn & Hmax). rewrite En. cbn [mbind option_bind].
  eapply right_iff; [|apply plus_loop_spec; [lia|done]]. intros ev. split.
  - intros (d & Hd & HQ). exists (Z.of_nat n - d). split; [cbn; lia|]. split; [apply Hmax; lia|].
    by replace (i + (Z.of_nat n - d)) with (i + Z.of_nat n - d) by lia.
  - intros (m & Hm & Hall & HQ). cbn in Hm. apply Hmax in Hall; [|lia]. exists (Z.of_nat n - m). split; [lia|].
    by replace (i + Z.of_nat n - (Z.of_nat n - m)) with (i + m) by lia.
Qed.

Lemma matchquestion_spec i ml caps : single t = true → 0 <= i <= len → same_shape caps0 caps →
  right es (item_then Maybe i) caps (matchquestion cc str cont t i ml caps).
Proof.
  intros Hsingle Hi Hcaps.
  rewrite matchquestion_eq by done.
  pose proof (Hcont i ml caps Hi Hcaps) as Hr. destruct (cont i ml caps) as [[[[] ml1] caps1]|]; try done; cbn [mbind option_bind].
  { destruct Hr as (ev & st & HQ & ? & ?). exists ev, st. split; [|done]. exists 0. split; [cbn; lia|]. split; [lia|]. by rewrite Z.add_0_r. }
  destruct Hr as [Hno Hsh]. destruct (test_spec i Hi) as (b & Eb & Hb). rewrite Eb. cbn [mbind option_bind].
  assert (∀ ev, item_then Maybe i ev ↔ sat_at i ∧ Q (i + 1) ev) as Hiff.
  { intros ev. split.
    - intros (n & Hn & Hall & HQ). cbn in Hn. destruct (decide (n = 0)) as [-> |]; [rewrite Z.add_0_r in HQ; by apply Hno in HQ|].
      replace n with 1 in * by lia. split; [apply Hall; lia|done].
    - intros [Hsat HQ]. exists 1. split; [cbn; lia|]. split; [|done]. intros k Hk. by replace k with i by lia. }
  apply (right_agree _ _ _ caps1); [done|]. destruct b.
  - assert (i + 1 <= len) as Hi1.
    { destruct Hb as [Hb _]. destruct (Hb eq_refl) as (c & E & _). destruct (decide (i < len)) as [|]; [lia|]. rewrite idx_None in E by (unfold len in *; lia). done. }
    pose proof (Hcont (i + 1) ml1 caps1 ltac:(lia) ltac:(etrans; [done|by eapply agree_shape])) as Hr. destruct (cont (i + 1) ml1 caps1) as [[[[] ml2] caps2]|]; try done; cbn [mbind option_bind].
    + destruct Hr as (ev & st & HQ & ? & ?). exists ev, st. split; [|done]. apply Hiff. split; [by apply Hb|done].
    + destruct Hr as [Hno2 Hsh2]. split; [|done]. intros ev [_ HQ]%Hiff. by apply (Hno2 ev).
  - split; [|done]. intros ev [Hsat _]%Hiff. by apply Hb in Hsat.
Qed.
End continuation.
End item.

(** The tokens of a sequence never start with a quantifier. *)
Definition plain (pat : list token) : Prop :=
  match pat with [] | QUESTION :: _ | STAR :: _ | PLUS :: _ | UNSET :: _ => False | _ => True end.
Lemma plain_seq es eol : Forall (λ e, match e with Item t _ => single t = true | _ => True end) es → plain (seq_tokens es ++ ending eol).
Proof. intros [|[t q|g|g] es' Ht _]; [by destruct eol|by destruct t|done|done]. Qed.

Definition one (t : token) (pat : list token) (pre i ml : Z) (caps : captures) : option result :=
  m ← test t i; if m : bool then matchloop cc str pat pre (i + 1) (ml + 1) caps else Some (false, pre, caps).

Lemma matchloop_single t pat pre i ml caps : single t = true →
  matchloop cc str (t :: pat) pre i ml caps =
    match pat with
    | [] | UNSET :: _ => None
    | QUESTION :: pat2 => matchquestion cc str (λ t m, matchloop cc str pat2 m t m) t i ml caps
    | STAR :: pat2 => matchstar cc str (λ t m, matchloop cc str pat2 m t m) t i ml caps
    | PLUS :: pat2 => matchplus cc str (λ t m, matchloop cc str pat2 m t m) t i ml caps
    | _ => one t pat pre i ml caps
    end.
Proof.
  intros Ht. assert ((c ← str.[i]; m ← (if c =? 0 then Some false else matchone cc t c); if m : bool then matchloop cc str pat pre (i + 1) (ml + 1) caps else Some (false, pre, caps)) =
    one t pat pre i ml caps) as Hone by (unfold one, test; by destruct (str.[i])).
  assert (bool_decide (t = END) = false) as Hend by (apply bool_decide_eq_false_2; by intros ->).
  assert (matchloop cc str (t :: pat) pre i ml caps =
    match pat with
    | [] => None
    | p1 :: pat2 =>
        match p1 with
        | UNSET => None
        | UNUSED => if bool_decide (t = END) then c ← str.[i]; Some (c =? 0, ml, caps) else one t pat pre i ml caps
        | QUESTION => matchquestion cc str (λ t m, matchloop cc str pat2 m t m) t i ml caps
        | STAR => matchstar cc str (λ t m, matchloop cc str pat2 m t m) t i ml caps
        | PLUS => matchplus cc str (λ t m, matchloop cc str pat2 m t m) t i ml caps
        | _ => one t pat pre i ml caps
        end
    end) as ->; [rewrite <- Hone; by destruct t|]. rewrite Hend. destruct pat as [|[] pat]; done.
Qed.

Lemma matchloop_item t q pat pre i ml caps : single t = true → plain pat →
  matchloop cc str (t :: quant_tokens q ++ pat) pre i ml caps =
    match q with
    | Once => one t pat pre i ml caps
    | Maybe => matchquestion cc str (λ t m, matchloop cc str pat m t m) t i ml caps
    | Many => matchstar cc str (λ t m, matchloop cc str pat m t m) t i ml caps
    | Again => matchplus cc str (λ t m, matchloop cc str pat m t m) t i ml caps
    end.
Proof. intros Ht Hp. destruct q; cbn [quant_tokens app]; rewrite matchloop_single by done; [|done..]. by destruct pat as [|[] pat]. Qed.

Lemma found_item t q es eol i ev : found s sat (Item t q :: es) eol i ev ↔ item_then t (λ i ev, found s sat es eol i ev) q i ev.
Proof.
  split.
  - intros (j & H & He). inversion H; subst. eexists. split; [done|]. split; [done|]. by exists j.
  - intros (n & Hn & Hall & j & Hj & He). exists j. split; [|done]. by apply (acc_item _ _ t q n).
Qed.

Lemma one_spec t pat pre i ml caps es eol :
  (∀ c, c ∈ s → matchone cc t c = Some (sat t c)) → 0 <= i <= len →
  (0 <= i + 1 <= len → right es (found s sat es eol (i + 1)) caps (matchloop cc str pat pre (i + 1) (ml + 1) caps)) →
  right es (found s sat (Item t Once :: es) eol i) caps (one t pat pre i ml caps).
Proof.
  intros Ht Hi Hnext. unfold one. destruct (test_spec t Ht i Hi) as (b & -> & Hb). cbn [mbind option_bind].
  assert (∀ ev, found s sat (Item t Once :: es) eol i ev ↔ sat_at t i ∧ found s sat es eol (i + 1) ev) as Hiff.
  { intros ev. rewrite found_item. split.
    - intros (n & Hn & Hall & HQ). cbn in Hn. subst n. split; [apply Hall; lia|done].
    - intros [Hsat HQ]. exists 1. split; [done|]. split; [|done]. intros k Hk. by replace k with i by lia. }
  destruct b.
  - assert (sat_at t i) as Hsat by (by apply Hb). assert (i + 1 <= len) as Hi1.
    { destruct Hsat as (c & E & _). destruct (decide (i < len)); [lia|]. rewrite idx_None in E by (unfold len in *; lia). done. }
    eapply right_iff; [|apply Hnext; lia]. intros ev. rewrite Hiff. tauto.
  - split; [|done]. intros ev [Hsat _]%Hiff. by apply Hb in Hsat.
Qed.

Lemma right_mark g open es eol i caps r : 0 <= g → mark g open ∉ es →
  right es (found s sat es eol i) (play [(g, open, i)] caps) r → right (mark g open :: es) (found s sat (mark g open :: es) eol i) caps r.
Proof.
  intros Hg Hm. assert (agree (mark g open :: es) caps (play [(g, open, i)] caps)) as Hag by (by apply agree_play).
  assert (∀ ev, found s sat (mark g open :: es) eol i ev ↔ ∃ ev', ev = (g, open, i) :: ev' ∧ found s sat es eol i ev') as Hiff.
  { intros ev. split.
    - intros (j & Hj & He). destruct open; inversion Hj; subst; eexists; (split; [done|]); by exists j.
    - intros (ev' & -> & j & Hj & He). exists j. split; [|done]. destruct open; by constructor. }
  destruct r as [[[[] ml] caps']|]; [| |done].
  - intros (ev & st & Hf & Hst & ->). exists ((g, open, i) :: ev), st. split; [apply Hiff; by exists ev|]. split; [etrans; [done|by apply agree_cons]|].
    by rewrite play_cons, (play_idem _ _ _ es caps).
  - intros [Hno Hst]. split; [|etrans; [done|by apply agree_cons]]. intros ev (ev' & -> & Hf)%Hiff. by apply (Hno ev').
Qed.

(** The matcher is right on every sequence whose marks are distinct. *)
Lemma matchloop_spec es eol pre i ml caps : decided es → distinct es → room es caps → Forall (λ e, match e with Open g | Close g => 0 <= g | _ => True end) es → 0 <= i <= len →
  right es (found s sat es eol i) caps (matchloop cc str (seq_tokens es ++ ending eol) pre i ml caps).
Proof.
  intros Hd. revert pre i ml caps. induction Hd as [|e es He Hd IH]; intros pre i ml caps Hdist Hroom Hpos Hi.
  { cbn [seq_tokens map concat app]. destruct eol; cbn [ending matchloop].
    - rewrite bool_decide_eq_true_2 by done. destruct (str_char i Hi) as (c & -> & Hc & Hz). cbn [mbind option_bind]. destruct (Z.eqb_spec c 0) as [-> |Hne].
      + exists [], caps. split; [|by destruct caps]. exists i. split; [constructor|]. intros _. destruct (decide (i < len)) as [Hlt|]; [|unfold len in *; lia].
        by destruct (Hc Hlt) as (_ & ? & _).
      + split; [|done]. intros ev (j & Hj & He). inversion Hj; subst. apply Hne, Hz. by apply He.
    - exists [], caps. split; [|by destruct caps]. exists i. by split; [constructor|]. }
  assert (room es caps) as Hroom' by (by apply Forall_cons in Hroom as [_ ?]). destruct Hdist as [Hnew Hdist]. apply Forall_cons in Hpos as [Hpos1 Hpos].
  assert (plain (seq_tokens es ++ ending eol)) as Hplain.
  { apply plain_seq. eapply Forall_impl; [exact Hd|]. intros [t q|g|g]; [by intros [? _]|done..]. }
  destruct e as [t q|g|g]; cbn [seq_tokens map concat elem_tokens]; fold (seq_tokens es).
  - destruct He as [Hsingle Ht]. cbn [app]. rewrite <- app_assoc, matchloop_item by done. apply right_cons.
    assert (∀ i ml caps', 0 <= i <= len → same_shape caps caps' →
      right es (found s sat es eol i) caps' (matchloop cc str (seq_tokens es ++ ending eol) ml i ml caps')) as Hcont.
    { intros i' ml' caps' Hi' Hsh. apply IH; try done. by eapply room_shape. }
    destruct q.
    + apply one_spec; [done|done|]. intros Hi1. by apply IH.
    + eapply right_iff; [intros ev; symmetry; apply found_item|]. by apply (matchquestion_spec t Ht es _ _ caps Hcont).
    + eapply right_iff; [intros ev; symmetry; apply found_item|]. by apply (matchstar_spec t Ht es _ _ caps Hcont).
    + eapply right_iff; [intros ev; symmetry; apply found_item|]. by apply (matchplus_spec t Ht es _ _ caps Hcont).
  - cbn [app matchloop]. rewrite (set_so_play g es) by done. cbn [mbind option_bind]. apply (right_mark g true); [done|by apply Hnew|].
    apply IH; try done. eapply room_shape; [apply play_shape|done].
  - cbn [app matchloop]. rewrite (set_eo_play g es) by done. cbn [mbind option_bind]. apply (right_mark g false); [done|by apply Hnew|].
    apply IH; try done. eapply room_shape; [apply play_shape|done].
Qed.

(** ** The length that is reported *)

(** A failed call restores [*matchlen] only in some cases, so the length is right for
    sequences with at most one quantifier, which is not an optional one where the
    sequence is anchored at the end. *)
Definition onceb (e : elem) : bool := match e with Item _ Once | Open _ | Close _ => true | _ => false end.
Notation once := (λ e, onceb e = true).
Definition item_count (es : list elem) : Z := Z.of_nat (length (filter (λ e, is_mark e = false) es)).
Definition well_formed (es : list elem) : Prop :=
  decided es ∧ distinct es ∧ Forall (λ e, match e with Open g | Close g => 0 <= g | _ => True end) es.

Lemma well_formed_cons e es : well_formed (e :: es) → well_formed es.
Proof. intros (Hd & [_ Hdist] & Hp). split_and!; [by apply Forall_cons in Hd as [_ ?]|done|by apply Forall_cons in Hp as [_ ?]]. Qed.
Lemma well_formed_plain es eol : well_formed es → plain (seq_tokens es ++ ending eol).
Proof. intros (Hd & _). apply plain_seq. eapply Forall_impl; [exact Hd|]. intros [t q|g|g]; [by intros [? _]|done..]. Qed.

Lemma once_length es eol pre i ml caps b ml' caps' : Forall once es → well_formed es → room es caps → 0 <= i <= len →
  matchloop cc str (seq_tokens es ++ ending eol) pre i ml caps = Some (b, ml', caps') →
  (b = true → ml' = ml + item_count es) ∧ (b = false → eol = false ∨ len - i < item_count es → ml' = pre).
Proof.
  intros Ho. revert i ml caps. induction Ho as [|e es He Ho IH]; intros i ml caps Hwf Hroom Hi.
  { cbn [seq_tokens map concat app]. destruct eol; cbn [ending matchloop].
    - rewrite bool_decide_eq_true_2 by done. destruct (str_char i Hi) as (c & -> & _). cbn [mbind option_bind]. intros [= <- <- <-].
      change (item_count []) with 0. split; [lia|]. intros _ [|]; [done|lia].
    - intros [= <- <- <-]. change (item_count []) with 0. split; [lia|done]. }
  apply well_formed_cons in Hwf as Hwf'. pose proof (well_formed_plain es eol Hwf') as Hplain. apply Forall_cons in Hroom as Hr. destruct Hr as [_ Hroom'].
  destruct e as [t []|g|g]; try done; cbn [seq_tokens map concat elem_tokens quant_tokens]; fold (seq_tokens es).
  - destruct Hwf as (Hd & _). apply Forall_cons in Hd as [[Hsingle Ht] _].
    assert (item_count (Item t Once :: es) = 1 + item_count es) as -> by (unfold item_count; rewrite filter_cons_True by done; cbn [length]; lia).
    pose proof (matchloop_item t Once (seq_tokens es ++ ending eol) pre i ml caps Hsingle Hplain) as Eq. cbn [quant_tokens app] in Eq. cbn [app]. rewrite Eq. unfold one.
    destruct (test_spec t Ht i Hi) as (x & -> & Hx). cbn [mbind option_bind]. destruct x; [|intros [= <- <- <-]; done].
    assert (i + 1 <= len) as Hi1.
    { destruct Hx as [Hx _]. destruct (Hx eq_refl) as (c & Ec & _). destruct (decide (i < len)); [lia|]. rewrite idx_None in Ec by (unfold len in *; lia). done. }
    intros Em. destruct (IH (i + 1) (ml + 1) caps Hwf' Hroom' ltac:(lia) Em) as [H1 H2]. split; [intros Hb; rewrite H1 by done; lia|].
    intros Hb Hc. apply H2; [done|]. destruct Hc; [by left|right; lia].
  - assert (item_count (Open g :: es) = item_count es) as -> by (unfold item_count; by rewrite filter_cons_False). cbn [app matchloop]. rewrite (set_so_play g es) by done. cbn [mbind option_bind].
    apply IH; [done|eapply room_shape; [apply play_shape|done]|done].
  - assert (item_count (Close g :: es) = item_count es) as -> by (unfold item_count; by rewrite filter_cons_False). cbn [app matchloop]. rewrite (set_eo_play g es) by done. cbn [mbind option_bind].
    apply IH; [done|eapply room_shape; [apply play_shape|done]|done].
Qed.

Lemma accepts_once es i j ev : Forall once es → accepts s sat es i j ev → j = i + item_count es.
Proof.
  intros Ho H. induction H as [i|t q n es i j ev Hn Hall H IH|g es i j ev H IH|g es i j ev H IH]; [change (item_count []) with 0; lia|..]; apply Forall_cons in Ho as [He Ho].
  - destruct q; try done. cbn in Hn. subst n. rewrite (IH Ho). unfold item_count at 2. rewrite filter_cons_True by done. cbn [length]. unfold item_count. lia.
  - rewrite (IH Ho). unfold item_count. by rewrite filter_cons_False.
  - rewrite (IH Ho). unfold item_count. by rewrite filter_cons_False.
Qed.

(** A successful call with the length of the match it found. *)
Definition exact (es : list elem) (eol : bool) (i ml : Z) (caps : captures) (r : option result) : Prop :=
  match r with
  | Some (true, ml', caps') => ∃ j ev stale, accepts s sat es i j ev ∧ (eol = true → j = len) ∧ agree es caps stale ∧ caps' = play ev stale ∧ ml' = ml + (j - i)
  | _ => True
  end.

Lemma once_exact es eol pre i ml caps : Forall once es → well_formed es → room es caps → 0 <= i <= len →
  exact es eol i ml caps (matchloop cc str (seq_tokens es ++ ending eol) pre i ml caps).
Proof.
  intros Ho Hwf Hroom Hi. pose proof (matchloop_spec es eol pre i ml caps) as Hr. destruct Hwf as (? & ? & ?). specialize (Hr ltac:(done) ltac:(done) Hroom ltac:(done) Hi).
  destruct (matchloop cc str (seq_tokens es ++ ending eol) pre i ml caps) as [[[[] ml'] caps']|] eqn:Em; [|done..].
  destruct Hr as (ev & st & (j & Hj & He) & Hst & ->). exists j, ev, st. split_and!; try done.
  apply once_length in Em as [Hml _]; [|done..]. rewrite Hml by done. apply accepts_once in Hj; [lia|done].
Qed.

Section quantified.
Variables (t : token) (es : list elem) (eol : bool).
Hypothesis Hwf : well_formed es.
Hypothesis Honce : Forall once es.
Hypothesis Ht : ∀ c, c ∈ s → matchone cc t c = Some (sat t c).
Let cont : Z → Z → captures → option result := λ i m, matchloop cc str (seq_tokens es ++ ending eol) m i m.

Lemma cont_right i ml caps : room es caps → 0 <= i <= len → right es (found s sat es eol i) caps (cont i ml caps).
Proof. destruct Hwf as (? & ? & ?). intros. by apply matchloop_spec. Qed.
Lemma cont_fails i ml caps ml' caps' : room es caps → 0 <= i <= len → cont i ml caps = Some (false, ml', caps') →
  agree es caps caps' ∧ (eol = false ∨ len - i < item_count es → ml' = ml).
Proof.
  intros Hroom Hi Ec. split; [pose proof (cont_right i ml caps Hroom Hi) as Hr; rewrite Ec in Hr; by destruct Hr|].
  apply once_length in Ec as [_ H]; [|done..]. by apply H.
Qed.
Lemma cont_anchored i ml caps ml' caps' : room es caps → 0 <= i <= len → cont i ml caps = Some (true, ml', caps') → eol = true → len - i = item_count es.
Proof.
  intros Hroom Hi Ec He. pose proof (cont_right i ml caps Hroom Hi) as Hr. rewrite Ec in Hr. destruct Hr as (ev & st & (j & Hj & Hend) & _).
  apply accepts_once in Hj; [|done]. specialize (Hend He). unfold len. lia.
Qed.

(** The try that succeeds in the loops of [matchstar] and [matchplus] has its own length. *)
Lemma star_loop_exact k i ml caps ml' caps' : room es caps → Z.of_nat k <= i <= len → star_loop cont k i ml caps = Some (true, ml', caps') →
  ∃ d caps1, 0 <= d <= Z.of_nat k ∧ agree es caps caps1 ∧ cont (i - d) (ml - d) caps1 = Some (true, ml', caps').
Proof.
  revert i ml caps. induction k as [|k IH]; intros i ml caps Hroom Hi; cbn [star_loop]; destruct (cont i ml caps) as [[[[] ml1] caps1]|] eqn:Ec; try done; cbn [mbind option_bind].
  - intros [= -> ->]. exists 0, caps. rewrite !Z.sub_0_r. split_and!; [lia|lia|done|done].
  - intros [= -> ->]. exists 0, caps. rewrite !Z.sub_0_r. split_and!; [lia|lia|done|done].
  - intros Es. destruct (cont_fails i ml caps ml1 caps1 Hroom ltac:(lia) Ec) as [Hag Hml].
    destruct (IH (i - 1) (ml1 - 1) caps1) as (d & caps2 & Hd & Hag2 & Ed); [eapply room_shape; [by eapply agree_shape|done]|lia|done|].
    assert (ml1 = ml) as ->.
    { apply Hml. destruct (decide (eol = false)) as [|Hne%not_false_iff_true]; [by left|right]. apply cont_anchored in Ed; [lia| |lia|done]. eapply room_shape; [eapply agree_shape; etrans; [exact Hag|exact Hag2]|done]. }
    exists (d + 1), caps2. replace (i - (d + 1)) with (i - 1 - d) by lia. replace (ml - (d + 1)) with (ml - 1 - d) by lia. split_and!; [lia|lia|by etrans|done].
Qed.
Lemma plus_loop_exact k i ml caps ml' caps' : room es caps → Z.of_nat k <= i <= len → plus_loop cont k i ml caps = Some (true, ml', caps') →
  ∃ d caps1, 0 <= d < Z.of_nat k ∧ agree es caps caps1 ∧ cont (i - d) (ml - d) caps1 = Some (true, ml', caps').
Proof.
  revert i ml caps. induction k as [|k IH]; intros i ml caps Hroom Hi; cbn [plus_loop]; [done|]. destruct (cont i ml caps) as [[[[] ml1] caps1]|] eqn:Ec; try done; cbn [mbind option_bind].
  - intros [= -> ->]. exists 0, caps. rewrite !Z.sub_0_r. split_and!; [lia|lia|done|done].
  - intros Es. destruct (cont_fails i ml caps ml1 caps1 Hroom ltac:(lia) Ec) as [Hag Hml].
    destruct (IH (i - 1) (ml1 - 1) caps1) as (d & caps2 & Hd & Hag2 & Ed); [eapply room_shape; [by eapply agree_shape|done]|lia|done|].
    assert (ml1 = ml) as ->.
    { apply Hml. destruct (decide (eol = false)) as [|Hne%not_false_iff_true]; [by left|right]. apply cont_anchored in Ed; [lia| |lia|done]. eapply room_shape; [eapply agree_shape; etrans; [exact Hag|exact Hag2]|done]. }
    exists (d + 1), caps2. replace (i - (d + 1)) with (i - 1 - d) by lia. replace (ml - (d + 1)) with (ml - 1 - d) by lia. split_and!; [lia|lia|by etrans|done].
Qed.

(** [n] characters matched by the token, then a successful call. *)
Lemma exact_after q n i ml caps caps1 ml' caps' : allowed q n → (∀ k, i <= k < i + n → sat_at t k) → 0 <= n → 0 <= i → i + n <= len → room es caps → agree es caps caps1 →
  cont (i + n) (ml + n) caps1 = Some (true, ml', caps') → exact (Item t q :: es) eol i ml caps (Some (true, ml', caps')).
Proof.
  intros Hn Hall Hn0 Hi Hin Hroom Hag Ec. pose proof (once_exact es eol (ml + n) (i + n) (ml + n) caps1 Honce Hwf ltac:(eapply room_shape; [by eapply agree_shape|done]) ltac:(lia)) as Hx.
  unfold cont in Ec. rewrite Ec in Hx. destruct Hx as (j & ev & st & Hj & He & Hst & -> & ->). exists j, ev, st.
  split; [by apply (acc_item _ _ t q n)|]. split; [done|]. split; [apply agree_cons; by etrans|]. split; [done|lia].
Qed.

Lemma item_exact q pre i ml caps : single t = true → room es caps → 0 <= i <= len → (q = Maybe → eol = false) → q ≠ Once →
  exact (Item t q :: es) eol i ml caps (matchloop cc str (t :: quant_tokens q ++ seq_tokens es ++ ending eol) pre i ml caps).
Proof.
  intros Hsingle Hroom Hi Hq Hne. rewrite matchloop_item by (done || by apply well_formed_plain). fold cont. destruct q; [done|..].
  - rewrite matchquestion_eq by done.
    destruct (cont i ml caps) as [[[[] ml1] caps1]|] eqn:Ec; [| |done]; cbn [mbind option_bind].
    { apply (exact_after Maybe 0 i ml caps caps); rewrite ?Z.add_0_r; try done; cbn; lia. }
    destruct (cont_fails i ml caps ml1 caps1 Hroom Hi Ec) as [Hag Hml]. rewrite (Hml (or_introl (Hq eq_refl))). clear Hml Ec.
    destruct (test_spec t Ht i Hi) as (b & -> & Hb). cbn [mbind option_bind]. destruct b; [|done]. assert (sat_at t i) as Hsat by (by apply Hb).
    assert (i + 1 <= len) as Hi1.
    { destruct Hsat as (c & Ec & _). destruct (decide (i < len)); [lia|]. rewrite idx_None in Ec by (unfold len in *; lia). done. }
    destruct (cont (i + 1) ml caps1) as [[[[] ml2] caps2]|] eqn:Ec; [|done..]. cbn [mbind option_bind].
    pose proof (once_exact es eol ml (i + 1) ml caps1 Honce Hwf ltac:(eapply room_shape; [by eapply agree_shape|done]) ltac:(lia)) as Hx.
    unfold cont in Ec. rewrite Ec in Hx. destruct Hx as (j & ev & st & Hj & He & Hst & -> & ->). exists j, ev, st.
    split; [apply (acc_item _ _ t Maybe 1); [cbn; lia|intros k Hk; by replace k with i by lia|done]|]. split; [done|]. split; [apply agree_cons; by etrans|]. split; [done|lia].
  - unfold matchstar. destruct (run_spec t Ht i Hi) as (n & En & Hn & Hmax). rewrite En. cbn [mbind option_bind].
    destruct (star_loop cont n (i + Z.of_nat n) (ml + Z.of_nat n) caps) as [[[[] ml1] caps1]|] eqn:Es; [|done..]. cbn [mbind option_bind].
    apply star_loop_exact in Es as (d & caps2 & Hd & Hag & Ec); [|done|lia].
    apply (exact_after Many (Z.of_nat n - d) i ml caps caps2); [cbn; lia|apply Hmax; lia|lia|lia|lia|done|done|].
    by replace (i + (Z.of_nat n - d)) with (i + Z.of_nat n - d) by lia; replace (ml + (Z.of_nat n - d)) with (ml + Z.of_nat n - d) by lia.
  - unfold matchplus. destruct (run_spec t Ht i Hi) as (n & En & Hn & Hmax). rewrite En. cbn [mbind option_bind].
    destruct (plus_loop cont n (i + Z.of_nat n) (ml + Z.of_nat n) caps) as [[[[] ml1] caps1]|] eqn:Es; [|done..].
    apply plus_loop_exact in Es as (d & caps2 & Hd & Hag & Ec); [|done|lia].
    apply (exact_after Again (Z.of_nat n - d) i ml caps caps2); [cbn; lia|apply Hmax; lia|lia|lia|lia|done|done|].
    by replace (i + (Z.of_nat n - d)) with (i + Z.of_nat n - d) by lia; replace (ml + (Z.of_nat n - d)) with (ml + Z.of_nat n - d) by lia.
Qed.
End quantified.

(** At most one quantifier, and not an optional item before an anchor. *)
Fixpoint steady (es : list elem) (eol : bool) : bool :=
  match es with
  | [] => true
  | Item _ Once :: es | Open _ :: es | Close _ :: es => steady es eol
  | Item _ q :: es => forallb onceb es && negb (bool_decide (q = Maybe) && eol)
  end.

Lemma exact_mark g open es eol i ml caps r : 0 <= g → mark g open ∉ es →
  exact es eol i ml (play [(g, open, i)] caps) r → exact (mark g open :: es) eol i ml caps r.
Proof.
  intros Hg Hm. destruct r as [[[[] ml'] caps']|]; [|done..]. intros (j & ev & st & Hj & He & Hst & -> & ->). exists j, ((g, open, i) :: ev), st.
  split; [destruct open; by constructor|]. split; [done|]. split; [etrans; [by apply (agree_play g open i es)|by apply agree_cons]|].
  split; [by rewrite play_cons, (play_idem _ _ _ es caps)|done].
Qed.

Lemma matchloop_exact es eol pre i ml caps : well_formed es → steady es eol = true → room es caps → 0 <= i <= len →
  exact es eol i ml caps (matchloop cc str (seq_tokens es ++ ending eol) pre i ml caps).
Proof.
  revert pre i ml caps. induction es as [|e es IH]; intros pre i ml caps Hwf Hst Hroom Hi.
  { apply once_exact; [constructor|done|done|done]. }
  apply well_formed_cons in Hwf as Hwf'. destruct Hwf as (Hd & [Hnew _] & Hpos). apply Forall_cons in Hd as [He _], Hpos as [Hpos _]. apply Forall_cons in Hroom as Hr. destruct Hr as [_ Hroom'].
  destruct e as [t q|g|g]; cbn [seq_tokens map concat elem_tokens]; fold (seq_tokens es).
  - destruct He as [Hsingle Ht]. cbn [app]. rewrite <- app_assoc. destruct (decide (q = Once)) as [-> |Hne].
    + rewrite matchloop_item by (done || by apply well_formed_plain). unfold one. destruct (test_spec t Ht i Hi) as (b & -> & Hb). cbn [mbind option_bind]. destruct b; [|done].
      assert (sat_at t i) as Hsat by (by apply Hb). assert (i + 1 <= len) as Hi1.
      { destruct Hsat as (c & Ec & _). destruct (decide (i < len)); [lia|]. rewrite idx_None in Ec by (unfold len in *; lia). done. }
      specialize (IH pre (i + 1) (ml + 1) caps Hwf' Hst Hroom' ltac:(lia)). destruct (matchloop _ _ _ _ _ _ _) as [[[[] ml'] caps']|]; [|done..].
      destruct IH as (j & ev & st & Hj & He & Hag & -> & ->). exists j, ev, st.
      split; [apply (acc_item _ _ t Once 1); [done|intros k Hk; by replace k with i by lia|done]|]. split; [done|]. split; [by apply agree_cons|]. split; [done|lia].
    + assert (Forall once es ∧ (q = Maybe → eol = false)) as [Ho Hq].
      { assert (forallb onceb es && negb (bool_decide (q = Maybe) && eol) = true) as [Ho Hq]%andb_true_iff by (by destruct q). split.
        - apply Forall_forall. intros e He. rewrite forallb_forall in Ho. by apply Ho, list_elem_of_In.
        - intros ->. by destruct eol. }
      by apply item_exact.
  - cbn [app matchloop]. rewrite (set_so_play g es) by done. cbn [mbind option_bind]. apply (exact_mark g true); [done|by apply Hnew|].
    apply IH; try done. eapply room_shape; [apply play_shape|done].
  - cbn [app matchloop]. rewrite (set_eo_play g es) by done. cbn [mbind option_bind]. apply (exact_mark g false); [done|by apply Hnew|].
    apply IH; try done. eapply room_shape; [apply play_shape|done].
Qed.
End matcher.

(** ** Alternatives *)

Record alternative := mk_alternative { bol : bool; elems : list elem; eol : bool }.
Definition alternative_tokens (a : alternative) : list token := (if bol a then [BEGIN] else []) ++ seq_tokens (elems a) ++ ending (eol a).

Section search.
Variables s rest : list Z.
Hypothesis Hs : Forall (λ c, c ≠ 0) s.
Let str : list Z := s ++ 0 :: rest.
Let len : Z := Z.of_nat (length s).

(** The alternative matches the text from [i] to [j]. *)
Definition matches (sat : token → Z → bool) (a : alternative) (i j : Z) (ev : list event) : Prop :=
  0 <= i ∧ (bol a = true → i = 0) ∧ accepts s sat (elems a) i j ev ∧ (eol a = true → j = len).
(** A match that was reported with the length [l] and the captures. *)
Definition reported (sat : token → Z → bool) (a : alternative) (i l : Z) (caps caps' : captures) : Prop :=
  ∃ j ev stale, matches sat a i j ev ∧ same_shape caps stale ∧ caps' = play ev stale ∧ (steady (elems a) (eol a) = true → l = j - i).

Lemma accepts_within sat es i j ev : 0 <= i <= len → accepts s sat es i j ev → i <= j <= len.
Proof.
  intros Hi H. revert Hi. induction H as [i|t q n es i j ev Hn Hall H IH|g es i j ev H IH|g es i j ev H IH]; intros Hi; [lia| |by apply IH..].
  assert (0 <= n) by (destruct q; cbn in Hn; lia). assert (i + n <= len); [|specialize (IH ltac:(lia)); lia]. destruct (decide (n = 0)); [lia|].
  destruct (Hall (i + n - 1) ltac:(lia)) as (c & Ec & _). destruct (decide (i + n - 1 < len)); [lia|]. rewrite idx_None in Ec by (unfold len in *; lia). done.
Qed.

Section one_alternative.
Variables (cc : list Z) (sat : token → Z → bool) (a : alternative).
Hypothesis Hwf : well_formed s cc sat (elems a).
Let pat : list token := seq_tokens (elems a) ++ ending (eol a).

(** A call at [i], with the length counted from [ml]. *)
Lemma matchpattern_spec i ml caps : 0 <= i <= len → (bol a = true → i = 0) → room (elems a) caps →
  ∃ b ml' caps', matchpattern cc str pat i ml caps = Some (b, ml', caps') ∧ same_shape caps caps' ∧
    if b then reported sat a i (ml' - ml) caps caps' else ∀ j ev, ¬ matches sat a i j ev.
Proof.
  intros Hi Hbol Hroom. destruct Hwf as (Hd & Hdist & Hpos). unfold matchpattern, pat.
  pose proof (matchloop_spec s rest cc sat Hs (elems a) (eol a) ml i ml caps Hd Hdist Hroom Hpos Hi) as Hr.
  pose proof (matchloop_exact s rest cc sat Hs (elems a) (eol a) ml i ml caps Hwf) as Hx. fold str in Hr, Hx.
  destruct (matchloop cc str (seq_tokens (elems a) ++ ending (eol a)) ml i ml caps) as [[[[] ml'] caps']|]; [| |done].
  - eexists true, ml', caps'. split; [done|]. destruct (steady (elems a) (eol a)) eqn:Est.
    + destruct (Hx eq_refl Hroom Hi) as (j & ev & st & Hj & He & Hag & -> & ->). split; [etrans; [by eapply agree_shape|apply play_shape]|].
      exists j, ev, st. split; [split_and!; [lia|done|done|done]|]. split; [by eapply agree_shape|]. split; [done|]. intros _. lia.
    + destruct Hr as (ev & st & (j & Hj & He) & Hag & ->). split; [etrans; [by eapply agree_shape|apply play_shape]|].
      exists j, ev, st. split; [split_and!; [lia|done|done|done]|]. split; [by eapply agree_shape|]. split; [done|]. by rewrite Est.
  - eexists false, ml', caps'. split; [done|]. destruct Hr as [Hno Hag]. split; [by eapply agree_shape|]. intros j ev (_ & _ & Hj & He). apply (Hno ev). by exists j.
Qed.

Lemma search_spec nsub caps idx : bol a = false → 0 <= idx <= len → room (elems a) (clear_caps nsub caps) →
  ∃ res caps', search cc str (drop (Z.to_nat idx) str) pat nsub idx caps = Some (res, caps') ∧ same_shape (clear_caps nsub caps) caps' ∧
    match res with
    | Some (i, l) => idx <= i <= len ∧ (∀ k j ev, idx <= k < i → ¬ matches sat a k j ev) ∧ reported sat a i l (clear_caps nsub caps) caps'
    | None => ∀ k j ev, idx <= k <= len → ¬ matches sat a k j ev
    end.
Proof.
  intros Hbol. remember (Z.to_nat (len - idx)) as d eqn:Hd. revert idx caps Hd. induction d as [|d IH]; intros idx caps Hd Hi Hroom.
  all: destruct (drop_str s rest Hs idx Hi) as (c & Ec & Edrop); fold str in Ec, Edrop; rewrite Edrop; cbn [search].
  all: destruct (matchpattern_spec idx 0 (clear_caps nsub caps) Hi ltac:(congruence) Hroom) as (b & ml & caps1 & -> & Hsh & Hb); cbn [mbind option_bind].
  all: destruct b; [exists (Some (idx, ml)), caps1; split; [done|]; split; [done|]; split; [lia|]; split; [lia|]; by rewrite Z.sub_0_r in Hb|].
  all: destruct (str_char s rest Hs idx Hi) as (c' & Ec' & Hlt & Hz); fold str in Ec'; rewrite Ec in Ec'; injection Ec' as <-.
  - rewrite Hz, Z.eqb_refl by (unfold len in *; lia). exists None, caps1. split; [done|]. split; [done|]. intros k j ev Hk. replace k with idx by lia. apply Hb.
  - destruct (Hlt ltac:(unfold len in *; lia)) as (_ & Hnz & _). rewrite (proj2 (Z.eqb_neq c 0)) by done.
    assert (clear_caps nsub caps1 = clear_caps nsub caps) as Hcl by (by destruct caps, caps1).
    destruct (IH (idx + 1) caps1) as (res & caps' & Es & Hsh' & Hres); [lia|lia|by rewrite Hcl|]. rewrite Hcl in Hsh', Hres. exists res, caps'. split; [done|]. split; [done|].
    destruct res as [[i l]|].
    + destruct Hres as (Hi' & Hno & Hrep). split; [lia|]. split; [|done]. intros k j ev Hk. destruct (decide (k = idx)) as [-> |]; [apply Hb|apply Hno; lia].
    + intros k j ev Hk. destruct (decide (k = idx)) as [-> |]; [apply Hb|apply Hres; lia].
Qed.
End one_alternative.

(** Compiled alternatives, each with its own classes. *)
Definition sat_of (x : regex_alt) (t : token) (c : Z) : bool := default false (matchone (alt_ccl x) t c).
Definition compiled (x : regex_alt) (a : alternative) : Prop := alt_pat x = alternative_tokens a ∧ well_formed s (alt_ccl x) (sat_of x) (elems a).
Definition no_match (x : regex_alt) (a : alternative) : Prop := ∀ i j ev, i <= len → ¬ matches (sat_of x) a i j ev.

(** The first alternative that matches somewhere, at the first place. *)
Definition first_match (xs : list regex_alt) (as_ : list alternative) (n : nat) (x : regex_alt) (a : alternative) (i : Z) : Prop :=
  xs !! n = Some x ∧ as_ !! n = Some a ∧ (∀ m y b, (m < n)%nat → xs !! m = Some y → as_ !! m = Some b → no_match y b) ∧
  i <= len ∧ ∀ k j ev, k < i → ¬ matches (sat_of x) a k j ev.

Lemma alts_loop_spec nsub xs as_ len0 caps : Forall2 compiled xs as_ → same_shape caps (clear_caps nsub caps) → Forall (λ a, room (elems a) caps) as_ →
  ∃ res caps', alts_loop xs str nsub len0 caps = Some (res, caps') ∧ same_shape caps caps' ∧
    match res with
    | Some (i, l) => ∃ n x a base, first_match xs as_ n x a i ∧ reported (sat_of x) a i (l - base) caps caps' ∧
        (bol a = false → base = 0) ∧ ((∀ m b, (m < n)%nat → as_ !! m = Some b → bol b = false) → bol a = true → base = len0)
    | None => ∀ n x a, xs !! n = Some x → as_ !! n = Some a → no_match x a
    end.
Proof.
  intros Hc Hcl. revert len0 caps Hcl. induction Hc as [|x a xs as_ [Hpat Hwf] Hc IH]; intros len0 caps Hcl Hroom.
  { exists None, caps. split; [done|]. split; [done|]. intros n x a Hn. by rewrite lookup_nil in Hn. }
  apply Forall_cons in Hroom as [Hra Hroom].
  (* the rest of the alternatives, when this one has no match *)
  assert (∀ len1 caps1, same_shape caps caps1 → no_match x a → (bol a = false → len1 = len0) →
    ∃ res caps', alts_loop xs str nsub len1 caps1 = Some (res, caps') ∧ same_shape caps caps' ∧
      match res with
      | Some (i, l) => ∃ n y b base, first_match (x :: xs) (a :: as_) n y b i ∧ reported (sat_of y) b i (l - base) caps caps' ∧
          (bol b = false → base = 0) ∧ ((∀ m b', (m < n)%nat → (a :: as_) !! m = Some b' → bol b' = false) → bol b = true → base = len0)
      | None => ∀ n y b, (x :: xs) !! n = Some y → (a :: as_) !! n = Some b → no_match y b
      end) as Hrest.
  { intros len1 caps1 Hsh Hno Hlen. destruct (IH len1 caps1) as (res & caps' & -> & Hsh' & Hres).
    - by destruct caps as [l|], caps1 as [l'|]; cbn in *; try done; rewrite <- Hsh.
    - eapply Forall_impl; [exact Hroom|]. intros b. by apply room_shape.
    - exists res, caps'. split; [done|]. split; [by etrans|]. destruct res as [[i l]|].
      + destruct Hres as (n & y & b & base & (Ey & Eb & Hbefore & Hi & Hfirst) & (j & ev & st & Hm & Hst & Hpl & Hl) & Hb1 & Hb2). exists (S n), y, b, base.
        split; [split; [done|]; split; [done|]; split; [|done]; intros [|m] z c Hlt Ez Ec; [by simplify_eq/=|by apply (Hbefore m); [lia|done|done]]|].
        split; [exists j, ev, st; split; [done|]; split; [by etrans|done]|]. split; [done|]. intros Hall Hbol. rewrite Hb2; [apply Hlen, (Hall O); [lia|done]| |done].
        intros m b' Hlt Eb'. apply (Hall (S m)); [lia|done].
      + intros [|n] y b Ey Eb; [by simplify_eq/=|by apply (Hres n)]. }
  unfold alternative_tokens in Hpat. destruct (bol a) eqn:Ebol; cbn [alts_loop]; rewrite Hpat; cbn [app].
  - destruct (matchpattern_spec (alt_ccl x) (sat_of x) a Hwf 0 len0 caps ltac:(unfold len; lia) ltac:(done) Hra) as (b & ml & caps1 & -> & Hsh & Hb). cbn [mbind option_bind]. destruct b.
    + exists (Some (0, ml)), caps1. split; [done|]. split; [done|]. exists O, x, a, len0. split; [split_and!; [done|done|lia|unfold len; lia|]; intros k j ev Hk (H0 & _); lia|].
      split; [done|]. split; [congruence|done].
    + apply Hrest; [done| |done]. intros i j ev Hi Hm. assert (i = 0) as -> by (by apply Hm). by apply (Hb j ev).
  - pose proof (well_formed_plain _ _ _ (elems a) (eol a) Hwf) as Hplain.
    assert (alts_loop (x :: xs) str nsub len0 caps =
      (m ← search (alt_ccl x) str str (seq_tokens (elems a) ++ ending (eol a)) nsub 0 caps;
       match m with (Some pl, caps) => Some (Some pl, caps) | (None, caps) => alts_loop xs str nsub len0 caps end)) as Eq.
    { cbn [alts_loop]. rewrite Hpat. cbn [app]. destruct Hwf as (Hd & _).
      destruct (seq_tokens (elems a) ++ ending (eol a)) as [|[] pat] eqn:Epat; try done. exfalso.
      destruct (elems a) as [|[t q|g|g] es]; [by destruct (eol a)|..]; try done. apply Forall_cons in Hd as [[Ht _] _]. cbn in Epat. injection Epat as -> _. done. }
    cbn [alts_loop] in Eq. rewrite Hpat in Eq. cbn [app] in Eq. rewrite Eq. clear Eq.
    destruct (search_spec (alt_ccl x) (sat_of x) a Hwf nsub caps 0 Ebol ltac:(unfold len; lia)) as (res & caps1 & Es & Hsh & Hres); [by eapply room_shape|].
    change (drop (Z.to_nat 0) str) with str in Es. rewrite Es. cbn [mbind option_bind]. destruct res as [[i l]|].
    + destruct Hres as (Hi & Hno & (j & ev & st & Hm & Hst & Hpl & Hl)). exists (Some (i, l)), caps1. split; [done|]. split; [by etrans|].
      exists O, x, a, 0. split; [split_and!; [done|done|lia|lia|]; intros k j' ev' Hk Hm'; destruct (decide (k < 0)); [destruct Hm' as (? & _); lia|by apply (Hno k j' ev' ltac:(lia))]|].
      split; [rewrite Z.sub_0_r; exists j, ev, st; split; [done|]; split; [by etrans|done]|]. split; [done|congruence].
    + apply Hrest; [by etrans| |done]. intros i j ev Hi Hm. destruct Hm as (H0 & Hm). apply (Hres i j ev ltac:(lia)). by split.
Qed.
End search.

(** ** regexec *)

(** The marks that a match has passed are those of the sequence, in its order. *)
Lemma accepts_marks s sat es i j ev : accepts s sat es i j ev → map (λ e : event, mark e.1.1 e.1.2) ev = filter (λ e, is_mark e = true) es.
Proof.
  induction 1 as [i|t q n es i j ev Hn Hall H IH|g es i j ev H IH|g es i j ev H IH]; [done|by rewrite filter_cons_False|..]; rewrite filter_cons_True by done; cbn [map]; by rewrite IH.
Qed.

Lemma distinct_marks es : distinct es → NoDup (filter (λ e, is_mark e = true) es).
Proof.
  induction es as [|e es IH]; [constructor|]. intros [Hnew Hd]. destruct (decide (is_mark e = true)) as [He|He].
  - rewrite filter_cons_True by done. constructor; [|by apply IH]. intros [_ Hin]%list_elem_of_filter. by apply Hnew.
  - rewrite filter_cons_False by done. by apply IH.
Qed.

Lemma mark_inj g g' o o' : mark g o = mark g' o' → g = g' ∧ o = o'.
Proof. by destruct o, o'; intros [=]. Qed.

(** The start or the end of a capture. *)
Definition side (open : bool) (e : Z * Z) : Z := if open then fst e else snd e.
Lemma side_fmap open (o : option (Z * Z)) : side open <$> o = if open then fst <$> o else snd <$> o.
Proof. by destruct open, o. Qed.

(** A group whose mark was passed once has the place where it was passed. *)
Lemma play_mark (ev : list event) (l : list (Z * Z)) (g : Z) (open : bool) (i : Z) : NoDup (map (λ e : event, mark e.1.1 e.1.2) ev) → (g, open, i) ∈ ev → Forall (λ e : event, 0 <= e.1.1) ev → 0 <= g < Z.of_nat (length l) →
  ∃ so eo, foldl (λ l e, play1 e l) l ev !! Z.to_nat g = Some (so, eo) ∧ (if open then so else eo) = i.
Proof.
  assert (∀ (ev : list event) (l : list (Z * Z)) (v : Z), Forall (λ e : event, 0 <= e.1.1) ev → mark g open ∉ map (λ e : event, mark e.1.1 e.1.2) ev → 0 <= g →
    side open <$> l !! Z.to_nat g = Some v → side open <$> foldl (λ l e, play1 e l) l ev !! Z.to_nat g = Some v) as Hkeep.
  { clear. intros ev. induction ev as [|[[g' o'] i'] ev IH]; intros l v Hpos Hnot Hg Hv; [done|]. cbn [foldl map] in *. apply Forall_cons in Hpos as [Hg' Hpos]. cbn in Hg'.
    rewrite elem_of_cons in Hnot. apply IH; [done|tauto|done|]. destruct (lookup_play1 g' o' i' l (Z.to_nat g) Hg') as [E1 E2]. rewrite side_fmap in *.
    destruct open; [rewrite E1|rewrite E2]; rewrite decide_False; try done; intros (-> & Eg & _); apply Hnot; left; cbn; f_equal; lia. }
  intros Hnd Hin Hpos Hg.
  assert (side open <$> foldl (λ l e, play1 e l) l ev !! Z.to_nat g = Some i) as Hv.
  { revert l Hg. induction ev as [|[[g' o'] i'] ev IH]; intros l Hg; [by apply elem_of_nil in Hin|]. cbn [foldl map] in *. apply NoDup_cons in Hnd as [Hnew Hnd]. apply Forall_cons in Hpos as [Hg' Hpos].
    apply elem_of_cons in Hin as [[= <- <- <-]|Hin].
    - apply Hkeep; [done|done|lia|]. destruct (lookup_play1 g open i l (Z.to_nat g) ltac:(lia)) as [E1 E2]. rewrite side_fmap. destruct open; [rewrite E1|rewrite E2]; rewrite decide_True; try done; split_and!; try done; lia.
    - apply IH; [done|done|done|]. by rewrite play1_length. }
  destruct (foldl (λ l e, play1 e l) l ev !! Z.to_nat g) as [[so eo]|]; [|by destruct open]. exists so, eo. split; [done|]. destruct open; cbn in Hv; by injection Hv.
Qed.

Lemma copy_caps_spec n i l pm : 0 <= i → i + Z.of_nat n <= Z.of_nat (length l) → i + Z.of_nat n <= Z.of_nat (length pm) →
  ∃ pm', copy_caps n i (Some l) pm = Some pm' ∧ length pm' = length pm ∧ ∀ k, 0 <= k → pm'.[k] = if decide (i <= k < i + Z.of_nat n) then l.[k] else pm.[k].
Proof.
  revert i pm. induction n as [|n IH]; intros i pm Hi Hl Hp; cbn [copy_caps mbind option_bind].
  { exists pm. split; [done|]. split; [done|]. intros k Hk. by rewrite decide_False by lia. }
  destruct (idx_in l i ltac:(lia)) as (e & Ee & _). rewrite Ee. cbn [mbind option_bind]. rewrite upd_in by lia. cbn [mbind option_bind].
  destruct (IH (i + 1) (<[Z.to_nat i := e]> pm)) as (pm' & -> & Hlen & Hk); [lia|lia|rewrite length_insert; lia|]. exists pm'. split; [done|].
  rewrite length_insert in Hlen. split; [done|]. intros k H0. rewrite Hk by done. destruct (decide (i + 1 <= k < i + 1 + Z.of_nat n)); [by rewrite decide_True by lia|].
  destruct (decide (k = i)) as [-> |Hne].
  - rewrite decide_True by lia. rewrite Ee. unfold idx. rewrite (proj2 (Z.ltb_ge i 0)) by lia. rewrite list_lookup_insert_eq by lia. done.
  - rewrite decide_False by lia. unfold idx. rewrite (proj2 (Z.ltb_ge k 0)) by lia. rewrite list_lookup_insert_ne by lia. done.
Qed.

(** The captures have an entry for every group, or the pattern has none at its end. *)
Definition groups_within (nsub : Z) (es : list elem) : Prop :=
  nsub = 0 ∨ Forall (λ e, match e with Open g | Close g => 1 <= g <= nsub | _ => True end) es.

Section execution.
Variables (s rest : list Z) (preg : regex_t) (xs : list regex_alt) (as_ : list alternative).
Hypothesis Hs : Forall (λ c, c ≠ 0) s.
Hypothesis Himpl : impl preg = Some xs.
Hypothesis Hcomp : Forall2 (compiled s) xs as_.
Hypothesis Hsub : 0 <= re_nsub preg.
Hypothesis Hgroups : Forall (λ a, groups_within (re_nsub preg) (elems a)) as_.

(** What the caller gets for a match of an alternative from [i] to [j]. *)
Definition answer (pm pmatch : list (Z * Z)) (n : nat) (a : alternative) (i j : Z) (ev : list event) : Prop :=
  (pmatch ≠ [] → ∃ e, pm.[0] = Some (i, e) ∧
    (steady (elems a) (eol a) = true → bol a = false ∨ (∀ m b, (m < n)%nat → as_ !! m = Some b → bol b = false) → e = j)) ∧
  ∀ g open p, 1 <= g <= re_nsub preg → g < Z.of_nat (length pmatch) → (g, open, p) ∈ ev → side open <$> pm.[g] = Some p.

Lemma start_caps : let caps := if re_nsub preg =? 0 then None else Some (replicate (Z.to_nat (re_nsub preg + 1)) (-1, -1)) in
  same_shape caps (clear_caps (re_nsub preg) caps) ∧ Forall (λ a, room (elems a) caps) as_.
Proof.
  cbn zeta. destruct (Z.eqb_spec (re_nsub preg) 0) as [E0|Hne].
  - split; [done|]. apply Forall_true. intros a. apply Forall_true. by intros [].
  - split; [done|]. eapply Forall_impl; [exact Hgroups|]. intros a [|Hg]; [done|]. eapply Forall_impl; [exact Hg|]. intros [t q|g|g] H; [done|..]; rewrite length_replicate; lia.
Qed.

Lemma answer_of n x a i l base j ev stale pmatch : pmatch ≠ [] → first_match s xs as_ n x a i → matches s (sat_of x) a i j ev →
  (steady (elems a) (eol a) = true → l - base = j - i) → (bol a = false → base = 0) →
  ((∀ m b, (m < n)%nat → as_ !! m = Some b → bol b = false) → bol a = true → base = 0) →
  same_shape (if re_nsub preg =? 0 then None else Some (replicate (Z.to_nat (re_nsub preg + 1)) (-1, -1))) stale →
  ∃ pm1 pm, pmatch.[0 <- (i, i + l)] = Some pm1 ∧ copy_caps (Z.to_nat (Z.min (re_nsub preg) (Z.of_nat (length pm1) - 1))) 1 (play ev stale) pm1 = Some pm ∧
    length pm = length pmatch ∧ answer pm pmatch n a i j ev.
Proof.
  intros Hne (Ex & Ea & _) Hm Hl Hb1 Hb2 Hsh. assert (1 <= Z.of_nat (length pmatch)) as Hlen by (destruct pmatch; [done|cbn; lia]).
  exists (<[O := (i, i + l)]> pmatch). rewrite upd_in by lia. change (Z.to_nat 0) with O. rewrite length_insert.
  assert (steady (elems a) (eol a) = true → bol a = false ∨ (∀ m b, (m < n)%nat → as_ !! m = Some b → bol b = false) → i + l = j) as Hlen_ok.
  { intros Hst Hor. specialize (Hl Hst). assert (base = 0); [|lia]. destruct (bol a) eqn:Eb; [|by apply Hb1]. destruct Hor as [|Hall]; [done|]. by apply Hb2. }
  assert ((<[O:=(i, i + l)]> pmatch).[0] = Some (i, i + l)) as E0 by (unfold idx; cbn; by rewrite list_lookup_insert_eq by lia).
  destruct (Z.eqb_spec (re_nsub preg) 0) as [Esub|Hsub0].
  - destruct stale; [done|]. replace (Z.to_nat _) with O by lia. eexists. split; [done|]. split; [done|]. split; [by rewrite length_insert|].
    split; [intros _; eexists; split; [exact E0|done]|]. lia.
  - destruct stale as [l0|]; [|done]. cbn in Hsh. rewrite length_replicate in Hsh. cbn [play]. set (caps := foldl (λ l e, play1 e l) l0 ev).
    assert (length caps = length l0) as Hcl. { pose proof (play_shape ev (Some l0)) as H. cbn in H. symmetry. exact H. }
    destruct (copy_caps_spec (Z.to_nat (Z.min (re_nsub preg) (Z.of_nat (length pmatch) - 1))) 1 caps (<[O:=(i, i + l)]> pmatch)) as (pm & -> & Hpl & Hpm); [lia|lia|rewrite length_insert; lia|].
    exists pm. rewrite length_insert in Hpl. split; [done|]. split; [done|]. split; [done|]. split.
    + intros _. exists (i + l). split; [|done]. rewrite Hpm, decide_False by lia. exact E0.
    + intros g open p Hg Hgl Hin. rewrite Hpm, decide_True by lia.
      assert (NoDup (map (λ e : event, mark e.1.1 e.1.2) ev) ∧ Forall (λ e : event, 0 <= e.1.1) ev) as [Hnd Hpos].
      { destruct Hm as (_ & _ & Hacc & _). pose proof (Forall2_lookup_lr _ _ _ _ _ _ Hcomp Ex Ea) as (_ & _ & Hdist & Hpos). split.
        - rewrite (accepts_marks _ _ _ _ _ _ Hacc). by apply distinct_marks.
        - apply Forall_forall. intros e He. assert (mark e.1.1 e.1.2 ∈ elems a) as Hin'.
          { assert (mark e.1.1 e.1.2 ∈ map (λ e : event, mark e.1.1 e.1.2) ev) as H by (apply list_elem_of_fmap; by exists e).
            rewrite (accepts_marks _ _ _ _ _ _ Hacc) in H. by apply list_elem_of_filter in H as [_ ?]. }
          rewrite Forall_forall in Hpos. specialize (Hpos _ Hin'). by destruct e as [[g' []] p']. }
      destruct (play_mark ev l0 g open p Hnd Hin Hpos ltac:(lia)) as (so & eo & El & Ep). unfold idx. rewrite (proj2 (Z.ltb_ge g 0)) by lia. fold caps in El. rewrite El.
      by destruct open; cbn; subst.
Qed.

Lemma regexec_spec pmatch : ∃ ret pm, regexec preg (s ++ 0 :: rest) pmatch [] = Done ((ret, pm), []) ∧ length pm = length pmatch ∧
  ((ret = REG_NOMATCH ∧ pm = pmatch ∧ ∀ n x a, xs !! n = Some x → as_ !! n = Some a → no_match s x a) ∨
   (ret = 0 ∧ ∃ n x a i j ev, first_match s xs as_ n x a i ∧ matches s (sat_of x) a i j ev ∧ answer pm pmatch n a i j ev)).
Proof.
  destruct start_caps as [Hcl Hroom]. set (caps := if re_nsub preg =? 0 then None else Some (replicate (Z.to_nat (re_nsub preg + 1)) (-1, -1))) in *.
  destruct (alts_loop_spec s rest Hs (re_nsub preg) xs as_ 0 caps Hcomp Hcl Hroom) as (res & caps' & Ea & _ & Hres).
  assert (regexec preg (s ++ 0 :: rest) pmatch [] =
    match (res, caps') with
    | (None, _) => Done ((REG_NOMATCH, pmatch), [])
    | (Some (pos, len), caps) =>
        match pmatch with
        | [] => Done ((0, pmatch), [])
        | _ => (pmatch ← liftO (pmatch.[0 <- (pos, pos + len)]);
             pmatch ← liftO (copy_caps (Z.to_nat (Z.min (re_nsub preg) (Z.of_nat (length pmatch) - 1))) 1 caps pmatch); mret (0, pmatch)) []
        end
    end) as ->.
  { unfold regexec. rewrite Himpl. assert ((if re_nsub preg =? 0 then mret false else alloc) [] = Done (negb (re_nsub preg =? 0), [])) as E by (by destruct (re_nsub preg =? 0)).
    rewrite (bind_done _ _ _ _ _ E). replace (if negb (re_nsub preg =? 0) then _ else None) with caps by (unfold caps; by destruct (re_nsub preg =? 0)).
    rewrite (bind_liftO _ _ _ _ Ea). by destruct res as [[pos l]|], pmatch. }
  destruct res as [[i l]|].
  - destruct Hres as (n & x & a & base & Hf & (j & ev & st & Hm & Hst & -> & Hl) & Hb1 & Hb2). destruct (decide (pmatch = [])) as [-> |Hne].
    + eexists 0, []. split; [done|]. split; [done|]. right. split; [done|]. exists n, x, a, i, j, ev. split; [done|]. split; [done|]. split; [done|]. cbn. lia.
    + destruct (answer_of n x a i l base j ev st pmatch Hne Hf Hm Hl Hb1 Hb2 Hst) as (pm1 & pm & E1 & E2 & Hlen & Hans).
      exists 0, pm. split; [destruct pmatch; [done|]; rewrite (bind_liftO _ _ _ _ E1), (bind_liftO _ _ _ _ E2); done|]. split; [done|]. right. split; [done|]. by exists n, x, a, i, j, ev.
  - exists REG_NOMATCH, pmatch. split; [done|]. split; [done|]. by left.
Qed.
End execution.


