(* ===== verification/LibRegexComp.v ===== *)
(** * From the text of a pattern to a match: regcomp and regexec together

    Patterns as a syntax tree with their text, and what they match.  The lemmas follow
    [regcomp]: ranges are written out, alternatives multiplied out, and each resulting
    pattern compiled; the theorem is that a pattern compiles and that [regexec] finds a
    match exactly when some part of the text is in the language of the tree. *)

From S2P Require Import Prelude LibBase LibCtype LibString LibRegex LibRegexMatch.

Local Open Scope Z_scope.

(** ** Patterns *)

(** A character or a range of them in a class. *)
Inductive set_item : Type := SetChar (c : Z) | SetRange (a b : Z).
(** What matches one character: itself, an escape, any, a named set, a class. *)
Inductive atom : Type := AChar (c : Z) | AEscape (c : Z) | ADot | AMeta (m : Z) | ASet (neg : bool) (l : list set_item).
(** [NAnchor] is ^ or $. *)
Inductive node : Type :=
| NAtom (a : atom) (q : quant)
| NAnchor (begin : bool)
| NGroup (alts : list (list node)).
(** At the top, also ranges; their bounds are given by their digits. *)
Inductive top : Type := TNode (n : node) | TRange (a : atom) (m n : list Z).

(** *** Their text *)

Definition set_item_text (i : set_item) : list Z := match i with SetChar c => [c] | SetRange a b => [a; 45; b] end.
Definition set_text (l : list set_item) : list Z := concat (map set_item_text l).
Definition atom_text (a : atom) : list Z :=
  match a with
  | AChar c => [c]
  | AEscape c | AMeta c => [92; c]
  | ADot => [46]
  | ASet neg l => [91] ++ (if neg then [94] else []) ++ set_text l ++ [93]
  end.
Definition quant_text (q : quant) : list Z := match q with Once => [] | Maybe => [63] | Many => [42] | Again => [43] end.
(** Texts with a bar between them. *)
Fixpoint bars (l : list (list Z)) : list Z :=
  match l with [] => [] | [t] => t | t :: l => t ++ [124] ++ bars l end.
Fixpoint node_text (n : node) : list Z :=
  match n with
  | NAtom a q => atom_text a ++ quant_text q
  | NAnchor begin => [if begin then 94 else 36]
  | NGroup alts => [40] ++ bars (map (λ sq, concat (map node_text sq)) alts) ++ [41]
  end.
Definition seq_text (sq : list node) : list Z := concat (map node_text sq).
Definition alts_text (alts : list (list node)) : list Z := bars (map seq_text alts).
Definition top_text (t : top) : list Z :=
  match t with TNode n => node_text n | TRange a m n => atom_text a ++ [123] ++ m ++ [44] ++ n ++ [125] end.
Definition tops_text (alts : list (list top)) : list Z := bars (map (λ sq, concat (map top_text sq)) alts).

(** *** Well-formed patterns *)

Definition special : list Z := [0; 94; 36; 46; 42; 43; 63; 92; 40; 41; 91; 123; 124].
Definition byte (c : Z) : Prop := 0 < c < 256.
(** A character of a class: not one that has a meaning there or in a group. *)
Definition set_char (c : Z) : Prop := byte c ∧ c ∉ [92; 91; 93; 45; 94; 40; 41].
Definition set_item_ok (i : set_item) : Prop := match i with SetChar c => set_char c | SetRange a b => set_char a ∧ set_char b ∧ s8 a <= s8 b end.
Definition metas : list Z := [100; 68; 119; 87; 115; 83].
Definition atom_ok (a : atom) : Prop :=
  match a with
  | AChar c => byte c ∧ c ∉ special
  | AEscape c => byte c ∧ c ∉ metas ∧ ¬ (49 <= c <= 57)
  | ADot => True
  | AMeta m => m ∈ metas
  | ASet _ l => l ≠ [] ∧ Forall set_item_ok l
  end.
Fixpoint node_ok (n : node) : Prop :=
  match n with
  | NAtom a _ => atom_ok a
  | NAnchor _ => True
  | NGroup alts => alts ≠ [] ∧ foldr and True (map (λ sq, foldr and True (map node_ok sq)) alts)
  end.
Definition digits (ds : list Z) : Prop := ds ≠ [] ∧ Forall (λ c, 48 <= c <= 57) ds.
Definition value10 (ds : list Z) : Z := foldl (λ v c, v * 10 + (c - 48)) 0 ds.
Definition top_ok (t : top) : Prop :=
  match t with TNode n => node_ok n | TRange a m n => atom_ok a ∧ digits m ∧ digits n ∧ value10 m <= value10 n < 2 ^ 31 end.

(** ** Repetition ranges *)

(** [a{m,n}] is [m] times the atom and [n - m] times the optional atom. *)
Definition unrange (t : top) : list node :=
  match t with
  | TNode n => [n]
  | TRange a m n => replicate (Z.to_nat (value10 m)) (NAtom a Once) ++ replicate (Z.to_nat (value10 n - value10 m)) (NAtom a Maybe)
  end.
Definition unranged (alts : list (list top)) : list (list node) := map (λ sq, concat (map unrange sq)) alts.

Section node_induction.
Variable P : node → Prop.
Hypothesis Hatom : ∀ a q, P (NAtom a q).
Hypothesis Hanchor : ∀ b, P (NAnchor b).
Hypothesis Hgroup : ∀ alts, Forall (Forall P) alts → P (NGroup alts).
Fixpoint node_induction (n : node) : P n :=
  match n with
  | NAtom a q => Hatom a q
  | NAnchor b => Hanchor b
  | NGroup alts => Hgroup alts
      ((fix each alts : Forall (Forall P) alts :=
          match alts with
          | [] => Forall_nil_2 _
          | sq :: alts => Forall_cons_2 _ _ _
              ((fix every sq : Forall P sq := match sq with [] => Forall_nil_2 _ | n :: sq => Forall_cons_2 _ _ _ (node_induction n) (every sq) end) sq)
              (each alts)
          end) alts)
  end.
End node_induction.

Lemma node_ok_group alts : node_ok (NGroup alts) ↔ alts ≠ [] ∧ Forall (Forall node_ok) alts.
Proof.
  cbn [node_ok]. assert (∀ sq, foldr and True (map node_ok sq) ↔ Forall node_ok sq) as H1.
  { intros sq. induction sq as [|n sq IH]; cbn; [done|]. by rewrite Forall_cons, IH. }
  assert (foldr and True (map (λ sq, foldr and True (map node_ok sq)) alts) ↔ Forall (Forall node_ok) alts) as ->; [|done].
  induction alts as [|sq alts IH]; cbn; [done|]. by rewrite Forall_cons, IH, H1.
Qed.

(** Membership in a short list of characters. *)
Ltac notin := rewrite !not_elem_of_cons in *; split_and!; first [lia|tauto|apply not_elem_of_nil].

(** A text that the scan takes as one item, whatever follows. *)
Definition unit_text (t : list Z) : Prop := t ≠ [] ∧ head t ≠ Some 123 ∧ ∀ r, item_len (t ++ r) = length t.
(** A text in which the parentheses of groups are matched. *)
Definition balanced (t : list Z) : Prop := ∀ d r, group_span (S d) (t ++ r) = (length t + group_span (S d) r)%nat.

Lemma group_span_0 r : group_span 0 r = 0%nat.
Proof. by destruct r. Qed.
Lemma balanced_nil : balanced [].
Proof. done. Qed.
Lemma balanced_app t u : balanced t → balanced u → balanced (t ++ u).
Proof. intros Ht Hu d r. rewrite <- app_assoc, Ht, Hu, length_app. lia. Qed.
Lemma balanced_concat l : Forall balanced l → balanced (concat l).
Proof. induction 1 as [|t l Ht Hl IH]; [done|]. by apply balanced_app. Qed.
Lemma balanced_char c : c ∉ [92; 40; 41] → balanced [c].
Proof.
  rewrite !not_elem_of_cons. intros (H1 & H2 & H3 & _) d r. cbn [app group_span length]. by rewrite (proj2 (Z.eqb_neq c 92)), (proj2 (Z.eqb_neq c 40)), (proj2 (Z.eqb_neq c 41)).
Qed.
Lemma balanced_escape c : balanced [92; c].
Proof. done. Qed.
Lemma balanced_chars t : Forall (λ c, c ∉ [92; 40; 41]) t → balanced t.
Proof. induction 1 as [|c t Hc Ht IH]; [done|]. by apply (balanced_app [c]); [apply balanced_char|]. Qed.
Lemma balanced_group t : balanced t → balanced ([40] ++ t ++ [41]).
Proof.
  intros Ht d r. rewrite <- !app_assoc. cbn [app group_span]. change (40 =? 92) with false. change (40 =? 40) with true. cbn iota.
  rewrite Ht. cbn [group_span]. change (41 =? 92) with false. change (41 =? 40) with false. change (41 =? 41) with true. cbn iota. rewrite !length_cons, length_app. cbn [length pred]. lia.
Qed.
Lemma balanced_bars l : Forall balanced l → balanced (bars l).
Proof.
  induction 1 as [|t l Ht Hl IH]; [done|]. destruct l as [|u l]; [done|]. cbn [bars]. apply balanced_app; [done|]. apply balanced_app; [by apply balanced_char; notin|done].
Qed.

(** The characters of a class. *)
Lemma set_text_chars l : Forall set_item_ok l → Forall (λ c, byte c ∧ c ∉ [92; 91; 93; 94; 40; 41]) (set_text l).
Proof.
  assert (∀ c, set_char c → byte c ∧ c ∉ [92; 91; 93; 94; 40; 41]) as H.
  { intros c [Hb Hc]. split; [done|notin]. }
  intros Hl. apply Forall_concat, Forall_map. eapply Forall_impl; [exact Hl|]. intros [c|a b]; cbn; [intros Hc; repeat constructor; by apply H|].
  intros (Ha & Hb & _). repeat apply Forall_cons_2; [by apply H| |by apply H|constructor]. unfold byte. split; [lia|notin].
Qed.
Lemma class_span_plain t r : Forall (λ c, c ≠ 92 ∧ c ≠ 93) t → class_span (t ++ 93 :: r) = S (length t).
Proof.
  induction 1 as [|c t [H1 H2] Ht IH]; [done|]. cbn [app class_span]. rewrite (proj2 (Z.eqb_neq c 93)), (proj2 (Z.eqb_neq c 92)) by done. by rewrite IH.
Qed.
Lemma class_inner neg l : Forall set_item_ok l → Forall (λ c, c ≠ 92 ∧ c ≠ 93) ((if neg : bool then [94] else []) ++ set_text l).
Proof.
  intros Hl. apply Forall_app. split; [destruct neg; repeat constructor; lia|]. eapply Forall_impl; [by apply set_text_chars|]. intros c [_ Hc]. rewrite !not_elem_of_cons in Hc. tauto.
Qed.

Lemma atom_unit a : atom_ok a → unit_text (atom_text a).
Proof.
  destruct a as [c|c| |m|neg l]; cbn [atom_ok atom_text].
  - intros [Hb Hc]. unfold special in Hc. rewrite !not_elem_of_cons in Hc. split; [done|]. split; [cbn; naive_solver|]. intros r. cbn [app item_len length].
    rewrite (proj2 (Z.eqb_neq c 92)), (proj2 (Z.eqb_neq c 91)), (proj2 (Z.eqb_neq c 40)) by tauto. done.
  - done.
  - done.
  - done.
  - intros [_ Hl]. split; [done|]. split; [done|]. intros r. cbn [app item_len]. change (91 =? 92) with false. change (91 =? 91) with true. cbn iota. cbn [andb].
    rewrite !app_assoc, <- (app_assoc _ [93] r). cbn [app]. rewrite class_span_plain by (by apply class_inner). rewrite !length_cons, !length_app. cbn [length]. lia.
Qed.
Lemma atom_balanced a : atom_ok a → balanced (atom_text a).
Proof.
  destruct a as [c|c| |m|neg l]; cbn [atom_ok atom_text]; try done.
  - intros [_ Hc]. apply balanced_char. unfold special in Hc. notin.
  - intros [_ Hl]. apply balanced_chars. apply Forall_app. split; [repeat constructor; notin|].
    apply Forall_app. split; [destruct neg; repeat constructor; notin|]. apply Forall_app. split.
    + eapply Forall_impl; [by apply set_text_chars|]. intros c [_ Hc]. notin.
    + repeat constructor; notin.
Qed.

Lemma node_balanced n : node_ok n → balanced (node_text n).
Proof.
  induction n as [a q|b|alts IH] using node_induction.
  - intros Ha. cbn [node_text]. apply balanced_app; [by apply atom_balanced|]. destruct q; [done|apply balanced_char; notin..].
  - intros _. destruct b; apply balanced_char; notin.
  - intros [_ Hok]%node_ok_group. cbn [node_text]. apply balanced_group, balanced_bars, Forall_map. apply Forall_forall. intros sq Hsq.
    rewrite Forall_forall in IH, Hok. apply balanced_concat, Forall_map. specialize (IH sq Hsq). specialize (Hok sq Hsq).
    apply Forall_forall. intros n Hn. rewrite Forall_forall in IH, Hok. by apply IH, Hok.
Qed.
Lemma group_unit alts : node_ok (NGroup alts) → unit_text (node_text (NGroup alts)).
Proof.
  intros Hok. split; [done|]. split; [done|]. intros r. cbn [node_text]. set (t := bars (map (λ sq, concat (map node_text sq)) alts)).
  assert (balanced t) as Hb.
  { pose proof (proj1 (node_ok_group alts) Hok) as [_ Hok']. apply balanced_bars, Forall_map. eapply Forall_impl; [exact Hok'|]. intros sq Hsq. apply balanced_concat, Forall_map.
    eapply Forall_impl; [exact Hsq|]. apply node_balanced. }
  cbn [app item_len]. change (40 =? 92) with false. change (40 =? 91) with false. change (40 =? 40) with true. cbn [andb]. cbn iota.
  rewrite <- app_assoc, Hb. cbn [app group_span]. change (41 =? 92) with false. change (41 =? 40) with false. change (41 =? 41) with true. cbn iota.
  cbn [pred]. rewrite group_span_0, !length_cons, length_app. cbn [length]. lia.
Qed.

(** *** The loop over the items *)

(** An item as it is, or with a range. *)
Inductive piece : Type := Plain (t : list Z) | Ranged (t m n : list Z).
Definition piece_text (p : piece) : list Z := match p with Plain t => t | Ranged t m n => t ++ [123] ++ m ++ [44] ++ n ++ [125] end.
Definition piece_out (p : piece) : list Z :=
  match p with
  | Plain t => t
  | Ranged t m n => concat (replicate (Z.to_nat (value10 m)) t) ++ concat (replicate (Z.to_nat (value10 n - value10 m)) (t ++ [63]))
  end.
Definition piece_ok (p : piece) : Prop :=
  match p with Plain t => unit_text t | Ranged t m n => unit_text t ∧ digits m ∧ digits n ∧ value10 m <= value10 n < 2 ^ 31 end.

Lemma isdigit_digit c : 48 <= c <= 57 → isdigit c = true.
Proof. intros Hc. destruct (ctype_classes c ltac:(lia)) as (_ & _ & -> & _). unfold between. by rewrite (proj2 (Z.leb_le 48 c)), (proj2 (Z.leb_le c 57)) by lia. Qed.

Lemma fold_digits_ge ds v : Forall (λ c, 48 <= c <= 57) ds → 0 <= v → v <= foldl (λ v c, v * 10 + (c - 48)) v ds.
Proof. intros Hd. revert v. induction Hd as [|c ds Hc Hd IH]; intros v Hv; cbn; [lia|]. specialize (IH (v * 10 + (c - 48)) ltac:(lia)). lia. Qed.

Lemma read_int_spec ds v c r : Forall (λ c, 48 <= c <= 57) ds → 0 <= v → foldl (λ v c, v * 10 + (c - 48)) v ds < 2 ^ 31 → isdigit c = false →
  read_int (ds ++ c :: r) v = Some (foldl (λ v c, v * 10 + (c - 48)) v ds, c :: r).
Proof.
  intros Hd. revert v. induction Hd as [|d ds Hdig Hd IH]; intros v Hv Hlt Hc; cbn [app read_int foldl] in *; [by rewrite Hc|]. rewrite isdigit_digit by done.
  pose proof (fold_digits_ge ds (v * 10 + (d - 48)) Hd ltac:(lia)). ints. by apply IH; [lia|..].
Qed.

Lemma range_of_plain r : head r ≠ Some 123 → range_of r = Some (-1, -1, r).
Proof. destruct r as [|c r]; [done|]. intros Hc. unfold range_of. destruct c as [|c|c]; try done. do 7 (destruct c as [c|c|]; try done). Qed.

Lemma range_of_range m n r : digits m → digits n → value10 m < 2 ^ 31 → value10 n < 2 ^ 31 →
  range_of ([123] ++ m ++ [44] ++ n ++ [125] ++ r) = Some (value10 m, value10 n, r).
Proof.
  intros [Hm Dm] [Hn Dn] Lm Ln. cbn [app range_of]. assert (isdigit (default 0 (head (m ++ 44 :: n ++ 125 :: r))) = true) as ->.
  { destruct m as [|d m]; [done|]. cbn. apply isdigit_digit. by apply Forall_cons in Dm as [? _]. }
  rewrite read_int_spec by done. cbn [mbind option_bind]. by rewrite read_int_spec by done.
Qed.

Section range_step.
Variables (fuel : nat) (t : list Z) (r out : list Z) (cap : Z).
Hypothesis Ht : unit_text t.
Hypothesis Hcap : Z.of_nat (length out) < cap < 2 ^ 63.

(** One round of the loop: [text] is what is put out for the item. *)
Lemma range_round rng m n r' text : range_of rng = Some (m, n, r') → r = rng →
  text = (if (0 <=? m) && (m <=? n) then concat (replicate (Z.to_nat m) t) ++ concat (replicate (Z.to_nat (n - m)) (t ++ [63])) else t) →
  (if (0 <=? m) && (m <=? n) then u64 (Z.of_nat (length t) * n + (n - m)) else Z.of_nat (length t)) = Z.of_nat (length text) →
  Z.of_nat (length out) + Z.of_nat (length text) < 2 ^ 60 →
  ∃ cap', range_loop (S fuel) (t ++ r) out cap [] = range_loop fuel r' (out ++ text) cap' [] ∧ Z.of_nat (length (out ++ text)) < cap' < 2 ^ 63.
Proof.
  intros Hrng -> Htext Hneed Hlen. destruct Ht as (Hne & _ & Hunit).
  assert (range_loop (S fuel) (t ++ rng) out cap [] =
    (let full := cap <=? u64 (Z.of_nat (length out) + Z.of_nat (length text) + 1) in
     let cap' := if full then u64 ((cap + Z.of_nat (length text) + 1) * 2) else cap in
     match emit cap' out text with Some out => range_loop fuel r' out cap' [] | None => Undef end)) as ->.
  { destruct t as [|c t0]; [done|]. cbn [app range_loop]. change (c :: t0 ++ rng) with ((c :: t0) ++ rng). rewrite Hunit, take_app_length, drop_app_length.
    cbn zeta. rewrite (bind_liftO _ _ _ _ Hrng). cbn iota beta zeta. rewrite Hneed, <- Htext. destruct (cap <=? u64 (Z.of_nat (length out) + Z.of_nat (length text) + 1)); unfold mbind, M_bind, liftO, alloc, mret, M_ret; cbn [negb];
      by destruct (emit _ out text). }
  cbn zeta. rewrite (u64_small (Z.of_nat (length out) + Z.of_nat (length text) + 1)) by (unfold is_u64; lia).
  destruct (Z.leb_spec cap (Z.of_nat (length out) + Z.of_nat (length text) + 1)) as [Hfull|Hroom].
  - rewrite u64_small by (unfold is_u64; lia). unfold emit. rewrite (proj2 (Z.leb_le _ _)) by lia. eexists. split; [done|]. rewrite length_app. lia.
  - unfold emit. rewrite (proj2 (Z.leb_le _ _)) by lia. eexists. split; [done|]. rewrite length_app. lia.
Qed.
End range_step.

Lemma length_concat_replicate {A} n (t : list A) : length (concat (replicate n t)) = (n * length t)%nat.
Proof. induction n as [|n IH]; [done|]. cbn. rewrite length_app, IH. lia. Qed.

Lemma range_piece fuel p r out cap : piece_ok p → head r ≠ Some 123 → Z.of_nat (length out) < cap < 2 ^ 63 → Z.of_nat (length out) + Z.of_nat (length (piece_out p)) < 2 ^ 60 →
  ∃ cap', range_loop (S fuel) (piece_text p ++ r) out cap [] = range_loop fuel r (out ++ piece_out p) cap' [] ∧ Z.of_nat (length (out ++ piece_out p)) < cap' < 2 ^ 63.
Proof.
  intros Hp Hr Hcap Hlen. destruct p as [t|t m n]; cbn [piece_ok piece_text piece_out] in *.
  - eapply range_round; [done|done|by apply range_of_plain|done|done|done|done].
  - destruct Hp as (Ht & Dm & Dn & Hle & Hlt). rewrite <- app_assoc. assert (0 <= value10 m) as Hm0 by (apply (fold_digits_ge m 0); [apply Dm|lia]).
    rewrite length_app, !length_concat_replicate, length_app in Hlen. cbn [length] in Hlen.
    eapply range_round; [done|done| |reflexivity|..].
    + rewrite <- !app_assoc. apply range_of_range; [done|done|lia|lia].
    + by rewrite (proj2 (Z.leb_le 0 (value10 m))), (proj2 (Z.leb_le (value10 m) (value10 n))) by lia.
    + rewrite (proj2 (Z.leb_le 0 (value10 m))), (proj2 (Z.leb_le (value10 m) (value10 n))) by lia. cbn [andb]. rewrite length_app, !length_concat_replicate, length_app. cbn [length].
      rewrite u64_small by (unfold is_u64; nia). nia.
    + rewrite length_app, !length_concat_replicate, length_app. cbn [length]. lia.
Qed.

Lemma piece_text_start p : piece_ok p → (1 <= length (piece_text p))%nat ∧ ∀ r, head (piece_text p ++ r) ≠ Some 123.
Proof.
  assert (∀ t, unit_text t → (1 <= length t)%nat ∧ ∀ r, head (t ++ r) ≠ Some 123) as H by (intros [|c t] (H1 & H2 & _); [done|]; split; [cbn; lia|done]).
  destruct p as [t|t m n]; cbn; [apply H|]. intros [Ht _]. destruct (H t Ht) as [H1 H2]. split; [rewrite length_app; lia|]. intros r. rewrite <- app_assoc. apply H2.
Qed.
Lemma pieces_start ps : Forall piece_ok ps → head (concat (map piece_text ps)) ≠ Some 123.
Proof. intros [|p ps' Hp _]; [done|]. cbn. by apply piece_text_start. Qed.
Lemma pieces_length ps : Forall piece_ok ps → (length ps <= length (concat (map piece_text ps)))%nat.
Proof. induction 1 as [|p ps Hp Hps IH]; [done|]. cbn. rewrite length_app. pose proof (proj1 (piece_text_start p Hp)). lia. Qed.

Lemma range_pieces ps fuel out cap : Forall piece_ok ps → (length ps < fuel)%nat → Z.of_nat (length out) < cap < 2 ^ 63 →
  Z.of_nat (length out) + Z.of_nat (length (concat (map piece_out ps))) < 2 ^ 60 →
  range_loop fuel (concat (map piece_text ps)) out cap [] = Done (Some (out ++ concat (map piece_out ps)), []).
Proof.
  intros Hps. revert fuel out cap. induction Hps as [|p ps Hp Hps IH]; intros fuel out cap Hfuel Hcap Hlen; destruct fuel as [|fuel]; try (cbn in Hfuel; lia).
  - cbn [map concat range_loop]. rewrite app_nil_r. unfold emit. cbn [length]. rewrite (proj2 (Z.leb_le _ _)) by lia. unfold mbind, M_bind, liftO, mret, M_ret.
    rewrite length_app. cbn [length]. rewrite Nat.add_1_r. cbn [pred]. by rewrite take_app_length.
  - cbn [map concat] in *. rewrite length_app in Hlen.
    destruct (range_piece fuel p (concat (map piece_text ps)) out cap Hp (pieces_start ps Hps) Hcap ltac:(lia)) as (cap' & -> & Hcap').
    rewrite app_assoc. apply IH; [cbn in Hfuel; lia|done|]. rewrite length_app. lia.
Qed.

(** The pieces of a pattern. *)
Definition node_pieces (n : node) : list piece :=
  match n with
  | NAtom a q => Plain (atom_text a) :: match q with Once => [] | _ => [Plain (quant_text q)] end
  | _ => [Plain (node_text n)]
  end.
Definition top_pieces (t : top) : list piece := match t with TNode n => node_pieces n | TRange a m n => [Ranged (atom_text a) m n] end.
Fixpoint bar_pieces (l : list (list piece)) : list piece :=
  match l with [] => [] | [t] => t | t :: l => t ++ [Plain [124]] ++ bar_pieces l end.

Lemma bar_pieces_map {A} (f : piece → list A) (g : list (list A) → list A) l : (g [] = []) → (∀ t, g [t] = t) → (∀ t u l, g (t :: u :: l) = t ++ f (Plain [124]) ++ g (u :: l)) →
  concat (map f (bar_pieces l)) = g (map (λ ps, concat (map f ps)) l).
Proof.
  intros H0 H1 H2. induction l as [|ps l IH]; [by cbn; rewrite H0|]. destruct l as [|qs l]; [by cbn; rewrite H1|]. cbn [bar_pieces map]. rewrite H2, !map_app, !concat_app. cbn [map concat].
  rewrite app_nil_r. do 2 f_equal. exact IH.
Qed.
Lemma bar_pieces_ok l : Forall (Forall piece_ok) l → Forall piece_ok (bar_pieces l).
Proof. induction 1 as [|ps l Hps Hl IH]; [done|]. destruct l as [|qs l]; [done|]. cbn [bar_pieces]. apply Forall_app. split; [done|]. by constructor. Qed.

Lemma node_pieces_text n : concat (map piece_text (node_pieces n)) = node_text n ∧ concat (map piece_out (node_pieces n)) = node_text n.
Proof. destruct n as [a []|b|alts]; cbn; by rewrite ?app_nil_r. Qed.
Lemma concat_replicate_map {A B} (f : A → list B) n x : concat (replicate n (f x)) = concat (map f (replicate n x)).
Proof. induction n as [|n IH]; [done|]. cbn. by rewrite IH. Qed.
Lemma top_pieces_text t : concat (map piece_text (top_pieces t)) = top_text t ∧ concat (map piece_out (top_pieces t)) = seq_text (unrange t).
Proof.
  destruct t as [n|a m n]; cbn [top_pieces top_text unrange seq_text map concat].
  - rewrite app_nil_r. apply node_pieces_text.
  - unfold seq_text. cbn [piece_text piece_out]. rewrite !app_nil_r. split; [done|]. rewrite map_app, concat_app. f_equal.
    + rewrite <- (concat_replicate_map node_text). cbn. by rewrite app_nil_r.
    + by rewrite <- (concat_replicate_map node_text).
Qed.
Lemma top_pieces_ok t : top_ok t → Forall piece_ok (top_pieces t).
Proof.
  destruct t as [[a q|b|alts]|a m n]; cbn [top_ok top_pieces node_pieces].
  - intros Ha. constructor; [by apply atom_unit|]. by destruct q; repeat constructor.
  - intros _. destruct b; by repeat constructor.
  - intros Hg. constructor; [by apply group_unit|constructor].
  - intros (Ha & Hm & Hn & Hv). constructor; [|constructor]. split; [by apply atom_unit|done].
Qed.

(** [expand_ranges] writes the ranges out. *)
Lemma expand_ranges_spec alts : Forall (Forall top_ok) alts → Z.of_nat (length (tops_text alts)) < 2 ^ 60 → Z.of_nat (length (alts_text (unranged alts))) < 2 ^ 60 →
  expand_ranges (tops_text alts) [] = Done (Some (alts_text (unranged alts)), []).
Proof.
  intros Hok Hl0 Hl1. set (ps := bar_pieces (map (λ sq, concat (map top_pieces sq)) alts)).
  assert (∀ {A} (f : piece → list A) sq, concat (map f (concat (map top_pieces sq))) = concat (map (λ t, concat (map f (top_pieces t))) sq)) as Hcc.
  { intros A f sq. induction sq as [|t sq IH]; [done|]. cbn. by rewrite map_app, concat_app, IH. }
  assert (concat (map piece_text ps) = tops_text alts) as E0.
  { unfold ps, tops_text. rewrite (bar_pieces_map piece_text bars) by done. f_equal. rewrite map_map. apply map_ext. intros sq. rewrite Hcc. f_equal. apply map_ext. intros t. apply top_pieces_text. }
  assert (concat (map piece_out ps) = alts_text (unranged alts)) as E1.
  { unfold ps, alts_text, unranged. rewrite (bar_pieces_map piece_out bars) by done. f_equal. rewrite !map_map. apply map_ext. intros sq. rewrite Hcc. unfold seq_text.
    rewrite concat_map, !map_map. induction sq as [|t sq IH]; [done|]. cbn. rewrite concat_app, IH. f_equal. apply top_pieces_text. }
  assert (Forall piece_ok ps) as Hps.
  { apply bar_pieces_ok, Forall_map. eapply Forall_impl; [exact Hok|]. intros sq Hsq. apply Forall_concat, Forall_map. eapply Forall_impl; [exact Hsq|]. apply top_pieces_ok. }
  unfold expand_ranges. rewrite <- E0 in *. rewrite <- E1 in *. assert (alloc [] = Done (true, [])) as Ea by done. rewrite (bind_done _ _ _ _ _ Ea). cbn [negb].
  pose proof (pieces_length ps Hps). apply range_pieces; [done|lia|cbn [length]; lia|cbn [length]; lia].
Qed.

(** ** Alternatives multiplied out *)

Inductive flat : Type := FAtom (a : atom) (q : quant) | FAnchor (begin : bool) | FOpen | FClose.
Definition flat_text (f : flat) : list Z :=
  match f with FAtom a q => atom_text a ++ quant_text q | FAnchor b => [if b then 94 else 36] | FOpen => [40] | FClose => [41] end.
Definition flats_text (fs : list flat) : list Z := concat (map flat_text fs).

(** All ways to choose one of each, the first choice varying slowest. *)
Definition product {A} (l : list (list (list A))) : list (list A) := foldr (λ ys zs, concat (map (λ y, map (app y) zs) ys)) [[]] l.
Fixpoint expand_node (n : node) : list (list flat) :=
  match n with
  | NAtom a q => [[FAtom a q]]
  | NAnchor b => [[FAnchor b]]
  | NGroup alts => map (λ y, [FOpen] ++ y ++ [FClose]) (concat (map (λ sq, product (map expand_node sq)) alts))
  end.
Definition expand_seq (sq : list node) : list (list flat) := product (map expand_node sq).
Definition expand_all (alts : list (list node)) : list (list flat) := concat (map expand_seq alts).

Lemma flats_text_app a b : flats_text (a ++ b) = flats_text a ++ flats_text b.
Proof. unfold flats_text. by rewrite map_app, concat_app. Qed.

(** *** The lists, when there is memory *)

Lemma list_add_spec l t : ∃ k, list_add l t [] = Done (Some (mk_list (items l ++ [t]) k), []).
Proof. unfold list_add. destruct (cap l <=? Z.of_nat (length (items l))); by eexists. Qed.
Lemma add_segment_spec l t : ∃ k, add_segment l t [] = Done (Some (mk_list (items l ++ [t]) k), []).
Proof. destruct (list_add_spec l t) as [k Ek]. exists k. exact Ek. Qed.
Lemma append_all_spec l t : append_all l t [] = Done (map (λ x, x ++ t) l, []).
Proof. induction l as [|x l IH]; [done|]. cbn [append_all map]. unfold mbind, M_bind, alloc in *. cbn [negb]. by rewrite IH. Qed.
Lemma add_all_spec l out : ∃ k, add_all l out [] = Done (Some (mk_list (items out ++ l) k), []).
Proof.
  revert out. induction l as [|x l IH]; intros out; cbn [add_all]; [exists (cap out); rewrite app_nil_r; by destruct out|].
  destruct (list_add_spec out x) as [k Ek]. rewrite (bind_done _ _ _ _ _ Ek). destruct (IH (mk_list (items out ++ [x]) k)) as [k' Ek']. exists k'. rewrite Ek'. cbn [items]. by rewrite <- app_assoc.
Qed.
Lemma combine_one_spec x sub newl : ∃ k, combine_one x sub newl [] = Done (Some (mk_list (items newl ++ map (λ y, x ++ [40] ++ y ++ [41]) sub) k), []).
Proof.
  revert newl. induction sub as [|y sub IH]; intros newl; cbn [combine_one map]; [exists (cap newl); rewrite app_nil_r; by destruct newl|].
  assert (alloc [] = Done (true, [])) as Ea by done. rewrite (bind_done _ _ _ _ _ Ea). cbn [negb].
  destruct (list_add_spec newl (x ++ [40] ++ y ++ [41])) as [k Ek]. rewrite (bind_done _ _ _ _ _ Ek).
  destruct (IH (mk_list (items newl ++ [x ++ [40] ++ y ++ [41]]) k)) as [k' Ek']. exists k'. rewrite Ek'. cbn [items]. by rewrite <- app_assoc.
Qed.
Lemma combine_spec cur sub newl : ∃ k, combine cur sub newl [] = Done (Some (mk_list (items newl ++ concat (map (λ x, map (λ y, x ++ [40] ++ y ++ [41]) sub) cur)) k), []).
Proof.
  revert newl. induction cur as [|x cur IH]; intros newl; cbn [combine map concat]; [exists (cap newl); rewrite app_nil_r; by destruct newl|].
  destruct (combine_one_spec x sub newl) as [k Ek]. rewrite (bind_done _ _ _ _ _ Ek).
  destruct (IH (mk_list (items newl ++ map (λ y, x ++ [40] ++ y ++ [41]) sub) k)) as [k' Ek']. exists k'. rewrite Ek'. cbn [items]. by rewrite <- app_assoc.
Qed.

(** *** Splitting at the bars *)

(** The scan passes over the text, from a level that is at least [lo]. *)
Definition passes (lo : nat) (t : list Z) : Prop :=
  ∀ level r cur seg, (lo <= level)%nat → split_loop (t ++ r) cur level false seg = split_loop r (cur ++ t) level false seg.

Lemma passes_nil lo : passes lo [].
Proof. intros level r cur seg _. by rewrite app_nil_r. Qed.
Lemma passes_app lo t u : passes lo t → passes lo u → passes lo (t ++ u).
Proof. intros Ht Hu level r cur seg Hl. by rewrite <- app_assoc, Ht, Hu, app_assoc. Qed.
Lemma passes_concat lo l : Forall (passes lo) l → passes lo (concat l).
Proof. induction 1 as [|t l Ht Hl IH]; [apply passes_nil|]. by apply passes_app. Qed.
Lemma passes_weaken lo hi t : (lo <= hi)%nat → passes lo t → passes hi t.
Proof. intros Hle Ht level r cur seg Hl. apply Ht. lia. Qed.

(** A character that is not a backslash, whatever follows it. *)
Lemma split_char c r cur level cls seg : c ≠ 92 →
  split_loop (c :: r) cur level cls seg =
    if cls then split_loop r (cur ++ [c]) level (negb (c =? 93)) seg
    else if c =? 91 then split_loop r (cur ++ [c]) level true seg
    else if c =? 40 then split_loop r (cur ++ [c]) (S level) cls seg
    else if (c =? 41) && (0 <? level)%nat then split_loop r (cur ++ [c]) (pred level) cls seg
    else if (c =? 124) && (level =? 0)%nat then
      seg ← add_segment seg cur; match seg with None => mret None | Some seg => split_loop r [] level cls seg end
    else split_loop r (cur ++ [c]) level cls seg.
Proof. intros Hc. cbn [split_loop]. rewrite (proj2 (Z.eqb_neq c 92)) by done. by destruct r. Qed.

Lemma passes_char c lo : c ∉ [92; 91; 40; 41; 124] → passes lo [c].
Proof.
  rewrite !not_elem_of_cons. intros (H1 & H2 & H3 & H4 & H5 & _) level r cur seg _. cbn [app]. rewrite split_char by done.
  by rewrite (proj2 (Z.eqb_neq c 91)), (proj2 (Z.eqb_neq c 40)), (proj2 (Z.eqb_neq c 41)), (proj2 (Z.eqb_neq c 124)).
Qed.
Lemma passes_escape c lo : passes lo [92; c].
Proof. by intros level r cur seg _. Qed.
Lemma split_class t r cur level seg : Forall (λ c, c ≠ 92 ∧ c ≠ 93) t → split_loop (t ++ 93 :: r) cur level true seg = split_loop r (cur ++ t ++ [93]) level false seg.
Proof.
  intros Ht. revert cur. induction Ht as [|c t [H1 H2] Ht IH]; intros cur; cbn [app]; rewrite split_char by (done || lia); [done|].
  rewrite (proj2 (Z.eqb_neq c 93)) by done. cbn [negb]. rewrite IH. by rewrite <- app_assoc.
Qed.
Lemma passes_atom a lo : atom_ok a → passes lo (atom_text a).
Proof.
  destruct a as [c|c| |m|neg l]; cbn [atom_ok atom_text]; intros Ha.
  - apply passes_char. destruct Ha as [_ Hc]. unfold special in Hc. notin.
  - apply passes_escape.
  - apply passes_char. notin.
  - apply passes_escape.
  - intros level r cur seg _. cbn [app]. rewrite split_char by lia. change (91 =? 91) with true. cbn iota. destruct Ha as [_ Hl].
    rewrite !app_assoc, <- (app_assoc _ [93] r). cbn [app]. rewrite split_class by (by apply class_inner). by rewrite <- app_assoc.
Qed.
Lemma passes_group t lo : passes 1 t → passes lo ([40] ++ t ++ [41]).
Proof.
  intros Ht level r cur seg _. rewrite <- !app_assoc. cbn [app]. rewrite split_char by lia. change (40 =? 91) with false. change (40 =? 40) with true. cbn iota.
  rewrite Ht, split_char by lia. change (41 =? 91) with false. change (41 =? 40) with false. change (41 =? 41) with true. cbn [andb Nat.ltb Nat.leb pred]. cbn iota. by rewrite <- !app_assoc.
Qed.
Lemma passes_bars l : Forall (passes 1) l → passes 1 (bars l).
Proof.
  induction 1 as [|t l Ht Hl IH]; [apply passes_nil|]. destruct l as [|u l]; [done|]. cbn [bars]. apply passes_app; [done|]. apply passes_app; [|done].
  intros level r cur seg Hlev. cbn [app]. rewrite split_char by lia. change (124 =? 91) with false. change (124 =? 40) with false. change (124 =? 41) with false. cbn [andb]. cbn iota.
  rewrite (proj2 (Nat.eqb_neq level 0)) by lia. by rewrite andb_false_r.
Qed.
Lemma passes_node n lo : node_ok n → passes lo (node_text n).
Proof.
  revert lo. induction n as [a q|b|alts IH] using node_induction; intros lo.
  - intros Ha. cbn [node_text]. apply passes_app; [by apply passes_atom|]. destruct q; [apply passes_nil|apply passes_char; notin..].
  - intros _. destruct b; apply passes_char; notin.
  - intros [_ Hok]%node_ok_group. cbn [node_text]. apply passes_group, passes_bars, Forall_map, Forall_forall. intros sq Hsq.
    rewrite Forall_forall in IH, Hok. specialize (IH sq Hsq). specialize (Hok sq Hsq). apply passes_concat, Forall_map, Forall_forall. intros n Hn. rewrite Forall_forall in IH, Hok. by apply IH, Hok.
Qed.
Lemma passes_seq sq : Forall node_ok sq → passes 0 (seq_text sq).
Proof. intros Hok. apply passes_concat, Forall_map. eapply Forall_impl; [exact Hok|]. intros n Hn. by apply passes_node. Qed.

Lemma split_bars ts seg : Forall (passes 0) ts → ts ≠ [] →
  ∃ seg' last, split_loop (bars ts) [] 0 false seg [] = Done (Some (seg', last), []) ∧ items seg' ++ [last] = items seg ++ ts.
Proof.
  intros Hts. revert seg. induction Hts as [|t ts Ht Hts IH]; intros seg Hne; [done|]. destruct ts as [|u ts].
  - exists seg, t. cbn [bars]. rewrite <- (app_nil_r t) at 1. rewrite Ht by lia. done.
  - change (bars (t :: u :: ts)) with (t ++ [124] ++ bars (u :: ts)). rewrite Ht by lia. change ([124] ++ bars (u :: ts)) with (124 :: bars (u :: ts)). rewrite split_char by lia. change (124 =? 91) with false. change (124 =? 40) with false. change (124 =? 41) with false. change (124 =? 124) with true.
    cbn [andb Nat.eqb]. cbn iota. destruct (add_segment_spec seg t) as [k Ek]. rewrite (bind_done _ _ _ _ _ Ek).
    destruct (IH (mk_list (items seg ++ [t]) k) ltac:(done)) as (seg' & last & -> & El). exists seg', last. split; [done|]. rewrite El. cbn [items]. by rewrite <- app_assoc.
Qed.

(** *** Groups *)

Section group_loop.
Variable ex : list Z → strlist → M (list bool) (option strlist).

Lemma group_char fuel c r cur : c ∉ [92; 91; 40] → group_loop ex (S fuel) (c :: r) cur [] = group_loop ex fuel r (mk_list (map (λ x, x ++ [c]) (items cur)) (cap cur)) [].
Proof.
  rewrite !not_elem_of_cons. intros (H1 & H2 & H3 & _). cbn [group_loop]. rewrite (proj2 (Z.eqb_neq c 92)), (proj2 (Z.eqb_neq c 91)), (proj2 (Z.eqb_neq c 40)) by done.
  cbn [andb]. by rewrite (bind_done _ _ _ _ _ (append_all_spec _ _)).
Qed.
Lemma group_atom fuel a r cur : atom_ok a →
  group_loop ex (S fuel) (atom_text a ++ r) cur [] = group_loop ex fuel r (mk_list (map (λ x, x ++ atom_text a) (items cur)) (cap cur)) [].
Proof.
  assert (∀ c, group_loop ex (S fuel) ([92; c] ++ r) cur [] = group_loop ex fuel r (mk_list (map (λ x, x ++ [92; c]) (items cur)) (cap cur)) []) as Hesc.
  { intros c. cbn [app group_loop]. change (92 =? 92) with true. rewrite bool_decide_eq_false_2 by done. cbn [andb negb take drop].
    rewrite (bind_done _ _ _ _ _ (append_all_spec _ _)). by destruct r. }
  destruct a as [c|c| |m|neg l]; cbn [atom_ok atom_text]; intros Ha; [|apply Hesc| |apply Hesc|].
  - apply group_char. destruct Ha as [_ Hc]. unfold special in Hc. notin.
  - apply group_char. notin.
  - destruct Ha as [_ Hl]. set (inner := (if neg then [94] else []) ++ set_text l).
    replace ([91] ++ (if neg then [94] else []) ++ set_text l ++ [93]) with (91 :: inner ++ [93]) by (unfold inner; by rewrite <- app_assoc).
    cbn [app group_loop]. change (91 =? 92) with false. change (91 =? 91) with true. cbn [andb]. cbn iota. rewrite <- app_assoc. cbn [app].
    rewrite class_span_plain by (by apply class_inner). assert (∀ {A} (x y : A) u v, take (S (S (length u))) (x :: u ++ y :: v) = x :: u ++ [y] ∧ drop (S (S (length u))) (x :: u ++ y :: v) = v) as Htd.
    { intros A x y u v. cbn [take drop]. change (u ++ y :: v) with (u ++ [y] ++ v). rewrite app_assoc. replace (S (length u)) with (length (u ++ [y])) by (rewrite length_app; cbn; lia).
      by rewrite take_app_length, drop_app_length. }
    destruct (Htd Z 91 93 inner r) as [-> ->]. by rewrite (bind_done _ _ _ _ _ (append_all_spec _ _)).
Qed.

(** What the loop makes of a sequence, given what the recursive calls make of the
    insides of its groups. *)
Variable bound : nat.
Hypothesis Hex : ∀ alts, alts ≠ [] → Forall (Forall node_ok) alts → (length (alts_text alts) < bound)%nat →
  ∃ k, ex (alts_text alts) empty_list [] = Done (Some (mk_list (map flats_text (expand_all alts)) k), []).

Definition extended (l : list (list Z)) (fss : list (list flat)) : list (list Z) := concat (map (λ x, map (λ fs, x ++ flats_text fs) fss) l).

Lemma extended_one l fs : extended l [fs] = map (λ x, x ++ flats_text fs) l.
Proof. unfold extended. cbn [map]. induction l as [|x l IH]; [done|]. cbn [map concat app]. by rewrite IH. Qed.
Lemma extended_app l a b : extended (extended l a) b = extended l (concat (map (λ y, map (app y) b) a)).
Proof.
  unfold extended. induction l as [|x l IH]; [done|]. cbn [map concat]. rewrite map_app, concat_app, IH. f_equal. clear IH.
  induction a as [|y a IH]; [done|]. cbn [map concat]. rewrite map_app, IH. f_equal. rewrite map_map. apply map_ext. intros z. by rewrite flats_text_app, app_assoc.
Qed.

Lemma group_node n fuel r cur : node_ok n → (length (node_text n) <= fuel)%nat → (length (node_text n) <= bound)%nat →
  ∃ fuel' k, (fuel <= fuel' + length (node_text n))%nat ∧ group_loop ex fuel (node_text n ++ r) cur [] = group_loop ex fuel' r (mk_list (extended (items cur) (expand_node n)) k) [].
Proof.
  destruct n as [a q|b|alts].
  - intros Ha Hf _. cbn [node_text expand_node] in *. rewrite extended_one. unfold flats_text. cbn [map concat flat_text]. rewrite app_nil_r. rewrite length_app in *.
    assert (1 <= length (atom_text a))%nat as H1 by (destruct (atom_unit a Ha) as (H & _); destruct (atom_text a); [done|cbn; lia]). destruct fuel as [|fuel]; [lia|].
    destruct q; cbn [quant_text] in *.
    + exists fuel, (cap cur). split; [lia|]. rewrite !app_nil_r. by apply group_atom.
    + destruct fuel as [|fuel]; [cbn in Hf; lia|]. exists fuel, (cap cur). split; [cbn; lia|]. rewrite <- app_assoc, group_atom by done. cbn [app]. rewrite group_char by notin. cbn [items cap].
      rewrite map_map. do 2 f_equal. apply map_ext. intros x. by rewrite <- app_assoc.
    + destruct fuel as [|fuel]; [cbn in Hf; lia|]. exists fuel, (cap cur). split; [cbn; lia|]. rewrite <- app_assoc, group_atom by done. cbn [app]. rewrite group_char by notin. cbn [items cap].
      rewrite map_map. do 2 f_equal. apply map_ext. intros x. by rewrite <- app_assoc.
    + destruct fuel as [|fuel]; [cbn in Hf; lia|]. exists fuel, (cap cur). split; [cbn; lia|]. rewrite <- app_assoc, group_atom by done. cbn [app]. rewrite group_char by notin. cbn [items cap].
      rewrite map_map. do 2 f_equal. apply map_ext. intros x. by rewrite <- app_assoc.
  - intros _ Hf _. cbn [node_text expand_node] in *. rewrite extended_one. unfold flats_text. cbn [map concat flat_text]. rewrite app_nil_r. destruct fuel as [|fuel]; [cbn in Hf; lia|].
    exists fuel, (cap cur). split; [cbn; lia|]. destruct b; apply group_char; notin.
  - intros Hok Hf Hbound. pose proof (proj1 (node_ok_group alts) Hok) as [Hne Hok']. destruct (group_unit alts Hok) as (_ & _ & Hunit). cbn [node_text] in *. fold (alts_text alts) in *.
    change (bars (map (λ sq, concat (map node_text sq)) alts)) with (alts_text alts) in *. set (t := alts_text alts) in *. rewrite !length_app in *. cbn [length] in *.
    destruct fuel as [|fuel]; [lia|]. exists fuel. rewrite <- !app_assoc. cbn [app group_loop]. change (40 =? 92) with false. change (40 =? 91) with false. change (40 =? 40) with true. cbn [andb]. cbn iota.
    assert (group_span 1 (t ++ 41 :: r) = S (length t)) as Hspan.
    { specialize (Hunit r). rewrite <- !app_assoc in Hunit. cbn [app item_len] in Hunit. change (40 =? 92) with false in Hunit. change (40 =? 91) with false in Hunit. change (40 =? 40) with true in Hunit.
      cbn [andb] in Hunit. cbn iota in Hunit. lia. }
    rewrite Hspan. cbn [group_inside]. rewrite take_app_length. assert (alloc [] = Done (true, [])) as Ea by done. rewrite (bind_done _ _ _ _ _ Ea). cbn [negb].
    destruct (Hex alts Hne Hok' ltac:(fold t; lia)) as [k Ek]. fold t in Ek. rewrite (bind_done _ _ _ _ _ Ek). cbn [items].
    destruct (combine_spec (items cur) (map flats_text (expand_all alts)) empty_list) as [k' Ek']. rewrite (bind_done _ _ _ _ _ Ek'). exists k'. split; [lia|]. f_equal.
    + replace (t ++ 41 :: r) with ((t ++ [41]) ++ r) by (by rewrite <- app_assoc). replace (S (length t)) with (length (t ++ [41])) by (rewrite length_app; cbn; lia). by rewrite drop_app_length.
    + cbn [items empty_list app]. f_equal. unfold extended. f_equal. apply map_ext. intros x. cbn [expand_node]. fold (expand_all alts). rewrite !map_map. apply map_ext. intros fs.
      rewrite !flats_text_app. done.
Qed.

Lemma group_seq sq fuel cur : Forall node_ok sq → (length (seq_text sq) < fuel)%nat → (length (seq_text sq) <= bound)%nat →
  ∃ k, group_loop ex fuel (seq_text sq) cur [] = Done (Some (mk_list (extended (items cur) (expand_seq sq)) k), []).
Proof.
  intros Hok. revert fuel cur. induction Hok as [|n sq Hn Hok IH]; intros fuel cur Hf Hb.
  - destruct fuel as [|fuel]; [lia|]. exists (cap cur). cbn [seq_text map concat group_loop]. unfold expand_seq. cbn [map product foldr]. rewrite extended_one.
    change (flats_text []) with (@nil Z). rewrite (map_ext _ id) by (intros x; apply app_nil_r). rewrite map_id. by destruct cur.
  - unfold seq_text in *. cbn [map concat] in *. rewrite length_app in *. destruct (group_node n fuel (concat (map node_text sq)) cur Hn ltac:(lia) ltac:(lia)) as (fuel' & k & Hf' & ->).
    destruct (IH fuel' (mk_list (extended (items cur) (expand_node n)) k) ltac:(lia) ltac:(lia)) as [k' Ek']. exists k'. rewrite Ek'. cbn [items]. by rewrite extended_app.
Qed.
End group_loop.

Lemma bars_app_length t l : (length t <= length (bars (t :: l)))%nat ∧ (l ≠ [] → length (bars (t :: l)) = length t + 1 + length (bars l))%nat.
Proof. destruct l as [|u l]; [done|]. change (bars (t :: u :: l)) with (t ++ [124] ++ bars (u :: l)). rewrite !length_app. cbn [length]. split; lia. Qed.
Lemma bars_part t l : t ∈ l → (2 <= length l)%nat → (length t < length (bars l))%nat.
Proof.
  induction l as [|u l IH]; [by intros ?%elem_of_nil|]. intros Hin H2. cbn in H2. destruct l as [|v l]; [cbn in H2; lia|]. destruct (bars_app_length u (v :: l)) as [_ Hlen].
  rewrite Hlen by done. apply elem_of_cons in Hin as [-> |Hin]; [lia|]. destruct l as [|w l].
  - apply list_elem_of_singleton in Hin as ->. cbn [bars]. lia.
  - specialize (IH Hin ltac:(cbn; lia)). lia.
Qed.

Lemma each_segment_spec {A} ex (l : list A) (text : A → list Z) (outs : A → list (list Z)) out :
  (∀ x out, x ∈ l → ∃ k, ex (text x) out [] = Done (Some (mk_list (items out ++ outs x) k), [])) →
  ∃ k, each_segment ex (map text l) out [] = Done (Some (mk_list (items out ++ concat (map outs l)) k), []).
Proof.
  revert out. induction l as [|x l IH]; intros out Hex; cbn [each_segment map concat]; [exists (cap out); rewrite app_nil_r; by destruct out|].
  destruct (Hex x out ltac:(constructor)) as [k Ek]. rewrite (bind_done _ _ _ _ _ Ek).
  destruct (IH (mk_list (items out ++ outs x) k)) as [k' Ek']; [intros u o Hu; apply Hex; by constructor|]. exists k'. rewrite Ek'. cbn [items]. by rewrite <- app_assoc.
Qed.

(** [expand_alts] gives the texts of all choices. *)
Lemma expand_alts_spec fuel alts out : alts ≠ [] → Forall (Forall node_ok) alts → (length (alts_text alts) < fuel)%nat →
  ∃ k, expand_alts fuel (alts_text alts) out [] = Done (Some (mk_list (items out ++ map flats_text (expand_all alts)) k), []).
Proof.
  revert alts out. induction fuel as [|fuel IH]; intros alts out Hne Hok Hf; [lia|]. cbn [expand_alts].
  assert (Forall (passes 0) (map seq_text alts)) as Hp by (apply Forall_map; eapply Forall_impl; [exact Hok|]; apply passes_seq).
  destruct (split_bars (map seq_text alts) empty_list Hp ltac:(by destruct alts)) as (seg & last & Es & Eseg). fold (alts_text alts) in Es. rewrite (bind_done _ _ _ _ _ Es).
  destruct (add_segment_spec seg last) as [k Ek]. rewrite (bind_done _ _ _ _ _ Ek). cbn [items]. rewrite Eseg. cbn [items empty_list app]. rewrite length_map.
  destruct (Nat.ltb_spec 1 (length alts)) as [Hmany|Hone].
  - destruct (each_segment_spec (expand_alts fuel) alts seq_text (λ sq, map flats_text (expand_seq sq)) out) as [k' Ek'].
    { intros sq o Hsq. destruct (IH [sq] o ltac:(done)) as [k' Ek'].
      - constructor; [|done]. rewrite Forall_forall in Hok. by apply Hok.
      - pose proof (bars_part (seq_text sq) (map seq_text alts) ltac:(apply list_elem_of_fmap; by exists sq) ltac:(rewrite length_map; lia)) as Hlt.
        fold (alts_text alts) in Hlt. change (alts_text [sq]) with (seq_text sq). lia.
      - exists k'. unfold expand_all in Ek'. cbn [map concat] in Ek'. rewrite app_nil_r in Ek'. exact Ek'. }
    exists k'. rewrite Ek'. unfold expand_all. by rewrite concat_map, map_map.
  - destruct alts as [|sq [|]]; [done| |cbn in Hone; lia]. change (alts_text [sq]) with (seq_text sq) in *. assert (alloc [] = Done (true, [])) as Ea by done. rewrite (bind_done _ _ _ _ _ Ea). cbn [negb].
    destruct (list_add_spec empty_list []) as [k1 E1]. rewrite (bind_done _ _ _ _ _ E1). apply Forall_cons in Hok as [Hok _].
    destruct (group_seq (expand_alts fuel) fuel) with (sq := sq) (fuel := S (length (seq_text sq))) (cur := mk_list (items empty_list ++ [[]]) k1) as [k2 E2]; [|done|lia|lia|].
    { intros a Ha Hoka Hla. destruct (IH a empty_list Ha Hoka Hla) as [k2 E2]. by exists k2. }
    rewrite (bind_done _ _ _ _ _ E2). cbn [items]. destruct (add_all_spec (extended ([[]]) (expand_seq sq)) out) as [k3 E3]. exists k3. etrans; [exact E3|]. do 4 f_equal.
    unfold extended, expand_all. cbn [map concat]. by rewrite !app_nil_r.
Qed.

(** ** Compiling *)

(** The token of an atom when [k] bytes of classes have been written, and the bytes it
    adds to them. *)
Definition atom_token (a : atom) (k : Z) : token :=
  match a with
  | AChar c | AEscape c => CHAR c
  | ADot => DOT
  | AMeta m => escape m
  | ASet neg _ => if neg then INV_CHAR_CLASS (1 + k) else CHAR_CLASS (1 + k)
  end.
Definition atom_bytes (a : atom) : list Z := match a with ASet _ l => set_text l ++ [0] | _ => [] end.
Definition flat_step (s : compile_state) (f : flat) : compile_state :=
  match f with
  | FAtom a q => mk_cs (toks s ++ atom_token a (Z.of_nat (length (ccl s))) :: quant_tokens q) (ccl s ++ atom_bytes a) (stack s) (groups s)
  | FAnchor b => add (if b then BEGIN else END) s
  | FOpen => mk_cs (toks s ++ [CAP_OPEN (groups s + 1)]) (ccl s) (groups s + 1 :: stack s) (groups s + 1)
  | FClose => match stack s with id :: st => mk_cs (toks s ++ [CAP_CLOSE id]) (ccl s) st (groups s) | [] => s end
  end.
(** Every group that is closed was opened, and there are at most nine. *)
Fixpoint nested (fs : list flat) (depth opened : nat) : Prop :=
  match fs with
  | [] => True
  | FOpen :: fs => (opened < 9)%nat ∧ nested fs (S depth) (S opened)
  | FClose :: fs => match depth with O => False | S depth => nested fs depth opened end
  | _ :: fs => nested fs depth opened
  end.
Definition flat_ok (f : flat) : Prop := match f with FAtom a _ => atom_ok a | _ => True end.

Lemma push_ok len cc c : Z.of_nat (length cc) < len * 2 → push len cc c = Some (cc ++ [c]).
Proof. intros H. unfold push. by rewrite (proj2 (Z.ltb_lt _ _)) by lia. Qed.

Lemma scan_class_spec fuel len x inner r cc : Forall (λ c, byte c ∧ c ∉ [92; 91; 93]) inner → (length inner < fuel)%nat → Z.of_nat (length cc) + Z.of_nat (length inner) <= len * 2 →
  scan_class fuel len (x :: inner ++ 93 :: r) cc = Some (93 :: r, cc ++ inner).
Proof.
  intros Hin. revert fuel x cc. induction Hin as [|c inner [Hb Hc] Hin IH]; intros fuel x cc Hf Hl; destruct fuel as [|fuel]; try (cbn in Hf; lia); cbn [scan_class tail app head mbind option_bind].
  - change (93 =? 0) with false. change (93 =? 92) with false. change (93 =? 91) with false. change (93 =? 93) with true. cbn. by rewrite app_nil_r.
  - unfold byte in Hb. rewrite !not_elem_of_cons in Hc. destruct Hc as (H1 & H2 & H3 & _).
    rewrite (proj2 (Z.eqb_neq c 0)), (proj2 (Z.eqb_neq c 92)), (proj2 (Z.eqb_neq c 91)), (proj2 (Z.eqb_neq c 93)) by (done || lia). cbn [orb andb mbind option_bind].
    cbn [length] in *. rewrite push_ok by lia. cbn [mbind option_bind]. rewrite IH by (rewrite ?length_app; cbn [length]; lia). by rewrite <- app_assoc.
Qed.

(** One turn of the [switch]. *)
Definition compiles (len : Z) (t : list Z) (s s' : compile_state) : Prop :=
  t ≠ [] ∧ head t ≠ Some 0 ∧ ∀ r, ∃ x, compile_token len (t ++ r) s = Some (x :: r, s').

Lemma compiles_char len c s : c ∉ special → compiles len [c] s (add (CHAR c) s).
Proof.
  unfold special. rewrite !not_elem_of_cons. intros (H0 & H1 & H2 & H3 & H4 & H5 & H6 & H7 & H8 & H9 & H10 & H11 & H12 & _). split; [done|]. split; [cbn; congruence|].
  intros r. exists c. cbn [app compile_token head mbind option_bind]. unfold compile_token. cbn [head mbind option_bind].
  rewrite (proj2 (Z.eqb_neq c 94)), (proj2 (Z.eqb_neq c 36)), (proj2 (Z.eqb_neq c 46)), (proj2 (Z.eqb_neq c 42)), (proj2 (Z.eqb_neq c 43)), (proj2 (Z.eqb_neq c 63)),
    (proj2 (Z.eqb_neq c 92)), (proj2 (Z.eqb_neq c 40)), (proj2 (Z.eqb_neq c 41)), (proj2 (Z.eqb_neq c 91)) by done. done.
Qed.
Lemma compiles_escape len c s : c ≠ 0 → compiles len [92; c] s (add (escape c) s).
Proof. intros Hc. split; [done|]. split; [done|]. intros r. exists c. by destruct c. Qed.
Lemma compiles_simple len c t s : (c, t) ∈ [(94, BEGIN); (36, END); (46, DOT); (42, STAR); (43, PLUS); (63, QUESTION)] → compiles len [c] s (add t s).
Proof.
  intros Hin. assert (c ≠ 0) as Hc0 by (intros ->; repeat (apply elem_of_cons in Hin as [[=]|Hin]); by apply elem_of_nil in Hin).
  split; [done|]. split; [cbn; congruence|]. intros r. exists c. unfold compile_token. cbn [app head mbind option_bind].
  repeat (apply elem_of_cons in Hin as [[= -> ->]|Hin]; [reflexivity|]). by apply elem_of_nil in Hin.
Qed.
Lemma compiles_open len s : groups s < 9 → compiles len [40] s (flat_step s FOpen).
Proof. intros Hg. split; [done|]. split; [done|]. intros r. exists 40. unfold compile_token. cbn. by rewrite (proj2 (Z.ltb_lt (groups s) 9)). Qed.
Lemma compiles_close len s : stack s ≠ [] → compiles len [41] s (flat_step s FClose).
Proof. intros Hs. split; [done|]. split; [done|]. intros r. exists 41. unfold compile_token. cbn. by destruct (stack s). Qed.
Lemma compiles_set len neg l s : Forall set_item_ok l → Z.of_nat (length (ccl s)) + Z.of_nat (length (set_text l)) < len * 2 →
  compiles len (atom_text (ASet neg l)) s (flat_step s (FAtom (ASet neg l) Once)).
Proof.
  intros Hl Hlen. split; [done|]. split; [done|]. intros r. exists 93. pose proof (set_text_chars l Hl) as Hch. set (inner := set_text l) in *.
  assert (Forall (λ c, byte c ∧ c ∉ [92; 91; 93]) inner) as Hin by (eapply Forall_impl; [exact Hch|]; intros c [? ?]; split; [done|notin]).
  assert ((91 :: inner ++ 93 :: r).[1] = Some (default 93 (head inner)) ∧ default 93 (head inner) ≠ 94) as [En Hn].
  { destruct Hch as [|c inner' [_ Hc] _]; [done|]. split; [done|]. cbn. rewrite !not_elem_of_cons in Hc. tauto. }
  unfold compile_token. destruct neg; cbn [atom_text app]; rewrite <- ?app_assoc; cbn [app head mbind option_bind]; fold inner.
  - change ((91 :: 94 :: inner ++ 93 :: r).[1]) with (Some 94). cbn [mbind option_bind]. change (91 =? 94) with false. change (91 =? 36) with false. change (91 =? 46) with false.
    change (91 =? 42) with false. change (91 =? 43) with false. change (91 =? 63) with false. change (91 =? 92) with false. change (91 =? 40) with false. change (91 =? 41) with false.
    change (91 =? 91) with true. change (94 =? 94) with true. cbn iota. cbn [tail]. rewrite scan_class_spec by (done || (rewrite ?length_cons, ?length_app, ?length_cons; lia)).
    cbn [mbind option_bind]. rewrite push_ok by (rewrite length_app; lia). cbn [mbind option_bind flat_step atom_token atom_bytes quant_tokens]. fold inner. by rewrite app_assoc.
  - rewrite En. cbn [mbind option_bind]. change (91 =? 94) with false. change (91 =? 36) with false. change (91 =? 46) with false.
    change (91 =? 42) with false. change (91 =? 43) with false. change (91 =? 63) with false. change (91 =? 92) with false. change (91 =? 40) with false. change (91 =? 41) with false.
    change (91 =? 91) with true. rewrite (proj2 (Z.eqb_neq _ 94)) by done. cbn iota. rewrite scan_class_spec by (done || (rewrite ?length_cons, ?length_app, ?length_cons; lia)).
    cbn [mbind option_bind]. rewrite push_ok by (rewrite length_app; lia). cbn [mbind option_bind flat_step atom_token atom_bytes quant_tokens]. fold inner. by rewrite app_assoc.
Qed.

Lemma compile_round fuel len t rest s s' : compiles len t s s' →
  Z.of_nat (length (toks s)) + Z.of_nat (length (t ++ rest)) <= len → Z.of_nat (length (ccl s')) + Z.of_nat (length rest) <= len →
  compile_loop (S (S fuel)) len ((t ++ rest) ++ [0]) s = compile_loop (S fuel) len (rest ++ [0]) s'.
Proof.
  intros (Hne & Hz & Hc) Ht Hcc. rewrite length_app in Ht. assert (1 <= Z.of_nat (length t)) as Hlt by (destruct t; [done|cbn; lia]).
  assert (∀ f x, head t = Some x → compile_loop (S f) len ((t ++ rest) ++ [0]) s =
    (if len * 2 <=? 1 + Z.of_nat (length (ccl s')) + 1 then Some s' else compile_loop f len (rest ++ [0]) s')) as Hstep.
  { intros f x Ex. rewrite <- app_assoc. cbn [compile_loop]. assert (head (t ++ rest ++ [0]) = Some x) as -> by (by destruct t). cbn [mbind option_bind].
    rewrite (proj2 (Z.eqb_neq x 0)) by congruence. rewrite (proj2 (Z.ltb_lt _ _)) by lia. cbn [orb negb]. destruct (Hc (rest ++ [0])) as [y ->]. done. }
  destruct t as [|x t]; [done|]. rewrite (Hstep (S fuel) x eq_refl). destruct (Z.leb_spec (len * 2) (1 + Z.of_nat (length (ccl s')) + 1)) as [Hle|]; [|done].
  assert (rest = []) as -> by (destruct rest; [done|cbn in *; lia]). done.
Qed.

Lemma atom_compiles len a s : atom_ok a → Z.of_nat (length (ccl s)) + Z.of_nat (length (atom_text a)) <= len * 2 → compiles len (atom_text a) s (flat_step s (FAtom a Once)).
Proof.
  assert (∀ t, add t s = mk_cs (toks s ++ [t]) (ccl s ++ []) (stack s) (groups s)) as Hadd by (intros t; unfold add; by rewrite app_nil_r).
  destruct a as [c|c| |m|neg l]; cbn [atom_ok]; intros Ha Hl; cbn [atom_text flat_step atom_token atom_bytes quant_tokens] in *; rewrite <- ?Hadd.
  - apply compiles_char. tauto.
  - destruct Ha as (Hb & Hm & Hd). unfold byte, metas in *. rewrite !not_elem_of_cons in Hm. destruct Hm as (M1 & M2 & M3 & M4 & M5 & M6 & _).
    assert (escape c = CHAR c) as <-; [|apply compiles_escape; lia]. unfold escape.
    assert ((49 <=? c) && (c <=? 57) = false) as -> by (destruct (Z.leb_spec 49 c), (Z.leb_spec c 57); try done; lia).
    by rewrite (proj2 (Z.eqb_neq c 100)), (proj2 (Z.eqb_neq c 68)), (proj2 (Z.eqb_neq c 119)), (proj2 (Z.eqb_neq c 87)), (proj2 (Z.eqb_neq c 115)), (proj2 (Z.eqb_neq c 83)) by done.
  - apply compiles_simple. set_solver.
  - apply compiles_escape. intros ->. unfold metas in Ha. by repeat (apply elem_of_cons in Ha as [[=]|Ha]); apply elem_of_nil in Ha.
  - destruct Ha as [_ Hset]. rewrite !length_app in Hl. cbn [length] in Hl. pose proof (compiles_set len neg l s Hset ltac:(lia)) as H. exact H.
Qed.

Lemma flat_text_length f : flat_ok f → (1 <= length (flat_text f))%nat ∧ (∀ s, length (toks (flat_step s f)) <= length (toks s) + length (flat_text f))%nat ∧
  (∀ s, length (ccl (flat_step s f)) <= length (ccl s) + length (flat_text f))%nat.
Proof.
  assert (∀ a, atom_ok a → 1 <= length (atom_text a))%nat as Ha by (intros a Ha; destruct (atom_unit a Ha) as (H & _); destruct (atom_text a); [done|cbn; lia]).
  destruct f as [a q|b| |]; cbn [flat_ok flat_text flat_step toks ccl add length].
  - intros Hok. pose proof (Ha a Hok) as H1. rewrite !length_app. split; [lia|]. split.
    + intros s. rewrite length_app. destruct q; cbn; lia.
    + intros s. rewrite length_app. destruct a as [c|c| |m|neg l]; cbn [atom_bytes atom_text length]; try lia. rewrite !length_app. cbn [length]. lia.
  - intros _. split; [lia|]. split; intros s; cbn [toks ccl]; rewrite ?length_app; cbn [length]; lia.
  - intros _. split; [lia|]. split; intros s; cbn [toks ccl]; rewrite ?length_app; cbn [length]; lia.
  - intros _. split; [lia|]. split; intros s; destruct (stack s); cbn [toks ccl]; rewrite ?length_app; cbn [length]; lia.
Qed.

(** The compiler on the text of a flat sequence. *)
Lemma compile_flats fs len s fuel : Forall flat_ok fs → nested fs (length (stack s)) (Z.to_nat (groups s)) → 0 <= groups s → (length (flats_text fs) < fuel)%nat →
  Z.of_nat (length (toks s)) + Z.of_nat (length (flats_text fs)) <= len → Z.of_nat (length (ccl s)) + Z.of_nat (length (flats_text fs)) <= len →
  compile_loop fuel len (flats_text fs ++ [0]) s = Some (foldl flat_step s fs).
Proof.
  intros Hok. revert s fuel. induction Hok as [|f fs Hf Hok IH]; intros s fuel Hnest Hg Hfuel Ht Hc; [destruct fuel; [cbn in Hfuel; lia|done]|].
  destruct (flat_text_length f Hf) as (Hlen1 & Htl & Hcl). specialize (Htl s). specialize (Hcl s). unfold flats_text in *. cbn [map concat foldl] in *. rewrite length_app in *.
  assert (∀ n, n = (length (flat_text f))%nat → (n < fuel)%nat) as Hn by (intros; lia).
  assert (nested fs (length (stack (flat_step s f))) (Z.to_nat (groups (flat_step s f))) ∧ 0 <= groups (flat_step s f)) as [Hnest' Hg'].
  { destruct f as [a q|b| |]; cbn [nested flat_step stack groups add length] in *; try done.
    - destruct Hnest as [_ Hnest]. split; [|lia]. by replace (Z.to_nat (groups s + 1)) with (S (Z.to_nat (groups s))) by lia.
    - by destruct (stack s). }
  assert (∃ fuel', (length (concat (map flat_text fs)) < fuel')%nat ∧
    compile_loop fuel len ((flat_text f ++ concat (map flat_text fs)) ++ [0]) s = compile_loop fuel' len (concat (map flat_text fs) ++ [0]) (flat_step s f)) as (fuel' & Hfuel' & ->).
  { destruct fuel as [|[|fuel]]; [lia|lia|]. destruct f as [a q|b| |].
    - cbn [flat_text flat_ok] in *. set (s1 := flat_step s (FAtom a Once)).
      assert (atom_ok a → 1 <= length (atom_text a))%nat as Hal by (intros Ha; destruct (atom_unit a Ha) as (H & _); destruct (atom_text a); [done|cbn; lia]). specialize (Hal Hf).
      destruct (flat_text_length (FAtom a Once) Hf) as (_ & Htl1 & Hcl1). specialize (Htl1 s). specialize (Hcl1 s). cbn [flat_text quant_text] in Htl1, Hcl1. rewrite app_nil_r in Htl1, Hcl1. fold s1 in Htl1, Hcl1.
      assert (compiles len (atom_text a) s s1) as Hc1 by (apply atom_compiles; [done|rewrite !length_app in *; lia]).
      rewrite <- (app_assoc (atom_text a)). rewrite (compile_round fuel len (atom_text a) (quant_text q ++ concat (map flat_text fs)) s s1 Hc1) by (rewrite !length_app in *; lia).
      destruct (decide (q = Once)) as [-> |Hq]; [exists (S fuel); split; [cbn in *; lia|done]|]. cbn [quant_text] in *.
      assert (length (quant_text q) = 1%nat) as Hql by (by destruct q). rewrite !length_app, Hql in *. destruct fuel as [|fuel]; [lia|]. exists (S fuel). split; [lia|].
      apply compile_round; [|rewrite length_app, Hql; lia|lia].
      assert (flat_step s (FAtom a q) = add (match q with Maybe => QUESTION | Many => STAR | _ => PLUS end) s1) as ->.
      { unfold s1, add. cbn [flat_step toks ccl stack groups quant_tokens]. rewrite <- app_assoc. by destruct q. }
      destruct q; [done|apply compiles_simple; set_solver..].
    - exists (S fuel). split; [lia|]. apply compile_round; [|rewrite length_app; lia|lia]. destruct b; apply compiles_simple; set_solver.
    - exists (S fuel). split; [lia|]. apply compile_round; [|rewrite length_app; lia|lia]. apply compiles_open. cbn [nested] in Hnest. lia.
    - exists (S fuel). split; [lia|]. apply compile_round; [|rewrite length_app; lia|lia]. apply compiles_close. cbn [nested] in Hnest. by destruct (stack s). }
  apply IH; [done|done|done|lia|lia].
Qed.

(** ** What an atom matches *)

(** No range contains the hyphen. *)
Definition item_sat (i : set_item) (c : Z) : bool :=
  match i with SetChar x => c =? x | SetRange a b => negb (c =? 45) && (s8 a <=? s8 c) && (s8 c <=? s8 b) end.
Definition atom_sat (a : atom) (c : Z) : bool :=
  match a with
  | AChar x | AEscape x => c =? x
  | ADot => matchdot c
  | AMeta m => matchmeta c m
  | ASet neg l => xorb neg (existsb (λ i, item_sat i c) l)
  end.

Lemma class_char fuel c prev x y r : c ≠ 0 → byte x → x ∉ [92; 91; 93; 45] → y ≠ 45 →
  matchclass (S fuel) c prev (x :: y :: r) = if c =? x then Some true else matchclass fuel c (Some x) (y :: r).
Proof.
  intros Hc Hb Hx Hy. unfold byte in Hb. rewrite !not_elem_of_cons in Hx. destruct Hx as (X1 & X2 & X3 & X4 & _). cbn [matchclass].
  change ((x :: y :: r).[0]) with (Some x). cbn [mbind option_bind]. rewrite (proj2 (Z.eqb_neq x 91)) by done. cbn [mbind option_bind].
  assert (matchrange c (x :: y :: r) = Some false) as ->.
  { unfold matchrange. destruct (c =? 45); [done|]. change ((x :: y :: r).[0]) with (Some x). change ((x :: y :: r).[1]) with (Some y). cbn [mbind option_bind].
    rewrite (proj2 (Z.eqb_neq x 0)), (proj2 (Z.eqb_neq y 45)) by lia. done. }
  cbn [mbind option_bind]. rewrite (proj2 (Z.eqb_neq x 92)) by done. destruct (Z.eqb_spec c x) as [-> |]; [by rewrite (proj2 (Z.eqb_neq x 45))|].
  cbn [head tail mbind option_bind]. by rewrite (proj2 (Z.eqb_neq x 0)) by lia.
Qed.
Lemma class_range fuel c prev a b y r : c ≠ 0 → set_item_ok (SetRange a b) → y ≠ 45 →
  matchclass (S (S (S fuel))) c prev (a :: 45 :: b :: y :: r) = if item_sat (SetRange a b) c then Some true else if c =? 45 then Some false else matchclass fuel c (Some b) (y :: r).
Proof.
  intros Hc ([Ha Ha'] & [Hb Hb'] & Hab) Hy. unfold byte in *. rewrite !not_elem_of_cons in Ha', Hb'. destruct Ha' as (A1 & A2 & A3 & A4 & _), Hb' as (B1 & B2 & B3 & B4 & _).
  set (fuel2 := S (S fuel)). cbn [matchclass]. change ((a :: 45 :: b :: y :: r).[0]) with (Some a). cbn [mbind option_bind]. rewrite (proj2 (Z.eqb_neq a 91)) by done. cbn [mbind option_bind].
  assert (matchrange c (a :: 45 :: b :: y :: r) = Some (item_sat (SetRange a b) c)) as ->.
  { unfold matchrange, item_sat. destruct (c =? 45); [done|]. change ((a :: 45 :: b :: y :: r).[0]) with (Some a). change ((a :: 45 :: b :: y :: r).[1]) with (Some 45).
    change ((a :: 45 :: b :: y :: r).[2]) with (Some b). cbn [mbind option_bind]. by rewrite (proj2 (Z.eqb_neq a 0)), (proj2 (Z.eqb_neq b 0)) by lia. }
  cbn [mbind option_bind]. destruct (item_sat (SetRange a b) c) eqn:Es; [done|]. rewrite (proj2 (Z.eqb_neq a 92)) by done. unfold item_sat in Es.
  assert (c ≠ a ∧ c ≠ b) as [Hca Hcb].
  { split; intros ->; revert Es; [rewrite (proj2 (Z.eqb_neq a 45))|rewrite (proj2 (Z.eqb_neq b 45))]; try done; cbn [negb andb]; intros [E|E]%andb_false_iff; apply Z.leb_gt in E; lia. }
  rewrite (proj2 (Z.eqb_neq c a)) by done. cbn [head tail mbind option_bind]. rewrite (proj2 (Z.eqb_neq a 0)) by lia. subst fuel2. set (fuel1 := S fuel). cbn [matchclass].
  change ((45 :: b :: y :: r).[0]) with (Some 45). cbn [mbind option_bind]. change (45 =? 91) with false. cbn [mbind option_bind].
  assert (matchrange c (45 :: b :: y :: r) = Some false) as ->.
  { unfold matchrange. destruct (c =? 45); [done|]. change ((45 :: b :: y :: r).[0]) with (Some 45). change ((45 :: b :: y :: r).[1]) with (Some b). cbn [mbind option_bind].
    change (45 =? 0) with false. by rewrite (proj2 (Z.eqb_neq b 45)) by done. }
  cbn [mbind option_bind]. change (45 =? 92) with false. destruct (Z.eqb_spec c 45) as [-> |Hc45].
  - cbn [mbind option_bind]. rewrite (proj2 (Z.eqb_neq a 0)) by lia. change ((45 :: b :: y :: r).[1]) with (Some b). cbn [mbind option_bind]. by rewrite (proj2 (Z.eqb_neq b 0)) by lia.
  - cbn [head tail mbind option_bind]. change (45 =? 0) with false. unfold fuel1. rewrite class_char by (done || (unfold byte; lia) || notin). by rewrite (proj2 (Z.eqb_neq c b)).
Qed.
Lemma item_sat_hyphen l : Forall set_item_ok l → existsb (λ i, item_sat i 45) l = false.
Proof.
  induction 1 as [|i l Hi Hl IH]; [done|]. cbn [existsb]. rewrite IH, orb_false_r. destruct i as [x|a b]; [|done]. destruct Hi as [_ Hi]. cbn [item_sat].
  apply Z.eqb_neq. intros <-. apply Hi. set_solver.
Qed.
Lemma set_text_next l post : Forall set_item_ok l → ∃ y r, set_text l ++ 0 :: post = y :: r ∧ y ≠ 45.
Proof.
  assert (∀ x, set_char x → x ≠ 45) as Hne by (intros x [_ Hx] ->; apply Hx; set_solver).
  intros [|i l' Hi _]; [by exists 0, post|]. destruct i as [x|a b]; unfold set_text; cbn [map concat set_item_text app]; eexists _, _; (split; [reflexivity|]); apply Hne; [exact Hi|apply Hi].
Qed.
Lemma matchclass_set l fuel c prev post : c ≠ 0 → Forall set_item_ok l → (length (set_text l) < fuel)%nat →
  matchclass fuel c prev (set_text l ++ 0 :: post) = Some (existsb (λ i, item_sat i c) l).
Proof.
  intros Hc Hl. revert fuel prev. induction Hl as [|i l Hi Hl IH]; intros fuel prev Hf.
  - destruct fuel as [|fuel]; [cbn in Hf; lia|]. cbn [set_text map concat app matchclass existsb]. change ((0 :: post).[0]) with (Some 0). cbn [mbind option_bind].
    change (0 =? 91) with false. cbn [mbind option_bind]. assert (matchrange c (0 :: post) = Some false) as -> by (unfold matchrange; by destruct (c =? 45)).
    cbn [mbind option_bind]. change (0 =? 92) with false. by rewrite (proj2 (Z.eqb_neq c 0)).
  - destruct (set_text_next l post Hl) as (y & r & Ey & Hy). unfold set_text in *. cbn [map concat] in *. rewrite length_app in Hf. rewrite <- app_assoc. cbn [existsb].
    destruct i as [x|a b]; cbn [set_item_text app length] in *.
    + destruct fuel as [|fuel]; [lia|]. destruct Hi as [Hb Hx]. rewrite Ey, class_char by (done || notin). cbn [item_sat]. destruct (c =? x); [done|]. rewrite <- Ey. apply IH. lia.
    + destruct fuel as [|[|[|fuel]]]; try lia. rewrite Ey, class_range by done. destruct (item_sat (SetRange a b) c); [done|].
      destruct (Z.eqb_spec c 45) as [-> |]; [cbn [orb]; by rewrite item_sat_hyphen|]. rewrite <- Ey. apply IH. lia.
Qed.

Lemma matchone_atom a pre post c : atom_ok a → c ≠ 0 → matchone (pre ++ atom_bytes a ++ post) (atom_token a (Z.of_nat (length pre))) c = Some (atom_sat a c).
Proof.
  intros Ha Hc. destruct a as [x|x| |m|neg l]; cbn [atom_token atom_sat matchone]; [by rewrite Z.eqb_sym..|done| |].
  - unfold metas in Ha. cbn [atom_ok] in Ha. unfold metas in Ha. repeat (apply elem_of_cons in Ha as [-> |Ha]; [done|]). by apply elem_of_nil in Ha.
  - destruct Ha as [_ Hl]. assert (match_ccl (pre ++ (set_text l ++ [0]) ++ post) c (1 + Z.of_nat (length pre)) = Some (existsb (λ i, item_sat i c) l)) as E.
    { unfold match_ccl. replace (Z.to_nat (1 + Z.of_nat (length pre) - 1)) with (length pre) by lia. rewrite drop_app_length, <- app_assoc. cbn [app].
      apply matchclass_set; [done|done|]. rewrite !length_app. lia. }
    cbn [atom_bytes]. destruct neg; cbn [matchone xorb]; rewrite E; by destruct (existsb _ l).
Qed.

(** ** The sequence a flat pattern compiles to *)

(** The items and the marks, from a stack of open groups, the number of groups and the
    number of class bytes. *)
Fixpoint elems_of (fs : list flat) (st : list Z) (g k : Z) : list elem :=
  match fs with
  | [] => []
  | FAtom a q :: fs => Item (atom_token a k) q :: elems_of fs st g (k + Z.of_nat (length (atom_bytes a)))
  | FOpen :: fs => Open (g + 1) :: elems_of fs (g + 1 :: st) (g + 1) k
  | FClose :: fs => match st with id :: st => Close id :: elems_of fs st g k | [] => elems_of fs st g k end
  | FAnchor _ :: fs => elems_of fs st g k
  end.
Definition is_anchor (f : flat) : bool := match f with FAnchor _ => true | _ => false end.
Definition flat_bytes (fs : list flat) : list Z := concat (map (λ f, match f with FAtom a _ => atom_bytes a | _ => [] end) fs).
Definition opens (fs : list flat) : Z := Z.of_nat (length (filter (λ f, match f with FOpen => true | _ => false end = true) fs)).

Lemma opens_nonneg fs : 0 <= opens fs.
Proof. unfold opens. lia. Qed.
Lemma opens_cons f fs : opens (f :: fs) = (match f with FOpen => 1 | _ => 0 end) + opens fs.
Proof. unfold opens. by destruct f; rewrite filter_cons; cbn [length]; try rewrite decide_False by done; try rewrite decide_True by done; cbn [length]; lia. Qed.

Lemma flat_steps fs s : Forall (λ f, is_anchor f = false) fs →
  toks (foldl flat_step s fs) = toks s ++ seq_tokens (elems_of fs (stack s) (groups s) (Z.of_nat (length (ccl s)))) ∧
  ccl (foldl flat_step s fs) = ccl s ++ flat_bytes fs ∧ groups (foldl flat_step s fs) = groups s + opens fs.
Proof.
  intros Hfs. revert s. induction Hfs as [|f fs Hf Hfs IH]; intros s; [cbn; rewrite !app_nil_r; unfold opens; cbn; split_and!; [done|done|lia]|].
  cbn [foldl]. destruct (IH (flat_step s f)) as (-> & -> & ->). rewrite opens_cons. unfold flat_bytes, seq_tokens. cbn [map concat].
  destruct f as [a q|b| |]; [|done|..]; cbn [flat_step elems_of toks ccl stack groups].
  - rewrite length_app, Nat2Z.inj_add. cbn [map concat elem_tokens]. rewrite <- !app_assoc. split_and!; [done|done|lia].
  - cbn [map concat elem_tokens app]. rewrite <- app_assoc. split_and!; [done|done|lia].
  - destruct (stack s) as [|id st] eqn:Est; cbn [toks ccl stack groups]; rewrite ?Est; cbn [map concat elem_tokens app]; rewrite <- ?app_assoc; split_and!; try done; lia.
Qed.

Lemma marks_bound fs st g k e : e ∈ elems_of fs st g k →
  match e with Item _ _ => True | Open h => g < h <= g + opens fs | Close h => h ∈ st ∨ g < h <= g + opens fs end.
Proof.
  revert st g k. induction fs as [|f fs IH]; intros st g k He; [by apply elem_of_nil in He|]. rewrite opens_cons. pose proof (opens_nonneg fs).
  destruct f as [a q|b| |]; cbn [elems_of] in He.
  - apply elem_of_cons in He as [-> |He]; [done|]. apply IH in He. by destruct e.
  - apply IH in He. by destruct e.
  - apply elem_of_cons in He as [-> |He]; [lia|]. apply IH in He. destruct e as [|h|h]; [done|lia|]. rewrite elem_of_cons in He. destruct He as [[-> |He]|He]; [right; lia|by left|right; lia].
  - destruct st as [|id st]; [by apply IH in He|]. apply elem_of_cons in He as [-> |He]; [left; by constructor|]. apply IH in He. destruct e as [|h|h]; [done|done|].
    destruct He as [He|He]; [left; by constructor|by right].
Qed.
Lemma elems_distinct fs st g k : NoDup st → Forall (λ h, h <= g) st → distinct (elems_of fs st g k).
Proof.
  revert st g k. induction fs as [|f fs IH]; intros st g k Hnd Hle; [done|]. destruct f as [a q|b| |]; cbn [elems_of].
  - split; [done|]. by apply IH.
  - by apply IH.
  - assert (g + 1 ∉ st) as Hnew by (intros H; rewrite Forall_forall in Hle; specialize (Hle _ H); lia). split.
    + intros _ He. apply marks_bound in He. lia.
    + apply IH; [by constructor|]. constructor; [lia|]. eapply Forall_impl; [exact Hle|]. cbn. lia.
  - destruct st as [|id st]; [by apply IH|]. apply NoDup_cons in Hnd as [Hid Hnd]. apply Forall_cons in Hle as [Hg Hle]. split; [|by apply IH].
    intros _ He. apply marks_bound in He. destruct He as [He|He]; [done|lia].
Qed.

Lemma single_atom a k : atom_ok a → single (atom_token a k) = true.
Proof.
  destruct a as [x|x| |m|[] l]; try done. cbn [atom_ok]. unfold metas. intros Ha. by repeat (apply elem_of_cons in Ha as [-> |Ha]; [done|]); apply elem_of_nil in Ha.
Qed.
(** Every item is decided by the bytes that were written for it. *)
Lemma elems_decided s fs st g pre post : Forall flat_ok fs → Forall (λ c, c ≠ 0) s →
  let cc := pre ++ flat_bytes fs ++ post in
  Forall (λ e, match e with Item t _ => single t = true ∧ ∀ c, c ∈ s → ∃ b, matchone cc t c = Some b | _ => True end) (elems_of fs st g (Z.of_nat (length pre))).
Proof.
  intros Hok Hs. revert st g pre. induction Hok as [|f fs Hf Hok IH]; intros st g pre; cbn zeta; [constructor|]. unfold flat_bytes. cbn [map concat]. fold (flat_bytes fs).
  destruct f as [a q|b| |]; cbn [elems_of].
  - constructor.
    + split; [by apply single_atom|]. intros c Hc. exists (atom_sat a c). rewrite <- app_assoc. apply matchone_atom; [done|]. rewrite Forall_forall in Hs. by apply Hs.
    + specialize (IH st g (pre ++ atom_bytes a)). cbn zeta in IH. rewrite length_app, Nat2Z.inj_add, <- !app_assoc in IH. by rewrite <- app_assoc.
  - apply IH.
  - constructor; [done|]. apply IH.
  - destruct st as [|id st]; [apply IH|]. constructor; [done|]. apply IH.
Qed.

(** ** The language of a pattern *)

(** One relation after the other. *)
Definition chain (rs : list (Z → Z → Prop)) : Z → Z → Prop := foldr (λ r rest i j, ∃ m, r i m ∧ rest m j) eq rs.

Section language.
Variable s : list Z.

Definition atom_times (a : atom) (n i j : Z) : Prop := 0 <= n ∧ j = i + n ∧ ∀ k, i <= k < i + n → ∃ c, s.[k] = Some c ∧ atom_sat a c = true.
Definition anchor_at (begin : bool) (i j : Z) : Prop := j = i ∧ i = if begin then 0 else Z.of_nat (length s).
Fixpoint node_matches (n : node) (i j : Z) : Prop :=
  match n with
  | NAtom a q => ∃ k, allowed q k ∧ atom_times a k i j
  | NAnchor begin => anchor_at begin i j
  | NGroup alts => foldr or False (map (λ sq, chain (map node_matches sq) i j) alts)
  end.
Definition top_matches (t : top) (i j : Z) : Prop :=
  match t with TNode n => node_matches n i j | TRange a m n => ∃ k, value10 m <= k <= value10 n ∧ atom_times a k i j end.

(** The same for what is left after the alternatives are multiplied out. *)
Definition flat_matches (f : flat) (i j : Z) : Prop :=
  match f with
  | FAtom a q => ∃ k, allowed q k ∧ atom_times a k i j
  | FAnchor begin => anchor_at begin i j
  | FOpen | FClose => i = j
  end.
Definition flats_match (fs : list flat) : Z → Z → Prop := chain (map flat_matches fs).

Lemma chain_app a b i j : chain (a ++ b) i j ↔ ∃ m, chain a i m ∧ chain b m j.
Proof.
  revert i. induction a as [|r a IH]; intros i; cbn.
  - split; [intros H; by exists i|]. by intros (m & -> & H).
  - split.
    + intros (m & Hr & H). apply IH in H as (m' & H1 & H2). exists m'. split; [by exists m|done].
    + intros (m' & (m & Hr & H1) & H2). exists m. split; [done|]. apply IH. by exists m'.
Qed.
Lemma flats_match_app a b i j : flats_match (a ++ b) i j ↔ ∃ m, flats_match a i m ∧ flats_match b m j.
Proof. unfold flats_match. rewrite map_app. apply chain_app. Qed.
Lemma flats_match_one f i j : flats_match [f] i j ↔ flat_matches f i j.
Proof. unfold flats_match. cbn [map chain foldr]. split; [by intros (m & H & <-)|]. intros H. by exists j. Qed.

Lemma in_concat_map {A B} (f : A → list B) l x : x ∈ concat (map f l) ↔ ∃ y, y ∈ l ∧ x ∈ f y.
Proof.
  rewrite list_elem_of_In, in_concat. split.
  - intros (t & (y & <- & Hy)%in_map_iff & Hx). exists y. by rewrite !list_elem_of_In.
  - intros (y & Hy & Hx). exists (f y). rewrite <- !list_elem_of_In. split; [|done]. apply list_elem_of_fmap. by exists y.
Qed.
Lemma in_product {A} (ys : list (list A)) (zss : list (list (list A))) fs : fs ∈ product (ys :: zss) ↔ ∃ y z, y ∈ ys ∧ z ∈ product zss ∧ fs = y ++ z.
Proof.
  unfold product. cbn [foldr]. fold (product zss). rewrite in_concat_map. split.
  - intros (y & Hy & (z & -> & Hz)%list_elem_of_fmap). by exists y, z.
  - intros (y & z & Hy & Hz & ->). exists y. split; [done|]. apply list_elem_of_fmap. by exists z.
Qed.

Lemma product_matches ns i j : Forall (λ n, ∀ i j, node_matches n i j ↔ ∃ fs, fs ∈ expand_node n ∧ flats_match fs i j) ns →
  chain (map node_matches ns) i j ↔ ∃ fs, fs ∈ expand_seq ns ∧ flats_match fs i j.
Proof.
  intros Hns. revert i. induction Hns as [|n ns Hn Hns IH]; intros i.
  - cbn. split; [intros ->; exists []; split; [by constructor|done]|]. intros (fs & Hin & H). apply list_elem_of_singleton in Hin as ->. exact H.
  - unfold expand_seq. cbn [map]. split.
    + intros (m & H1 & H2). apply Hn in H1 as (y & Hy & H1). apply IH in H2 as (z & Hz & H2). exists (y ++ z). split; [apply in_product; by exists y, z|]. apply flats_match_app. by exists m.
    + intros (fs & Hin & H). apply in_product in Hin as (y & z & Hy & Hz & ->). apply flats_match_app in H as (m & H1 & H2). exists m. split; [apply Hn; by exists y|apply IH; by exists z].
Qed.
Lemma expand_node_matches n i j : node_matches n i j ↔ ∃ fs, fs ∈ expand_node n ∧ flats_match fs i j.
Proof.
  revert i j. induction n as [a q|b|alts IH] using node_induction; intros i j; cbn [node_matches expand_node].
  - split; [intros H; exists [FAtom a q]; split; [by constructor|by apply flats_match_one]|]. intros (fs & ->%list_elem_of_singleton & H). by rewrite flats_match_one in H.
  - split; [intros H; exists [FAnchor b]; split; [by constructor|by apply flats_match_one]|]. intros (fs & ->%list_elem_of_singleton & H). by rewrite flats_match_one in H.
  - assert (∀ fs, flats_match (FOpen :: fs ++ [FClose]) i j ↔ flats_match fs i j) as Hpar.
    { intros fs. change (FOpen :: fs ++ [FClose]) with ([FOpen] ++ fs ++ [FClose]). rewrite flats_match_app. split.
      - intros (m & H1 & H2). rewrite flats_match_one in H1. cbn in H1. subst m. apply flats_match_app in H2 as (m & H2 & H3). rewrite flats_match_one in H3. cbn in H3. by subst m.
      - intros H. exists i. split; [by apply flats_match_one|]. apply flats_match_app. exists j. split; [done|]. by apply flats_match_one. }
    assert (foldr or False (map (λ sq, chain (map node_matches sq) i j) alts) ↔ ∃ sq, sq ∈ alts ∧ chain (map node_matches sq) i j) as ->.
    { clear IH. induction alts as [|sq alts IHa]; cbn; [split; [done|]; by intros (sq & ?%elem_of_nil & _)|]. rewrite IHa. split.
      - intros [H|(sq' & Hin & H)]; [exists sq; split; [by constructor|done]|exists sq'; split; [by constructor|done]].
      - intros (sq' & [-> |Hin]%elem_of_cons & H); [by left|right; by exists sq']. }
    rewrite Forall_forall in IH. split.
    + intros (sq & Hin & H). apply (product_matches _ _ _ (IH _ Hin)) in H as (fs & Hfs & H). exists (FOpen :: fs ++ [FClose]). split; [|by apply Hpar].
      apply list_elem_of_fmap. exists fs. split; [done|]. apply in_concat_map. by exists sq.
    + intros (fs & Hfs & H). apply list_elem_of_fmap in Hfs as (fs' & -> & Hfs). apply (proj1 (Hpar _)) in H. apply in_concat_map in Hfs as (sq & Hsq & Hin). exists sq. split; [done|]. apply (product_matches _ _ _ (IH _ Hsq)). by exists fs'.
Qed.
Lemma expand_seq_matches ns i j : chain (map node_matches ns) i j ↔ ∃ fs, fs ∈ expand_seq ns ∧ flats_match fs i j.
Proof. apply product_matches. apply Forall_true. intros n. apply expand_node_matches. Qed.
End language.

(** ** Ranges and the flat patterns of a branch *)

Lemma atom_times_split s a m n i j : 0 <= m → 0 <= n → atom_times s a (m + n) i j ↔ ∃ k, atom_times s a m i k ∧ atom_times s a n k j.
Proof.
  intros Hm Hn. unfold atom_times. split.
  - intros (_ & -> & H). exists (i + m). split_and!; [done|done|intros k Hk; apply H; lia|done|lia|intros k Hk; apply H; lia].
  - intros (k & (_ & -> & H1) & (_ & -> & H2)). split_and!; [lia|lia|]. intros k Hk. destruct (decide (k < i + m)); [apply H1; lia|apply H2; lia].
Qed.
Lemma chain_once s a n i j : chain (map (node_matches s) (replicate n (NAtom a Once))) i j ↔ atom_times s a (Z.of_nat n) i j.
Proof.
  revert i. induction n as [|n IH]; intros i.
  - cbn. unfold atom_times. split; [intros ->; split_and!; [lia|lia|lia]|]. intros (_ & -> & _). lia.
  - replace (Z.of_nat (S n)) with (1 + Z.of_nat n) by lia. rewrite atom_times_split by lia. cbn [replicate map chain foldr node_matches]. split.
    + intros (m & (k & -> & Hk) & H). exists m. split; [done|]. by apply IH.
    + intros (m & Hk & H). exists m. split; [by exists 1|]. by apply IH.
Qed.
Lemma chain_maybe s a n i j : chain (map (node_matches s) (replicate n (NAtom a Maybe))) i j ↔ ∃ k, 0 <= k <= Z.of_nat n ∧ atom_times s a k i j.
Proof.
  revert i. induction n as [|n IH]; intros i.
  - cbn. split; [intros ->; exists 0; split; [lia|]; split_and!; lia|]. intros (k & Hk & (_ & -> & _)). lia.
  - cbn [replicate map chain foldr node_matches]. split.
    + intros (m & (k & Hk & H1) & H). apply IH in H as (k' & Hk' & H2). cbn in Hk. exists (k + k'). split; [lia|]. rewrite atom_times_split by lia. by exists m.
    + intros (k & Hk & H). destruct (decide (k = 0)) as [-> |Hne].
      * exists i. split; [exists 0; split; [cbn; lia|]; split_and!; lia|]. apply IH. exists 0. split; [lia|done].
      * replace k with (1 + (k - 1)) in H by lia. rewrite atom_times_split in H by lia. destruct H as (m & H1 & H2). exists m. split; [exists 1; split; [cbn; lia|done]|].
        apply IH. exists (k - 1). split; [lia|done].
Qed.
(** Writing a range out does not change what it matches. *)
Lemma unrange_matches s t i j : top_ok t → chain (map (node_matches s) (unrange t)) i j ↔ top_matches s t i j.
Proof.
  destruct t as [n|a m n]; cbn [top_ok unrange top_matches].
  - intros _. cbn. split; [by intros (m & H & <-)|]. intros H. by exists j.
  - intros (_ & [_ Hm] & _ & Hmn & _). pose proof (fold_digits_ge m 0 Hm ltac:(lia)) as Hpos. fold (value10 m) in Hpos. rewrite map_app, chain_app. split.
    + intros (p & H1 & H2). apply chain_once in H1. apply chain_maybe in H2 as (k & Hk & H2). exists (value10 m + k). split; [lia|]. rewrite atom_times_split by lia. exists p. by rewrite Z2Nat.id in H1 by lia.
    + intros (k & Hk & H). replace k with (value10 m + (k - value10 m)) in H by lia. rewrite atom_times_split in H by lia. destruct H as (p & H1 & H2). exists p.
      split; [apply chain_once; by rewrite Z2Nat.id by lia|apply chain_maybe; exists (k - value10 m); split; [lia|done]].
Qed.
Lemma unranges_match s ts i j : Forall top_ok ts → chain (map (node_matches s) (concat (map unrange ts))) i j ↔ chain (map (top_matches s) ts) i j.
Proof.
  intros Hts. revert i. induction Hts as [|t ts Ht Hts IH]; intros i; [done|]. cbn [map concat]. rewrite map_app, chain_app. cbn [chain foldr]. fold (chain (map (top_matches s) ts)).
  split; intros (m & H1 & H2); exists m; (split; [by apply unrange_matches|by apply IH]).
Qed.

(** No anchor in the tree. *)
Fixpoint unanchored (n : node) : bool :=
  match n with NAtom _ _ => true | NAnchor _ => false | NGroup alts => forallb (forallb unanchored) alts end.

Section expansions.
Variable P : list flat → Prop.
Hypothesis Hnil : P [].
Hypothesis Happ : ∀ a b, P a → P b → P (a ++ b).
Hypothesis Hatom : ∀ a q, atom_ok a → P [FAtom a q].
Hypothesis Hgroup : ∀ fs, P fs → P ([FOpen] ++ fs ++ [FClose]).

Lemma expand_seq_all ns fs : Forall (λ n, ∀ fs, fs ∈ expand_node n → P fs) ns → fs ∈ expand_seq ns → P fs.
Proof.
  intros Hns. revert fs. induction Hns as [|n ns Hn Hns IH]; intros fs Hin; [by apply list_elem_of_singleton in Hin as ->|].
  apply in_product in Hin as (y & z & Hy & Hz & ->). apply Happ; [by apply Hn|by apply IH].
Qed.
Lemma expand_node_all n fs : node_ok n → unanchored n = true → fs ∈ expand_node n → P fs.
Proof.
  revert fs. induction n as [a q|b|alts IH] using node_induction; intros fs; [intros Ha _ ->%list_elem_of_singleton; by apply Hatom|done|].
  rewrite node_ok_group. cbn [unanchored expand_node]. intros [_ Hok] Hun Hin. apply list_elem_of_fmap in Hin as (y & -> & Hy). apply in_concat_map in Hy as (sq & Hsq & Hy).
  apply Hgroup. apply (expand_seq_all sq); [|done]. rewrite Forall_forall in IH, Hok. specialize (IH _ Hsq). specialize (Hok _ Hsq).
  rewrite forallb_forall in Hun. specialize (Hun sq ltac:(by apply list_elem_of_In)). rewrite forallb_forall in Hun.
  apply Forall_forall. intros n Hn fs'. rewrite Forall_forall in IH, Hok. apply IH; [done|by apply Hok|by apply Hun, list_elem_of_In].
Qed.
Lemma expansions_all ns fs : Forall node_ok ns → Forall (λ n, unanchored n = true) ns → fs ∈ expand_seq ns → P fs.
Proof.
  intros Hok Hun. apply expand_seq_all. apply Forall_forall. intros n Hn fs'. rewrite Forall_forall in Hok, Hun. apply expand_node_all; [by apply Hok|by apply Hun].
Qed.
End expansions.

Lemma opens_app a b : opens (a ++ b) = opens a + opens b.
Proof. unfold opens. rewrite filter_app, length_app. lia. Qed.
(** What holds of the flat patterns of a sequence without anchors. *)
Definition flat_body (fs : list flat) : Prop :=
  Forall (λ f, flat_ok f ∧ is_anchor f = false) fs ∧
  ∀ rest d o, Z.of_nat o + opens fs <= 9 → nested rest d (o + Z.to_nat (opens fs)) → nested (fs ++ rest) d o.
Lemma expand_body ns fs : Forall node_ok ns → Forall (λ n, unanchored n = true) ns → fs ∈ expand_seq ns → flat_body fs.
Proof.
  apply expansions_all.
  - split; [constructor|]. intros rest d o _. by rewrite Nat.add_0_r.
  - intros a b [Ha Na] [Hb Nb]. split; [by apply Forall_app|]. intros rest d o Ho Hn. rewrite opens_app in Ho, Hn. pose proof (opens_nonneg a). pose proof (opens_nonneg b).
    rewrite <- app_assoc. apply Na; [lia|]. apply Nb; [lia|]. by replace (o + Z.to_nat (opens a) + Z.to_nat (opens b))%nat with (o + Z.to_nat (opens a + opens b))%nat by lia.
  - intros a q Ha. split; [by repeat constructor|]. intros rest d o _. change (Z.to_nat (opens [FAtom a q])) with O. by rewrite Nat.add_0_r.
  - intros fs' [Hf Nf]. split; [apply Forall_app; split; [by repeat constructor|]; apply Forall_app; split; [done|by repeat constructor]|].
    intros rest d o Ho Hn. rewrite !opens_app in Ho, Hn. change (opens [FOpen]) with 1 in *. change (opens [FClose]) with 0 in *. pose proof (opens_nonneg fs').
    cbn [app nested]. split; [lia|]. rewrite <- app_assoc. apply Nf; [lia|]. cbn [app nested]. by replace (S o + Z.to_nat (opens fs'))%nat with (o + Z.to_nat (1 + (opens fs' + 0)))%nat by lia.
Qed.

(** ** Branches: anchors at the ends only *)

Record branch := mk_branch { starts : bool; body : list top; ends : bool }.
Definition branch_tops (b : branch) : list top :=
  (if starts b then [TNode (NAnchor true)] else []) ++ body b ++ (if ends b then [TNode (NAnchor false)] else []).
Definition top_unanchored (t : top) : bool := match t with TNode n => unanchored n | TRange _ _ _ => true end.
Definition branch_ok (b : branch) : Prop := Forall (λ t, top_ok t ∧ top_unanchored t = true) (body b).
Definition branch_matches (s : list Z) (b : branch) : Z → Z → Prop := chain (map (top_matches s) (branch_tops b)).
Definition pattern_text (bs : list branch) : list Z := tops_text (map branch_tops bs).

Definition body_nodes (b : branch) : list node := concat (map unrange (body b)).
Definition bodies (b : branch) : list (list flat) := expand_seq (body_nodes b).
Definition anchored (b : branch) (fs : list flat) : list flat :=
  (if starts b then [FAnchor true] else []) ++ fs ++ (if ends b then [FAnchor false] else []).
Definition alternative_of (b : branch) (fs : list flat) : alternative := mk_alternative (starts b) (elems_of fs [] 0 0) (ends b).
Definition alt_of (b : branch) (fs : list flat) : regex_alt := mk_alt (alternative_tokens (alternative_of b fs)) (flat_bytes fs).

Lemma body_nodes_ok b : branch_ok b → Forall node_ok (body_nodes b) ∧ Forall (λ n, unanchored n = true) (body_nodes b).
Proof.
  intros Hb. assert (Forall (λ n, node_ok n ∧ unanchored n = true) (body_nodes b)) as H; [|by apply Forall_and in H].
  apply Forall_concat, Forall_map. eapply Forall_impl; [exact Hb|]. intros [n|a m n] [Hok Hun]; cbn [unrange]; [by repeat constructor|]. destruct Hok as (Ha & _).
  apply Forall_app. split; by apply Forall_replicate.
Qed.
Lemma bodies_body b fs : branch_ok b → fs ∈ bodies b → flat_body fs.
Proof. intros [H1 H2]%body_nodes_ok. by apply expand_body. Qed.

Lemma product_one {A} (x : list A) zss : product ([x] :: zss) = map (app x) (product zss).
Proof. unfold product. cbn. by rewrite app_nil_r. Qed.
Lemma product_last {A} (x : list A) zss : product (zss ++ [[x]]) = map (λ z, z ++ x) (product zss).
Proof.
  unfold product. induction zss as [|ys zss IH]; cbn [app foldr]; [cbn; by rewrite app_nil_r|]. rewrite IH. rewrite concat_map, map_map. f_equal. apply map_ext. intros y.
  rewrite !map_map. apply map_ext. intros z. by rewrite app_assoc.
Qed.
Lemma expand_branch b : expand_seq (concat (map unrange (branch_tops b))) = map (anchored b) (bodies b).
Proof.
  unfold branch_tops, bodies, anchored, expand_seq. rewrite !map_app, !concat_app, !map_app. fold (body_nodes b). set (zss := map expand_node (body_nodes b)).
  assert (product (zss ++ map expand_node (concat (map unrange (if ends b then [TNode (NAnchor false)] else [])))) = map (λ z, z ++ (if ends b then [FAnchor false] else [])) (product zss)) as E.
  { destruct (ends b); cbn [map concat unrange app expand_node]; [apply product_last|]. rewrite app_nil_r. symmetry. erewrite map_ext; [apply map_id|]. intros z. by rewrite app_nil_r. }
  destruct (starts b); cbn [map concat unrange app expand_node]; [rewrite product_one, E, map_map; done|exact E].
Qed.
Lemma expand_nonempty ns : Forall node_ok ns → expand_seq ns ≠ [].
Proof.
  assert (∀ ns, Forall (λ n, expand_node n ≠ []) ns → expand_seq ns ≠ []) as Hseq.
  { intros l Hl. induction Hl as [|n l Hn Hl IH]; [done|]. unfold expand_seq in *. cbn [map]. destruct (expand_node n) as [|y ys] eqn:E; [done|].
    destruct (product (map expand_node l)) as [|z zs] eqn:Ez; [done|]. intros H. assert (y ++ z ∈ product ((y :: ys) :: map expand_node l)) as Hin.
    { apply in_product. exists y, z. rewrite Ez. split_and!; [by constructor|by constructor|done]. }
    rewrite H in Hin. by apply elem_of_nil in Hin. }
  intros Hok. apply Hseq. eapply Forall_impl; [exact Hok|]. clear ns Hok. intros n. induction n as [a q|b|alts IH] using node_induction; [done|done|].
  rewrite node_ok_group. intros [Hne Hok]. cbn [expand_node]. destruct alts as [|sq alts]; [done|]. apply Forall_cons in IH as [IH _]. apply Forall_cons in Hok as [Hok _].
  assert (expand_seq sq ≠ []) as Hsq.
  { apply Hseq. apply Forall_forall. intros n Hn. rewrite Forall_forall in IH, Hok. apply IH; [done|by apply Hok]. }
  unfold expand_seq in Hsq. cbn [map concat]. by destruct (product (map expand_node sq)).
Qed.

(** One alternative is compiled. *)
Lemma compile_single_spec b fs : flat_body fs → opens fs <= 9 → compile_single (flats_text (anchored b fs)) [] = Done (Some (alt_of b fs, opens fs), []).
Proof.
  intros [Hok Hnest] Ho. apply Forall_and in Hok as [Hok Hun]. unfold compile_single. assert (alloc [] = Done (true, [])) as Ea by done. rewrite !(bind_done _ _ _ _ _ Ea). cbn [negb].
  rewrite (bind_done _ _ _ _ _ Ea). cbn [negb]. set (s0 := mk_cs [] [] [] 0).
  assert (Forall flat_ok (anchored b fs)) as Hok'.
  { unfold anchored. apply Forall_app. split; [destruct (starts b); by repeat constructor|]. apply Forall_app. split; [done|destruct (ends b); by repeat constructor]. }
  assert (nested (anchored b fs) 0 0) as Hnest'.
  { unfold anchored. assert (nested (fs ++ (if ends b then [FAnchor false] else [])) 0 0) as H by (apply Hnest; [lia|by destruct (ends b)]). by destruct (starts b). }
  pose proof (compile_flats (anchored b fs) (Z.of_nat (length (flats_text (anchored b fs)))) s0 (S (length (flats_text (anchored b fs)))) Hok' Hnest' ltac:(done) ltac:(lia) ltac:(cbn [toks s0 length]; lia) ltac:(cbn [ccl s0 length]; lia)) as Ec.
  rewrite (bind_liftO _ _ _ _ Ec). unfold anchored. rewrite !foldl_app. set (s1 := foldl flat_step s0 (if starts b then [FAnchor true] else [])).
  assert (toks s1 = (if starts b then [BEGIN] else []) ∧ ccl s1 = [] ∧ stack s1 = [] ∧ groups s1 = 0) as (T1 & C1 & S1 & G1) by (unfold s1; by destruct (starts b)).
  destruct (flat_steps fs s1 Hun) as (T2 & C2 & G2). rewrite T1, S1, G1, C1 in T2. rewrite C1 in C2. rewrite G1 in G2. cbn [app length] in T2, C2, G2. set (s2 := foldl flat_step s1 fs) in *.
  assert (toks (foldl flat_step s2 (if ends b then [FAnchor false] else [])) ++ [UNUSED] = alternative_tokens (alternative_of b fs)) as ET.
  { unfold alternative_tokens, alternative_of. cbn [bol elems eol]. destruct (ends b); cbn [foldl flat_step toks add]; rewrite T2, <- !app_assoc; done. }
  assert (ccl (foldl flat_step s2 (if ends b then [FAnchor false] else [])) = flat_bytes fs) as EC by (by destruct (ends b)).
  assert (groups (foldl flat_step s2 (if ends b then [FAnchor false] else [])) = opens fs) as EG by (by destruct (ends b)).
  by rewrite ET, EC, EG.
Qed.

(** ** What a compiled alternative matches *)

Lemma alt_compiled s b fs : Forall (λ c, c ≠ 0) s → flat_body fs → compiled s (alt_of b fs) (alternative_of b fs).
Proof.
  intros Hs [Hok _]. apply Forall_and in Hok as [Hok _]. split; [done|]. cbn [alt_of alternative_of elems alt_ccl]. split_and!.
  - pose proof (elems_decided s fs [] 0 [] [] Hok Hs) as H. cbn [app length] in H. rewrite app_nil_r in H. eapply Forall_impl; [exact H|]. intros [t q|g|g]; [|done..].
    intros [Ht Hc]. split; [done|]. intros c Hin. unfold sat_of. cbn [alt_of alt_ccl]. destruct (Hc c Hin) as [x ->]. done.
  - apply elems_distinct; [constructor|constructor].
  - apply Forall_forall. intros e He. apply marks_bound in He. destruct e as [t q|g|g]; [done|lia|]. destruct He as [He|He]; [by apply elem_of_nil in He|lia].
Qed.

Lemma accepts_flats s x fs st g pre post i j : Forall (λ c, c ≠ 0) s → Forall (λ f, flat_ok f ∧ is_anchor f = false) fs → alt_ccl x = pre ++ flat_bytes fs ++ post →
  (∃ ev, accepts s (sat_of x) (elems_of fs st g (Z.of_nat (length pre))) i j ev) ↔ flats_match s fs i j.
Proof.
  intros Hs Hfs. revert st g pre i. induction Hfs as [|f fs [Hf Ha] Hfs IH]; intros st g pre i Hcc.
  - cbn. split; [intros [ev H]; by inversion H|intros ->; exists []; constructor].
  - unfold flats_match. cbn [map chain foldr]. fold (chain (map (flat_matches s) fs)). fold (flats_match s fs). unfold flat_bytes in Hcc. cbn [map concat] in Hcc. fold (flat_bytes fs) in Hcc.
    destruct f as [a q|b| |]; [|done|..]; cbn [elems_of].
    + rewrite <- app_assoc in Hcc. assert (∀ c, c ≠ 0 → sat_of x (atom_token a (Z.of_nat (length pre))) c = atom_sat a c) as Hsat.
      { intros c Hc. unfold sat_of. rewrite Hcc, matchone_atom by done. done. }
      assert (∀ k, (∃ c, s.[k] = Some c ∧ sat_of x (atom_token a (Z.of_nat (length pre))) c = true) ↔ (∃ c, s.[k] = Some c ∧ atom_sat a c = true)) as Hk.
      { intros k. assert (∀ c, s.[k] = Some c → c ≠ 0) as Hnz.
        { intros c Ec. rewrite Forall_forall in Hs. apply Hs. unfold idx in Ec. destruct (k <? 0); [done|]. by eapply list_elem_of_lookup_2. }
        split; intros (c & Ec & Hc); exists c; (split; [done|]); pose proof (Hsat c (Hnz c Ec)); congruence. }
      specialize (IH st g (pre ++ atom_bytes a)). rewrite length_app, Nat2Z.inj_add in IH. split.
      * intros [ev H]. inversion H as [|t' q' n es' i' j' ev' Hal Hall Hacc| |]; subst. exists (i + n). split.
        -- exists n. split; [done|]. split; [destruct q; cbn in Hal; lia|]. split; [done|]. intros k Hki. by apply Hk, Hall.
        -- apply IH; [by rewrite <- app_assoc|]. by exists ev.
      * intros (m & (n & Hal & _ & -> & Hall) & H). apply IH in H as [ev H]; [|by rewrite <- app_assoc]. exists ev. econstructor; [exact Hal| |exact H]. intros k Hki. by apply Hk, Hall.
    + cbn [app] in Hcc. specialize (IH (g + 1 :: st) (g + 1) pre i Hcc). split.
      * intros [ev H]. inversion H; subst. exists i. split; [done|]. apply IH. by eexists.
      * intros (m & <- & H). apply IH in H as [ev H]. eexists. constructor. exact H.
    + cbn [app] in Hcc. split.
      * intros [ev H]. exists i. split; [done|]. destruct st as [|id st]; [apply (IH [] g pre i Hcc); by exists ev|]. inversion H; subst. apply (IH st g pre i Hcc). by eexists.
      * intros (m & <- & H). destruct st as [|id st]; [by apply (IH [] g pre i Hcc)|]. apply (IH st g pre i Hcc) in H as [ev H]. eexists. constructor. exact H.
Qed.

Lemma flats_within s fs i j : 0 <= i → flats_match s fs i j → 0 <= j.
Proof.
  revert i. induction fs as [|f fs IH]; intros i Hi; [by intros <-|]. intros (m & H1 & H2). apply (IH m); [|done].
  destruct f as [a q|b| |]; cbn in H1; [|destruct H1 as [-> _]; done|by subst..]. destruct H1 as (k & _ & Hk & -> & _). lia.
Qed.
Lemma matches_anchored s b fs i j : Forall (λ c, c ≠ 0) s → flat_body fs →
  (∃ ev, matches s (sat_of (alt_of b fs)) (alternative_of b fs) i j ev) ↔ 0 <= i ∧ flats_match s (anchored b fs) i j.
Proof.
  intros Hs [Hfs _]. assert (∀ i j, (∃ ev, accepts s (sat_of (alt_of b fs)) (elems_of fs [] 0 0) i j ev) ↔ flats_match s fs i j) as Hacc.
  { intros i' j'. pose proof (accepts_flats s (alt_of b fs) fs [] 0 [] [] i' j' Hs Hfs) as H. cbn [app length alt_of alt_ccl] in H. rewrite app_nil_r in H. by apply H. }
  assert (flats_match s (anchored b fs) i j ↔ (starts b = true → i = 0) ∧ flats_match s fs i j ∧ (ends b = true → j = Z.of_nat (length s))) as ->.
  { unfold anchored. rewrite flats_match_app.
    assert (∀ m, flats_match s (if starts b then [FAnchor true] else []) i m ↔ m = i ∧ (starts b = true → i = 0)) as H1.
    { intros m. destruct (starts b); [rewrite flats_match_one; cbn; unfold anchor_at; naive_solver|]. cbn. naive_solver. }
    assert (∀ m, flats_match s (if ends b then [FAnchor false] else []) m j ↔ m = j ∧ (ends b = true → j = Z.of_nat (length s))) as H2.
    { intros m. destruct (ends b); [rewrite flats_match_one; cbn; unfold anchor_at; naive_solver|]. cbn. naive_solver. }
    setoid_rewrite H1. setoid_rewrite flats_match_app. setoid_rewrite H2. naive_solver. }
  unfold matches. cbn [alternative_of bol elems eol]. rewrite <- Hacc. naive_solver.
Qed.
Lemma branch_expanded s b i j : branch_ok b → branch_matches s b i j ↔ ∃ fs, fs ∈ bodies b ∧ flats_match s (anchored b fs) i j.
Proof.
  intros Hb. unfold branch_matches. rewrite <- unranges_match.
  - rewrite expand_seq_matches, expand_branch. split.
    + intros (fs & (y & -> & Hy)%list_elem_of_fmap & H). by exists y.
    + intros (fs & Hy & H). exists (anchored b fs). split; [|done]. apply list_elem_of_fmap. by exists fs.
  - unfold branch_tops. apply Forall_app. split; [destruct (starts b); by repeat constructor|]. apply Forall_app. split; [|destruct (ends b); by repeat constructor].
    eapply Forall_impl; [exact Hb|]. by intros t [? _].
Qed.

(** ** regcomp and regexec *)

Section patterns.
Variable bs : list branch.

(** All flat patterns, each with its branch, and the number of groups of the last. *)
Definition choices : list (branch * list flat) := concat (map (λ b, map (pair b) (bodies b)) bs).
Definition last_groups : Z := foldl (λ _ p, opens (snd p)) 0 choices.
(** There is room in the captures: no flat pattern has more than nine groups, nor more
    than the last one, or the last one has none and there are no captures. *)
Definition groups_fit : bool :=
  forallb (λ p, opens (snd p) <=? 9) choices && ((last_groups =? 0) || forallb (λ p, opens (snd p) <=? last_groups) choices).
(** The length found for the branch is right: see [steady]. *)
Definition settled (b : branch) : bool := forallb (λ fs, steady (elems_of fs [] 0 0) (ends b)) (bodies b).

Hypothesis Hne : bs ≠ [].
Hypothesis Hok : Forall branch_ok bs.
Hypothesis Hfit : groups_fit = true.

Lemma in_choices b fs : (b, fs) ∈ choices ↔ b ∈ bs ∧ fs ∈ bodies b.
Proof.
  unfold choices. rewrite in_concat_map. split.
  - intros (b' & Hb & (fs' & [= -> ->] & Hfs)%list_elem_of_fmap). done.
  - intros [Hb Hfs]. exists b. split; [done|]. apply list_elem_of_fmap. by exists fs.
Qed.
Lemma choices_body b fs : (b, fs) ∈ choices → flat_body fs ∧ opens fs <= 9 ∧ (last_groups = 0 ∨ opens fs <= last_groups).
Proof.
  intros Hin. apply andb_true_iff in Hfit as [H9 Hl]. rewrite forallb_forall in H9. specialize (H9 _ ltac:(by apply list_elem_of_In)). cbn in H9. split_and!; [|lia|].
  - apply in_choices in Hin as [Hb Hfs]. rewrite Forall_forall in Hok. by apply (bodies_body b); [apply Hok|].
  - apply orb_true_iff in Hl as [Hl|Hl]; [left; lia|]. right. rewrite forallb_forall in Hl. specialize (Hl _ ltac:(by apply list_elem_of_In)). cbn in Hl. lia.
Qed.

Lemma compile_alts_spec l g : (∀ b fs, (b, fs) ∈ l → flat_body fs ∧ opens fs <= 9) →
  compile_alts (map (λ p, flats_text (anchored p.1 p.2)) l) g [] = Done (Some (map (λ p, alt_of p.1 p.2) l, foldl (λ _ p, opens (snd p)) g l), []).
Proof.
  revert g. induction l as [|[b fs] l IH]; intros g Hl; [done|]. cbn [map fst snd compile_alts foldl]. destruct (Hl b fs ltac:(by constructor)) as [Hb Ho].
  rewrite (bind_done _ _ _ _ _ (compile_single_spec b fs Hb Ho)). rewrite (bind_done _ _ _ _ _ (IH (opens fs) ltac:(intros b' fs' Hin; apply (Hl b' fs'); by constructor))). done.
Qed.
Lemma expand_choices : expand_all (unranged (map branch_tops bs)) = map (λ p, anchored p.1 p.2) choices.
Proof.
  unfold expand_all, unranged, choices. rewrite concat_map, !map_map. f_equal. apply map_ext. intros b. rewrite expand_branch, map_map. done.
Qed.
Lemma nodes_ok : Forall (Forall node_ok) (unranged (map branch_tops bs)).
Proof.
  unfold unranged. rewrite map_map. apply Forall_map. eapply Forall_impl; [exact Hok|]. intros b Hb. unfold branch_tops. rewrite !map_app, !concat_app.
  apply Forall_app. split; [destruct (starts b); by repeat constructor|]. apply Forall_app. split; [exact (proj1 (body_nodes_ok b Hb))|destruct (ends b); by repeat constructor].
Qed.

Lemma regcomp_spec preg0 : Z.of_nat (length (pattern_text bs)) < 2 ^ 60 → Z.of_nat (length (alts_text (unranged (map branch_tops bs)))) < 2 ^ 60 →
  regcomp preg0 (pattern_text bs) [] = Done ((0, mk_regex (Some (map (λ p, alt_of p.1 p.2) choices)) last_groups), []).
Proof.
  intros H1 H2. assert (Forall (Forall top_ok) (map branch_tops bs)) as Htop.
  { apply Forall_map. eapply Forall_impl; [exact Hok|]. intros b Hb. unfold branch_tops. apply Forall_app. split; [destruct (starts b); by repeat constructor|].
    apply Forall_app. split; [|destruct (ends b); by repeat constructor]. eapply Forall_impl; [exact Hb|]. by intros t [? _]. }
  unfold regcomp. rewrite (bind_done _ _ _ _ _ (expand_ranges_spec _ Htop H1 H2)). set (alts := unranged (map branch_tops bs)) in *.
  assert (alts ≠ []) as Hane by (unfold alts, unranged; by destruct bs).
  destruct (expand_alts_spec (S (length (alts_text alts))) alts empty_list Hane nodes_ok ltac:(lia)) as [k Ek]. rewrite (bind_done _ _ _ _ _ Ek). cbn [items empty_list app].
  unfold alts. rewrite expand_choices, map_map.
  assert (choices ≠ []) as Hcne.
  { unfold choices. destruct bs as [|b bs']; [done|]. apply Forall_cons in Hok as [Hb _]. pose proof (expand_nonempty _ (proj1 (body_nodes_ok b Hb))) as H. fold (bodies b) in H.
    cbn [map concat]. by destruct (bodies b). }
  rewrite length_map. destruct choices as [|p l] eqn:El; [done|]. rewrite <- El. assert (length choices =? 0 = false)%nat as -> by (by rewrite El).
  assert (alloc [] = Done (true, [])) as Ea by done. rewrite (bind_done _ _ _ _ _ Ea). cbn [negb]. rewrite (bind_done _ _ _ _ _ Ea). cbn [negb].
  rewrite (bind_done _ _ _ _ _ (compile_alts_spec choices 0 ltac:(intros b fs Hin; destruct (choices_body b fs Hin) as (? & ? & _); done))). done.
Qed.

(** The place of a flat pattern among the branches. *)
Lemma choices_order l n b fs : concat (map (λ b, map (pair b) (bodies b)) l) !! n = Some (b, fs) → ∃ m, l !! m = Some b ∧ fs ∈ bodies b ∧
  (∀ m' b' fs', (m' < m)%nat → l !! m' = Some b' → fs' ∈ bodies b' → ∃ n', (n' < n)%nat ∧ concat (map (λ b, map (pair b) (bodies b)) l) !! n' = Some (b', fs')) ∧
  (length (bodies b) = 1%nat → ∀ n' p, (n' < n)%nat → concat (map (λ b, map (pair b) (bodies b)) l) !! n' = Some p → ∃ m', (m' < m)%nat ∧ l !! m' = Some p.1).
Proof.
  revert n. induction l as [|b0 l IH]; intros n Hn; [done|]. cbn [map concat] in *. set (rest := concat (map (λ b, map (pair b) (bodies b)) l)) in *.
  apply lookup_app_Some in Hn as [Hn|[Hge Hn]].
  - exists O. pose proof (lookup_lt_Some _ _ _ Hn) as Hlt. rewrite length_map in Hlt. apply list_elem_of_lookup_2 in Hn as Hin. apply list_elem_of_fmap in Hin as (fs' & [= -> ->] & Hfs).
    split; [done|]. split; [done|]. split; [lia|]. lia.
  - rewrite length_map in *. apply IH in Hn as (m & Hm & Hfs & Hearly & Hone). exists (S m). split; [done|]. split; [done|]. split.
    + intros [|m'] b' fs' Hlt Hb Hin.
      * cbn in Hb. injection Hb as ->. apply list_elem_of_lookup_1 in Hin as [n' Hn']. exists n'. pose proof (lookup_lt_Some _ _ _ Hn'). split; [lia|].
        rewrite lookup_app_l by (rewrite length_map; lia). rewrite list_lookup_fmap, Hn'. done.
      * destruct (Hearly m' b' fs' ltac:(lia) Hb Hin) as (n' & Hlt' & E). exists (length (bodies b0) + n')%nat. split; [lia|]. rewrite lookup_app_r by (rewrite length_map; lia). rewrite length_map.
        by replace (length (bodies b0) + n' - length (bodies b0))%nat with n' by lia.
    + intros H1 n' p Hlt Hp. apply lookup_app_Some in Hp as [Hp|[Hge' Hp]].
      * exists O. split; [lia|]. apply list_elem_of_lookup_2, list_elem_of_fmap in Hp as (fs' & -> & _). done.
      * rewrite length_map in *. destruct (Hone H1 (n' - length (bodies b0))%nat p ltac:(lia) Hp) as (m' & Hm' & E). exists (S m'). split; [lia|done].
Qed.

(** What a caller of [regexec] learns from a match of a branch from [i] to [j]. *)
Definition found_match (s : list Z) (pmatch pm : list (Z * Z)) : Prop :=
  ∃ n b i j, bs !! n = Some b ∧ 0 <= i <= Z.of_nat (length s) ∧ branch_matches s b i j ∧
    (∀ m b' k j', (m < n)%nat → bs !! m = Some b' → 0 <= k <= Z.of_nat (length s) → ¬ branch_matches s b' k j') ∧
    (length (bodies b) = 1%nat → ∀ k j', 0 <= k < i → ¬ branch_matches s b k j') ∧
    (pmatch ≠ [] → ∃ e, pm.[0] = Some (i, e) ∧
      (settled b = true → starts b = false ∨ (length (bodies b) = 1%nat ∧ ∀ m b', (m < n)%nat → bs !! m = Some b' → starts b' = false) → e = j)).

(** The compiled pattern, its alternatives, and what they are proved to be. *)
Let xs : list regex_alt := map (λ p, alt_of p.1 p.2) choices.
Let as_ : list alternative := map (λ p, alternative_of p.1 p.2) choices.

Lemma last_groups_nonneg : 0 <= last_groups.
Proof.
  assert (∀ (l : list (branch * list flat)) g, 0 <= g → 0 <= foldl (λ _ p, opens (snd p)) g l) as H; [|by apply H].
  intros l. induction l as [|p l IH]; intros g Hg; [done|]. apply IH, opens_nonneg.
Qed.
Lemma choices_compiled s : Forall (λ c, c ≠ 0) s → Forall2 (compiled s) xs as_.
Proof.
  intros Hs. apply Forall2_fmap_2, Forall_Forall2_diag, Forall_forall. intros [b fs] Hin. apply alt_compiled; [done|]. by apply (choices_body b).
Qed.
Lemma choices_within : Forall (λ a, groups_within last_groups (elems a)) as_.
Proof.
  apply Forall_map, Forall_forall. intros [b fs] Hin. destruct (choices_body b fs Hin) as (_ & _ & [H0|Hle]); [by left|]. right. apply Forall_forall. intros e He.
  cbn [alternative_of elems fst snd] in He. apply marks_bound in He. destruct e as [t q|g|g]; [done|lia|]. destruct He as [He|He]; [by apply elem_of_nil in He|lia].
Qed.
(** An alternative that matches nowhere is a flat pattern that matches nowhere. *)
Lemma no_flat_match s n b fs i j : Forall (λ c, c ≠ 0) s → choices !! n = Some (b, fs) → (∀ ev, ¬ matches s (sat_of (alt_of b fs)) (alternative_of b fs) i j ev) →
  0 <= i → ¬ flats_match s (anchored b fs) i j.
Proof.
  intros Hs Hp Hnm Hi H. apply list_elem_of_lookup_2 in Hp. destruct (choices_body _ _ Hp) as (Hb & _).
  destruct (proj2 (matches_anchored s b fs i j Hs Hb)) as [ev Hm]; [done|]. by apply (Hnm ev).
Qed.
Lemma choices_lookup n b fs : choices !! n = Some (b, fs) → xs !! n = Some (alt_of b fs) ∧ as_ !! n = Some (alternative_of b fs).
Proof. intros Hp. unfold xs, as_. by rewrite !list_lookup_fmap, Hp. Qed.

Lemma regexec_patterns s rest pmatch : Forall (λ c, c ≠ 0) s →
  ∃ ret pm, regexec (mk_regex (Some xs) last_groups) (s ++ 0 :: rest) pmatch [] = Done ((ret, pm), []) ∧ length pm = length pmatch ∧
    ((ret = REG_NOMATCH ∧ pm = pmatch ∧ ∀ b i j, b ∈ bs → 0 <= i <= Z.of_nat (length s) → ¬ branch_matches s b i j) ∨ (ret = 0 ∧ found_match s pmatch pm)).
Proof.
  intros Hs. pose proof Hok as Hbs. rewrite Forall_forall in Hbs.
  destruct (regexec_spec s rest (mk_regex (Some xs) last_groups) xs as_ Hs eq_refl (choices_compiled s Hs) last_groups_nonneg choices_within pmatch) as (ret & pm & -> & Hlen & Hres).
  exists ret, pm. split; [done|]. split; [done|]. destruct Hres as [(-> & -> & Hno)|(-> & n & x & a & i & j & ev & (Ex & Ea & Hearly & Hi & Hfirst) & Hm & Hans & _)].
  - left. split; [done|]. split; [done|]. intros b i j Hb Hi H. apply branch_expanded in H as (fs & Hfs & H); [|by apply Hbs].
    assert ((b, fs) ∈ choices) as Hin by (by apply in_choices). apply list_elem_of_lookup_1 in Hin as [n Hn]. destruct (choices_lookup n b fs Hn) as [Ex Ea].
    eapply (no_flat_match s n b fs i j Hs Hn); [|lia|exact H]. intros ev. apply (Hno n _ _ Ex Ea i j ev). lia.
  - right. split; [done|]. unfold xs in Ex. apply list_lookup_fmap_Some in Ex as ([b fs] & -> & Hn). destruct (choices_lookup n b fs Hn) as [_ Ea']. rewrite Ea' in Ea. injection Ea as <-. cbn [fst snd] in *.
    destruct (choices_order bs n b fs Hn) as (m & Hmb & Hfs & Hbefore & Hone). assert (branch_ok b) as Hb by (apply Hbs; by eapply list_elem_of_lookup_2).
    destruct (choices_body b fs ltac:(by eapply list_elem_of_lookup_2)) as (Hbody & _). assert (0 <= i) as Hi0 by (by destruct Hm).
    exists m, b, i, j. split; [done|]. split; [lia|]. split_and!.
    + apply branch_expanded; [done|]. exists fs. split; [done|]. apply (matches_anchored s b fs i j Hs Hbody). by exists ev.
    + intros m' b' k j' Hlt Hb' Hk H. apply branch_expanded in H as (fs' & Hfs' & H); [|apply Hbs; by eapply list_elem_of_lookup_2].
      destruct (Hbefore m' b' fs' Hlt Hb' Hfs') as (n' & Hn' & En). destruct (choices_lookup n' b' fs' En) as [Ex' Ea2].
      eapply (no_flat_match s n' b' fs' k j' Hs En); [|lia|exact H]. intros ev'. apply (Hearly n' _ _ Hn' Ex' Ea2 k j' ev'). lia.
    + intros H1 k j' Hk H. apply branch_expanded in H as (fs' & Hfs' & H); [|done]. assert (fs' = fs) as ->.
      { destruct (bodies b) as [|y [|]]; try done. apply list_elem_of_singleton in Hfs, Hfs'. by subst. }
      eapply (no_flat_match s n b fs k j' Hs Hn); [|lia|exact H]. intros ev'. apply Hfirst. lia.
    + intros Hpm. destruct (Hans Hpm) as (e & E0 & He). exists e. split; [done|]. intros Hset Hor. apply He.
      * unfold settled in Hset. rewrite forallb_forall in Hset. apply (Hset fs). by apply list_elem_of_In.
      * cbn [alternative_of bol]. destruct Hor as [|[H1 Hst]]; [by left|]. right. intros n' a' Hlt Ea2. unfold as_ in Ea2. apply list_lookup_fmap_Some in Ea2 as (p & -> & Hp).
        destruct (Hone H1 n' p Hlt Hp) as (m' & Hm' & Eb). by apply (Hst m').
Qed.
End patterns.



(** ** Patterns outside the theorems *)

(** [regcomp] and [regexec] in sequence, with one entry for the match. *)
Definition try (pattern s : list Z) : outcome (Z * list (Z * Z) * list bool) :=
  (r ← regcomp (mk_regex None 0) pattern; regexec (snd r) (s ++ [0]) [(-1, -1)]) [].

(** b?b$ on bb and .*ab*c on abcab: the length is not the one of the match, which is
    why [steady] is needed. *)
Lemma length_after_failure : try [98; 63; 98; 36] [98; 98] = Done ((0, [(0, 3)]), []) ∧ try [46; 42; 97; 98; 42; 99] [97; 98; 99; 97; 98] = Done ((0, [(0, 4)]), []).
Proof. split; reflexivity. Qed.
(** ^ab$|^abc on abc: the length of the first alternative is added to the second. *)
Lemma length_of_second_start : try [94; 97; 98; 36; 124; 94; 97; 98; 99] [97; 98; 99] = Done ((0, [(0, 5)]), []).
Proof. reflexivity. Qed.
(** (a)(b)|(c) on ab: the captures have two entries, one group has none. *)
Lemma captures_overrun : try [40; 97; 41; 40; 98; 41; 124; 40; 99; 41] [97; 98] = Undef.
Proof. reflexivity. Qed.
(** b|a on ab: the first alternative that matches is taken, not the leftmost match. *)
Lemma not_leftmost : try [98; 124; 97] [97; 98] = Done ((0, [(1, 2)]), []).
Proof. reflexivity. Qed.
(** [[:digit:]a] on a: the character after the name of a class is stepped over. *)
Lemma class_name_skips : try [91; 91; 58; 100; 105; 103; 105; 116; 58; 93; 97; 93] [97] = Done ((REG_NOMATCH, [(-1, -1)]), []).
Proof. reflexivity. Qed.
(** (ab)* on abc and a class without its end read bytes that were not written. *)
Lemma unset_bytes : try [40; 97; 98; 41; 42] [97; 98; 99] = Undef ∧ try [97; 91] [97] = Undef.
Proof. split; reflexivity. Qed.
